(* ===== verification/_CoqProject ===== *)
-Q . S2P
Prelude.v
Bits.v
Entry.v
KeyObject.v
State.v
Hashing.v
Symbols.v
Random.v
Atomics.v
Table.v
Contents.v
Store.v
Locks.v
Cells.v
Search.v
Relocate.v
AddEntry.v
Scalar.v
Finger.v
Insert.v
Iter.v
Api.v
Alloc.v
Verify.v
Lookup.v
Preserve.v
Order.v
Linked.v
Spine.v
Sample.v
IterSpec.v
Place.v
Frame.v
TableSpec.v
Contended.v
Crowded.v
Vectorized.v
VectorLib.v
Dictionary.v
InsertSpec.v
Fields.v
Nodes.v
TreeInsert.v
SplitPath.v
Growth.v
NewLeaf.v
Inserted.v
LeafTable.v
JumpTree.v
JumpTable.v
JumpNodes.v
Upgrade.v
Locked.v
Stale.v
Writes.v
PathLocks.v
Room.v
SplitNodes.v
SplitLeaf.v
SplitPublish.v
SplitKey.v
SplitJump.v
JumpFinger.v
Publish.v
NewKey.v
JumpSpec.v
InsertAgree.v
Seqlock.v
Float32.v
MtDebug.v
Scheduling.v
RandomDist.v
Dataset.v
DatasetSpec.v
