(* ===== verification/Prelude.v ===== *)
(** * The Cuckoo Trie (C library): a verification development

    The Cuckoo Trie is an ordered index of variable-length keys. Keys are read
    as strings of 5-bit symbols; the trie over these strings is not linked by
    pointers but stored, one node per entry, in a cuckoo hash table: the hash of
    a key prefix gives two buckets of four cells and a 4-bit tag, and a small
    color tells nodes of the same hash apart. A lookup can therefore compute
    where all the nodes on its path are before it reads any. Leaves are linked
    into a list in key order for iterators. Operations of several threads
    synchronise by a lock byte and a sequence counter per bucket.

    The program under src/ has two implementations, main.c and
    main_vectorized.c, which differ in how they scan a bucket and initialise
    the table and share everything else. The model is of the MULTITHREADING
    build, 5 bits per symbol, as config.h has it.

    ** The files of the development

<<
    file         models (under src/)                what it holds
    ----------   --------------------------------   -----------------------------------
    Prelude      -                                  C integers, the state monad, tactics
    Bits         util.c                             strings of bits
    Entry        cuckoo_trie_internal.h, main.c     the packed 15-byte entry, accessors
    KeyObject    key_object.h                       keys, values, the order of keys
    State        main.h, atomics.h, main.c          buckets, trie, locks, thread state
    Hashing      main.c                             prefix hashes, mix_bucket
    Symbols      main.c                             keys to symbols, the prefetcher
    Random       random.c, main.c                   the generator and the mix table
    Atomics      atomics.c, atomics.h               locks, sequence counters, accesses
    Table        main.c                             find, update, relocate, add, remove
    Scalar       main.c                             bucket scans cell by cell
    Vectorized   main_vectorized.c                  bucket scans by vector compares
    VectorLib    main_vectorized.c                  the library over the vector scans
    Finger       main.c, main.h                     the path from the root, predecessors
    Insert       main.c                             create_root .. create_leaf
    Iter         main.c                             ct_iter_alloc, _goto, _next
    Api          main.c, cuckoo_trie.h              ct_insert, _upsert, _lookup, _update
    Alloc        main.c, util.c                     ct_alloc, ct_free
    Verify       verify_trie.c                      ct_verify_trie
    Seqlock      atomics.c, atomics.h               many threads on one bucket
    Float32      random.c                           rand_float, binary32 rounding
    MtDebug      mt_debug.c                         the scheduler of debug builds
    RandomDist   random_dist.c                      uniform and Zipf distributions
    Dataset      dataset.c, util.c                  sources of keys, growing buffers
    ----------   --------------------------------   -----------------------------------
    Contents     the table as a map from hash and color to entry; its invariant
    Store        exact effect of the writes of atomics.c on a table
    Locks        the lock manager against the lock bytes of the table
    Cells        the table as a map from positions, with a hole
    Search       the breadth-first search for a free cell
    Relocate     moving entries along the path that the search found
    AddEntry     putting a new entry into the table
    Lookup       a trie as a tree, its representation in a table, the descent
    Preserve     tables with the same contents store the same trie
    Order        the leaves of the tree, sorted by key
    Linked       maximal leaves and the leaf list
    Spine        the finger's path; the search for a predecessor
    Sample       deciding the invariants of a concrete table
    TableSpec    the theorems on the hash table
    Contended    relocation while other threads hold locks; a defect
    Crowded      a table of 64 buckets with 68 keys; a defect
    Dictionary   ct_lookup and ct_update as operations of a dictionary
    IterSpec     iterators enumerate the keys in order
    InsertSpec   ct_insert and ct_upsert where no node changes its place
    Place        where a new key belongs: the end of the descent
    Frame        a change of some entries that leaves a subtree stored
    Fields       entries that agree on some of their fields
    Nodes        the entries that insertions build
    TreeInsert   the tree with a new leaf: at a bitmap node, a leaf, a jump node
    SplitPath    the jump nodes and the bitmap node for the common part of two keys
    Growth       a subtree with a new leaf, seen from the root
    NewLeaf      the table and the leaf list with a new leaf at a bitmap node
    Inserted     ct_insert and lookups after an attempt that succeeds
    LeafTable    the table and the leaf list after a leaf was split
    JumpTree     the tree with a jump node that is split
    JumpTable    the table after a jump node was split
    JumpNodes    the entries that the split of a jump node builds
    Upgrade      taking the locks of a path
    Locked       what taking locks leaves as it was
    Stale        copies of entries that are out of date; giving up
    Writes       rewriting the cells of locked entries
    PathLocks    the locked copies; the locks that split_leaf takes
    Room         adding several entries to a table with room for them
    SplitNodes   adding the nodes of the path, from the bottom up
    SplitLeaf    adding the leaves and the nodes of a leaf split
    SplitPublish making the two leaves reachable
    SplitKey     ct_insert of a key that belongs to the leaf of another key
    SplitJump    the steps of split_jump_node
    JumpFinger   the finger after the split of a jump node
    Publish      linking a new leaf and announcing it to its parents
    NewKey       ct_insert of a key that belongs to a bitmap node
    JumpSpec     ct_insert of a key that leaves a jump node
    InsertAgree  ct_insert of any new key, by both libraries
    Scheduling   the invariant of the scheduler and its threads
    DatasetSpec  build_kvs lays out the keys that a data set gives
>>

    ** How the program is modelled

    A C function is a definition of the same name. One that only computes is a
    function on [Z] (machine words, wrapped explicitly), on the bytes of an
    entry or of a key. One that touches the trie is a program in the monad
    [M state]: [Ret a s], [Fault] (a failed assertion, an access out of bounds,
    a read of memory that does not exist), or [Spin] (a loop that waits
    longer than its bound, e.g. for another thread). [state] has the trie with
    all its buckets, the lock manager of the finger in use, and the
    key-value objects of the caller by address. Pointers into the table are
    positions (bucket, cell). A function that modifies a local structure
    through a pointer returns its new value.

    Assertions of functions in the monad are part of the definitions ([assert],
    [Fault] when it fails), so that a theorem that says an operation returns
    says that they hold. The assertions of the functions that only compute are not
    tested, because these functions have no way to fail. They are: the type of
    the entry, in the typed accessors of cuckoo_trie_internal.h; the symbol
    index in [get_string_symbol]; the symbol in [extend_jump_node]; the number
    of bits in [extract_bits] and [put_bits], the value in [set_bit] and the
    end in [last_bit_before]; the range of the hash in [accumulate_hash] and
    the inverse in [unmix_bucket]. The last two are proved
    ([accumulate_hash_permutes], [bucket_pair_involution]), as is the one at
    the end of [put_bits] ([put_bits_extract_bits]); the theorems on bit
    strings assume what these functions assert, and nothing is claimed of the
    rest. The assertions of [unused_color_in_pair]
    and of the scalar search by parent are tested by their callers in Table.v.
    Assertions on constants (sizes and offsets) are left out.

    Values that C leaves undefined or that the environment chooses are fields
    of the class [Env]: uninitialised stack memory ([garbage_entry],
    [garbage_byte]), the address of a key and the bytes around it in memory
    (which the vectorised [key_to_symbols] reads), and [retry_fuel], how often
    an operation that finds interference is repeated. The theorems hold for
    every instance; the last only has to be positive, and 2 for a key that
    leaves a jump node. [mmap] and [malloc] are parameters of [ct_alloc];
    [munmap] has no effect in the model.

    ** Interfaces

    [Table.BucketOps] are the three scans of a bucket that the rest of the
    library calls, with an assertion that only main.c has, and
    [Contents.BucketLaws] is what it expects of them. Scalar.v and
    Vectorized.v each give an instance of both, so all theorems hold for the
    two libraries, with and without AVX-512.

    ** What the theorems show

    Data. Fields of entries and of bit strings are independent and read back
    what was stored ([put_bits_extract_bits], [entry_kv_roundtrip],
    [extend_jump_node_appends], [word_updates_are_field_updates],
    [last_bit_before_correct]); keys lexicographically, as do their strings of symbols
    ([kv_key_compare_lexicographic], [symbol_order_is_key_order]); the
    vectorised conversion of keys agrees with the scalar one whatever lies
    around the key ([key_to_symbols_correct]); the prefetcher's buffers suffice
    up to 255 bytes ([prefetcher_start_keys]).

    Hashing. The prefix hash is a permutation for each symbol, the two buckets
    of a pair differ, and each is found from the other and the tag
    ([accumulate_hash_permutes], [bucket_pair_involution]).

    The table. [Contents.table_ok] is its invariant, [contents] what it holds:
    a map from hash and color to entry. The search for a free cell ends and
    gives up only when no reachable bucket has one ([relocate_search_terminates]);
    moving entries keeps the contents ([relocate_entry_correct]) and so every
    lookup ([relocation_preserves_lookups]); [add_entry] adds one binding
    ([add_entry_correct]). Locks are returned ([bucket_lock_roundtrip],
    [release_all_locks_correct]).

    The dictionary. [Lookup.tnode] is the specification: a tree over symbols.
    [trie_rep s n] says that the table of [s] stores [n]. [ct_lookup] finds
    what the tree has and nothing else ([ct_lookup_correct]); [ct_update] and
    [ct_upsert] change one key ([ct_update_correct], [ct_upsert_existing]);
    the first insertion and the rejected ones do what they should
    ([ct_insert_first], [ct_insert_rejects]). [Place.tplace] is the place of a
    new key in the tree, [TreeInsert.tinsert] the tree with its leaf. A new key
    that belongs to a bitmap node is added there ([ct_insert_new_leaf]); one
    that meets the leaf of another key splits it: jump nodes for the symbols
    the two keys share, a bitmap node and two leaves ([ct_insert_split_leaf]).
    One that leaves a jump node cuts it around a new bitmap node and becomes a
    child of that node ([ct_insert_split_jump]). The cut writes to buckets of
    the finger's path, so the copies in the finger may be out of date
    afterwards; the first attempt then gives up, with the node cut and all
    leaves as they were, and the second one finishes ([Stale.gave_up]).
    [NewLeaf.owned] is an invariant on the colors of parents that makes a new
    child the only one its parent can find; [Room.rooms] decides whether the
    bucket pairs of the new entries have free cells for all of them.
    [ordered_rep s n L] adds the links of the leaves: [L] are the leaves in
    order, every inner node names the last leaf below it, and the leaf list
    runs through [L]. Then iterators return the keys from any given one on, in increasing order
    ([ct_iter_in_order]). Further, [ct_alloc] gives an empty,
    well-formed trie or NULL ([ct_alloc_correct]); the two libraries agree
    ([lookup_libraries_agree], [insert_libraries_agree],
    [vectorized_scans_agree], [allocs_agree]). Most theorems on
    operations are for keys of at most 255 bytes, because the prefetcher's buffer
    overflows for the 256 bytes that MAX_KEY_BYTES allows.

    Threads. Seqlock.v is a step relation in which a step is one access of
    one of any number of threads to one bucket. Reads that find the sequence
    word unchanged are consistent ([reads_are_consistent]), the lock excludes
    ([lock_mutual_exclusion]), and a locked bucket becomes free by its holder's
    next steps ([bucket_progress]). The sequential [write_entry] of Atomics.v
    is an execution of the steps ([write_entry_is_execution]).

    The debug build's scheduler (MtDebug.v) is a step relation of its own. The
    condition variable is modelled as POSIX has it: the test of the
    condition, the going to sleep (which gives the lock back) and each
    broadcast (which wakes the threads that sleep at that moment) are
    separate steps, and threads may wake up for no reason. Accesses are
    serialised and no assertion fails ([accesses_serialised]); no thread
    sleeps through its turn unless a broadcast is on its way
    ([Scheduling.wake_ok]), so that some thread always gets on, without
    any other wake-up ([scheduler_progress]); every thread can be chosen
    ([next_turn_can_choose], which needs the rounding of floats). Two defects
    are proved: a thread that finishes before the start blocks the others
    ([done_before_start_blocks]), and disabling the scheduler can leave a
    thread asleep for ever ([set_enabled_loses_wake_up]). The main thread of
    the tests starts the scheduler while it is enabled, as
    [ct_mtdbg_start] asserts; nobody enables it again.

    Data sets. A file of keys is read back as it was written, into one buffer
    of consecutive objects ([dataset_file_roundtrip]); [RandomDist] finds the
    range of a number by binary search and draws numbers below the maximum
    ([rand_dist_rank]).

    Defects. When another thread holds a bucket in the middle of the path that
    [relocate_entry] found, everything it did is undone and its final
    assertion fails ([Contended.relocate_retry_assertion]).
    [split_jump_node] uses a pointer to an entry that [add_entry] may have
    moved; Crowded.v has a run in which this destroys a lookup
    ([split_jump_node_stale_child]). [copy_bits_correct] and
    [prefetcher_start_keys] state two more, and the scheduler has the two
    named above.

    ** Bounds and fuel

    The search of [relocate_entry] has [RELOCATE_QUEUE_SIZE + 2] rounds: each
    advances in a queue of that size, so it never ends for lack of rounds
    (a theorem). The loops over the symbols of a key have one round per symbol
    and [MAX_KEY_SYMBOLS + 1] rounds, as the arrays of the code. A search for an
    entry by its hash and color counts its rounds as the code does, and the
    assertion [count < 100] fails ([Fault]) after [FIND_ROUNDS] rounds without
    the entry; the theorems show that the first round finds it. The loops over a list of
    known length have that length as fuel. A relocation may lock as many
    buckets as its path is long; that the array of [MAX_LOCKS] records has
    room is a hypothesis ([path_room]) of the theorems on relocation, because
    the code does not ensure it. Reference counts are 32-bit words, and the
    theorems assume that they have not come near 2^32; reads assume that
    fewer than 2^23 writes of the bucket begin while they run.

    ** Not modelled

    Printing and the cycle counters of COLLECT_STATISTICS are output only.
    Prefetch instructions have no effect on memory. benchmark.c and test.c
    drive the library. The seeding of random.c from the clock is left out, and
    the arithmetic on doubles of random_dist.c is a parameter.
    Operations are run by one thread: the interleaving of whole operations of
    several threads is only modelled on the level of one bucket (Seqlock.v), and
    in Contended.v, where other threads hold locks all the time.

    All paths of an insertion are modelled. The theorems on the insertion of a
    new key assume free cells for the new entries: none of them covers an
    insertion for which [add_entry] has to move entries. *)

From stdpp Require Import base list gmap.
From Stdlib Require Import ZArith Lia Bool Btauto.

#[local] Open Scope Z_scope.

(** ** Machine integers

    A w-bit unsigned C integer is a [Z] in [[0, 2^w)]; [wrap w] is the
    conversion C performs on an assignment. *)

Definition wrap (w x : Z) : Z := x mod 2 ^ w.

Declare Scope cint_scope.
Delimit Scope cint_scope with cint.
Notation "'u8' x" := (wrap 8 x) (at level 10, x at level 9) : cint_scope.
Notation "'u16' x" := (wrap 16 x) (at level 10, x at level 9) : cint_scope.
Notation "'u32' x" := (wrap 32 x) (at level 10, x at level 9) : cint_scope.
Notation "'u64' x" := (wrap 64 x) (at level 10, x at level 9) : cint_scope.
Infix ".&" := Z.land (at level 54, left associativity) : cint_scope.
Infix ".|" := Z.lor (at level 58, left associativity) : cint_scope.
Infix ".^" := Z.lxor (at level 56, left associativity) : cint_scope.
Infix ".<<" := Z.shiftl (at level 52, left associativity) : cint_scope.
Infix ".>>" := Z.shiftr (at level 52, left associativity) : cint_scope.
#[global] Open Scope cint_scope.

(** [~ x] on a w-bit unsigned operand. *)
Definition bnot (w x : Z) : Z := Z.lxor x (Z.ones w).

(** The signed reading of a 64-bit word (two's complement). *)
Definition to_signed (w x : Z) : Z :=
  if x <? 2 ^ (w - 1) then x else x - 2 ^ w.

Definition is_byte (b : Z) : Prop := 0 <= b < 256.
Definition bytes_ok (l : list Z) : Prop := Forall is_byte l.

(** A word given by its bits: bit [i] of [from_bits n f] is [f i]. *)
Fixpoint from_bits (n : nat) (f : Z -> bool) : Z :=
  match n with
  | O => 0
  | S k => from_bits k f + (if f (Z.of_nat k) then 2 ^ Z.of_nat k else 0)
  end.

(** Little-endian view of memory: the integer loaded from the given bytes. *)
Fixpoint le_combine (l : list Z) : Z :=
  match l with
  | [] => 0
  | b :: t => b + 256 * le_combine t
  end.

(** The [n] bytes a little-endian store of [x] leaves in memory. *)
Fixpoint le_split (n : nat) (x : Z) : list Z :=
  match n with
  | O => []
  | S k => x mod 256 :: le_split k (x / 256)
  end.

(** Compiler builtins the source uses. *)
Definition bswap32 (x : Z) : Z := le_combine (rev (le_split 4 x)).
Definition bswap64 (x : Z) : Z := le_combine (rev (le_split 8 x)).

(** [ctz w x]: number of trailing zeros; undefined in C for 0 (here [w]). *)
Fixpoint ctz (w : nat) (x : Z) : Z :=
  match w with
  | O => 0
  | S k => if Z.odd x then 0 else 1 + ctz k (x / 2)
  end.

(** [bzhi x n]: clear the bits of [x] from position [n] up. *)
Definition bzhi (x n : Z) : Z := Z.land x (Z.ones n).

(** [bextr x start len]: the [len] bits of [x] from [start]. *)
Definition bextr (x start len : Z) : Z := Z.land (Z.shiftr x start) (Z.ones len).

Fixpoint popcount_below (n : nat) (m : Z) : Z :=
  match n with
  | O => 0
  | S k => popcount_below k m + (if Z.testbit m (Z.of_nat k) then 1 else 0)
  end.

(** [pdep x m]: deposit the low bits of [x] at the set bits of [m]. *)
Definition pdep64 (x m : Z) : Z :=
  from_bits 64 (fun j => Z.testbit m j && Z.testbit x (popcount_below (Z.to_nat j) m)).

(** ** Outcomes

    An operation runs on a machine state and either returns, stops at a
    failed [assert] or an access outside an array ([Fault]), or stays in a
    loop whose condition can no longer change ([Spin]). *)

Inductive outcome (S A : Type) : Type :=
| Ret (a : A) (s : S)
| Fault
| Spin.
Arguments Ret {S A} _ _.
Arguments Fault {S A}.
Arguments Spin {S A}.

Definition M (S A : Type) : Type := S -> outcome S A.

#[global] Instance M_ret (S : Type) : MRet (M S) := fun A a s => Ret a s.
#[global] Instance M_bind (S : Type) : MBind (M S) := fun A B f m s =>
  match m s with
  | Ret a s' => f a s'
  | Fault => Fault
  | Spin => Spin
  end.

Definition fault {S A : Type} : M S A := fun _ => Fault.
Definition spin {S A : Type} : M S A := fun _ => Spin.
Definition gets {S A : Type} (f : S -> A) : M S A := fun s => Ret (f s) s.
Definition modify {S : Type} (f : S -> S) : M S unit := fun s => Ret tt (f s).
Definition assert {S : Type} (b : bool) : M S unit := if b then mret tt else fault.
Definition lift {S A : Type} (o : option A) : M S A :=
  match o with Some a => mret a | None => fault end.
Definition when {S : Type} (b : bool) (m : M S unit) : M S unit :=
  if b then m else mret tt.

(** [loop n body a]: iterate [body] from [a] until it produces [inr b]; at
    most [n] iterations, then [Spin]. *)
Fixpoint loop {S A B : Type} (n : nat) (body : A -> M S (A + B)) (a : A) : M S B :=
  match n with
  | O => spin
  | S k => r ← body a;
           match r with
           | inl a' => loop k body a'
           | inr b => mret b
           end
  end.

(** [for_each l f a]: a C [for] loop over [l] carrying [a]. *)
Fixpoint for_each {S A B : Type} (l : list B) (f : A -> B -> M S A) (a : A) : M S A :=
  match l with
  | [] => mret a
  | x :: t => a' ← f a x; for_each t f a'
  end.

(** A step succeeds with a result satisfying [Q]. *)
Definition returns {S A : Type} (m : M S A) (s : S) (Q : A -> S -> Prop) : Prop :=
  match m s with Ret a s' => Q a s' | _ => False end.

Lemma bind_Ret {S A B : Type} (m : M S A) (f : A -> M S B) (s s' : S) (a : A) :
  m s = Ret a s' -> (m ≫= f) s = f a s'.
Proof. intros H. unfold mbind, M_bind. now rewrite H. Qed.

Lemma bind_Ret_inv {S A B : Type} (m : M S A) (f : A -> M S B) (s s' : S) (b : B) :
  (m ≫= f) s = Ret b s' -> exists a s1, m s = Ret a s1 /\ f a s1 = Ret b s'.
Proof.
  unfold mbind, M_bind. destruct (m s) as [a s1 | |]; try discriminate. eauto.
Qed.

Lemma assert_true {S : Type} (b : bool) (s : S) : b = true -> assert b s = Ret tt s.
Proof. now intros ->. Qed.

Lemma loop_inr {S A B : Type} (n : nat) (body : A -> M S (A + B)) (a : A) (s s' : S) (b : B) :
  body a s = Ret (inr b) s' -> loop (Datatypes.S n) body a s = Ret b s'.
Proof. intros H. cbn [loop]. now erewrite bind_Ret by exact H. Qed.

Lemma loop_inl {S A B : Type} (n : nat) (body : A -> M S (A + B)) (a a' : A) (s s' : S) :
  body a s = Ret (inl a') s' -> loop (Datatypes.S n) body a s = loop n body a' s'.
Proof. intros H. cbn [loop]. now erewrite bind_Ret by exact H. Qed.

Lemma for_each_cons {S A B : Type} (x : B) (l : list B) (f : A -> B -> M S A) (a a' : A) (s s' : S) :
  f a x s = Ret a' s' -> for_each (x :: l) f a s = for_each l f a' s'.
Proof. intros H. cbn [for_each]. now erewrite bind_Ret by exact H. Qed.

(** A loop that only reads, by an invariant and a decreasing measure. *)
Lemma loop_total {S A B : Type} (I : A -> Prop) (J : B -> Prop) (mu : A -> Z) (body : A -> M S (A + B)) (s : S) :
  (forall a, I a -> 0 <= mu a) ->
  (forall a, I a -> (exists b, body a s = Ret (inr b) s /\ J b) \/
                    (exists a', body a s = Ret (inl a') s /\ I a' /\ mu a' < mu a)) ->
  forall n a, I a -> mu a < Z.of_nat n -> exists b, loop n body a s = Ret b s /\ J b.
Proof.
  intros Hpos Hstep. induction n as [|n IH]; intros a Ha Hn; [pose proof (Hpos a Ha); lia|].
  destruct (Hstep a Ha) as [(b & E & Hb)|(a' & E & Ha' & Hlt)].
  - exists b. split; [exact (loop_inr _ _ _ _ _ _ E)|done].
  - destruct (IH a' Ha' ltac:(lia)) as (b & El & Hb). exists b. split; [|done]. rewrite (loop_inl _ _ _ _ _ _ E). exact El.
Qed.

(** What a loop maintains, if it ends. *)
Lemma loop_inv {S A B : Type} (I : A -> Prop) (J : B -> Prop) (body : A -> M S (A + B)) :
  (forall a s r s', I a -> body a s = Ret r s' -> match r with inl a' => I a' | inr b => J b end) ->
  forall n a s b s', I a -> loop n body a s = Ret b s' -> J b.
Proof.
  intros Hbody. induction n as [|n IH]; intros a s b s' Ha E; [discriminate|].
  cbn [loop] in E. destruct (bind_Ret_inv _ _ _ _ _ E) as (r & s1 & E1 & E2). specialize (Hbody a s r s1 Ha E1).
  destruct r as [a'|b']; [exact (IH a' s1 b s' Hbody E2)|]. injection E2 as <- <-. exact Hbody.
Qed.

(** A [for] loop that only reads the state. *)
Lemma for_each_inv {S A B : Type} (I : A -> Prop) (l : list B) (f : A -> B -> M S A) (a : A) (s : S) :
  I a -> (forall a x, x ∈ l -> I a -> exists a', f a x s = Ret a' s /\ I a') ->
  exists a', for_each l f a s = Ret a' s /\ I a'.
Proof.
  revert a. induction l as [|x l IH]; intros a Ha Hf; [now exists a|].
  destruct (Hf a x ltac:(left) Ha) as (a1 & E & Ha1). rewrite (for_each_cons x l f a a1 s s E).
  apply IH; [done|]. intros a2 y Hy. apply Hf. now right.
Qed.

(** A [for] loop over [start .. start + n - 1] that only reads the state. *)
Lemma for_each_seq_inv {S A : Type} (I : nat -> A -> Prop) (start n : nat) (f : A -> nat -> M S A) (a : A) (s : S) :
  I start a ->
  (forall a i, (start <= i < start + n)%nat -> I i a -> exists a', f a i s = Ret a' s /\ I (Datatypes.S i) a') ->
  exists a', for_each (seq start n) f a s = Ret a' s /\ I (start + n)%nat a'.
Proof.
  revert start a. induction n as [|n IH]; intros start a Ha Hf.
  - exists a. split; [done|]. now rewrite Nat.add_0_r.
  - destruct (Hf a start ltac:(lia) Ha) as (a1 & E & Ha1). cbn [seq]. rewrite (for_each_cons start _ f a a1 s s E).
    rewrite Nat.add_succ_r. apply (IH (Datatypes.S start)); [done|]. intros a2 i Hi. apply Hf. lia.
Qed.

Lemma returns_Ret {S A : Type} (m : M S A) (s : S) (Q : A -> S -> Prop) :
  returns m s Q <-> exists a s', m s = Ret a s' /\ Q a s'.
Proof.
  unfold returns. destruct (m s); split; try easy.
  - intros H; eauto.
  - intros (a' & s' & [= <- <-] & H); exact H.
  - intros (? & ? & ? & _); discriminate.
  - intros (? & ? & ? & _); discriminate.
Qed.

(** ** Lookup by a C index *)

Definition zlookup {A : Type} (l : list A) (i : Z) : option A :=
  if 0 <=? i then l !! Z.to_nat i else None.
Definition zset {A : Type} (l : list A) (i : Z) (x : A) : list A :=
  if 0 <=? i then <[Z.to_nat i := x]> l else l.
Definition byte_at (l : list Z) (i : nat) : Z := nth i l 0.

Lemma zlookup_Some {A : Type} (l : list A) (i : Z) (x : A) :
  zlookup l i = Some x -> 0 <= i < Z.of_nat (length l).
Proof.
  unfold zlookup. destruct (Z.leb_spec 0 i); [|discriminate].
  intros Hl%lookup_lt_Some. lia.
Qed.

Lemma zlookup_lt {A : Type} (l : list A) (i : Z) :
  0 <= i < Z.of_nat (length l) -> is_Some (zlookup l i).
Proof.
  intros Hi. unfold zlookup. destruct (Z.leb_spec 0 i); [|lia].
  apply lookup_lt_is_Some_2. lia.
Qed.

Lemma length_zset {A : Type} (l : list A) (i : Z) (x : A) :
  length (zset l i x) = length l.
Proof. unfold zset. destruct (0 <=? i); [apply length_insert|done]. Qed.

Lemma zlookup_zset_eq {A : Type} (l : list A) (i : Z) (x : A) :
  0 <= i < Z.of_nat (length l) -> zlookup (zset l i x) i = Some x.
Proof.
  intros Hi. unfold zlookup, zset. destruct (Z.leb_spec 0 i); [|lia].
  apply list_lookup_insert_eq. lia.
Qed.

Lemma zlookup_zset_ne {A : Type} (l : list A) (i j : Z) (x : A) :
  i <> j -> zlookup (zset l i x) j = zlookup l j.
Proof.
  intros Hi. unfold zlookup, zset.
  destruct (Z.leb_spec 0 j); [|done]. destruct (Z.leb_spec 0 i); [|done].
  apply list_lookup_insert_ne. lia.
Qed.

Lemma zset_zset_eq {A : Type} (l : list A) (i : Z) (x y : A) :
  zset (zset l i x) i y = zset l i y.
Proof. unfold zset. destruct (0 <=? i); [apply list_insert_insert_eq|done]. Qed.

Lemma zset_id {A : Type} (l : list A) (i : Z) (x : A) :
  zlookup l i = Some x -> zset l i x = l.
Proof.
  unfold zlookup, zset. destruct (0 <=? i); [|done]. apply list_insert_id.
Qed.

(** ** Bit-level lemmas *)

Lemma testbit_high (w x i : Z) : 0 <= x < 2 ^ w -> 0 <= w <= i -> Z.testbit x i = false.
Proof.
  intros Hx Hi. rewrite <- (Z.mod_small x (2 ^ w)) by lia.
  apply Z.mod_pow2_bits_high. lia.
Qed.

Lemma bits_eq (w x y : Z) :
  0 <= w -> 0 <= x < 2 ^ w -> 0 <= y < 2 ^ w ->
  (forall i, 0 <= i < w -> Z.testbit x i = Z.testbit y i) -> x = y.
Proof.
  intros Hw Hx Hy H. apply Z.bits_inj'. intros i Hi.
  destruct (Z.lt_ge_cases i w); [apply H; lia|].
  rewrite !(testbit_high w) by lia. done.
Qed.

Lemma testbit_wrap (w x i : Z) :
  0 <= w -> 0 <= i -> Z.testbit (wrap w x) i = (i <? w) && Z.testbit x i.
Proof.
  intros Hw Hi. unfold wrap. destruct (Z.ltb_spec i w).
  - now rewrite Z.mod_pow2_bits_low by lia.
  - now rewrite Z.mod_pow2_bits_high by lia.
Qed.

Lemma wrap_bound (w x : Z) : 0 <= w -> 0 <= wrap w x < 2 ^ w.
Proof. intros. unfold wrap. apply Z.mod_pos_bound. lia. Qed.

Lemma wrap_small (w x : Z) : 0 <= x < 2 ^ w -> wrap w x = x.
Proof. intros. unfold wrap. now apply Z.mod_small. Qed.

Lemma testbit_ones (n i : Z) : 0 <= n -> 0 <= i -> Z.testbit (Z.ones n) i = (i <? n).
Proof.
  intros Hn Hi. destruct (Z.ltb_spec i n).
  - apply Z.ones_spec_low; lia.
  - apply Z.ones_spec_high; lia.
Qed.

Lemma testbit_shl (x n i : Z) :
  0 <= i -> 0 <= n -> Z.testbit (Z.shiftl x n) i = (n <=? i) && Z.testbit x (i - n).
Proof.
  intros Hi Hn. rewrite Z.shiftl_spec by lia. destruct (Z.leb_spec n i); [done|].
  now rewrite Z.testbit_neg_r by lia.
Qed.

Lemma testbit_bnot (w x i : Z) :
  0 <= w -> 0 <= i -> Z.testbit (bnot w x) i = xorb (Z.testbit x i) (i <? w).
Proof. intros. unfold bnot. now rewrite Z.lxor_spec, testbit_ones by lia. Qed.

Lemma land_bound (w x y : Z) : 0 <= w -> 0 <= y < 2 ^ w -> 0 <= Z.land x y < 2 ^ w.
Proof.
  intros Hw Hy. assert (E : Z.land x y = wrap w (Z.land x y)).
  { apply Z.bits_inj'. intros i Hi. rewrite testbit_wrap by lia.
    rewrite Z.land_spec. destruct (Z.ltb_spec i w); [done|].
    now rewrite (testbit_high w y), andb_false_r by lia. }
  rewrite E. now apply wrap_bound.
Qed.

Lemma lor_bound (w x y : Z) :
  0 <= w -> 0 <= x < 2 ^ w -> 0 <= y < 2 ^ w -> 0 <= Z.lor x y < 2 ^ w.
Proof.
  intros Hw Hx Hy. assert (E : Z.lor x y = wrap w (Z.lor x y)).
  { apply Z.bits_inj'. intros i Hi. rewrite testbit_wrap by lia.
    rewrite Z.lor_spec. destruct (Z.ltb_spec i w); [done|].
    now rewrite (testbit_high w x), (testbit_high w y) by lia. }
  rewrite E. now apply wrap_bound.
Qed.

Lemma lxor_bound (w x y : Z) :
  0 <= w -> 0 <= x < 2 ^ w -> 0 <= y < 2 ^ w -> 0 <= Z.lxor x y < 2 ^ w.
Proof.
  intros Hw Hx Hy. assert (E : Z.lxor x y = wrap w (Z.lxor x y)).
  { apply Z.bits_inj'. intros i Hi. rewrite testbit_wrap by lia.
    rewrite Z.lxor_spec. destruct (Z.ltb_spec i w); [done|].
    now rewrite (testbit_high w x), (testbit_high w y) by lia. }
  rewrite E. now apply wrap_bound.
Qed.

Lemma from_bits_bound (n : nat) (f : Z -> bool) : 0 <= from_bits n f < 2 ^ Z.of_nat n.
Proof.
  induction n as [|n IH]; cbn [from_bits]; [lia|].
  rewrite Nat2Z.inj_succ, Z.pow_succ_r by lia.
  destruct (f (Z.of_nat n)); lia.
Qed.

Lemma testbit_add_pow2 (x n i : Z) :
  0 <= x < 2 ^ n -> 0 <= n -> 0 <= i ->
  Z.testbit (x + 2 ^ n) i = (i =? n) || Z.testbit x i.
Proof.
  intros Hx Hn Hi.
  replace (x + 2 ^ n) with (Z.lor x (2 ^ n)).
  - rewrite Z.lor_spec, Z.pow2_bits_eqb, Z.eqb_sym by lia. apply orb_comm.
  - rewrite <- Z.add_lor_land. assert (Z.land x (2 ^ n) = 0) as ->; [|lia].
    apply Z.bits_inj'. intros j Hj. rewrite Z.land_spec, Z.pow2_bits_eqb, Z.bits_0 by lia.
    destruct (Z.eqb_spec n j) as [<-|]; [|apply andb_false_r].
    now rewrite (testbit_high n) by lia.
Qed.

Lemma testbit_from_bits (n : nat) (f : Z -> bool) (i : Z) :
  0 <= i -> Z.testbit (from_bits n f) i = (i <? Z.of_nat n) && f i.
Proof.
  intros Hi. induction n as [|n IH]; cbn [from_bits].
  - rewrite Z.bits_0. destruct (Z.ltb_spec i (Z.of_nat 0)); [lia|done].
  - pose proof (from_bits_bound n f) as Hb.
    destruct (f (Z.of_nat n)) eqn:Hf.
    + rewrite testbit_add_pow2, IH by lia.
      destruct (Z.eqb_spec i (Z.of_nat n)) as [->|].
      * rewrite Hf. destruct (Z.ltb_spec (Z.of_nat n) (Z.of_nat (S n))); [done|lia].
      * destruct (Z.ltb_spec i (Z.of_nat n)), (Z.ltb_spec i (Z.of_nat (S n))); try lia; done.
    + rewrite Z.add_0_r, IH.
      destruct (Z.ltb_spec i (Z.of_nat n)), (Z.ltb_spec i (Z.of_nat (S n))); try lia; try done.
      assert (i = Z.of_nat n) as -> by lia. now rewrite Hf.
Qed.

(** ** Bytes and words *)

Lemma le_combine_bound (l : list Z) :
  bytes_ok l -> 0 <= le_combine l < 2 ^ (8 * Z.of_nat (length l)).
Proof.
  induction 1 as [|b l Hb Hl IH]; cbn [le_combine length]; [lia|].
  unfold is_byte in Hb.
  replace (8 * Z.of_nat (S (length l))) with (8 + 8 * Z.of_nat (length l)) by lia.
  rewrite Z.pow_add_r by lia. change (2 ^ 8) with 256. lia.
Qed.

Lemma byte_at_ok (l : list Z) (i : nat) : bytes_ok l -> is_byte (byte_at l i).
Proof.
  intros Hl. unfold byte_at. destruct (Nat.lt_ge_cases i (length l)).
  - apply Forall_nth; [done|lia].
  - rewrite nth_overflow by lia. unfold is_byte. lia.
Qed.

Lemma testbit_cons (b y i : Z) :
  is_byte b -> 0 <= y -> 0 <= i ->
  Z.testbit (b + 256 * y) i = if i <? 8 then Z.testbit b i else Z.testbit y (i - 8).
Proof.
  intros Hb Hy Hi. unfold is_byte in Hb. destruct (Z.ltb_spec i 8).
  - rewrite <- (Z.mod_pow2_bits_low (b + 256 * y) 8) by lia.
    change (2 ^ 8) with 256. rewrite (Z.mul_comm 256), Z_mod_plus_full.
    now rewrite Z.mod_small by lia.
  - rewrite <- (Z.sub_add 8 i) at 1. rewrite <- Z.div_pow2_bits by lia.
    change (2 ^ 8) with 256. f_equal. Z.div_mod_to_equations. lia.
Qed.

Lemma testbit_byte_high (b i : Z) : is_byte b -> 8 <= i -> Z.testbit b i = false.
Proof. intros Hb Hi. apply (testbit_high 8); unfold is_byte in Hb; lia. Qed.

Lemma testbit_le_combine (l : list Z) (i : Z) :
  bytes_ok l -> 0 <= i ->
  Z.testbit (le_combine l) i = Z.testbit (byte_at l (Z.to_nat (i / 8))) (i mod 8).
Proof.
  intros Hl. revert i. induction Hl as [|b l Hb Hl IH]; intros i Hi; cbn [le_combine].
  - unfold byte_at. destruct (Z.to_nat (i / 8)); cbn; now rewrite !Z.bits_0.
  - pose proof (le_combine_bound l Hl). rewrite testbit_cons by (done || lia).
    destruct (Z.ltb_spec i 8).
    + rewrite Z.div_small, Z.mod_small by lia. done.
    + rewrite IH by lia. replace (i / 8) with (1 + (i - 8) / 8) by (Z.div_mod_to_equations; lia).
      replace (i mod 8) with ((i - 8) mod 8) by (Z.div_mod_to_equations; lia).
      rewrite Z2Nat.inj_add by (Z.div_mod_to_equations; lia). done.
Qed.

Lemma length_le_split (n : nat) (x : Z) : length (le_split n x) = n.
Proof. revert x. induction n; intros; cbn; auto. Qed.

Lemma le_split_ok (n : nat) (x : Z) : bytes_ok (le_split n x).
Proof.
  revert x. induction n; intros; cbn; constructor; [|apply IHn].
  unfold is_byte. apply Z.mod_pos_bound. lia.
Qed.

Lemma byte_at_le_split (n i : nat) (x : Z) :
  (i < n)%nat -> byte_at (le_split n x) i = Z.shiftr x (8 * Z.of_nat i) mod 256.
Proof.
  revert i x. induction n as [|n IH]; intros i x Hi; [lia|]. destruct i; cbn [le_split].
  - cbn. now rewrite Z.shiftr_0_r.
  - unfold byte_at in *. cbn [nth]. rewrite IH by lia.
    replace (x / 256) with (Z.shiftr x 8) by (now rewrite Z.shiftr_div_pow2 by lia).
    rewrite Z.shiftr_shiftr by lia. do 2 f_equal. lia.
Qed.

Lemma testbit_byte_at_le_split (n i : nat) (x j : Z) :
  (i < n)%nat -> 0 <= j < 8 ->
  Z.testbit (byte_at (le_split n x) i) j = Z.testbit x (8 * Z.of_nat i + j).
Proof.
  intros Hi Hj. rewrite byte_at_le_split by done. change 256 with (2 ^ 8).
  rewrite Z.mod_pow2_bits_low, Z.shiftr_spec by lia. f_equal. lia.
Qed.

Lemma le_combine_split (n : nat) (x : Z) :
  le_combine (le_split n x) = wrap (8 * Z.of_nat n) x.
Proof.
  apply (bits_eq (8 * Z.of_nat n)); [lia | | apply wrap_bound; lia |].
  - pose proof (le_combine_bound _ (le_split_ok n x)). now rewrite length_le_split in *.
  - intros i Hi. rewrite testbit_le_combine, testbit_wrap by (auto using le_split_ok; lia).
    rewrite testbit_byte_at_le_split by (assert (0 <= i / 8 < Z.of_nat n) by (Z.div_mod_to_equations; lia); try lia; Z.div_mod_to_equations; lia).
    destruct (Z.ltb_spec i (8 * Z.of_nat n)); [|lia]. cbn. f_equal.
    rewrite Z2Nat.id by (Z.div_mod_to_equations; lia). Z.div_mod_to_equations; lia.
Qed.

Lemma le_split_combine (l : list Z) (n : nat) :
  bytes_ok l -> length l = n -> le_split n (le_combine l) = l.
Proof.
  intros Hl <-. induction Hl as [|b l Hb Hl IH]; cbn [le_split le_combine length]; [done|].
  pose proof (le_combine_bound l Hl). unfold is_byte in Hb.
  f_equal.
  - rewrite (Z.mul_comm 256), Z_mod_plus_full, Z.mod_small by lia. done.
  - etransitivity; [|apply IH]. f_equal. symmetry. apply (Z.div_unique _ _ _ b); lia.
Qed.

Lemma rev_bytes_ok (l : list Z) : bytes_ok l -> bytes_ok (rev l).
Proof. apply Forall_rev. Qed.

Lemma byte_at_rev (l : list Z) (i : nat) :
  (i < length l)%nat -> byte_at (rev l) i = byte_at l (length l - S i).
Proof. intros. unfold byte_at. now rewrite rev_nth. Qed.

Lemma testbit_bswap (n : nat) (x i : Z) :
  0 <= i < 8 * Z.of_nat n ->
  Z.testbit (le_combine (rev (le_split n x))) i =
  Z.testbit x (8 * (Z.of_nat n - 1 - i / 8) + i mod 8).
Proof.
  intros Hi. assert (0 <= i / 8 < Z.of_nat n) by (Z.div_mod_to_equations; lia).
  assert (0 <= i mod 8 < 8) by (Z.div_mod_to_equations; lia).
  rewrite testbit_le_combine by (auto using rev_bytes_ok, le_split_ok; lia).
  rewrite byte_at_rev, length_le_split by (rewrite length_le_split; lia).
  rewrite testbit_byte_at_le_split by lia. f_equal. lia.
Qed.

Lemma bswap_bound (n : nat) (x : Z) :
  0 <= le_combine (rev (le_split n x)) < 2 ^ (8 * Z.of_nat n).
Proof.
  pose proof (le_combine_bound _ (rev_bytes_ok _ (le_split_ok n x))) as H.
  now rewrite length_rev, length_le_split in H.
Qed.

Lemma testbit_bswap64 (x i : Z) :
  0 <= i < 64 -> Z.testbit (bswap64 x) i = Z.testbit x (8 * (7 - i / 8) + i mod 8).
Proof. intros. unfold bswap64. rewrite testbit_bswap by lia. f_equal; lia. Qed.

Lemma testbit_bswap32 (x i : Z) :
  0 <= i < 32 -> Z.testbit (bswap32 x) i = Z.testbit x (8 * (3 - i / 8) + i mod 8).
Proof. intros. unfold bswap32. rewrite testbit_bswap by lia. f_equal; lia. Qed.

Lemma testbit_pdep64 (x m i : Z) :
  0 <= i < 64 ->
  Z.testbit (pdep64 x m) i =
  Z.testbit m i && Z.testbit x (popcount_below (Z.to_nat i) m).
Proof.
  intros. unfold pdep64. rewrite testbit_from_bits by lia.
  destruct (Z.ltb_spec i (Z.of_nat 64)); [done|lia].
Qed.

Lemma testbit_bextr (x s n i : Z) :
  0 <= n -> 0 <= s -> 0 <= i -> Z.testbit (bextr x s n) i = (i <? n) && Z.testbit x (i + s).
Proof.
  intros. unfold bextr. rewrite Z.land_spec, Z.shiftr_spec, testbit_ones by lia.
  apply andb_comm.
Qed.

Lemma ctz_spec (w : nat) (x : Z) :
  0 <= ctz w x <= Z.of_nat w /\
  (forall i, 0 <= i < ctz w x -> Z.testbit x i = false) /\
  (ctz w x < Z.of_nat w -> Z.testbit x (ctz w x) = true).
Proof.
  revert x. induction w as [|w IH]; intros x; cbn [ctz].
  - repeat split; intros; lia.
  - destruct (Z.odd x) eqn:Ho.
    + repeat split; intros; try lia. now rewrite Z.bit0_odd.
    + destruct (IH (x / 2)) as (H1 & H2 & H3). repeat split; [lia|lia| |].
      * intros i Hi. destruct (Z.eq_dec i 0) as [->|]; [now rewrite Z.bit0_odd|].
        replace i with (Z.succ (i - 1)) by lia. rewrite <- Z.div2_bits by lia.
        apply H2. lia.
      * intros Hl. replace (1 + ctz w (x / 2)) with (Z.succ (ctz w (x / 2))) by lia.
        rewrite <- Z.div2_bits by lia. apply H3. lia.
Qed.

Lemma ctz_unique (w : nat) (x k : Z) :
  0 <= k < Z.of_nat w -> Z.testbit x k = true ->
  (forall i, 0 <= i < k -> Z.testbit x i = false) -> ctz w x = k.
Proof.
  intros Hk Ht Hb. destruct (ctz_spec w x) as (H1 & H2 & H3).
  destruct (Z.lt_trichotomy (ctz w x) k) as [H|[H|H]]; [|done|].
  - rewrite Hb in H3 by lia. discriminate H3. lia.
  - rewrite H2 in Ht by lia. discriminate.
Qed.

(** ** Automation *)

Create HintDb cuckoo.
Create Rewrite HintDb cuckoo.
#[export] Hint Resolve wrap_bound land_bound lor_bound lxor_bound byte_at_ok le_split_ok
  rev_bytes_ok length_le_split : cuckoo.
#[export] Hint Rewrite @length_zset length_le_split @length_insert @length_take @length_drop
  @length_app @length_replicate : cuckoo.

(** Arithmetic with divisions and remainders by constants. *)
Ltac zdiv := Z.div_mod_to_equations; lia.

(** Bit [i] of a term built from the word operations. *)
Ltac bit_step :=
  rewrite ?Z.land_spec, ?Z.lor_spec, ?Z.lxor_spec, ?Z.bits_0;
  repeat first
    [ rewrite testbit_bnot by zdiv
    | rewrite testbit_wrap by zdiv
    | rewrite testbit_shl by zdiv
    | rewrite Z.shiftr_spec by zdiv
    | rewrite testbit_ones by zdiv ];
  rewrite ?Z.land_spec, ?Z.lor_spec, ?Z.lxor_spec, ?Z.bits_0.

(** Decide the comparisons of a goal, dropping the impossible branches. *)
Ltac zcases :=
  repeat match goal with
    | |- context [?a <? ?b] => destruct (Z.ltb_spec a b)
    | |- context [?a <=? ?b] => destruct (Z.leb_spec a b)
    | |- context [?a =? ?b] => destruct (Z.eqb_spec a b)
    end; try lia; cbn [andb orb negb xorb].

(** Run the first statement of a sequence whose result is known. *)
Ltac mstep H := erewrite bind_Ret by (exact H || (eapply H; eauto)).

(** ** Finite checks *)

Lemma forallb_below (n : nat) (P : Z -> bool) (x : Z) :
  forallb P (map Z.of_nat (seq 0 n)) = true -> 0 <= x < Z.of_nat n -> P x = true.
Proof.
  intros H Hx. rewrite forallb_forall in H. apply H. apply in_map_iff.
  exists (Z.to_nat x). split; [lia|]. apply in_seq. lia.
Qed.

(** A boolean property of a byte, checked on the 256 bytes. *)
Lemma byte_check (P : Z -> bool) (x : Z) :
  forallb P (map Z.of_nat (seq 0 256)) = true -> is_byte x -> P x = true.
Proof. intros H Hx. apply (forallb_below 256); [done|]. unfold is_byte in Hx. lia. Qed.

Lemma byte_check2 (P : Z -> Z -> bool) (x y : Z) :
  forallb (fun a => forallb (P a) (map Z.of_nat (seq 0 256))) (map Z.of_nat (seq 0 256)) = true ->
  is_byte x -> is_byte y -> P x y = true.
Proof. intros H Hx Hy. apply (byte_check (P x)); [|done]. now apply (byte_check _ x H). Qed.

(** Lists of bytes are equal when their bits are. *)
Lemma byte_eq (a b : Z) :
  is_byte a -> is_byte b -> (forall j, 0 <= j < 8 -> Z.testbit a j = Z.testbit b j) -> a = b.
Proof. intros Ha Hb H. apply (bits_eq 8); unfold is_byte in *; (lia || done). Qed.

Lemma bytes_ext (l1 l2 : list Z) :
  length l1 = length l2 -> (forall i, (i < length l1)%nat -> byte_at l1 i = byte_at l2 i) -> l1 = l2.
Proof. intros Hl H. apply (nth_ext _ _ 0 0); done. Qed.

Lemma bytes_ok_check (l : list Z) :
  forallb (fun b => (0 <=? b) && (b <? 256)) l = true -> bytes_ok l.
Proof.
  intros H. apply List.Forall_forall. intros b Hb. rewrite forallb_forall in H.
  specialize (H b Hb). unfold is_byte. lia.
Qed.
