(* ===== verification/Bits.v ===== *)
(** * Bit strings (util.c)

    A [uint8_t*] argument is the list of bytes from that address to the end
    of the object it points into; bit 0 is the most significant bit of the
    first byte. Each function of util.c that reads or writes bit strings is
    defined here, followed by what it does to the individual bits. *)

From S2P Require Import Prelude.
From stdpp Require Import base list.
From Stdlib Require Import ZArith Lia Bool.

#[local] Open Scope Z_scope.

(** ** Unaligned loads and stores *)

Definition load_bytes (n : nat) (bs : list Z) (at_ : nat) : Z :=
  le_combine (map (fun k => byte_at bs (at_ + k)) (seq 0 n)).

Definition store_bytes (n : nat) (bs : list Z) (at_ : nat) (x : Z) : list Z :=
  take at_ bs ++ le_split n x ++ drop (at_ + n) bs.

(** ** The functions of util.c *)

(** The byte at which the 32-bit window around bits
    [start_bit .. start_bit + num_bits - 1] begins. *)
Definition dword_start_byte (start_bit num_bits : Z) : Z :=
  let last_bit := u64 (start_bit + num_bits - 1) in
  let b := to_signed 64 (u64 (last_bit / 8 - 3)) in
  if b <? 0 then 0 else b.

(** [num_bits] is at most 24, and the bit string has at least 32 bits and the
    bits asked for: C asserts the first and relies on the others; the
    functions here do not test them, and bytes after the end of the list
    read as 0. *)
Definition extract_bits (bitstring : list Z) (start_bit num_bits : Z) : Z :=
  let dsb := dword_start_byte start_bit num_bits in
  let containing_dword := bswap32 (load_bytes 4 bitstring (Z.to_nat dsb)) in
  let offset := u32 (32 - start_bit + dsb * 8 - num_bits) in
  let control := u32 ((num_bits .<< 8) + offset) in
  bextr containing_dword (control .& 255) ((control .>> 8) .& 255).

Definition put_bits (bitstring : list Z) (start_bit num_bits bits : Z) : list Z :=
  let dsb := dword_start_byte start_bit num_bits in
  let containing_dword := bswap32 (load_bytes 4 bitstring (Z.to_nat dsb)) in
  let offset := u32 (32 - start_bit + dsb * 8 - num_bits) in
  let mask := u32 (((1 .<< num_bits) - 1) .<< offset) in
  let cleared := containing_dword .& bnot 32 mask in
  let merged := cleared .| u32 (bits .<< offset) in
  store_bytes 4 bitstring (Z.to_nat dsb) (bswap32 merged).

(** The [while (pos <= num_bits)] loop; [k] is [dst_pos - dest]. *)
Fixpoint copy_bits_loop (fuel : nat) (dest src : list Z) (src_offset num_bits pos : Z) (k : nat)
    : list Z * Z * nat :=
  match fuel with
  | O => (dest, pos, k)
  | S f =>
      if pos <=? num_bits then
        copy_bits_loop f (<[k := extract_bits src (src_offset + pos) 8]> dest) src
          src_offset num_bits (pos + 8) (S k)
      else (dest, pos, k)
  end.

(** [num_bits / 8 + 2] tests of the loop condition are enough: see
    [copy_bits_loop_spec]. *)
Definition copy_bits (dest src : list Z) (src_offset num_bits : Z) : list Z :=
  let '(dest', pos, k) :=
    copy_bits_loop (Z.to_nat (num_bits / 8 + 2)) dest src src_offset num_bits 0 0 in
  if pos <? num_bits then
    let bits_left := num_bits - pos in
    <[k := u8 (extract_bits src (src_offset + pos) bits_left .<< (8 - bits_left))]> dest'
  else dest'.

Definition get_bit (bitstring : list Z) (bit : Z) : bool :=
  let byte := bit / 8 in
  negb (((byte_at bitstring (Z.to_nat byte) .<< (bit mod 8)) .& 128) =? 0).

Definition set_bit (bitstring : list Z) (bit : Z) (value : Z) : list Z :=
  let mask := 128 .>> (bit mod 8) in
  let byte := Z.to_nat (bit / 8) in
  let b1 := byte_at bitstring byte .& bnot 8 mask in
  let b2 := b1 .| u8 (mask * value) in
  <[byte := b2]> bitstring.

(** [end] is a keyword in Rocq: [end_]. C asserts that it is below 64; for
    larger values, where the C shift is undefined, the mask here is 0. *)
Definition last_bit_before (bitstring : list Z) (end_ : Z) : Z :=
  let bitstring_value := bswap64 (load_bytes 8 bitstring 0) in
  let mask := (2 ^ 64 - 1) .>> end_ in
  let v := bitstring_value .& bnot 64 mask in
  if v =? 0 then -1 else 63 - ctz 64 v.

(** ** Bits of a bit string *)

(** Bit [i] of a bit string, counted from the first byte's top bit. *)
Definition bit (bs : list Z) (i : Z) : bool :=
  Z.testbit (byte_at bs (Z.to_nat (i / 8))) (7 - i mod 8).

Lemma length_store_bytes n bs at_ x :
  (at_ + n <= length bs)%nat -> length (store_bytes n bs at_ x) = length bs.
Proof.
  intros H. unfold store_bytes. rewrite !length_app, length_take, length_le_split, length_drop. lia.
Qed.

Lemma bytes_ok_store_bytes n bs at_ x : bytes_ok bs -> bytes_ok (store_bytes n bs at_ x).
Proof.
  intros H. unfold store_bytes. repeat apply Forall_app_2.
  - now apply Forall_take.
  - apply le_split_ok.
  - now apply Forall_drop.
Qed.

Lemma byte_at_app_l l1 l2 i : (i < length l1)%nat -> byte_at (l1 ++ l2) i = byte_at l1 i.
Proof. intros. unfold byte_at. now apply app_nth1. Qed.

Lemma byte_at_app_r l1 l2 i :
  (length l1 <= i)%nat -> byte_at (l1 ++ l2) i = byte_at l2 (i - length l1).
Proof. intros. unfold byte_at. now apply app_nth2. Qed.

Lemma byte_at_store_bytes n bs at_ x i :
  (at_ + n <= length bs)%nat ->
  byte_at (store_bytes n bs at_ x) i =
  if decide (at_ <= i < at_ + n)%nat then byte_at (le_split n x) (i - at_) else byte_at bs i.
Proof.
  intros H. unfold store_bytes. destruct (Nat.lt_ge_cases i at_).
  - rewrite byte_at_app_l by (rewrite length_take; lia).
    case_decide; [lia|]. unfold byte_at. rewrite !nth_lookup, lookup_take_lt by lia. done.
  - rewrite byte_at_app_r by (rewrite length_take; lia). rewrite length_take, Nat.min_l by lia.
    case_decide.
    + now rewrite byte_at_app_l by (rewrite length_le_split; lia).
    + rewrite byte_at_app_r by (rewrite length_le_split; lia). rewrite length_le_split.
      unfold byte_at. rewrite !nth_lookup, lookup_drop. do 2 f_equal. lia.
Qed.

Lemma byte_at_insert bs k v i :
  (k < length bs)%nat -> byte_at (<[k := v]> bs) i = if decide (i = k) then v else byte_at bs i.
Proof.
  intros H. unfold byte_at. rewrite !nth_lookup. case_decide.
  - subst. now rewrite list_lookup_insert_eq by done.
  - now rewrite list_lookup_insert_ne by done.
Qed.

Lemma load_bytes_bound n bs at_ :
  bytes_ok bs -> 0 <= load_bytes n bs at_ < 2 ^ (8 * Z.of_nat n).
Proof.
  intros H. unfold load_bytes.
  pose proof (le_combine_bound (map (fun k => byte_at bs (at_ + k)) (seq 0 n))) as Hb.
  rewrite length_map, length_seq in Hb. apply Hb.
  apply Forall_map, Forall_true. intros. now apply byte_at_ok.
Qed.

Lemma testbit_load_bytes n bs at_ i :
  bytes_ok bs -> 0 <= i < 8 * Z.of_nat n ->
  Z.testbit (load_bytes n bs at_) i =
  Z.testbit (byte_at bs (at_ + Z.to_nat (i / 8))) (i mod 8).
Proof.
  intros H Hi. unfold load_bytes. rewrite testbit_le_combine; [|apply Forall_map, Forall_true; intros; now apply byte_at_ok|lia].
  f_equal. unfold byte_at at 1.
  rewrite nth_indep with (d' := byte_at bs (at_ + 0))
    by (rewrite length_map, length_seq; Z.div_mod_to_equations; lia).
  rewrite (map_nth (fun k => byte_at bs (at_ + k))), seq_nth by (Z.div_mod_to_equations; lia).
  f_equal.
Qed.

(** A big-endian load of [n] bytes shows the bit string from byte [at_] on. *)
Lemma testbit_bswap_load n bs at_ i :
  bytes_ok bs -> 0 <= i < 8 * Z.of_nat n ->
  Z.testbit (le_combine (rev (le_split n (load_bytes n bs at_)))) i =
  bit bs (8 * Z.of_nat at_ + (8 * Z.of_nat n - 1 - i)).
Proof.
  intros H Hi.
  assert (0 <= i / 8 < Z.of_nat n) by (Z.div_mod_to_equations; lia).
  assert (0 <= i mod 8 < 8) by (Z.div_mod_to_equations; lia).
  rewrite testbit_bswap, testbit_load_bytes by (done || lia). unfold bit.
  set (j := 8 * Z.of_nat at_ + (8 * Z.of_nat n - 1 - i)).
  assert (Hj : j = 8 * (Z.of_nat at_ + (Z.of_nat n - 1 - i / 8)) + (7 - i mod 8))
    by (unfold j; Z.div_mod_to_equations; lia).
  rewrite Hj. set (q := Z.of_nat at_ + (Z.of_nat n - 1 - i / 8)).
  assert (E1 : (8 * q + (7 - i mod 8)) / 8 = q) by (Z.div_mod_to_equations; lia).
  assert (E2 : (8 * q + (7 - i mod 8)) mod 8 = 7 - i mod 8) by (Z.div_mod_to_equations; lia).
  rewrite E1, E2. f_equal; [f_equal|].
  - unfold q. Z.div_mod_to_equations; lia.
  - Z.div_mod_to_equations; lia.
Qed.

Lemma get_bit_bit bs i : bytes_ok bs -> 0 <= i -> get_bit bs i = bit bs i.
Proof.
  intros Hbs Hi. unfold get_bit, bit.
  set (b := byte_at bs (Z.to_nat (i / 8))).
  assert (0 <= i mod 8 < 8) by (Z.div_mod_to_equations; lia).
  assert (E : (b .<< (i mod 8)) .& 128 = if Z.testbit b (7 - i mod 8) then 128 else 0).
  { apply Z.bits_inj'. intros k Hk. rewrite Z.land_spec, testbit_shl by lia.
    change 128 with (2 ^ 7). rewrite Z.pow2_bits_eqb by lia.
    destruct (Z.eqb_spec 7 k) as [<-|Hne].
    - rewrite andb_true_r. destruct (Z.leb_spec (i mod 8) 7); [|lia]. cbn [andb].
      destruct (Z.testbit b (7 - i mod 8)); [now rewrite Z.pow2_bits_true by lia | now rewrite Z.bits_0].
    - rewrite andb_false_r. destruct (Z.testbit b (7 - i mod 8)).
      + now rewrite Z.pow2_bits_false by lia.
      + now rewrite Z.bits_0. }
  rewrite E. destruct (Z.testbit b (7 - i mod 8)); done.
Qed.

Lemma bit_set_bit bs i v j :
  bytes_ok bs -> 0 <= i < 8 * Z.of_nat (length bs) -> 0 <= j -> v = 0 \/ v = 1 ->
  bit (set_bit bs i v) j = if j =? i then (v =? 1) else bit bs j.
Proof.
  intros Hbs Hi Hj Hv. unfold set_bit, bit.
  assert (0 <= i mod 8 < 8) by (Z.div_mod_to_equations; lia).
  assert (0 <= j mod 8 < 8) by (Z.div_mod_to_equations; lia).
  rewrite byte_at_insert by (Z.div_mod_to_equations; lia).
  assert (Hm : 128 .>> (i mod 8) = 2 ^ (7 - i mod 8)).
  { change 128 with (2 ^ 7). rewrite Z.shiftr_div_pow2, <- Z.pow_sub_r by lia. done. }
  rewrite Hm. set (b := byte_at bs (Z.to_nat (i / 8))).
  case_decide as Hd.
  - assert (Hq : j / 8 = i / 8) by (Z.div_mod_to_equations; lia).
    rewrite Z.lor_spec, Z.land_spec, testbit_bnot, testbit_wrap, Z.pow2_bits_eqb by lia.
    destruct (Z.eqb_spec j i) as [->|Hne].
    + rewrite Z.eqb_refl. destruct (Z.ltb_spec (7 - i mod 8) 8); [|lia]. cbn [xorb negb andb].
      rewrite andb_false_r. cbn [orb]. destruct Hv as [-> | ->].
      * now rewrite Z.mul_0_r, Z.bits_0.
      * now rewrite Z.mul_1_r, Z.pow2_bits_true by lia.
    + assert (7 - i mod 8 <> 7 - j mod 8) by (Z.div_mod_to_equations; lia).
      destruct (Z.eqb_spec (7 - i mod 8) (7 - j mod 8)); [done|].
      destruct (Z.ltb_spec (7 - j mod 8) 8); [|lia]. cbn [xorb negb andb].
      rewrite andb_true_r, Hd. fold b.
      assert (Z.testbit (2 ^ (7 - i mod 8) * v) (7 - j mod 8) = false) as ->; [|apply orb_false_r].
      destruct Hv as [-> | ->]; rewrite ?Z.mul_0_r, ?Z.mul_1_r, ?Z.bits_0; [done|].
      now rewrite Z.pow2_bits_false by lia.
  - destruct (Z.eqb_spec j i) as [->|]; [done|]. done.
Qed.

Lemma bytes_ok_set_bit bs i v :
  bytes_ok bs -> 0 <= i -> v = 0 \/ v = 1 -> bytes_ok (set_bit bs i v).
Proof.
  intros H Hi Hv. apply Forall_insert; [done|].
  set (m := 128 .>> (i mod 8)).
  assert (0 <= u8 (m * v) < 2 ^ 8) by (apply wrap_bound; lia).
  assert (0 <= bnot 8 m .& byte_at bs (Z.to_nat (i / 8)) < 2 ^ 8)
    by (apply land_bound; [lia | apply (byte_at_ok bs _ H)]).
  unfold is_byte. apply (lor_bound 8); [lia | now rewrite Z.land_comm | done].
Qed.

Lemma get_bit_set_bit bs i v j :
  bytes_ok bs -> 0 <= i < 8 * Z.of_nat (length bs) -> 0 <= j -> v = 0 \/ v = 1 ->
  get_bit (set_bit bs i v) j = if j =? i then (v =? 1) else get_bit bs j.
Proof.
  intros Hbs Hi Hj Hv. rewrite !get_bit_bit by auto using bytes_ok_set_bit with lia.
  now apply bit_set_bit.
Qed.

(** The 32-bit window: it starts at a byte no later than the one of
    [start_bit] and ends with or after the last bit. *)
Lemma dword_start_byte_eq s n :
  0 <= s -> 1 <= n -> s + n < 2 ^ 63 ->
  dword_start_byte s n = Z.max 0 ((s + n - 1) / 8 - 3).
Proof.
  intros Hs Hn Hb. unfold dword_start_byte.
  rewrite (wrap_small 64 (s + n - 1)) by lia.
  set (q := (s + n - 1) / 8). assert (0 <= q < 2 ^ 60) by (unfold q; Z.div_mod_to_equations; lia).
  unfold to_signed, wrap. destruct (Z.lt_ge_cases q 3).
  - rewrite <- (Z_mod_plus_full (q - 3) 1), Z.mod_small by lia.
    destruct (Z.ltb_spec (q - 3 + 1 * 2 ^ 64) (2 ^ (64 - 1))); [lia|].
    destruct (Z.ltb_spec (q - 3 + 1 * 2 ^ 64 - 2 ^ 64) 0); lia.
  - rewrite Z.mod_small by lia. destruct (Z.ltb_spec (q - 3) (2 ^ (64 - 1))); [|lia].
    destruct (Z.ltb_spec (q - 3) 0); lia.
Qed.

(** Where the field of [n] bits from [s] lies in its window. *)
Lemma dword_window s n :
  0 <= s -> 1 <= n <= 24 -> s + n < 2 ^ 63 ->
  exists d, dword_start_byte s n = d /\ 0 <= d /\ 8 * d <= s /\ s + n <= 8 * d + 32.
Proof.
  intros. rewrite dword_start_byte_eq by lia. eexists; split; [done|].
  Z.div_mod_to_equations. lia.
Qed.

(** [extract_bits] reads the requested bits, first bit most significant. *)
Lemma testbit_extract_bits bs s n i :
  bytes_ok bs -> 0 <= s -> 1 <= n <= 24 -> s + n < 2 ^ 63 -> 0 <= i ->
  Z.testbit (extract_bits bs s n) i = (i <? n) && bit bs (s + (n - 1 - i)).
Proof.
  intros Hbs Hs Hn Hsn Hi. unfold extract_bits.
  destruct (dword_window s n) as (d & -> & Hd & H1 & H2); [lia..|].
  set (off := 32 - s + d * 8 - n).
  assert (Hoff : 0 <= off <= 31) by (unfold off; lia).
  rewrite (wrap_small 32 off) by lia. rewrite Z.shiftl_mul_pow2 by lia. change (2 ^ 8) with 256.
  rewrite (wrap_small 32) by lia.
  assert (E1 : (n * 256 + off) .& 255 = off).
  { change 255 with (Z.ones 8). rewrite Z.land_ones by lia. change (2 ^ 8) with 256.
    rewrite Z.add_comm, Z_mod_plus_full, Z.mod_small; lia. }
  assert (E2 : ((n * 256 + off) .>> 8) .& 255 = n).
  { change 255 with (Z.ones 8). rewrite Z.land_ones, Z.shiftr_div_pow2 by lia. change (2 ^ 8) with 256.
    rewrite Z.add_comm, Z_div_plus_full, (Z.div_small off) by lia.
    now rewrite Z.add_0_l, Z.mod_small by lia. }
  rewrite E1, E2, testbit_bextr by lia.
  destruct (Z.ltb_spec i n); [|done]. cbn [andb]. unfold bswap32.
  rewrite testbit_bswap_load by (done || lia). f_equal. unfold off. lia.
Qed.

Lemma extract_bits_bound bs s n :
  bytes_ok bs -> 0 <= s -> 1 <= n <= 24 -> s + n < 2 ^ 63 -> 0 <= extract_bits bs s n < 2 ^ n.
Proof.
  intros Hbs Hs Hn Hsn.
  assert (E : extract_bits bs s n = wrap n (extract_bits bs s n)).
  { apply Z.bits_inj'. intros i Hi. rewrite testbit_wrap, testbit_extract_bits by (done || lia).
    destruct (i <? n); done. }
  rewrite E. apply wrap_bound. lia.
Qed.

(** [put_bits] writes the requested bits and leaves every other bit alone. *)
Lemma bit_put_bits bs s n v j :
  bytes_ok bs -> 0 <= s -> 1 <= n <= 24 -> s + n <= 8 * Z.of_nat (length bs) ->
  4 <= Z.of_nat (length bs) < 2 ^ 56 -> 0 <= v < 2 ^ n -> 0 <= j < 8 * Z.of_nat (length bs) ->
  bit (put_bits bs s n v) j =
  if (s <=? j) && (j <? s + n) then Z.testbit v (s + n - 1 - j) else bit bs j.
Proof.
  intros Hbs Hs Hn Hfit Hlen Hv Hj. unfold put_bits.
  destruct (dword_window s n) as (d & Ed & Hd & H1 & H2); [lia..|].
  assert (Hdl : d + 4 <= Z.of_nat (length bs)).
  { rewrite <- Ed, dword_start_byte_eq by lia. Z.div_mod_to_equations. lia. }
  rewrite Ed. set (off := 32 - s + d * 8 - n).
  assert (Hoff : 0 <= off /\ off + n <= 32) by (unfold off; lia).
  rewrite (wrap_small 32 off) by lia.
  set (old := bswap32 (load_bytes 4 bs (Z.to_nat d))).
  set (mask := u32 (((1 .<< n) - 1) .<< off)).
  assert (Hmask : forall k, 0 <= k < 32 -> Z.testbit mask k = (off <=? k) && (k <? off + n)).
  { intros k Hk. unfold mask. rewrite testbit_wrap, testbit_shl by lia.
    destruct (Z.ltb_spec k 32); [|lia]. cbn [andb]. destruct (Z.leb_spec off k); [|done].
    replace ((1 .<< n) - 1) with (Z.ones n) by (unfold Z.ones; lia).
    rewrite testbit_ones by lia. cbn [andb].
    apply eq_true_iff_eq. rewrite !Z.ltb_lt. lia. }
  set (merged := (old .& bnot 32 mask) .| u32 (v .<< off)).
  assert (Hmerged : forall k, 0 <= k < 32 -> Z.testbit merged k =
    if (off <=? k) && (k <? off + n) then Z.testbit v (k - off) else Z.testbit old k).
  { intros k Hk. unfold merged.
    rewrite Z.lor_spec, Z.land_spec, testbit_bnot, Hmask, testbit_wrap, testbit_shl by lia.
    destruct (Z.ltb_spec k 32); [|lia]. cbn [andb].
    destruct (Z.leb_spec off k); cbn [andb]; [|cbn; now rewrite andb_true_r, orb_false_r].
    destruct (Z.ltb_spec k (off + n)); cbn; [now rewrite andb_false_r|].
    rewrite andb_true_r, (testbit_high n v) by lia. apply orb_false_r. }
  assert (Hdj : (Z.to_nat d <= Z.to_nat (j / 8) < Z.to_nat d + 4)%nat <-> 8 * d <= j < 8 * d + 32)
    by (Z.div_mod_to_equations; lia).
  unfold bit at 1. rewrite byte_at_store_bytes by lia. case_decide as Hc.
  - apply Hdj in Hc. rewrite testbit_byte_at_le_split by (Z.div_mod_to_equations; lia).
    set (q := 8 * Z.of_nat (Z.to_nat (j / 8) - Z.to_nat d) + (7 - j mod 8)).
    assert (0 <= q < 32) by (unfold q; Z.div_mod_to_equations; lia).
    rewrite testbit_bswap32 by lia.
    assert (E : 8 * (3 - q / 8) + q mod 8 = 8 * d + 31 - j) by (unfold q; Z.div_mod_to_equations; lia).
    rewrite E, Hmerged by lia. unfold old, bswap32. rewrite testbit_bswap_load by (done || lia).
    replace (8 * Z.of_nat (Z.to_nat d) + (8 * Z.of_nat 4 - 1 - (8 * d + 31 - j))) with j by lia.
    replace (s + n - 1 - j) with (8 * d + 31 - j - off) by (unfold off; lia).
    destruct (Z.leb_spec off (8 * d + 31 - j)), (Z.ltb_spec (8 * d + 31 - j) (off + n)),
      (Z.leb_spec s j), (Z.ltb_spec j (s + n)); unfold off in *; try lia; done.
  - assert (~ (8 * d <= j < 8 * d + 32)) by (intros ?; now apply Hc, Hdj).
    destruct (Z.leb_spec s j), (Z.ltb_spec j (s + n)); cbn; try lia; done.
Qed.

Lemma put_bits_ok bs s n v :
  bytes_ok bs -> bytes_ok (put_bits bs s n v).
Proof. intros. now apply bytes_ok_store_bytes. Qed.

Lemma length_put_bits bs s n v :
  0 <= s -> 1 <= n <= 24 -> s + n <= 8 * Z.of_nat (length bs) ->
  4 <= Z.of_nat (length bs) < 2 ^ 56 -> length (put_bits bs s n v) = length bs.
Proof.
  intros. apply length_store_bytes. rewrite dword_start_byte_eq by lia.
  Z.div_mod_to_equations. lia.
Qed.

(** The assertion that closes [put_bits]: reading back gives the value. *)
Lemma extract_put_bits bs s n v :
  bytes_ok bs -> 0 <= s -> 1 <= n <= 24 -> s + n <= 8 * Z.of_nat (length bs) ->
  4 <= Z.of_nat (length bs) < 2 ^ 56 -> 0 <= v < 2 ^ n ->
  extract_bits (put_bits bs s n v) s n = v.
Proof.
  intros. apply (bits_eq n); [lia| |done|].
  - apply extract_bits_bound; try lia. now apply put_bits_ok.
  - intros i Hi. rewrite testbit_extract_bits by (auto using put_bits_ok || lia).
    rewrite bit_put_bits by (done || lia).
    destruct (Z.ltb_spec i n), (Z.leb_spec s (s + (n - 1 - i))), (Z.ltb_spec (s + (n - 1 - i)) (s + n));
      try lia. cbn. f_equal. lia.
Qed.

Lemma copy_bits_loop_spec f dest src so nb pos k dest' pos' k' :
  copy_bits_loop f dest src so nb pos k = (dest', pos', k') ->
  pos = 8 * Z.of_nat k -> nb < 8 * Z.of_nat (length dest) ->
  length dest' = length dest /\
  (nb < 8 * (Z.of_nat f + Z.of_nat k) -> nb < pos') /\
  forall m, byte_at dest' m =
    if decide ((k <= m < k + f)%nat /\ 8 * Z.of_nat m <= nb)
    then extract_bits src (so + 8 * Z.of_nat m) 8 else byte_at dest m.
Proof.
  revert dest pos k. induction f as [|f IH]; intros dest pos k H Hp Hl; cbn [copy_bits_loop] in H.
  - injection H as <- <- <-. split; [done|]. split; [lia|]. intros m. case_decide; [lia|done].
  - destruct (Z.leb_spec pos nb).
    + apply IH in H as (H1 & H2 & H3); [|lia|rewrite length_insert; lia].
      rewrite length_insert in H1. split; [done|]. split; [intros; apply H2; lia|].
      intros m. rewrite H3. rewrite byte_at_insert by lia.
      case_decide as C1; [rewrite decide_True by lia; done|].
      case_decide as C2; [subst m; rewrite decide_True by lia; subst; done|].
      rewrite decide_False by lia. done.
    + injection H as <- <- <-. split; [done|]. split; [lia|]. intros m.
      rewrite decide_False by lia. done.
Qed.

(** [copy_bits], byte by byte. The loop also writes the whole byte
    [nb / 8], so the final partial-byte branch never runs. *)
Lemma copy_bits_bytes dest src so nb :
  0 <= nb < 8 * Z.of_nat (length dest) ->
  length (copy_bits dest src so nb) = length dest /\
  forall m, byte_at (copy_bits dest src so nb) m =
    if Z.of_nat m <=? nb / 8 then extract_bits src (so + 8 * Z.of_nat m) 8 else byte_at dest m.
Proof.
  intros Hnb. unfold copy_bits.
  destruct (copy_bits_loop _ dest src so nb 0 0) as [[dest' pos] k] eqn:E.
  apply copy_bits_loop_spec in E as (H1 & H2 & H3); [|lia|lia].
  destruct (Z.ltb_spec pos nb); [zdiv|]. split; [done|]. intros m. rewrite H3.
  destruct (Z.leb_spec (Z.of_nat m) (nb / 8)); [rewrite decide_True by zdiv|rewrite decide_False by zdiv]; done.
Qed.

(** The [nb] bits of [src] from [so] arrive at the start of [dest]. *)
Lemma copy_bits_spec dest src so nb :
  bytes_ok src -> 0 <= so -> 0 <= nb < 8 * Z.of_nat (length dest) -> so + nb < 2 ^ 62 ->
  forall i, 0 <= i < nb -> bit (copy_bits dest src so nb) i = bit src (so + i).
Proof.
  intros Hsrc Hso Hnb Hb i Hi. destruct (copy_bits_bytes dest src so nb Hnb) as [_ E].
  unfold bit at 1. rewrite E. destruct (Z.leb_spec (Z.of_nat (Z.to_nat (i / 8))) (nb / 8)); [|zdiv].
  rewrite testbit_extract_bits by (done || zdiv).
  destruct (Z.ltb_spec (7 - i mod 8) 8); [|zdiv]. cbn [andb]. f_equal. zdiv.
Qed.

Lemma testbit_msb64 bs j :
  bytes_ok bs -> 0 <= j < 64 -> Z.testbit (bswap64 (load_bytes 8 bs 0)) (63 - j) = bit bs j.
Proof.
  intros. unfold bswap64. rewrite testbit_bswap_load by (done || lia). f_equal. lia.
Qed.

(** [last_bit_before] returns the last set bit strictly before [e], or -1. *)
Lemma last_bit_before_spec bs e :
  bytes_ok bs -> 0 <= e < 64 ->
  let r := last_bit_before bs e in
  (r = -1 /\ forall j, 0 <= j < e -> bit bs j = false) \/
  (0 <= r < e /\ bit bs r = true /\ forall j, r < j < e -> bit bs j = false).
Proof.
  intros Hbs He r. unfold r, last_bit_before. clear r.
  set (w := bswap64 (load_bytes 8 bs 0)). set (v := w .& bnot 64 _).
  assert (Hv : forall j, 0 <= j < 64 -> Z.testbit v (63 - j) = (j <? e) && bit bs j).
  { intros j Hj. unfold v. rewrite Z.land_spec, testbit_bnot, Z.shiftr_spec by lia.
    unfold w. rewrite testbit_msb64 by done. change (2 ^ 64 - 1) with (Z.ones 64).
    rewrite testbit_ones by lia.
    destruct (Z.ltb_spec (63 - j) 64), (Z.ltb_spec (63 - j + e) 64), (Z.ltb_spec j e); try lia;
      cbn; destruct (bit bs j); done. }
  assert (Hhi : forall k, 64 <= k -> Z.testbit v k = false).
  { intros k Hk. unfold v. rewrite Z.land_spec. unfold w.
    rewrite (testbit_high 64); [done|apply bswap_bound|lia]. }
  destruct (Z.eqb_spec v 0) as [E|E].
  - left. split; [done|]. intros j Hj. specialize (Hv j). rewrite E, Z.bits_0 in Hv.
    destruct (Z.ltb_spec j e); [|lia]. cbn in Hv. symmetry. apply Hv. lia.
  - right. destruct (ctz_spec 64 v) as (C1 & C2 & C3). set (c := ctz 64 v) in *.
    assert (Hc : c < 64).
    { destruct (Z.lt_ge_cases c 64); [done|]. exfalso. apply E. apply Z.bits_inj'. intros k Hk.
      rewrite Z.bits_0. destruct (Z.lt_ge_cases k 64); [apply C2; lia|now apply Hhi]. }
    specialize (C3 ltac:(lia)).
    assert (H0 : Z.testbit v (63 - (63 - c)) = true) by (replace (63 - (63 - c)) with c by lia; done).
    rewrite Hv in H0 by lia. apply andb_true_iff in H0 as [H0 H1]. apply Z.ltb_lt in H0.
    split; [lia|]. split; [done|]. intros j Hj. specialize (C2 (63 - j) ltac:(lia)).
    rewrite Hv in C2 by lia. destruct (Z.ltb_spec j e); [|lia]. done.
Qed.

(** ** Properties *)

(** C38. [put_bits] writes a field of up to 24 bits anywhere in a bit string of
    at least four bytes: [extract_bits] reads the value back, every bit
    outside the field keeps its value, and so does the length. *)
Theorem put_bits_extract_bits bs s n v :
  bytes_ok bs -> 0 <= s -> 1 <= n <= 24 -> s + n <= 8 * Z.of_nat (length bs) ->
  4 <= Z.of_nat (length bs) < 2 ^ 56 -> 0 <= v < 2 ^ n ->
  extract_bits (put_bits bs s n v) s n = v /\
  length (put_bits bs s n v) = length bs /\
  forall j, 0 <= j < 8 * Z.of_nat (length bs) -> j < s \/ s + n <= j ->
    get_bit (put_bits bs s n v) j = get_bit bs j.
Proof.
  intros Hb Hs Hn Hfit Hlen Hv. split; [now apply extract_put_bits|]. split; [now apply length_put_bits|].
  intros j Hj Hout. rewrite !get_bit_bit by (done || lia || now apply put_bits_ok).
  rewrite bit_put_bits by (done || lia). zcases; (done || lia).
Qed.

Lemma put_bits_extract_bits_witness :
  extract_bits (put_bits [1; 2; 3; 4; 5; 6] 13 5 21) 13 5 = 21 /\ put_bits [1; 2; 3; 4; 5; 6] 13 5 21 = [1; 5; 67; 4; 5; 6].
Proof.
  destruct (put_bits_extract_bits [1; 2; 3; 4; 5; 6] 13 5 21) as (H & _ & _);
    [apply bytes_ok_check; reflexivity|lia|lia|cbn; lia|cbn; lia|lia|]. split; [exact H|reflexivity].
Defined.

(** C39. [copy_bits] copies a run of bits that need not start at a byte
    boundary: the first [nb] bits of the destination are those of the source
    from [so], every byte past [nb / 8] is untouched, and byte [nb / 8] itself
    is always overwritten with the eight source bits at its place, also when
    [nb] is a multiple of 8 and no bit of it was to be copied. *)
Theorem copy_bits_correct dest src so nb :
  bytes_ok src -> 0 <= so -> 0 <= nb < 8 * Z.of_nat (length dest) -> so + nb < 2 ^ 62 ->
  length (copy_bits dest src so nb) = length dest /\
  (forall i, 0 <= i < nb -> bit (copy_bits dest src so nb) i = bit src (so + i)) /\
  byte_at (copy_bits dest src so nb) (Z.to_nat (nb / 8)) = extract_bits src (so + 8 * (nb / 8)) 8 /\
  (forall m, nb / 8 < Z.of_nat m -> byte_at (copy_bits dest src so nb) m = byte_at dest m).
Proof.
  intros Hsrc Hso Hnb Hb. destruct (copy_bits_bytes dest src so nb Hnb) as [Hl E].
  split; [done|]. split; [now apply copy_bits_spec|]. split.
  - rewrite E, Z2Nat.id by zdiv. now rewrite Z.leb_refl.
  - intros m Hm. rewrite E. zcases; (done || lia).
Qed.

Lemma copy_bits_correct_witness : byte_at (copy_bits [0; 0; 0] [18; 52; 86; 120; 154] 4 8) 1 = 69.
Proof.
  destruct (copy_bits_correct [0; 0; 0] [18; 52; 86; 120; 154] 4 8) as (_ & _ & H & _);
    [apply bytes_ok_check; reflexivity|lia|cbn; lia|lia|exact H].
Defined.

(** [last_bit_before] finds the closest set bit below a position of a
    bitmap of up to 64 bits, or returns -1 when there is none. *)
Theorem last_bit_before_correct bs e :
  bytes_ok bs -> 0 <= e < 64 ->
  (last_bit_before bs e = -1 <-> forall j, 0 <= j < e -> get_bit bs j = false) /\
  (forall r, 0 <= r -> (last_bit_before bs e = r <->
     r < e /\ get_bit bs r = true /\ forall j, r < j < e -> get_bit bs j = false)).
Proof.
  intros Hb He. assert (G : forall j, 0 <= j -> get_bit bs j = bit bs j) by (intros; now apply get_bit_bit).
  pose proof (last_bit_before_spec bs e Hb He) as H. cbv zeta in H. split.
  - split.
    + intros E j Hj. rewrite G by lia. destruct H as [[_ H]|(H & _)]; [now apply H|lia].
    + intros Hn. destruct H as [[H _]|(H1 & H2 & _)]; [done|]. rewrite <- G, Hn in H2 by lia. discriminate.
  - intros r Hr. split.
    + intros E. rewrite E in H. destruct H as [[H _]|(H1 & H2 & H3)]; [lia|]. split; [lia|].
      split; [now rewrite G by lia|]. intros j Hj. rewrite G by lia. now apply H3.
    + intros (H1 & H2 & H3). rewrite G in H2 by lia. destruct H as [[H H4]|(H4 & H5 & H6)].
      * rewrite H4 in H2 by lia. discriminate.
      * destruct (Z.lt_trichotomy r (last_bit_before bs e)) as [Hlt|[->|Hlt]]; [|done|].
        -- rewrite <- G, H3 in H5 by lia. discriminate.
        -- rewrite H6 in H2 by lia. discriminate.
Qed.

Lemma last_bit_before_correct_witness : last_bit_before [64; 1; 0; 0; 0; 0; 0; 0] 15 = 1.
Proof.
  apply (last_bit_before_correct [64; 1; 0; 0; 0; 0; 0; 0] 15); [apply bytes_ok_check; reflexivity|lia|lia|].
  split; [lia|]. split; [reflexivity|]. intros j Hj.
  assert (Hc : j = 2 \/ j = 3 \/ j = 4 \/ j = 5 \/ j = 6 \/ j = 7 \/ j = 8 \/ j = 9 \/ j = 10 \/ j = 11 \/ j = 12 \/ j = 13 \/ j = 14) by lia.
  repeat destruct Hc as [->|Hc]; try reflexivity. subst j. reflexivity.
Defined.
