(* ===== verification/Entry.v ===== *)
(** * Entries (cuckoo_trie_internal.h)

    A [ct_entry] is a 15-byte packed union (config.h: 5 bits per symbol, 8
    symbols per jump, 4 tag bits, 4 cells per bucket, MULTITHREADING). It is
    modelled as its bytes; every accessor of cuckoo_trie_internal.h is
    defined on them with the offsets of the packed struct:
<<
      byte  0      parent_color_and_flags
      byte  1      color_and_tag
      byte  2      last_symbol
      bytes 3..7   child_bitmap | jump_bits          (key: bytes 3..8)
      byte  8      max_child | child_color_and_jump_size
      bytes 9..14  max_leaf | next_leaf  (u32 primary_bucket, u8 tag, u8 color)
>>
    The 16th byte of a local [ct_entry] is padding and is never interpreted,
    so it is not part of the model. *)

From S2P Require Import Prelude Bits.
From stdpp Require Import base list.
From Stdlib Require Import ZArith Lia Bool.

#[local] Open Scope Z_scope.

(** ** Configuration (config.h, cuckoo_trie.h, cuckoo_trie_internal.h, main.c) *)

Definition CUCKOO_BUCKET_SIZE : nat := 4.
Definition BITS_PER_SYMBOL : Z := 5.
Definition MAX_JUMP_SYMBOLS : Z := 8.
Definition TAG_BITS : Z := 4.
Definition MAX_KEY_BYTES : Z := 256.
Definition FANOUT : Z := 1 .<< BITS_PER_SYMBOL.
Definition SYMBOL_END : Z := 0.
Definition SYMBOL_MASK : Z := FANOUT - 1.
Definition CHILD_BITMAP_BYTES : nat := 5.
Definition MAX_KEY_SYMBOLS : Z := (MAX_KEY_BYTES * 8 + BITS_PER_SYMBOL - 1) / BITS_PER_SYMBOL.
Definition TYPE_UNUSED : Z := 0.
Definition TYPE_LEAF : Z := 1.
Definition TYPE_BITMAP : Z := 2.
Definition TYPE_JUMP : Z := 3.
Definition TYPE_MASK : Z := 3.
Definition FLAG_SECONDARY_BUCKET : Z := 4.
Definition FLAG_DIRTY : Z := 8.
Definition PARENT_COLOR_SHIFT : Z := 4.
Definition CHILD_COLOR_SHIFT : Z := 4.
Definition ROOT_LAST_SYMBOL : Z := 0.
Definition MAX_VALID_COLOR : Z := 2 * Z.of_nat CUCKOO_BUCKET_SIZE.
Definition INVALID_COLOR : Z := MAX_VALID_COLOR + 1.
Definition ROOT_COLOR : Z := 0.
Definition HASH_START_VALUE : Z := 0.
(** [(uint32_t)-1] and [-1ULL], the null bucket numbers. *)
Definition NO_BUCKET32 : Z := 2 ^ 32 - 1.
Definition NO_BUCKET64 : Z := 2 ^ 64 - 1.

(** ** Data *)

Definition ct_entry : Type := list Z.
Definition ENTRY_BYTES : nat := 15.

Record ct_entry_locator := mk_locator {
  loc_primary_bucket : Z;
  loc_tag : Z;
  loc_color : Z;
}.

(** An entry's bytes are bytes, and there are 15 of them. *)
Definition entry_ok (e : ct_entry) : Prop := length e = ENTRY_BYTES /\ bytes_ok e.

(** ** Fields *)

Definition parent_color_and_flags (e : ct_entry) : Z := byte_at e 0.
Definition color_and_tag (e : ct_entry) : Z := byte_at e 1.
Definition last_symbol (e : ct_entry) : Z := byte_at e 2.
Definition max_child (e : ct_entry) : Z := byte_at e 8.
Definition child_color_and_jump_size (e : ct_entry) : Z := byte_at e 8.

Definition set_byte (i : nat) (v : Z) (e : ct_entry) : ct_entry := <[i := u8 v]> e.
Definition set_parent_color_and_flags (v : Z) := set_byte 0 v.
Definition set_color_and_tag_byte (v : Z) := set_byte 1 v.
Definition set_last_symbol (v : Z) := set_byte 2 v.
Definition set_max_child (v : Z) := set_byte 8 v.
Definition set_child_color_and_jump_size (v : Z) := set_byte 8 v.

(** [&entry->child_bitmap[0]] and [&entry->jump_bits[0]]: the bytes from
    offset 3 to the entry's end. *)
Definition bits_area (e : ct_entry) : list Z := drop 3 e.
Definition set_bits_area (bs : list Z) (e : ct_entry) : ct_entry := take 3 e ++ bs.

(** [max_leaf] of bitmap and jump nodes, [next_leaf] of leaves: the same bytes. *)
Definition entry_locator (e : ct_entry) : ct_entry_locator :=
  mk_locator (load_bytes 4 e 9) (byte_at e 13) (byte_at e 14).
Definition set_entry_locator (l : ct_entry_locator) (e : ct_entry) : ct_entry :=
  set_byte 14 (loc_color l) (set_byte 13 (loc_tag l) (store_bytes 4 e 9 (loc_primary_bucket l))).
Abbreviation max_leaf := entry_locator (only parsing).
Abbreviation next_leaf := entry_locator (only parsing).
Abbreviation set_max_leaf := set_entry_locator (only parsing).
Abbreviation set_next_leaf := set_entry_locator (only parsing).

(** [next_leaf.primary_bucket = v], the other locator fields kept. *)
Definition set_next_leaf_bucket (v : Z) (e : ct_entry) : ct_entry := store_bytes 4 e 9 v.

(** The first quadword, as [*(uint64_t* )entry] reads it. *)
Definition entry_qword (e : ct_entry) : Z := load_bytes 8 e 0.
Definition set_entry_qword (x : Z) (e : ct_entry) : ct_entry := store_bytes 8 e 0 x.

(** The entry as a 128-bit word; the padding byte reads as zero. *)
Definition entry_u128 (e : ct_entry) : Z := le_combine e.
Definition u128_entry (x : Z) : ct_entry := le_split ENTRY_BYTES x.

(** ** Accessors *)

Definition entry_is_secondary (e : ct_entry) : bool :=
  (parent_color_and_flags e .& FLAG_SECONDARY_BUCKET) =? FLAG_SECONDARY_BUCKET.

Definition entry_dirty (e : ct_entry) : bool :=
  (parent_color_and_flags e .& FLAG_DIRTY) =? FLAG_DIRTY.

Definition entry_set_dirty (e : ct_entry) : ct_entry :=
  let mask := FLAG_DIRTY .<< (0 * 8) in
  set_entry_qword (entry_qword e .| mask) e.

Definition entry_set_clean (e : ct_entry) : ct_entry :=
  let mask := FLAG_DIRTY .<< (0 * 8) in
  set_entry_qword (entry_qword e .& bnot 64 mask) e.

Definition entry_add_flags (flags : Z) (e : ct_entry) : ct_entry :=
  set_entry_qword (entry_qword e .| (flags .<< (0 * 8))) e.

Definition entry_set_color_and_tag (new_value : Z) (e : ct_entry) : ct_entry :=
  let mask := 255 .<< (1 * 8) in
  let e1 := set_entry_qword (entry_qword e .& bnot 64 mask) e in
  set_entry_qword (entry_qword e1 .| u64 (new_value .<< (1 * 8))) e1.

Definition entry_type (e : ct_entry) : Z := parent_color_and_flags e .& TYPE_MASK.

Definition entry_set_child_bit (child : Z) (e : ct_entry) : ct_entry :=
  let child_byte := 3 + child / 8 in
  let child_pos := child_byte * 8 + (7 - child mod 8) in
  u128_entry (entry_u128 e .| (1 .<< child_pos)).

Definition put_bits_uint128 (x offset size bits : Z) : Z :=
  let mask := wrap 128 (((1 .<< size) - 1) .<< offset) in
  (x .& bnot 128 mask) .| wrap 128 (bits .<< offset).

Definition get_bits_uint128 (x offset size : Z) : Z :=
  let mask := u64 ((1 .<< size) - 1) in
  (x .>> offset) .& mask.

Definition entry_set_next_leaf (l : ct_entry_locator) (e : ct_entry) : ct_entry :=
  let next_leaf_value :=
    ((loc_primary_bucket l .<< (0 * 8)) .| (loc_color l .<< (5 * 8))) .| (loc_tag l .<< (4 * 8)) in
  u128_entry (put_bits_uint128 (entry_u128 e) (9 * 8) (6 * 8) next_leaf_value).

Definition entry_color (e : ct_entry) : Z := color_and_tag e .>> TAG_BITS.

Definition entry_tag (e : ct_entry) : Z := color_and_tag e .& ((1 .<< TAG_BITS) - 1).

Definition entry_parent_color (e : ct_entry) : Z := parent_color_and_flags e .>> PARENT_COLOR_SHIFT.

Definition entry_set_parent_color (color : Z) (e : ct_entry) : ct_entry :=
  let b := parent_color_and_flags e .& ((1 .<< PARENT_COLOR_SHIFT) - 1) in
  set_parent_color_and_flags (b .| (color .<< PARENT_COLOR_SHIFT)) e.

(** The accessors of jump nodes, like those of leaves and bitmap nodes, assert the
    type of the entry in C. The accessors here do not test it: they are
    functions on the bytes of any entry. *)
Definition entry_jump_size (e : ct_entry) : Z :=
  child_color_and_jump_size e .& ((1 .<< CHILD_COLOR_SHIFT) - 1).

Definition entry_child_color (e : ct_entry) : Z :=
  child_color_and_jump_size e .>> CHILD_COLOR_SHIFT.

Definition entry_set_jump_size (jump_size : Z) (e : ct_entry) : ct_entry :=
  let b := child_color_and_jump_size e .& bnot 8 ((1 .<< CHILD_COLOR_SHIFT) - 1) in
  set_child_color_and_jump_size (b .| jump_size) e.

Definition entry_set_child_color (child_color : Z) (e : ct_entry) : ct_entry :=
  let b := child_color_and_jump_size e .& ((1 .<< CHILD_COLOR_SHIFT) - 1) in
  set_child_color_and_jump_size (b .| (child_color .<< CHILD_COLOR_SHIFT)) e.

Definition entry_set_type (type : Z) (e : ct_entry) : ct_entry :=
  set_parent_color_and_flags ((parent_color_and_flags e .& bnot 8 TYPE_MASK) .| type) e.

(** A key-value pointer is its 64-bit address; 48 bits of it are stored. *)
Definition entry_kv (e : ct_entry) : Z :=
  let result := get_bits_uint128 (entry_u128 e) (3 * 8) (6 * 8) in
  if negb ((result .& 0x800000000000) =? 0) then result .| 0xFFFF000000000000 else result.

Definition entry_set_kv (kv : Z) (e : ct_entry) : ct_entry :=
  let low_dword := u32 kv in
  let high_word := (kv .>> 32) .& 0xFFFF in
  store_bytes 2 (store_bytes 4 e 3 low_dword) 7 high_word.

(** [get_jump_symbol] (main.c): symbol [symbol_idx] of a jump node. *)
Definition get_jump_symbol (e : ct_entry) (symbol_idx : Z) : Z :=
  let jump_bits := bswap64 (load_bytes 8 (bits_area e) 0) in
  ((jump_bits .>> (64 - BITS_PER_SYMBOL - BITS_PER_SYMBOL * symbol_idx)) .& SYMBOL_MASK) + 1.

(** [extend_jump_node] (main.c): append a symbol to a jump node. *)
Definition extend_jump_node (symbol : Z) (e : ct_entry) : ct_entry :=
  let offset := entry_jump_size e * BITS_PER_SYMBOL in
  let e1 := set_bits_area (put_bits (bits_area e) offset BITS_PER_SYMBOL (symbol - 1)) e in
  set_child_color_and_jump_size (child_color_and_jump_size e1 + 1) e1.

(** [entries_equal] (main.c) compares two overlapping quadwords. *)
Definition entries_equal (a b : ct_entry) : bool :=
  (load_bytes 8 a 0 =? load_bytes 8 b 0) && (load_bytes 8 a 7 =? load_bytes 8 b 7).

(** ** Loads, stores and well-formed entries *)

Ltac entry_lia := unfold entry_ok, ENTRY_BYTES, ct_entry in *; lia.

Lemma set_byte_ok i v e : entry_ok e -> entry_ok (set_byte i v e).
Proof.
  intros [Hl Hb]. unfold set_byte, ct_entry in *. split; [etransitivity; [apply length_insert|exact Hl]|].
  apply (Forall_insert is_byte); [done|]. apply (wrap_bound 8). lia.
Qed.

Lemma store_entry_ok n e k x : entry_ok e -> (k + n <= ENTRY_BYTES)%nat -> entry_ok (store_bytes n e k x).
Proof.
  intros [Hl Hb] H. split; [rewrite length_store_bytes; lia|]. now apply bytes_ok_store_bytes.
Qed.

Lemma u128_entry_ok x : entry_ok (u128_entry x).
Proof. split; [apply length_le_split|apply le_split_ok]. Qed.

#[export] Hint Resolve set_byte_ok store_entry_ok u128_entry_ok : cuckoo.

Lemma byte_at_set_byte i v e k :
  entry_ok e -> (i < ENTRY_BYTES)%nat ->
  byte_at (set_byte i v e) k = if decide (k = i) then u8 v else byte_at e k.
Proof. intros [Hl _] Hi. unfold set_byte. apply byte_at_insert. unfold ct_entry in *. lia. Qed.

Lemma entry_ext e e' :
  entry_ok e -> entry_ok e' -> (forall i, (i < ENTRY_BYTES)%nat -> byte_at e i = byte_at e' i) -> e = e'.
Proof. intros [H1 _] [H2 _] H. apply bytes_ext; [congruence|]. intros i Hi. apply H. lia. Qed.

Lemma entry_byte e i : entry_ok e -> is_byte (byte_at e i).
Proof. intros [_ H]. auto with cuckoo. Qed.
#[export] Hint Resolve entry_byte : cuckoo.

Lemma testbit_entry_qword e i :
  entry_ok e -> 0 <= i < 64 ->
  Z.testbit (entry_qword e) i = Z.testbit (byte_at e (Z.to_nat (i / 8))) (i mod 8).
Proof. intros [_ H] Hi. unfold entry_qword. rewrite testbit_load_bytes by (done || lia). done. Qed.

Lemma testbit_entry_u128 e i :
  entry_ok e -> 0 <= i ->
  Z.testbit (entry_u128 e) i = Z.testbit (byte_at e (Z.to_nat (i / 8))) (i mod 8).
Proof. intros [_ H] Hi. now apply testbit_le_combine. Qed.

(** Bit [j] of byte [i] after a store of the first quadword, or of the entry. *)
Lemma testbit_set_entry_qword x e i j :
  entry_ok e -> 0 <= j < 8 ->
  Z.testbit (byte_at (set_entry_qword x e) i) j =
  if (i <? 8)%nat then Z.testbit x (8 * Z.of_nat i + j) else Z.testbit (byte_at e i) j.
Proof.
  intros [Hl Hb] Hj. unfold set_entry_qword.
  rewrite byte_at_store_bytes by entry_lia.
  destruct (Nat.ltb_spec i 8); [rewrite decide_True by lia|rewrite decide_False by lia; done].
  rewrite testbit_byte_at_le_split by lia. do 2 f_equal. lia.
Qed.

Lemma testbit_u128_entry x i j :
  (i < ENTRY_BYTES)%nat -> 0 <= j < 8 ->
  Z.testbit (byte_at (u128_entry x) i) j = Z.testbit x (8 * Z.of_nat i + j).
Proof. intros. unfold u128_entry. now rewrite testbit_byte_at_le_split by lia. Qed.

(** Two entries that agree bit by bit are equal. *)
Lemma entry_bits_eq e e' :
  entry_ok e -> entry_ok e' ->
  (forall i j, (i < ENTRY_BYTES)%nat -> 0 <= j < 8 ->
     Z.testbit (byte_at e i) j = Z.testbit (byte_at e' i) j) -> e = e'.
Proof.
  intros H1 H2 H. apply entry_ext; [done..|]. intros i Hi. apply byte_eq; auto with cuckoo.
Qed.

Lemma byte_index (i : nat) j :
  0 <= j < 8 -> (8 * Z.of_nat i + j) / 8 = Z.of_nat i /\ (8 * Z.of_nat i + j) mod 8 = j.
Proof. intros. split; zdiv. Qed.

(** Bit [8 i + j] of the entry read as a word. *)
Lemma testbit_qword_byte e (i : nat) j :
  entry_ok e -> (i < 8)%nat -> 0 <= j < 8 ->
  Z.testbit (entry_qword e) (8 * Z.of_nat i + j) = Z.testbit (byte_at e i) j.
Proof.
  intros H Hi Hj. rewrite testbit_entry_qword by (done || lia).
  destruct (byte_index i j Hj) as [-> ->]. now rewrite Nat2Z.id.
Qed.

Lemma testbit_u128_byte e (i : nat) j :
  entry_ok e -> 0 <= j < 8 ->
  Z.testbit (entry_u128 e) (8 * Z.of_nat i + j) = Z.testbit (byte_at e i) j.
Proof.
  intros H Hj. rewrite testbit_entry_u128 by (done || lia).
  destruct (byte_index i j Hj) as [-> ->]. now rewrite Nat2Z.id.
Qed.

(** ** Quadword updates are updates of one byte *)

Lemma set_byte_bits i v e k j :
  entry_ok e -> (i < ENTRY_BYTES)%nat -> 0 <= j < 8 ->
  Z.testbit (byte_at (set_byte i v e) k) j =
  if decide (k = i) then Z.testbit v j else Z.testbit (byte_at e k) j.
Proof.
  intros H Hi Hj. rewrite byte_at_set_byte by done. case_decide; [|done].
  rewrite testbit_wrap by lia. destruct (Z.ltb_spec j 8); [done|lia].
Qed.

(** A store of [f (qword)] where [f] only changes byte [i]. *)
Lemma set_entry_qword_byte (x v : Z) (i : nat) e :
  entry_ok e -> (i < 8)%nat ->
  (forall j, 0 <= j < 8 -> Z.testbit x (8 * Z.of_nat i + j) = Z.testbit v j) ->
  (forall (k : nat) j, (k < 8)%nat -> k <> i -> 0 <= j < 8 ->
     Z.testbit x (8 * Z.of_nat k + j) = Z.testbit (byte_at e k) j) ->
  set_entry_qword x e = set_byte i v e.
Proof.
  intros H Hi H1 H2. apply entry_bits_eq; [now apply store_entry_ok; try entry_lia|auto with cuckoo|].
  intros k j Hk Hj. rewrite testbit_set_entry_qword, set_byte_bits by (done || entry_lia).
  case_decide as Hd.
  - subst. destruct (Nat.ltb_spec i 8); [auto|lia].
  - destruct (Nat.ltb_spec k 8); auto.
Qed.

Lemma entry_add_flags_eq flags e :
  entry_ok e -> is_byte flags ->
  entry_add_flags flags e = set_parent_color_and_flags (parent_color_and_flags e .| flags) e.
Proof.
  intros H Hf. apply (set_entry_qword_byte _ _ 0); [done|lia| |].
  - intros j Hj. rewrite Z.lor_spec, testbit_qword_byte, testbit_shl by (done || lia).
    rewrite Z.lor_spec. zcases. f_equal. f_equal. lia.
  - intros k j Hk Hne Hj. rewrite Z.lor_spec, testbit_qword_byte, testbit_shl by (done || lia).
    rewrite (testbit_byte_high flags) by (done || lia). now rewrite andb_false_r, orb_false_r.
Qed.

Lemma entry_set_dirty_eq e :
  entry_ok e ->
  entry_set_dirty e = set_parent_color_and_flags (parent_color_and_flags e .| FLAG_DIRTY) e.
Proof. intros. now apply (entry_add_flags_eq FLAG_DIRTY). Qed.

Lemma testbit_flag_dirty i : 0 <= i -> Z.testbit FLAG_DIRTY i = (i =? 3).
Proof. intros. unfold FLAG_DIRTY. change 8 with (2 ^ 3). rewrite Z.pow2_bits_eqb by lia. apply Z.eqb_sym. Qed.

Lemma entry_set_clean_eq e :
  entry_ok e ->
  entry_set_clean e =
  set_parent_color_and_flags (parent_color_and_flags e .& bnot 8 FLAG_DIRTY) e.
Proof.
  intros H. unfold entry_set_clean. cbn [Z.mul]. rewrite Z.shiftl_0_r.
  apply (set_entry_qword_byte _ _ 0); [done|lia| |].
  - intros j Hj. rewrite !Z.land_spec, testbit_qword_byte, !testbit_bnot, !testbit_flag_dirty by (done || lia).
    zcases; done.
  - intros k j Hk Hne Hj. rewrite !Z.land_spec, testbit_qword_byte, !testbit_bnot, !testbit_flag_dirty by (done || lia).
    zcases. apply andb_true_r.
Qed.

Lemma entry_set_color_and_tag_eq v e :
  entry_ok e -> is_byte v -> entry_set_color_and_tag v e = set_color_and_tag_byte v e.
Proof.
  intros H Hv. unfold entry_set_color_and_tag. set (e1 := set_entry_qword _ e).
  assert (H1 : entry_ok e1) by (apply store_entry_ok; [done|entry_lia]).
  assert (Hm : forall i, 0 <= i -> Z.testbit (255 .<< (1 * 8)) i = (8 <=? i) && (i <? 16)).
  { intros i Hi. rewrite testbit_shl by lia. change 255 with (Z.ones 8).
    destruct (Z.leb_spec (1 * 8) i); [rewrite testbit_ones by lia|]; zcases; done. }
  assert (Hb : forall (k : nat) j, (k < ENTRY_BYTES)%nat -> 0 <= j < 8 ->
    Z.testbit (byte_at e1 k) j = if decide (k = 1%nat) then false else Z.testbit (byte_at e k) j).
  { intros k j Hk Hj. unfold e1. rewrite testbit_set_entry_qword by done.
    destruct (Nat.ltb_spec k 8); [|rewrite decide_False by lia; done].
    rewrite Z.land_spec, testbit_qword_byte, testbit_bnot, Hm by (done || entry_lia).
    case_decide; zcases; rewrite ?andb_true_r, ?andb_false_r; done. }
  transitivity (set_byte 1 v e1).
  - apply (set_entry_qword_byte _ _ 1); [done|lia| |].
    + intros j Hj. rewrite Z.lor_spec, testbit_qword_byte, testbit_wrap, testbit_shl, Hb by (done || entry_lia).
      rewrite decide_True by done. zcases; f_equal; lia.
    + intros k j Hk Hne Hj. rewrite Z.lor_spec, testbit_qword_byte, testbit_wrap, testbit_shl by (done || entry_lia).
      destruct (Nat.eq_dec k 0) as [->|].
      * zcases; apply orb_false_r.
      * rewrite (testbit_byte_high v) by (done || entry_lia). now rewrite !andb_false_r, orb_false_r.
  - unfold set_color_and_tag_byte. apply entry_bits_eq; [auto with cuckoo..|]. intros k j Hk Hj.
    rewrite !set_byte_bits, Hb by (done || entry_lia). case_decide; done.
Qed.

(** ** Fields after field updates *)

Lemma set_flags_ok v e : entry_ok e -> entry_ok (set_parent_color_and_flags v e).
Proof. apply set_byte_ok. Qed.
Lemma set_color_ok v e : entry_ok e -> entry_ok (set_color_and_tag_byte v e).
Proof. apply set_byte_ok. Qed.
#[export] Hint Resolve set_flags_ok set_color_ok : cuckoo.

Section fields.
Variables (e : ct_entry) (v : Z).
Hypothesis e_ok : entry_ok e.

Lemma flags_set_flags : parent_color_and_flags (set_parent_color_and_flags v e) = u8 v.
Proof. unfold parent_color_and_flags, set_parent_color_and_flags. rewrite byte_at_set_byte by (done || entry_lia). done. Qed.
Lemma color_set_flags : color_and_tag (set_parent_color_and_flags v e) = color_and_tag e.
Proof. unfold color_and_tag, set_parent_color_and_flags. rewrite byte_at_set_byte by (done || entry_lia). done. Qed.
Lemma flags_set_color : parent_color_and_flags (set_color_and_tag_byte v e) = parent_color_and_flags e.
Proof. unfold parent_color_and_flags, set_color_and_tag_byte. rewrite byte_at_set_byte by (done || entry_lia). done. Qed.
Lemma color_set_color : color_and_tag (set_color_and_tag_byte v e) = u8 v.
Proof. unfold color_and_tag, set_color_and_tag_byte. rewrite byte_at_set_byte by (done || entry_lia). done. Qed.

Lemma set_flags_set_flags w :
  set_parent_color_and_flags w (set_parent_color_and_flags v e) = set_parent_color_and_flags w e.
Proof. apply list_insert_insert_eq. Qed.
End fields.

Lemma set_flags_id e : entry_ok e -> set_parent_color_and_flags (parent_color_and_flags e) e = e.
Proof.
  intros H. apply entry_ext; [auto with cuckoo..|]. intros i Hi.
  unfold set_parent_color_and_flags. rewrite byte_at_set_byte by (done || entry_lia).
  case_decide; [subst|done]. apply wrap_small. apply (entry_byte e 0 H).
Qed.

Lemma flags_byte e : entry_ok e -> is_byte (parent_color_and_flags e).
Proof. apply entry_byte. Qed.
Lemma color_and_tag_byte e : entry_ok e -> is_byte (color_and_tag e).
Proof. apply entry_byte. Qed.
#[export] Hint Resolve flags_byte color_and_tag_byte : cuckoo.

(** A color and a tag of four bits each fit one byte and come back. *)
Lemma color_tag_byte color tag :
  0 <= color < 16 -> 0 <= tag < 16 ->
  is_byte ((color .<< TAG_BITS) .| tag) /\
  ((color .<< TAG_BITS) .| tag) .>> TAG_BITS = color /\
  ((color .<< TAG_BITS) .| tag) .& ((1 .<< TAG_BITS) - 1) = tag.
Proof.
  intros Hc Ht.
  set (P := fun c t => let b := Z.lor (Z.shiftl c TAG_BITS) t in
    (0 <=? b) && (b <? 256) && (Z.shiftr b TAG_BITS =? c) && (Z.land b ((1 .<< TAG_BITS) - 1) =? t)).
  assert (H : P color tag = true).
  { apply (forallb_below 16 (P color)); [|lia].
    apply (forallb_below 16 (fun c => forallb (P c) (map Z.of_nat (seq 0 16)))); [|lia].
    vm_compute. reflexivity. }
  unfold P in H. rewrite !andb_true_iff, !Z.eqb_eq, Z.leb_le, Z.ltb_lt in H. unfold is_byte. tauto.
Qed.

(** ** The key-value pointer *)

(** A canonical address: bits 47 to 63 are equal. *)
Definition canonical_address (kv : Z) : Prop := 0 <= kv < 2 ^ 47 \/ 2 ^ 64 - 2 ^ 47 <= kv < 2 ^ 64.

Lemma canonical_high_bits kv i :
  2 ^ 64 - 2 ^ 47 <= kv < 2 ^ 64 -> 47 <= i < 64 -> Z.testbit kv i = true.
Proof.
  intros Hkv Hi. assert (E : kv .>> 47 = Z.ones 17).
  { rewrite Z.shiftr_div_pow2 by lia. symmetry. apply (Z.div_unique _ _ _ (kv - (2 ^ 64 - 2 ^ 47))); [lia|].
    change (Z.ones 17) with 131071. lia. }
  replace i with ((i - 47) + 47) by lia. rewrite <- Z.shiftr_spec, E, testbit_ones by lia. zcases; done.
Qed.

Lemma testbit_entry_set_kv kv e i j :
  entry_ok e -> (i < ENTRY_BYTES)%nat -> 0 <= j < 8 ->
  Z.testbit (byte_at (entry_set_kv kv e) i) j =
  if decide (3 <= i < 9)%nat then Z.testbit kv (8 * (Z.of_nat i - 3) + j)
  else Z.testbit (byte_at e i) j.
Proof.
  intros [Hl Hb] Hi Hj. unfold entry_set_kv.
  rewrite byte_at_store_bytes by (rewrite length_store_bytes; entry_lia).
  case_decide as H1.
  - rewrite decide_True by lia. rewrite testbit_byte_at_le_split by lia.
    change 0xFFFF with (Z.ones 16). rewrite Z.land_spec, testbit_ones, Z.shiftr_spec by lia.
    zcases. rewrite andb_true_r. f_equal. lia.
  - rewrite byte_at_store_bytes by entry_lia. case_decide as H2.
    + rewrite decide_True by lia. rewrite testbit_byte_at_le_split, testbit_wrap by lia.
      zcases. f_equal. lia.
    + rewrite decide_False by lia. done.
Qed.

Lemma entry_set_kv_ok kv e : entry_ok e -> entry_ok (entry_set_kv kv e).
Proof.
  intros H. unfold entry_set_kv. apply store_entry_ok; [apply store_entry_ok; [done|entry_lia]|entry_lia].
Qed.
#[export] Hint Resolve entry_set_kv_ok : cuckoo.

Lemma testbit_entry_kv e i :
  entry_ok e -> 0 <= i < 64 ->
  Z.testbit (entry_kv e) i =
  Z.testbit (byte_at e (Z.to_nat (3 + (if i <? 48 then i else 47) / 8))) ((if i <? 48 then i else 47) mod 8).
Proof.
  intros H Hi. unfold entry_kv, get_bits_uint128.
  set (r := (entry_u128 e .>> (3 * 8)) .& u64 ((1 .<< (6 * 8)) - 1)).
  assert (Hr : forall k, 0 <= k -> Z.testbit r k = (k <? 48) && Z.testbit (byte_at e (Z.to_nat (3 + k / 8))) (k mod 8)).
  { intros k Hk. unfold r. change (u64 _) with (Z.ones 48).
    rewrite Z.land_spec, testbit_ones, Z.shiftr_spec, testbit_entry_u128 by (done || lia).
    rewrite andb_comm. change (3 * 8) with 24.
    assert ((k + 24) / 8 = 3 + k / 8 /\ (k + 24) mod 8 = k mod 8) as [-> ->] by zdiv. done. }
  assert (Hsign : negb ((r .& 0x800000000000) =? 0) = Z.testbit r 47).
  { change 0x800000000000 with (2 ^ 47). destruct (Z.testbit r 47) eqn:E.
    - destruct (Z.eqb_spec (r .& 2 ^ 47) 0) as [E2|]; [|done].
      apply (f_equal (fun x => Z.testbit x 47)) in E2.
      rewrite Z.land_spec, E, Z.pow2_bits_true, Z.bits_0 in E2 by lia. done.
    - destruct (Z.eqb_spec (r .& 2 ^ 47) 0) as [|E2]; [done|]. exfalso. apply E2.
      apply Z.bits_inj'. intros k Hk. rewrite Z.land_spec, Z.pow2_bits_eqb, Z.bits_0 by lia.
      destruct (Z.eqb_spec 47 k) as [<-|]; [now rewrite E|apply andb_false_r]. }
  rewrite Hsign.
  assert (H47 := Hr 47 ltac:(lia)). cbn [Z.ltb Z.compare Pos.compare Pos.compare_cont andb] in H47.
  change 0xFFFF000000000000 with (Z.ones 16 .<< 48).
  destruct (Z.testbit r 47) eqn:E.
  - rewrite Z.lor_spec, Hr, testbit_shl by lia. destruct (Z.ltb_spec i 48).
    + zcases. apply orb_false_r.
    + rewrite testbit_ones by lia. zcases. exact H47.
  - rewrite Hr by lia. zcases; [done|]. exact H47.
Qed.

Lemma entry_kv_bound e : entry_ok e -> 0 <= entry_kv e < 2 ^ 64.
Proof.
  intros H. unfold entry_kv. set (r := get_bits_uint128 _ _ _).
  assert (Hr : 0 <= r < 2 ^ 64) by (apply land_bound; [lia|apply wrap_bound; lia]).
  destruct (negb _); [|done]. apply lor_bound; lia.
Qed.

Lemma entry_kv_set kv e : entry_ok e -> canonical_address kv -> entry_kv (entry_set_kv kv e) = kv.
Proof.
  intros H Hkv. assert (Hs := entry_set_kv_ok kv e H).
  apply (bits_eq 64); [lia|now apply entry_kv_bound|unfold canonical_address in Hkv; lia|].
  intros i Hi. rewrite testbit_entry_kv by done.
  rewrite testbit_entry_set_kv by (done || (zcases; unfold ENTRY_BYTES; zdiv)).
  rewrite decide_True by (zcases; zdiv).
  destruct (Z.ltb_spec i 48); [f_equal; zdiv|].
  replace (8 * (Z.of_nat (Z.to_nat (3 + 47 / 8)) - 3) + 47 mod 8) with 47 by done.
  destruct Hkv as [Hkv|Hkv].
  - now rewrite !(testbit_high 47) by lia.
  - now rewrite !canonical_high_bits by (done || lia).
Qed.

(** Bit 47 is copied to all bits above it. *)
Lemma entry_kv_canonical e : entry_ok e -> canonical_address (entry_kv e).
Proof.
  intros He. pose proof (entry_kv_bound e He) as Hb. set (v := entry_kv e) in *.
  assert (Hq : 0 <= v / 2 ^ 47 < 2 ^ 17) by (split; [apply Z.div_pos; lia|apply Z.div_lt_upper_bound; lia]).
  assert (E : v / 2 ^ 47 = if Z.testbit v 47 then Z.ones 17 else 0).
  { apply (bits_eq 17); [lia|exact Hq|destruct (Z.testbit v 47); [change (Z.ones 17) with 131071|]; lia|]. intros i Hi.
    rewrite <- Z.shiftr_div_pow2, Z.shiftr_spec by lia. unfold v. rewrite !testbit_entry_kv by (done || lia).
    change (47 <? 48) with true. cbv iota.
    assert (Ei : (if i + 47 <? 48 then i + 47 else 47) = 47) by (destruct (Z.ltb_spec (i + 47) 48); lia). rewrite Ei.
    destruct (Z.testbit (byte_at e _) _) eqn:Eb; rewrite ?testbit_ones, ?Z.bits_0 by lia; zcases; done. }
  pose proof (Z.div_mod v (2 ^ 47) ltac:(lia)) as Hd. pose proof (Z.mod_pos_bound v (2 ^ 47) ltac:(lia)) as Hm.
  unfold canonical_address. rewrite E in Hd. destruct (Z.testbit v 47); [right; change (Z.ones 17) with 131071 in Hd|left]; lia.
Qed.

(** ** The bit area: child bitmaps and jump symbols *)

Lemma byte_at_bits_area e i : byte_at (bits_area e) i = byte_at e (3 + i).
Proof. unfold bits_area, byte_at, ct_entry in *. now rewrite !nth_lookup, lookup_drop. Qed.

Lemma length_bits_area e : entry_ok e -> length (bits_area e) = 12%nat.
Proof. intros [H _]. unfold bits_area, ct_entry in *. rewrite length_drop, H. done. Qed.

Lemma bits_area_ok e : entry_ok e -> bytes_ok (bits_area e).
Proof. intros [_ H]. now apply Forall_drop. Qed.
#[export] Hint Resolve bits_area_ok length_bits_area : cuckoo.

Lemma set_bits_area_ok bs e :
  entry_ok e -> bytes_ok bs -> length bs = 12%nat -> entry_ok (set_bits_area bs e).
Proof.
  intros [H1 H2] Hb Hl. unfold set_bits_area. split.
  - unfold ct_entry in *. rewrite length_app, length_take. entry_lia.
  - apply Forall_app_2; [now apply Forall_take|done].
Qed.

Lemma byte_at_set_bits_area bs e i :
  entry_ok e -> byte_at (set_bits_area bs e) i = if (i <? 3)%nat then byte_at e i else byte_at bs (i - 3).
Proof.
  intros [H _]. unfold set_bits_area, ct_entry in *. destruct (Nat.ltb_spec i 3).
  - rewrite byte_at_app_l by (rewrite length_take; entry_lia). unfold byte_at.
    now rewrite !nth_lookup, lookup_take_lt by lia.
  - rewrite byte_at_app_r by (rewrite length_take; entry_lia). rewrite length_take. do 2 f_equal. entry_lia.
Qed.

Lemma bits_area_set bs e : entry_ok e -> bits_area (set_bits_area bs e) = bs.
Proof.
  intros [H _]. unfold bits_area, set_bits_area, ct_entry in *.
  rewrite drop_app_length'; [done|]. rewrite length_take. entry_lia.
Qed.

(** Bit [j] of byte [3 + k] is bit [8 k + 7 - j] of the bit area. *)
Lemma bit_bits_area e k j :
  0 <= j < 8 -> bit (bits_area e) (8 * Z.of_nat k + (7 - j)) = Z.testbit (byte_at e (3 + k)) j.
Proof.
  intros Hj. unfold bit. rewrite byte_at_bits_area.
  assert ((8 * Z.of_nat k + (7 - j)) / 8 = Z.of_nat k /\ (8 * Z.of_nat k + (7 - j)) mod 8 = 7 - j)
    as [-> ->] by zdiv.
  rewrite Nat2Z.id. f_equal. lia.
Qed.

(** [set_bit(child_bitmap, symbol, 1)], as the code that builds nodes does it. *)
Definition set_child_bit_in (symbol : Z) (e : ct_entry) : ct_entry :=
  set_bits_area (set_bit (bits_area e) symbol 1) e.

Lemma length_set_bit bs i v : length (set_bit bs i v) = length bs.
Proof. apply length_insert. Qed.

Lemma set_child_bit_in_ok c e : entry_ok e -> 0 <= c -> entry_ok (set_child_bit_in c e).
Proof.
  intros H Hc. apply set_bits_area_ok; [done| |].
  - apply bytes_ok_set_bit; auto with cuckoo.
  - rewrite length_set_bit. auto with cuckoo.
Qed.

Lemma testbit_set_child_bit_in c e i j :
  entry_ok e -> 0 <= c < 40 -> (i < ENTRY_BYTES)%nat -> 0 <= j < 8 ->
  Z.testbit (byte_at (set_child_bit_in c e) i) j =
  (8 * (Z.of_nat i - 3) + (7 - j) =? c) || Z.testbit (byte_at e i) j.
Proof.
  intros H Hc Hi Hj. pose proof (length_bits_area e H) as Hl.
  destruct (Nat.lt_ge_cases i 3).
  - unfold set_child_bit_in. rewrite byte_at_set_bits_area by done.
    destruct (Nat.ltb_spec i 3); [|lia]. zcases; done.
  - replace i with (3 + (i - 3))%nat at 1 3 by lia. rewrite <- !bit_bits_area by lia.
    unfold set_child_bit_in. rewrite bits_area_set by done.
    rewrite bit_set_bit by (auto with cuckoo || lia).
    replace (8 * (Z.of_nat i - 3) + (7 - j)) with (8 * Z.of_nat (i - 3) + (7 - j)) by lia.
    destruct (_ =? c); done.
Qed.

Lemma entry_set_child_bit_eq c e :
  entry_ok e -> 0 <= c < 40 -> entry_set_child_bit c e = set_child_bit_in c e.
Proof.
  intros H Hc. apply entry_bits_eq; [apply u128_entry_ok|apply set_child_bit_in_ok; (done || lia)|].
  intros i j Hi Hj. unfold entry_set_child_bit.
  rewrite testbit_u128_entry, Z.lor_spec, testbit_u128_byte, testbit_set_child_bit_in by done.
  rewrite orb_comm. f_equal. rewrite testbit_shl by zdiv.
  change 1 with (2 ^ 0). rewrite Z.pow2_bits_eqb by lia.
  apply eq_true_iff_eq. rewrite andb_true_iff, Z.leb_le, !Z.eqb_eq. zdiv.
Qed.

Lemma testbit_jump_symbol e idx i :
  entry_ok e -> 0 <= idx < 8 -> 0 <= i ->
  Z.testbit (get_jump_symbol e idx - 1) i = (i <? 5) && bit (bits_area e) (5 * idx + (4 - i)).
Proof.
  intros H Hidx Hi. unfold get_jump_symbol, BITS_PER_SYMBOL.
  rewrite Z.add_simpl_r. change SYMBOL_MASK with (Z.ones 5).
  rewrite Z.land_spec, testbit_ones, Z.shiftr_spec by lia.
  destruct (Z.ltb_spec i 5); [|apply andb_false_r]. rewrite andb_true_r. cbn [andb].
  rewrite <- testbit_msb64 by (auto with cuckoo || lia). f_equal. lia.
Qed.

Lemma jump_symbol_bound e idx : entry_ok e -> 0 <= idx < 8 -> 1 <= get_jump_symbol e idx <= 32.
Proof.
  intros H Hidx. assert (0 <= get_jump_symbol e idx - 1 < 2 ^ 5); [|lia].
  unfold get_jump_symbol. rewrite Z.add_simpl_r. apply (land_bound 5); [lia|].
  change SYMBOL_MASK with 31. lia.
Qed.

(** A byte split in two fields of four bits. *)
Lemma jump_size_incr b :
  is_byte b -> b .& ((1 .<< CHILD_COLOR_SHIFT) - 1) < 8 ->
  u8 (b + 1) .& ((1 .<< CHILD_COLOR_SHIFT) - 1) = (b .& ((1 .<< CHILD_COLOR_SHIFT) - 1)) + 1 /\
  u8 (b + 1) .>> CHILD_COLOR_SHIFT = b .>> CHILD_COLOR_SHIFT.
Proof.
  intros Hb Hs.
  set (P := fun b => let low := Z.land b ((1 .<< CHILD_COLOR_SHIFT) - 1) in
    (8 <=? low) || ((Z.land (wrap 8 (b + 1)) ((1 .<< CHILD_COLOR_SHIFT) - 1) =? low + 1)
                    && (Z.shiftr (wrap 8 (b + 1)) CHILD_COLOR_SHIFT =? Z.shiftr b CHILD_COLOR_SHIFT))).
  assert (H : P b = true) by (apply byte_check; [vm_compute; reflexivity|done]).
  subst P. cbv beta zeta in H. rewrite orb_true_iff, andb_true_iff, !Z.eqb_eq, Z.leb_le in H.
  destruct H as [H|H]; [lia|exact H].
Qed.

(** The bit area of an extended jump node. *)
Section extend.
Variables (e : ct_entry) (symbol : Z).
Hypothesis e_ok : entry_ok e.
Hypothesis room : entry_jump_size e < 8.
Hypothesis symbol_ok : 1 <= symbol <= 32.

Let size := entry_jump_size e.
Let bs := put_bits (bits_area e) (size * BITS_PER_SYMBOL) BITS_PER_SYMBOL (symbol - 1).

Lemma jump_size_bound : 0 <= size < 8.
Proof.
  split; [|exact room]. apply (land_bound 4); [lia|]. change ((1 .<< CHILD_COLOR_SHIFT) - 1) with 15. lia.
Qed.

Lemma extend_area_ok : bytes_ok bs /\ length bs = 12%nat.
Proof.
  pose proof jump_size_bound. pose proof (length_bits_area e e_ok). unfold bs, BITS_PER_SYMBOL. split.
  - apply put_bits_ok. auto with cuckoo.
  - rewrite length_put_bits; lia.
Qed.

Lemma extend_area_bit j :
  0 <= j < 96 ->
  bit bs j = if (5 * size <=? j) && (j <? 5 * size + 5)
             then Z.testbit (symbol - 1) (5 * size + 4 - j) else bit (bits_area e) j.
Proof.
  intros Hj. pose proof jump_size_bound. pose proof (length_bits_area e e_ok).
  unfold bs, BITS_PER_SYMBOL. rewrite bit_put_bits by (auto with cuckoo || lia).
  rewrite (Z.mul_comm size 5). replace (5 * size + 5 - 1 - j) with (5 * size + 4 - j) by lia. done.
Qed.

Lemma extend_area_byte k : (5 <= k < 12)%nat -> byte_at bs k = byte_at e (3 + k).
Proof.
  intros Hk. pose proof jump_size_bound. destruct extend_area_ok as [H1 H2].
  apply byte_eq; [auto with cuckoo..|]. intros j Hj. rewrite <- bit_bits_area by done.
  transitivity (bit bs (8 * Z.of_nat k + (7 - j))).
  - unfold bit.
    assert ((8 * Z.of_nat k + (7 - j)) / 8 = Z.of_nat k /\ (8 * Z.of_nat k + (7 - j)) mod 8 = 7 - j)
      as [-> ->] by zdiv.
    rewrite Nat2Z.id. f_equal. lia.
  - rewrite extend_area_bit by lia. zcases; done.
Qed.

Lemma extend_jump_node_ok : entry_ok (extend_jump_node symbol e).
Proof.
  destruct extend_area_ok. apply set_byte_ok. now apply set_bits_area_ok.
Qed.

Lemma extend_jump_byte i :
  (i < ENTRY_BYTES)%nat -> (i < 3 \/ 9 <= i)%nat ->
  byte_at (extend_jump_node symbol e) i = byte_at e i.
Proof.
  intros Hi Hout. destruct extend_area_ok. unfold extend_jump_node, set_child_color_and_jump_size.
  fold bs. rewrite byte_at_set_byte by (now apply set_bits_area_ok || entry_lia).
  rewrite decide_False by lia. rewrite byte_at_set_bits_area by done.
  destruct (Nat.ltb_spec i 3); [done|]. rewrite extend_area_byte by entry_lia. f_equal. lia.
Qed.

Lemma extend_jump_size_byte :
  byte_at (extend_jump_node symbol e) 8 = u8 (byte_at e 8 + 1).
Proof.
  destruct extend_area_ok. unfold extend_jump_node, set_child_color_and_jump_size. fold bs.
  rewrite byte_at_set_byte by (now apply set_bits_area_ok || entry_lia).
  rewrite decide_True by done. unfold child_color_and_jump_size.
  rewrite byte_at_set_bits_area by done. cbn [Nat.ltb Nat.leb Nat.sub].
  now rewrite extend_area_byte by lia.
Qed.

Lemma extend_jump_area j :
  0 <= j < 40 -> bit (bits_area (extend_jump_node symbol e)) j = bit bs j.
Proof.
  intros Hj. destruct extend_area_ok. unfold bit. f_equal.
  rewrite byte_at_bits_area. unfold extend_jump_node, set_child_color_and_jump_size. fold bs.
  rewrite byte_at_set_byte by (now apply set_bits_area_ok || entry_lia).
  rewrite decide_False by zdiv. rewrite byte_at_set_bits_area by done.
  destruct (Nat.ltb_spec (3 + Z.to_nat (j / 8)) 3); [lia|]. f_equal. lia.
Qed.

Lemma extend_jump_symbol idx :
  0 <= idx < 8 ->
  get_jump_symbol (extend_jump_node symbol e) idx =
  if idx =? size then symbol else get_jump_symbol e idx.
Proof.
  intros Hidx. pose proof jump_size_bound. pose proof extend_jump_node_ok as Hok.
  pose proof (jump_symbol_bound _ idx Hok Hidx).
  pose proof (jump_symbol_bound _ idx e_ok Hidx).
  enough (get_jump_symbol (extend_jump_node symbol e) idx - 1 =
          (if idx =? size then symbol else get_jump_symbol e idx) - 1) by lia.
  apply (bits_eq 5); [lia..|destruct (idx =? size); lia|]. intros i Hi.
  rewrite testbit_jump_symbol by (done || lia). rewrite extend_jump_area, extend_area_bit by lia.
  destruct (Z.eqb_spec idx size) as [->|Hne].
  - zcases. f_equal. lia.
  - rewrite testbit_jump_symbol by (done || lia). zcases; done.
Qed.

End extend.

(** ** The 48-bit next_leaf field *)

Definition locator_ok (l : ct_entry_locator) : Prop :=
  0 <= loc_primary_bucket l < 2 ^ 32 /\ is_byte (loc_tag l) /\ is_byte (loc_color l).

Lemma set_entry_locator_ok l e : entry_ok e -> entry_ok (set_entry_locator l e).
Proof.
  intros H. unfold set_entry_locator. do 2 apply set_byte_ok. apply store_entry_ok; [done|entry_lia].
Qed.
#[export] Hint Resolve set_entry_locator_ok : cuckoo.

Lemma testbit_set_entry_locator l e i j :
  entry_ok e -> (i < ENTRY_BYTES)%nat -> 0 <= j < 8 ->
  Z.testbit (byte_at (set_entry_locator l e) i) j =
  if decide (i = 14)%nat then Z.testbit (loc_color l) j
  else if decide (i = 13)%nat then Z.testbit (loc_tag l) j
  else if decide (9 <= i)%nat then Z.testbit (loc_primary_bucket l) (8 * (Z.of_nat i - 9) + j)
  else Z.testbit (byte_at e i) j.
Proof.
  intros H Hi Hj. unfold set_entry_locator.
  assert (H1 : entry_ok (store_bytes 4 e 9 (loc_primary_bucket l)))
    by (apply store_entry_ok; [done|entry_lia]).
  rewrite !set_byte_bits by (auto with cuckoo || entry_lia).
  case_decide; [done|]. case_decide; [done|].
  destruct H as [Hl _]. rewrite byte_at_store_bytes by entry_lia. case_decide.
  - rewrite decide_True by lia. rewrite testbit_byte_at_le_split by entry_lia. f_equal. entry_lia.
  - rewrite decide_False by entry_lia. done.
Qed.

Lemma entry_locator_set l e : entry_ok e -> locator_ok l -> entry_locator (set_entry_locator l e) = l.
Proof.
  intros H (Hb & Ht & Hcol). destruct l as [b t col]; cbn in *. unfold entry_locator.
  assert (Hok := set_entry_locator_ok (mk_locator b t col) e H).
  f_equal.
  - apply (bits_eq 32); [lia|apply (load_bytes_bound 4), Hok|lia|]. intros i Hi.
    rewrite testbit_load_bytes by (apply Hok || lia).
    rewrite testbit_set_entry_locator by (done || entry_lia || (unfold ENTRY_BYTES; zdiv)).
    rewrite !decide_False by zdiv. rewrite decide_True by lia. cbn. f_equal. zdiv.
  - apply byte_eq; [apply entry_byte, Hok|done|]. intros j Hj.
    now rewrite testbit_set_entry_locator by (done || entry_lia).
  - apply byte_eq; [apply entry_byte, Hok|done|]. intros j Hj.
    now rewrite testbit_set_entry_locator by (done || entry_lia).
Qed.

(** [entry_set_next_leaf] stores the three fields with one 128-bit store. *)
Lemma entry_set_next_leaf_eq l e :
  entry_ok e -> locator_ok l -> entry_set_next_leaf l e = set_entry_locator l e.
Proof.
  intros H (Hb & Ht & Hc). apply entry_bits_eq; [apply u128_entry_ok|auto with cuckoo|].
  intros i j Hi Hj. rewrite testbit_set_entry_locator by done.
  unfold entry_set_next_leaf, put_bits_uint128.
  assert (Hij : 0 <= 8 * Z.of_nat i + j < 120) by entry_lia.
  rewrite testbit_u128_entry, Z.lor_spec, Z.land_spec, testbit_u128_byte by done.
  change ((1 .<< (6 * 8)) - 1) with (Z.ones 48).
  rewrite testbit_bnot, !testbit_wrap, !testbit_shl by lia.
  destruct (Z.leb_spec (9 * 8) (8 * Z.of_nat i + j)) as [Hhi|Hlo].
  - rewrite testbit_ones, !Z.lor_spec, !testbit_shl by lia.
    rewrite (decide_True (P := (9 <= i)%nat)) by entry_lia.
    destruct (decide (i = 14%nat)) as [->|]; [|destruct (decide (i = 13%nat)) as [->|]].
    + rewrite (testbit_high 32 (loc_primary_bucket l)) by (exact Hb || lia).
      rewrite (testbit_byte_high (loc_tag l)) by (exact Ht || lia).
      zcases. rewrite ?andb_false_r, ?orb_false_r. cbn. f_equal. lia.
    + rewrite (testbit_high 32 (loc_primary_bucket l)) by (exact Hb || lia).
      zcases. rewrite ?andb_false_r, ?orb_false_r. cbn. f_equal. lia.
    + zcases; try entry_lia. rewrite ?andb_false_r, ?orb_false_r. cbn. f_equal. entry_lia.
  - rewrite !decide_False by lia. zcases. now rewrite andb_true_r, orb_false_r.
Qed.

(** ** Properties *)

(** C18. The 48 bits of a key-value pointer an entry stores determine it:
    every canonical 64-bit address is read back as it was written, and the
    bytes of the entry outside the pointer field are unchanged. *)
Theorem entry_kv_roundtrip kv e :
  entry_ok e -> canonical_address kv ->
  entry_kv (entry_set_kv kv e) = kv /\ entry_ok (entry_set_kv kv e) /\
  forall i, (i < 3 \/ 9 <= i < ENTRY_BYTES)%nat -> byte_at (entry_set_kv kv e) i = byte_at e i.
Proof.
  intros H Hkv. split; [now apply entry_kv_set|split; [auto with cuckoo|]].
  intros i Hi. apply byte_eq; [auto with cuckoo..|]. intros j Hj.
  rewrite testbit_entry_set_kv by (done || entry_lia). now rewrite decide_False by lia.
Qed.

(** [extend_jump_node] appends one symbol: the size grows by one, the new
    last symbol is the given one, all earlier symbols, the child color and
    the bytes outside the jump fields are unchanged. *)
Theorem extend_jump_node_appends symbol e :
  entry_ok e -> entry_jump_size e < MAX_JUMP_SYMBOLS -> 1 <= symbol <= FANOUT ->
  entry_ok (extend_jump_node symbol e) /\
  entry_jump_size (extend_jump_node symbol e) = entry_jump_size e + 1 /\
  entry_child_color (extend_jump_node symbol e) = entry_child_color e /\
  get_jump_symbol (extend_jump_node symbol e) (entry_jump_size e) = symbol /\
  (forall i, 0 <= i < entry_jump_size e ->
     get_jump_symbol (extend_jump_node symbol e) i = get_jump_symbol e i) /\
  (forall i, (i < 3 \/ 9 <= i < ENTRY_BYTES)%nat -> byte_at (extend_jump_node symbol e) i = byte_at e i).
Proof.
  unfold MAX_JUMP_SYMBOLS. change FANOUT with 32. intros H Hs Hsym.
  pose proof (jump_size_bound e Hs) as Hb.
  destruct (jump_size_incr (byte_at e 8)) as [E1 E2]; [auto with cuckoo|exact Hs|].
  split; [now apply extend_jump_node_ok|].
  unfold entry_jump_size at 1, entry_child_color, child_color_and_jump_size.
  rewrite extend_jump_size_byte by done. split; [exact E1|]. split; [exact E2|].
  split; [rewrite extend_jump_symbol by done; now rewrite Z.eqb_refl|]. split.
  - intros i Hi. rewrite extend_jump_symbol by (done || lia). destruct (Z.eqb_spec i (entry_jump_size e)); [lia|done].
  - intros i Hi. apply extend_jump_byte; (done || entry_lia).
Qed.

(** The 128-bit updates of cuckoo_trie_internal.h are the field updates
    they replace: [entry_set_child_bit] sets exactly the requested bit of the
    child bitmap, as [set_bit] does, and [entry_set_next_leaf] stores the
    three fields of the locator; both keep every other byte. *)
Theorem word_updates_are_field_updates c l e :
  entry_ok e -> 0 <= c <= FANOUT -> locator_ok l ->
  entry_set_child_bit c e = set_bits_area (set_bit (bits_area e) c 1) e /\
  (forall j, 0 <= j < 40 ->
     get_bit (bits_area (entry_set_child_bit c e)) j = (j =? c) || get_bit (bits_area e) j) /\
  entry_set_next_leaf l e = set_next_leaf l e /\
  next_leaf (entry_set_next_leaf l e) = l.
Proof.
  change FANOUT with 32. intros H Hc Hl. rewrite entry_set_child_bit_eq by (done || lia).
  split; [done|]. split.
  - intros j Hj. unfold set_child_bit_in. rewrite bits_area_set by done.
    rewrite get_bit_set_bit by (auto with cuckoo || (rewrite length_bits_area by done; lia) || lia).
    destruct (j =? c); done.
  - rewrite entry_set_next_leaf_eq by done. split; [done|now apply entry_locator_set].
Qed.

(** ** The properties at concrete inputs *)

Lemma entry_ok_check e :
  (length e =? ENTRY_BYTES)%nat && forallb (fun b => (0 <=? b) && (b <? 256)) e = true -> entry_ok e.
Proof.
  rewrite andb_true_iff, Nat.eqb_eq. intros [H1 H2]. split; [done|]. now apply bytes_ok_check.
Qed.

Definition sample_entry : ct_entry := [19; 37; 7; 170; 170; 170; 170; 170; 82; 1; 2; 3; 4; 5; 6].

Lemma entry_kv_roundtrip_witness :
  entry_kv (entry_set_kv 0xFFFF800012345678 sample_entry) = 0xFFFF800012345678.
Proof.
  apply (entry_kv_roundtrip 0xFFFF800012345678 sample_entry).
  - apply entry_ok_check. reflexivity.
  - right. lia.
Defined.

Lemma extend_jump_node_appends_witness :
  get_jump_symbol (extend_jump_node 29 sample_entry) 2 = 29 /\
  entry_jump_size (extend_jump_node 29 sample_entry) = 3.
Proof.
  destruct (extend_jump_node_appends 29 sample_entry) as (_ & H1 & _ & H2 & _).
  - apply entry_ok_check. reflexivity.
  - vm_compute. reflexivity.
  - vm_compute. split; discriminate.
  - split; [exact H2|exact H1].
Defined.

Lemma word_updates_are_field_updates_witness :
  next_leaf (entry_set_next_leaf (mk_locator 4294967295 15 9) sample_entry) = mk_locator 4294967295 15 9 /\
  get_bit (bits_area (entry_set_child_bit 32 sample_entry)) 32 = true.
Proof.
  destruct (word_updates_are_field_updates 32 (mk_locator 4294967295 15 9) sample_entry)
    as (_ & H1 & _ & H2).
  - apply entry_ok_check. reflexivity.
  - vm_compute. split; discriminate.
  - unfold locator_ok, is_byte. cbn. lia.
  - split; [exact H2|]. rewrite H1 by lia. reflexivity.
Defined.
