(* ===== verification/KeyObject.v ===== *)
(** * Key-value objects (key_object.h)

    A [ct_kv] is an object of the caller: two [int] sizes and the bytes of
    the key followed by those of the value. The comparison functions are
    the order of the whole index. *)

From S2P Require Import Prelude.
From stdpp Require Import base list.
From Stdlib Require Import ZArith Lia Bool.

#[local] Open Scope Z_scope.

Record ct_kv := mk_kv {
  key_size : Z;
  value_size : Z;
  kv_bytes : list Z;
}.

(** [sizeof(ct_kv)]: the header before the flexible array. *)
Definition SIZEOF_CT_KV : Z := 8.

Definition kv_required_size (key_len value_len : Z) : Z :=
  u64 (SIZEOF_CT_KV + key_len + value_len).
Definition kv_size (kv : ct_kv) : Z := u64 (SIZEOF_CT_KV + key_size kv + value_size kv).
Definition kv_init (kv : ct_kv) (key_len value_len : Z) : ct_kv :=
  mk_kv (to_signed 32 (u32 key_len)) (to_signed 32 (u32 value_len)) (kv_bytes kv).
Definition kv_key_size (kv : ct_kv) : Z := u64 (key_size kv).
Definition kv_key_bytes (kv : ct_kv) : list Z := kv_bytes kv.
Definition kv_value_size (kv : ct_kv) : Z := u64 (value_size kv).
Definition kv_value_bytes (kv : ct_kv) : list Z := drop (Z.to_nat (key_size kv)) (kv_bytes kv).

(** The key as the index sees it: [key_size] bytes. *)
Definition kv_key (kv : ct_kv) : list Z := take (Z.to_nat (key_size kv)) (kv_bytes kv).

(** [memcmp] of the standard library; only the sign of its result is
    specified, and -1 and 1 stand for it. *)
Fixpoint memcmp (a b : list Z) (n : nat) : Z :=
  match n, a, b with
  | S k, x :: a', y :: b' => if x =? y then memcmp a' b' k else if x <? y then -1 else 1
  | _, _, _ => 0
  end.

Definition kv_key_compare_to (kv : ct_kv) (size : Z) (bytes : list Z) : Z :=
  let min_size := if u64 (key_size kv) <? size then u64 (key_size kv) else size in
  let result := memcmp (kv_bytes kv) bytes (Z.to_nat min_size) in
  if negb (result =? 0) then result
  else to_signed 32 (u32 (u64 (key_size kv) - size)).

Definition kv_key_compare (k1 k2 : ct_kv) : Z :=
  kv_key_compare_to k1 (kv_key_size k2) (kv_key_bytes k2).

(** ** The order on keys *)

(** Lexicographic order on byte strings, a prefix being smaller. *)
Fixpoint key_compare (a b : list Z) : comparison :=
  match a, b with
  | [], [] => Eq
  | [], _ :: _ => Lt
  | _ :: _, [] => Gt
  | x :: a', y :: b' => match x ?= y with Eq => key_compare a' b' | c => c end
  end.

Definition sign_of (c : comparison) : Z := match c with Eq => 0 | Lt => -1 | Gt => 1 end.

(** A well-formed object: non-negative sizes that its bytes cover. *)
Definition kv_ok (kv : ct_kv) : Prop :=
  0 <= key_size kv < 2 ^ 31 /\ 0 <= value_size kv < 2 ^ 31 /\
  Z.of_nat (length (kv_bytes kv)) = key_size kv + value_size kv /\ bytes_ok (kv_bytes kv).

Lemma key_compare_refl a : key_compare a a = Eq.
Proof. induction a; cbn; [done|]. now rewrite Z.compare_refl. Qed.

Lemma key_compare_eq a b : key_compare a b = Eq <-> a = b.
Proof.
  split; [|intros ->; apply key_compare_refl].
  revert b. induction a as [|x a IH]; intros [|y b]; cbn; try done.
  destruct (Z.compare_spec x y); try done. subst. intros H%IH. now subst.
Qed.

Lemma key_compare_antisym a b : key_compare b a = CompOpp (key_compare a b).
Proof.
  revert b. induction a as [|x a IH]; intros [|y b]; cbn; try done.
  rewrite (Z.compare_antisym x y). destruct (x ?= y) eqn:E; cbn; auto.
Qed.

Lemma key_compare_lt_trans a b c :
  key_compare a b = Lt -> key_compare b c = Lt -> key_compare a c = Lt.
Proof.
  revert b c. induction a as [|x a IH]; intros [|y b] [|z c]; cbn; try done.
  destruct (Z.compare_spec x y), (Z.compare_spec y z), (Z.compare_spec x z);
    subst; try done; try lia; eauto.
Qed.

Lemma memcmp_sign a b n :
  (n <= length a)%nat -> (n <= length b)%nat ->
  match memcmp a b n with
  | Z0 => take n a = take n b
  | z => (z = 1 \/ z = -1) /\ forall a' b', key_compare (take n a ++ a') (take n b ++ b') =
           if z <? 0 then Lt else Gt
  end.
Proof.
  revert a b. induction n as [|n IH]; intros [|x a] [|y b] Ha Hb; cbn in *; try lia; try done.
  destruct (Z.eqb_spec x y) as [->|Hne].
  - specialize (IH a b ltac:(lia) ltac:(lia)). destruct (memcmp a b n) eqn:E.
    + now rewrite IH.
    + destruct IH as [IH1 IH2]. split; [done|]. intros a' b'. now rewrite Z.compare_refl, IH2.
    + destruct IH as [IH1 IH2]. split; [done|]. intros a' b'. now rewrite Z.compare_refl, IH2.
  - destruct (Z.ltb_spec x y).
    + split; [lia|]. intros. destruct (Z.compare_spec x y); try lia. done.
    + split; [lia|]. intros. destruct (Z.compare_spec x y); try lia. done.
Qed.

Lemma key_compare_app p a b : key_compare (p ++ a) (p ++ b) = key_compare a b.
Proof. induction p; cbn; [done|]. now rewrite Z.compare_refl. Qed.

Lemma to_signed_diff a b :
  0 <= a < 2 ^ 31 -> 0 <= b < 2 ^ 31 -> to_signed 32 (u32 (a - b)) = a - b.
Proof.
  intros Ha Hb. unfold to_signed, wrap. change (2 ^ (32 - 1)) with (2 ^ 31).
  destruct (Z.lt_ge_cases a b).
  - replace ((a - b) mod 2 ^ 32) with (a - b + 2 ^ 32)
      by (apply (Z.mod_unique _ _ (-1)); lia).
    destruct (Z.ltb_spec (a - b + 2 ^ 32) (2 ^ 31)); lia.
  - rewrite Z.mod_small by lia. destruct (Z.ltb_spec (a - b) (2 ^ 31)); lia.
Qed.

(** The C comparison returns the sign of the lexicographic order. *)
Lemma kv_key_compare_to_spec kv bytes :
  kv_ok kv -> Z.of_nat (length bytes) < 2 ^ 31 ->
  Z.sgn (kv_key_compare_to kv (Z.of_nat (length bytes)) bytes) =
  sign_of (key_compare (kv_key kv) bytes).
Proof.
  intros (Hk & Hv & Hl & Hb) Hlen. unfold kv_key_compare_to, kv_key.
  rewrite (wrap_small 64 (key_size kv)) by lia.
  set (n := Z.of_nat (length bytes)). set (k := key_size kv).
  set (m := if k <? n then k else n).
  assert (Hm : 0 <= m <= k /\ m <= n /\ (m = k \/ m = n))
    by (unfold m; destruct (Z.ltb_spec k n); lia).
  pose proof (memcmp_sign (kv_bytes kv) bytes (Z.to_nat m) ltac:(lia) ltac:(lia)) as Hc.
  assert (E1 : take (Z.to_nat k) (kv_bytes kv) =
    take (Z.to_nat m) (kv_bytes kv) ++ take (Z.to_nat k - Z.to_nat m) (drop (Z.to_nat m) (kv_bytes kv))).
  { rewrite take_take_drop. f_equal. lia. }
  rewrite E1. rewrite <- (take_drop (Z.to_nat m) bytes) at 3.
  destruct (memcmp (kv_bytes kv) bytes (Z.to_nat m)) as [|p|p] eqn:E; cbn [Z.eqb negb].
  - rewrite Hc, key_compare_app, to_signed_diff by lia.
    destruct Hm as (Hm1 & Hm2 & [-> | Hmn]).
    + rewrite Nat.sub_diag, take_0. destruct (drop (Z.to_nat k) bytes) as [|y l] eqn:Ed.
      * apply (f_equal length) in Ed. rewrite length_drop in Ed. cbn in Ed.
        replace (k - n) with 0 by lia. done.
      * apply (f_equal length) in Ed. rewrite length_drop in Ed. cbn in Ed. cbn.
        apply Z.sgn_neg. lia.
    + rewrite Hmn. rewrite (drop_ge bytes) by lia.
      destruct (take _ (drop (Z.to_nat n) (kv_bytes kv))) as [|y l] eqn:Ed;
        apply (f_equal length) in Ed; rewrite length_take, length_drop in Ed; cbn in Ed.
      * replace (k - n) with 0 by lia. done.
      * cbn. apply Z.sgn_pos. lia.
  - destruct Hc as [[[= ->]|?] Hc]; [|done]. now rewrite Hc.
  - destruct Hc as [[?|[= ->]] Hc]; [done|]. now rewrite Hc.
Qed.

(** Comparing with another object's key reads no more than its key. *)
Lemma memcmp_take a b n k : (n <= k)%nat -> memcmp a (take k b) n = memcmp a b n.
Proof.
  revert a b k. induction n as [|n IH]; intros a b k Hk; [now destruct a|].
  destruct k as [|k]; [lia|]. destruct a as [|x a], b as [|y b]; try done. cbn. rewrite IH by lia. done.
Qed.

Lemma length_kv_key o : kv_ok o -> Z.of_nat (length (kv_key o)) = key_size o.
Proof. intros (H1 & H2 & H3 & _). unfold kv_key. rewrite length_take. lia. Qed.

Lemma kv_key_bytes_ok o : kv_ok o -> bytes_ok (kv_key o).
Proof. intros (_ & _ & _ & Hb). now apply Forall_take. Qed.

Lemma kv_key_size_eq o : kv_ok o -> kv_key_size o = key_size o.
Proof. intros (H1 & _). apply wrap_small. lia. Qed.

Lemma kv_key_compare_eq k o :
  kv_ok o -> kv_key_compare k o = kv_key_compare_to k (Z.of_nat (length (kv_key o))) (kv_key o).
Proof.
  intros Ho. pose proof (length_kv_key o Ho) as Hl. unfold kv_key_compare, kv_key_bytes.
  rewrite (kv_key_size_eq o Ho), Hl. unfold kv_key_compare_to, kv_key.
  rewrite memcmp_take; [done|]. destruct (Z.ltb_spec (u64 (key_size k)) (key_size o)); lia.
Qed.

(** C19. The comparison of key-value objects is the lexicographic order of
    their keys: its sign is that of the order, whatever follows the keys in
    memory, it is zero for equal keys only, and swapping the operands negates
    the sign. *)
Theorem kv_key_compare_lexicographic a b :
  kv_ok a -> kv_ok b ->
  Z.sgn (kv_key_compare a b) = sign_of (key_compare (kv_key a) (kv_key b)) /\
  (kv_key_compare a b = 0 <-> kv_key a = kv_key b) /\
  Z.sgn (kv_key_compare b a) = - Z.sgn (kv_key_compare a b).
Proof.
  intros Ha Hb.
  assert (E : forall x y, kv_ok x -> kv_ok y ->
    Z.sgn (kv_key_compare x y) = sign_of (key_compare (kv_key x) (kv_key y))).
  { intros x y Hx Hy. rewrite kv_key_compare_eq by done. apply kv_key_compare_to_spec; [done|].
    rewrite length_kv_key by done. apply Hy. }
  split; [now apply E|]. split.
  - rewrite <- Z.sgn_null_iff, E, <- key_compare_eq by done.
    destruct (key_compare (kv_key a) (kv_key b)); cbn; split; done.
  - rewrite !E, key_compare_antisym by done. now destruct (key_compare (kv_key a) (kv_key b)).
Qed.

Lemma kv_key_compare_lexicographic_witness :
  Z.sgn (kv_key_compare (mk_kv 2 1 [1; 2; 9]) (mk_kv 3 0 [1; 2; 3])) = -1.
Proof.
  destruct (kv_key_compare_lexicographic (mk_kv 2 1 [1; 2; 9]) (mk_kv 3 0 [1; 2; 3])) as [H _].
  - repeat split; try discriminate; try reflexivity. apply bytes_ok_check. reflexivity.
  - repeat split; try discriminate; try reflexivity. apply bytes_ok_check. reflexivity.
  - exact H.
Defined.
