(* ===== verification/State.v ===== *)
(** * The trie in memory and the state of a thread

    Pointers into the bucket array are positions: a bucket number and a
    cell index. The bucket array holds [num_buckets + 1] buckets, the last
    one being [min_leaf_bucket], whose first cell is the head of the leaf
    list. The state an operation runs on is the trie, the lock manager of
    the finger it uses, and the caller's key-value objects. *)

From S2P Require Import Prelude Bits Entry KeyObject.
From stdpp Require Import base list gmap.
From Stdlib Require Import ZArith Lia Bool.

#[local] Open Scope Z_scope.

(** ** Shared memory *)

Record ct_bucket := mk_bucket {
  cells : list ct_entry;
  write_lock_and_seq : Z;
}.

Record cuckoo_trie := mk_trie {
  buckets : list ct_bucket;
  num_buckets : Z;
  num_pairs : Z;
  num_shuffle_blocks : Z;
  bucket_mix_table : list Z;
  is_empty : Z;
}.

Record pos := mk_pos { pos_bucket : Z; pos_cell : nat }.

#[global] Instance pos_eq_dec : EqDecision pos.
Proof. solve_decision. Defined.
#[global] Instance ct_bucket_eq_dec : EqDecision ct_bucket.
Proof. solve_decision. Defined.
#[global] Instance cuckoo_trie_eq_dec : EqDecision cuckoo_trie.
Proof. solve_decision. Defined.

Definition min_leaf_bucket (t : cuckoo_trie) : Z := num_buckets t.
Definition trie_min_leaf (t : cuckoo_trie) : pos := mk_pos (min_leaf_bucket t) 0.

Definition set_cells (c : list ct_entry) (b : ct_bucket) : ct_bucket :=
  mk_bucket c (write_lock_and_seq b).
Definition set_lock_word (w : Z) (b : ct_bucket) : ct_bucket := mk_bucket (cells b) w.
Definition set_buckets (bs : list ct_bucket) (t : cuckoo_trie) : cuckoo_trie :=
  mk_trie bs (num_buckets t) (num_pairs t) (num_shuffle_blocks t) (bucket_mix_table t) (is_empty t).
Definition set_is_empty (v : Z) (t : cuckoo_trie) : cuckoo_trie :=
  mk_trie (buckets t) (num_buckets t) (num_pairs t) (num_shuffle_blocks t) (bucket_mix_table t) v.

(** The write-lock byte is the low byte of the lock word. *)
Definition write_lock (b : ct_bucket) : Z := write_lock_and_seq b .& 255.
Definition set_write_lock (v : Z) (b : ct_bucket) : ct_bucket :=
  set_lock_word ((write_lock_and_seq b .& bnot 32 255) .| v) b.

(** ** Local copies of entries *)

Record ct_entry_local_copy := mk_local {
  lc_value : ct_entry;
  last_pos : pos;
  primary_bucket : Z;
  last_seq : Z;
}.

Definition set_lc_value (v : ct_entry) (l : ct_entry_local_copy) :=
  mk_local v (last_pos l) (primary_bucket l) (last_seq l).
Definition set_primary_bucket (b : Z) (l : ct_entry_local_copy) :=
  mk_local (lc_value l) (last_pos l) b (last_seq l).

(** ** Lock manager *)

Record ct_bucket_write_lock := mk_write_lock {
  wl_bucket : Z;
  entry_refcounts : list Z;
  total_refcount : Z;
}.

#[global] Instance ct_bucket_write_lock_eq_dec : EqDecision ct_bucket_write_lock.
Proof. solve_decision. Defined.

Record ct_bucket_read_lock := mk_read_lock {
  rl_bucket : Z;
  rl_seq : Z;
}.

Definition MAX_LOCKS : Z := MAX_KEY_SYMBOLS + 3.

(** [bucket_write_locks] up to [next_write_lock]. *)
Abbreviation ct_lock_mgr := (list ct_bucket_write_lock).

(** ** Thread state *)

Record state := mk_state {
  trie : cuckoo_trie;
  lock_mgr : ct_lock_mgr;
  kv_mem : gmap Z ct_kv;
}.

Abbreviation MS := (M state).

Definition set_trie (t : cuckoo_trie) (s : state) : state := mk_state t (lock_mgr s) (kv_mem s).
Definition set_lock_mgr (l : ct_lock_mgr) (s : state) : state := mk_state (trie s) l (kv_mem s).

(** Values the code reads but never initialised, the bound on retries, and
    the address space around a key that [read_qword_zfill] may touch. *)
Class Env := mk_env {
  retry_fuel : nat;
  garbage_entry : ct_entry;
  garbage_byte : Z;
  key_address : Z;
  ambient_byte : Z -> Z;
}.

Definition garbage_local `{Env} : ct_entry_local_copy :=
  mk_local garbage_entry (mk_pos 0 0) 0 0.

(** ** Memory accesses *)

Definition get_trie : MS cuckoo_trie := gets trie.

Definition trie_bucket (t : cuckoo_trie) (b : Z) : option ct_bucket := zlookup (buckets t) b.

Definition get_bucket (b : Z) : MS ct_bucket := t ← get_trie; lift (trie_bucket t b).

Definition put_bucket (b : Z) (v : ct_bucket) : MS unit :=
  _ ← get_bucket b;
  modify (fun s => set_trie (set_buckets (zset (buckets (trie s)) b v) (trie s)) s).

Definition bucket_cell (b : ct_bucket) (c : nat) : option ct_entry := cells b !! c.

Definition trie_entry (t : cuckoo_trie) (p : pos) : option ct_entry :=
  b ← trie_bucket t (pos_bucket p); bucket_cell b (pos_cell p).

Definition get_entry (p : pos) : MS ct_entry :=
  b ← get_bucket (pos_bucket p); lift (bucket_cell b (pos_cell p)).

(** A plain store to a cell, as in [((ct_entry* ) p)->field = ...]. *)
Definition put_entry (p : pos) (e : ct_entry) : MS unit :=
  b ← get_bucket (pos_bucket p);
  _ ← lift (bucket_cell b (pos_cell p));
  put_bucket (pos_bucket p) (set_cells (<[pos_cell p := e]> (cells b)) b).

Definition load_kv (p : Z) : MS ct_kv := m ← gets kv_mem; lift (m !! p).

(** ** Positions and addresses

    [entry_address base p]: where cell [p] lies when the (64-byte aligned)
    bucket array starts at [base]. *)

Definition SIZEOF_BUCKET : Z := 64.

Definition entry_address (base : Z) (p : pos) : Z :=
  base + SIZEOF_BUCKET * pos_bucket p + Z.of_nat ENTRY_BYTES * Z.of_nat (pos_cell p).

(** main.c: both functions work on raw addresses. *)
Definition ptr_to_bucket (base entry : Z) : Z := u64 (entry - base) / SIZEOF_BUCKET.
Definition entry_index_in_bucket (entry : Z) : Z := u64 (bnot 64 entry + 1) .& 15.
Definition bucket_containing (entry : Z) : Z := entry .& bnot 64 (SIZEOF_BUCKET - 1).

(** An environment for concrete runs: the initial contents of memory are
    arbitrary, keys lie close to the end of a page. *)
Definition sample_env : Env := mk_env 10 (replicate 15 170) 170 (4096 * 17 - 9) (fun _ => 85).
