(* ===== verification/Hashing.v ===== *)
(** * Hashing (main.c: bucket mixing, prefix hashes)

    A key prefix hashes to a pair number below [num_pairs]: its low bits are
    the tag, the rest the primary bucket. [mix_bucket] gives the secondary
    bucket of a primary bucket and a tag, [unmix_bucket] goes back. *)

From S2P Require Import Prelude Bits Entry State.
From stdpp Require Import base list.
From Stdlib Require Import ZArith Lia Bool.

#[local] Open Scope Z_scope.

Definition mix_value (t : cuckoo_trie) (tag : Z) : Z := nth (Z.to_nat tag) (bucket_mix_table t) 0.

Definition mix_bucket (t : cuckoo_trie) (bucket_num tag : Z) : Z :=
  let result := to_signed 64 (u64 (bucket_num - mix_value t tag)) in
  u64 (result + (num_buckets t .& (if result <? 0 then 2 ^ 64 - 1 else 0))).

(** Its assertion, that [mix_bucket] of the result is [bucket_num] again, is not
    tested here but proved ([bucket_pair_involution]). *)
Definition unmix_bucket (t : cuckoo_trie) (bucket_num tag : Z) : Z :=
  let result := u64 (bucket_num + mix_value t tag) in
  if num_buckets t <=? result then u64 (result - num_buckets t) else result.

(** Likewise its assertion, that the result is below [num_pairs]
    ([accumulate_hash_permutes]). *)
Definition accumulate_hash (t : cuckoo_trie) (x symbol : Z) : Z :=
  let x' := x .^ symbol in
  let block := x' .>> BITS_PER_SYMBOL in
  let depth := x' .& (FANOUT - 1) in
  u64 (depth * num_shuffle_blocks t + block).

Definition hash_to_bucket (x : Z) : Z := x .>> TAG_BITS.
Definition hash_to_tag (x : Z) : Z := x .& ((1 .<< TAG_BITS) - 1).

(** The other bucket of an entry found in [bucket_num]. *)
Definition alternate_bucket (t : cuckoo_trie) (entry : ct_entry) (bucket_num : Z) : Z :=
  if entry_is_secondary entry then unmix_bucket t bucket_num (entry_tag entry)
  else mix_bucket t bucket_num (entry_tag entry).

(** ** Well-formed parameters

    [num_buckets] is a positive multiple of [2 * FANOUT] that fits the 32-bit
    bucket field of a locator; the mix constants are not multiples of it. *)

Record params_ok (t : cuckoo_trie) : Prop := mk_params_ok {
  params_mult : num_buckets t mod 64 = 0;
  params_bound : 0 < num_buckets t < 2 ^ 32 - 1;
  params_pairs : num_pairs t = 16 * num_buckets t;
  params_blocks : num_shuffle_blocks t = num_pairs t / 32;
  params_mix_length : length (bucket_mix_table t) = 16%nat;
  params_mix : Forall (fun v => 0 < v < num_buckets t) (bucket_mix_table t);
}.

Section hashing.
Variable t : cuckoo_trie.
Hypothesis t_ok : params_ok t.

Lemma mix_value_bound tag : 0 <= tag < 16 -> 0 < mix_value t tag < num_buckets t.
Proof.
  intros Ht. pose proof (params_mix_length t t_ok) as Hl. unfold mix_value.
  apply Forall_nth; [apply (params_mix t t_ok)|lia].
Qed.

(** The bucket pair of [b] in modular arithmetic. *)
Lemma mix_bucket_eq b tag :
  0 <= b < num_buckets t -> 0 <= tag < 16 ->
  mix_bucket t b tag = (b - mix_value t tag) mod num_buckets t.
Proof.
  intros Hb Ht. pose proof (mix_value_bound tag Ht) as Hm. pose proof (params_bound t t_ok) as Hn.
  unfold mix_bucket, to_signed. set (v := mix_value t tag) in *. set (n := num_buckets t) in *.
  change (2 ^ (64 - 1)) with (2 ^ 63). destruct (Z.lt_ge_cases b v) as [H|H].
  - assert (E : u64 (b - v) = b - v + 2 ^ 64) by (symmetry; apply (Z.mod_unique _ _ (-1)); lia).
    rewrite E. destruct (Z.ltb_spec (b - v + 2 ^ 64) (2 ^ 63)); [lia|].
    destruct (Z.ltb_spec (b - v + 2 ^ 64 - 2 ^ 64) 0); [|lia].
    change (2 ^ 64 - 1) with (Z.ones 64). rewrite Z.land_ones, (Z.mod_small n) by lia.
    rewrite wrap_small by lia. apply (Z.mod_unique _ _ (-1)); lia.
  - rewrite (wrap_small 64 (b - v)) by lia. destruct (Z.ltb_spec (b - v) (2 ^ 63)); [|lia].
    destruct (Z.ltb_spec (b - v) 0); [lia|]. rewrite Z.land_0_r, Z.add_0_r, wrap_small by lia.
    symmetry. apply Z.mod_small. lia.
Qed.

Lemma unmix_bucket_eq b tag :
  0 <= b < num_buckets t -> 0 <= tag < 16 ->
  unmix_bucket t b tag = (b + mix_value t tag) mod num_buckets t.
Proof.
  intros Hb Ht. pose proof (mix_value_bound tag Ht) as Hm. pose proof (params_bound t t_ok) as Hn.
  unfold unmix_bucket. rewrite (wrap_small 64 (b + _)) by lia.
  destruct (Z.leb_spec (num_buckets t) (b + mix_value t tag)).
  - rewrite wrap_small by lia. apply (Z.mod_unique _ _ 1); lia.
  - symmetry. apply Z.mod_small. lia.
Qed.

Lemma mix_bucket_range b tag :
  0 <= b < num_buckets t -> 0 <= tag < 16 -> 0 <= mix_bucket t b tag < num_buckets t.
Proof.
  intros. rewrite mix_bucket_eq by done. apply Z.mod_pos_bound. pose proof (params_bound t t_ok). lia.
Qed.

Lemma unmix_bucket_range b tag :
  0 <= b < num_buckets t -> 0 <= tag < 16 -> 0 <= unmix_bucket t b tag < num_buckets t.
Proof.
  intros. rewrite unmix_bucket_eq by done. apply Z.mod_pos_bound. pose proof (params_bound t t_ok). lia.
Qed.

Lemma unmix_mix b tag :
  0 <= b < num_buckets t -> 0 <= tag < 16 -> unmix_bucket t (mix_bucket t b tag) tag = b.
Proof.
  intros Hb Ht. rewrite unmix_bucket_eq by auto using mix_bucket_range. rewrite mix_bucket_eq by done.
  rewrite Zplus_mod_idemp_l. rewrite Z.sub_add. now apply Z.mod_small.
Qed.

Lemma mix_unmix b tag :
  0 <= b < num_buckets t -> 0 <= tag < 16 -> mix_bucket t (unmix_bucket t b tag) tag = b.
Proof.
  intros Hb Ht. rewrite mix_bucket_eq by auto using unmix_bucket_range. rewrite unmix_bucket_eq by done.
  rewrite Zminus_mod_idemp_l. rewrite Z.add_simpl_r. now apply Z.mod_small.
Qed.

Lemma mix_bucket_ne b tag : 0 <= b < num_buckets t -> 0 <= tag < 16 -> mix_bucket t b tag <> b.
Proof.
  intros Hb Ht E. pose proof (mix_value_bound tag Ht) as Hm. rewrite mix_bucket_eq in E by done.
  destruct (Z.lt_ge_cases b (mix_value t tag)).
  - rewrite <- (Z.mod_unique (b - mix_value t tag) (num_buckets t) (-1) (b - mix_value t tag + num_buckets t)) in E; lia.
  - rewrite Z.mod_small in E; lia.
Qed.

Lemma unmix_bucket_ne b tag : 0 <= b < num_buckets t -> 0 <= tag < 16 -> unmix_bucket t b tag <> b.
Proof.
  intros Hb Ht E. apply (mix_bucket_ne b tag); [done..|]. rewrite <- E at 1. now apply mix_unmix.
Qed.

(** ** Prefix hashes *)

(** Prefix hashes are pair numbers. *)
Definition hash_ok (h : Z) : Prop := 0 <= h < num_pairs t.

Lemma hash_parts h :
  hash_ok h ->
  0 <= hash_to_bucket h < num_buckets t /\ 0 <= hash_to_tag h < 16 /\
  h = 16 * hash_to_bucket h + hash_to_tag h.
Proof.
  unfold hash_ok. rewrite (params_pairs t t_ok). intros Hh. unfold hash_to_bucket, hash_to_tag, TAG_BITS.
  change ((1 .<< 4) - 1) with (Z.ones 4). rewrite Z.land_ones, Z.shiftr_div_pow2 by lia.
  change (2 ^ 4) with 16. zdiv.
Qed.

Lemma hash_of_parts b tag :
  0 <= b < num_buckets t -> 0 <= tag < 16 ->
  hash_ok (16 * b + tag) /\ hash_to_bucket (16 * b + tag) = b /\ hash_to_tag (16 * b + tag) = tag.
Proof.
  intros Hb Ht. unfold hash_ok. rewrite (params_pairs t t_ok).
  unfold hash_to_bucket, hash_to_tag, TAG_BITS.
  change ((1 .<< 4) - 1) with (Z.ones 4). rewrite Z.land_ones, Z.shiftr_div_pow2 by lia.
  change (2 ^ 4) with 16. split; [lia|]. zdiv.
Qed.

(** The xor of a symbol stays within a block of 64 hashes. *)
Lemma xor_symbol_range h s : hash_ok h -> 0 <= s < 64 -> hash_ok (h .^ s).
Proof.
  unfold hash_ok. intros Hh Hs.
  assert (E : (h .^ s) / 64 = h / 64).
  { change 64 with (2 ^ 6). rewrite <- !Z.shiftr_div_pow2, Z.shiftr_lxor by lia.
    rewrite (Z.shiftr_div_pow2 s), (Z.div_small s) by lia. apply Z.lxor_0_r. }
  assert (0 <= h .^ s) by (apply Z.lxor_nonneg; lia).
  pose proof (params_mult t t_ok). rewrite (params_pairs t t_ok) in *. zdiv.
Qed.

Lemma blocks_eq : num_pairs t = 32 * num_shuffle_blocks t /\ 0 < num_shuffle_blocks t < 2 ^ 32.
Proof.
  pose proof (params_mult t t_ok). pose proof (params_bound t t_ok).
  rewrite (params_blocks t t_ok), (params_pairs t t_ok). zdiv.
Qed.

Lemma accumulate_hash_eq h s :
  hash_ok h -> 0 <= s < 64 ->
  let x := h .^ s in
  accumulate_hash t h s = (x mod 32) * num_shuffle_blocks t + x / 32 /\
  0 <= x mod 32 < 32 /\ 0 <= x / 32 < num_shuffle_blocks t.
Proof.
  intros Hh Hs x. destruct blocks_eq as [Hp Hb]. pose proof (xor_symbol_range h s Hh Hs) as Hx.
  fold x in Hx. unfold hash_ok in Hx. unfold accumulate_hash. fold x. unfold BITS_PER_SYMBOL.
  change (FANOUT - 1) with (Z.ones 5). rewrite Z.land_ones, Z.shiftr_div_pow2 by lia.
  change (2 ^ 5) with 32.
  assert (0 <= x mod 32 < 32) by zdiv. assert (0 <= x / 32 < num_shuffle_blocks t) by zdiv.
  split; [|done]. apply wrap_small. nia.
Qed.

Lemma accumulate_hash_ok h s : hash_ok h -> 0 <= s < 64 -> hash_ok (accumulate_hash t h s).
Proof.
  intros Hh Hs. destruct (accumulate_hash_eq h s Hh Hs) as (-> & H1 & H2).
  destruct blocks_eq as [Hp Hb]. unfold hash_ok. nia.
Qed.

(** The hash before a symbol was accumulated. *)
Definition parent_hash (h s : Z) : Z :=
  (32 * (h mod num_shuffle_blocks t) + h / num_shuffle_blocks t) .^ s.

Lemma parent_accumulate h s :
  hash_ok h -> 0 <= s < 64 -> parent_hash (accumulate_hash t h s) s = h.
Proof.
  intros Hh Hs. destruct (accumulate_hash_eq h s Hh Hs) as (E & H1 & H2).
  unfold parent_hash. rewrite E. set (x := h .^ s) in *. set (n := num_shuffle_blocks t) in *.
  pose proof (Z.div_mod x 32 ltac:(lia)) as Ex.
  revert Ex H1 H2. generalize (x / 32) (x mod 32). intros q r Ex H1 H2.
  assert (E1 : (r * n + q) / n = r) by (symmetry; apply (Z.div_unique _ _ _ q); [left; exact H2|lia]).
  assert (E2 : (r * n + q) mod n = q) by (symmetry; apply (Z.mod_unique _ _ r); [left; exact H2|lia]).
  rewrite E1, E2, <- Ex. unfold x.
  now rewrite Z.lxor_assoc, Z.lxor_nilpotent, Z.lxor_0_r.
Qed.

Lemma accumulate_hash_inj h h' s s' :
  hash_ok h -> hash_ok h' -> 0 <= s < 64 -> 0 <= s' < 64 ->
  accumulate_hash t h s = accumulate_hash t h' s' -> h .^ s = h' .^ s'.
Proof.
  intros Hh Hh' Hs Hs' E.
  apply (f_equal (fun x => parent_hash x 0)) in E. unfold parent_hash in E. rewrite !Z.lxor_0_r in E.
  pose proof (parent_accumulate h s Hh Hs) as E1. pose proof (parent_accumulate h' s' Hh' Hs') as E2.
  unfold parent_hash in E1, E2. rewrite <- E1, <- E2, E.
  now rewrite !Z.lxor_assoc, !Z.lxor_nilpotent.
Qed.

(** ** The two buckets of an entry *)

(** The primary bucket of the entry in bucket [b]. *)
Definition entry_primary (e : ct_entry) (b : Z) : Z :=
  if entry_is_secondary e then unmix_bucket t b (entry_tag e) else b.

Lemma entry_tag_bound e : entry_ok e -> 0 <= entry_tag e < 16.
Proof. intros H. apply (land_bound 4); [lia|]. change ((1 .<< TAG_BITS) - 1) with 15. lia. Qed.

Lemma entry_primary_range e b :
  entry_ok e -> 0 <= b < num_buckets t -> 0 <= entry_primary e b < num_buckets t.
Proof.
  intros. unfold entry_primary. destruct (entry_is_secondary e); auto using unmix_bucket_range, entry_tag_bound.
Qed.

Lemma alternate_bucket_range e b :
  entry_ok e -> 0 <= b < num_buckets t -> 0 <= alternate_bucket t e b < num_buckets t.
Proof.
  intros. unfold alternate_bucket.
  destruct (entry_is_secondary e); auto using unmix_bucket_range, mix_bucket_range, entry_tag_bound.
Qed.

Lemma alternate_bucket_ne e b :
  entry_ok e -> 0 <= b < num_buckets t -> alternate_bucket t e b <> b.
Proof.
  intros. unfold alternate_bucket.
  destruct (entry_is_secondary e); auto using unmix_bucket_ne, mix_bucket_ne, entry_tag_bound.
Qed.

End hashing.

(** Moving an entry flips its flag. *)
Definition flip_secondary (e : ct_entry) : ct_entry :=
  set_parent_color_and_flags (parent_color_and_flags e .^ FLAG_SECONDARY_BUCKET) e.

Lemma flip_secondary_ok e : entry_ok e -> entry_ok (flip_secondary e).
Proof. apply set_flags_ok. Qed.
#[export] Hint Resolve flip_secondary_ok : cuckoo.

(** Flags tests on the flags byte, by cases on the 256 bytes. *)
Lemma flip_flags b :
  is_byte b ->
  is_byte (b .^ FLAG_SECONDARY_BUCKET) /\
  (b .^ FLAG_SECONDARY_BUCKET) .& bnot 8 FLAG_SECONDARY_BUCKET = b .& bnot 8 FLAG_SECONDARY_BUCKET /\
  ((b .^ FLAG_SECONDARY_BUCKET) .& FLAG_SECONDARY_BUCKET =? FLAG_SECONDARY_BUCKET) =
    negb (b .& FLAG_SECONDARY_BUCKET =? FLAG_SECONDARY_BUCKET) /\
  (b .^ FLAG_SECONDARY_BUCKET) .& TYPE_MASK = b .& TYPE_MASK.
Proof.
  intros Hb.
  set (P := fun b => let b' := Z.lxor b FLAG_SECONDARY_BUCKET in
    (0 <=? b') && (b' <? 256) &&
    (Z.land b' (bnot 8 FLAG_SECONDARY_BUCKET) =? Z.land b (bnot 8 FLAG_SECONDARY_BUCKET)) &&
    Bool.eqb (Z.land b' FLAG_SECONDARY_BUCKET =? FLAG_SECONDARY_BUCKET)
             (negb (Z.land b FLAG_SECONDARY_BUCKET =? FLAG_SECONDARY_BUCKET)) &&
    (Z.land b' TYPE_MASK =? Z.land b TYPE_MASK)).
  assert (H : P b = true) by (apply byte_check; [vm_compute; reflexivity|done]).
  subst P. cbv beta zeta in H. rewrite !andb_true_iff, !Z.eqb_eq, Bool.eqb_true_iff, Z.leb_le, Z.ltb_lt in H.
  unfold is_byte. tauto.
Qed.

Lemma flip_secondary_flag e :
  entry_ok e -> entry_is_secondary (flip_secondary e) = negb (entry_is_secondary e).
Proof.
  intros H. destruct (flip_flags _ (flags_byte e H)) as (Hb & _ & E & _).
  unfold entry_is_secondary, flip_secondary. rewrite flags_set_flags by done.
  now rewrite wrap_small by exact Hb.
Qed.

Lemma flip_secondary_tag e : entry_ok e -> entry_tag (flip_secondary e) = entry_tag e.
Proof. intros H. unfold entry_tag, flip_secondary. now rewrite color_set_flags. Qed.

Lemma flip_alternate t e b :
  params_ok t -> entry_ok e -> 0 <= b < num_buckets t ->
  alternate_bucket t (flip_secondary e) (alternate_bucket t e b) = b.
Proof.
  intros Ht He Hb. pose proof (entry_tag_bound e He). unfold alternate_bucket.
  rewrite flip_secondary_flag, flip_secondary_tag by done.
  destruct (entry_is_secondary e); cbn [negb]; auto using mix_unmix, unmix_mix.
Qed.

Lemma flip_primary t e b :
  params_ok t -> entry_ok e -> 0 <= b < num_buckets t ->
  entry_primary t (flip_secondary e) (alternate_bucket t e b) = entry_primary t e b.
Proof.
  intros Ht He Hb. pose proof (entry_tag_bound e He). unfold entry_primary, alternate_bucket.
  rewrite flip_secondary_flag, flip_secondary_tag by done.
  destruct (entry_is_secondary e); cbn [negb]; auto using mix_unmix, unmix_mix.
Qed.

(** ** Properties *)

(** C17. Accumulating a symbol permutes the prefix hashes: for every symbol
    [0 .. FANOUT] the hash stays a valid pair number, the parent's hash can be
    computed back, every hash is reached, and two different symbols lead the
    same prefix to different hashes. *)
Theorem accumulate_hash_permutes t h s s' :
  params_ok t -> hash_ok t h -> 0 <= s <= FANOUT -> 0 <= s' <= FANOUT ->
  hash_ok t (accumulate_hash t h s) /\
  parent_hash t (accumulate_hash t h s) s = h /\
  hash_ok t (parent_hash t h s) /\ accumulate_hash t (parent_hash t h s) s = h /\
  (s <> s' -> accumulate_hash t h s <> accumulate_hash t h s').
Proof.
  change FANOUT with 32. intros Ht Hh Hs Hs'.
  destruct (blocks_eq t Ht) as [Hp Hb]. unfold hash_ok in Hh.
  assert (Hq : 0 <= h / num_shuffle_blocks t < 32)
    by (split; [apply Z.div_pos|apply Z.div_lt_upper_bound]; lia).
  pose proof (Z.mod_pos_bound h (num_shuffle_blocks t) ltac:(lia)) as Hm.
  assert (Hok : hash_ok t (parent_hash t h s)) by (apply xor_symbol_range; unfold hash_ok; (done || lia)).
  split; [apply accumulate_hash_ok; (done || lia)|]. split; [apply parent_accumulate; (done || lia)|].
  split; [done|]. split.
  - destruct (accumulate_hash_eq t Ht _ s Hok ltac:(lia)) as (-> & _).
    unfold parent_hash. rewrite Z.lxor_assoc, Z.lxor_nilpotent, Z.lxor_0_r.
    pose proof (Z.div_mod h (num_shuffle_blocks t) ltac:(lia)) as E.
    revert E Hq Hm. generalize (h / num_shuffle_blocks t) (h mod num_shuffle_blocks t). intros q r E Hq Hm.
    assert (E1 : (32 * r + q) mod 32 = q) by zdiv. assert (E2 : (32 * r + q) / 32 = r) by zdiv.
    rewrite E1, E2. lia.
  - intros Hne E. apply accumulate_hash_inj in E; [|done || lia..]. apply Hne.
    rewrite <- (Z.lxor_0_l s), <- (Z.lxor_0_l s'), <- (Z.lxor_nilpotent h), !Z.lxor_assoc. now rewrite E.
Qed.

(** C16. The two buckets of a pair are different, both exist, and each
    determines the other: mixing and unmixing are inverse, and moving an entry
    to its alternate bucket with its flag flipped keeps its primary bucket
    and brings it back when done twice. *)
Theorem bucket_pair_involution t e b tag :
  params_ok t -> entry_ok e -> 0 <= b < num_buckets t -> 0 <= tag < 16 ->
  (0 <= mix_bucket t b tag < num_buckets t /\ mix_bucket t b tag <> b) /\
  unmix_bucket t (mix_bucket t b tag) tag = b /\ mix_bucket t (unmix_bucket t b tag) tag = b /\
  (0 <= alternate_bucket t e b < num_buckets t /\ alternate_bucket t e b <> b) /\
  alternate_bucket t (flip_secondary e) (alternate_bucket t e b) = b /\
  entry_primary t (flip_secondary e) (alternate_bucket t e b) = entry_primary t e b.
Proof.
  intros Ht He Hb Htag. repeat split;
    first [now apply mix_bucket_range | now apply mix_bucket_ne | now apply unmix_mix
          | now apply mix_unmix | now apply alternate_bucket_range | now apply alternate_bucket_ne
          | now apply flip_alternate | now apply flip_primary].
Qed.

(** A trie of 64 buckets with the mix constants of [init_bucket_mix_table]. *)
Definition sample_trie : cuckoo_trie :=
  mk_trie [] 64 1024 32 [15; 41; 52; 24; 39; 63; 49; 25; 22; 44; 23; 36; 47; 40; 41; 27] 1.

Lemma sample_trie_ok : params_ok sample_trie.
Proof. split; cbn; (lia || (repeat constructor; lia)). Qed.

Lemma accumulate_hash_permutes_witness :
  accumulate_hash sample_trie 1023 32 <> accumulate_hash sample_trie 1023 5 /\
  parent_hash sample_trie (accumulate_hash sample_trie 1023 32) 32 = 1023.
Proof.
  destruct (accumulate_hash_permutes sample_trie 1023 32 5) as (_ & H1 & _ & _ & H2).
  - exact sample_trie_ok.
  - split; [lia|reflexivity].
  - split; discriminate.
  - split; discriminate.
  - split; [now apply H2|exact H1].
Defined.

Lemma bucket_pair_involution_witness :
  unmix_bucket sample_trie (mix_bucket sample_trie 7 3) 3 = 7 /\ mix_bucket sample_trie 7 3 = 47.
Proof.
  destruct (bucket_pair_involution sample_trie sample_entry 7 3) as (_ & H & _).
  - exact sample_trie_ok.
  - apply entry_ok_check. reflexivity.
  - cbn. lia.
  - lia.
  - split; [exact H|reflexivity].
Defined.
