(* ===== verification/Symbols.v ===== *)
(** * Keys as symbol strings (main.c: get_string_symbol, key_to_symbols) *)

From S2P Require Import Prelude Bits Entry KeyObject State Hashing.
From stdpp Require Import base list.
From Stdlib Require Import ZArith Lia Bool.

#[local] Open Scope Z_scope.

(** Symbol [symbol_idx] of a key, [SYMBOL_END] past its last byte. The
    assertion that nobody asks for a symbol after the first [SYMBOL_END] is
    not tested here; the result for such an index is [SYMBOL_END] again. *)
Definition get_string_symbol (size : Z) (bytes : list Z) (symbol_idx : Z) : Z :=
  let symbol_pos := symbol_idx * BITS_PER_SYMBOL in
  let first_byte_idx := symbol_pos / 8 in
  let offset := symbol_pos mod 8 in
  if size <=? first_byte_idx then SYMBOL_END
  else
    let first_byte := byte_at bytes (Z.to_nat first_byte_idx) in
    let second_byte :=
      if first_byte_idx + 1 <? size then byte_at bytes (Z.to_nat (first_byte_idx + 1)) else 0 in
    let word := first_byte * 256 + second_byte in
    ((word .>> (16 - BITS_PER_SYMBOL - offset)) .& SYMBOL_MASK) + 1.

Definition get_key_symbol (kv : ct_kv) (symbol_idx : Z) : Z :=
  get_string_symbol (kv_key_size kv) (kv_key_bytes kv) symbol_idx.

(** Memory as a function from addresses to bytes, for the code that reads
    past the ends of a key. *)
Definition mem_load (n : nat) (mem : Z -> Z) (a : Z) : Z :=
  le_combine (map (fun k => mem (a + Z.of_nat k)) (seq 0 n)).

Definition read_qword_zfill (mem : Z -> Z) (from size : Z) : Z :=
  if 8 <=? size then mem_load 8 mem from
  else if 8 <? (from .& 0xFFF) then mem_load 8 mem (from - 8 + size) .>> (64 - 8 * size)
  else bzhi (mem_load 8 mem from) (8 * size).

Definition ONES : Z := 0x0101010101010101.

(** One round of [key_to_symbols]: the 8 bytes it stores. *)
Definition symbols_of_qword (key_qword : Z) : list Z :=
  le_split 8 (bswap64 (u64 (pdep64 (key_qword .>> (64 - 8 * BITS_PER_SYMBOL)) (ONES * (FANOUT - 1)) + ONES))).

Fixpoint key_to_symbols_loop (fuel : nat) (mem : Z -> Z) (key_ptr bytes_left : Z) : list Z :=
  match fuel with
  | O => []
  | S f =>
      if 0 <? bytes_left then
        symbols_of_qword (bswap64 (read_qword_zfill mem key_ptr bytes_left)) ++
        key_to_symbols_loop f mem (key_ptr + BITS_PER_SYMBOL) (bytes_left - BITS_PER_SYMBOL)
      else []
  end.

(** The bytes [key_to_symbols] stores from [symbols] on: 8 per 5 key bytes. *)
Definition key_to_symbols (mem : Z -> Z) (key size : Z) : list Z :=
  key_to_symbols_loop (S (Z.to_nat size)) mem key size.

(** The address space with the key's bytes at [key_address]. *)
Definition key_mem `{Env} (bytes : list Z) (a : Z) : Z :=
  let i := a - key_address in
  if (0 <=? i) && (i <? Z.of_nat (length bytes)) then byte_at bytes (Z.to_nat i)
  else ambient_byte a.

(** ** The prefetcher *)

Record key_prefetcher := mk_prefetcher {
  key_symbols : list Z;
  prefix_hashes : list Z;
  prefetch_prefix_hash : Z;
  prefetch_pos : Z;
  num_key_symbols : Z;
}.

(** Hash symbol number [prefetch_pos] and prefetch its bucket pair (the
    prefetch itself has no effect on memory). *)
Definition prefetcher_hash_next (p : key_prefetcher) : MS key_prefetcher :=
  t ← get_trie;
  sym ← lift (zlookup (key_symbols p) (prefetch_pos p));
  let h := accumulate_hash t (prefetch_prefix_hash p) sym in
  _ ← lift (zlookup (prefix_hashes p) (prefetch_pos p));
  mret (mk_prefetcher (key_symbols p) (zset (prefix_hashes p) (prefetch_pos p) h) h
          (prefetch_pos p + 1) (num_key_symbols p)).

Definition count_key_symbols (key_size : Z) : Z :=
  (key_size * 8 + BITS_PER_SYMBOL - 1) / BITS_PER_SYMBOL + 1.

Definition prefetcher_start `{Env} (key_size : Z) (key_bytes : list Z) : MS key_prefetcher :=
  let num := count_key_symbols key_size in
  let written := key_to_symbols (key_mem key_bytes) key_address key_size in
  let buffer := replicate (Z.to_nat MAX_KEY_SYMBOLS) garbage_byte in
  (* writing past the end of key_symbols[] is a fault *)
  _ ← assert (Z.of_nat (length written) <=? MAX_KEY_SYMBOLS);
  _ ← assert (num - 1 <? MAX_KEY_SYMBOLS);
  let symbols := zset (written ++ drop (length written) buffer) (num - 1) SYMBOL_END in
  let p0 := mk_prefetcher symbols (replicate (Z.to_nat MAX_KEY_SYMBOLS) garbage_byte)
              HASH_START_VALUE 0 num in
  for_each [0; 1; 2; 3]
    (fun p i =>
       if i <? num then
         sym ← lift (zlookup symbols i);
         _ ← assert (sym =? get_string_symbol key_size key_bytes i);
         prefetcher_hash_next p
       else mret p) p0.

Definition prefetcher_step (p : key_prefetcher) : MS key_prefetcher :=
  if prefetch_pos p <? num_key_symbols p then prefetcher_hash_next p else mret p.

(** ** The bits of a symbol *)

(** Number of symbols before the END symbol. *)
Definition num_symbols (size : Z) : Z := (size * 8 + 4) / 5.

Definition symbol_at (bytes : list Z) (i : Z) : Z := get_string_symbol (Z.of_nat (length bytes)) bytes i.

Lemma bit_past_end bs i : 8 * Z.of_nat (length bs) <= i -> bit bs i = false.
Proof.
  intros H. unfold bit, byte_at. rewrite nth_overflow by zdiv. apply Z.bits_0.
Qed.

Lemma testbit_two_bytes a b k :
  is_byte a -> is_byte b -> 0 <= k ->
  Z.testbit (a * 256 + b) k = if k <? 8 then Z.testbit b k else Z.testbit a (k - 8).
Proof.
  intros Ha Hb Hk. rewrite Z.add_comm, Z.mul_comm. apply testbit_cons; [done|unfold is_byte in Ha; lia|done].
Qed.

Lemma symbol_end_iff bytes i :
  0 <= i -> (symbol_at bytes i = SYMBOL_END <-> num_symbols (Z.of_nat (length bytes)) <= i).
Proof.
  intros Hi. unfold symbol_at, get_string_symbol, num_symbols, SYMBOL_END, BITS_PER_SYMBOL.
  destruct (Z.leb_spec (Z.of_nat (length bytes)) (i * 5 / 8)).
  - split; [intros _; zdiv|done].
  - set (w := Z.land _ SYMBOL_MASK). assert (0 <= w) by (apply Z.land_nonneg; right; done).
    split; [lia|]. intros. exfalso. zdiv.
Qed.

(** Symbol [i] is made of bits [5 i .. 5 i + 4] of the key, padded with
    zeros, first bit most significant, plus one. *)
Lemma testbit_symbol bytes i b :
  bytes_ok bytes -> 0 <= i < num_symbols (Z.of_nat (length bytes)) -> 0 <= b ->
  Z.testbit (symbol_at bytes i - 1) b = (b <? 5) && bit bytes (5 * i + (4 - b)).
Proof.
  intros Hok Hi Hb. unfold num_symbols in Hi. unfold symbol_at, get_string_symbol, BITS_PER_SYMBOL.
  destruct (Z.leb_spec (Z.of_nat (length bytes)) (i * 5 / 8)); [exfalso; zdiv|].
  rewrite Z.add_simpl_r. change SYMBOL_MASK with (Z.ones 5). rewrite Z.land_spec, testbit_ones by lia.
  destruct (Z.ltb_spec b 5); [rewrite andb_true_r|apply andb_false_r]. cbn [andb].
  set (second := if _ <? _ then _ else _).
  assert (Hs : second = byte_at bytes (Z.to_nat (i * 5 / 8 + 1))).
  { unfold second. destruct (Z.ltb_spec (i * 5 / 8 + 1) (Z.of_nat (length bytes))); [done|].
    unfold byte_at. now rewrite nth_overflow by zdiv. }
  rewrite Hs, Z.shiftr_spec, testbit_two_bytes by (auto with cuckoo || zdiv). unfold bit.
  destruct (Z.ltb_spec (b + (16 - 5 - i * 5 mod 8)) 8).
  - assert ((5 * i + (4 - b)) / 8 = i * 5 / 8 + 1 /\
            7 - (5 * i + (4 - b)) mod 8 = b + (16 - 5 - i * 5 mod 8)) as [-> ->] by zdiv. done.
  - assert ((5 * i + (4 - b)) / 8 = i * 5 / 8 /\
            7 - (5 * i + (4 - b)) mod 8 = b + (16 - 5 - i * 5 mod 8) - 8) as [-> ->] by zdiv. done.
Qed.

Lemma symbol_range bytes i : 0 <= symbol_at bytes i <= 32.
Proof.
  unfold symbol_at, get_string_symbol, SYMBOL_END. destruct (_ <=? _); [lia|].
  match goal with |- context [Z.land ?x SYMBOL_MASK] =>
    pose proof (land_bound 5 x SYMBOL_MASK ltac:(lia) ltac:(change SYMBOL_MASK with 31; lia)) end. lia.
Qed.

Lemma symbol_pos bytes i :
  0 <= i < num_symbols (Z.of_nat (length bytes)) -> 1 <= symbol_at bytes i <= 32.
Proof.
  intros Hi. pose proof (symbol_range bytes i). pose proof (symbol_end_iff bytes i ltac:(lia)) as E.
  unfold SYMBOL_END in E. destruct (Z.eq_dec (symbol_at bytes i) 0) as [H0|]; [apply E in H0|]; lia.
Qed.

(** ** The vectorised conversion *)

(** The memory bytes of [n] at [a] are those of the key where it lies. *)
Section conversion.
Context `{Env}.
Variable bytes : list Z.
Hypothesis key_ok : bytes_ok bytes.
Hypothesis ambient_ok : forall a, is_byte (ambient_byte a).

Let size := Z.of_nat (length bytes).

Lemma key_mem_byte a : is_byte (key_mem bytes a).
Proof. unfold key_mem. destruct (_ && _); auto with cuckoo. Qed.

Lemma key_mem_in i : 0 <= i < size -> key_mem bytes (key_address + i) = byte_at bytes (Z.to_nat i).
Proof.
  intros Hi. unfold key_mem. replace (key_address + i - key_address) with i by lia.
  destruct (Z.leb_spec 0 i), (Z.ltb_spec i (Z.of_nat (length bytes))); unfold size in *; (lia || done).
Qed.

Lemma mem_load_bound n a : 0 <= mem_load n (key_mem bytes) a < 2 ^ (8 * Z.of_nat n).
Proof.
  pose proof (le_combine_bound (map (fun k => key_mem bytes (a + Z.of_nat k)) (seq 0 n))) as Hb.
  rewrite length_map, length_seq in Hb. apply Hb.
  apply Forall_map, Forall_true. intros. apply key_mem_byte.
Qed.

Lemma testbit_mem_load n a i :
  0 <= i < 8 * Z.of_nat n ->
  Z.testbit (mem_load n (key_mem bytes) a) i = Z.testbit (key_mem bytes (a + i / 8)) (i mod 8).
Proof.
  intros Hi. unfold mem_load. rewrite testbit_le_combine;
    [|apply Forall_map, Forall_true; intros; apply key_mem_byte|lia].
  f_equal. unfold byte_at.
  rewrite nth_indep with (d' := key_mem bytes (a + Z.of_nat 0)) by (rewrite length_map, length_seq; zdiv).
  rewrite (map_nth (fun k => key_mem bytes (a + Z.of_nat k))), seq_nth by zdiv.
  f_equal. zdiv.
Qed.

(** [read_qword_zfill] loads the next bytes of the key, zeros after its end:
    whichever way it reads them, the memory around the key does not matter. *)
Lemma read_qword_zfill_spec pos :
  0 <= pos < size ->
  read_qword_zfill (key_mem bytes) (key_address + pos) (size - pos) = load_bytes 8 bytes (Z.to_nat pos).
Proof.
  intros Hpos.
  assert (Hin : forall i, 0 <= pos + i < size ->
    key_mem bytes (key_address + pos + i) = byte_at bytes (Z.to_nat (pos + i)))
    by (intros i Hi; rewrite <- Z.add_assoc; now apply key_mem_in).
  assert (Hout : forall i, size <= i -> byte_at bytes (Z.to_nat i) = 0)
    by (intros i Hi; unfold byte_at; apply nth_overflow; unfold size in *; lia).
  assert (Hbits : forall i, 0 <= i < 64 ->
    Z.testbit (load_bytes 8 bytes (Z.to_nat pos)) i =
    (i <? 8 * (size - pos)) && Z.testbit (key_mem bytes (key_address + pos + i / 8)) (i mod 8)).
  { intros i Hi. rewrite testbit_load_bytes by (done || lia).
    replace (Z.to_nat pos + Z.to_nat (i / 8))%nat with (Z.to_nat (pos + i / 8)) by zdiv.
    destruct (Z.ltb_spec i (8 * (size - pos))).
    - rewrite Hin by zdiv. done.
    - rewrite Hout by zdiv. apply Z.bits_0. }
  unfold read_qword_zfill. destruct (Z.leb_spec 8 (size - pos)); [|destruct (8 <? _)].
  - apply (bits_eq 64); [lia|apply (mem_load_bound 8)|apply (load_bytes_bound 8), key_ok|].
    intros i Hi. rewrite testbit_mem_load, Hbits by lia. zcases. done.
  - set (left := size - pos) in *.
    apply (bits_eq 64); [lia| |apply (load_bytes_bound 8), key_ok|].
    + rewrite Z.shiftr_div_pow2 by lia. pose proof (mem_load_bound 8 (key_address + pos - 8 + left)) as Hb.
      split; [apply Z.div_pos; lia|]. apply Z.div_lt_upper_bound; [lia|].
      assert (1 <= 2 ^ (64 - 8 * left)) by lia. change (8 * Z.of_nat 8) with 64 in Hb. nia.
    + intros i Hi. rewrite Z.shiftr_spec, Hbits by lia. destruct (Z.ltb_spec i (8 * left)).
      * rewrite testbit_mem_load by lia.
        assert ((i + (64 - 8 * left)) / 8 = i / 8 + (8 - left) /\ (i + (64 - 8 * left)) mod 8 = i mod 8)
          as [-> ->] by zdiv.
        cbn [andb]. do 2 f_equal. lia.
      * apply (testbit_high 64); [apply (mem_load_bound 8)|lia].
  - set (left := size - pos) in *.
    apply (bits_eq 64); [lia| |apply (load_bytes_bound 8), key_ok|].
    + unfold bzhi. rewrite Z.land_comm. apply (land_bound 64); [lia|apply (mem_load_bound 8)].
    + intros i Hi. unfold bzhi. rewrite Z.land_spec, testbit_ones, testbit_mem_load, Hbits by lia. apply andb_comm.
Qed.

End conversion.

(** [pdep] spreads 40 bits over 8 bytes, 5 to each. *)
Lemma popcount_ones j :
  0 <= j < 64 ->
  Z.testbit (ONES * (FANOUT - 1)) j = (j mod 8 <? 5) /\
  (j mod 8 < 5 -> popcount_below (Z.to_nat j) (ONES * (FANOUT - 1)) = 5 * (j / 8) + j mod 8).
Proof.
  intros Hj.
  set (P := fun j => Bool.eqb (Z.testbit (ONES * (FANOUT - 1)) j) (j mod 8 <? 5) &&
    ((5 <=? j mod 8) || (popcount_below (Z.to_nat j) (ONES * (FANOUT - 1)) =? 5 * (j / 8) + j mod 8))).
  assert (E : P j = true) by (apply (forallb_below 64); [vm_compute; reflexivity|lia]).
  subst P. cbv beta in E. rewrite andb_true_iff, orb_true_iff, Bool.eqb_true_iff, Z.leb_le, Z.eqb_eq in E.
  destruct E as [E1 E2]. split; [done|]. intros. destruct E2; [lia|done].
Qed.

Definition five_bits (x m : Z) : Z := Z.land (Z.shiftr x (5 * m)) 31.

Lemma five_bits_bound x m : 0 <= five_bits x m < 32.
Proof. apply (land_bound 5); lia. Qed.

Lemma pdep_bytes x :
  pdep64 x (ONES * (FANOUT - 1)) = le_combine (map (fun k => five_bits x (Z.of_nat k)) (seq 0 8)).
Proof.
  assert (Hok : bytes_ok (map (fun k => five_bits x (Z.of_nat k)) (seq 0 8))).
  { apply Forall_map, Forall_true. intros k. pose proof (five_bits_bound x (Z.of_nat k)). unfold is_byte. lia. }
  apply (bits_eq 64); [lia|apply (from_bits_bound 64)|apply (le_combine_bound _ Hok)|].
  intros i Hi. destruct (popcount_ones i Hi) as [E1 E2].
  rewrite testbit_pdep64, E1, testbit_le_combine by (done || lia).
  assert (Hb : byte_at (map (fun k => five_bits x (Z.of_nat k)) (seq 0 8)) (Z.to_nat (i / 8)) = five_bits x (i / 8)).
  { assert (0 <= i / 8 < 8) as Hq by zdiv. generalize dependent (i / 8). clear. intros q _ Hq.
    unfold byte_at. rewrite nth_indep with (d' := five_bits x (Z.of_nat 0)) by (rewrite length_map, length_seq; lia).
    rewrite (map_nth (fun k => five_bits x (Z.of_nat k))), seq_nth by lia. f_equal. lia. }
  rewrite Hb. unfold five_bits. change 31 with (Z.ones 5). rewrite Z.land_spec, testbit_ones, Z.shiftr_spec by zdiv.
  destruct (Z.ltb_spec (i mod 8) 5) as [Hlt|]; [|now rewrite andb_false_r].
  rewrite E2 by done. rewrite andb_true_r. cbn [andb]. f_equal. lia.
Qed.

Lemma symbols_of_qword_eq x :
  symbols_of_qword x = rev (map (fun k => five_bits (x .>> 24) (Z.of_nat k) + 1) (seq 0 8)).
Proof.
  unfold symbols_of_qword. change (64 - 8 * BITS_PER_SYMBOL) with 24. set (y := x .>> 24).
  set (l := map (fun k => five_bits y (Z.of_nat k) + 1) (seq 0 8)).
  assert (Hok : bytes_ok l).
  { apply Forall_map, Forall_true. intros k. pose proof (five_bits_bound y (Z.of_nat k)). unfold is_byte. lia. }
  assert (E : pdep64 y (ONES * (FANOUT - 1)) + ONES = le_combine l)
    by (rewrite pdep_bytes; unfold l, ONES; cbn [seq map le_combine]; lia).
  rewrite E, wrap_small by apply (le_combine_bound _ Hok). unfold bswap64.
  rewrite (le_split_combine l) by done. apply le_split_combine; [now apply rev_bytes_ok|].
  unfold l. now rewrite length_rev, length_map, length_seq.
Qed.

(** One round converts eight symbols. *)
Lemma symbols_of_round bytes r k :
  bytes_ok bytes -> (k < 8)%nat -> 8 * Z.of_nat r + Z.of_nat k < num_symbols (Z.of_nat (length bytes)) ->
  symbols_of_qword (bswap64 (load_bytes 8 bytes (5 * r))) !! k =
  Some (symbol_at bytes (8 * Z.of_nat r + Z.of_nat k)).
Proof.
  intros Hok Hk Hi. rewrite symbols_of_qword_eq.
  set (w := bswap64 _). set (g := fun k => five_bits (w .>> 24) (Z.of_nat k) + 1).
  assert (E : rev (map g (seq 0 8)) !! k = Some (g (7 - k)%nat))
    by (do 8 (destruct k as [|k]; [reflexivity|]); lia).
  rewrite E. f_equal. unfold g.
  pose proof (symbol_pos bytes (8 * Z.of_nat r + Z.of_nat k) ltac:(lia)).
  pose proof (five_bits_bound (w .>> 24) (Z.of_nat (7 - k))).
  enough (five_bits (w .>> 24) (Z.of_nat (7 - k)) = symbol_at bytes (8 * Z.of_nat r + Z.of_nat k) - 1) by lia.
  apply (bits_eq 5); [lia..|]. intros b Hb.
  rewrite testbit_symbol by (done || lia). unfold five_bits. change 31 with (Z.ones 5).
  rewrite Z.land_spec, testbit_ones, !Z.shiftr_spec by lia.
  destruct (Z.ltb_spec b 5); [rewrite andb_true_r|lia]. cbn [andb].
  unfold w, bswap64. rewrite testbit_bswap_load by (done || lia). f_equal. lia.
Qed.

Lemma length_symbols_of_qword x : length (symbols_of_qword x) = 8%nat.
Proof. rewrite symbols_of_qword_eq. now rewrite length_rev, length_map, length_seq. Qed.

Lemma key_to_symbols_loop_spec `{Env} bytes fuel r :
  bytes_ok bytes -> (forall a, is_byte (ambient_byte a)) ->
  Z.of_nat (length bytes) - 5 * Z.of_nat r < 5 * Z.of_nat fuel ->
  let out := key_to_symbols_loop fuel (key_mem bytes) (key_address + 5 * Z.of_nat r)
               (Z.of_nat (length bytes) - 5 * Z.of_nat r) in
  Z.of_nat (length out) = 8 * Z.max 0 ((Z.of_nat (length bytes) - 5 * Z.of_nat r + 4) / 5) /\
  forall i, 0 <= i -> 8 * Z.of_nat r + i < num_symbols (Z.of_nat (length bytes)) ->
    zlookup out i = Some (symbol_at bytes (8 * Z.of_nat r + i)).
Proof.
  intros Hok Hamb. revert r. induction fuel as [|fuel IH]; intros r Hf out; subst out;
    cbn [key_to_symbols_loop].
  - split; [cbn; zdiv|]. unfold num_symbols. intros i Hi Hlt. exfalso. zdiv.
  - destruct (Z.ltb_spec 0 (Z.of_nat (length bytes) - 5 * Z.of_nat r)) as [Hpos|Hneg].
    2: { split; [cbn; zdiv|]. unfold num_symbols. intros i Hi Hlt. exfalso. zdiv. }
    rewrite read_qword_zfill_spec by (done || lia).
    replace (Z.to_nat (5 * Z.of_nat r)) with (5 * r)%nat by lia. unfold BITS_PER_SYMBOL.
    replace (key_address + 5 * Z.of_nat r + 5) with (key_address + 5 * Z.of_nat (S r)) by lia.
    replace (Z.of_nat (length bytes) - 5 * Z.of_nat r - 5) with (Z.of_nat (length bytes) - 5 * Z.of_nat (S r)) by lia.
    destruct (IH (S r) ltac:(lia)) as [IH1 IH2]. split.
    + rewrite length_app, length_symbols_of_qword, Nat2Z.inj_add, IH1. zdiv.
    + intros i Hi Hlt. unfold zlookup. destruct (Z.leb_spec 0 i); [|lia].
      destruct (Z.lt_ge_cases i 8).
      * rewrite lookup_app_l by (rewrite length_symbols_of_qword; lia).
        rewrite symbols_of_round by (done || lia). do 2 f_equal. lia.
      * rewrite lookup_app_r by (rewrite length_symbols_of_qword; lia). rewrite length_symbols_of_qword.
        specialize (IH2 (i - 8) ltac:(lia) ltac:(lia)). unfold zlookup in IH2.
        destruct (Z.leb_spec 0 (i - 8)); [|lia].
        replace (Z.to_nat i - 8)%nat with (Z.to_nat (i - 8)) by lia. rewrite IH2. do 2 f_equal. lia.
Qed.

(** ** The order of keys and of their symbols *)

(** Keys agree on the bits of their common symbols. *)
Lemma symbols_eq_bits a b n :
  bytes_ok a -> bytes_ok b -> 0 <= n ->
  n <= num_symbols (Z.of_nat (length a)) -> n <= num_symbols (Z.of_nat (length b)) ->
  (forall j, 0 <= j < n -> symbol_at a j = symbol_at b j) ->
  forall k, 0 <= k < 5 * n -> bit a k = bit b k.
Proof.
  intros Ha Hb Hn Hna Hnb H k Hk.
  pose proof (f_equal (fun x => Z.testbit (x - 1) (4 - k mod 5)) (H (k / 5) ltac:(zdiv))) as E. cbv beta in E.
  rewrite !testbit_symbol in E by (done || zdiv).
  destruct (Z.ltb_spec (4 - k mod 5) 5); [|zdiv]. cbn [andb] in E.
  replace (5 * (k / 5) + (4 - (4 - k mod 5))) with k in E by zdiv. exact E.
Qed.

Lemma bits_eq_bytes a b n :
  bytes_ok a -> bytes_ok b -> (n <= length a)%nat -> (n <= length b)%nat ->
  (forall k, 0 <= k < 8 * Z.of_nat n -> bit a k = bit b k) -> take n a = take n b.
Proof.
  intros Ha Hb Hna Hnb H. apply bytes_ext; [rewrite !length_take; lia|].
  intros i Hi. rewrite length_take in Hi. unfold byte_at. rewrite !nth_lookup, !lookup_take_lt by lia.
  rewrite <- !nth_lookup. apply byte_eq; [now apply (byte_at_ok a)|now apply (byte_at_ok b)|].
  intros j Hj. specialize (H (8 * Z.of_nat i + (7 - j)) ltac:(lia)). unfold bit in H.
  assert ((8 * Z.of_nat i + (7 - j)) / 8 = Z.of_nat i /\ 7 - (8 * Z.of_nat i + (7 - j)) mod 8 = j)
    as [E1 E2] by zdiv.
  rewrite E1, E2, Nat2Z.id in H. exact H.
Qed.

(** The highest bit in which two words differ decides their order. *)
Lemma first_bit_lt n x y :
  0 <= n -> 0 <= x < 2 ^ n -> 0 <= y < 2 ^ n -> x < y ->
  exists p, 0 <= p < n /\ Z.testbit x p = false /\ Z.testbit y p = true /\
    forall q, p < q < n -> Z.testbit x q = Z.testbit y q.
Proof.
  intros Hn. revert x y. pattern n. apply natlike_ind; [|clear n Hn; intros n Hn IH|done].
  - intros x y Hx Hy Hlt. lia.
  - intros x y Hx Hy Hlt. rewrite Z.pow_succ_r in Hx, Hy by done.
    destruct (Z.testbit x n) eqn:Ex, (Z.testbit y n) eqn:Ey.
    3: { exists n. repeat split; (lia || done). }
    + assert (Sx : exists x', x = x' + 2 ^ n /\ 0 <= x' < 2 ^ n).
      { exists (x - 2 ^ n). destruct (Z.lt_ge_cases x (2 ^ n)); [|lia].
        rewrite (testbit_high n) in Ex by lia. discriminate. }
      assert (Sy : exists y', y = y' + 2 ^ n /\ 0 <= y' < 2 ^ n).
      { exists (y - 2 ^ n). destruct (Z.lt_ge_cases y (2 ^ n)); [|lia].
        rewrite (testbit_high n) in Ey by lia. discriminate. }
      destruct Sx as (x' & -> & Hx'), Sy as (y' & -> & Hy').
      destruct (IH x' y' Hx' Hy' ltac:(lia)) as (p & Hp & E1 & E2 & E3).
      exists p. rewrite !testbit_add_pow2 by lia. destruct (Z.eqb_spec p n); [lia|].
      repeat split; [lia|lia|done|done|]. intros q Hq. rewrite !testbit_add_pow2 by lia.
      destruct (Z.eqb_spec q n); [done|]. cbn [orb]. apply E3. lia.
    + exfalso. assert (2 ^ n <= x).
      { destruct (Z.lt_ge_cases x (2 ^ n)); [|done]. rewrite (testbit_high n) in Ex by lia. discriminate. }
      assert (y < 2 ^ n); [|lia]. destruct (Z.lt_ge_cases y (2 ^ n)); [done|].
      exfalso. replace y with ((y - 2 ^ n) + 2 ^ n) in Ey by lia.
      rewrite testbit_add_pow2, Z.eqb_refl in Ey by lia. discriminate.
    + assert (Hlow : forall z, Z.testbit z n = false -> 0 <= z < 2 * 2 ^ n -> z < 2 ^ n).
      { intros z Ez Hz. destruct (Z.lt_ge_cases z (2 ^ n)); [done|].
        exfalso. replace z with ((z - 2 ^ n) + 2 ^ n) in Ez by lia.
        rewrite testbit_add_pow2, Z.eqb_refl in Ez by lia. discriminate. }
      pose proof (Hlow x Ex Hx). pose proof (Hlow y Ey Hy).
      destruct (IH x y ltac:(lia) ltac:(lia) Hlt) as (p & Hp & E1 & E2 & E3).
      exists p. repeat split; [lia|lia|done|done|]. intros q Hq.
      destruct (Z.eq_dec q n); [congruence|]. apply E3. lia.
Qed.

Lemma key_compare_prefix_lt a b :
  (length a < length b)%nat -> take (length a) b = a -> key_compare a b = Lt.
Proof.
  intros Hl E. rewrite <- (take_drop (length a) b), E. rewrite <- (app_nil_r a) at 1.
  rewrite key_compare_app. destruct (drop (length a) b) as [|x l] eqn:Ed; [|done].
  apply (f_equal length) in Ed. rewrite length_drop in Ed. cbn in Ed. lia.
Qed.

Lemma key_compare_byte_lt a b n :
  (n < length a)%nat -> (n < length b)%nat -> take n a = take n b -> byte_at a n < byte_at b n ->
  key_compare a b = Lt.
Proof.
  intros Ha Hb E Hlt. rewrite <- (take_drop n a), <- (take_drop n b), E, key_compare_app.
  unfold byte_at in Hlt. rewrite !nth_lookup in Hlt.
  destruct (lookup_lt_is_Some_2 a n Ha) as [x Ex], (lookup_lt_is_Some_2 b n Hb) as [y Ey].
  rewrite Ex, Ey in Hlt. cbn in Hlt. rewrite (drop_S a x n Ex), (drop_S b y n Ey). cbn.
  destruct (Z.compare_spec x y); (lia || done).
Qed.

(** A byte is smaller when the highest bit in which it differs is 0. *)
Lemma bit_lt_byte x y p :
  is_byte x -> is_byte y -> 0 <= p < 8 -> Z.testbit x p = false -> Z.testbit y p = true ->
  (forall q, p < q < 8 -> Z.testbit x q = Z.testbit y q) -> x < y.
Proof.
  unfold is_byte. intros Hx Hy Hp E1 E2 E3. destruct (Z.lt_trichotomy x y) as [|[->|Hgt]]; [done|congruence|].
  destruct (first_bit_lt 8 y x) as (p' & Hp' & F1 & F2 & F3); [lia..|].
  destruct (Z.lt_trichotomy p' p) as [Hc|[->|Hc]].
  - rewrite F3 in E2 by lia. congruence.
  - congruence.
  - rewrite E3 in F2 by lia. congruence.
Qed.

Lemma testbit_byte_bit l n q :
  0 <= n -> 0 <= q < 8 -> Z.testbit (byte_at l (Z.to_nat n)) q = bit l (8 * n + (7 - q)).
Proof.
  intros Hn Hq. unfold bit.
  assert ((8 * n + (7 - q)) / 8 = n /\ 7 - (8 * n + (7 - q)) mod 8 = q) as [-> ->] by zdiv. done.
Qed.

(** The first bit in which two keys differ decides their order; the key
    that ends before it counts as 0 there. *)
Lemma first_bit_key_lt a b k :
  bytes_ok a -> bytes_ok b -> 0 <= k -> k / 8 <= Z.of_nat (length a) ->
  (forall q, 0 <= q < k -> bit a q = bit b q) -> bit a k = false -> bit b k = true ->
  key_compare a b = Lt.
Proof.
  intros Ha Hb Hk Hla Heq E1 E2. assert (0 <= k / 8) by zdiv.
  assert (Hlb : k / 8 < Z.of_nat (length b)).
  { destruct (Z.lt_ge_cases (k / 8) (Z.of_nat (length b))); [done|].
    rewrite bit_past_end in E2 by zdiv. discriminate. }
  assert (Htake : take (Z.to_nat (k / 8)) a = take (Z.to_nat (k / 8)) b)
    by (apply bits_eq_bytes; [done|done|lia|lia|]; intros q Hq; apply Heq; zdiv).
  destruct (Z.eq_dec (k / 8) (Z.of_nat (length a))) as [Hl|Hl].
  - apply key_compare_prefix_lt; [lia|]. replace (length a) with (Z.to_nat (k / 8)) by lia.
    rewrite <- Htake. apply take_ge. lia.
  - apply (key_compare_byte_lt a b (Z.to_nat (k / 8))); [lia|lia|done|].
    apply (bit_lt_byte _ _ (7 - k mod 8)); [auto with cuckoo..|zdiv| | |].
    + exact E1.
    + exact E2.
    + intros q Hq. rewrite !testbit_byte_bit by zdiv. apply Heq. zdiv.
Qed.

Lemma symbol_lt_key_lt a b i :
  bytes_ok a -> bytes_ok b -> 0 <= i ->
  (forall j, 0 <= j < i -> symbol_at a j = symbol_at b j) ->
  symbol_at a i < symbol_at b i -> key_compare a b = Lt.
Proof.
  intros Ha Hb Hi Heq Hlt.
  set (na := num_symbols (Z.of_nat (length a))). set (nb := num_symbols (Z.of_nat (length b))).
  assert (Hib : i < nb).
  { destruct (Z.lt_ge_cases i nb) as [|Hge]; [done|]. apply symbol_end_iff in Hge; [|done].
    unfold SYMBOL_END in Hge. pose proof (symbol_range a i). lia. }
  assert (Hia : i <= na).
  { destruct (Z.le_gt_cases i na) as [|Hgt]; [done|]. exfalso.
    specialize (Heq (i - 1) ltac:(unfold na, num_symbols in *; zdiv)).
    pose proof (proj2 (symbol_end_iff a (i - 1) ltac:(unfold na, num_symbols in *; zdiv)) ltac:(lia)) as E.
    rewrite E in Heq. symmetry in Heq. apply symbol_end_iff in Heq; [lia|unfold na, num_symbols in *; zdiv]. }
  assert (Hbits := symbols_eq_bits a b i Ha Hb Hi Hia ltac:(lia) Heq).
  destruct (Z.eq_dec i na) as [Hend|Hne].
  - (* a ends here *)
    unfold na, nb, num_symbols in *. apply key_compare_prefix_lt; [zdiv|].
    transitivity (take (length a) a); [symmetry|apply take_ge; lia].
    apply bits_eq_bytes; [done..|zdiv|]. intros k Hk. apply Hbits. zdiv.
  - assert (Hpa := symbol_pos a i ltac:(lia)). assert (Hpb := symbol_pos b i ltac:(lia)).
    destruct (first_bit_lt 5 (symbol_at a i - 1) (symbol_at b i - 1)) as (p & Hp & E1 & E2 & E3); [lia..|].
    rewrite testbit_symbol in E1, E2 by (done || lia). destruct (Z.ltb_spec p 5); [|lia].
    cbn [andb] in E1, E2. set (k := 5 * i + (4 - p)) in *.
    assert (Hk : forall q, 0 <= q < k -> bit a q = bit b q).
    { intros q Hq. destruct (Z.lt_ge_cases q (5 * i)); [apply Hbits; lia|].
      specialize (E3 (4 - (q - 5 * i)) ltac:(lia)). rewrite !testbit_symbol in E3 by (done || lia).
      destruct (Z.ltb_spec (4 - (q - 5 * i)) 5); [|lia]. cbn [andb] in E3.
      replace (5 * i + (4 - (4 - (q - 5 * i)))) with q in E3 by lia. exact E3. }
    apply (first_bit_key_lt a b k); (done || (unfold na, num_symbols in *; zdiv)).
Qed.

(** ** The prefetcher computes the prefix hashes *)

(** The hash of the first [n] symbols of a key. *)
Fixpoint prefix_hash_of (t : cuckoo_trie) (bytes : list Z) (n : nat) : Z :=
  match n with
  | O => HASH_START_VALUE
  | S k => accumulate_hash t (prefix_hash_of t bytes k) (symbol_at bytes (Z.of_nat k))
  end.

Lemma prefix_hash_ok t bytes n : params_ok t -> hash_ok t (prefix_hash_of t bytes n).
Proof.
  intros Ht. induction n as [|n IH]; cbn.
  - pose proof (params_bound t Ht). unfold hash_ok. rewrite (params_pairs t Ht). unfold HASH_START_VALUE. lia.
  - pose proof (symbol_range bytes (Z.of_nat n)). apply accumulate_hash_ok; (done || lia).
Qed.

(** What holds of a prefetcher that has hashed [prefetch_pos p] symbols. *)
Record prefetch_ok (t : cuckoo_trie) (bytes : list Z) (p : key_prefetcher) : Prop := mk_prefetch_ok {
  po_num : num_key_symbols p = num_symbols (Z.of_nat (length bytes)) + 1;
  po_room : num_key_symbols p <= MAX_KEY_SYMBOLS;
  po_pos : 0 <= prefetch_pos p <= num_key_symbols p;
  po_symbols : forall i, 0 <= i < num_key_symbols p -> zlookup (key_symbols p) i = Some (symbol_at bytes i);
  po_length : Z.of_nat (length (prefix_hashes p)) = MAX_KEY_SYMBOLS;
  po_hashes : forall i, 0 <= i < prefetch_pos p ->
    zlookup (prefix_hashes p) i = Some (prefix_hash_of t bytes (S (Z.to_nat i)));
  po_hash : prefetch_prefix_hash p = prefix_hash_of t bytes (Z.to_nat (prefetch_pos p));
}.

Lemma prefetcher_hash_next_spec bytes p s :
  prefetch_ok (trie s) bytes p -> prefetch_pos p < num_key_symbols p ->
  exists p', prefetcher_hash_next p s = Ret p' s /\ prefetch_ok (trie s) bytes p' /\
    prefetch_pos p' = prefetch_pos p + 1.
Proof.
  intros [Hn Hr Hp Hs Hl Hh He] Hlt. unfold prefetcher_hash_next, get_trie.
  erewrite bind_Ret by reflexivity. rewrite (Hs (prefetch_pos p)) by lia.
  erewrite bind_Ret by reflexivity.
  destruct (zlookup_lt (prefix_hashes p) (prefetch_pos p) ltac:(lia)) as [x Ex]. rewrite Ex.
  erewrite bind_Ret by reflexivity. eexists. split; [reflexivity|]. split; [|reflexivity].
  assert (E : accumulate_hash (trie s) (prefetch_prefix_hash p) (symbol_at bytes (prefetch_pos p)) =
              prefix_hash_of (trie s) bytes (Z.to_nat (prefetch_pos p + 1))).
  { rewrite He. replace (Z.to_nat (prefetch_pos p + 1)) with (S (Z.to_nat (prefetch_pos p))) by lia.
    cbn [prefix_hash_of]. now rewrite Z2Nat.id by lia. }
  split; cbn; try done; try lia.
  - now rewrite length_zset.
  - intros i Hi. destruct (Z.eq_dec i (prefetch_pos p)) as [->|].
    + rewrite zlookup_zset_eq by lia. rewrite E.
      now replace (Z.to_nat (prefetch_pos p + 1)) with (S (Z.to_nat (prefetch_pos p))) by lia.
    + rewrite zlookup_zset_ne by lia. apply Hh. lia.
Qed.

Lemma prefetcher_step_spec bytes p s :
  prefetch_ok (trie s) bytes p ->
  exists p', prefetcher_step p s = Ret p' s /\ prefetch_ok (trie s) bytes p' /\
    prefetch_pos p' = Z.min (prefetch_pos p + 1) (num_key_symbols p).
Proof.
  intros Hp. pose proof (po_pos _ _ _ Hp). unfold prefetcher_step.
  destruct (Z.ltb_spec (prefetch_pos p) (num_key_symbols p)).
  - destruct (prefetcher_hash_next_spec bytes p s Hp) as (p' & E & H' & E'); [done|].
    exists p'. split; [done|]. split; [done|]. lia.
  - exists p. split; [reflexivity|]. split; [done|lia].
Qed.

(** The [for] loop over the first symbols. *)
Section first_symbols.
Variables (bytes syms : list Z) (num : Z).
Hypothesis num_eq : num = num_symbols (Z.of_nat (length bytes)) + 1.
Hypothesis syms_ok : forall i, 0 <= i < num -> zlookup syms i = Some (symbol_at bytes i).

Definition first_symbol (p : key_prefetcher) (i : Z) : MS key_prefetcher :=
  if i <? num then
    sym ← lift (zlookup syms i);
    _ ← assert (sym =? get_string_symbol (Z.of_nat (length bytes)) bytes i);
    prefetcher_hash_next p
  else mret p.

Lemma first_symbols_past s l p :
  (forall j, In j l -> num <= j) -> for_each l first_symbol p s = Ret p s.
Proof.
  intros Hj. induction l as [|j l IH]; [reflexivity|]. cbn [for_each].
  assert (E : first_symbol p j s = Ret p s).
  { unfold first_symbol. destruct (Z.ltb_spec j num); [specialize (Hj j (or_introl eq_refl)); lia|done]. }
  erewrite bind_Ret by exact E. apply IH. intros j' Hj'. apply Hj. now right.
Qed.

Lemma first_symbols_spec s n p :
  prefetch_ok (trie s) bytes p ->
  exists p', for_each (map (fun k => prefetch_pos p + Z.of_nat k) (seq 0 n)) first_symbol p s = Ret p' s /\
    prefetch_ok (trie s) bytes p' /\ prefetch_pos p' = Z.min (prefetch_pos p + Z.of_nat n) num.
Proof.
  revert p. induction n as [|n IH]; intros p Hp; pose proof (po_pos _ _ _ Hp) as Hpos;
    pose proof (po_num _ _ _ Hp) as Hnum.
  - exists p. split; [reflexivity|]. split; [done|lia].
  - destruct (Z.ltb_spec (prefetch_pos p) num).
    + destruct (prefetcher_hash_next_spec bytes p s Hp) as (p1 & E1 & Hp1 & Epos); [lia|].
      destruct (IH p1 Hp1) as (p' & E' & Hp' & Epos').
      exists p'. split; [|split; [done|lia]]. rewrite <- E'.
      cbn [seq map for_each]. rewrite Z.add_0_r. erewrite bind_Ret.
      2: { unfold first_symbol. destruct (Z.ltb_spec (prefetch_pos p) num); [|lia].
           rewrite syms_ok by lia. erewrite bind_Ret by reflexivity.
           erewrite bind_Ret; [exact E1|]. apply assert_true, Z.eqb_refl. }
      f_equal. rewrite <- seq_shift, map_map. apply map_ext. intros k. lia.
    + exists p. rewrite first_symbols_past; [split; [reflexivity|]; split; [done|lia]|].
      intros j Hj. apply in_map_iff in Hj as (k & <- & _). lia.
Qed.
End first_symbols.

Lemma count_key_symbols_eq size : count_key_symbols size = num_symbols size + 1.
Proof. unfold count_key_symbols, num_symbols, BITS_PER_SYMBOL. do 3 f_equal. lia. Qed.

Section start.
Context `{Env}.
Variable bytes : list Z.
Hypothesis key_ok : bytes_ok bytes.
Hypothesis ambient_ok : forall a, is_byte (ambient_byte a).

Let size := Z.of_nat (length bytes).

Lemma key_to_symbols_spec :
  Z.of_nat (length (key_to_symbols (key_mem bytes) key_address size)) = 8 * ((size + 4) / 5) /\
  forall i, 0 <= i < num_symbols size ->
    zlookup (key_to_symbols (key_mem bytes) key_address size) i = Some (symbol_at bytes i).
Proof.
  unfold key_to_symbols.
  destruct (key_to_symbols_loop_spec bytes (S (Z.to_nat size)) 0 key_ok ambient_ok) as [H1 H2]; [unfold size; lia|].
  cbn [Nat.mul Z.of_nat] in H1, H2. rewrite Z.mul_0_r, Z.add_0_r, Z.sub_0_r in H1, H2. fold size in H1, H2.
  split; [rewrite H1; rewrite Z.max_r; [done|unfold size; zdiv]|].
  intros i Hi. rewrite (H2 i) by lia. do 2 f_equal.
Qed.

(** Keys of up to 255 bytes. *)
Lemma prefetcher_start_spec s :
  size <= 255 ->
  exists p, prefetcher_start size bytes s = Ret p s /\ prefetch_ok (trie s) bytes p /\
    prefetch_pos p = Z.min 4 (num_symbols size + 1).
Proof.
  intros Hsize. destruct key_to_symbols_spec as [Hl Hs]. unfold prefetcher_start.
  set (written := key_to_symbols _ _ _) in *. rewrite count_key_symbols_eq, Z.add_simpl_r.
  assert (Hmax : MAX_KEY_SYMBOLS = 410) by reflexivity.
  assert (Hn : 0 <= num_symbols size <= 408) by (unfold num_symbols, size in *; zdiv).
  erewrite bind_Ret by (apply assert_true; apply Z.leb_le; zdiv).
  erewrite bind_Ret by (apply assert_true; apply Z.ltb_lt; lia).
  set (buf := written ++ _).
  assert (Hbuf : Z.of_nat (length buf) = 410).
  { unfold buf. rewrite length_app, length_drop, length_replicate. zdiv. }
  match goal with |- context [for_each _ _ ?p0] => set (p := p0) end.
  assert (Hp : prefetch_ok (trie s) bytes p).
  { split; unfold p; cbn [num_key_symbols prefetch_pos key_symbols prefix_hashes prefetch_prefix_hash];
      fold size; try lia.
    - intros i Hi. destruct (Z.eq_dec i (num_symbols size)) as [->|].
      + rewrite zlookup_zset_eq by lia. f_equal. symmetry. apply symbol_end_iff; [lia|fold size; lia].
      + rewrite zlookup_zset_ne by lia. rewrite <- (Hs i) by lia. unfold buf, zlookup.
        destruct (0 <=? i); [|done]. apply lookup_app_l.
        assert (num_symbols size <= 8 * ((size + 4) / 5)) by (unfold num_symbols; zdiv). lia.
    - rewrite length_replicate. lia.
    - reflexivity. }
  destruct (first_symbols_spec bytes (key_symbols p) (num_symbols size + 1) eq_refl (po_symbols _ _ _ Hp) s 4 p Hp)
    as (p' & E & Hp' & Epos).
  exists p'. split; [exact E|]. split; [done|]. rewrite Epos. unfold p. cbn [prefetch_pos]. lia.
Qed.

(** A key of 256 bytes or more does not fit [key_symbols]. *)
Lemma prefetcher_start_overflow s : 256 <= size -> prefetcher_start size bytes s = Fault.
Proof.
  intros Hsize. destruct key_to_symbols_spec as [Hl _]. unfold prefetcher_start.
  set (written := key_to_symbols _ _ _) in *.
  destruct (Z.leb_spec (Z.of_nat (length written)) MAX_KEY_SYMBOLS) as [Hle|]; [|done].
  exfalso. change MAX_KEY_SYMBOLS with 410 in Hle. zdiv.
Qed.
End start.

(** ** Keys followed by other bytes

    [ct_insert_internal] and [ct_update_internal] pass a pointer to a key that
    is followed by the value: what follows is memory around the key. *)

Definition env_after (bytes : list Z) (e : Env) : Env :=
  mk_env (@retry_fuel e) (@garbage_entry e) (@garbage_byte e) (@key_address e) (@key_mem e bytes).

Lemma mem_load_ext n mem mem' a : (forall x, mem x = mem' x) -> mem_load n mem a = mem_load n mem' a.
Proof. intros H. unfold mem_load. f_equal. apply map_ext. intros. apply H. Qed.

Lemma key_to_symbols_ext mem mem' a size :
  (forall x, mem x = mem' x) -> key_to_symbols mem a size = key_to_symbols mem' a size.
Proof.
  intros H. unfold key_to_symbols. generalize (S (Z.to_nat size)). intros fuel.
  revert a size. induction fuel as [|fuel IH]; intros a size; cbn [key_to_symbols_loop]; [done|].
  unfold read_qword_zfill. rewrite !(mem_load_ext 8 mem mem') by done. now rewrite IH.
Qed.

Lemma byte_at_take (l : list Z) n i : (i < n)%nat -> byte_at (take n l) i = byte_at l i.
Proof. intros. unfold byte_at. now rewrite !nth_lookup, lookup_take_lt by done. Qed.

Lemma key_mem_take (e : Env) bytes n a :
  (n <= length bytes)%nat ->
  @key_mem (env_after bytes e) (take n bytes) a = @key_mem e bytes a.
Proof.
  intros Hn. unfold key_mem at 1. cbn. rewrite length_take, Nat.min_l by lia.
  destruct (Z.leb_spec 0 (a - @key_address e)); [|done].
  destruct (Z.ltb_spec (a - @key_address e) (Z.of_nat n)); [|done]. cbn [andb].
  rewrite byte_at_take by lia. unfold key_mem. zcases. done.
Qed.

Lemma get_string_symbol_take bytes n i :
  (n <= length bytes)%nat -> 0 <= i ->
  get_string_symbol (Z.of_nat n) bytes i = get_string_symbol (Z.of_nat n) (take n bytes) i.
Proof.
  intros Hn Hi. unfold get_string_symbol, BITS_PER_SYMBOL.
  destruct (Z.leb_spec (Z.of_nat n) (i * 5 / 8)); [done|].
  rewrite byte_at_take by zdiv. destruct (Z.ltb_spec (i * 5 / 8 + 1) (Z.of_nat n)); [|done].
  now rewrite byte_at_take by zdiv.
Qed.

Lemma prefetcher_start_take (e : Env) bytes n s :
  (n <= length bytes)%nat ->
  @prefetcher_start e (Z.of_nat n) bytes s =
  @prefetcher_start (env_after bytes e) (Z.of_nat n) (take n bytes) s.
Proof.
  intros Hn. unfold prefetcher_start.
  rewrite (key_to_symbols_ext (@key_mem e bytes) (@key_mem (env_after bytes e) (take n bytes)))
    by (intros x; symmetry; now apply key_mem_take).
  change (@key_address (env_after bytes e)) with (@key_address e).
  change (@garbage_byte (env_after bytes e)) with (@garbage_byte e).
  unfold for_each. rewrite !(get_string_symbol_take bytes n) by lia. reflexivity.
Qed.

(** ** Properties *)

(** C14. The vectorised [key_to_symbols] agrees with the reference
    [get_string_symbol] on every symbol before the END symbol, whatever the
    memory around the key contains and wherever the key lies in its page, and
    it writes eight symbols for every five bytes. *)
Theorem key_to_symbols_correct `{Env} bytes i :
  bytes_ok bytes -> (forall a, is_byte (ambient_byte a)) ->
  0 <= i < num_symbols (Z.of_nat (length bytes)) ->
  let out := key_to_symbols (key_mem bytes) key_address (Z.of_nat (length bytes)) in
  zlookup out i = Some (get_string_symbol (Z.of_nat (length bytes)) bytes i) /\
  1 <= get_string_symbol (Z.of_nat (length bytes)) bytes i <= FANOUT /\
  Z.of_nat (length out) = 8 * ((Z.of_nat (length bytes) + 4) / 5).
Proof.
  intros Hok Hamb Hi out. destruct (key_to_symbols_spec bytes Hok Hamb) as [H1 H2].
  split; [now apply H2|]. split; [now apply symbol_pos|exact H1].
Qed.

Lemma num_symbols_nonneg (bytes : list Z) : 0 <= num_symbols (Z.of_nat (length bytes)).
Proof. unfold num_symbols. zdiv. Qed.

(** Keys that agree up to the end of [b] end no later than [b]. *)
Lemma symbols_agree_le (a b : list Z) i :
  (forall j, 0 <= j < i -> symbol_at a j = symbol_at b j) ->
  num_symbols (Z.of_nat (length a)) <= i ->
  num_symbols (Z.of_nat (length b)) <= i ->
  num_symbols (Z.of_nat (length a)) <= num_symbols (Z.of_nat (length b)).
Proof.
  intros Heq Ha Hb. pose proof (num_symbols_nonneg b) as Hn.
  destruct (Z.le_gt_cases (num_symbols (Z.of_nat (length a))) (num_symbols (Z.of_nat (length b)))) as [|Hc]; [done|].
  pose proof (proj2 (symbol_end_iff b _ Hn) (Z.le_refl _)) as E.
  rewrite <- Heq in E by lia. apply symbol_end_iff in E; lia.
Qed.

(** Keys whose symbols agree up to and including an END symbol are equal. *)
Lemma symbols_agree_eq a b i :
  bytes_ok a -> bytes_ok b -> 0 <= i ->
  (forall j, 0 <= j < i -> symbol_at a j = symbol_at b j) ->
  symbol_at a i = symbol_at b i -> symbol_at a i = SYMBOL_END -> a = b.
Proof.
  intros Ha Hb Hi Heq.
  intros E Ea. assert (Eb : symbol_at b i = SYMBOL_END) by congruence.
  apply symbol_end_iff in Ea, Eb; [|done..].
  assert (Hn : num_symbols (Z.of_nat (length a)) = num_symbols (Z.of_nat (length b))).
  { apply Z.le_antisymm; [apply (symbols_agree_le a b i)|apply (symbols_agree_le b a i)]; try done.
    intros j Hj. symmetry. now apply Heq. }
  assert (Hl : length a = length b) by (unfold num_symbols in Hn; zdiv).
  rewrite <- (take_ge a (length a)), <- (take_ge b (length a)) by lia.
  apply bits_eq_bytes; [done..|lia|]. intros k Hk.
  assert (0 <= num_symbols (Z.of_nat (length a))) by (unfold num_symbols; zdiv).
  apply (symbols_eq_bits a b (num_symbols (Z.of_nat (length a)))); try (done || lia).
  + intros j Hj. apply Heq. lia.
  + unfold num_symbols. zdiv.
Qed.

(** C15. The symbol string, with its END symbol, is an order-preserving and
    injective encoding of keys: the first symbol in which two keys differ
    orders them as the lexicographic order of their bytes does, and keys with
    the same symbols are equal. *)
Theorem symbol_order_is_key_order a b i :
  bytes_ok a -> bytes_ok b -> 0 <= i ->
  (forall j, 0 <= j < i -> symbol_at a j = symbol_at b j) ->
  (symbol_at a i <> symbol_at b i -> key_compare a b = (symbol_at a i ?= symbol_at b i)) /\
  (symbol_at a i = symbol_at b i -> symbol_at a i = SYMBOL_END -> a = b).
Proof.
  intros Ha Hb Hi Heq. split.
  - intros Hne. destruct (Z.compare_spec (symbol_at a i) (symbol_at b i)) as [|Hlt|Hgt]; [done|..].
    + now apply (symbol_lt_key_lt a b i).
    + rewrite key_compare_antisym, (symbol_lt_key_lt b a i); try done. intros j Hj. symmetry. now apply Heq.
  - now apply symbols_agree_eq.
Qed.

(** C20. The prefetcher is correct for keys of up to 255 bytes: it returns with
    the symbols of the key and the END symbol in place and the prefix hashes of
    the first symbols computed, whatever memory contains. A key of 256 bytes,
    which MAX_KEY_BYTES admits, makes it write past the end of its arrays. *)
Theorem prefetcher_start_keys `{Env} bytes s :
  bytes_ok bytes -> (forall a, is_byte (ambient_byte a)) ->
  (Z.of_nat (length bytes) <= 255 ->
     exists p, prefetcher_start (Z.of_nat (length bytes)) bytes s = Ret p s /\
       prefetch_ok (trie s) bytes p /\ prefetch_pos p = Z.min 4 (num_symbols (Z.of_nat (length bytes)) + 1)) /\
  (Z.of_nat (length bytes) = MAX_KEY_BYTES ->
     prefetcher_start (Z.of_nat (length bytes)) bytes s = Fault).
Proof.
  intros Hok Hamb. split; intros Hs.
  - now apply prefetcher_start_spec.
  - apply prefetcher_start_overflow; [done..|]. rewrite Hs. discriminate.
Qed.

Lemma key_to_symbols_correct_witness :
  zlookup (key_to_symbols (@key_mem sample_env [104; 101; 121]) (@key_address sample_env) 3) 4 = Some 19.
Proof.
  destruct (@key_to_symbols_correct sample_env [104; 101; 121] 4) as [H _].
  - apply bytes_ok_check. reflexivity.
  - intros a. split; [discriminate|reflexivity].
  - split; [discriminate|reflexivity].
  - exact H.
Defined.

Lemma symbol_order_is_key_order_witness : key_compare [1; 2] [1; 2; 0] = Lt.
Proof.
  destruct (symbol_order_is_key_order [1; 2] [1; 2; 0] 4) as [H _].
  - apply bytes_ok_check. reflexivity.
  - apply bytes_ok_check. reflexivity.
  - lia.
  - intros j Hj. assert (j = 0 \/ j = 1 \/ j = 2 \/ j = 3) as [-> | [-> | [-> | ->]]] by lia; reflexivity.
  - rewrite H; [reflexivity|discriminate].
Defined.

Lemma prefetcher_start_keys_witness :
  @prefetcher_start sample_env 256 (replicate 256 7) (mk_state sample_trie [] ∅) = Fault.
Proof.
  destruct (@prefetcher_start_keys sample_env (replicate 256 7) (mk_state sample_trie [] ∅)) as [_ H].
  - apply bytes_ok_check. reflexivity.
  - intros a. split; [discriminate|reflexivity].
  - apply H. reflexivity.
Defined.
