(* ===== verification/Random.v ===== *)
(** * The random generator (random.c) and the mix table (main.c) *)

From S2P Require Import Prelude Bits Entry State.
From stdpp Require Import base list.
From Stdlib Require Import ZArith Lia Bool.

#[local] Open Scope Z_scope.

(** [rand_state] is threaded explicitly. *)
Definition rand_seed (s : Z) : Z := s.
Definition rand_step (st : Z) : Z := u64 (6364136223846793005 * st + 1).
Definition rand_dword (st : Z) : Z * Z :=
  let st' := rand_step st in (st' .>> 32, st').
Definition rand_dword_r (st : Z) : Z * Z :=
  let st' := rand_step st in (u32 (st' .>> 32), st').

(** The two calls of [rand_dword] are unsequenced in C: [high_first] says
    which operand the compiler evaluates first. *)
Definition rand_uint64 (high_first : bool) (st : Z) : Z * Z :=
  let '(a, st1) := rand_dword st in
  let '(b, st2) := rand_dword st1 in
  let '(hi, lo) := if high_first then (a, b) else (b, a) in
  (u64 ((hi .<< 32) + lo), st2).

Fixpoint random_bytes (count : nat) (st : Z) : list Z * Z :=
  match count with
  | O => ([], st)
  | S k =>
      let '(d, st1) := rand_dword st in
      let '(l, st2) := random_bytes k st1 in
      (d mod 256 :: l, st2)
  end.

Fixpoint rand_list (n : nat) (high_first : bool) (st : Z) : list Z :=
  match n with
  | O => []
  | S k => let '(x, st') := rand_uint64 high_first st in x :: rand_list k high_first st'
  end.

(** [init_bucket_mix_table] (main.c). *)
Definition init_bucket_mix_table (high_first : bool) (num_buckets : Z) : list Z :=
  map (fun x => x mod num_buckets)
      (rand_list (Z.to_nat (1 .<< TAG_BITS)) high_first (rand_seed 1)).
