(* ===== verification/Atomics.v ===== *)
(** * Locks and entry accesses (atomics.c, atomics.h)

    The functions of the MULTITHREADING build, run by one thread: an atomic
    load or store is a load or store, a loop that waits for another thread
    is [spin]. Concurrent executions of the same accesses are in
    Seqlock.v. A pointer to a write lock is its index in the
    lock manager's array. *)

From S2P Require Import Prelude Bits Entry KeyObject State.
From stdpp Require Import base list gmap.
From Stdlib Require Import ZArith Lia Bool.

#[local] Open Scope Z_scope.

Inductive si_status := SI_OK | SI_RETRY | SI_EXISTS | SI_FAIL.

#[global] Instance si_status_eq_dec : EqDecision si_status.
Proof. solve_decision. Defined.

Definition SEQ_INCREMENT : Z := 1 .<< 8.
(** [x & (~0xFF)]: the sequence part of a lock word. *)
Definition seq_part (x : Z) : Z := x .& bnot 32 255.

(** ** Entry accesses *)

Definition read_int_atomic_seq (b : Z) : MS Z := bk ← get_bucket b; mret (write_lock_and_seq bk).

Definition read_is_empty : MS Z := t ← get_trie; mret (is_empty t).
Definition write_is_empty (v : Z) : MS unit := modify (fun s => set_trie (set_is_empty v (trie s)) s).

(** [read_entry]: retries while a write is in progress; without another
    thread it reads a consistent entry at once or waits forever. *)
Definition read_entry (p : pos) : MS (ct_entry * Z) :=
  seq1 ← read_int_atomic_seq (pos_bucket p);
  if negb ((seq1 .& SEQ_INCREMENT) =? 0) then spin
  else
    e ← get_entry p;
    seq2 ← read_int_atomic_seq (pos_bucket p);
    if negb (seq2 =? seq1) then spin else mret (e, seq1).

Definition read_entry_non_atomic (p : pos) : MS ct_entry := get_entry p.

(** The two overlapping quadwords [write_entry] stores: bytes 0..7 and 7..14. *)
Definition write_parts (src : ct_entry) (target : ct_entry) : ct_entry :=
  let src_part1 := load_bytes 8 src 0 in
  let src_part2 := u64 (entry_u128 src .>> (8 * (Z.of_nat ENTRY_BYTES - 8))) in
  store_bytes 8 (store_bytes 8 target 0 src_part1) (ENTRY_BYTES - 8) src_part2.

Definition write_entry (p : pos) (src : ct_entry) : MS Z :=
  b ← get_bucket (pos_bucket p);
  let seq := write_lock_and_seq b in
  _ ← assert ((seq .& SEQ_INCREMENT) =? 0);
  _ ← assert (negb ((seq .& 1) =? 0));
  _ ← put_bucket (pos_bucket p) (set_lock_word (u32 (seq + SEQ_INCREMENT)) b);
  e ← get_entry p;
  _ ← put_entry p (write_parts src e);
  b2 ← get_bucket (pos_bucket p);
  let seq' := u32 (seq + 2 * SEQ_INCREMENT) in
  _ ← put_bucket (pos_bucket p) (set_lock_word seq' b2);
  mret seq'.

Definition entry_set_parent_color_atomic (p : pos) (color : Z) : MS unit :=
  e ← read_entry_non_atomic p;
  _ ← write_entry p (entry_set_parent_color color e);
  mret tt.

(** ** The lock manager *)

Definition get_locks : MS ct_lock_mgr := gets lock_mgr.
Definition put_locks (l : ct_lock_mgr) : MS unit := modify (set_lock_mgr l).

Definition init_lock_mgr : MS unit := put_locks [].

Definition try_take_lock (bucket : Z) : MS bool :=
  b ← get_bucket bucket;
  _ ← put_bucket bucket (set_write_lock 1 b);
  mret (write_lock b =? 0).

Definition unlock_byte (bucket : Z) : MS unit :=
  b ← get_bucket bucket; put_bucket bucket (set_write_lock 0 b).

(** Backwards search, as in the C loop. *)
Fixpoint find_from (n : nat) (locks : ct_lock_mgr) (bucket : Z) : option nat :=
  match n with
  | O => None
  | S k =>
      match locks !! k with
      | Some l => if wl_bucket l =? bucket then Some k else find_from k locks bucket
      | None => find_from k locks bucket
      end
  end.

Definition find_write_lock (locks : ct_lock_mgr) (bucket : Z) : option nat :=
  find_from (length locks) locks bucket.

Definition bucket_write_locked (bucket : Z) : MS bool :=
  ls ← get_locks; mret (bool_decide (is_Some (find_write_lock ls bucket))).

Definition remove_lock (i : nat) : MS unit :=
  ls ← get_locks;
  l ← lift (ls !! i);
  last_lock ← lift (last ls);
  _ ← put_locks (take (length ls - 1) (<[i := last_lock]> ls));
  unlock_byte (wl_bucket l).

Definition read_lock_bucket (bucket : Z) : MS ct_bucket_read_lock :=
  b ← get_bucket bucket;
  mret (mk_read_lock bucket (seq_part (write_lock_and_seq b))).

Definition read_unlock_bucket (rl : ct_bucket_read_lock) : MS si_status :=
  b ← get_bucket (rl_bucket rl);
  mret (if seq_part (write_lock_and_seq b) =? rl_seq rl then SI_OK else SI_FAIL).

(** Returns the new lock's index. *)
Definition add_lock (bucket : Z) : MS nat :=
  ls ← get_locks;
  _ ← assert (Z.of_nat (length ls) <? MAX_LOCKS);
  _ ← put_locks (ls ++ [mk_write_lock bucket (replicate CUCKOO_BUCKET_SIZE 0) 1]);
  mret (length ls).

Definition write_lock_unlocked_bucket (bucket : Z) : MS (option nat) :=
  ls ← get_locks;
  _ ← assert (bool_decide (find_write_lock ls bucket = None));
  ok ← try_take_lock bucket;
  if (ok : bool) then i ← add_lock bucket; mret (Some i) else mret None.

Definition update_lock (i : nat) (f : ct_bucket_write_lock -> ct_bucket_write_lock) : MS unit :=
  ls ← get_locks;
  l ← lift (ls !! i);
  put_locks (<[i := f l]> ls).

Definition add_total (d : Z) (l : ct_bucket_write_lock) : ct_bucket_write_lock :=
  mk_write_lock (wl_bucket l) (entry_refcounts l) (u32 (total_refcount l + d)).

Definition add_entry_ref (c : nat) (d : Z) (l : ct_bucket_write_lock) : ct_bucket_write_lock :=
  mk_write_lock (wl_bucket l) (alter (fun r => u32 (r + d)) c (entry_refcounts l)) (total_refcount l).

Definition entry_refcount (c : nat) (l : ct_bucket_write_lock) : Z := byte_at (entry_refcounts l) c.

Definition write_lock_bucket (bucket : Z) : MS (option nat) :=
  ok ← try_take_lock bucket;
  if (ok : bool) then i ← add_lock bucket; mret (Some i)
  else
    ls ← get_locks;
    match find_write_lock ls bucket with
    | Some i =>
        b ← get_bucket bucket;
        _ ← assert (negb ((write_lock_and_seq b .& 1) =? 0));
        _ ← update_lock i (add_total 1);
        mret (Some i)
    | None => mret None
    end.

Definition release_bucket_lock (bucket : Z) : MS unit :=
  ls ← get_locks;
  i ← lift (find_write_lock ls bucket);
  l ← lift (ls !! i);
  _ ← assert (negb (total_refcount l =? 0));
  _ ← update_lock i (add_total (-1));
  if negb (total_refcount l - 1 =? 0) then mret tt else remove_lock i.

Definition upgrade_bucket_lock (rl : ct_bucket_read_lock) : MS si_status :=
  ls ← get_locks;
  let bucket := rl_bucket rl in
  match find_write_lock ls bucket with
  | Some i =>
      b ← get_bucket bucket;
      if negb (seq_part (write_lock_and_seq b) =? rl_seq rl) then mret SI_RETRY
      else _ ← update_lock i (add_total 1); mret SI_OK
  | None =>
      lock ← write_lock_unlocked_bucket bucket;
      match lock with
      | None => mret SI_RETRY
      | Some _ =>
          b ← get_bucket bucket;
          if negb (seq_part (write_lock_and_seq b) =? rl_seq rl) then
            _ ← release_bucket_lock bucket; mret SI_RETRY
          else mret SI_OK
      end
  end.

Definition write_lock_entry_in_locked_bucket (p : pos) : MS unit :=
  ls ← get_locks;
  i ← lift (find_write_lock ls (pos_bucket p));
  _ ← update_lock i (add_total 1);
  update_lock i (add_entry_ref (pos_cell p) 1).

Definition move_entry_lock (dst src : pos) : MS unit :=
  ls ← get_locks;
  i ← lift (find_write_lock ls (pos_bucket src));
  j ← lift (find_write_lock ls (pos_bucket dst));
  l ← lift (ls !! i);
  if entry_refcount (pos_cell src) l =? 0 then mret tt
  else
    _ ← update_lock i (add_entry_ref (pos_cell src) (-1));
    _ ← update_lock i (add_total (-1));
    _ ← update_lock j (add_entry_ref (pos_cell dst) 1);
    update_lock j (add_total 1).

(** [read_bucket_seq]: the three sequence bytes of the lock word. *)
Definition read_bucket_seq (bucket : Z) : MS Z :=
  b ← get_bucket bucket;
  let w := write_lock_and_seq b in
  let low_word := u16 (w .>> 8) in
  let high_byte := u8 (w .>> 24) in
  mret (u32 ((high_byte .<< 24) + (low_word .<< 8))).

Definition upgrade_lock (e : ct_entry_local_copy) : MS si_status :=
  let bucket := pos_bucket (last_pos e) in
  let entry_index := pos_cell (last_pos e) in
  let entry_seq := seq_part (last_seq e) in
  ok ← try_take_lock bucket;
  if (ok : bool) then
    i ← add_lock bucket;
    bucket_seq ← read_bucket_seq bucket;
    b ← get_bucket bucket;
    _ ← assert (bucket_seq =? seq_part (write_lock_and_seq b));
    if negb (bucket_seq =? entry_seq) then
      _ ← release_bucket_lock bucket; mret SI_RETRY
    else
      _ ← update_lock i (add_entry_ref entry_index 1); mret SI_OK
  else
    ls ← get_locks;
    match find_write_lock ls bucket with
    | Some i =>
        b ← get_bucket bucket;
        if negb (seq_part (write_lock_and_seq b) =? entry_seq) then mret SI_RETRY
        else
          _ ← update_lock i (add_entry_ref entry_index 1);
          _ ← update_lock i (add_total 1);
          mret SI_OK
    | None => mret SI_RETRY
    end.

Definition write_unlock (p : pos) : MS unit :=
  ls ← get_locks;
  i ← lift (find_write_lock ls (pos_bucket p));
  l ← lift (ls !! i);
  _ ← assert (negb (entry_refcount (pos_cell p) l =? 0));
  _ ← update_lock i (add_entry_ref (pos_cell p) (-1));
  _ ← update_lock i (add_total (-1));
  if negb (total_refcount l - 1 =? 0) then mret tt else remove_lock i.

Definition release_all_locks : MS unit :=
  ls ← get_locks;
  _ ← for_each ls (fun _ l => unlock_byte (wl_bucket l)) tt;
  put_locks [].
