(* ===== verification/Table.v ===== *)
(** * The cuckoo hash table (main.c: searching, adding, moving and removing
    entries in bucket pairs)

    [BucketOps] is the interface between the table and the code that scans
    the four cells of a bucket: main.c implements it with loops
    (Scalar.v), main_vectorized.c with prefilters and SIMD compares
    (Vectorized.v); everything else in the two files is the same code and
    is written once, against the interface. *)

From S2P Require Import Prelude Bits Entry KeyObject State Hashing Atomics.
From stdpp Require Import base list gmap.
From Stdlib Require Import ZArith Lia Bool.

#[local] Open Scope Z_scope.

(** A search returns the cell, the entry read and the bucket's counter.
    [by_parent_assertion] is what the search by parent asserts of the cell it
    found. *)
Class BucketOps := mk_bucket_ops {
  find_entry_in_bucket_by_color : ct_bucket -> bool -> Z -> Z -> option (nat * ct_entry * Z);
  find_entry_in_bucket_by_parent : ct_bucket -> bool -> Z -> Z -> Z -> option (nat * ct_entry * Z);
  unused_color_in_pair : ct_bucket -> ct_bucket -> Z;
  by_parent_assertion : ct_entry -> bool;
}.

(** The contents of a cell nobody uses. *)
Definition UNUSED_HEADER : Z := (INVALID_COLOR .<< PARENT_COLOR_SHIFT) .| TYPE_UNUSED.
Definition unused_entry : ct_entry :=
  set_color_and_tag_byte (INVALID_COLOR .<< TAG_BITS)
    (set_parent_color_and_flags UNUSED_HEADER (replicate ENTRY_BYTES 0)).

Section table.
Context `{BucketOps}.

(** ** Finding entries *)

(** The loops of [find_entry_in_pair_by_*] search both buckets again until they
    find the entry; their [assert(count < 100)] ends them in a build with
    assertions, so that there is never a round after these. *)
Definition FIND_ROUNDS : nat := 100.

Definition find_in_pair (search : bool -> ct_bucket -> option (nat * ct_entry * Z))
    (primary_bucket_num tag : Z) : MS ct_entry_local_copy :=
  loop FIND_ROUNDS
    (fun count : nat =>
       b1 ← get_bucket primary_bucket_num;
       match search false b1 with
       | Some (c, e, seq) =>
           mret (inr (mk_local e (mk_pos primary_bucket_num c) primary_bucket_num seq))
       | None =>
           t ← get_trie;
           let secondary := mix_bucket t primary_bucket_num tag in
           b2 ← get_bucket secondary;
           match search true b2 with
           | Some (c, e, seq) =>
               mret (inr (mk_local e (mk_pos secondary c) primary_bucket_num seq))
           | None =>
               let count := S count in
               _ ← assert (count <? FIND_ROUNDS)%nat;
               mret (inl count)
           end
       end) 0%nat.

Definition find_entry_in_pair_by_color (primary_bucket_num tag color : Z) : MS ct_entry_local_copy :=
  find_in_pair (fun sec b => find_entry_in_bucket_by_color b sec tag color) primary_bucket_num tag.

Definition find_entry_in_pair_by_parent (primary_bucket_num tag last_sym parent_color : Z)
    : MS ct_entry_local_copy :=
  l ← find_in_pair (fun sec b => find_entry_in_bucket_by_parent b sec tag last_sym parent_color)
        primary_bucket_num tag;
  _ ← assert (by_parent_assertion (lc_value l));
  mret l.

Definition locator_to_entry (l : ct_entry_locator) : MS ct_entry_local_copy :=
  find_entry_in_pair_by_color (loc_primary_bucket l) (loc_tag l) (loc_color l).

Definition find_root : MS ct_entry_local_copy :=
  let root_pos := mk_pos (hash_to_bucket HASH_START_VALUE) 0 in
  '(e, seq) ← read_entry root_pos;
  mret (mk_local e root_pos (hash_to_bucket HASH_START_VALUE) seq).

Definition read_min_leaf : MS ct_entry_local_copy :=
  t ← get_trie;
  '(e, seq) ← read_entry (trie_min_leaf t);
  mret (mk_local e (trie_min_leaf t) NO_BUCKET64 seq).

Fixpoint find_free_from (l : list ct_entry) (i : nat) : option nat :=
  match l with
  | [] => None
  | e :: t => if entry_type e =? TYPE_UNUSED then Some i else find_free_from t (S i)
  end.

Definition find_free_cell_in_bucket (b : ct_bucket) : option nat :=
  find_free_from (take CUCKOO_BUCKET_SIZE (cells b)) 0.

(** ** Updating and removing entries *)

Definition validate_entry (l : ct_entry_local_copy) : MS bool :=
  bucket_seq ← read_int_atomic_seq (pos_bucket (last_pos l));
  mret (seq_part bucket_seq =? seq_part (last_seq l)).

Definition update_entry_slow_path (l : ct_entry_local_copy) (new_value : ct_entry)
    : MS ct_entry_local_copy :=
  cur ← find_entry_in_pair_by_color (primary_bucket l) (entry_tag (lc_value l)) (entry_color (lc_value l));
  let cur_entry_pos := last_pos cur in
  cur_entry ← get_entry cur_entry_pos;
  let flags := (parent_color_and_flags new_value .& bnot 8 FLAG_SECONDARY_BUCKET)
               .| (parent_color_and_flags cur_entry .& FLAG_SECONDARY_BUCKET) in
  let adjusted := set_parent_color_and_flags flags new_value in
  new_seq ← write_entry cur_entry_pos adjusted;
  mret (mk_local adjusted cur_entry_pos (primary_bucket l) new_seq).

(** Returns the local copy as [update_entry] leaves it. *)
Definition update_entry (l : ct_entry_local_copy) (new_value : ct_entry) : MS ct_entry_local_copy :=
  entry_didnt_move ← validate_entry l;
  if (entry_didnt_move : bool) then
    new_seq ← write_entry (last_pos l) new_value;
    mret (mk_local new_value (last_pos l) (primary_bucket l) new_seq)
  else update_entry_slow_path l new_value.

Definition remove_entry_by_address (p : pos) : MS unit :=
  locked ← bucket_write_locked (pos_bucket p);
  _ ← assert locked;
  _ ← write_entry p unused_entry;
  mret tt.

Definition remove_entry_by_value (entry : ct_entry) (prefix_hash : Z) : MS unit :=
  l ← find_entry_in_pair_by_color (hash_to_bucket prefix_hash) (hash_to_tag prefix_hash)
        (entry_color entry);
  remove_entry_by_address (last_pos l).

Definition mark_entry_dirty (l : ct_entry_local_copy) : MS ct_entry_local_copy :=
  update_entry l (entry_set_dirty (lc_value l)).

Definition mark_entry_clean (l : ct_entry_local_copy) : MS ct_entry_local_copy :=
  update_entry l (entry_set_clean (lc_value l)).

(** ** Relocation: breadth-first search for a free cell *)

Record relocation_queue_entry := mk_queue_entry {
  q_bucket : Z;
  q_read_lock : ct_bucket_read_lock;
  q_parent_queue_pos : nat;   (* -1 for entry 0: never followed *)
  q_child_idx : nat;
}.

Definition RELOCATE_QUEUE_SIZE : nat := 1000.

Record found_cell := mk_found {
  fc_free_cell : pos;
  fc_child_idx : nat;
  fc_read_lock : ct_bucket_read_lock;
}.

Definition root_pos : pos := mk_pos (hash_to_bucket HASH_START_VALUE) 0.

(** Cell [i] of the queue entry at [queue_pos]: either the free cell of its
    alternate bucket, or that bucket joins the queue. *)
Definition relocate_scan_cell (immovable : option pos) (queue_pos : nat) (bucket_num : Z)
    (acc : list relocation_queue_entry * option found_cell) (i : nat)
    : MS (list relocation_queue_entry * option found_cell) :=
  let '(queue, found) := acc in
  match found with
  | Some _ => mret acc    (* the for loop was left by break *)
  | None =>
      let entry := mk_pos bucket_num i in
      if bool_decide (Some entry = immovable) then mret acc
      else if bool_decide (entry = root_pos) then mret acc
      else
        t ← get_trie;
        e ← get_entry entry;
        let child_bucket_num := alternate_bucket t e bucket_num in
        if existsb (fun q => q_bucket q =? child_bucket_num) queue then mret acc
        else
          read_lock ← read_lock_bucket child_bucket_num;
          child ← get_bucket child_bucket_num;
          match find_free_cell_in_bucket child with
          | None =>
              if (length queue <? RELOCATE_QUEUE_SIZE)%nat then
                mret (queue ++ [mk_queue_entry child_bucket_num read_lock queue_pos i], None)
              else mret acc
          | Some c => mret (queue, Some (mk_found (mk_pos child_bucket_num c) i read_lock))
          end
  end.

(** The search loop; returns the queue, the final [queue_pos] and the cell. *)
Definition relocate_search (immovable : option pos) (bucket_num : Z)
    : MS (list relocation_queue_entry * nat * option found_cell) :=
  loop (S (S RELOCATE_QUEUE_SIZE))
    (fun '(queue, queue_pos, found) =>
       match found, queue !! queue_pos with
       | None, Some q =>
           '(queue', found') ←
             for_each (seq 0 CUCKOO_BUCKET_SIZE)
               (relocate_scan_cell immovable queue_pos (q_bucket q)) (queue, None);
           mret (inl (queue', S queue_pos, found'))
       | _, _ => mret (inr (queue, queue_pos, found))
       end)
    ([mk_queue_entry bucket_num (mk_read_lock bucket_num 0) 0 0], 0%nat, None).

(** Upgrade the locks from queue entry [occ] up to the first one; [n]
    counts the buckets locked so far. *)
Fixpoint relocate_upgrade (fuel : nat) (queue : list relocation_queue_entry) (occ : nat) (n : nat)
    : MS (si_status * nat) :=
  match fuel with
  | O => spin
  | S f =>
      if (occ =? 0)%nat then mret (SI_OK, n)
      else
        q ← lift (queue !! occ);
        ret ← upgrade_bucket_lock (q_read_lock q);
        match ret with
        | SI_RETRY => mret (SI_RETRY, n)
        | _ => relocate_upgrade f queue (q_parent_queue_pos q) (S n)
        end
  end.

(** Move each entry of the path one step towards the free cell; returns the
    cell freed in the first bucket and the last entry moved. *)
Fixpoint relocate_move (fuel : nat) (queue : list relocation_queue_entry) (occ child_idx : nat)
    (free_cell : pos) : MS (pos * ct_entry) :=
  match fuel with
  | O => spin
  | S f =>
      q ← lift (queue !! occ);
      let occupied_cell := mk_pos (q_bucket q) child_idx in
      buf ← read_entry_non_atomic occupied_cell;
      let entry_buf :=
        set_parent_color_and_flags (parent_color_and_flags buf .^ FLAG_SECONDARY_BUCKET) buf in
      _ ← write_entry free_cell entry_buf;
      _ ← move_entry_lock free_cell occupied_cell;
      if (occ =? 0)%nat then mret (occupied_cell, entry_buf)
      else relocate_move f queue (q_parent_queue_pos q) (q_child_idx q) occupied_cell
  end.

(** Release [n] buckets from queue entry [occ] upwards; returns where it stops. *)
Fixpoint relocate_release (n : nat) (queue : list relocation_queue_entry) (occ : nat) : MS nat :=
  match n with
  | O => mret occ
  | S k =>
      q ← lift (queue !! occ);
      _ ← release_bucket_lock (q_bucket q);
      relocate_release k queue (q_parent_queue_pos q)
  end.

(** [relocate_entry]: [SI_OK] with the freed cell, [SI_RETRY] or [SI_FAIL]. *)
(** The rest of [relocate_entry], when the bucket of the free cell is locked:
    the status, the cell freed, and the queue position at which the release of
    the locks stops. *)
Definition relocate_path (queue : list relocation_queue_entry) (queue_pos : nat) (fc : found_cell)
    : MS (si_status * option pos * nat) :=
  let occ := (queue_pos - 1)%nat in
  '(status, n) ← relocate_upgrade (length queue) queue occ 1;
  output ←
    (match status with
     | SI_RETRY => mret None
     | _ =>
         '(occupied_cell, entry_buf) ←
           relocate_move (length queue) queue occ (fc_child_idx fc) (fc_free_cell fc);
         let cleared := set_color_and_tag_byte (INVALID_COLOR .<< TAG_BITS)
                          (set_parent_color_and_flags UNUSED_HEADER entry_buf) in
         _ ← write_entry occupied_cell cleared;
         mret (Some occupied_cell)
     end);
  _ ← release_bucket_lock (pos_bucket (fc_free_cell fc));
  stop ← relocate_release (n - 1) queue occ;
  mret (status, output, stop).

Definition relocate_entry (bucket_num : Z) (immovable : option pos) : MS (si_status * option pos) :=
  locked ← bucket_write_locked bucket_num;
  _ ← assert locked;
  '(queue, queue_pos, found) ← relocate_search immovable bucket_num;
  match found with
  | None => mret (SI_FAIL, None)
  | Some fc =>
      ret ← upgrade_bucket_lock (fc_read_lock fc);
      match ret with
      | SI_RETRY => mret (SI_RETRY, None)
      | _ =>
          '(status, output, stop) ← relocate_path queue queue_pos fc;
          _ ← assert (stop =? 0)%nat;
          mret (status, output)
      end
  end.

(** ** Adding an entry *)

(** Where the new entry goes: a cell of a bucket this thread has locked,
    the flags it gets there, and the read lock on the other bucket. *)
Record add_target := mk_target {
  at_cell : pos;
  at_flags : Z;
  at_alternate : ct_bucket_read_lock;
}.

(** The first half of [add_entry], up to the label [cell_found]. *)
Definition add_entry_find_cell (prefix_hash : Z) (immovable : option pos)
    : MS (si_status * option add_target) :=
  t ← get_trie;
  let primary := hash_to_bucket prefix_hash in
  let secondary := mix_bucket t primary (hash_to_tag prefix_hash) in
  primary_read_lock ← read_lock_bucket primary;
  secondary_read_lock ← read_lock_bucket secondary;
  b1 ← get_bucket primary;
  match find_free_cell_in_bucket b1 with
  | Some c =>
      ret ← upgrade_bucket_lock primary_read_lock;
      match ret with
      | SI_RETRY => mret (SI_RETRY, None)
      | _ => mret (SI_OK, Some (mk_target (mk_pos primary c) 0 secondary_read_lock))
      end
  | None =>
      b2 ← get_bucket secondary;
      match find_free_cell_in_bucket b2 with
      | Some c =>
          ret ← upgrade_bucket_lock secondary_read_lock;
          match ret with
          | SI_RETRY => mret (SI_RETRY, None)
          | _ => mret (SI_OK, Some (mk_target (mk_pos secondary c) FLAG_SECONDARY_BUCKET primary_read_lock))
          end
      | None =>
          ret ← upgrade_bucket_lock primary_read_lock;
          match ret with
          | SI_RETRY => mret (SI_RETRY, None)
          | _ =>
              '(ret2, cell) ← relocate_entry primary immovable;
              match ret2, cell with
              | SI_OK, Some p => mret (SI_OK, Some (mk_target p 0 secondary_read_lock))
              | _, _ => _ ← release_bucket_lock primary; mret (ret2, None)
              end
          end
      end
  end.

(** [add_entry]: on [SI_OK], the new cell and the entry as written there. *)
Definition add_entry (prefix_hash : Z) (entry : ct_entry) (immovable : option pos) (lock : bool)
    : MS (si_status * option (pos * ct_entry)) :=
  '(status, target) ← add_entry_find_cell prefix_hash immovable;
  match target with
  | None => mret (status, None)
  | Some tg =>
      t ← get_trie;
      let result := at_cell tg in
      let primary := hash_to_bucket prefix_hash in
      let secondary := mix_bucket t primary (hash_to_tag prefix_hash) in
      _ ← when lock (write_lock_entry_in_locked_bucket result);
      b1 ← get_bucket primary;
      b2 ← get_bucket secondary;
      let unused_color := unused_color_in_pair b1 b2 in
      _ ← assert (unused_color <=? MAX_VALID_COLOR);
      let entry' := entry_set_color_and_tag ((unused_color .<< TAG_BITS) .| hash_to_tag prefix_hash)
                      (entry_add_flags (at_flags tg) entry) in
      _ ← write_entry result entry';
      ret ← read_unlock_bucket (at_alternate tg);
      match ret with
      | SI_OK =>
          _ ← release_bucket_lock (pos_bucket result);
          mret (SI_OK, Some (result, entry'))
      | _ =>
          _ ← remove_entry_by_address result;
          _ ← release_bucket_lock (pos_bucket result);
          mret (SI_RETRY, None)
      end
  end.

End table.
