(* ===== verification/Contents.v ===== *)
(** * What the hash table contains

    The table is seen as a map from a prefix hash and a color to an entry,
    wherever in the bucket pair the entry lies: [contents]. [table_ok] is the
    invariant of the bucket array, [BucketLaws] what a scan of a bucket
    promises to the code that searches a pair. *)

From S2P Require Import Prelude Bits Entry KeyObject State Hashing Atomics Table.
From stdpp Require Import base list gmap.
From Stdlib Require Import ZArith Lia Bool.

#[local] Open Scope Z_scope.

(** ** Buckets *)

Record bucket_ok (b : ct_bucket) : Prop := mk_bucket_ok {
  bk_length : length (cells b) = CUCKOO_BUCKET_SIZE;
  bk_cells : Forall entry_ok (cells b);
  bk_word : 0 <= write_lock_and_seq b < 2 ^ 32;
}.

(** No write is in progress. *)
Definition quiescent (b : ct_bucket) : Prop := write_lock_and_seq b .& SEQ_INCREMENT = 0.

(** An unused cell has the invalid color, a used one a valid color. *)
Definition used (e : ct_entry) : bool := negb (entry_type e =? TYPE_UNUSED).
Definition cell_ok (e : ct_entry) : Prop :=
  if used e then entry_color e <= MAX_VALID_COLOR
  else entry_color e = INVALID_COLOR /\ entry_parent_color e = INVALID_COLOR.

Definition matches_color (sec : bool) (tag color : Z) (e : ct_entry) : bool :=
  Bool.eqb (entry_is_secondary e) sec && (entry_tag e =? tag) && (entry_color e =? color).

Definition matches_parent (sec : bool) (tag last_sym parent_color : Z) (e : ct_entry) : bool :=
  Bool.eqb (entry_is_secondary e) sec && (entry_tag e =? tag) && (last_symbol e =? last_sym)
  && (entry_parent_color e =? parent_color).

(** ** What a scan promises *)

(** The result of a search for a cell satisfying [P]. *)
Definition scan_result (P : ct_entry -> bool) (b : ct_bucket) (r : option (nat * ct_entry * Z)) : Prop :=
  match r with
  | Some (c, e, seq) => cells b !! c = Some e /\ P e = true /\ seq = write_lock_and_seq b
  | None => forall c e, cells b !! c = Some e -> P e = false
  end.

Class BucketLaws `{BucketOps} : Prop := {
  find_color_law b sec tag color :
    bucket_ok b -> quiescent b -> Forall cell_ok (cells b) -> 0 <= tag < 16 -> 0 <= color <= MAX_VALID_COLOR ->
    scan_result (fun e => used e && matches_color sec tag color e) b (find_entry_in_bucket_by_color b sec tag color);
  find_parent_law b sec tag last_sym parent_color :
    bucket_ok b -> quiescent b -> Forall cell_ok (cells b) ->
    0 <= tag < 16 -> is_byte last_sym -> 0 <= parent_color <= MAX_VALID_COLOR ->
    scan_result (fun e => used e && matches_parent sec tag last_sym parent_color e) b
      (find_entry_in_bucket_by_parent b sec tag last_sym parent_color);
  unused_color_law b1 b2 :
    bucket_ok b1 -> bucket_ok b2 ->
    0 <= unused_color_in_pair b1 b2 <= MAX_VALID_COLOR /\
    forall c e, cells b1 !! c = Some e \/ cells b2 !! c = Some e -> entry_color e <> unused_color_in_pair b1 b2;
  by_parent_law e : used e = true -> by_parent_assertion e = true;
}.

(** ** The table *)

Definition in_table (t : cuckoo_trie) (p : pos) : Prop := 0 <= pos_bucket p < num_buckets t.

(** The pair and color that identify the entry in cell [p]. *)
Definition entry_hash (t : cuckoo_trie) (p : pos) (e : ct_entry) : Z :=
  16 * entry_primary t e (pos_bucket p) + entry_tag e.
Definition entry_key (t : cuckoo_trie) (p : pos) (e : ct_entry) : Z * Z :=
  (entry_hash t p e, entry_color e).

(** The entry without the flag that depends on where it lies. *)
Definition clear_secondary (e : ct_entry) : ct_entry :=
  set_parent_color_and_flags (parent_color_and_flags e .& bnot 8 FLAG_SECONDARY_BUCKET) e.

(** Cell [p] holds the entry of key [k]. *)
Definition holds (t : cuckoo_trie) (p : pos) (k : Z * Z) (e : ct_entry) : Prop :=
  in_table t p /\ trie_entry t p = Some e /\ used e = true /\ entry_key t p e = k.

Definition contents (t : cuckoo_trie) (k : Z * Z) (e : ct_entry) : Prop :=
  exists p e0, holds t p k e0 /\ e = clear_secondary e0.

Record table_ok (t : cuckoo_trie) : Prop := mk_table_ok {
  tb_params : params_ok t;
  tb_length : Z.of_nat (length (buckets t)) = num_buckets t + 1;
  tb_buckets : Forall bucket_ok (buckets t);
  tb_quiescent : Forall quiescent (buckets t);
  tb_cells : forall p e, in_table t p -> trie_entry t p = Some e -> cell_ok e;
  tb_unique : forall p p' k e e', holds t p k e -> holds t p' k e' -> p = p';
}.

(** No bucket is locked. *)
Definition unlocked (t : cuckoo_trie) : Prop :=
  forall b bk, trie_bucket t b = Some bk -> write_lock bk = 0.

Lemma trie_entry_bucket t p e :
  trie_entry t p = Some e ->
  exists b, trie_bucket t (pos_bucket p) = Some b /\ cells b !! pos_cell p = Some e.
Proof.
  unfold trie_entry. intros H. destruct (trie_bucket t (pos_bucket p)) as [b|]; [|discriminate].
  exists b. split; [done|exact H].
Qed.

Section table.
Variable t : cuckoo_trie.
Hypothesis t_ok : table_ok t.

Lemma bucket_exists b : 0 <= b <= num_buckets t -> exists bk, trie_bucket t b = Some bk.
Proof.
  intros Hb. pose proof (tb_length t t_ok). destruct (zlookup_lt (buckets t) b ltac:(lia)) as [bk E].
  exists bk. exact E.
Qed.

Lemma trie_bucket_ok b bk : trie_bucket t b = Some bk -> bucket_ok bk /\ quiescent bk.
Proof.
  unfold trie_bucket, zlookup. destruct (0 <=? b); [|discriminate]. intros E. split.
  - exact (Forall_lookup_1 _ _ _ _ (tb_buckets t t_ok) E).
  - exact (Forall_lookup_1 _ _ _ _ (tb_quiescent t t_ok) E).
Qed.

Lemma trie_entry_ok p e : trie_entry t p = Some e -> entry_ok e.
Proof.
  intros H. destruct (trie_entry_bucket t p e H) as (b & Hb & He).
  destruct (trie_bucket_ok _ _ Hb) as [Hok _]. exact (Forall_lookup_1 _ _ _ _ (bk_cells b Hok) He).
Qed.

Lemma entry_color_bound e : entry_ok e -> 0 <= entry_color e < 16.
Proof.
  intros H. pose proof (color_and_tag_byte e H) as Hb. unfold is_byte in Hb.
  unfold entry_color, TAG_BITS. rewrite Z.shiftr_div_pow2 by lia. change (2 ^ 4) with 16. zdiv.
Qed.

Lemma entry_parent_color_bound e : entry_ok e -> 0 <= entry_parent_color e < 16.
Proof.
  intros H. pose proof (flags_byte e H) as Hb. unfold is_byte in Hb.
  unfold entry_parent_color, PARENT_COLOR_SHIFT. rewrite Z.shiftr_div_pow2 by lia. change (2 ^ 4) with 16. zdiv.
Qed.

Lemma holds_ok p k e :
  holds t p k e -> entry_ok e /\ hash_ok t (fst k) /\ 0 <= snd k <= MAX_VALID_COLOR.
Proof.
  intros (Hp & He & Hu & <-). pose proof (trie_entry_ok p e He) as Hok. split; [done|].
  unfold entry_key, entry_hash. cbn [fst snd]. split.
  - apply hash_of_parts; [apply tb_params, t_ok| |now apply entry_tag_bound].
    apply entry_primary_range; [apply tb_params, t_ok|done|exact Hp].
  - pose proof (tb_cells t t_ok p e Hp He) as Hc. unfold cell_ok in Hc. rewrite Hu in Hc.
    pose proof (entry_color_bound e Hok). lia.
Qed.

(** Reading a bucket and a cell. *)
Lemma get_bucket_spec s b bk : trie s = t -> trie_bucket t b = Some bk -> get_bucket b s = Ret bk s.
Proof. intros <- E. unfold get_bucket, get_trie. erewrite bind_Ret by reflexivity. now rewrite E. Qed.

Lemma get_entry_spec s p e : trie s = t -> trie_entry t p = Some e -> get_entry p s = Ret e s.
Proof.
  intros Hs He. destruct (trie_entry_bucket t p e He) as (b & Hb & Hc). unfold get_entry.
  erewrite bind_Ret by (apply get_bucket_spec; eassumption). unfold bucket_cell. now rewrite Hc.
Qed.

(** ** Where an entry of a pair lies *)

Lemma entry_hash_parts p e :
  in_table t p -> entry_ok e ->
  hash_ok t (entry_hash t p e) /\
  hash_to_bucket (entry_hash t p e) = entry_primary t e (pos_bucket p) /\
  hash_to_tag (entry_hash t p e) = entry_tag e.
Proof.
  intros Hp He. apply hash_of_parts; [apply tb_params, t_ok| |now apply entry_tag_bound].
  apply entry_primary_range; [apply tb_params, t_ok|done|exact Hp].
Qed.

Lemma entry_position p e :
  in_table t p -> entry_ok e ->
  pos_bucket p = if entry_is_secondary e
                 then mix_bucket t (hash_to_bucket (entry_hash t p e)) (hash_to_tag (entry_hash t p e))
                 else hash_to_bucket (entry_hash t p e).
Proof.
  intros Hp He. destruct (entry_hash_parts p e Hp He) as (_ & -> & ->). unfold entry_primary.
  destruct (entry_is_secondary e); [|done]. symmetry.
  apply mix_unmix; [apply tb_params, t_ok|exact Hp|now apply entry_tag_bound].
Qed.

(** A cell of the pair with the right flag and tag has the pair's hash. *)
Lemma position_hash h (sec : bool) c e :
  hash_ok t h -> entry_ok e -> entry_is_secondary e = sec -> entry_tag e = hash_to_tag h ->
  entry_hash t (mk_pos (if sec then mix_bucket t (hash_to_bucket h) (hash_to_tag h) else hash_to_bucket h) c) e = h.
Proof.
  intros Hh He Hs Ht. destruct (hash_parts t (tb_params t t_ok) h Hh) as (Hb & Htag & E).
  unfold entry_hash, entry_primary. cbn [pos_bucket]. rewrite Hs, Ht. destruct sec.
  - rewrite unmix_mix by (done || apply tb_params, t_ok). lia.
  - lia.
Qed.

(** ** Searching a pair *)

(** A local copy that reads the current entry; [validate_entry] accepts it. *)
Record local_ok (l : ct_entry_local_copy) : Prop := mk_local_ok {
  lo_in_table : in_table t (last_pos l);
  lo_entry : trie_entry t (last_pos l) = Some (lc_value l);
  lo_seq : exists bk, trie_bucket t (pos_bucket (last_pos l)) = Some bk /\ seq_part (last_seq l) = seq_part (write_lock_and_seq bk);
  lo_primary : primary_bucket l = hash_to_bucket (entry_hash t (last_pos l) (lc_value l));
}.

Section pair.
Context `{BucketOps}.
Variable search : bool -> ct_bucket -> option (nat * ct_entry * Z).
Variable P : bool -> ct_entry -> bool.
Variable h : Z.
Hypothesis h_ok : hash_ok t h.
Hypothesis search_ok : forall sec b,
  bucket_ok b -> quiescent b -> Forall cell_ok (cells b) -> scan_result (P sec) b (search sec b).
Hypothesis P_pair : forall sec e, P sec e = true -> entry_is_secondary e = sec /\ entry_tag e = hash_to_tag h.

Let pair_bucket (sec : bool) : Z :=
  if sec then mix_bucket t (hash_to_bucket h) (hash_to_tag h) else hash_to_bucket h.

Lemma pair_bucket_range sec : 0 <= pair_bucket sec < num_buckets t.
Proof.
  destruct (hash_parts t (tb_params t t_ok) h h_ok) as (Hb & Htag & _). unfold pair_bucket.
  destruct sec; [|done]. apply mix_bucket_range; (done || apply tb_params, t_ok).
Qed.

Lemma pair_scan sec bk :
  trie_bucket t (pair_bucket sec) = Some bk -> bucket_ok bk /\ scan_result (P sec) bk (search sec bk).
Proof.
  intros Hb. destruct (trie_bucket_ok _ _ Hb) as [Hok Hq]. split; [done|]. apply search_ok; [done..|].
  apply Forall_lookup_2. intros c e Hc.
  apply (tb_cells t t_ok (mk_pos (pair_bucket sec) c)); [apply pair_bucket_range|].
  unfold trie_entry. cbn. now rewrite Hb.
Qed.

(** What a successful search of one of the two buckets gives. *)
Lemma pair_hit sec bk c e seq :
  trie_bucket t (pair_bucket sec) = Some bk -> search sec bk = Some (c, e, seq) ->
  let l := mk_local e (mk_pos (pair_bucket sec) c) (hash_to_bucket h) seq in
  local_ok l /\ entry_hash t (last_pos l) (lc_value l) = h /\ P sec e = true /\ entry_is_secondary e = sec.
Proof.
  intros Hb E l. destruct (pair_scan sec bk Hb) as [Hok Hs]. rewrite E in Hs. destruct Hs as (Hc & HP & ->).
  destruct (P_pair sec e HP) as [Hsec Htag].
  pose proof (Forall_lookup_1 _ _ _ _ (bk_cells bk Hok) Hc) as He.
  pose proof (position_hash h sec c e h_ok He Hsec Htag) as Hh. fold (pair_bucket sec) in Hh.
  split; [split|done]; cbn.
  - apply pair_bucket_range.
  - unfold trie_entry. cbn. now rewrite Hb.
  - exists bk. done.
  - now rewrite Hh.
Qed.

Lemma find_in_pair_spec s p e :
  trie s = t -> in_table t p -> trie_entry t p = Some e -> entry_hash t p e = h ->
  P (entry_is_secondary e) e = true ->
  exists l, find_in_pair search (hash_to_bucket h) (hash_to_tag h) s = Ret l s /\
    local_ok l /\ entry_hash t (last_pos l) (lc_value l) = h /\
    P (entry_is_secondary (lc_value l)) (lc_value l) = true.
Proof.
  intros Hs Hp He Hh HP. pose proof (trie_entry_ok p e He) as Hok.
  pose proof (entry_position p e Hp Hok) as Epos. rewrite Hh in Epos. fold (pair_bucket true) (pair_bucket false) in Epos.
  destruct (trie_entry_bucket t p e He) as (bk & Hbk & Hc).
  destruct (bucket_exists (pair_bucket false)) as [b1 Hb1]; [pose proof (pair_bucket_range false); lia|].
  destruct (bucket_exists (pair_bucket true)) as [b2 Hb2]; [pose proof (pair_bucket_range true); lia|].
  unfold find_in_pair. change FIND_ROUNDS with (S 99).
  destruct (search false b1) as [[[c1 e1] seq1]|] eqn:E1.
  - destruct (pair_hit false b1 c1 e1 seq1 Hb1 E1) as (H1 & H2 & H3 & H4).
    eexists. split; [|split; [exact H1|split; [exact H2|cbn; rewrite H4; exact H3]]].
    apply loop_inr. erewrite bind_Ret by (apply get_bucket_spec; eassumption). rewrite E1. reflexivity.
  - destruct (search true b2) as [[[c2 e2] seq2]|] eqn:E2.
    + destruct (pair_hit true b2 c2 e2 seq2 Hb2 E2) as (H1 & H2 & H3 & H4).
      eexists. split; [|split; [exact H1|split; [exact H2|cbn; rewrite H4; exact H3]]].
      apply loop_inr. erewrite bind_Ret by (apply get_bucket_spec; eassumption).
      rewrite E1. unfold get_trie at 1. erewrite bind_Ret by reflexivity. rewrite Hs.
      erewrite bind_Ret by (apply get_bucket_spec; [done|exact Hb2]). rewrite E2. reflexivity.
    + exfalso. rewrite Epos in Hbk.
      destruct (entry_is_secondary e) eqn:Esec.
      * rewrite Hb2 in Hbk. injection Hbk as <-. destruct (pair_scan true b2 Hb2) as [_ Hr]. rewrite E2 in Hr. rewrite (Hr _ _ Hc) in HP. discriminate.
      * rewrite Hb1 in Hbk. injection Hbk as <-. destruct (pair_scan false b1 Hb1) as [_ Hr]. rewrite E1 in Hr. rewrite (Hr _ _ Hc) in HP. discriminate.
Qed.
End pair.

Section search.
Context `{BucketLaws}.

(** The search by color finds the entry of the pair with that color. *)
Lemma find_by_color_spec s p h c e :
  trie s = t -> holds t p (h, c) e ->
  exists l, find_entry_in_pair_by_color (hash_to_bucket h) (hash_to_tag h) c s = Ret l s /\
    local_ok l /\ last_pos l = p /\ lc_value l = e.
Proof.
  intros Hs Hh. pose proof Hh as (Hp & He & Hu & Hk). destruct (holds_ok _ _ _ Hh) as (Hok & Hhok & Hc).
  cbn [fst snd] in Hhok, Hc. unfold entry_key in Hk. injection Hk as Hkh Hkc.
  destruct (hash_parts t (tb_params t t_ok) h Hhok) as (Hb & Htag & _).
  destruct (find_in_pair_spec (fun sec b => find_entry_in_bucket_by_color b sec (hash_to_tag h) c)
              (fun sec e => used e && matches_color sec (hash_to_tag h) c e) h Hhok) with (s := s) (p := p) (e := e)
    as (l & El & Hl & Hlh & HlP); try done.
  - intros sec b Hbok Hq Hcells. now apply find_color_law.
  - intros sec e'. unfold matches_color. rewrite !andb_true_iff, Bool.eqb_true_iff, !Z.eqb_eq. tauto.
  - unfold matches_color. rewrite !andb_true_iff, Bool.eqb_true_iff, !Z.eqb_eq.
    repeat split; [done| |done]. rewrite <- Hkh. symmetry. now apply entry_hash_parts.
  - exists l. split; [exact El|]. split; [done|].
    unfold matches_color in HlP. rewrite !andb_true_iff, !Z.eqb_eq in HlP.
    assert (Hpos : last_pos l = p).
    { apply (tb_unique t t_ok _ _ (h, c) (lc_value l) e); [|exact Hh].
      split; [apply Hl|]. split; [apply Hl|]. split; [tauto|]. unfold entry_key. f_equal; tauto. }
    split; [done|]. pose proof (lo_entry l Hl) as E. rewrite Hpos in E. congruence.
Qed.

(** The search by parent finds an entry of the pair with that last symbol
    and parent color. *)
Lemma find_by_parent_spec s p h e :
  trie s = t -> in_table t p -> trie_entry t p = Some e -> entry_hash t p e = h ->
  used e = true -> entry_parent_color e <= MAX_VALID_COLOR ->
  exists l, find_entry_in_pair_by_parent (hash_to_bucket h) (hash_to_tag h) (last_symbol e) (entry_parent_color e) s = Ret l s /\
    local_ok l /\ entry_hash t (last_pos l) (lc_value l) = h /\ used (lc_value l) = true /\
    last_symbol (lc_value l) = last_symbol e /\ entry_parent_color (lc_value l) = entry_parent_color e.
Proof.
  intros Hs Hp He Hh Hu Hpc. pose proof (trie_entry_ok p e He) as Hok.
  destruct (entry_hash_parts p e Hp Hok) as (Hhok & _ & Etag). rewrite Hh in Hhok, Etag.
  destruct (hash_parts t (tb_params t t_ok) h Hhok) as (Hb & Htag & _).
  destruct (find_in_pair_spec
      (fun sec b => find_entry_in_bucket_by_parent b sec (hash_to_tag h) (last_symbol e) (entry_parent_color e))
      (fun sec e' => used e' && matches_parent sec (hash_to_tag h) (last_symbol e) (entry_parent_color e) e') h Hhok)
    with (s := s) (p := p) (e := e) as (l & El & Hl & Hlh & HlP); try done.
  - intros sec b Hbok Hq Hcells. apply find_parent_law; try done; [now apply entry_byte|].
    split; [now apply entry_parent_color_bound|done].
  - intros sec e'. unfold matches_parent. rewrite !andb_true_iff, Bool.eqb_true_iff, !Z.eqb_eq. tauto.
  - unfold matches_parent. rewrite !andb_true_iff, Bool.eqb_true_iff, !Z.eqb_eq. repeat split; (done || lia).
  - unfold matches_parent in HlP. rewrite !andb_true_iff, !Z.eqb_eq in HlP. exists l.
    split; [|split; [done|split; [done|tauto]]]. unfold find_entry_in_pair_by_parent. erewrite bind_Ret by exact El.
    now erewrite bind_Ret by (apply assert_true, by_parent_law; tauto).
Qed.
End search.

End table.
