(* ===== verification/Store.v ===== *)
(** * Stores to the table: what the lock word and entry writes do

    Exact results of the primitives of atomics.c on a table in which no
    write is in progress, and when they preserve [table_ok]. *)

From S2P Require Import Prelude Bits Entry KeyObject State Hashing Atomics Table Contents.
From stdpp Require Import base list gmap.
From Stdlib Require Import ZArith Lia Bool.

#[local] Open Scope Z_scope.

(** ** The lock word: a sequence number above the lock byte *)

Definition word_ok (w : Z) : Prop := 0 <= w < 2 ^ 32.

Lemma seq_part_eq w : word_ok w -> seq_part w = 256 * (w / 256).
Proof.
  intros Hw. unfold seq_part. apply Z.bits_inj'. intros i Hi.
  rewrite Z.land_spec, testbit_bnot by lia. change 255 with (Z.ones 8). rewrite testbit_ones by lia.
  change 256 with (2 ^ 8). rewrite Z.mul_comm, <- Z.shiftl_mul_pow2, testbit_shl by lia.
  destruct (Z.leb_spec 8 i).
  - rewrite Z.div_pow2_bits by lia. replace (i - 8 + 8) with i by lia.
    destruct (Z.lt_ge_cases i 32); [zcases; now rewrite andb_true_r|].
    now rewrite (testbit_high 32) by (exact Hw || lia).
  - zcases. apply andb_false_r.
Qed.

Lemma land_255 w : w .& 255 = w mod 256.
Proof. change 255 with (Z.ones 8). now rewrite Z.land_ones by lia. Qed.

Lemma set_lock_byte w v : word_ok w -> 0 <= v < 256 -> (w .& bnot 32 255) .| v = 256 * (w / 256) + v.
Proof.
  intros Hw Hv. fold (seq_part w). rewrite seq_part_eq by done. rewrite <- Z.add_lor_land.
  assert (E : Z.land (256 * (w / 256)) v = 0); [|lia].
  apply Z.bits_inj'. intros i Hi. rewrite Z.land_spec, Z.bits_0. change 256 with (2 ^ 8).
  rewrite Z.mul_comm, <- Z.shiftl_mul_pow2, testbit_shl by lia. destruct (Z.leb_spec 8 i); [|done].
  now rewrite (testbit_high 8 v), andb_false_r by (lia || done).
Qed.

Lemma seq_bit w : word_ok w -> (w .& SEQ_INCREMENT = 0 <-> (w / 256) mod 2 = 0).
Proof.
  intros _. change SEQ_INCREMENT with (2 ^ 8). rewrite Zmod_odd.
  replace (Z.odd (w / 256)) with (Z.testbit w 8)
    by (rewrite Z.testbit_odd, Z.shiftr_div_pow2 by lia; reflexivity).
  split.
  - intros E. apply (f_equal (fun x => Z.testbit x 8)) in E.
    rewrite Z.land_spec, Z.pow2_bits_true, andb_true_r, Z.bits_0 in E by lia. now rewrite E.
  - intros E. destruct (Z.testbit w 8) eqn:E8; [discriminate|].
    apply Z.bits_inj'. intros i Hi. rewrite Z.land_spec, Z.pow2_bits_eqb, Z.bits_0 by lia.
    destruct (Z.eqb_spec 8 i) as [<-|]; [now rewrite E8|apply andb_false_r].
Qed.

(** The word after a write. *)
Definition next_word (w : Z) : Z := u32 (w + 2 * SEQ_INCREMENT).

Lemma next_word_ok w : word_ok w -> word_ok (next_word w).
Proof. intros. apply (wrap_bound 32). lia. Qed.

Lemma next_word_eq w : word_ok w -> next_word w = 256 * ((w / 256 + 2) mod 2 ^ 24) + w mod 256.
Proof.
  intros Hw. unfold word_ok in Hw. unfold next_word, wrap. change (2 * SEQ_INCREMENT) with 512.
  symmetry. apply (Z.mod_unique _ _ ((w / 256 + 2) / 2 ^ 24)); [left|]; change (2 ^ 32) with (256 * 2 ^ 24); zdiv.
Qed.

Lemma next_word_lock w : word_ok w -> next_word w .& 255 = w .& 255.
Proof. intros Hw. rewrite !land_255, next_word_eq by done. zdiv. Qed.

Lemma next_word_quiescent w : word_ok w -> w .& SEQ_INCREMENT = 0 -> next_word w .& SEQ_INCREMENT = 0.
Proof.
  intros Hw Hq. apply seq_bit in Hq; [|done]. apply seq_bit; [now apply next_word_ok|].
  rewrite next_word_eq by done. change (2 ^ 24) with (2 * 8388608). zdiv.
Qed.

Lemma set_write_lock_word v bk :
  word_ok (write_lock_and_seq bk) -> 0 <= v < 256 ->
  write_lock_and_seq (set_write_lock v bk) = 256 * (write_lock_and_seq bk / 256) + v.
Proof. intros Hw Hv. cbn. now apply set_lock_byte. Qed.

Section set_lock.
Variables (v : Z) (bk : ct_bucket).
Hypothesis bk_ok : bucket_ok bk.
Hypothesis v_ok : 0 <= v < 256.

Let w := write_lock_and_seq bk.

Lemma set_write_lock_range : word_ok (write_lock_and_seq (set_write_lock v bk)).
Proof.
  pose proof (bk_word bk bk_ok). unfold word_ok in *. rewrite set_write_lock_word by done. zdiv.
Qed.

Lemma set_write_lock_ok : bucket_ok (set_write_lock v bk).
Proof. destruct bk_ok as [H1 H2 H3]. split; [exact H1|exact H2|apply set_write_lock_range]. Qed.

Lemma set_write_lock_div : write_lock_and_seq (set_write_lock v bk) / 256 = w / 256.
Proof. rewrite set_write_lock_word by (done || apply bk_ok). fold w. zdiv. Qed.

Lemma set_write_lock_seq : seq_part (write_lock_and_seq (set_write_lock v bk)) = seq_part w.
Proof. rewrite !seq_part_eq by (apply set_write_lock_range || apply bk_ok). now rewrite set_write_lock_div. Qed.

Lemma set_write_lock_quiescent : quiescent bk -> quiescent (set_write_lock v bk).
Proof.
  unfold quiescent. rewrite !seq_bit by (apply set_write_lock_range || apply bk_ok). now rewrite set_write_lock_div.
Qed.

Lemma write_lock_set : write_lock (set_write_lock v bk) = v.
Proof.
  unfold write_lock. rewrite land_255, set_write_lock_word by (done || apply bk_ok). zdiv.
Qed.
End set_lock.

(** ** A store to a bucket *)

Definition upd_bucket (t : cuckoo_trie) (b : Z) (bk : ct_bucket) : cuckoo_trie :=
  set_buckets (zset (buckets t) b bk) t.

Lemma trie_bucket_upd t b bk bk' b' :
  trie_bucket t b = Some bk -> trie_bucket (upd_bucket t b bk') b' = if b' =? b then Some bk' else trie_bucket t b'.
Proof.
  intros Hb. unfold trie_bucket, upd_bucket. cbn. apply zlookup_Some in Hb.
  destruct (Z.eqb_spec b' b) as [->|]; [now apply zlookup_zset_eq|now apply zlookup_zset_ne].
Qed.

Lemma upd_bucket_upd t b bk bk' : upd_bucket (upd_bucket t b bk) b bk' = upd_bucket t b bk'.
Proof. unfold upd_bucket, set_buckets. cbn. now rewrite zset_zset_eq. Qed.

Lemma upd_bucket_id t b bk : trie_bucket t b = Some bk -> upd_bucket t b bk = t.
Proof. intros Hb. unfold upd_bucket. rewrite zset_id by exact Hb. now destruct t. Qed.

Lemma trie_entry_upd t b bk bk' p :
  trie_bucket t b = Some bk ->
  trie_entry (upd_bucket t b bk') p = if pos_bucket p =? b then cells bk' !! pos_cell p else trie_entry t p.
Proof.
  intros Hb. unfold trie_entry. rewrite (trie_bucket_upd t b bk) by done. destruct (pos_bucket p =? b); done.
Qed.

Lemma get_bucket_eq s b bk : trie_bucket (trie s) b = Some bk -> get_bucket b s = Ret bk s.
Proof. intros E. unfold get_bucket, get_trie. erewrite bind_Ret by reflexivity. now rewrite E. Qed.

Lemma get_entry_eq s p e : trie_entry (trie s) p = Some e -> get_entry p s = Ret e s.
Proof.
  intros He. destruct (trie_entry_bucket _ p e He) as (b & Hb & Hc). unfold get_entry.
  erewrite bind_Ret by (apply get_bucket_eq; exact Hb). unfold bucket_cell. now rewrite Hc.
Qed.

Lemma put_bucket_spec s b bk bk' :
  trie_bucket (trie s) b = Some bk -> put_bucket b bk' s = Ret tt (set_trie (upd_bucket (trie s) b bk') s).
Proof. intros Hb. unfold put_bucket. erewrite bind_Ret by (apply get_bucket_eq; exact Hb). reflexivity. Qed.

(** Same state up to the bucket array. *)
Lemma set_trie_set_trie t t' s : set_trie t (set_trie t' s) = set_trie t s.
Proof. reflexivity. Qed.

(** ** The lock byte *)

Lemma try_take_lock_spec s b bk :
  trie_bucket (trie s) b = Some bk ->
  try_take_lock b s = Ret (write_lock bk =? 0) (set_trie (upd_bucket (trie s) b (set_write_lock 1 bk)) s).
Proof.
  intros Hb. unfold try_take_lock. erewrite bind_Ret by (apply get_bucket_eq; exact Hb).
  erewrite bind_Ret by (eapply put_bucket_spec; exact Hb). reflexivity.
Qed.

Lemma unlock_byte_spec s b bk :
  trie_bucket (trie s) b = Some bk ->
  unlock_byte b s = Ret tt (set_trie (upd_bucket (trie s) b (set_write_lock 0 bk)) s).
Proof.
  intros Hb. unfold unlock_byte. erewrite bind_Ret by (apply get_bucket_eq; exact Hb).
  eapply put_bucket_spec; exact Hb.
Qed.

(** ** Writing an entry *)

(** The two overlapping stores write the whole entry. *)
Lemma write_parts_eq src target : entry_ok src -> entry_ok target -> write_parts src target = src.
Proof.
  intros Hs Ht. unfold write_parts.
  set (t1 := store_bytes 8 target 0 _).
  assert (H1 : entry_ok t1) by (apply store_entry_ok; [done|entry_lia]).
  apply entry_bits_eq; [apply store_entry_ok; [done|entry_lia]|done|]. intros i j Hi Hj.
  destruct H1 as [Hl1 Hb1]. rewrite byte_at_store_bytes by entry_lia. case_decide as Hd.
  - rewrite testbit_byte_at_le_split, testbit_wrap, Z.shiftr_spec by entry_lia.
    replace (8 * Z.of_nat (i - (ENTRY_BYTES - 8)) + j + 8 * (Z.of_nat ENTRY_BYTES - 8)) with (8 * Z.of_nat i + j) by entry_lia.
    rewrite testbit_u128_byte by done.
    destruct (Z.ltb_spec (8 * Z.of_nat (i - (ENTRY_BYTES - 8)) + j) 64); [done|entry_lia].
  - unfold t1. destruct Ht as [Hlt Hbt]. rewrite byte_at_store_bytes by entry_lia.
    rewrite decide_True by entry_lia. rewrite testbit_byte_at_le_split by entry_lia.
    rewrite Nat.sub_0_r. apply (testbit_qword_byte src); (done || entry_lia).
Qed.

Definition write_cell (bk : ct_bucket) (c : nat) (e : ct_entry) : ct_bucket :=
  mk_bucket (<[c := e]> (cells bk)) (next_word (write_lock_and_seq bk)).

Lemma write_entry_spec s p e e0 bk :
  trie_bucket (trie s) (pos_bucket p) = Some bk -> cells bk !! pos_cell p = Some e0 ->
  bucket_ok bk -> quiescent bk -> write_lock bk = 1 -> entry_ok e ->
  write_entry p e s =
  Ret (next_word (write_lock_and_seq bk))
      (set_trie (upd_bucket (trie s) (pos_bucket p) (write_cell bk (pos_cell p) e)) s).
Proof.
  intros Hb Hc Hok Hq Hl He. pose proof (bk_word bk Hok) as Hw. unfold quiescent in Hq.
  pose proof (Forall_lookup_1 _ _ _ _ (bk_cells bk Hok) Hc) as He0.
  assert (H1 : write_lock_and_seq bk .& 1 <> 0).
  { unfold write_lock in Hl. rewrite land_255 in Hl. change 1 with (Z.ones 1). rewrite Z.land_ones by lia.
    change (2 ^ 1) with 2. zdiv. }
  unfold write_entry. erewrite bind_Ret by (apply get_bucket_eq; exact Hb).
  erewrite bind_Ret by (apply assert_true; now apply Z.eqb_eq).
  erewrite bind_Ret by (apply assert_true; apply negb_true_iff; now apply Z.eqb_neq).
  erewrite bind_Ret by (eapply put_bucket_spec; exact Hb).
  set (bk1 := set_lock_word _ bk). set (s1 := set_trie _ s).
  assert (Hb1 : trie_bucket (trie s1) (pos_bucket p) = Some bk1)
    by (cbn; rewrite (trie_bucket_upd _ _ bk) by done; now rewrite Z.eqb_refl).
  erewrite bind_Ret.
  2: { apply get_entry_eq. unfold trie_entry. rewrite Hb1. exact Hc. }
  rewrite write_parts_eq by done.
  erewrite bind_Ret.
  2: { unfold put_entry. erewrite bind_Ret by (apply get_bucket_eq; exact Hb1).
       erewrite bind_Ret by (unfold bucket_cell; cbn; rewrite Hc; reflexivity).
       eapply put_bucket_spec. exact Hb1. }
  set (bk2 := set_cells _ bk1). set (s2 := set_trie _ s1).
  assert (Hb2 : trie_bucket (trie s2) (pos_bucket p) = Some bk2)
    by (cbn [trie s2 set_trie]; rewrite (trie_bucket_upd _ _ bk1) by done; now rewrite Z.eqb_refl).
  erewrite bind_Ret by (apply get_bucket_eq; exact Hb2).
  erewrite bind_Ret by (eapply put_bucket_spec; exact Hb2).
  unfold s2, s1. cbn [trie set_trie]. rewrite !upd_bucket_upd. reflexivity.
Qed.

Lemma write_cell_ok bk c e :
  bucket_ok bk -> entry_ok e -> bucket_ok (write_cell bk c e).
Proof.
  intros [H1 H2 H3] He. split; cbn.
  - now rewrite length_insert.
  - now apply Forall_insert.
  - now apply next_word_ok.
Qed.

Lemma write_cell_quiescent bk c e : bucket_ok bk -> quiescent bk -> quiescent (write_cell bk c e).
Proof. intros Hok Hq. apply next_word_quiescent; [apply Hok|exact Hq]. Qed.

Lemma write_cell_lock bk c e : bucket_ok bk -> write_lock (write_cell bk c e) = write_lock bk.
Proof. intros Hok. apply next_word_lock. apply Hok. Qed.

(** ** Preservation of the table invariant *)

Lemma params_upd t b bk : params_ok t -> params_ok (upd_bucket t b bk).
Proof. intros []. now split. Qed.

Lemma Forall_zset {A : Type} (P : A -> Prop) (l : list A) i x : Forall P l -> P x -> Forall P (zset l i x).
Proof. intros. unfold zset. destruct (0 <=? i); [now apply Forall_insert|done]. Qed.

(** A store that keeps the cells. *)
Lemma table_ok_same_cells t b bk bk' :
  table_ok t -> trie_bucket t b = Some bk -> cells bk' = cells bk -> bucket_ok bk' -> quiescent bk' ->
  table_ok (upd_bucket t b bk') /\ forall p, trie_entry (upd_bucket t b bk') p = trie_entry t p.
Proof.
  intros Ht Hb Hc Hok Hq.
  assert (He : forall p, trie_entry (upd_bucket t b bk') p = trie_entry t p).
  { intros p. rewrite (trie_entry_upd t b bk) by done. destruct (Z.eqb_spec (pos_bucket p) b) as [<-|]; [|done].
    unfold trie_entry. now rewrite Hb, Hc. }
  split; [|exact He]. destruct Ht as [H1 H2 H3 H4 H5 H6]. split.
  - now apply params_upd.
  - cbn. now rewrite length_zset.
  - now apply Forall_zset.
  - now apply Forall_zset.
  - intros p e Hp Hpe. rewrite He in Hpe. exact (H5 p e Hp Hpe).
  - intros p p' k e e' Hh Hh'. unfold holds in Hh, Hh'. rewrite He in Hh, Hh'. exact (H6 p p' k e e' Hh Hh').
Qed.

(** A store to one cell. *)
Section store_cell.
Variables (t : cuckoo_trie) (p : pos) (bk : ct_bucket) (e e0 : ct_entry).
Hypothesis bk_at : trie_bucket t (pos_bucket p) = Some bk.
Hypothesis e0_at : cells bk !! pos_cell p = Some e0.

Let t' := upd_bucket t (pos_bucket p) (write_cell bk (pos_cell p) e).

Lemma trie_entry_store q : trie_entry t' q = if decide (q = p) then Some e else trie_entry t q.
Proof.
  unfold t'. rewrite (trie_entry_upd t _ bk) by done. case_decide as Hd.
  - subst q. rewrite Z.eqb_refl. cbn. apply list_lookup_insert_eq. eapply lookup_lt_Some; exact e0_at.
  - destruct (Z.eqb_spec (pos_bucket q) (pos_bucket p)) as [Eb|]; [|done]. cbn.
    rewrite list_lookup_insert_ne by (intros Ec; apply Hd; destruct p, q; cbn in *; congruence).
    unfold trie_entry. now rewrite Eb, bk_at.
Qed.

Hypothesis in_t : in_table t p.

Lemma holds_store q k x :
  holds t' q k x <->
  (q = p /\ x = e /\ used e = true /\ entry_key t p e = k) \/ (q <> p /\ holds t q k x).
Proof.
  unfold holds. rewrite trie_entry_store. change (in_table t' q) with (in_table t q).
  change (entry_key t' q x) with (entry_key t q x). case_decide as Hd.
  - subst q. split.
    + intros (_ & [= ->] & Hu & Hk). now left.
    + intros [(_ & -> & Hu & Hk)|[Hne _]]; done.
  - split; [intros H; now right|]. intros [(-> & _)|[_ H]]; done.
Qed.

Hypothesis t_ok : table_ok t.
Hypothesis e_ok : entry_ok e.
Hypothesis e_cell : cell_ok e.
Hypothesis e_new : used e = true -> forall q x, holds t q (entry_key t p e) x -> q = p.

Lemma table_ok_store : table_ok t'.
Proof.
  destruct (trie_bucket_ok t t_ok _ _ bk_at) as [Hok Hq]. split.
  - apply params_upd, t_ok.
  - unfold t'. cbn. rewrite length_zset. apply t_ok.
  - apply Forall_zset; [apply t_ok|now apply write_cell_ok].
  - apply Forall_zset; [apply t_ok|now apply write_cell_quiescent].
  - intros q x Hq' Hx. rewrite trie_entry_store in Hx. case_decide; [now injection Hx as <-|].
    exact (tb_cells t t_ok q x Hq' Hx).
  - intros q q' k x x' H1 H2. apply holds_store in H1, H2.
    destruct H1 as [(-> & -> & Hu & Hk)|[Hne H1]], H2 as [(-> & -> & Hu2 & Hk2)|[Hne2 H2]].
    + done.
    + subst k. symmetry. exact (e_new Hu _ _ H2).
    + subst k. exact (e_new Hu2 _ _ H1).
    + exact (tb_unique t t_ok _ _ _ _ _ H1 H2).
Qed.
End store_cell.
