(* ===== verification/Locks.v ===== *)
(** * The locks of a thread: the lock manager and the lock bytes

    [locks_ok] ties the lock manager's records to the lock bytes of the
    table, as long as no other thread holds a lock. [same_but_locks] is
    equality of tables up to lock bytes; the lock functions of atomics.c stay
    within it. *)

From S2P Require Import Prelude Bits Entry KeyObject State Hashing Atomics Table Contents Store.
From stdpp Require Import base list gmap.
From Stdlib Require Import ZArith Lia Bool.

#[local] Open Scope Z_scope.

(** ** Finding a lock *)

(** The record of the lock on bucket [b]. *)
Definition lock_at (ls : ct_lock_mgr) (b : Z) : option ct_bucket_write_lock :=
  find_write_lock ls b ≫= fun i => ls !! i.
Arguments lock_at : simpl never.

Lemma find_from_Some n ls b i :
  find_from n ls b = Some i -> (i < n)%nat /\ exists l, ls !! i = Some l /\ wl_bucket l = b.
Proof.
  induction n as [|n IH]; cbn; [discriminate|].
  destruct (ls !! n) as [l|] eqn:E.
  - destruct (Z.eqb_spec (wl_bucket l) b) as [Eb|].
    + intros [= <-]. split; [lia|]. eauto.
    + intros H. destruct (IH H). split; [lia|done].
  - intros H. destruct (IH H). split; [lia|done].
Qed.

Lemma find_from_None n ls b i l :
  find_from n ls b = None -> (i < n)%nat -> ls !! i = Some l -> wl_bucket l <> b.
Proof.
  induction n as [|n IH]; cbn; [lia|]. intros H Hi Hl. destruct (decide (i = n)) as [->|].
  - rewrite Hl in H. destruct (Z.eqb_spec (wl_bucket l) b); [discriminate|done].
  - apply IH; [|lia|done]. destruct (ls !! n) as [l'|]; [|done]. destruct (wl_bucket l' =? b); [discriminate|done].
Qed.

Lemma find_write_lock_Some ls b i :
  find_write_lock ls b = Some i -> exists l, ls !! i = Some l /\ wl_bucket l = b /\ lock_at ls b = Some l.
Proof.
  intros H. destruct (find_from_Some _ _ _ _ H) as (_ & l & Hl & Hb). exists l. split; [done|]. split; [done|].
  unfold lock_at. now rewrite H.
Qed.

Lemma find_write_lock_None ls b : find_write_lock ls b = None -> lock_at ls b = None.
Proof. intros H. unfold lock_at. now rewrite H. Qed.

Definition nodup_locks (ls : ct_lock_mgr) : Prop := NoDup (wl_bucket <$> ls).

Lemma lock_at_elem ls b l : nodup_locks ls -> lock_at ls b = Some l <-> l ∈ ls /\ wl_bucket l = b.
Proof.
  intros Hnd. split.
  - unfold lock_at. destruct (find_write_lock ls b) as [i|] eqn:E; [|discriminate]. cbn. intros Hl.
    destruct (find_write_lock_Some _ _ _ E) as (l' & Hl' & Hb & _). assert (l' = l) as -> by congruence.
    split; [|done]. eapply list_elem_of_lookup_2; exact Hl.
  - intros [Hl Hb]. apply list_elem_of_lookup in Hl as [k Hk].
    destruct (find_write_lock ls b) as [i|] eqn:E.
    + destruct (find_write_lock_Some _ _ _ E) as (l' & Hl' & Hb' & ->). f_equal.
      assert (Ek : i = k); [|subst k; congruence].
      apply (NoDup_lookup (wl_bucket <$> ls) i k b Hnd); rewrite list_lookup_fmap; [rewrite Hl'|rewrite Hk]; cbn; congruence.
    + exfalso. apply (find_from_None _ _ _ k l E); [eapply lookup_lt_Some; exact Hk|done..].
Qed.

Lemma lock_at_bucket ls b l : nodup_locks ls -> lock_at ls b = Some l -> wl_bucket l = b.
Proof. intros Hnd H. now apply lock_at_elem in H as [_ ?]. Qed.

(** Two managers with the same records have the same locks. *)
Lemma lock_at_perm ls ls' b : nodup_locks ls -> ls ≡ₚ ls' -> lock_at ls b = lock_at ls' b.
Proof.
  intros Hnd Hp. assert (Hnd' : nodup_locks ls') by (unfold nodup_locks; now rewrite <- Hp).
  apply option_eq. intros l. rewrite !lock_at_elem by done. now rewrite Hp.
Qed.

Lemma nodup_locks_insert ls i l f :
  nodup_locks ls -> ls !! i = Some l -> wl_bucket (f l) = wl_bucket l -> nodup_locks (<[i := f l]> ls).
Proof.
  intros Hnd Hl Hf. unfold nodup_locks. rewrite list_fmap_insert, Hf.
  rewrite list_insert_id; [exact Hnd|]. now rewrite list_lookup_fmap, Hl.
Qed.

Lemma lock_at_insert ls i l f b :
  nodup_locks ls -> ls !! i = Some l -> wl_bucket (f l) = wl_bucket l ->
  lock_at (<[i := f l]> ls) b = if b =? wl_bucket l then Some (f l) else lock_at ls b.
Proof.
  intros Hnd Hl Hf. pose proof (nodup_locks_insert ls i l f Hnd Hl Hf) as Hnd'.
  pose proof (lookup_lt_Some _ _ _ Hl) as Hi. apply option_eq. intros l'.
  rewrite lock_at_elem by done. rewrite list_elem_of_lookup. destruct (Z.eqb_spec b (wl_bucket l)) as [->|Hb].
  - split.
    + intros [[k Hk] Hb]. destruct (decide (k = i)) as [->|Hne].
      * rewrite list_lookup_insert_eq in Hk by done. congruence.
      * rewrite list_lookup_insert_ne in Hk by done. exfalso. apply Hne.
        apply (NoDup_lookup (wl_bucket <$> ls) k i (wl_bucket l) Hnd); rewrite list_lookup_fmap, ?Hk, ?Hl; cbn; congruence.
    + intros [= <-]. split; [|done]. exists i. now rewrite list_lookup_insert_eq.
  - rewrite lock_at_elem by done. rewrite list_elem_of_lookup. split.
    + intros [[k Hk] Hb']. split; [|done]. exists k. destruct (decide (k = i)) as [->|Hne].
      * rewrite list_lookup_insert_eq in Hk by done. injection Hk as <-. congruence.
      * now rewrite list_lookup_insert_ne in Hk.
    + intros [[k Hk] Hb']. split; [|done]. exists k. rewrite list_lookup_insert_ne; [done|]. intros <-. congruence.
Qed.

Lemma lock_at_app ls l b :
  nodup_locks (ls ++ [l]) ->
  lock_at (ls ++ [l]) b = if b =? wl_bucket l then Some l else lock_at ls b.
Proof.
  intros Hnd. assert (Hnd1 : nodup_locks ls).
  { unfold nodup_locks in *. rewrite fmap_app in Hnd. now apply NoDup_app in Hnd. }
  apply option_eq. intros l'. rewrite lock_at_elem by done. rewrite elem_of_app, list_elem_of_singleton.
  destruct (Z.eqb_spec b (wl_bucket l)) as [->|Hb].
  - split.
    + intros [[Hl| ->] Hb]; [|done]. exfalso. unfold nodup_locks in Hnd. rewrite fmap_app in Hnd.
      apply NoDup_app in Hnd as (_ & Hd & _). apply (Hd (wl_bucket l')).
      * now apply list_elem_of_fmap_2.
      * rewrite Hb. cbn. apply list_elem_of_singleton. done.
    + intros [= <-]. auto.
  - rewrite lock_at_elem by done. split; [|tauto]. intros [[Hl| ->] Hb']; [done|congruence].
Qed.

Lemma nodup_locks_app ls l : nodup_locks ls -> lock_at ls (wl_bucket l) = None -> nodup_locks (ls ++ [l]).
Proof.
  intros Hnd Hl. unfold nodup_locks. rewrite fmap_app. apply NoDup_app. split; [done|]. split; [|apply NoDup_singleton].
  intros b Hb Hb'. cbn in Hb'. apply list_elem_of_singleton in Hb'. subst b.
  apply list_elem_of_fmap in Hb as (l' & Eb & Hl'). assert (E : lock_at ls (wl_bucket l) = Some l') by now apply lock_at_elem.
  congruence.
Qed.

(** [remove_lock] puts the last record in the place of the removed one. *)
Lemma removed_perm (ls : ct_lock_mgr) i l last_lock :
  ls !! i = Some l -> last ls = Some last_lock -> l :: take (length ls - 1) (<[i := last_lock]> ls) ≡ₚ ls.
Proof.
  intros Hl Hlast. apply last_Some in Hlast as [ls' ->]. rewrite length_app. cbn [length].
  replace (length ls' + 1 - 1)%nat with (length ls') by lia.
  destruct (decide (i < length ls')%nat) as [Hi|Hi].
  - rewrite lookup_app_l in Hl by done. rewrite insert_app_l by done.
    rewrite take_app_length' by (now rewrite length_insert).
    rewrite <- (list_insert_id ls' i l) at 2 by done.
    rewrite (insert_take_drop ls' i last_lock), (insert_take_drop ls' i l) by done. solve_Permutation.
  - apply lookup_app_Some in Hl as [Hl|[_ Hl]]; [apply lookup_lt_Some in Hl; lia|].
    destruct (i - length ls')%nat eqn:E; [|discriminate]. injection Hl as <-.
    replace i with (length ls') by lia. rewrite take_insert_ge by lia. rewrite take_app_length. solve_Permutation.
Qed.

(** ** References *)

Definition sum_refs (refs : list Z) : Z := foldr Z.add 0 refs.
Definition no_refs : list Z := replicate CUCKOO_BUCKET_SIZE 0.

(** How often entry and bucket locks were taken on bucket [b]. *)
Definition entry_refs (ls : ct_lock_mgr) (b : Z) : list Z := from_option entry_refcounts no_refs (lock_at ls b).
Definition bucket_refs (ls : ct_lock_mgr) (b : Z) : Z :=
  from_option (fun l => total_refcount l - sum_refs (entry_refcounts l)) 0 (lock_at ls b).

(** A record whose total is at most [N]. *)
Record lock_ok (N : Z) (l : ct_bucket_write_lock) : Prop := mk_lock_ok {
  lr_length : length (entry_refcounts l) = CUCKOO_BUCKET_SIZE;
  lr_refs : Forall (fun r => 0 <= r) (entry_refcounts l);
  lr_sum : sum_refs (entry_refcounts l) <= total_refcount l;
  lr_total : 0 < total_refcount l <= N;
}.

Lemma lock_ok_mono N N' l : N <= N' -> lock_ok N l -> lock_ok N' l.
Proof. intros HN []. split; (done || lia). Qed.

Lemma sum_refs_nonneg refs : Forall (fun r => 0 <= r) refs -> 0 <= sum_refs refs.
Proof. induction 1; cbn; [|fold (sum_refs l)]; lia. Qed.

Lemma sum_refs_alter refs c d r :
  refs !! c = Some r -> sum_refs (alter (fun x => x + d) c refs) = sum_refs refs + d.
Proof.
  revert c. induction refs as [|x refs IH]; intros [|c] Hc; try discriminate; cbn in *.
  - fold (sum_refs refs). lia.
  - fold (sum_refs refs). specialize (IH c Hc). unfold sum_refs in *. cbn. rewrite IH. lia.
Qed.

Lemma sum_refs_lookup refs c r : Forall (fun r => 0 <= r) refs -> refs !! c = Some r -> r <= sum_refs refs.
Proof.
  intros Hf. revert c. induction Hf as [|x refs Hx Hf IH]; intros [|c] Hc; try discriminate; cbn in *.
  - injection Hc as ->. pose proof (sum_refs_nonneg refs Hf). unfold sum_refs in *. lia.
  - specialize (IH c Hc). unfold sum_refs in *. lia.
Qed.

Lemma sum_refs_zero refs :
  Forall (fun r => 0 <= r) refs -> length refs = CUCKOO_BUCKET_SIZE -> sum_refs refs <= 0 -> refs = no_refs.
Proof.
  intros Hf Hl Hs. apply list_eq. intros c. destruct (refs !! c) as [r|] eqn:E.
  - pose proof (Forall_lookup_1 _ _ _ _ Hf E). pose proof (sum_refs_lookup _ _ _ Hf E).
    unfold no_refs. rewrite lookup_replicate_2 by (rewrite <- Hl; eapply lookup_lt_Some; exact E). f_equal. cbn in *. lia.
  - symmetry. apply lookup_replicate_None. rewrite <- Hl. now apply lookup_ge_None.
Qed.

(** ** Equality up to lock bytes *)

Definition same_bucket (b b' : ct_bucket) : Prop :=
  cells b = cells b' /\ write_lock_and_seq b / 256 = write_lock_and_seq b' / 256.

(** Everything but the lock bytes of the buckets is equal. *)
Record same_but_locks (t t' : cuckoo_trie) : Prop := mk_same_but_locks {
  sb_rest : set_buckets [] t = set_buckets [] t';
  sb_buckets : Forall2 same_bucket (buckets t) (buckets t');
}.

#[export] Instance same_bucket_equiv : Equivalence same_bucket.
Proof.
  split.
  - intros b. split; reflexivity.
  - intros b b' [H1 H2]. split; now symmetry.
  - intros b b' b'' [H1 H2] [H3 H4]. split; [now rewrite H1|now rewrite H2].
Qed.

#[export] Instance same_but_locks_equiv : Equivalence same_but_locks.
Proof.
  split.
  - intros t. split; reflexivity.
  - intros t t' [H1 H2]. split; [done|now symmetry].
  - intros t t' t'' [H1 H2] [H3 H4]. split; [now rewrite H1|now transitivity (buckets t')].
Qed.

Lemma same_but_locks_set_buckets t t' : same_but_locks t t' -> t' = set_buckets (buckets t') t.
Proof. intros [H _]. destruct t, t'. unfold set_buckets in *. cbn in *. injection H as <- <- <- <- <-. reflexivity. Qed.

Lemma same_but_locks_bucket t t' b bk :
  same_but_locks t t' -> trie_bucket t b = Some bk -> exists bk', trie_bucket t' b = Some bk' /\ same_bucket bk bk'.
Proof.
  intros [_ H]. unfold trie_bucket, zlookup. destruct (0 <=? b); [|discriminate]. intros Hb.
  exact (Forall2_lookup_l _ _ _ _ _ H Hb).
Qed.

Lemma same_but_locks_entry t t' p : same_but_locks t t' -> trie_entry t p = trie_entry t' p.
Proof.
  intros H. destruct (trie_entry t p) as [e|] eqn:E.
  - destruct (trie_entry_bucket _ _ _ E) as (bk & Hb & Hc).
    destruct (same_but_locks_bucket _ _ _ _ H Hb) as (bk' & Hb' & Ec & _). unfold trie_entry. rewrite Hb'. cbn.
    unfold bucket_cell. now rewrite <- Ec.
  - destruct (trie_entry t' p) as [e|] eqn:E'; [|done]. symmetry in H.
    destruct (trie_entry_bucket _ _ _ E') as (bk & Hb & Hc).
    destruct (same_but_locks_bucket _ _ _ _ H Hb) as (bk' & Hb' & Ec & _). unfold trie_entry in E. rewrite Hb' in E. cbn in E.
    unfold bucket_cell in E. congruence.
Qed.

#[export] Instance trie_entry_proper : Proper (same_but_locks ==> eq ==> eq) trie_entry.
Proof. intros t t' H p p' <-. now apply same_but_locks_entry. Qed.

Lemma same_but_locks_upd t b bk bk' :
  trie_bucket t b = Some bk -> same_bucket bk bk' -> same_but_locks t (upd_bucket t b bk').
Proof.
  intros Hb Hs. split; [reflexivity|]. cbn. unfold trie_bucket, zlookup, zset in *.
  destruct (0 <=? b); [|discriminate]. rewrite <- (list_insert_id (buckets t) (Z.to_nat b) bk) at 1 by done.
  apply Forall2_insert; [reflexivity|exact Hs].
Qed.

Lemma same_bucket_lock v bk : bucket_ok bk -> 0 <= v < 256 -> same_bucket bk (set_write_lock v bk).
Proof. intros. split; [done|]. symmetry. now apply set_write_lock_div. Qed.

Lemma same_bucket_seq bk bk' :
  same_bucket bk bk' -> bucket_ok bk -> bucket_ok bk' ->
  seq_part (write_lock_and_seq bk') = seq_part (write_lock_and_seq bk).
Proof. intros [_ E] H1 H2. rewrite !seq_part_eq by (apply H1 || apply H2). now rewrite E. Qed.

(** ** Well-formed buckets, whatever the cells hold *)

Record shape_ok (t : cuckoo_trie) : Prop := mk_shape_ok {
  sh_params : params_ok t;
  sh_length : Z.of_nat (length (buckets t)) = num_buckets t + 1;
  sh_buckets : Forall bucket_ok (buckets t);
  sh_quiescent : Forall quiescent (buckets t);
}.

Lemma table_shape t : table_ok t -> shape_ok t.
Proof. intros []. now split. Qed.

Lemma shape_bucket t b bk : shape_ok t -> trie_bucket t b = Some bk -> bucket_ok bk /\ quiescent bk.
Proof.
  intros Ht. unfold trie_bucket, zlookup. destruct (0 <=? b); [|discriminate]. intros E.
  split; eapply Forall_lookup_1; first [exact E|apply Ht].
Qed.

Lemma shape_exists t b : shape_ok t -> 0 <= b <= num_buckets t -> exists bk, trie_bucket t b = Some bk.
Proof.
  intros Ht Hb. pose proof (sh_length t Ht). destruct (zlookup_lt (buckets t) b ltac:(lia)) as [bk E]. now exists bk.
Qed.

Lemma shape_entry t p e : shape_ok t -> trie_entry t p = Some e -> entry_ok e.
Proof.
  intros Ht H. destruct (trie_entry_bucket t p e H) as (b & Hb & He).
  destruct (shape_bucket _ _ _ Ht Hb) as [Hok _]. exact (Forall_lookup_1 _ _ _ _ (bk_cells b Hok) He).
Qed.

Lemma shape_cell t p :
  shape_ok t -> in_table t p -> (pos_cell p < CUCKOO_BUCKET_SIZE)%nat -> exists e, trie_entry t p = Some e.
Proof.
  intros Ht Hp Hc. destruct (shape_exists t (pos_bucket p) Ht) as [bk Hb]; [unfold in_table in Hp; lia|].
  destruct (shape_bucket _ _ _ Ht Hb) as [Hok _].
  destruct (lookup_lt_is_Some_2 (cells bk) (pos_cell p)) as [e He]; [now rewrite bk_length|].
  exists e. unfold trie_entry. now rewrite Hb.
Qed.

Lemma shape_upd t b bk bk' :
  shape_ok t -> trie_bucket t b = Some bk -> bucket_ok bk' -> quiescent bk' -> shape_ok (upd_bucket t b bk').
Proof.
  intros [H1 H2 H3 H4] Hb Hok Hq. split.
  - now apply params_upd.
  - cbn. now rewrite length_zset.
  - now apply Forall_zset.
  - now apply Forall_zset.
Qed.

Lemma shape_set_lock t b bk v :
  shape_ok t -> trie_bucket t b = Some bk -> 0 <= v < 256 ->
  shape_ok (upd_bucket t b (set_write_lock v bk)) /\ same_but_locks t (upd_bucket t b (set_write_lock v bk)).
Proof.
  intros Ht Hb Hv. destruct (shape_bucket _ _ _ Ht Hb) as [Hok Hq]. split.
  - apply (shape_upd t b bk); try done; [now apply set_write_lock_ok|now apply set_write_lock_quiescent].
  - apply (same_but_locks_upd t b bk); [done|now apply same_bucket_lock].
Qed.

(** ** The lock manager and the lock bytes *)

Record locks_ok (N : Z) (s : state) : Prop := mk_locks_ok {
  lks_nodup : nodup_locks (lock_mgr s);
  lks_records : Forall (lock_ok N) (lock_mgr s);
  lks_bytes : forall b bk, trie_bucket (trie s) b = Some bk ->
    write_lock bk = match lock_at (lock_mgr s) b with Some _ => 1 | None => 0 end;
  lks_exists : forall b, is_Some (lock_at (lock_mgr s) b) -> is_Some (trie_bucket (trie s) b);
}.

Lemma locks_ok_mono N N' s : N <= N' -> locks_ok N s -> locks_ok N' s.
Proof. intros HN [H1 H2 H3 H4]. split; try done. eapply Forall_impl; [exact H2|]. intros l. now apply lock_ok_mono. Qed.

Lemma lock_at_ok N s b l : locks_ok N s -> lock_at (lock_mgr s) b = Some l -> lock_ok N l /\ wl_bucket l = b.
Proof.
  intros Hs Hl. apply lock_at_elem in Hl as [He Hb]; [|apply Hs]. split; [|done].
  exact (proj1 (Forall_forall _ _) (lks_records _ _ Hs) l He).
Qed.

(** A bucket without a lock has no references. *)
Lemma unlocked_refs ls b : lock_at ls b = None -> entry_refs ls b = no_refs /\ bucket_refs ls b = 0.
Proof. intros H. unfold entry_refs, bucket_refs. now rewrite H. Qed.

Lemma bucket_refs_nonneg N s b : locks_ok N s -> 0 <= bucket_refs (lock_mgr s) b.
Proof.
  intros Hs. unfold bucket_refs. destruct (lock_at (lock_mgr s) b) as [l|] eqn:E; [|done]. cbn.
  destruct (lock_at_ok _ _ _ _ Hs E) as [[] _]. lia.
Qed.

Lemma entry_refs_ok N s b :
  locks_ok N s -> length (entry_refs (lock_mgr s) b) = CUCKOO_BUCKET_SIZE /\
  Forall (fun r => 0 <= r) (entry_refs (lock_mgr s) b).
Proof.
  intros Hs. unfold entry_refs. destruct (lock_at (lock_mgr s) b) as [l|] eqn:E; cbn.
  - destruct (lock_at_ok _ _ _ _ Hs E) as [[] _]. done.
  - split; [done|]. repeat (constructor; [lia|]). constructor.
Qed.

(** A referenced bucket is locked. *)
Lemma refs_locked ls b :
  0 < bucket_refs ls b \/ (exists c r, entry_refs ls b !! c = Some r /\ 0 < r) -> is_Some (lock_at ls b).
Proof.
  intros H. destruct (lock_at ls b) as [l|] eqn:E; [eauto|]. destruct (unlocked_refs ls b E) as [E1 E2].
  rewrite E1, E2 in H. destruct H as [H|(c & r & Hc & Hr)]; [lia|].
  apply lookup_replicate in Hc as [-> _]. lia.
Qed.

(** What a lock operation leaves: the table up to lock bytes, and the
    references given by [entries] and [refs]. *)
Record lock_effect (N : Z) (s s' : state) (entries : Z -> list Z) (refs : Z -> Z) : Prop := mk_lock_effect {
  le_table : same_but_locks (trie s) (trie s');
  le_shape : shape_ok (trie s');
  le_mem : kv_mem s' = kv_mem s;
  le_locks : locks_ok N s';
  le_entries : forall b, entry_refs (lock_mgr s') b = entries b;
  le_refs : forall b, bucket_refs (lock_mgr s') b = refs b;
}.

(** ** The lock operations *)

(** A change of one record. *)
Lemma update_lock_spec N N' s b i l f entries refs :
  locks_ok N s -> shape_ok (trie s) -> N <= N' ->
  find_write_lock (lock_mgr s) b = Some i -> lock_at (lock_mgr s) b = Some l ->
  wl_bucket (f l) = wl_bucket l -> lock_ok N' (f l) ->
  (forall b', entries b' = if b' =? b then entry_refcounts (f l) else entry_refs (lock_mgr s) b') ->
  (forall b', refs b' = if b' =? b then total_refcount (f l) - sum_refs (entry_refcounts (f l))
                        else bucket_refs (lock_mgr s) b') ->
  exists s', update_lock i f s = Ret tt s' /\ lock_effect N' s s' entries refs /\ trie s' = trie s /\
    length (lock_mgr s') = length (lock_mgr s) /\
    find_write_lock (lock_mgr s') b = Some i /\ lock_at (lock_mgr s') b = Some (f l).
Proof.
  intros Hs Ht HN Hi Hl Hf Hok He Hr. pose proof (lks_nodup _ _ Hs) as Hnd.
  destruct (find_write_lock_Some _ _ _ Hi) as (l' & Hl' & Hb & E). assert (l' = l) as -> by congruence.
  exists (set_lock_mgr (<[i := f l]> (lock_mgr s)) s).
  assert (Ha : forall b', lock_at (<[i := f l]> (lock_mgr s)) b' =
                 if b' =? b then Some (f l) else lock_at (lock_mgr s) b').
  { intros b'. rewrite lock_at_insert by done. now rewrite Hb. }
  split; [|split; [split|split; [|split; [|split]]]]; cbn.
  - unfold update_lock, get_locks. erewrite bind_Ret by reflexivity. now rewrite Hl'.
  - reflexivity.
  - exact Ht.
  - reflexivity.
  - split; cbn.
    + now apply nodup_locks_insert.
    + apply Forall_insert; [|exact Hok]. eapply Forall_impl; [apply Hs|]. intros x. now apply lock_ok_mono.
    + intros b' bk Hb'. rewrite Ha, (lks_bytes _ _ Hs b' bk Hb'). destruct (Z.eqb_spec b' b) as [->|]; [now rewrite Hl|done].
    + intros b'. rewrite Ha. destruct (Z.eqb_spec b' b) as [->|]; intros H; apply (lks_exists _ _ Hs); [now rewrite Hl|done].
  - intros b'. rewrite He. unfold entry_refs. rewrite Ha. now destruct (b' =? b).
  - intros b'. rewrite Hr. unfold bucket_refs. rewrite Ha. now destruct (b' =? b).
  - reflexivity.
  - apply length_insert.
  - clear - Hi Hl' Hf. revert Hi. unfold find_write_lock. rewrite length_insert. generalize (length (lock_mgr s)) as n.
    induction n as [|n IH]; cbn; [done|]. destruct (decide (n = i)) as [->|Hne].
    + rewrite list_lookup_insert_eq, Hl' by (eapply lookup_lt_Some; exact Hl'). rewrite Hf. destruct (wl_bucket l =? b); [done|exact IH].
    + rewrite list_lookup_insert_ne by done. destruct (lock_mgr s !! n) as [x|]; [|exact IH]. destruct (wl_bucket x =? b); [done|exact IH].
  - rewrite Ha. now rewrite Z.eqb_refl.
Qed.

Definition one_at (b b' : Z) : Z := if b' =? b then 1 else 0.

(** Taking the lock of a bucket nobody holds. *)
Lemma take_lock_spec N s b bk :
  locks_ok N s -> shape_ok (trie s) -> 1 <= N -> trie_bucket (trie s) b = Some bk ->
  lock_at (lock_mgr s) b = None -> Z.of_nat (length (lock_mgr s)) < MAX_LOCKS ->
  exists s0 s1, try_take_lock b s = Ret true s0 /\ lock_mgr s0 = lock_mgr s /\
    add_lock b s0 = Ret (length (lock_mgr s)) s1 /\
    lock_effect N s s1 (entry_refs (lock_mgr s)) (fun b' => bucket_refs (lock_mgr s) b' + one_at b b') /\
    length (lock_mgr s1) = S (length (lock_mgr s)) /\
    find_write_lock (lock_mgr s1) b = Some (length (lock_mgr s)) /\
    lock_at (lock_mgr s1) b = Some (mk_write_lock b no_refs 1) /\
    trie_bucket (trie s1) b = Some (set_write_lock 1 bk).
Proof.
  intros Hs Ht HN Hb Hl Hmax. set (l := mk_write_lock b no_refs 1).
  destruct (shape_bucket _ _ _ Ht Hb) as [Hok Hq].
  destruct (shape_set_lock _ _ _ 1 Ht Hb ltac:(lia)) as [Hsh Hsame].
  pose proof (nodup_locks_app _ l (lks_nodup _ _ Hs) Hl) as Hnd.
  assert (Ha : forall b', lock_at (lock_mgr s ++ [l]) b' = if b' =? b then Some l else lock_at (lock_mgr s) b')
    by (intros b'; now apply lock_at_app).
  exists (set_trie (upd_bucket (trie s) b (set_write_lock 1 bk)) s).
  exists (set_lock_mgr (lock_mgr s ++ [l]) (set_trie (upd_bucket (trie s) b (set_write_lock 1 bk)) s)).
  split; [|split; [done|split; [|split; [split|split; [|split; [|split]]]]]]; cbn [lock_mgr trie kv_mem set_lock_mgr set_trie].
  - rewrite (try_take_lock_spec s b bk Hb), (lks_bytes _ _ Hs b bk Hb), Hl. reflexivity.
  - unfold add_lock, get_locks. erewrite bind_Ret by reflexivity. cbn [lock_mgr set_trie].
    erewrite bind_Ret by (apply assert_true; now apply Z.ltb_lt). reflexivity.
  - exact Hsame.
  - exact Hsh.
  - reflexivity.
  - split; cbn [lock_mgr trie set_lock_mgr set_trie].
    + exact Hnd.
    + apply Forall_app. split; [apply Hs|]. constructor; [|constructor].
      split; cbn; try done; try lia. repeat (constructor; [lia|]). constructor.
    + intros b' bk' Hb'. rewrite Ha. rewrite (trie_bucket_upd _ _ bk) in Hb' by done.
      destruct (b' =? b); [injection Hb' as <-; apply write_lock_set; (done || lia)|now apply (lks_bytes _ _ Hs)].
    + intros b'. rewrite Ha, (trie_bucket_upd _ _ bk) by done. destruct (b' =? b); [eauto|apply (lks_exists _ _ Hs)].
  - intros b'. unfold entry_refs. rewrite Ha. destruct (Z.eqb_spec b' b) as [->|]; [now rewrite Hl|done].
  - intros b'. unfold bucket_refs, one_at. rewrite Ha. destruct (Z.eqb_spec b' b) as [->|]; [now rewrite Hl|lia].
  - rewrite length_app. cbn. lia.
  - unfold find_write_lock. rewrite length_app. cbn [length]. rewrite Nat.add_1_r. cbn [find_from].
    rewrite lookup_app_r, Nat.sub_diag by lia. cbn. now rewrite Z.eqb_refl.
  - rewrite Ha. now rewrite Z.eqb_refl.
  - rewrite (trie_bucket_upd _ _ bk) by done. now rewrite Z.eqb_refl.
Qed.

Lemma lock_index ls b l : lock_at ls b = Some l -> exists i, find_write_lock ls b = Some i /\ ls !! i = Some l.
Proof.
  unfold lock_at. destruct (find_write_lock ls b) as [i|]; [|discriminate]. cbn. intros H. now exists i.
Qed.

Lemma lock_none ls b : lock_at ls b = None -> find_write_lock ls b = None.
Proof.
  intros H. destruct (find_write_lock ls b) as [i|] eqn:E; [|done].
  destruct (find_write_lock_Some _ _ _ E) as (l & _ & _ & E'). congruence.
Qed.

Lemma u32_small x : 0 <= x < 2 ^ 32 -> u32 x = x.
Proof. apply wrap_small. Qed.

(** The room an operation may need in the lock manager's array. *)
Definition room_for (s : state) (b : Z) : Prop :=
  lock_at (lock_mgr s) b = None -> Z.of_nat (length (lock_mgr s)) < MAX_LOCKS.

(** Upgrading a read lock on a bucket that has not changed. *)
Lemma upgrade_bucket_lock_spec N s b bk :
  locks_ok N s -> shape_ok (trie s) -> 1 <= N + 1 < 2 ^ 32 -> trie_bucket (trie s) b = Some bk -> room_for s b ->
  exists s', upgrade_bucket_lock (mk_read_lock b (seq_part (write_lock_and_seq bk))) s = Ret SI_OK s' /\
    lock_effect (N + 1) s s' (entry_refs (lock_mgr s)) (fun b' => bucket_refs (lock_mgr s) b' + one_at b b') /\
    (length (lock_mgr s') <= S (length (lock_mgr s)))%nat.
Proof.
  intros Hs Ht HN Hb Hroom. unfold upgrade_bucket_lock, get_locks. cbn [rl_bucket rl_seq].
  erewrite bind_Ret by reflexivity. destruct (lock_at (lock_mgr s) b) as [l|] eqn:El.
  - destruct (lock_index _ _ _ El) as (i & Hi & Hil). rewrite Hi.
    destruct (lock_at_ok _ _ _ _ Hs El) as [[L1 L2 L3 L4] Hlb].
    erewrite bind_Ret by (apply get_bucket_eq; exact Hb). rewrite Z.eqb_refl. cbn [negb].
    assert (Et : total_refcount (add_total 1 l) = total_refcount l + 1) by (apply u32_small; lia).
    destruct (update_lock_spec N (N + 1) s b i l (add_total 1) (entry_refs (lock_mgr s))
      (fun b' => bucket_refs (lock_mgr s) b' + one_at b b')) as (s' & E & Hle & _ & Hlen & _); try done; try lia.
    + split; cbn [entry_refcounts add_total]; rewrite ?Et; (done || lia).
    + intros b'. unfold entry_refs. destruct (Z.eqb_spec b' b) as [->|]; [now rewrite El|done].
    + intros b'. unfold one_at. destruct (Z.eqb_spec b' b) as [->|]; [|lia]. rewrite Et. unfold bucket_refs. rewrite El.
      cbn [from_option entry_refcounts add_total]. lia.
    + exists s'. split; [|split; [exact Hle|lia]]. erewrite bind_Ret by exact E. reflexivity.
  - rewrite (lock_none _ _ El).
    destruct (take_lock_spec (N + 1) s b bk (locks_ok_mono N (N + 1) s ltac:(lia) Hs) Ht ltac:(lia) Hb El (Hroom El))
      as (s0 & s1 & E0 & Em & E1 & Hle & Hlen & Hi & _ & Hbk).
    exists s1. split; [|split; [exact Hle|lia]].
    erewrite bind_Ret.
    2: { unfold write_lock_unlocked_bucket, get_locks. erewrite bind_Ret by reflexivity.
         erewrite bind_Ret by (apply assert_true, bool_decide_eq_true; exact (lock_none _ _ El)).
         erewrite bind_Ret by exact E0. cbv iota. erewrite bind_Ret by exact E1. reflexivity. }
    destruct (shape_bucket _ _ _ Ht Hb) as [Hok _].
    erewrite bind_Ret by (apply get_bucket_eq; exact Hbk). rewrite set_write_lock_seq by (done || lia).
    rewrite Z.eqb_refl. reflexivity.
Qed.

(** Giving up the lock of a bucket. *)
Lemma remove_lock_spec N s b i l :
  shape_ok (trie s) -> nodup_locks (lock_mgr s) -> Forall (fun x => wl_bucket x <> b -> lock_ok N x) (lock_mgr s) ->
  (forall b' bk, trie_bucket (trie s) b' = Some bk ->
     write_lock bk = match lock_at (lock_mgr s) b' with Some _ => 1 | None => 0 end) ->
  (forall b', is_Some (lock_at (lock_mgr s) b') -> is_Some (trie_bucket (trie s) b')) ->
  lock_mgr s !! i = Some l -> wl_bucket l = b ->
  exists s', remove_lock i s = Ret tt s' /\
    lock_effect N s s' (fun b' => if b' =? b then no_refs else entry_refs (lock_mgr s) b')
      (fun b' => if b' =? b then 0 else bucket_refs (lock_mgr s) b') /\
    (length (lock_mgr s') <= length (lock_mgr s))%nat.
Proof.
  intros Ht Hnd Hrec Hbytes Hex Hl Hb.
  assert (Hlk : lock_at (lock_mgr s) b = Some l)
    by (apply lock_at_elem; [done|]; split; [eapply list_elem_of_lookup_2; exact Hl|exact Hb]).
  destruct (last (lock_mgr s)) as [last_lock|] eqn:Elast.
  2: { apply last_None in Elast. rewrite Elast in Hl. discriminate. }
  pose proof (removed_perm _ i l last_lock Hl Elast) as Hp. set (ls' := take _ _) in Hp.
  assert (Hnd' : nodup_locks (l :: ls')) by (unfold nodup_locks; now rewrite Hp).
  assert (Hnd2 : nodup_locks ls') by (apply NoDup_cons in Hnd'; apply Hnd').
  assert (Ha : forall b', lock_at ls' b' = if b' =? b then None else lock_at (lock_mgr s) b').
  { intros b'. rewrite <- (lock_at_perm _ _ b' Hnd' Hp). apply option_eq. intros x.
    destruct (Z.eqb_spec b' b) as [->|Hne].
    - split; [|done]. rewrite lock_at_elem by done. intros [Hx Hxb]. exfalso.
      unfold nodup_locks in Hnd'. apply NoDup_cons in Hnd' as [Hn _]. apply Hn.
      rewrite Hb, <- Hxb. now apply list_elem_of_fmap_2.
    - rewrite !lock_at_elem by done. rewrite elem_of_cons. split; [tauto|]. intros [[->|Hx] Hxb]; [congruence|done]. }
  destruct (Hex b ltac:(now rewrite Hlk)) as [bk Hbk].
  destruct (shape_bucket _ _ _ Ht Hbk) as [Hok Hq].
  destruct (shape_set_lock _ _ _ 0 Ht Hbk ltac:(lia)) as [Hsh Hsame].
  exists (set_trie (upd_bucket (trie s) b (set_write_lock 0 bk)) (set_lock_mgr ls' s)).
  split; [|split; [split|]]; cbn [lock_mgr trie kv_mem set_lock_mgr set_trie].
  - unfold remove_lock, get_locks. erewrite bind_Ret by reflexivity. rewrite Hl, Elast.
    erewrite bind_Ret by reflexivity. erewrite bind_Ret by reflexivity. erewrite bind_Ret by reflexivity.
    rewrite Hb. exact (unlock_byte_spec (set_lock_mgr ls' s) b bk Hbk).
  - exact Hsame.
  - exact Hsh.
  - reflexivity.
  - split; cbn [lock_mgr trie kv_mem set_lock_mgr set_trie].
    + exact Hnd2.
    + apply Forall_forall. intros x Hx. rewrite Forall_forall in Hrec. apply Hrec.
      * rewrite <- Hp. now right.
      * intros Hxb. apply NoDup_cons in Hnd' as [Hn _]. apply Hn. rewrite Hb, <- Hxb. now apply list_elem_of_fmap_2.
    + intros b' bk' Hb'. rewrite Ha. rewrite (trie_bucket_upd _ _ bk) in Hb' by done.
      destruct (b' =? b); [injection Hb' as <-; apply write_lock_set; (done || lia)|now apply Hbytes].
    + intros b'. rewrite Ha, (trie_bucket_upd _ _ bk) by done. destruct (b' =? b); [eauto|apply Hex].
  - intros b'. unfold entry_refs. rewrite Ha. now destruct (b' =? b).
  - intros b'. unfold bucket_refs. rewrite Ha. now destruct (b' =? b).
  - apply Permutation_length in Hp. cbn in Hp. lia.
Qed.

Lemma update_lock_eq s i l f :
  lock_mgr s !! i = Some l -> update_lock i f s = Ret tt (set_lock_mgr (<[i := f l]> (lock_mgr s)) s).
Proof. intros Hl. unfold update_lock, get_locks. erewrite bind_Ret by reflexivity. now rewrite Hl. Qed.

(** Two changes of one record are one. *)
Lemma update_lock_twice {A : Type} s i l f g (k : unit -> MS A) :
  lock_mgr s !! i = Some l ->
  (_ ← update_lock i f; x ← update_lock i g; k x) s = (x ← update_lock i (fun l => g (f l)); k x) s.
Proof.
  intros Hl. pose proof (lookup_lt_Some _ _ _ Hl) as Hi.
  erewrite bind_Ret by (apply update_lock_eq; exact Hl).
  erewrite bind_Ret by (apply (update_lock_eq _ i (f l)); cbn; now apply list_lookup_insert_eq).
  cbn [lock_mgr set_lock_mgr]. rewrite list_insert_insert_eq.
  symmetry. erewrite bind_Ret by (apply update_lock_eq; exact Hl). reflexivity.
Qed.

(** Giving one reference back; the last one unlocks the bucket. *)
Lemma drop_ref_spec N s b i l f :
  locks_ok N s -> shape_ok (trie s) ->
  find_write_lock (lock_mgr s) b = Some i -> lock_mgr s !! i = Some l ->
  wl_bucket (f l) = b -> total_refcount (f l) = total_refcount l - 1 ->
  length (entry_refcounts (f l)) = CUCKOO_BUCKET_SIZE -> Forall (fun r => 0 <= r) (entry_refcounts (f l)) ->
  sum_refs (entry_refcounts (f l)) <= total_refcount l - 1 ->
  exists s', (_ ← update_lock i f; if negb (total_refcount l - 1 =? 0) then mret tt else remove_lock i) s = Ret tt s' /\
    lock_effect N s s' (fun b' => if b' =? b then entry_refcounts (f l) else entry_refs (lock_mgr s) b')
      (fun b' => if b' =? b then total_refcount l - 1 - sum_refs (entry_refcounts (f l))
                 else bucket_refs (lock_mgr s) b') /\
    (length (lock_mgr s') <= length (lock_mgr s))%nat.
Proof.
  intros Hs Ht Hi Hl Hb Et Hlen Hpos Hsum. pose proof (lks_nodup _ _ Hs) as Hnd.
  destruct (find_write_lock_Some _ _ _ Hi) as (l' & Hl' & Hlb & Hlk). assert (l' = l) as -> by congruence.
  destruct (lock_at_ok _ _ _ _ Hs Hlk) as [[_ _ _ Htot] _].
  destruct (Z.eqb_spec (total_refcount l - 1) 0) as [E0|E0]; cbn [negb].
  - set (s1 := set_lock_mgr (<[i := f l]> (lock_mgr s)) s).
    assert (Ha : forall b', lock_at (lock_mgr s1) b' = if b' =? b then Some (f l) else lock_at (lock_mgr s) b').
    { intros b'. unfold s1. cbn [lock_mgr set_lock_mgr]. rewrite lock_at_insert by (done || congruence). now rewrite Hlb. }
    destruct (remove_lock_spec N s1 b i (f l)) as (s' & E & [H1 H2 H3 H4 H5 H6] & H7); try done.
    + apply nodup_locks_insert; (done || congruence).
    + apply Forall_insert; [|intros H; now rewrite Hb in H]. eapply Forall_impl; [apply Hs|]. done.
    + intros b' bk Hb'. rewrite Ha, (lks_bytes _ _ Hs b' bk Hb'). destruct (Z.eqb_spec b' b) as [->|]; [now rewrite Hlk|done].
    + intros b'. rewrite Ha. destruct (Z.eqb_spec b' b) as [->|]; intros H; apply (lks_exists _ _ Hs); [now rewrite Hlk|done].
    + apply list_lookup_insert_eq. eapply lookup_lt_Some; exact Hl.
    + exists s'. assert (En : entry_refcounts (f l) = no_refs) by (apply sum_refs_zero; (done || lia)).
      split; [erewrite bind_Ret by (apply update_lock_eq; exact Hl); exact E|]. split; [|cbn in H7; now rewrite length_insert in H7].
      split; try done.
      * intros b'. rewrite H5. destruct (Z.eqb_spec b' b) as [->|Hne]; [done|]. unfold entry_refs. rewrite Ha.
        destruct (Z.eqb_spec b' b); [done|reflexivity].
      * intros b'. rewrite H6. destruct (Z.eqb_spec b' b) as [->|Hne]; [rewrite En; unfold no_refs; cbn; lia|].
        unfold bucket_refs. rewrite Ha. destruct (Z.eqb_spec b' b); [done|reflexivity].
  - destruct (update_lock_spec N N s b i l f
      (fun b' => if b' =? b then entry_refcounts (f l) else entry_refs (lock_mgr s) b')
      (fun b' => if b' =? b then total_refcount l - 1 - sum_refs (entry_refcounts (f l)) else bucket_refs (lock_mgr s) b'))
      as (s' & E & Hle & _ & Hlen' & _); try done; try lia; try congruence.
    + split; try done; lia.
    + intros b'. rewrite Et. done.
    + exists s'. split; [erewrite bind_Ret by exact E; reflexivity|]. split; [exact Hle|lia].
Qed.

Lemma release_bucket_lock_spec N s b :
  locks_ok N s -> shape_ok (trie s) -> N < 2 ^ 32 -> 1 <= bucket_refs (lock_mgr s) b ->
  exists s', release_bucket_lock b s = Ret tt s' /\
    lock_effect N s s' (entry_refs (lock_mgr s)) (fun b' => bucket_refs (lock_mgr s) b' - one_at b b') /\
    (length (lock_mgr s') <= length (lock_mgr s))%nat.
Proof.
  intros Hs Ht HN Hr. destruct (refs_locked (lock_mgr s) b ltac:(left; lia)) as [l Hlk].
  destruct (lock_index _ _ _ Hlk) as (i & Hi & Hl). destruct (lock_at_ok _ _ _ _ Hs Hlk) as [[L1 L2 L3 L4] Hlb].
  assert (Eb : bucket_refs (lock_mgr s) b = total_refcount l - sum_refs (entry_refcounts l)) by (unfold bucket_refs; now rewrite Hlk).
  destruct (drop_ref_spec N s b i l (add_total (-1))) as (s' & E & [H1 H2 H3 H4 H5 H6] & Hlen); try done; try lia.
  - apply u32_small. lia.
  - cbn [entry_refcounts add_total]. lia.
  - exists s'. split; [|split; [split; try done|exact Hlen]].
    + unfold release_bucket_lock, get_locks. erewrite bind_Ret by reflexivity. rewrite Hi.
      erewrite bind_Ret by reflexivity. rewrite Hl. erewrite bind_Ret by reflexivity.
      erewrite bind_Ret by (apply assert_true, negb_true_iff, Z.eqb_neq; lia). exact E.
    + intros b'. rewrite H5. destruct (Z.eqb_spec b' b) as [->|]; [|done]. unfold entry_refs. now rewrite Hlk.
    + intros b'. rewrite H6. unfold one_at. destruct (Z.eqb_spec b' b) as [->|]; [|lia]. cbn [entry_refcounts add_total]. lia.
Qed.

Lemma update_lock_twice' s i l f g :
  lock_mgr s !! i = Some l ->
  (_ ← update_lock i f; update_lock i g) s = update_lock i (fun l => g (f l)) s.
Proof.
  intros Hl. pose proof (lookup_lt_Some _ _ _ Hl) as Hi.
  erewrite bind_Ret by (apply update_lock_eq; exact Hl).
  etransitivity; [apply (update_lock_eq _ i (f l)); cbn; now apply list_lookup_insert_eq|].
  cbn [lock_mgr set_lock_mgr]. rewrite list_insert_insert_eq. symmetry. exact (update_lock_eq s i l (fun x => g (f x)) Hl).
Qed.

(** ** Entry locks *)

Definition entry_ref (ls : ct_lock_mgr) (p : pos) : Z := byte_at (entry_refs ls (pos_bucket p)) (pos_cell p).

Lemma byte_at_lookup l c : (c < length l)%nat -> l !! c = Some (byte_at l c).
Proof. intros Hc. unfold byte_at. destruct (nth_lookup_or_length l c 0); [done|lia]. Qed.

Definition add_ref (d : Z) (c : nat) (refs : list Z) : list Z := alter (fun r => r + d) c refs.

Lemma length_add_ref d c refs : length (add_ref d c refs) = length refs.
Proof. apply length_alter. Qed.

Lemma add_ref_nonneg d c refs :
  Forall (fun r => 0 <= r) refs -> (c < length refs)%nat -> 0 <= byte_at refs c + d ->
  Forall (fun r => 0 <= r) (add_ref d c refs).
Proof.
  intros Hf Hc Hd. apply Forall_alter; [exact Hf|]. intros x Hx _. rewrite byte_at_lookup in Hx by done. congruence.
Qed.

Lemma sum_add_ref d c refs : (c < length refs)%nat -> sum_refs (add_ref d c refs) = sum_refs refs + d.
Proof. intros Hc. apply (sum_refs_alter _ _ _ (byte_at refs c)). now apply byte_at_lookup. Qed.

(** The code's update of one counter does not wrap. *)
Lemma add_entry_ref_eq N c d l :
  lock_ok N l -> (c < CUCKOO_BUCKET_SIZE)%nat -> N + 1 < 2 ^ 32 -> -1 <= d <= 1 ->
  0 <= byte_at (entry_refcounts l) c + d ->
  entry_refcounts (add_entry_ref c d l) = add_ref d c (entry_refcounts l).
Proof.
  intros [L1 L2 L3 L4] Hc HN Hd H0. cbn. apply list_eq. intros k. unfold add_ref.
  destruct (decide (k = c)) as [->|Hne]; [|now rewrite !list_lookup_alter_ne].
  rewrite !list_lookup_alter_eq. rewrite byte_at_lookup by (now rewrite L1). cbn. f_equal. apply u32_small.
  pose proof (sum_refs_lookup _ _ _ L2 (byte_at_lookup (entry_refcounts l) c ltac:(now rewrite L1))). lia.
Qed.

(** One more, or one less, entry reference in the record of bucket [b]. *)
Lemma change_entry_ref_spec N s b i l c d :
  locks_ok N s -> shape_ok (trie s) -> N + 1 < 2 ^ 32 -> (c < CUCKOO_BUCKET_SIZE)%nat -> d = 1 \/ d = -1 ->
  find_write_lock (lock_mgr s) b = Some i -> lock_mgr s !! i = Some l ->
  0 <= byte_at (entry_refcounts l) c + d -> 0 < total_refcount l + d ->
  exists s', update_lock i (fun l => add_total d (add_entry_ref c d l)) s = Ret tt s' /\ trie s' = trie s /\
    lock_effect (N + 1) s s'
      (fun b' => if b' =? b then add_ref d c (entry_refs (lock_mgr s) b) else entry_refs (lock_mgr s) b')
      (bucket_refs (lock_mgr s)) /\
    length (lock_mgr s') = length (lock_mgr s).
Proof.
  intros Hs Ht HN Hc Hd Hi Hl H0 Htot. destruct (find_write_lock_Some _ _ _ Hi) as (l' & Hl' & Hlb & Hlk).
  assert (l' = l) as -> by congruence. destruct (lock_at_ok _ _ _ _ Hs Hlk) as [Hlok _]. pose proof Hlok as [L1 L2 L3 L4].
  set (f := fun l => add_total d (add_entry_ref c d l)).
  assert (Er : entry_refcounts (f l) = add_ref d c (entry_refcounts l)) by (apply (add_entry_ref_eq N); (done || lia)).
  assert (Et : total_refcount (f l) = total_refcount l + d) by (apply u32_small; cbn; lia).
  assert (Es : sum_refs (add_ref d c (entry_refcounts l)) = sum_refs (entry_refcounts l) + d)
    by (apply sum_add_ref; now rewrite L1).
  destruct (update_lock_spec N (N + 1) s b i l f
    (fun b' => if b' =? b then add_ref d c (entry_refs (lock_mgr s) b) else entry_refs (lock_mgr s) b')
    (bucket_refs (lock_mgr s))) as (s' & E & Hle & Htr & Hlen & _); try done; try lia.
  - split; rewrite ?Er, ?Et, ?Es; [now rewrite length_add_ref|apply add_ref_nonneg|lia|lia]; [done|now rewrite L1|lia].
  - intros b'. rewrite Er. unfold entry_refs at 1. now rewrite Hlk.
  - intros b'. rewrite Er, Et, Es. destruct (Z.eqb_spec b' b) as [->|]; [|done]. unfold bucket_refs. rewrite Hlk. cbn. lia.
  - exists s'. done.
Qed.

(** An additional lock on an entry of a locked bucket. *)
Lemma write_lock_entry_spec N s p :
  locks_ok N s -> shape_ok (trie s) -> N + 1 < 2 ^ 32 -> (pos_cell p < CUCKOO_BUCKET_SIZE)%nat ->
  is_Some (lock_at (lock_mgr s) (pos_bucket p)) ->
  exists s', write_lock_entry_in_locked_bucket p s = Ret tt s' /\ trie s' = trie s /\
    lock_effect (N + 1) s s'
      (fun b' => if b' =? pos_bucket p then add_ref 1 (pos_cell p) (entry_refs (lock_mgr s) (pos_bucket p))
                 else entry_refs (lock_mgr s) b')
      (bucket_refs (lock_mgr s)) /\
    length (lock_mgr s') = length (lock_mgr s).
Proof.
  intros Hs Ht HN Hc [l Hlk]. destruct (lock_index _ _ _ Hlk) as (i & Hi & Hl).
  destruct (lock_at_ok _ _ _ _ Hs Hlk) as [[L1 L2 L3 L4] _].
  destruct (change_entry_ref_spec N s (pos_bucket p) i l (pos_cell p) 1) as (s' & E & H); try done; try lia; try (now left).
  - pose proof (Forall_lookup_1 _ _ _ _ L2 (byte_at_lookup (entry_refcounts l) (pos_cell p) ltac:(now rewrite L1))) as Hp. cbn in Hp. lia.
  - exists s'. split; [|exact H]. unfold write_lock_entry_in_locked_bucket, get_locks.
    erewrite bind_Ret by reflexivity. rewrite Hi. erewrite bind_Ret by reflexivity.
    rewrite (update_lock_twice' s i l) by done. exact E.
Qed.

(** The references after the lock of the entry in [src] moved to [dst]. *)
Definition moved_refs (ls : ct_lock_mgr) (dst src : pos) (b : Z) : list Z :=
  if entry_ref ls src =? 0 then entry_refs ls b
  else if b =? pos_bucket src then add_ref (-1) (pos_cell src) (entry_refs ls b)
  else if b =? pos_bucket dst then add_ref 1 (pos_cell dst) (entry_refs ls b)
  else entry_refs ls b.

Lemma lock_effect_trans N N' s s1 s2 e1 r1 e2 r2 :
  lock_effect N s s1 e1 r1 -> lock_effect N' s1 s2 e2 r2 -> lock_effect N' s s2 e2 r2.
Proof. intros [] []. split; try done; [etransitivity; eassumption|congruence]. Qed.

Lemma update_lock_inv s i l f s' :
  lock_mgr s !! i = Some l -> update_lock i f s = Ret tt s' -> lock_mgr s' = <[i := f l]> (lock_mgr s).
Proof. intros Hl E. rewrite (update_lock_eq s i l f Hl) in E. injection E as <-. reflexivity. Qed.

(** The update of another record leaves the one of [b] in its place. *)
Lemma find_write_lock_other ls i l f b j :
  nodup_locks ls -> ls !! i = Some l -> wl_bucket (f l) = wl_bucket l -> wl_bucket l <> b ->
  find_write_lock ls b = Some j -> find_write_lock (<[i := f l]> ls) b = Some j.
Proof.
  intros Hnd Hl Hf Hb. unfold find_write_lock. rewrite length_insert. generalize (length ls) as n.
  induction n as [|n IH]; cbn; [done|]. destruct (decide (n = i)) as [->|Hne].
  - rewrite list_lookup_insert_eq, Hl by (eapply lookup_lt_Some; exact Hl). rewrite Hf.
    destruct (Z.eqb_spec (wl_bucket l) b); [done|exact IH].
  - rewrite list_lookup_insert_ne by done. destruct (ls !! n) as [x|]; [|exact IH]. destruct (wl_bucket x =? b); [done|exact IH].
Qed.

(** The four updates of [move_entry_lock], when the entry is locked. *)
Lemma move_refs_spec N s dst src i j l l2 :
  locks_ok N s -> shape_ok (trie s) -> N + 2 < 2 ^ 32 ->
  (pos_cell dst < CUCKOO_BUCKET_SIZE)%nat -> (pos_cell src < CUCKOO_BUCKET_SIZE)%nat ->
  pos_bucket src <> pos_bucket dst ->
  find_write_lock (lock_mgr s) (pos_bucket src) = Some i -> lock_mgr s !! i = Some l ->
  find_write_lock (lock_mgr s) (pos_bucket dst) = Some j -> lock_mgr s !! j = Some l2 ->
  0 < byte_at (entry_refcounts l) (pos_cell src) -> 1 <= bucket_refs (lock_mgr s) (pos_bucket src) ->
  exists s', (_ ← update_lock i (add_entry_ref (pos_cell src) (-1)); _ ← update_lock i (add_total (-1));
              _ ← update_lock j (add_entry_ref (pos_cell dst) 1); update_lock j (add_total 1)) s = Ret tt s' /\
    trie s' = trie s /\
    lock_effect (N + 2) s s'
      (fun b => if b =? pos_bucket src then add_ref (-1) (pos_cell src) (entry_refs (lock_mgr s) b)
                else if b =? pos_bucket dst then add_ref 1 (pos_cell dst) (entry_refs (lock_mgr s) b)
                else entry_refs (lock_mgr s) b)
      (bucket_refs (lock_mgr s)) /\
    length (lock_mgr s') = length (lock_mgr s).
Proof.
  intros Hs Ht HN Hd Hc Hne Hi Hl Hj Hl2 Hpos Hr.
  destruct (find_write_lock_Some _ _ _ Hi) as (x & Hx & Hlb & Hlk). assert (x = l) as -> by congruence.
  destruct (find_write_lock_Some _ _ _ Hj) as (x & Hx2 & Hkb & Hlk2). assert (x = l2) as -> by congruence.
  destruct (lock_at_ok _ _ _ _ Hs Hlk) as [[L1 L2 L3 L4] _]. destruct (lock_at_ok _ _ _ _ Hs Hlk2) as [[K1 K2 K3 K4] _].
  assert (Er : bucket_refs (lock_mgr s) (pos_bucket src) = total_refcount l - sum_refs (entry_refcounts l))
    by (unfold bucket_refs; now rewrite Hlk).
  pose proof (sum_refs_nonneg _ L2) as Hsum.
  pose proof (sum_refs_lookup _ _ _ L2 (byte_at_lookup (entry_refcounts l) (pos_cell src) ltac:(now rewrite L1))) as Hle.
  pose proof (Forall_lookup_1 _ _ _ _ K2 (byte_at_lookup (entry_refcounts l2) (pos_cell dst) ltac:(now rewrite K1))) as Hp2.
  cbn in Hp2. rewrite (update_lock_twice s i l) by done.
  destruct (change_entry_ref_spec N s (pos_bucket src) i l (pos_cell src) (-1)) as (s1 & E1 & T1 & F1 & N1);
    try done; try lia.
  pose proof (update_lock_inv _ _ _ _ _ Hl E1) as M1.
  assert (Hj' : find_write_lock (lock_mgr s1) (pos_bucket dst) = Some j)
    by (rewrite M1; apply (find_write_lock_other _ i l (fun l => add_total (-1) (add_entry_ref (pos_cell src) (-1) l))); try done; [apply Hs|now rewrite Hlb]).
  assert (Hij : i <> j) by (intros <-; congruence).
  assert (Hl2' : lock_mgr s1 !! j = Some l2) by (rewrite M1; now rewrite list_lookup_insert_ne).
  destruct (change_entry_ref_spec (N + 1) s1 (pos_bucket dst) j l2 (pos_cell dst) 1) as (s2 & E2 & T2 & F2 & N2);
    try done; try lia; [apply F1|apply F1|].
  exists s2. split; [|split; [congruence|split; [|congruence]]].
  - erewrite bind_Ret by exact E1. rewrite (update_lock_twice' s1 j l2) by done. exact E2.
  - pose proof (lock_effect_trans _ _ _ _ _ _ _ _ _ F1 F2) as [H1 H2 H3 H4 H5 H6].
    replace (N + 1 + 1) with (N + 2) in H4 by lia. split; try done.
    + intros b. rewrite H5, !(le_entries _ _ _ _ _ F1).
      destruct (Z.eqb_spec b (pos_bucket dst)) as [->|Hb]; [|destruct (Z.eqb_spec b (pos_bucket src)) as [->|]; done].
      destruct (Z.eqb_spec (pos_bucket dst) (pos_bucket src)) as [E|]; [now rewrite E in Hne|done].
    + intros b. rewrite H6. apply F1.
Qed.

Lemma move_entry_lock_spec N s dst src :
  locks_ok N s -> shape_ok (trie s) -> N + 2 < 2 ^ 32 ->
  (pos_cell dst < CUCKOO_BUCKET_SIZE)%nat -> (pos_cell src < CUCKOO_BUCKET_SIZE)%nat ->
  pos_bucket src <> pos_bucket dst ->
  1 <= bucket_refs (lock_mgr s) (pos_bucket src) -> is_Some (lock_at (lock_mgr s) (pos_bucket dst)) ->
  exists s', move_entry_lock dst src s = Ret tt s' /\ trie s' = trie s /\
    lock_effect (N + 2) s s' (moved_refs (lock_mgr s) dst src) (bucket_refs (lock_mgr s)) /\
    length (lock_mgr s') = length (lock_mgr s).
Proof.
  intros Hs Ht HN Hd Hc Hne Hr [l2 Hlk2].
  destruct (refs_locked (lock_mgr s) (pos_bucket src) ltac:(left; lia)) as [l Hlk].
  destruct (lock_index _ _ _ Hlk) as (i & Hi & Hl). destruct (lock_index _ _ _ Hlk2) as (j & Hj & Hl2).
  destruct (lock_at_ok _ _ _ _ Hs Hlk) as [[L1 L2 L3 L4] _].
  assert (Eref : entry_ref (lock_mgr s) src = byte_at (entry_refcounts l) (pos_cell src))
    by (unfold entry_ref, entry_refs; now rewrite Hlk).
  pose proof (Forall_lookup_1 _ _ _ _ L2 (byte_at_lookup (entry_refcounts l) (pos_cell src) ltac:(now rewrite L1))) as Hp.
  cbn in Hp. unfold moved_refs, move_entry_lock, get_locks. rewrite Eref.
  erewrite bind_Ret by reflexivity. rewrite Hi, Hj.
  do 2 erewrite bind_Ret by reflexivity. rewrite Hl. erewrite bind_Ret by reflexivity. unfold entry_refcount.
  destruct (Z.eqb_spec (byte_at (entry_refcounts l) (pos_cell src)) 0) as [E0|E0].
  - exists s. split; [done|split; [done|split; [split; try done|done]]]. apply (locks_ok_mono N); [lia|done].
  - apply (move_refs_spec N s dst src i j l l2); (done || lia).
Qed.

(** ** All locks together *)

(** The table is determined by its cells, counters and lock records. *)
Lemma same_locks_same_trie N s s' :
  locks_ok N s ->
  locks_ok N s' -> same_but_locks (trie s) (trie s') ->
  (forall b', is_Some (lock_at (lock_mgr s') b') <-> is_Some (lock_at (lock_mgr s) b')) -> trie s' = trie s.
Proof.
  intros l_ok Hl Hsame Hat. rewrite (same_but_locks_set_buckets _ _ Hsame).
  assert (E : buckets (trie s') = buckets (trie s)); [|rewrite E; now destruct (trie s)].
  apply list_eq. intros i. destruct Hsame as [_ H2].
  destruct (buckets (trie s) !! i) as [b1|] eqn:E1.
  - destruct (Forall2_lookup_l _ _ _ _ _ H2 E1) as (b2 & E2 & Hc & Hw). rewrite E2. f_equal.
    assert (T1 : trie_bucket (trie s) (Z.of_nat i) = Some b1) by (unfold trie_bucket, zlookup; now rewrite Nat2Z.id, (proj2 (Z.leb_le _ _) (Nat2Z.is_nonneg i))).
    assert (T2 : trie_bucket (trie s') (Z.of_nat i) = Some b2) by (unfold trie_bucket, zlookup; now rewrite Nat2Z.id, (proj2 (Z.leb_le _ _) (Nat2Z.is_nonneg i))).
    assert (Hw' : write_lock b1 = write_lock b2).
    { rewrite (lks_bytes _ _ l_ok _ _ T1), (lks_bytes _ _ Hl _ _ T2). specialize (Hat (Z.of_nat i)).
      destruct (lock_at (lock_mgr s') _), (lock_at (lock_mgr s) _); try done; exfalso.
      - destruct (proj1 Hat ltac:(eauto)). discriminate.
      - destruct (proj2 Hat ltac:(eauto)). discriminate. }
    destruct b1 as [c1 w1], b2 as [c2 w2]. cbn in *. subst c2. f_equal. unfold write_lock in Hw'. cbn in Hw'.
    rewrite !land_255 in Hw'. rewrite (Z.div_mod w1 256), (Z.div_mod w2 256) by lia. congruence.
  - apply lookup_ge_None. rewrite <- (Forall2_length _ _ _ H2). now apply lookup_ge_None.
Qed.

Lemma locked_iff N s b :
  locks_ok N s -> is_Some (lock_at (lock_mgr s) b) <-> 0 < bucket_refs (lock_mgr s) b + sum_refs (entry_refs (lock_mgr s) b).
Proof.
  intros Hs. unfold bucket_refs, entry_refs. destruct (lock_at (lock_mgr s) b) as [l|] eqn:E; cbn [from_option].
  - destruct (lock_at_ok _ _ _ _ Hs E) as [[] _]. split; [lia|eauto].
  - split; [intros [x Hx]; discriminate|]. change (sum_refs no_refs) with 0. lia.
Qed.

(** The unlocking loop, when the locks in [l] are those left. *)
Lemma unlock_all_spec (l : ct_lock_mgr) : forall s,
  shape_ok (trie s) -> Forall (fun x => is_Some (trie_bucket (trie s) (wl_bucket x))) l ->
  (forall b bk, trie_bucket (trie s) b = Some bk -> b ∈ wl_bucket <$> l \/ write_lock bk = 0) ->
  exists s', for_each l (fun _ x => unlock_byte (wl_bucket x)) tt s = Ret tt s' /\
    same_but_locks (trie s) (trie s') /\ shape_ok (trie s') /\ unlocked (trie s') /\
    kv_mem s' = kv_mem s /\ lock_mgr s' = lock_mgr s.
Proof.
  induction l as [|x l IH]; intros s Hsh Hex Hbytes.
  - exists s. split; [reflexivity|]. split; [reflexivity|]. split; [done|]. split; [|done].
    intros b bk Hb. destruct (Hbytes b bk Hb) as [Hin|H]; [inversion Hin|exact H].
  - apply Forall_cons in Hex as [[bk Hbk] Hex]. destruct (shape_bucket _ _ _ Hsh Hbk) as [Hok Hq].
    destruct (shape_set_lock _ _ _ 0 Hsh Hbk ltac:(lia)) as [Hsh1 Hsame1].
    destruct (IH (set_trie (upd_bucket (trie s) (wl_bucket x) (set_write_lock 0 bk)) s)) as (s' & E & H1 & H2 & H3 & H4 & H5).
    + exact Hsh1.
    + eapply Forall_impl; [exact Hex|]. intros y [bky Hy]. cbn. rewrite (trie_bucket_upd _ _ bk) by done. case_match; eauto.
    + intros b bk' Hb. cbn in Hb. rewrite (trie_bucket_upd _ _ bk) in Hb by done. destruct (Z.eqb_spec b (wl_bucket x)) as [->|Hne].
      * right. injection Hb as <-. apply write_lock_set; (done || lia).
      * destruct (Hbytes b bk' Hb) as [Hin|H]; [|by right]. left. rewrite fmap_cons in Hin. by apply elem_of_cons in Hin as [|].
    + exists s'. split; [rewrite (for_each_cons x l _ tt tt s _ (unlock_byte_spec _ _ _ Hbk)); exact E|].
      split; [now transitivity (upd_bucket (trie s) (wl_bucket x) (set_write_lock 0 bk))|done].
Qed.

Lemma release_all_locks_spec N s :
  locks_ok N s -> shape_ok (trie s) ->
  exists t', release_all_locks s = Ret tt (mk_state t' [] (kv_mem s)) /\ same_but_locks (trie s) t' /\ shape_ok t' /\ unlocked t'.
Proof.
  intros Hl Hsh. destruct (unlock_all_spec (lock_mgr s) s Hsh) as (s' & E & Hsame & Hsh' & Hun & Hmem & _).
  - apply Forall_forall. intros x Hx. apply (lks_exists _ _ Hl).
    assert (Hat : lock_at (lock_mgr s) (wl_bucket x) = Some x) by (apply lock_at_elem; [apply Hl|done]). now rewrite Hat.
  - intros b bk Hb. rewrite (lks_bytes _ _ Hl b bk Hb). destruct (lock_at (lock_mgr s) b) as [x|] eqn:Ex; [left|by right].
    apply lock_at_elem in Ex as [Hx <-]; [|apply Hl]. now apply list_elem_of_fmap_2.
  - exists (trie s'). split; [|done]. unfold release_all_locks, get_locks. erewrite bind_Ret by reflexivity.
    erewrite bind_Ret by exact E. rewrite <- Hmem. reflexivity.
Qed.

(** Without locks. *)
Lemma unlocked_locks_ok N s : unlocked (trie s) -> lock_mgr s = [] -> locks_ok N s.
Proof.
  intros Hu Hl. split; rewrite Hl.
  - apply NoDup_nil_2.
  - constructor.
  - intros b bk Hb. exact (Hu b bk Hb).
  - intros b [x Hx]. discriminate.
Qed.
