(* ===== verification/Cells.v ===== *)
(** * The cells of the table as a map

    Between two writes of a relocation the table holds an entry twice, so
    its invariant is stated for a map from positions to entries from which
    one cell, the hole, can be erased. Moving an entry into the hole moves
    the hole and keeps the contents. *)

From S2P Require Import Prelude Bits Entry KeyObject State Hashing Atomics Table Contents Store Locks.
From stdpp Require Import base list gmap.
From Stdlib Require Import ZArith Lia Bool.

#[local] Open Scope Z_scope.

Definition cell_map : Type := pos -> option ct_entry.

Definition erase (h : pos) (E : cell_map) : cell_map := fun p => if decide (p = h) then None else E p.
Definition fill (h : pos) (e : ct_entry) (E : cell_map) : cell_map := fun p => if decide (p = h) then Some e else E p.

Lemma fill_eq h e E : fill h e E h = Some e.
Proof. unfold fill. now rewrite decide_True. Qed.
Lemma fill_ne h e E p : p <> h -> fill h e E p = E p.
Proof. intros. unfold fill. now rewrite decide_False. Qed.
Lemma erase_eq h E : erase h E h = None.
Proof. unfold erase. now rewrite decide_True. Qed.
Lemma erase_ne h E p : p <> h -> erase h E p = E p.
Proof. intros. unfold erase. now rewrite decide_False. Qed.

(** Everything but the buckets is equal. *)
Definition same_params (t t' : cuckoo_trie) : Prop := set_buckets [] t = set_buckets [] t'.

Lemma same_params_eq t t' : same_params t t' -> t' = set_buckets (buckets t') t.
Proof.
  intros H. destruct t, t'. unfold same_params, set_buckets in *. cbn in *. injection H as <- <- <- <- <-. reflexivity.
Qed.

#[export] Instance same_params_equiv : Equivalence same_params.
Proof.
  unfold same_params. split.
  - intros t. reflexivity.
  - intros t t' H. now symmetry.
  - intros t t' t'' H1 H2. now rewrite H1.
Qed.

Lemma same_params_upd t b bk : same_params t (upd_bucket t b bk).
Proof. reflexivity. Qed.

#[export] Instance entry_key_proper : Proper (same_params ==> eq ==> eq ==> eq) entry_key.
Proof. intros t t' H p p' <- e e' <-. now rewrite (same_params_eq _ _ H). Qed.
#[export] Instance alternate_bucket_proper : Proper (same_params ==> eq ==> eq ==> eq) alternate_bucket.
Proof. intros t t' H e e' <- b b' <-. now rewrite (same_params_eq _ _ H). Qed.
#[export] Instance mix_bucket_proper : Proper (same_params ==> eq ==> eq ==> eq) mix_bucket.
Proof. intros t t' H b b' <- g g' <-. now rewrite (same_params_eq _ _ H). Qed.
#[export] Instance in_table_proper : Proper (same_params ==> eq ==> iff) in_table.
Proof. intros t t' H p p' <-. now rewrite (same_params_eq _ _ H). Qed.

Section cells.
(** Only the parameters of [t] are used. *)
Variable t : cuckoo_trie.

(** Cell [p] holds the entry of key [k]. *)
Definition cell_holds (E : cell_map) (p : pos) (k : Z * Z) (e : ct_entry) : Prop :=
  in_table t p /\ E p = Some e /\ used e = true /\ entry_key t p e = k.

Record cells_ok (E : cell_map) : Prop := mk_cells_ok {
  co_entry : forall p e, in_table t p -> E p = Some e -> entry_ok e /\ cell_ok e;
  co_unique : forall p p' k e e', cell_holds E p k e -> cell_holds E p' k e' -> p = p';
}.

(** The entries, wherever they lie. *)
Definition cell_contents (E : cell_map) (k : Z * Z) (e : ct_entry) : Prop :=
  exists p e0, cell_holds E p k e0 /\ e = clear_secondary e0.

Definition same_contents (E E' : cell_map) : Prop := forall k e, cell_contents E k e <-> cell_contents E' k e.

#[export] Instance same_contents_equiv : Equivalence same_contents.
Proof.
  split.
  - intros E k e. done.
  - intros E E' H k e. now rewrite (H k e).
  - intros E E' E'' H1 H2 k e. now rewrite (H1 k e), (H2 k e).
Qed.

Lemma cell_holds_ext E E' p k e : E p = E' p -> cell_holds E p k e -> cell_holds E' p k e.
Proof. intros HE (H1 & H2 & H3 & H4). split; [done|]. split; [congruence|]. done. Qed.

(** An unused cell can be erased, or hold any other unused entry. *)
Lemma erase_unused E h :
  (forall e, E h = Some e -> used e = false) ->
  (forall p k e, cell_holds (erase h E) p k e <-> cell_holds E p k e).
Proof.
  intros Hh p k e. destruct (decide (p = h)) as [->|Hne].
  - split.
    + intros (_ & H & _). rewrite erase_eq in H. discriminate.
    + intros (_ & H & Hu & _). rewrite (Hh e H) in Hu. discriminate.
  - split; apply cell_holds_ext; [now apply erase_ne|symmetry; now apply erase_ne].
Qed.

Lemma cells_ok_erase E h : cells_ok E -> cells_ok (erase h E).
Proof.
  intros [H1 H2]. split.
  - intros p e Hp He. destruct (decide (p = h)) as [->|Hne].
    + rewrite erase_eq in He. discriminate.
    + rewrite erase_ne in He by done. now apply (H1 p).
  - assert (Hsub : forall p k e, cell_holds (erase h E) p k e -> cell_holds E p k e).
    { intros p k e (A1 & A2 & A3 & A4). split; [done|]. split; [|done].
      destruct (decide (p = h)) as [->|Hne]; [rewrite erase_eq in A2; discriminate|now rewrite erase_ne in A2]. }
    intros p p' k e e' Ha Hb. exact (H2 p p' k e e' (Hsub _ _ _ Ha) (Hsub _ _ _ Hb)).
Qed.

Lemma same_contents_ext E E' :
  (forall p k e, cell_holds E p k e <-> cell_holds E' p k e) -> same_contents E E'.
Proof. intros H k e. unfold cell_contents. setoid_rewrite H. reflexivity. Qed.

Lemma cells_ok_ext E E' :
  (forall p e, in_table t p -> E' p = Some e -> E p = Some e \/ used e = false /\ entry_ok e /\ cell_ok e) ->
  cells_ok E -> cells_ok E'.
Proof.
  intros H [H1 H2]. split.
  - intros p e Hp He. destruct (H p e Hp He) as [HE|(_ & HE)]; [now apply (H1 p)|exact HE].
  - assert (Hsub : forall p k e, cell_holds E' p k e -> cell_holds E p k e).
    { intros p k e (A1 & A2 & A3 & A4). destruct (H p e A1 A2) as [HE|(HE & _)]; [done|congruence]. }
    intros p p' k e e' Ha Hb. exact (H2 p p' k e e' (Hsub _ _ _ Ha) (Hsub _ _ _ Hb)).
Qed.

(** ** Moving an entry into the hole *)

Lemma used_flip e : entry_ok e -> used (flip_secondary e) = used e.
Proof.
  intros He. destruct (flip_flags _ (flags_byte e He)) as (Hb & _ & _ & E).
  unfold used, entry_type, flip_secondary. rewrite flags_set_flags by done. rewrite wrap_small by exact Hb. now rewrite E.
Qed.

Lemma color_flip e : entry_ok e -> entry_color (flip_secondary e) = entry_color e.
Proof. intros He. unfold entry_color, flip_secondary. now rewrite color_set_flags. Qed.

Lemma cell_ok_flip e : entry_ok e -> used e = true -> cell_ok e -> cell_ok (flip_secondary e).
Proof. intros He Hu Hc. unfold cell_ok in *. rewrite used_flip by done. rewrite Hu in *. now rewrite color_flip. Qed.

Lemma clear_flip e : entry_ok e -> clear_secondary (flip_secondary e) = clear_secondary e.
Proof.
  intros He. destruct (flip_flags _ (flags_byte e He)) as (Hb & E & _ & _).
  unfold clear_secondary, flip_secondary. rewrite flags_set_flags, set_flags_set_flags by done.
  rewrite wrap_small by exact Hb. now rewrite E.
Qed.

Section move.
Variables (E : cell_map) (h src : pos) (e : ct_entry).
Hypothesis t_ok : params_ok t.
Hypothesis E_ok : cells_ok (erase h E).
Hypothesis src_in : in_table t src.
Hypothesis src_at : E src = Some e.
Hypothesis src_used : used e = true.
Hypothesis h_alt : pos_bucket h = alternate_bucket t e (pos_bucket src).
Hypothesis src_ne : src <> h.

Let E' := fill h (flip_secondary e) E.

Lemma move_entry_ok : entry_ok e /\ cell_ok e.
Proof. apply (co_entry _ E_ok src); [done|]. now rewrite erase_ne. Qed.

Lemma hole_in : in_table t h.
Proof. unfold in_table. rewrite h_alt. apply alternate_bucket_range; [done|apply move_entry_ok|done]. Qed.

Lemma move_key : entry_key t h (flip_secondary e) = entry_key t src e.
Proof.
  destruct move_entry_ok as [He _]. unfold entry_key, entry_hash. rewrite color_flip, flip_secondary_tag by done.
  rewrite h_alt, flip_primary by done. reflexivity.
Qed.

Lemma moved_holds q k x :
  cell_holds (erase src E') q k x <->
  (q = h /\ x = flip_secondary e /\ k = entry_key t src e) \/ (q <> h /\ q <> src /\ cell_holds E q k x).
Proof.
  destruct move_entry_ok as [He _]. split.
  - intros (A1 & A2 & A3 & A4). destruct (decide (q = src)) as [->|Hs]; [rewrite erase_eq in A2; discriminate|].
    rewrite erase_ne in A2 by done. unfold E' in A2. destruct (decide (q = h)) as [->|Hh].
    + rewrite fill_eq in A2. injection A2 as <-. left. split; [done|]. split; [done|]. now rewrite <- A4, move_key.
    + rewrite fill_ne in A2 by done. right. done.
  - intros [(-> & -> & ->)|(Hh & Hs & H)].
    + split; [apply hole_in|]. split; [rewrite erase_ne by (now symmetry); apply fill_eq|].
      split; [now rewrite used_flip|apply move_key].
    + revert H. apply cell_holds_ext. rewrite erase_ne by done. unfold E'. now rewrite fill_ne.
Qed.

Lemma src_holds : cell_holds (erase h E) src (entry_key t src e) e.
Proof. split; [done|]. split; [now rewrite erase_ne|]. done. Qed.

Lemma other_holds q k x : q <> h -> cell_holds E q k x -> cell_holds (erase h E) q k x.
Proof. intros Hq. apply cell_holds_ext. now rewrite erase_ne. Qed.

Lemma moved_ok : cells_ok (erase src E').
Proof.
  destruct move_entry_ok as [He Hc]. split.
  - intros q x Hq Hx. destruct (decide (q = src)) as [->|Hs]; [rewrite erase_eq in Hx; discriminate|].
    rewrite erase_ne in Hx by done. unfold E' in Hx. destruct (decide (q = h)) as [->|Hh].
    + rewrite fill_eq in Hx. injection Hx as <-. split; [now apply flip_secondary_ok|now apply cell_ok_flip].
    + rewrite fill_ne in Hx by done. apply (co_entry _ E_ok q); [done|]. now rewrite erase_ne.
  - intros q q' k x x' H1 H2. apply moved_holds in H1, H2.
    destruct H1 as [(-> & -> & ->)|(Hh & Hs & H1)], H2 as [(-> & -> & Hk)|(Hh' & Hs' & H2)].
    + done.
    + exfalso. apply Hs'. symmetry. exact (co_unique _ E_ok _ _ _ _ _ src_holds (other_holds _ _ _ Hh' H2)).
    + subst k. exfalso. apply Hs. symmetry. exact (co_unique _ E_ok _ _ _ _ _ src_holds (other_holds _ _ _ Hh H1)).
    + exact (co_unique _ E_ok _ _ _ _ _ (other_holds _ _ _ Hh H1) (other_holds _ _ _ Hh' H2)).
Qed.

Lemma moved_contents : same_contents (erase h E) (erase src E').
Proof.
  destruct move_entry_ok as [He _]. intros k x. split.
  - intros (q & e0 & H & ->). destruct (decide (q = h)) as [->|Hh].
    { destruct H as (_ & H & _). rewrite erase_eq in H. discriminate. }
    assert (HE : cell_holds E q k e0) by (revert H; apply cell_holds_ext; now apply erase_ne).
    destruct (decide (q = src)) as [->|Hs].
    + destruct HE as (_ & Ha & _ & Hk). rewrite src_at in Ha. injection Ha as <-.
      exists h, (flip_secondary e). split; [apply moved_holds; now left|]. symmetry. now apply clear_flip.
    + exists q, e0. split; [apply moved_holds; now right|done].
  - intros (q & e0 & H & ->). apply moved_holds in H as [(-> & -> & ->)|(Hh & Hs & H)].
    + exists src, e. split; [apply src_holds|]. now apply clear_flip.
    + exists q, e0. split; [now apply other_holds|done].
Qed.
End move.
End cells.

(** The invariant of the table is that of its map of cells. *)
Lemma table_cells t : table_ok t <-> shape_ok t /\ cells_ok t (trie_entry t).
Proof.
  split.
  - intros Ht. split; [now apply table_shape|]. split.
    + intros p e Hp He. split; [exact (trie_entry_ok t Ht p e He)|exact (tb_cells t Ht p e Hp He)].
    + exact (tb_unique t Ht).
  - intros [[H1 H2 H3 H4] [H5 H6]]. split; try done. intros p e Hp He. exact (proj2 (H5 p e Hp He)).
Qed.

Lemma cells_ok_params t t' E : same_params t t' -> cells_ok t E -> cells_ok t' E.
Proof. intros H [H1 H2]. rewrite (same_params_eq _ _ H). split; [exact H1|exact H2]. Qed.

Lemma cell_holds_params t t' E p k e : same_params t t' -> cell_holds t E p k e <-> cell_holds t' E p k e.
Proof. intros H. now rewrite (same_params_eq _ _ H). Qed.

Lemma same_contents_params t t' E E' : same_params t t' -> same_contents t E E' -> same_contents t' E E'.
Proof. intros H. rewrite (same_params_eq _ _ H). done. Qed.

(** ** Writing a cell of a locked bucket *)

Lemma locked_bucket N s b :
  locks_ok N s -> is_Some (lock_at (lock_mgr s) b) ->
  exists bk, trie_bucket (trie s) b = Some bk /\ write_lock bk = 1.
Proof.
  intros Hs Hl. destruct (lks_exists _ _ Hs b Hl) as [bk Hb]. exists bk. split; [done|].
  rewrite (lks_bytes _ _ Hs b bk Hb). now destruct Hl as [l ->].
Qed.

Lemma write_locked_spec N s p e :
  locks_ok N s -> shape_ok (trie s) -> is_Some (lock_at (lock_mgr s) (pos_bucket p)) ->
  (pos_cell p < CUCKOO_BUCKET_SIZE)%nat -> entry_ok e ->
  exists seq t', write_entry p e s = Ret seq (set_trie t' s) /\ shape_ok t' /\ same_params (trie s) t' /\
    locks_ok N (set_trie t' s) /\ (forall q, trie_entry t' q = fill p e (trie_entry (trie s)) q) /\
    (forall b, b <> pos_bucket p -> trie_bucket t' b = trie_bucket (trie s) b).
Proof.
  intros Hs Ht Hl Hc He. destruct (locked_bucket N s _ Hs Hl) as (bk & Hb & Hlk).
  destruct (shape_bucket _ _ _ Ht Hb) as [Hok Hq].
  destruct (lookup_lt_is_Some_2 (cells bk) (pos_cell p)) as [e0 He0]; [now rewrite bk_length|].
  exists (next_word (write_lock_and_seq bk)), (upd_bucket (trie s) (pos_bucket p) (write_cell bk (pos_cell p) e)).
  split; [now apply (write_entry_spec s p e e0 bk)|]. split; [|split; [reflexivity|split; [|split]]].
  - apply (shape_upd _ _ bk); try done; [now apply write_cell_ok|now apply write_cell_quiescent].
  - destruct Hs as [H1 H2 H3 H4]. split; cbn; try done.
    + intros b bk' Hb'. rewrite (trie_bucket_upd _ _ bk) in Hb' by done. destruct (Z.eqb_spec b (pos_bucket p)) as [->|].
      * injection Hb' as <-. rewrite write_cell_lock by done. now apply H3.
      * now apply H3.
    + intros b Hb'. rewrite (trie_bucket_upd _ _ bk) by done. destruct (b =? pos_bucket p); [eauto|now apply H4].
  - intros q. rewrite (trie_entry_store (trie s) p bk e e0) by done. reflexivity.
  - intros b Hne. rewrite (trie_bucket_upd _ _ bk) by done. destruct (Z.eqb_spec b (pos_bucket p)); [done|reflexivity].
Qed.
