(* ===== verification/Search.v ===== *)
(** * Searching for a free cell (main.c: find_free_cell_in_bucket, relocate_entry)

    The breadth-first search of [relocate_entry] walks over alternate buckets
    until one has a free cell. It ends, every bucket joins the queue once,
    and it gives up only when no bucket it can reach has a free cell, or the
    queue is full. *)

From S2P Require Import Prelude Bits Entry KeyObject State Hashing Atomics Table Contents Store Locks Cells.
From stdpp Require Import base list gmap.
From Stdlib Require Import ZArith Lia Bool.

#[local] Open Scope Z_scope.

(** ** Free cells *)

Lemma find_free_from_Some l i c :
  find_free_from l i = Some c -> (i <= c)%nat /\ exists e, l !! (c - i)%nat = Some e /\ used e = false.
Proof.
  revert i. induction l as [|e l IH]; intros i H; cbn in H; [discriminate|].
  destruct (entry_type e =? TYPE_UNUSED) eqn:E.
  - injection H as <-. split; [lia|]. exists e. rewrite Nat.sub_diag. split; [done|]. unfold used. now rewrite E.
  - destruct (IH _ H) as (Hi & e' & He' & Hu). split; [lia|]. exists e'. split; [|done].
    replace (c - i)%nat with (S (c - S i)) by lia. exact He'.
Qed.

Lemma find_free_from_None l i c e : find_free_from l i = None -> l !! c = Some e -> used e = true.
Proof.
  revert i c. induction l as [|e' l IH]; intros i c H Hc; cbn in H; [discriminate|].
  destruct (entry_type e' =? TYPE_UNUSED) eqn:E; [discriminate|]. destruct c as [|c].
  - injection Hc as <-. unfold used. now rewrite E.
  - exact (IH _ c H Hc).
Qed.

Lemma find_free_Some b c :
  find_free_cell_in_bucket b = Some c ->
  (c < CUCKOO_BUCKET_SIZE)%nat /\ exists e, cells b !! c = Some e /\ used e = false.
Proof.
  intros H. destruct (find_free_from_Some _ _ _ H) as (_ & e & He & Hu). rewrite Nat.sub_0_r in He.
  apply lookup_take_Some in He as [He Hc]. eauto.
Qed.

Lemma find_free_None b c e :
  bucket_ok b -> find_free_cell_in_bucket b = None -> cells b !! c = Some e -> used e = true.
Proof.
  intros Hb H Hc. apply (find_free_from_None _ _ c e H).
  rewrite take_ge by (now rewrite bk_length). exact Hc.
Qed.

(** ** The search *)

Definition read_lock_ok (t : cuckoo_trie) (rl : ct_bucket_read_lock) (b : Z) : Prop :=
  exists bk, trie_bucket t b = Some bk /\ rl = mk_read_lock b (seq_part (write_lock_and_seq bk)).

Section search.
Variables (t : cuckoo_trie) (immovable : option pos) (start : Z).
Hypothesis t_shape : shape_ok t.

(** An entry the search may move. *)
Record movable (p : pos) (e : ct_entry) : Prop := mk_movable {
  mv_in : in_table t p;
  mv_cell : (pos_cell p < CUCKOO_BUCKET_SIZE)%nat;
  mv_entry : trie_entry t p = Some e;
  mv_used : used e = true;
  mv_immovable : Some p <> immovable;
  mv_root : p <> root_pos;
}.

Definition full (b : Z) : Prop := exists bk, trie_bucket t b = Some bk /\ find_free_cell_in_bucket bk = None.

(** Bucket [b] is the alternate bucket of the entry in cell [idx] of queue
    entry [par], which comes before position [n]. *)
Definition link (Q : list relocation_queue_entry) (n par idx : nat) (b : Z) : Prop :=
  (par < n)%nat /\ exists q e, Q !! par = Some q /\ movable (mk_pos (q_bucket q) idx) e /\
    alternate_bucket t e (q_bucket q) = b.

Record queue_ok (Q : list relocation_queue_entry) : Prop := mk_queue_ok {
  qo_nodup : NoDup (q_bucket <$> Q);
  qo_range : forall i q, Q !! i = Some q -> 0 <= q_bucket q < num_buckets t;
  qo_full : forall i q, Q !! i = Some q -> full (q_bucket q);
  qo_link : forall i q, (0 < i)%nat -> Q !! i = Some q ->
    link Q i (q_parent_queue_pos q) (q_child_idx q) (q_bucket q) /\ read_lock_ok t (q_read_lock q) (q_bucket q);
  qo_length : (length Q <= RELOCATE_QUEUE_SIZE)%nat;
  qo_head : exists q, Q !! 0%nat = Some q /\ q_bucket q = start;
}.

(** The free cell found from queue entry [par]. *)
Record found_ok (Q : list relocation_queue_entry) (par : nat) (fc : found_cell) : Prop := mk_found_ok {
  fo_link : link Q (length Q) par (fc_child_idx fc) (pos_bucket (fc_free_cell fc));
  fo_new : forall i q, Q !! i = Some q -> q_bucket q <> pos_bucket (fc_free_cell fc);
  fo_in : in_table t (fc_free_cell fc);
  fo_cell : (pos_cell (fc_free_cell fc) < CUCKOO_BUCKET_SIZE)%nat;
  fo_free : exists e, trie_entry t (fc_free_cell fc) = Some e /\ used e = false;
  fo_lock : read_lock_ok t (fc_read_lock fc) (pos_bucket (fc_free_cell fc));
}.

Lemma link_app Q Q' n par idx b : link Q n par idx b -> link (Q ++ Q') n par idx b.
Proof.
  intros (Hp & q & e & Hq & H). split; [done|]. exists q, e. split; [|done]. now apply lookup_app_l_Some.
Qed.

Lemma link_mono Q n n' par idx b : (n <= n')%nat -> link Q n par idx b -> link Q n' par idx b.
Proof. intros Hn (Hp & H). split; [lia|exact H]. Qed.

Lemma queue_ok_snoc Q q :
  queue_ok Q -> (length Q < RELOCATE_QUEUE_SIZE)%nat ->
  (forall i q', Q !! i = Some q' -> q_bucket q' <> q_bucket q) -> 0 <= q_bucket q < num_buckets t ->
  full (q_bucket q) -> link Q (length Q) (q_parent_queue_pos q) (q_child_idx q) (q_bucket q) ->
  read_lock_ok t (q_read_lock q) (q_bucket q) -> queue_ok (Q ++ [q]).
Proof.
  intros [H1 H2 H3 H4 H5 (q0 & Hq0 & Hs)] Hlen Hnew Hr Hf Hl Hrl. split.
  - rewrite fmap_app. apply NoDup_app. split; [done|]. split; [|apply NoDup_singleton].
    intros b Hb Hb'. cbn in Hb'. apply list_elem_of_singleton in Hb'. subst b.
    apply list_elem_of_fmap in Hb as (q' & E & Hq'). apply list_elem_of_lookup in Hq' as [i Hi]. exact (Hnew i q' Hi (eq_sym E)).
  - intros i q' Hi. apply lookup_snoc_Some in Hi as [[_ Hi]|[_ <-]]; [exact (H2 _ _ Hi)|done].
  - intros i q' Hi. apply lookup_snoc_Some in Hi as [[_ Hi]|[_ <-]]; [exact (H3 _ _ Hi)|done].
  - intros i q' H0 Hi. apply lookup_snoc_Some in Hi as [[_ Hi]|[-> <-]].
    + destruct (H4 i q' H0 Hi) as [Ha Hb]. split; [now apply link_app|done].
    + split; [now apply link_app|done].
  - rewrite length_app. cbn. lia.
  - exists q0. split; [now apply lookup_app_l_Some|done].
Qed.

(** ** What the search has looked at *)

Definition queued (Q : list relocation_queue_entry) (b : Z) : Prop := exists i q, Q !! i = Some q /\ q_bucket q = b.

(** The alternate bucket of the entry in cell [i] of [b] is in the queue,
    unless the queue is full. *)
Definition explored_cell (Q : list relocation_queue_entry) (b : Z) (i : nat) : Prop :=
  forall e, movable (mk_pos b i) e -> queued Q (alternate_bucket t e b) \/ length Q = RELOCATE_QUEUE_SIZE.

(** So are those of all buckets before position [n]. *)
Definition explored (Q : list relocation_queue_entry) (n : nat) : Prop :=
  forall i q c, (i < n)%nat -> Q !! i = Some q -> (c < CUCKOO_BUCKET_SIZE)%nat -> explored_cell Q (q_bucket q) c.

Lemma queued_mono Q Q' b : Q `prefix_of` Q' -> queued Q b -> queued Q' b.
Proof. intros HQ (i & q & Hi & Hb). exists i, q. split; [|done]. exact (prefix_lookup_Some _ _ _ _ Hi HQ). Qed.

Lemma explored_cell_mono Q Q' b i :
  Q `prefix_of` Q' -> (length Q' <= RELOCATE_QUEUE_SIZE)%nat -> explored_cell Q b i -> explored_cell Q' b i.
Proof.
  intros HQ Hlen H e He. destruct (H e He) as [Hq|Hq]; [left; now apply (queued_mono Q)|right].
  pose proof (prefix_length _ _ HQ). lia.
Qed.

Lemma queued_search Q b : existsb (fun q => q_bucket q =? b) Q = true -> queued Q b.
Proof.
  intros H. apply existsb_exists in H as (q & Hq & E). apply list_elem_of_In, list_elem_of_lookup in Hq as [i Hi].
  exists i, q. split; [done|now apply Z.eqb_eq].
Qed.

(** What the scan of the cells of queue entry [par] maintains. *)
Definition scan_ok (par : nat) (acc : list relocation_queue_entry * option found_cell) : Prop :=
  queue_ok (fst acc) /\ (par < length (fst acc))%nat /\
  match snd acc with Some fc => found_ok (fst acc) par fc | None => True end.

(** The alternate bucket of an entry, when it is not in the queue. *)
Lemma scan_child_spec s par q Q i e :
  trie s = t -> queue_ok Q -> Q !! par = Some q -> movable (mk_pos (q_bucket q) i) e ->
  let child := alternate_bucket t e (q_bucket q) in
  (forall j q', Q !! j = Some q' -> q_bucket q' <> child) ->
  exists acc',
    (read_lock ← read_lock_bucket child;
     child' ← get_bucket child;
     match find_free_cell_in_bucket child' with
     | None =>
         if (length Q <? RELOCATE_QUEUE_SIZE)%nat then
           mret (Q ++ [mk_queue_entry child read_lock par i], None)
         else mret (Q, None)
     | Some c => mret (Q, Some (mk_found (mk_pos child c) i read_lock))
     end) s = Ret acc' s /\ scan_ok par acc' /\ Q `prefix_of` fst acc' /\
    (snd acc' = None -> queued (fst acc') child \/ length (fst acc') = RELOCATE_QUEUE_SIZE).
Proof.
  intros Hs HQ Hq Hmv child Hnew. assert (Hpar : (par < length Q)%nat) by (eapply lookup_lt_Some; exact Hq).
  assert (Heok : entry_ok e) by exact (shape_entry t _ e t_shape (mv_entry _ _ Hmv)).
  assert (Hrange : 0 <= child < num_buckets t)
    by (apply alternate_bucket_range; [apply t_shape|done|exact (qo_range Q HQ par q Hq)]).
  assert (Hlink : link Q (length Q) par i child) by (split; [done|]; exists q, e; done).
  destruct (shape_exists t child t_shape) as [bk' Hbk']; [lia|].
  unfold read_lock_bucket. erewrite bind_Ret.
  2: { erewrite bind_Ret by (apply get_bucket_eq; rewrite Hs; exact Hbk'). reflexivity. }
  erewrite bind_Ret by (apply get_bucket_eq; rewrite Hs; exact Hbk').
  destruct (find_free_cell_in_bucket bk') as [c|] eqn:Efree.
  - eexists. split; [reflexivity|]. split; [|done]. split; [done|]. split; [done|]. cbn [snd].
    destruct (find_free_Some _ _ Efree) as (Hc & e' & He' & Hu').
    split; cbn [fc_child_idx fc_free_cell fc_read_lock pos_bucket pos_cell fst]; try done.
    + exists e'. split; [unfold trie_entry; cbn; now rewrite Hbk'|done].
    + now exists bk'.
  - destruct (Nat.ltb_spec (length Q) RELOCATE_QUEUE_SIZE) as [Hlen|Hlen].
    + eexists. split; [reflexivity|]. cbn [fst snd]. split; [|split; [now apply prefix_app_r|]].
      * split; [|split; [cbn [fst]; rewrite length_app; lia|done]].
        cbn [fst]. apply queue_ok_snoc; cbn; try done; now exists bk'.
      * intros _. left. exists (length Q). eexists. split; [now apply list_lookup_middle|done].
    + exists (Q, None). split; [done|]. split; [done|]. split; [done|]. intros _. right. cbn. pose proof (qo_length Q HQ). lia.
Qed.

Lemma scan_cell_spec s par q acc i :
  trie s = t -> scan_ok par acc -> fst acc !! par = Some q -> (i < CUCKOO_BUCKET_SIZE)%nat ->
  exists acc', relocate_scan_cell immovable par (q_bucket q) acc i s = Ret acc' s /\ scan_ok par acc' /\
    fst acc `prefix_of` fst acc' /\
    (snd acc' = None -> snd acc = None /\ explored_cell (fst acc') (q_bucket q) i).
Proof.
  intros Hs Hok Hq Hi. destruct acc as [Q found]. pose proof Hok as (HQ & Hpar & Hf). cbn [fst snd] in *.
  unfold relocate_scan_cell. destruct found as [fc|]; [now exists (Q, Some fc)|].
  assert (Hkeep : explored_cell Q (q_bucket q) i ->
    exists acc', (mret (Q, None) : MS (list relocation_queue_entry * option found_cell)) s = Ret acc' s /\ scan_ok par acc' /\ Q `prefix_of` fst acc' /\
      (snd acc' = None -> @None found_cell = None /\ explored_cell (fst acc') (q_bucket q) i)) by (intros; now exists (Q, None)).
  destruct (decide (Some (mk_pos (q_bucket q) i) = immovable)) as [Eim|Him].
  { rewrite bool_decide_true by done. apply Hkeep. intros e [_ _ _ _ H _]. contradiction. }
  rewrite (bool_decide_false _ Him).
  destruct (decide (mk_pos (q_bucket q) i = root_pos)) as [Ero|Hro].
  { rewrite bool_decide_true by done. apply Hkeep. intros e [_ _ _ _ _ H]. contradiction. }
  rewrite (bool_decide_false _ Hro). unfold get_trie. erewrite bind_Ret by reflexivity. rewrite Hs.
  destruct (qo_full Q HQ par q Hq) as (bk & Hbk & Hfull). destruct (shape_bucket _ _ _ t_shape Hbk) as [Hbok _].
  destruct (lookup_lt_is_Some_2 (cells bk) i) as [e He]; [now rewrite bk_length|].
  assert (Hent : trie_entry t (mk_pos (q_bucket q) i) = Some e) by (unfold trie_entry; cbn; now rewrite Hbk).
  assert (Hmv : movable (mk_pos (q_bucket q) i) e)
    by (split; try done; [exact (qo_range Q HQ par q Hq)|exact (find_free_None bk i e Hbok Hfull He)]).
  erewrite bind_Ret by (apply get_entry_eq; rewrite Hs; exact Hent).
  assert (Hexp : forall Q', queued Q' (alternate_bucket t e (q_bucket q)) \/ length Q' = RELOCATE_QUEUE_SIZE ->
            explored_cell Q' (q_bucket q) i)
    by (intros Q' HQ' e' [_ _ He' _ _ _]; rewrite Hent in He'; now injection He' as <-).
  destruct (existsb _ Q) eqn:Eex; [apply Hkeep, Hexp; left; now apply queued_search|].
  destruct (scan_child_spec s par q Q i e Hs HQ Hq Hmv) as (acc' & E & Hok' & Hpre & Hn).
  { intros j q' Hj E. apply not_true_iff_false in Eex. apply Eex. apply existsb_exists. exists q'.
    split; [apply list_elem_of_In; eapply list_elem_of_lookup_2; exact Hj|now apply Z.eqb_eq]. }
  exists acc'. split; [exact E|]. split; [done|]. split; [done|]. intros H. split; [done|]. apply Hexp, Hn, H.
Qed.

(** The scan of all cells of queue entry [par]. *)
Lemma scan_queue_bucket_spec s par q Q :
  trie s = t -> queue_ok Q -> Q !! par = Some q ->
  exists acc', for_each (seq 0 CUCKOO_BUCKET_SIZE) (relocate_scan_cell immovable par (q_bucket q)) (Q, None) s = Ret acc' s /\
    scan_ok par acc' /\ Q `prefix_of` fst acc' /\
    (snd acc' = None -> forall i, (i < CUCKOO_BUCKET_SIZE)%nat -> explored_cell (fst acc') (q_bucket q) i).
Proof.
  intros Hs HQ Hq.
  destruct (for_each_seq_inv (fun n acc => scan_ok par acc /\ Q `prefix_of` fst acc /\
      (snd acc = None -> forall i, (i < n)%nat -> explored_cell (fst acc) (q_bucket q) i)) 0 CUCKOO_BUCKET_SIZE
    (relocate_scan_cell immovable par (q_bucket q)) (Q, None) s) as (acc' & E & H).
  - split; [|split; [done|intros _ i Hi; lia]]. split; [done|]. split; [eapply lookup_lt_Some; exact Hq|done].
  - intros acc i Hi (Ha & Hb & Hc).
    destruct (scan_cell_spec s par q acc i Hs Ha (prefix_lookup_Some _ _ _ _ Hq Hb) ltac:(lia))
      as (acc' & E & Ha' & Hb' & Hc').
    exists acc'. split; [exact E|]. split; [done|]. split; [now transitivity (fst acc)|].
    intros Hn j Hj. destruct (Hc' Hn) as [Hn0 Hi']. destruct (decide (j = i)) as [->|Hne]; [done|].
    apply (explored_cell_mono (fst acc)); [done|apply Ha'|]. apply Hc; [done|lia].
  - now exists acc'.
Qed.

Definition search_ok (r : list relocation_queue_entry * nat * option found_cell) : Prop :=
  let '(Q, queue_pos, found) := r in
  queue_ok Q /\ match found with
                | Some fc => (0 < queue_pos)%nat /\ found_ok Q (queue_pos - 1) fc
                | None => explored Q queue_pos
                end.

(** The search ends: every round moves on in a queue of bounded length. *)
Lemma search_loop_spec s fuel Q queue_pos found :
  trie s = t -> search_ok (Q, queue_pos, found) -> (RELOCATE_QUEUE_SIZE + 2 <= fuel + queue_pos)%nat ->
  (queue_pos <= length Q)%nat ->
  exists r, loop fuel
    (fun '(queue, queue_pos, found) =>
       match found, queue !! queue_pos with
       | None, Some q =>
           '(queue', found') ←
             for_each (seq 0 CUCKOO_BUCKET_SIZE)
               (relocate_scan_cell immovable queue_pos (q_bucket q)) (queue, None);
           mret (inl (queue', S queue_pos, found'))
       | _, _ => mret (inr (queue, queue_pos, found))
       end) (Q, queue_pos, found) s = Ret r s /\ search_ok r /\
    match r with (Q', n', None) => n' = length Q' | _ => True end.
Proof.
  intros Hs. revert Q queue_pos found. induction fuel as [|fuel IH]; intros Q n found Hok Hfuel Hn.
  - destruct Hok as [HQ _]. pose proof (qo_length Q HQ). lia.
  - destruct Hok as [HQ Hf]. destruct found as [fc|].
    { eexists. split; [now apply loop_inr|]. done. }
    destruct (Q !! n) as [q|] eqn:Hq.
    2: { eexists. split; [apply loop_inr; now rewrite Hq|]. split; [done|]. apply lookup_ge_None in Hq. lia. }
    destruct (scan_queue_bucket_spec s n q Q Hs HQ Hq) as ([Q' found'] & E & (HQ' & Hlen & Hf') & Hpre & Hexp).
    cbn [fst snd] in *. destruct (IH Q' (S n) found') as (r & Er & Hr); [|lia|lia|].
    + split; [done|]. destruct found' as [fc|]; [split; [lia|]; now replace (S n - 1)%nat with n by lia|].
      intros i q' c Hi Hq' Hc. destruct (decide (i = n)) as [->|Hne].
      * rewrite (prefix_lookup_Some _ _ _ _ Hq Hpre) in Hq'. injection Hq' as <-. now apply Hexp.
      * apply (explored_cell_mono Q); [done|apply HQ'|]. apply (Hf i); [lia| |done].
        rewrite <- Hq'. apply prefix_lookup_lt; [apply lookup_lt_Some in Hq; lia|done].
    + exists r. split; [|exact Hr]. rewrite (loop_inl _ _ _ (Q', S n, found') s s); [exact Er|].
      rewrite Hq. erewrite bind_Ret by exact E. reflexivity.
Qed.

Lemma relocate_search_spec s :
  trie s = t -> full start -> 0 <= start < num_buckets t ->
  exists r, relocate_search immovable start s = Ret r s /\ search_ok r /\
    match r with (Q', n', None) => n' = length Q' | _ => True end.
Proof.
  intros Hs Hfull Hrange. unfold relocate_search. apply search_loop_spec; [done| |lia|cbn; lia].
  split; [|intros i q c Hi; lia]. split.
  - apply NoDup_singleton.
  - intros i q Hi. apply list_lookup_singleton_Some in Hi as [_ <-]. exact Hrange.
  - intros i q Hi. apply list_lookup_singleton_Some in Hi as [_ <-]. exact Hfull.
  - intros i q H0 Hi. apply list_lookup_singleton_Some in Hi as [-> _]. lia.
  - unfold RELOCATE_QUEUE_SIZE. cbn. lia.
  - eexists. split; reflexivity.
Qed.
End search.

