(* ===== verification/Relocate.v ===== *)
(** * Relocating entries (main.c: relocate_entry)

    Moving every entry on the path of the search one step towards the free
    cell frees a cell of the first bucket and keeps what the table contains. *)

From S2P Require Import Prelude Bits Entry KeyObject State Hashing Atomics Table Contents Store Locks Cells Search.
From stdpp Require Import base list gmap.
From Stdlib Require Import ZArith Lia Bool.

#[local] Open Scope Z_scope.

(** ** The path from the free cell back to the first bucket *)

(** Queue positions from [occ] up to, and not including, the first one. *)
Inductive chain (Q : list relocation_queue_entry) : nat -> list nat -> Prop :=
| chain_start : chain Q 0 []
| chain_link i q l : (0 < i)%nat -> Q !! i = Some q -> chain Q (q_parent_queue_pos q) l -> chain Q i (i :: l).

Lemma chain_unique Q i l : chain Q i l -> forall l', chain Q i l' -> l = l'.
Proof.
  induction 1 as [|i q l Hi Hq Hc IH]; intros l' Hl'; inversion Hl' as [|i' q' l2 Hi' Hq' Hc']; subst; try done; try lia.
  f_equal. apply IH. congruence.
Qed.

Definition bucket_of (Q : list relocation_queue_entry) (i : nat) : Z := from_option q_bucket (-1) (Q !! i).

(** How many of the queue positions [l] stand for bucket [b]. *)
Definition path_refs (Q : list relocation_queue_entry) (l : list nat) (b : Z) : Z :=
  foldr (fun i r => one_at (bucket_of Q i) b + r) 0 l.

Lemma one_at_cases b b' : b' = b /\ one_at b b' = 1 \/ b' <> b /\ one_at b b' = 0.
Proof. unfold one_at. destruct (Z.eqb_spec b' b); auto. Qed.

Lemma path_refs_nonneg Q l b : 0 <= path_refs Q l b.
Proof.
  induction l as [|i l IH]; cbn; [lia|]. fold (path_refs Q l b). destruct (one_at_cases (bucket_of Q i) b); lia.
Qed.

Section chains.
Variables (t : cuckoo_trie) (immovable : option pos) (start : Z) (Q : list relocation_queue_entry).
Hypothesis t_shape : shape_ok t.
Hypothesis Q_ok : queue_ok t immovable start Q.

Lemma chain_exists i : (i < length Q)%nat -> exists l, chain Q i l /\ Forall (fun j => 0 < j <= i)%nat l /\ NoDup l.
Proof.
  induction (lt_wf i) as [i _ IH]. intros Hi. destruct (decide (i = 0)%nat) as [->|H0].
  - exists []. split; [constructor|]. split; constructor.
  - destruct (lookup_lt_is_Some_2 Q i Hi) as [q Hq].
    destruct (qo_link _ _ _ _ Q_ok i q ltac:(lia) Hq) as [(Hp & _) _].
    destruct (IH _ Hp ltac:(lia)) as (l & Hl & Hf & Hnd). exists (i :: l). split; [|split].
    + econstructor; [lia|exact Hq|exact Hl].
    + constructor; [lia|]. eapply Forall_impl; [exact Hf|]. cbn. lia.
    + constructor; [|done]. intros Hin. rewrite Forall_forall in Hf. specialize (Hf i Hin). lia.
Qed.

Lemma chain_length i l : Forall (fun j => 0 < j <= i)%nat l -> NoDup l -> (length l <= i)%nat.
Proof.
  intros Hf Hnd. replace i with (length (seq 1 i)) by apply length_seq. apply submseteq_length, NoDup_submseteq; [done|].
  intros j Hj. rewrite Forall_forall in Hf. specialize (Hf j Hj). apply elem_of_seq. lia.
Qed.

Lemma bucket_of_inj i j : (i < length Q)%nat -> (j < length Q)%nat -> bucket_of Q i = bucket_of Q j -> i = j.
Proof.
  intros Hi Hj E. destruct (lookup_lt_is_Some_2 Q i Hi) as [q Hq], (lookup_lt_is_Some_2 Q j Hj) as [q' Hq'].
  unfold bucket_of in E. rewrite Hq, Hq' in E. cbn in E.
  apply (NoDup_lookup (q_bucket <$> Q) i j (q_bucket q)); [apply Q_ok| |]; rewrite list_lookup_fmap, ?Hq, ?Hq'; cbn; congruence.
Qed.

(** Every bucket of the path is counted. *)
Lemma path_refs_in l i : i ∈ l -> 1 <= path_refs Q l (bucket_of Q i).
Proof.
  induction l as [|j l IH]; intros Hi; [now apply elem_of_nil in Hi|]. cbn. fold (path_refs Q l (bucket_of Q i)).
  apply elem_of_cons in Hi as [->|Hi].
  - pose proof (path_refs_nonneg Q l (bucket_of Q j)). unfold one_at. rewrite Z.eqb_refl. lia.
  - specialize (IH Hi). destruct (one_at_cases (bucket_of Q j) (bucket_of Q i)); lia.
Qed.

Lemma relocate_upgrade_spec l occ : chain Q occ l -> forall fuel N s n,
  (length l < fuel)%nat -> locks_ok N s -> shape_ok (trie s) -> same_but_locks t (trie s) ->
  0 <= N -> N + Z.of_nat (length l) < 2 ^ 32 -> Z.of_nat (length (lock_mgr s) + length l) <= MAX_LOCKS ->
  exists s', relocate_upgrade fuel Q occ n s = Ret (SI_OK, (n + length l)%nat) s' /\
    lock_effect (N + Z.of_nat (length l)) s s' (entry_refs (lock_mgr s))
      (fun b => bucket_refs (lock_mgr s) b + path_refs Q l b) /\
    (length (lock_mgr s') <= length (lock_mgr s) + length l)%nat.
Proof.
  induction 1 as [|i q l Hi Hq Hc IH]; intros fuel N s n Hfuel Hs Ht Hsame HN0 HN Hmax;
    (destruct fuel as [|fuel]; [cbn in Hfuel; lia|]).
  - exists s. split; [|split].
    + cbn. now rewrite Nat.add_0_r.
    + split; try done; [cbn [length Z.of_nat]; now rewrite Z.add_0_r|]. intros b. cbn. lia.
    + cbn. lia.
  - destruct (qo_link _ _ _ _ Q_ok i q Hi Hq) as [_ (bk & Hbk & Erl)].
    destruct (same_but_locks_bucket _ _ _ _ Hsame Hbk) as (bk' & Hbk' & Hsb).
    destruct (shape_bucket _ _ _ t_shape Hbk) as [Hb1 _]. destruct (shape_bucket _ _ _ Ht Hbk') as [Hb2 _].
    rewrite <- (same_bucket_seq _ _ Hsb Hb1 Hb2) in Erl. cbn [length] in *.
    destruct (upgrade_bucket_lock_spec N s (q_bucket q) bk') as (s1 & E1 & F1 & N1); try done; try lia.
    { intros _. lia. }
    destruct (IH fuel (N + 1) s1 (S n)) as (s2 & E2 & F2 & N2); try lia; try apply F1.
    { transitivity (trie s); [done|apply F1]. }
    exists s2. split; [|split; [|lia]].
    + cbn [relocate_upgrade]. destruct (Nat.eqb_spec i 0); [lia|]. rewrite Hq. erewrite bind_Ret by reflexivity.
      rewrite Erl. erewrite bind_Ret by exact E1. cbv iota. rewrite E2. do 2 f_equal. lia.
    + pose proof (lock_effect_trans _ _ _ _ _ _ _ _ _ F1 F2) as [A1 A2 A3 A4 A5 A6]. split; try done.
      * replace (N + Z.of_nat (S (length l))) with (N + 1 + Z.of_nat (length l)) by lia. exact A4.
      * intros b. rewrite A5. apply F1.
      * intros b. rewrite A6, (le_refs _ _ _ _ _ F1). cbn. fold (path_refs Q l b). unfold bucket_of at 1. rewrite Hq. cbn. lia.
Qed.

Lemma relocate_release_spec l occ : chain Q occ l -> forall N s,
  locks_ok N s -> shape_ok (trie s) -> N < 2 ^ 32 ->
  (forall b, path_refs Q l b <= bucket_refs (lock_mgr s) b) ->
  exists s', relocate_release (length l) Q occ s = Ret 0%nat s' /\
    lock_effect N s s' (entry_refs (lock_mgr s)) (fun b => bucket_refs (lock_mgr s) b - path_refs Q l b) /\
    (length (lock_mgr s') <= length (lock_mgr s))%nat.
Proof.
  induction 1 as [|i q l Hi Hq Hc IH]; intros N s Hs Ht HN Hrefs.
  - exists s. split; [done|]. split; [split; try done; intros b; cbn; lia|done].
  - assert (Eb : bucket_of Q i = q_bucket q) by (unfold bucket_of; now rewrite Hq).
    assert (Hr : forall b, path_refs Q (i :: l) b = one_at (q_bucket q) b + path_refs Q l b) by (intros b; cbn; now rewrite Eb).
    destruct (release_bucket_lock_spec N s (q_bucket q)) as (s1 & E1 & F1 & N1); try done.
    { specialize (Hrefs (q_bucket q)). rewrite Hr in Hrefs. unfold one_at in Hrefs. rewrite Z.eqb_refl in Hrefs.
      pose proof (path_refs_nonneg Q l (q_bucket q)). lia. }
    destruct (IH N s1) as (s2 & E2 & F2 & N2); try apply F1; try done.
    { intros b. rewrite (le_refs _ _ _ _ _ F1). specialize (Hrefs b). rewrite Hr in Hrefs. lia. }
    exists s2. split; [|split; [|lia]].
    + cbn [length relocate_release]. rewrite Hq. erewrite bind_Ret by reflexivity. erewrite bind_Ret by exact E1. exact E2.
    + pose proof (lock_effect_trans _ _ _ _ _ _ _ _ _ F1 F2) as [A1 A2 A3 A4 A5 A6]. split; try done.
      * intros b. rewrite A5. apply F1.
      * intros b. rewrite A6, (le_refs _ _ _ _ _ F1), Hr. lia.
Qed.
End chains.

(** ** Moving the entries *)

(** A locked entry stays locked when it moves. *)
Definition entries_locked (t : cuckoo_trie) (E : cell_map) (ls : ct_lock_mgr) (k : Z * Z) : Prop :=
  exists p e, cell_holds t E p k e /\ 0 < entry_ref ls p.

(** The state [s'] after moves that made [hole'] of the hole [hole]. *)
Record moved (t : cuckoo_trie) (fixed : pos -> Prop) (s s' : state) (hole hole' : pos) : Prop := mk_moved {
  md_params : same_params (trie s) (trie s');
  md_shape : shape_ok (trie s');
  md_mem : kv_mem s' = kv_mem s;
  md_cells : cells_ok t (erase hole' (trie_entry (trie s')));
  md_contents : same_contents t (erase hole (trie_entry (trie s))) (erase hole' (trie_entry (trie s')));
  md_fixed : forall p, fixed p -> p <> hole -> p <> hole' /\ trie_entry (trie s') p = trie_entry (trie s) p;
  md_locked : forall k, entries_locked t (erase hole (trie_entry (trie s))) (lock_mgr s) k ->
                entries_locked t (erase hole' (trie_entry (trie s'))) (lock_mgr s') k;
  md_refs : forall b, bucket_refs (lock_mgr s') b = bucket_refs (lock_mgr s) b;
  md_length : length (lock_mgr s') = length (lock_mgr s);
}.

Section moves.
Variables (t : cuckoo_trie) (fixed : pos -> Prop).

Lemma moved_trans s s1 s2 h h1 h2 :
  moved t fixed s s1 h h1 -> moved t fixed s1 s2 h1 h2 -> moved t fixed s s2 h h2.
Proof.
  intros [A1 A2 A3 A4 A5 A6 A7 A8 A9] [B1 B2 B3 B4 B5 B6 B7 B8 B9]. split; try done; try congruence.
  - now transitivity (erase h1 (trie_entry (trie s1))).
  - intros p Hp Hh. destruct (A6 p Hp Hh) as [H1 E1]. destruct (B6 p Hp H1) as [H2 E2]. split; [done|congruence].
  - auto.
Qed.

Lemma entry_ref_moved ls dst src p :
  (pos_cell dst < CUCKOO_BUCKET_SIZE)%nat -> (pos_cell src < CUCKOO_BUCKET_SIZE)%nat -> pos_bucket src <> pos_bucket dst ->
  forall N s ls', lock_mgr s = ls -> locks_ok N s ->
  (forall b, entry_refs ls' b = moved_refs ls dst src b) -> p <> src -> p <> dst -> entry_ref ls' p = entry_ref ls p.
Proof.
  intros Hd Hs Hne N s ls' <- Hok He Hp1 Hp2. unfold entry_ref. rewrite He. unfold moved_refs.
  destruct (entry_ref (lock_mgr s) src =? 0); [done|]. unfold byte_at.
  destruct (Z.eqb_spec (pos_bucket p) (pos_bucket src)) as [E1|E1].
  - rewrite E1. rewrite !nth_lookup. unfold add_ref. rewrite list_lookup_alter_ne; [done|].
    intros Ec. apply Hp1. destruct p, src; cbn in *; congruence.
  - destruct (Z.eqb_spec (pos_bucket p) (pos_bucket dst)) as [E2|E2]; [|done].
    rewrite E2. rewrite !nth_lookup. unfold add_ref. rewrite list_lookup_alter_ne; [done|].
    intros Ec. apply Hp2. destruct p, dst; cbn in *; congruence.
Qed.

Lemma entry_ref_dst N s dst src ls' :
  (pos_cell dst < CUCKOO_BUCKET_SIZE)%nat -> pos_bucket src <> pos_bucket dst -> locks_ok N s ->
  (forall b, entry_refs ls' b = moved_refs (lock_mgr s) dst src b) ->
  0 < entry_ref (lock_mgr s) src -> 0 < entry_ref ls' dst.
Proof.
  intros Hd Hne Hok He Hr. unfold entry_ref at 1. rewrite He. unfold moved_refs.
  destruct (Z.eqb_spec (entry_ref (lock_mgr s) src) 0); [lia|].
  destruct (Z.eqb_spec (pos_bucket dst) (pos_bucket src)); [congruence|]. rewrite Z.eqb_refl.
  destruct (entry_refs_ok N s (pos_bucket dst) Hok) as [Hl Hf]. unfold byte_at, add_ref.
  rewrite nth_lookup, list_lookup_alter_eq.
  pose proof (byte_at_lookup (entry_refs (lock_mgr s) (pos_bucket dst)) (pos_cell dst) ltac:(rewrite Hl; lia)) as E.
  pose proof (Forall_lookup_1 _ _ _ _ Hf E) as Hp. rewrite E. cbn in *. lia.
Qed.

(** The body of the loop: the entry in [occ] goes to the hole [free]. *)
Lemma move_one N s free occ e :
  params_ok t -> same_params t (trie s) -> shape_ok (trie s) -> locks_ok N s -> N + 2 < 2 ^ 32 ->
  cells_ok t (erase free (trie_entry (trie s))) ->
  in_table t occ -> (pos_cell occ < CUCKOO_BUCKET_SIZE)%nat -> (pos_cell free < CUCKOO_BUCKET_SIZE)%nat ->
  trie_entry (trie s) occ = Some e -> used e = true -> ~ fixed occ ->
  pos_bucket free = alternate_bucket t e (pos_bucket occ) ->
  1 <= bucket_refs (lock_mgr s) (pos_bucket occ) -> 1 <= bucket_refs (lock_mgr s) (pos_bucket free) ->
  exists seq s1 s', write_entry free (flip_secondary e) s = Ret seq s1 /\ move_entry_lock free occ s1 = Ret tt s' /\
    locks_ok (N + 2) s' /\ moved t fixed s s' free occ /\
    (forall p, trie_entry (trie s') p = fill free (flip_secondary e) (trie_entry (trie s)) p).
Proof.
  intros Hp Hsp Ht Hs HN Hcells Hin Hc Hcf He Hu Hfix Halt Hr1 Hr2.
  pose proof (shape_entry _ _ _ Ht He) as Heok.
  assert (Hne : pos_bucket occ <> pos_bucket free)
    by (rewrite Halt; symmetry; now apply alternate_bucket_ne).
  assert (Hpne : occ <> free) by congruence.
  destruct (write_locked_spec N s free (flip_secondary e)) as (seq & t1 & E1 & A1 & A2 & A3 & A4 & A5); try done.
  { apply refs_locked. left. lia. }
  { now apply flip_secondary_ok. }
  destruct (move_entry_lock_spec N (set_trie t1 s) free occ) as (s' & E2 & B1 & B2 & B3); try done.
  { cbn. apply refs_locked. left. lia. }
  exists seq, (set_trie t1 s), s'. split; [exact E1|]. split; [exact E2|]. split; [apply B2|].
  assert (HE : forall p, trie_entry (trie s') p = fill free (flip_secondary e) (trie_entry (trie s)) p)
    by (intros p; rewrite B1; apply A4).
  split; [|exact HE].
  assert (Hext : forall p, erase occ (fill free (flip_secondary e) (trie_entry (trie s))) p = erase occ (trie_entry (trie s')) p).
  { intros p. unfold erase. case_decide; [done|]. now rewrite HE. }
  assert (Hiff : forall p k x, cell_holds t (erase occ (fill free (flip_secondary e) (trie_entry (trie s)))) p k x <->
                   cell_holds t (erase occ (trie_entry (trie s'))) p k x)
    by (intros p k x; split; apply cell_holds_ext; [|symmetry]; apply Hext).
  split.
  - rewrite B1. exact A2.
  - apply B2.
  - apply B2.
  - eapply (cells_ok_ext t); [|apply (moved_ok t (trie_entry (trie s)) free occ e); done].
    intros p x _ Hx. left. now rewrite Hext.
  - etransitivity; [apply (moved_contents t (trie_entry (trie s)) free occ e); done|].
    now apply same_contents_ext.
  - intros p Hfp Hpf. split; [congruence|]. rewrite HE. now apply fill_ne.
  - intros k (p & x & Hx & Hr). destruct (decide (p = occ)) as [->|Hpo].
    + exists free, (flip_secondary e). split.
      * destruct Hx as (_ & Hx & _ & <-). rewrite erase_ne, He in Hx by done. injection Hx as <-.
        apply Hiff, moved_holds; try done. now left.
      * apply (entry_ref_dst N (set_trie t1 s) free occ); try done. apply B2.
    + exists p, x. assert (Hpf : p <> free).
      { intros ->. destruct Hx as (_ & Hx & _). rewrite erase_eq in Hx. discriminate. }
      split.
      * apply Hiff, moved_holds; try done. right. split; [done|]. split; [done|].
        revert Hx. apply cell_holds_ext. now apply erase_ne.
      * rewrite (entry_ref_moved (lock_mgr s) free occ p Hcf Hc Hne N (set_trie t1 s) _ eq_refl A3); try done. apply B2.
  - apply B2.
  - exact B3.
Qed.
End moves.

Section path.
Variables (t : cuckoo_trie) (immovable : option pos) (start : Z) (Q : list relocation_queue_entry).
Hypothesis t_shape : shape_ok t.
Hypothesis Q_ok : queue_ok t immovable start Q.

(** Entries that stay where they are. *)
Definition fixed_pos (p : pos) : Prop := Some p = immovable \/ p = root_pos.

Lemma chain_bound occ l : chain Q occ l -> Forall (fun j => 0 < j <= occ)%nat l.
Proof.
  induction 1 as [|i q l Hi Hq Hc IH]; constructor; [lia|].
  destruct (qo_link _ _ _ _ Q_ok i q Hi Hq) as [(Hp & _) _]. eapply Forall_impl; [exact IH|]. cbn. lia.
Qed.

Lemma chain_lookup occ l i : chain Q occ l -> i ∈ l -> (i < length Q)%nat.
Proof.
  induction 1 as [|j q l Hj Hq Hc IH]; intros Hi; [now apply elem_of_nil in Hi|].
  apply elem_of_cons in Hi as [->|Hi]; [eapply lookup_lt_Some; exact Hq|auto].
Qed.

Lemma head_lookup : (0 < length Q)%nat /\ bucket_of Q 0 = start.
Proof.
  destruct (qo_head _ _ _ _ Q_ok) as (q & Hq & E). split; [eapply lookup_lt_Some; exact Hq|].
  unfold bucket_of. now rewrite Hq.
Qed.

(** What the loop needs at queue entry [occ], with [l] the path below it. *)
Record ready (N : Z) (s : state) (occ idx : nat) (l : list nat) (free : pos) : Prop := mk_ready {
  rd_chain : chain Q occ l;
  rd_params : same_params t (trie s);
  rd_shape : shape_ok (trie s);
  rd_locks : locks_ok N s;
  rd_cells : cells_ok t (erase free (trie_entry (trie s)));
  rd_cell : (pos_cell free < CUCKOO_BUCKET_SIZE)%nat;
  rd_link : exists q e, Q !! occ = Some q /\ movable t immovable (mk_pos (q_bucket q) idx) e /\
    alternate_bucket t e (q_bucket q) = pos_bucket free;
  rd_same : forall i c, i ∈ 0%nat :: l ->
    trie_entry (trie s) (mk_pos (bucket_of Q i) c) = trie_entry t (mk_pos (bucket_of Q i) c);
  rd_free : forall i, i ∈ 0%nat :: l -> bucket_of Q i <> pos_bucket free;
  rd_refs : forall i, i ∈ 0%nat :: l -> 1 <= bucket_refs (lock_mgr s) (bucket_of Q i);
  rd_free_refs : 1 <= bucket_refs (lock_mgr s) (pos_bucket free);
}.

Lemma occ_on_path occ l : chain Q occ l -> occ ∈ 0%nat :: l.
Proof. destruct 1; constructor; constructor. Qed.

(** One round of the loop. *)
Lemma move_round N s occ idx l free :
  ready N s occ idx l free -> N + 2 < 2 ^ 32 ->
  exists q e seq s1 s', Q !! occ = Some q /\ bucket_of Q occ = q_bucket q /\
    read_entry_non_atomic (mk_pos (q_bucket q) idx) s = Ret e s /\
    write_entry free (flip_secondary e) s = Ret seq s1 /\
    move_entry_lock free (mk_pos (q_bucket q) idx) s1 = Ret tt s' /\ locks_ok (N + 2) s' /\
    moved t fixed_pos s s' free (mk_pos (q_bucket q) idx) /\
    (forall p, trie_entry (trie s') p = fill free (flip_secondary e) (trie_entry (trie s)) p) /\
    entry_ok e /\ ~ fixed_pos (mk_pos (q_bucket q) idx) /\ (idx < CUCKOO_BUCKET_SIZE)%nat.
Proof.
  intros [H1 H2 H3 H4 H5 H6 (q & e & Hq & Hmv & Halt) H8 H9 H10 H11] HN.
  assert (Eb : bucket_of Q occ = q_bucket q) by (unfold bucket_of; now rewrite Hq).
  destruct Hmv as [M1 M2 M3 M4 M5 M6]. pose proof (occ_on_path occ l H1) as Hon.
  assert (He : trie_entry (trie s) (mk_pos (q_bucket q) idx) = Some e) by (rewrite <- Eb, H8 by done; now rewrite Eb).
  assert (Hfix : ~ fixed_pos (mk_pos (q_bucket q) idx)) by (intros [Hf|Hf]; [exact (M5 Hf)|exact (M6 Hf)]).
  destruct (move_one t fixed_pos N s free (mk_pos (q_bucket q) idx) e) as (seq & s1 & s' & E1 & E2 & E3 & E4 & E5);
    try done.
  - apply t_shape.
  - cbn. rewrite <- Eb. now apply H10.
  - exists q, e, seq, s1, s'. repeat (split; [done|]). split; [now apply get_entry_eq|].
    repeat (split; [done|]). split; [exact (shape_entry _ _ _ H3 He)|done].
Qed.

(** The next round starts in the parent of [occ], whose cell is the hole. *)
Lemma ready_next N s s' occ idx l free q e :
  ready N s occ idx (occ :: l) free -> (0 < occ)%nat -> Q !! occ = Some q ->
  chain Q (q_parent_queue_pos q) l -> locks_ok (N + 2) s' ->
  moved t fixed_pos s s' free (mk_pos (q_bucket q) idx) -> (idx < CUCKOO_BUCKET_SIZE)%nat ->
  (forall p, trie_entry (trie s') p = fill free (flip_secondary e) (trie_entry (trie s)) p) ->
  ready (N + 2) s' (q_parent_queue_pos q) (q_child_idx q) l (mk_pos (q_bucket q) idx).
Proof.
  intros [H1 H2 H3 H4 H5 H6 H7 H8 H9 H10 H11] Hocc Hq Hc Hlk [M1 M2 M3 M4 M5 M6 M7 M8 M9] Hidx HE.
  assert (Eb : bucket_of Q occ = q_bucket q) by (unfold bucket_of; now rewrite Hq).
  assert (Hsub : forall i, i ∈ 0%nat :: l -> i ∈ 0%nat :: occ :: l) by (intros i; rewrite !elem_of_cons; tauto).
  assert (Hne : forall i, i ∈ 0%nat :: l -> bucket_of Q i <> bucket_of Q occ).
  { intros i Hi E. destruct (qo_link _ _ _ _ Q_ok occ q Hocc Hq) as [(Hp & _) _].
    assert (Hlt : (i < occ)%nat /\ (i < length Q)%nat).
    { apply elem_of_cons in Hi as [->|Hi]; [split; [lia|apply head_lookup]|].
      pose proof (chain_bound _ _ Hc) as Hf. rewrite Forall_forall in Hf. specialize (Hf i Hi).
      split; [lia|]. exact (chain_lookup _ _ i Hc Hi). }
    apply (bucket_of_inj t immovable start Q Q_ok) in E; [lia|lia|eapply lookup_lt_Some; exact Hq]. }
  split; try done.
  - now transitivity (trie s).
  - destruct (qo_link _ _ _ _ Q_ok occ q Hocc Hq) as [(Hp & q' & e' & Hq' & Hmv & Halt) _]. exists q', e'. done.
  - intros i c Hi. rewrite HE, fill_ne; [now apply H8, Hsub|]. intros E. apply (H9 i (Hsub i Hi)). now rewrite <- E.
  - intros i Hi. cbn. rewrite <- Eb. now apply Hne.
  - intros i Hi. rewrite M8. now apply H10, Hsub.
  - cbn. rewrite M8, <- Eb. apply H10. rewrite !elem_of_cons. tauto.
Qed.

Lemma relocate_move_spec l : forall occ fuel N s idx free,
  ready N s occ idx l free -> (length l < fuel)%nat -> N + 2 * Z.of_nat (S (length l)) < 2 ^ 32 ->
  exists s' idx' e, relocate_move fuel Q occ idx free s = Ret (mk_pos start idx', flip_secondary e) s' /\
    moved t fixed_pos s s' free (mk_pos start idx') /\ locks_ok (N + 2 * Z.of_nat (S (length l))) s' /\
    (idx' < CUCKOO_BUCKET_SIZE)%nat /\ entry_ok e /\ ~ fixed_pos (mk_pos start idx').
Proof.
  induction l as [|i l IH]; intros occ fuel N s idx free Hr Hfuel HN;
    (destruct fuel as [|fuel]; [cbn in Hfuel; lia|]); cbn [length] in HN;
    destruct (move_round N s occ idx _ free Hr ltac:(lia))
      as (q & e & seq & s1 & s2 & Hq & Eb & E0 & E1 & E2 & Hlk & Hmv & HE & He & Hfix & Hidx);
    pose proof (rd_chain _ _ _ _ _ _ Hr) as Hc; inversion Hc as [|j q' l' Hj Hq' Hc']; subst; cbn [relocate_move];
    rewrite Hq; erewrite bind_Ret by reflexivity; erewrite bind_Ret by exact E0; fold (flip_secondary e);
    erewrite bind_Ret by exact E1; erewrite bind_Ret by exact E2.
  - rewrite <- Eb in *. destruct head_lookup as [_ Eh]. rewrite Eh in *. exists s2, idx, e.
    split; [done|]. split; [done|]. split; [exact Hlk|done].
  - assert (q' = q) as -> by congruence. destruct (Nat.eqb_spec i 0); [lia|].
    pose proof (ready_next N s s2 i idx l free q e Hr Hj Hq Hc' Hlk Hmv Hidx HE) as Hr'.
    destruct (IH _ fuel (N + 2) s2 (q_child_idx q) _ Hr') as (s' & idx' & e' & E & Hm & Hl' & H); [cbn in Hfuel; lia|lia|].
    exists s', idx', e'. split; [exact E|]. split; [exact (moved_trans t fixed_pos _ _ _ _ _ _ Hmv Hm)|]. split; [|exact H].
    cbn [length]. replace (N + 2 * Z.of_nat (S (S (length l)))) with (N + 2 + 2 * Z.of_nat (S (length l))) by lia. exact Hl'.
Qed.
End path.

(** ** [relocate_entry] *)

(** What a relocation keeps; [refs] are the bucket locks it leaves. *)
Record relocated (immovable : option pos) (s s' : state) (refs : Z -> Z) : Prop := mk_relocated {
  rl_params : same_params (trie s) (trie s');
  rl_table : table_ok (trie s');
  rl_mem : kv_mem s' = kv_mem s;
  rl_contents : forall k e, contents (trie s) k e <-> contents (trie s') k e;
  rl_fixed : forall p e, fixed_pos immovable p -> trie_entry (trie s) p = Some e -> used e = true ->
               trie_entry (trie s') p = Some e;
  rl_locked : forall k, entries_locked (trie s) (trie_entry (trie s)) (lock_mgr s) k ->
                entries_locked (trie s') (trie_entry (trie s')) (lock_mgr s') k;
  rl_refs : forall b, bucket_refs (lock_mgr s') b = refs b;
}.

(** The locks on the path fit in the lock manager. *)
Definition path_room (immovable : option pos) (start : Z) (s : state) : Prop :=
  forall Q n fc l, relocate_search immovable start s = Ret (Q, n, Some fc) s -> chain Q (n - 1) l ->
    Z.of_nat (S (length (lock_mgr s) + length l)) <= MAX_LOCKS.

(** References and locks relocation may add to a record, at most. *)
Definition RELOCATE_REFS : Z := 4 * (Z.of_nat RELOCATE_QUEUE_SIZE + 2).

Lemma cleared_entry e :
  entry_ok e ->
  let c := set_color_and_tag_byte (INVALID_COLOR .<< TAG_BITS) (set_parent_color_and_flags UNUSED_HEADER e) in
  entry_ok c /\ used c = false /\ cell_ok c.
Proof.
  intros He c. assert (Hc : entry_ok c) by (apply set_color_ok, set_flags_ok, He).
  assert (Ef : parent_color_and_flags c = u8 UNUSED_HEADER)
    by (unfold c; rewrite flags_set_color by (now apply set_flags_ok); now apply flags_set_flags).
  assert (Ec : color_and_tag c = u8 (INVALID_COLOR .<< TAG_BITS))
    by (unfold c; apply color_set_color; now apply set_flags_ok).
  assert (Hu : used c = false) by (unfold used, entry_type; now rewrite Ef).
  split; [done|]. split; [done|]. unfold cell_ok. rewrite Hu. unfold entry_color, entry_parent_color.
  rewrite Ef, Ec. split; reflexivity.
Qed.

Lemma erase_same_entries E E' h : (forall p, E p = E' p) -> forall p, erase h E p = erase h E' p.
Proof. intros H p. unfold erase. case_decide; [done|apply H]. Qed.

Lemma cells_ok_eq t E E' : (forall p, E p = E' p) -> cells_ok t E -> cells_ok t E'.
Proof. intros H. apply cells_ok_ext. intros p e _ He. left. now rewrite H. Qed.

Lemma same_contents_eq t E E' : (forall p, E p = E' p) -> same_contents t E E'.
Proof. intros H. apply same_contents_ext. intros p k e. split; apply cell_holds_ext; [|symmetry]; apply H. Qed.

Lemma erase_unused_contents t E h : (forall e, E h = Some e -> used e = false) -> same_contents t E (erase h E).
Proof. intros H. symmetry. apply same_contents_ext. now apply erase_unused. Qed.

Lemma table_ok_locks t t' : table_ok t -> same_but_locks t t' -> shape_ok t' -> table_ok t'.
Proof.
  intros Ht Hs Hsh. apply table_cells. split; [done|]. apply (cells_ok_params t); [apply Hs|].
  apply (cells_ok_eq _ (trie_entry t)); [|now apply table_cells]. intros p. now apply same_but_locks_entry.
Qed.

Lemma entries_locked_eq t E E' ls ls' k :
  (forall p k e, cell_holds t E p k e -> cell_holds t E' p k e) -> (forall b, entry_refs ls' b = entry_refs ls b) ->
  entries_locked t E ls k -> entries_locked t E' ls' k.
Proof.
  intros HE Hr (p & e & Hp & Hpos). exists p, e. split; [now apply HE|]. unfold entry_ref in *. now rewrite Hr.
Qed.

Lemma entries_locked_params t t' E ls k : same_params t t' -> entries_locked t E ls k -> entries_locked t' E ls k.
Proof. intros H. rewrite (same_params_eq _ _ H). done. Qed.

Lemma relocated_trans imm s s1 s2 r1 r2 :
  relocated imm s s1 r1 -> relocated imm s1 s2 r2 -> relocated imm s s2 r2.
Proof.
  intros [A1 A2 A3 A4 A5 A6 A7] [B1 B2 B3 B4 B5 B6 B7]. split; try done; try congruence.
  - intros k e. now rewrite A4.
  - intros p e Hp He Hu. apply B5; [done| |done]. now apply A5.
  - auto.
Qed.

(** Locks alone relocate nothing. *)
Lemma lock_effect_relocated N imm s s' refs :
  table_ok (trie s) -> lock_effect N s s' (entry_refs (lock_mgr s)) refs -> relocated imm s s' refs.
Proof.
  intros Ht [A1 A2 A3 A4 A5 A6].
  assert (HE : forall p, trie_entry (trie s) p = trie_entry (trie s') p) by (intros p; now apply same_but_locks_entry).
  assert (Hp : same_params (trie s) (trie s')) by apply A1.
  split; try done.
  - now apply (table_ok_locks (trie s)).
  - intros k e. transitivity (cell_contents (trie s) (trie_entry (trie s')) k e); [|now rewrite (same_params_eq _ _ Hp)].
    exact (same_contents_eq (trie s) _ _ HE k e).
  - intros p e _ He _. now rewrite <- HE.
  - intros k Hk. apply (entries_locked_params (trie s)); [done|]. revert Hk. apply entries_locked_eq; [|done].
    intros p k' e. apply cell_holds_ext, HE.
Qed.

Section relocate.
Variables (N : Z) (s : state) (immovable : option pos) (start : Z).
Hypothesis t_ok : table_ok (trie s).
Hypothesis l_ok : locks_ok N s.
Hypothesis N_ok : 0 <= N /\ N + RELOCATE_REFS < 2 ^ 32.
Hypothesis start_full : full (trie s) start.
Hypothesis start_in : 0 <= start < num_buckets (trie s).
Hypothesis start_locked : 1 <= bucket_refs (lock_mgr s) start.
Hypothesis room : path_room immovable start s.

Let t := trie s.

Section found.
Variables (Q : list relocation_queue_entry) (n : nat) (fc : found_cell) (l : list nat).
Hypothesis search_eq : relocate_search immovable start s = Ret (Q, n, Some fc) s.
Hypothesis Q_ok : queue_ok t immovable start Q.
Hypothesis fc_ok : found_ok t immovable Q (n - 1) fc.
Hypothesis l_chain : chain Q (n - 1) l.

Let free := fc_free_cell fc.

Lemma chain_short : (length l < length Q)%nat /\ (length l <= RELOCATE_QUEUE_SIZE)%nat.
Proof.
  destruct (fo_link _ _ _ _ _ fc_ok) as (Hn & _). pose proof (qo_length _ _ _ _ Q_ok) as Hq.
  destruct (chain_exists t immovable start Q Q_ok (n - 1)%nat Hn) as (l' & Hl' & Hf & Hnd).
  assert (l' = l) as ->. exact (chain_unique _ _ _ Hl' _ l_chain).
  pose proof (chain_length (n - 1) l Hf Hnd). lia.
Qed.

(** All locks of the path are taken. *)
Lemma path_locked :
  exists s1 s2, upgrade_bucket_lock (fc_read_lock fc) s = Ret SI_OK s1 /\
    relocate_upgrade (length Q) Q (n - 1) 1 s1 = Ret (SI_OK, S (length l)) s2 /\
    lock_effect (N + 1 + Z.of_nat (length l)) s s2 (entry_refs (lock_mgr s))
      (fun b => bucket_refs (lock_mgr s) b + one_at (pos_bucket free) b + path_refs Q l b) /\
    ready t immovable Q (N + 1 + Z.of_nat (length l)) s2 (n - 1) (fc_child_idx fc) l free.
Proof.
  destruct chain_short as [Hc1 Hc2]. unfold RELOCATE_REFS in N_ok. pose proof (room Q n fc l search_eq l_chain) as Hroom.
  destruct (fo_lock _ _ _ _ _ fc_ok) as (bk & Hbk & Erl). fold free in Hbk, Erl.
  destruct (upgrade_bucket_lock_spec N s (pos_bucket free) bk) as (s1 & E1 & F1 & N1); try done; try lia;
    [now apply table_shape|intros _; lia|].
  destruct (relocate_upgrade_spec t immovable start Q (table_shape _ t_ok) Q_ok l (n - 1) l_chain (length Q) (N + 1) s1 1)
    as (s2 & E2 & F2 & N2); try lia; try apply F1.
  exists s1, s2. split; [now rewrite Erl|]. split; [exact E2|].
  pose proof (lock_effect_trans _ _ _ _ _ _ _ _ _ F1 F2) as [A1 A2 A3 A4 A5 A6].
  assert (Hent : forall p, trie_entry t p = trie_entry (trie s2) p) by (intros p; now apply same_but_locks_entry).
  assert (Hrefs : forall b, bucket_refs (lock_mgr s2) b =
            bucket_refs (lock_mgr s) b + one_at (pos_bucket free) b + path_refs Q l b)
    by (intros b; rewrite A6, (le_refs _ _ _ _ _ F1); lia).
  assert (Hone : forall b, 0 <= one_at (pos_bucket free) b) by (intros b; destruct (one_at_cases (pos_bucket free) b); lia).
  split.
  - split; try done. intros b. rewrite A5. apply F1.
  - destruct (fo_link _ _ _ _ _ fc_ok) as (Hn & q & e & Hq & Hmv & Halt). split; try done.
    + apply A1.
    + apply (cells_ok_eq t (erase free (trie_entry t))); [now apply erase_same_entries|].
      apply cells_ok_erase. now apply table_cells.
    + apply fc_ok.
    + exists q, e. done.
    + intros i Hi. assert (Hlt : (i < length Q)%nat).
      { apply elem_of_cons in Hi as [->|Hi]; [lia|exact (chain_lookup Q _ l i l_chain Hi)]. }
      destruct (lookup_lt_is_Some_2 Q i Hlt) as [qi Hqi]. unfold bucket_of. rewrite Hqi.
      exact (fo_new _ _ _ _ _ fc_ok i qi Hqi).
    + intros i Hi. rewrite Hrefs. specialize (Hone (bucket_of Q i)).
      apply elem_of_cons in Hi as [->|Hi].
      * destruct (head_lookup t immovable start Q Q_ok) as [_ Eh]. rewrite Eh in *.
        pose proof (path_refs_nonneg Q l start). lia.
      * pose proof (path_refs_in Q l i Hi). pose proof (bucket_refs_nonneg N s (bucket_of Q i) l_ok). lia.
    + rewrite Hrefs. unfold one_at. rewrite Z.eqb_refl.
      pose proof (path_refs_nonneg Q l (pos_bucket free)). pose proof (bucket_refs_nonneg N s (pos_bucket free) l_ok). lia.
Qed.

(** The entries move and the first cell of the path is cleared. *)
Lemma path_moved s2 :
  ready t immovable Q (N + 1 + Z.of_nat (length l)) s2 (n - 1) (fc_child_idx fc) l free ->
  lock_effect (N + 1 + Z.of_nat (length l)) s s2 (entry_refs (lock_mgr s))
    (fun b => bucket_refs (lock_mgr s) b + one_at (pos_bucket free) b + path_refs Q l b) ->
  exists idx e s3 s4 seq,
    relocate_move (length Q) Q (n - 1) (fc_child_idx fc) free s2 = Ret (mk_pos start idx, flip_secondary e) s3 /\
    write_entry (mk_pos start idx)
      (set_color_and_tag_byte (INVALID_COLOR .<< TAG_BITS) (set_parent_color_and_flags UNUSED_HEADER (flip_secondary e))) s3
      = Ret seq s4 /\
    (idx < CUCKOO_BUCKET_SIZE)%nat /\ locks_ok (N + RELOCATE_REFS) s4 /\ lock_mgr s4 = lock_mgr s3 /\
    moved t (fixed_pos immovable) s2 s3 free (mk_pos start idx) /\
    shape_ok (trie s4) /\ same_params (trie s3) (trie s4) /\ kv_mem s4 = kv_mem s3 /\
    (exists c, used c = false /\ entry_ok c /\ cell_ok c /\
       forall p, trie_entry (trie s4) p = fill (mk_pos start idx) c (trie_entry (trie s3)) p) /\
    ~ fixed_pos immovable (mk_pos start idx).
Proof.
  intros Hready Heff. destruct chain_short as [Hc1 Hc2]. unfold RELOCATE_REFS in *.
  destruct (relocate_move_spec t immovable start Q (table_shape _ t_ok) Q_ok l (n - 1) (length Q)
    (N + 1 + Z.of_nat (length l)) s2 (fc_child_idx fc) free Hready Hc1) as (s3 & idx & e & E & Hm & Hlk & Hidx & He & Hfix); [lia|].
  destruct (cleared_entry (flip_secondary e) (flip_secondary_ok e He)) as (C1 & C2 & C3).
  apply (locks_ok_mono _ (N + 4 * (Z.of_nat RELOCATE_QUEUE_SIZE + 2))) in Hlk; [|lia].
  destruct (write_locked_spec _ s3 (mk_pos start idx) (set_color_and_tag_byte (INVALID_COLOR .<< TAG_BITS)
      (set_parent_color_and_flags UNUSED_HEADER (flip_secondary e))) Hlk (md_shape _ _ _ _ _ _ Hm))
    as (seq & t4 & E4 & A1 & A2 & A3 & A4 & A5); try done.
  { apply refs_locked. left. cbn. rewrite (md_refs _ _ _ _ _ _ Hm), (le_refs _ _ _ _ _ Heff).
    pose proof (path_refs_nonneg Q l start). destruct (one_at_cases (pos_bucket free) start); lia. }
  exists idx, e, s3, (set_trie t4 s3), seq. repeat (split; [done|]). split; [|done]. eexists. split; [exact C2|]. done.
Qed.

(** The locks of the path are released again. *)
Lemma path_released s4 M :
  locks_ok M s4 -> shape_ok (trie s4) -> M < 2 ^ 32 ->
  (forall b, bucket_refs (lock_mgr s4) b = bucket_refs (lock_mgr s) b + one_at (pos_bucket free) b + path_refs Q l b) ->
  exists s5 s6, release_bucket_lock (pos_bucket free) s4 = Ret tt s5 /\
    relocate_release (length l) Q (n - 1) s5 = Ret 0%nat s6 /\
    lock_effect M s4 s6 (entry_refs (lock_mgr s4)) (bucket_refs (lock_mgr s)).
Proof.
  intros Hlk Hsh HM Hrefs.
  assert (Hpos : forall b, 0 <= bucket_refs (lock_mgr s) b) by (intros b; now apply (bucket_refs_nonneg N)).
  destruct (release_bucket_lock_spec M s4 (pos_bucket free)) as (s5 & E5 & F5 & _); try done.
  { rewrite Hrefs. unfold one_at. rewrite Z.eqb_refl. pose proof (path_refs_nonneg Q l (pos_bucket free)).
    specialize (Hpos (pos_bucket free)). lia. }
  destruct (relocate_release_spec Q l (n - 1) l_chain M s5) as (s6 & E6 & F6 & _); try apply F5; try done.
  { intros b. rewrite (le_refs _ _ _ _ _ F5), Hrefs. specialize (Hpos b). lia. }
  exists s5, s6. split; [done|]. split; [done|].
  pose proof (lock_effect_trans _ _ _ _ _ _ _ _ _ F5 F6) as [A1 A2 A3 A4 A5 A6]. split; try done.
  - intros b. rewrite A5. apply F5.
  - intros b. rewrite A6, (le_refs _ _ _ _ _ F5), Hrefs. lia.
Qed.

(** Locks, moves, the cleared cell and releases together. *)
Lemma relocated_by p c s2 s3 s4 s6 M e2 r2 e6 :
  lock_effect M s s2 (entry_refs (lock_mgr s)) r2 -> moved t (fixed_pos immovable) s2 s3 free p ->
  shape_ok (trie s4) -> same_params (trie s3) (trie s4) -> kv_mem s4 = kv_mem s3 -> lock_mgr s4 = lock_mgr s3 ->
  used c = false -> entry_ok c -> cell_ok c ->
  (forall q, trie_entry (trie s4) q = fill p c (trie_entry (trie s3)) q) ->
  lock_effect e2 s4 s6 e6 (bucket_refs (lock_mgr s)) -> (forall b, e6 b = entry_refs (lock_mgr s4) b) ->
  relocated immovable s s6 (bucket_refs (lock_mgr s)).
Proof.
  intros F2 Hm Hsh Hp4 Hm4 Hl4 Hu Hc Hcc HE F6 He6.
  destruct (fo_free _ _ _ _ _ fc_ok) as (e0 & He0 & Hu0). fold free in He0.
  assert (Hfree : forall x, trie_entry t free = Some x -> used x = false) by (intros x Hx; congruence).
  assert (E2 : forall q, trie_entry t q = trie_entry (trie s2) q) by (intros q; apply same_but_locks_entry, F2).
  assert (E6 : forall q, fill p c (trie_entry (trie s3)) q = trie_entry (trie s6) q)
    by (intros q; rewrite <- HE; apply same_but_locks_entry, F6).
  assert (Hpar : same_params t (trie s6)).
  { transitivity (trie s2); [apply F2|]. transitivity (trie s3); [apply Hm|]. transitivity (trie s4); [done|apply F6]. }
  assert (Efill : forall q, erase p (trie_entry (trie s3)) q = erase p (fill p c (trie_entry (trie s3))) q)
    by (intros q; unfold erase, fill; now case_decide).
  assert (Hfill : forall x, fill p c (trie_entry (trie s3)) p = Some x -> used x = false)
    by (intros x; rewrite fill_eq; congruence).
  split.
  - exact Hpar.
  - apply table_cells. split; [apply F6|]. apply (cells_ok_params t); [done|].
    eapply cells_ok_ext; [|apply Hm]. intros q x _ Hx. rewrite <- E6 in Hx. unfold fill, erase in *. case_decide; [|now left].
    right. injection Hx as <-. done.
  - rewrite (le_mem _ _ _ _ _ F6), Hm4, (md_mem _ _ _ _ _ _ Hm). apply F2.
  - intros k x. transitivity (cell_contents t (trie_entry (trie s6)) k x); [|now rewrite (same_params_eq _ _ Hpar)].
    assert (H : same_contents t (trie_entry t) (trie_entry (trie s6))); [|exact (H k x)].
    transitivity (erase free (trie_entry t)); [now apply erase_unused_contents|].
    transitivity (erase free (trie_entry (trie s2))); [apply same_contents_eq; now apply erase_same_entries|].
    transitivity (erase p (trie_entry (trie s3))); [apply Hm|].
    transitivity (erase p (fill p c (trie_entry (trie s3)))); [now apply same_contents_eq|].
    transitivity (fill p c (trie_entry (trie s3))); [symmetry; now apply erase_unused_contents|].
    now apply same_contents_eq.
  - intros q x Hq Hx Hux. assert (Hqf : q <> free) by (intros ->; rewrite (Hfree x Hx) in Hux; discriminate).
    destruct (md_fixed _ _ _ _ _ _ Hm q Hq Hqf) as [Hqp Eq]. rewrite <- E6, fill_ne, Eq by done. now rewrite <- E2.
  - intros k Hk. apply (entries_locked_params t); [done|].
    apply (entries_locked_eq t (erase p (trie_entry (trie s3))) _ (lock_mgr s3)).
    + intros q k' x. intros (B1 & B2 & B3 & B4). split; [done|]. split; [|done]. rewrite <- E6.
      unfold erase, fill in *. case_decide; [discriminate|exact B2].
    + intros b. rewrite (le_entries _ _ _ _ _ F6), He6, Hl4. done.
    + apply Hm. revert Hk. apply entries_locked_eq; [|apply F2].
      intros q k' x Hx. apply (erase_unused t (trie_entry t) free Hfree) in Hx. revert Hx.
      apply cell_holds_ext. now apply erase_same_entries.
  - apply F6.
Qed.

Lemma relocate_found :
  exists p s', relocate_entry start immovable s = Ret (SI_OK, Some p) s' /\ relocated immovable s s' (bucket_refs (lock_mgr s)) /\
    locks_ok (N + RELOCATE_REFS) s' /\ pos_bucket p = start /\ (pos_cell p < CUCKOO_BUCKET_SIZE)%nat /\
    (exists e, trie_entry (trie s') p = Some e /\ used e = false).
Proof.
  destruct path_locked as (s1 & s2 & E1 & E2 & F2 & Hready).
  destruct (path_moved s2 Hready F2)
    as (idx & e & s3 & s4 & seq & E3 & E4 & Hidx & Hlk & Hl4 & Hm & Hsh & Hp4 & Hm4 & (c & Hu & Hc & Hcc & HE) & _).
  destruct (path_released s4 (N + RELOCATE_REFS) Hlk Hsh) as (s5 & s6 & E5 & E6 & F6); [apply N_ok| |].
  { intros b. rewrite Hl4, (md_refs _ _ _ _ _ _ Hm). apply F2. }
  exists (mk_pos start idx), s6. split; [|split; [|split; [apply F6|split; [done|split; [done|]]]]].
  - unfold relocate_entry, bucket_write_locked, get_locks.
    destruct (refs_locked (lock_mgr s) start ltac:(left; lia)) as [lk Hlk0]. destruct (lock_index _ _ _ Hlk0) as (i & Hi & _).
    erewrite bind_Ret by (erewrite bind_Ret by reflexivity; reflexivity).
    erewrite bind_Ret by (apply assert_true, bool_decide_eq_true; eauto).
    erewrite bind_Ret by exact search_eq. cbv iota beta. erewrite bind_Ret by exact E1. cbv iota.
    erewrite bind_Ret.
    2: { unfold relocate_path. erewrite bind_Ret by exact E2. cbv iota beta.
         erewrite bind_Ret by (erewrite bind_Ret by exact E3; cbv iota beta; erewrite bind_Ret by exact E4; reflexivity).
         erewrite bind_Ret by exact E5. replace (S (length l) - 1)%nat with (length l) by lia.
         erewrite bind_Ret by exact E6. reflexivity. }
    cbv iota beta. erewrite bind_Ret by (apply assert_true; reflexivity). reflexivity.
  - now apply (relocated_by (mk_pos start idx) c s2 s3 s4 s6 _ _ _ _ F2 Hm Hsh Hp4 Hm4 Hl4 Hu Hc Hcc HE F6).
  - exists c. split; [|done]. rewrite <- (same_but_locks_entry (trie s4) (trie s6)) by apply F6. rewrite HE. apply fill_eq.
Qed.
End found.

Lemma relocate_entry_spec :
  relocate_entry start immovable s = Ret (SI_FAIL, None) s \/
  exists p s', relocate_entry start immovable s = Ret (SI_OK, Some p) s' /\ relocated immovable s s' (bucket_refs (lock_mgr s)) /\
    locks_ok (N + RELOCATE_REFS) s' /\ pos_bucket p = start /\ (pos_cell p < CUCKOO_BUCKET_SIZE)%nat /\
    (exists e, trie_entry (trie s') p = Some e /\ used e = false).
Proof.
  destruct (relocate_search_spec t immovable start (table_shape _ t_ok) s eq_refl start_full start_in)
    as ([[Q n] [fc|]] & E & (HQ & Hf) & Hn0).
  - right. destruct Hf as [Hn Hf]. destruct (fo_link _ _ _ _ _ Hf) as (Hlt & _).
    destruct (chain_exists t immovable start Q HQ (n - 1) Hlt) as (l & Hl & _). now apply (relocate_found Q n fc l).
  - left. unfold relocate_entry, bucket_write_locked, get_locks.
    destruct (refs_locked (lock_mgr s) start ltac:(left; lia)) as [lk Hlk].
    destruct (lock_index _ _ _ Hlk) as (i & Hi & _).
    erewrite bind_Ret by (erewrite bind_Ret by reflexivity; reflexivity).
    erewrite bind_Ret by (apply assert_true; apply bool_decide_eq_true; eauto).
    erewrite bind_Ret by exact E. reflexivity.
Qed.
End relocate.
