(* ===== verification/AddEntry.v ===== *)
(** * Adding an entry to the table (main.c: add_entry)

    The new entry gets a color no entry of its bucket pair has, so it can be
    found by its hash and color from then on; nothing else changes. *)

From S2P Require Import Prelude Bits Entry KeyObject State Hashing Atomics Table Contents Store Locks Cells Search Relocate.
From stdpp Require Import base list gmap.
From Stdlib Require Import ZArith Lia Bool.

#[local] Open Scope Z_scope.

(** ** The entry that is written *)

Definition secondary_flag (sec : bool) : Z := if sec then FLAG_SECONDARY_BUCKET else 0.

(** [entry] as [add_entry] writes it for hash [h]. *)
Definition prepared (h color : Z) (sec : bool) (e : ct_entry) : ct_entry :=
  entry_set_color_and_tag ((color .<< TAG_BITS) .| hash_to_tag h) (entry_add_flags (secondary_flag sec) e).

Lemma add_flag_byte b (sec : bool) :
  is_byte b -> (b .& FLAG_SECONDARY_BUCKET =? FLAG_SECONDARY_BUCKET) = false ->
  is_byte (b .| secondary_flag sec) /\
  ((b .| secondary_flag sec) .& FLAG_SECONDARY_BUCKET =? FLAG_SECONDARY_BUCKET) = sec /\
  (b .| secondary_flag sec) .& TYPE_MASK = b .& TYPE_MASK /\
  (b .| secondary_flag sec) .& bnot 8 FLAG_SECONDARY_BUCKET = b.
Proof.
  intros Hb H0.
  set (P := fun b => implb (negb (Z.land b FLAG_SECONDARY_BUCKET =? FLAG_SECONDARY_BUCKET))
    (let b' := Z.lor b (secondary_flag sec) in
     (0 <=? b') && (b' <? 256) && Bool.eqb (Z.land b' FLAG_SECONDARY_BUCKET =? FLAG_SECONDARY_BUCKET) sec &&
     (Z.land b' TYPE_MASK =? Z.land b TYPE_MASK) && (Z.land b' (bnot 8 FLAG_SECONDARY_BUCKET) =? b))).
  assert (H : P b = true) by (apply byte_check; [destruct sec; vm_compute; reflexivity|done]).
  subst P. cbv beta zeta in H. rewrite H0 in H. cbn [negb implb] in H.
  rewrite !andb_true_iff, !Z.eqb_eq, Bool.eqb_true_iff, Z.leb_le, Z.ltb_lt in H. unfold is_byte. tauto.
Qed.

Section prepared.
Variables (h color : Z) (sec : bool) (e : ct_entry).
Hypothesis e_ok : entry_ok e.
Hypothesis e_primary : entry_is_secondary e = false.
Hypothesis color_ok : 0 <= color <= MAX_VALID_COLOR.
Hypothesis tag_ok : 0 <= hash_to_tag h < 16.

Let e1 := set_parent_color_and_flags (parent_color_and_flags e .| secondary_flag sec) e.

Lemma prepared_eq : prepared h color sec e = set_color_and_tag_byte ((color .<< TAG_BITS) .| hash_to_tag h) e1 /\ entry_ok e1.
Proof.
  assert (H1 : entry_ok e1) by now apply set_flags_ok. split; [|done]. unfold prepared.
  rewrite entry_add_flags_eq by (done || (unfold is_byte, secondary_flag, FLAG_SECONDARY_BUCKET; destruct sec; lia)).
  fold e1. apply entry_set_color_and_tag_eq; [done|]. change MAX_VALID_COLOR with 8 in color_ok. apply color_tag_byte; [lia|exact tag_ok].
Qed.

Lemma prepared_fields :
  let e' := prepared h color sec e in
  entry_ok e' /\ entry_is_secondary e' = sec /\ entry_tag e' = hash_to_tag h /\ entry_color e' = color /\
  used e' = used e /\ clear_secondary e' = set_color_and_tag_byte ((color .<< TAG_BITS) .| hash_to_tag h) e.
Proof.
  destruct prepared_eq as [E H1]. cbv zeta. rewrite E. change MAX_VALID_COLOR with 8 in color_ok.
  set (v := (color .<< TAG_BITS) .| hash_to_tag h).
  destruct (color_tag_byte color (hash_to_tag h)) as (V1 & V2 & V3); [lia|exact tag_ok|]. fold v in V1, V2, V3.
  destruct (add_flag_byte (parent_color_and_flags e) sec (flags_byte e e_ok) e_primary) as (F1 & F2 & F3 & F4).
  assert (Ef : parent_color_and_flags (set_color_and_tag_byte v e1) = parent_color_and_flags e .| secondary_flag sec).
  { rewrite flags_set_color by done. unfold e1. rewrite flags_set_flags by done. now apply wrap_small. }
  assert (Ec : color_and_tag (set_color_and_tag_byte v e1) = v) by (rewrite color_set_color by done; now apply wrap_small).
  split; [now apply set_color_ok|]. unfold entry_is_secondary, entry_tag, entry_color, used, entry_type, clear_secondary.
  rewrite Ef, Ec, F2, F3, F4. repeat split; try done.
  apply entry_ext; [now apply set_flags_ok, set_color_ok|now apply set_color_ok|]. intros i Hi.
  unfold set_parent_color_and_flags, set_color_and_tag_byte, e1.
  rewrite !byte_at_set_byte by (try apply set_byte_ok; try apply set_flags_ok; try apply set_color_ok; done || entry_lia).
  unfold set_parent_color_and_flags.
  destruct (decide (i = 0%nat)) as [->|]; [|destruct (decide (i = 1%nat)); [done|]].
  - apply wrap_small, flags_byte, e_ok.
  - rewrite byte_at_set_byte by (done || entry_lia). now rewrite decide_False.
Qed.
End prepared.

(** ** Filling an unused cell *)

Section fill.
Variables (t : cuckoo_trie) (E : cell_map) (p : pos) (e : ct_entry).
Hypothesis E_ok : cells_ok t E.
Hypothesis p_in : in_table t p.
Hypothesis p_free : forall x, E p = Some x -> used x = false.
Hypothesis e_ok : entry_ok e /\ cell_ok e.
Hypothesis e_used : used e = true.
Hypothesis e_new : forall q x, ~ cell_holds t E q (entry_key t p e) x.

Lemma fill_holds q k x :
  cell_holds t (fill p e E) q k x <-> (q = p /\ x = e /\ k = entry_key t p e) \/ cell_holds t E q k x.
Proof.
  unfold cell_holds. destruct (decide (q = p)) as [->|Hq].
  - rewrite fill_eq. split.
    + intros (_ & [= <-] & _ & <-). now left.
    + intros [(_ & -> & ->)|(_ & Hx & Hu & _)]; [done|]. rewrite (p_free x Hx) in Hu. discriminate.
  - rewrite fill_ne by done. split; [intros H; now right|]. intros [(-> & _)|H]; done.
Qed.

Lemma fill_ok : cells_ok t (fill p e E).
Proof.
  split.
  - intros q x Hq Hx. destruct (decide (q = p)) as [->|Hne].
    + rewrite fill_eq in Hx. now injection Hx as <-.
    + rewrite fill_ne in Hx by done. now apply (co_entry _ _ E_ok q).
  - intros q q' k x x' H1 H2. apply fill_holds in H1, H2.
    destruct H1 as [(-> & -> & ->)|H1], H2 as [(-> & -> & Hk)|H2].
    + done.
    + destruct (e_new _ _ H2).
    + subst k. destruct (e_new _ _ H1).
    + exact (co_unique _ _ E_ok _ _ _ _ _ H1 H2).
Qed.
End fill.

(** ** The target cell *)

Definition pair_bucket (t : cuckoo_trie) (h : Z) (sec : bool) : Z :=
  if sec then mix_bucket t (hash_to_bucket h) (hash_to_tag h) else hash_to_bucket h.

Record target_ok (s : state) (h : Z) (sec : bool) (tg : add_target) : Prop := mk_target_ok {
  tg_flags : at_flags tg = secondary_flag sec;
  tg_bucket : pos_bucket (at_cell tg) = pair_bucket (trie s) h sec;
  tg_cell : (pos_cell (at_cell tg) < CUCKOO_BUCKET_SIZE)%nat;
  tg_free : exists e, trie_entry (trie s) (at_cell tg) = Some e /\ used e = false;
  tg_alternate : rl_bucket (at_alternate tg) = pair_bucket (trie s) h (negb sec);
  tg_locked : 1 <= bucket_refs (lock_mgr s) (pos_bucket (at_cell tg));
}.

Section place.
Context `{laws : BucketLaws}.
Variables (s : state) (h : Z) (sec : bool) (tg : add_target) (e : ct_entry) (N : Z).
Hypothesis t_ok : table_ok (trie s).
Hypothesis l_ok : locks_ok N s.
Hypothesis N_ok : 0 <= N /\ N + 1 < 2 ^ 32.
Hypothesis h_ok : hash_ok (trie s) h.
Hypothesis tg_ok : target_ok s h sec tg.
Hypothesis e_ok : entry_ok e.
Hypothesis e_used : used e = true.
Hypothesis e_primary : entry_is_secondary e = false.

Let t := trie s.
Let p := at_cell tg.

Lemma pair_in b : 0 <= pair_bucket t h b < num_buckets t.
Proof.
  destruct (hash_parts t (tb_params t t_ok) h h_ok) as (Hb & Htag & _). unfold pair_bucket.
  destruct b; [|done]. apply mix_bucket_range; (done || apply tb_params, t_ok).
Qed.

Lemma pair_ne : pair_bucket t h sec <> pair_bucket t h (negb sec).
Proof.
  destruct (hash_parts t (tb_params t t_ok) h h_ok) as (Hb & Htag & _).
  pose proof (mix_bucket_ne t (tb_params t t_ok) (hash_to_bucket h) (hash_to_tag h) Hb Htag) as Hne.
  unfold pair_bucket. destruct sec; cbn; congruence.
Qed.

Lemma target_in : in_table t p.
Proof. unfold in_table, p. rewrite (tg_bucket _ _ _ _ tg_ok). apply pair_in. Qed.

(** The color is new in the pair. *)
Lemma new_color b1 b2 color q x :
  trie_bucket t (pair_bucket t h false) = Some b1 -> trie_bucket t (pair_bucket t h true) = Some b2 ->
  color = unused_color_in_pair b1 b2 -> ~ cell_holds t (trie_entry t) q (h, color) x.
Proof.
  intros H1 H2 -> Hx. pose proof Hx as (Hq & He & Hu & Hk).
  pose proof (trie_entry_ok t t_ok q x He) as Hok. injection Hk as Hkh Hkc.
  pose proof (entry_position t t_ok q x Hq Hok) as Hpos. rewrite Hkh in Hpos.
  destruct (trie_entry_bucket _ _ _ He) as (bk & Hbk & Hc). rewrite Hpos in Hbk.
  destruct (trie_bucket_ok t t_ok _ _ H1) as [B1 _]. destruct (trie_bucket_ok t t_ok _ _ H2) as [B2 _].
  destruct (unused_color_law b1 b2 B1 B2) as [_ Hfresh]. apply (Hfresh (pos_cell q) x); [|exact Hkc].
  unfold pair_bucket in H1, H2. destruct (entry_is_secondary x); [right|left]; congruence.
Qed.

(** What the entry becomes. *)
Section written.
Variable color : Z.
Hypothesis color_ok : 0 <= color <= MAX_VALID_COLOR.

Let e' := prepared h color sec e.

Lemma written_key : entry_key t p e' = (h, color) /\ entry_ok e' /\ cell_ok e' /\ used e' = true.
Proof.
  destruct (hash_parts t (tb_params t t_ok) h h_ok) as (Hb & Htag & _).
  destruct (prepared_fields h color sec e e_ok e_primary color_ok Htag) as (P1 & P2 & P3 & P4 & P5 & _).
  fold e' in P1, P2, P3, P4, P5.
  split; [|split; [done|split; [|congruence]]].
  - unfold entry_key. f_equal; [|done]. rewrite <- (position_hash t t_ok h sec (pos_cell p) e' h_ok P1 P2 P3).
    f_equal. pose proof (tg_bucket _ _ _ _ tg_ok) as E. fold p t in E. unfold pair_bucket in E. rewrite <- E. now destruct p.
  - unfold cell_ok. rewrite P5, e_used, P4. lia.
Qed.
End written.

(** [x] was stored in the target, and its bucket lock given back. *)
Record stored (lock : bool) (x : ct_entry) (s' : state) : Prop := mk_stored {
  st_params : same_params (trie s) (trie s');
  st_shape : shape_ok (trie s');
  st_mem : kv_mem s' = kv_mem s;
  st_cells : forall q, trie_entry (trie s') q = fill p x (trie_entry (trie s)) q;
  st_locks : locks_ok (N + 1) s';
  st_refs : forall b, bucket_refs (lock_mgr s') b = bucket_refs (lock_mgr s) b - one_at (pos_bucket p) b;
  st_entry_refs : forall b, entry_refs (lock_mgr s') b =
    if lock && (b =? pos_bucket p) then add_ref 1 (pos_cell p) (entry_refs (lock_mgr s) b) else entry_refs (lock_mgr s) b;
  st_seq : forall b bk, b <> pos_bucket p -> trie_bucket (trie s) b = Some bk ->
    exists bk', trie_bucket (trie s') b = Some bk' /\ seq_part (write_lock_and_seq bk') = seq_part (write_lock_and_seq bk);
}.

Definition alternate_unchanged : bool :=
  match trie_bucket (trie s) (rl_bucket (at_alternate tg)) with
  | Some bk => seq_part (write_lock_and_seq bk) =? rl_seq (at_alternate tg)
  | None => false
  end.

(** The optional entry lock on the target. *)
Lemma lock_target lock :
  exists s1, when lock (write_lock_entry_in_locked_bucket p) s = Ret tt s1 /\ trie s1 = trie s /\
    lock_effect (N + 1) s s1
      (fun b => if lock && (b =? pos_bucket p) then add_ref 1 (pos_cell p) (entry_refs (lock_mgr s) b)
                else entry_refs (lock_mgr s) b) (bucket_refs (lock_mgr s)).
Proof.
  destruct lock.
  - destruct (write_lock_entry_spec N s p) as (s1 & E & Htr & F & _); try done; [now apply table_shape|lia|apply tg_ok| |].
    { apply refs_locked. left. pose proof (tg_locked _ _ _ _ tg_ok). unfold p. lia. }
    exists s1. split; [exact E|]. split; [done|]. destruct F as [A1 A2 A3 A4 A5 A6]. split; try done.
    intros b. rewrite A5. cbn [andb]. destruct (Z.eqb_spec b (pos_bucket p)) as [->|]; done.
  - exists s. split; [done|]. split; [done|]. split; try done; [now apply table_shape|apply (locks_ok_mono N); [lia|done]].
Qed.

(** The bucket lock is given back after [x] was written. *)
Lemma release_target lock s1 t2 x :
  trie s1 = trie s ->
  lock_effect (N + 1) s s1
    (fun b => if lock && (b =? pos_bucket p) then add_ref 1 (pos_cell p) (entry_refs (lock_mgr s) b)
              else entry_refs (lock_mgr s) b) (bucket_refs (lock_mgr s)) ->
  shape_ok t2 -> same_params (trie s) t2 -> locks_ok (N + 1) (set_trie t2 s1) ->
  (forall q, trie_entry t2 q = fill p x (trie_entry (trie s)) q) ->
  (forall b, b <> pos_bucket p -> trie_bucket t2 b = trie_bucket (trie s) b) ->
  exists s', release_bucket_lock (pos_bucket p) (set_trie t2 s1) = Ret tt s' /\ stored lock x s'.
Proof.
  intros Htr F Hsh Hpar Hlk HE Hbk. pose proof (tg_locked _ _ _ _ tg_ok) as Hr. fold p in Hr.
  destruct (release_bucket_lock_spec (N + 1) (set_trie t2 s1) (pos_bucket p)) as (s' & E & F2 & _); try done; [lia| |].
  { cbn. now rewrite (le_refs _ _ _ _ _ F). }
  exists s'. split; [exact E|]. destruct F2 as [A1 A2 A3 A4 A5 A6]. cbn [lock_mgr set_trie trie kv_mem] in *. split; try done.
  - transitivity t2; [done|apply A1].
  - rewrite A3. apply F.
  - intros q. rewrite <- HE. symmetry. now apply same_but_locks_entry.
  - intros b. rewrite A6. now rewrite (le_refs _ _ _ _ _ F).
  - intros b. rewrite A5. apply F.
  - intros b bk Hne Hb. rewrite <- (Hbk b Hne) in Hb. destruct (same_but_locks_bucket _ _ _ _ A1 Hb) as (bk' & Hb' & Hsame).
    exists bk'. split; [done|]. apply same_bucket_seq; [done|apply (shape_bucket _ _ _ Hsh Hb)|apply (shape_bucket _ _ _ A2 Hb')].
Qed.

Lemma place_spec imm (lock : bool) s0 :
  add_entry_find_cell h imm s0 = Ret (SI_OK, Some tg) s ->
  exists color, 0 <= color <= MAX_VALID_COLOR /\ (forall q x, ~ cell_holds t (trie_entry t) q (h, color) x) /\
    if alternate_unchanged
    then exists s', add_entry h e imm lock s0 = Ret (SI_OK, Some (p, prepared h color sec e)) s' /\
           stored lock (prepared h color sec e) s'
    else exists s', add_entry h e imm lock s0 = Ret (SI_RETRY, None) s' /\ stored lock unused_entry s'.
Proof.
  intros Efind. destruct (bucket_exists t t_ok (pair_bucket t h false)) as [b1 Hb1]; [pose proof (pair_in false); lia|].
  destruct (bucket_exists t t_ok (pair_bucket t h true)) as [b2 Hb2]; [pose proof (pair_in true); lia|].
  destruct (trie_bucket_ok t t_ok _ _ Hb1) as [B1 _]. destruct (trie_bucket_ok t t_ok _ _ Hb2) as [B2 _].
  set (color := unused_color_in_pair b1 b2). destruct (unused_color_law b1 b2 B1 B2) as [Hcolor _]. fold color in Hcolor.
  exists color. split; [done|]. split; [intros q x; exact (new_color b1 b2 color q x Hb1 Hb2 eq_refl)|].
  destruct (written_key color Hcolor) as (Hkey & Hok & Hcell & Hused). set (e' := prepared h color sec e) in *.
  destruct (lock_target lock) as (s1 & E1 & Htr & F1).
  assert (Hl1 : is_Some (lock_at (lock_mgr s1) (pos_bucket p))).
  { apply refs_locked. left. rewrite (le_refs _ _ _ _ _ F1). pose proof (tg_locked _ _ _ _ tg_ok) as Hr. fold p in Hr. lia. }
  destruct (write_locked_spec (N + 1) s1 p e' (le_locks _ _ _ _ _ F1) (le_shape _ _ _ _ _ F1) Hl1 (tg_cell _ _ _ _ tg_ok) Hok)
    as (seq & t2 & E2 & A1 & A2 & A3 & A4 & A5).
  destruct (bucket_exists t t_ok (rl_bucket (at_alternate tg))) as [ba Hba].
  { rewrite (tg_alternate _ _ _ _ tg_ok). pose proof (pair_in (negb sec)) as Hin. fold t. lia. }
  assert (Hba2 : trie_bucket t2 (rl_bucket (at_alternate tg)) = Some ba).
  { rewrite A5; [now rewrite Htr|]. rewrite (tg_alternate _ _ _ _ tg_ok). unfold p. rewrite (tg_bucket _ _ _ _ tg_ok).
    intros E. exact (pair_ne (eq_sym E)). }
  assert (Efirst : forall r, (ret ← read_unlock_bucket (at_alternate tg);
       match ret with
       | SI_OK => _ ← release_bucket_lock (pos_bucket p); mret (SI_OK, Some (p, e'))
       | _ => _ ← remove_entry_by_address p; _ ← release_bucket_lock (pos_bucket p); mret (SI_RETRY, None)
       end) (set_trie t2 s1) = r -> add_entry h e imm lock s0 = r).
  { intros r <-. unfold add_entry. erewrite bind_Ret by exact Efind. cbv iota beta. unfold get_trie.
    erewrite bind_Ret by reflexivity. fold p. erewrite bind_Ret by exact E1.
    erewrite bind_Ret by (apply get_bucket_eq; rewrite Htr; exact Hb1).
    erewrite bind_Ret by (apply get_bucket_eq; rewrite Htr; exact Hb2).
    fold color. erewrite bind_Ret by (apply assert_true, Z.leb_le, Hcolor).
    rewrite (tg_flags _ _ _ _ tg_ok). fold e'. unfold prepared in e'. erewrite bind_Ret by exact E2. reflexivity. }
  assert (Hread : read_unlock_bucket (at_alternate tg) (set_trie t2 s1) =
            Ret (if alternate_unchanged then SI_OK else SI_FAIL) (set_trie t2 s1)).
  { unfold read_unlock_bucket. erewrite bind_Ret by (apply get_bucket_eq; exact Hba2).
    unfold alternate_unchanged. fold t. now rewrite Hba. }
  rewrite Htr in A2, A4, A5.
  destruct alternate_unchanged.
  - destruct (release_target lock s1 t2 e' Htr F1 A1 A2 A3 A4 A5) as (s' & E3 & Hst). exists s'. split; [|exact Hst].
    apply Efirst. erewrite bind_Ret by exact Hread. cbv iota. erewrite bind_Ret by exact E3. reflexivity.
  - destruct (write_locked_spec (N + 1) (set_trie t2 s1) p unused_entry A3 A1 Hl1 (tg_cell _ _ _ _ tg_ok))
      as (seq' & t3 & E3 & C1 & C2 & C3 & C4 & C5).
    { apply entry_ok_check. reflexivity. }
    destruct (release_target lock s1 t3 unused_entry Htr F1 C1) as (s' & E4 & Hst); try done.
    { now transitivity t2. }
    { intros q. rewrite C4. cbn. unfold fill. case_decide; [done|]. rewrite A4. unfold fill. now rewrite decide_False. }
    { intros b Hne. rewrite C5 by done. cbn. now apply A5. }
    exists s'. split; [|exact Hst]. apply Efirst. erewrite bind_Ret by exact Hread. cbv iota.
    erewrite bind_Ret.
    2: { unfold remove_entry_by_address, bucket_write_locked, get_locks.
         erewrite bind_Ret by (erewrite bind_Ret by reflexivity; reflexivity).
         erewrite bind_Ret.
         2: { apply assert_true, bool_decide_eq_true. destruct Hl1 as [lk Hlk].
              destruct (lock_index _ _ _ Hlk) as (i & Hi & _). exists i. exact Hi. }
         erewrite bind_Ret by exact E3. reflexivity. }
    erewrite bind_Ret by exact E4. reflexivity.
Qed.
End place.

(** ** Finding the cell *)

Definition has_free_cell (t : cuckoo_trie) (b : Z) : bool :=
  match trie_bucket t b with Some bk => bool_decide (is_Some (find_free_cell_in_bucket bk)) | None => false end.

(** One of the two buckets an entry of hash [h] may lie in has a free cell. *)
Definition pair_has_room (t : cuckoo_trie) (h : Z) : bool :=
  has_free_cell t (pair_bucket t h false) || has_free_cell t (pair_bucket t h true).

Lemma pair_bucket_params t t' h sec : same_params t t' -> pair_bucket t h sec = pair_bucket t' h sec.
Proof. intros H. unfold pair_bucket. now rewrite H. Qed.

Lemma pair_bucket_locks t t' h sec : same_but_locks t t' -> pair_bucket t h sec = pair_bucket t' h sec.
Proof. intros H. apply pair_bucket_params, H. Qed.

Lemma pair_has_room_locks t t' h : same_but_locks t t' -> pair_has_room t h = pair_has_room t' h.
Proof.
  intros Hs. assert (Hb : forall b, has_free_cell t b = has_free_cell t' b).
  { intros b. unfold has_free_cell. destruct (trie_bucket t b) as [bk|] eqn:E.
    - destruct (same_but_locks_bucket _ _ _ _ Hs E) as (bk' & -> & Ec & _). unfold find_free_cell_in_bucket. now rewrite Ec.
    - destruct (trie_bucket t' b) as [bk'|] eqn:E'; [|done]. symmetry in Hs.
      destruct (same_but_locks_bucket _ _ _ _ Hs E') as (bk & Eb & _). congruence. }
  unfold pair_has_room. now rewrite <- !(pair_bucket_locks _ _ _ _ Hs), !Hb.
Qed.

Lemma same_seq t t' b bk :
  shape_ok t -> shape_ok t' -> same_but_locks t t' -> trie_bucket t b = Some bk ->
  exists bk', trie_bucket t' b = Some bk' /\ seq_part (write_lock_and_seq bk') = seq_part (write_lock_and_seq bk).
Proof.
  intros Ht Ht' H Hb. destruct (same_but_locks_bucket _ _ _ _ H Hb) as (bk' & Hb' & Hsame). exists bk'. split; [done|].
  apply same_bucket_seq; [done|apply (shape_bucket _ _ _ Ht Hb)|apply (shape_bucket _ _ _ Ht' Hb')].
Qed.

(** What [add_entry_find_cell] does from state [s]. *)
Definition cell_found (h : Z) (imm : option pos) (N : Z) (s : state)
    (r : si_status * option add_target) (s1 : state) : Prop :=
  locks_ok N s1 /\
  match snd r with
  | Some tg =>
      fst r = SI_OK /\
      relocated imm s s1 (fun b => bucket_refs (lock_mgr s) b + one_at (pos_bucket (at_cell tg)) b) /\
      exists sec, target_ok s1 h sec tg /\ (pair_has_room (trie s) h = true -> alternate_unchanged s1 tg = true)
  | None => fst r = SI_FAIL /\ pair_has_room (trie s) h = false /\ relocated imm s s1 (bucket_refs (lock_mgr s))
  end.

Section find_cell.
Context `{laws : BucketLaws}.
Variables (s : state) (h : Z) (imm : option pos) (N : Z).
Hypothesis t_ok : table_ok (trie s).
Hypothesis l_ok : locks_ok N s.
Hypothesis N_ok : 0 <= N /\ N + 1 + RELOCATE_REFS < 2 ^ 32.
Hypothesis h_ok : hash_ok (trie s) h.

(** The lock manager has room for the target's lock, and for those of a
    relocation from the primary bucket. *)
Record add_room : Prop := mk_add_room {
  ar_bucket : forall sec, room_for s (pair_bucket (trie s) h sec);
  ar_path : forall bk s1, trie_bucket (trie s) (pair_bucket (trie s) h false) = Some bk ->
    upgrade_bucket_lock (mk_read_lock (pair_bucket (trie s) h false) (seq_part (write_lock_and_seq bk))) s = Ret SI_OK s1 ->
    path_room imm (pair_bucket (trie s) h false) s1;
}.
Section free.
Hypothesis bucket_room : forall sec, room_for s (pair_bucket (trie s) h sec).

(** A free cell in one of the two buckets is the target. *)
Definition free_found (sec : bool) (tg : add_target) (s1 : state) : Prop :=
  lock_effect (N + 1) s s1 (entry_refs (lock_mgr s)) (fun b => bucket_refs (lock_mgr s) b + one_at (pos_bucket (at_cell tg)) b) /\
  target_ok s1 h sec tg /\ alternate_unchanged s1 tg = true.

Lemma free_target sec bk bk' c :
  trie_bucket (trie s) (pair_bucket (trie s) h sec) = Some bk ->
  trie_bucket (trie s) (pair_bucket (trie s) h (negb sec)) = Some bk' ->
  find_free_cell_in_bucket bk = Some c ->
  exists s1, upgrade_bucket_lock (mk_read_lock (pair_bucket (trie s) h sec) (seq_part (write_lock_and_seq bk))) s
      = Ret SI_OK s1 /\
    free_found sec (mk_target (mk_pos (pair_bucket (trie s) h sec) c) (secondary_flag sec)
                      (mk_read_lock (pair_bucket (trie s) h (negb sec)) (seq_part (write_lock_and_seq bk')))) s1.
Proof.
  intros Hb Hb' Hc. unfold RELOCATE_REFS in *.
  destruct (upgrade_bucket_lock_spec N s (pair_bucket (trie s) h sec) bk) as (s1 & E & F & _); try done;
    [now apply table_shape|lia|]. exists s1. split; [exact E|]. pose proof F as [A1 A2 A3 A4 A5 A6].
  split; [exact F|]. cbn [fst snd at_cell pos_bucket].
  destruct (find_free_Some _ _ Hc) as (Hlt & e & He & Hu). split.
  - split; cbn [at_cell at_flags at_alternate pos_bucket pos_cell rl_bucket]; rewrite <- ?(pair_bucket_locks _ _ _ _ A1); try done.
    + exists e. rewrite <- (same_but_locks_entry _ _ _ A1). split; [|done]. unfold trie_entry. cbn. now rewrite Hb.
    + rewrite A6. pose proof (bucket_refs_nonneg N s (pair_bucket (trie s) h sec) l_ok). unfold one_at. rewrite Z.eqb_refl. lia.
  - unfold alternate_unchanged. cbn [at_alternate rl_bucket rl_seq].
    destruct (same_seq _ _ _ _ (table_shape _ t_ok) A2 A1 Hb') as (bk2 & -> & E2). now apply Z.eqb_eq.
Qed.

(** The two buckets of the pair. *)
Lemma pair_buckets : exists bk bk', trie_bucket (trie s) (pair_bucket (trie s) h false) = Some bk /\
  trie_bucket (trie s) (pair_bucket (trie s) h true) = Some bk'.
Proof.
  destruct (hash_parts _ (tb_params _ t_ok) h h_ok) as (Hp & Htag & _).
  assert (Hq : 0 <= pair_bucket (trie s) h true < num_buckets (trie s)) by (apply mix_bucket_range; (done || apply t_ok)).
  destruct (bucket_exists _ t_ok (pair_bucket (trie s) h false)) as [bk Hb]; [cbn; lia|].
  destruct (bucket_exists _ t_ok (pair_bucket (trie s) h true)) as [bk' Hb']; [lia|]. eauto.
Qed.

Lemma find_free_spec : pair_has_room (trie s) h = true ->
  exists sec tg s1, add_entry_find_cell h imm s = Ret (SI_OK, Some tg) s1 /\ free_found sec tg s1.
Proof.
  destruct pair_buckets as (bk & bk' & Hb & Hb'). unfold pair_has_room, has_free_cell. rewrite Hb, Hb'. intros Hfree.
  unfold add_entry_find_cell, get_trie. erewrite bind_Ret by reflexivity.
  change (hash_to_bucket h) with (pair_bucket (trie s) h false). change (mix_bucket _ _ _) with (pair_bucket (trie s) h true).
  erewrite bind_Ret by (unfold read_lock_bucket; erewrite bind_Ret by (apply get_bucket_eq; exact Hb); reflexivity).
  erewrite bind_Ret by (unfold read_lock_bucket; erewrite bind_Ret by (apply get_bucket_eq; exact Hb'); reflexivity).
  erewrite bind_Ret by (apply get_bucket_eq; exact Hb).
  destruct (find_free_cell_in_bucket bk) as [c|] eqn:Ef.
  { destruct (free_target false bk bk' c Hb Hb' Ef) as (s1 & E & Hr). eexists false, _, s1. split; [|exact Hr].
    erewrite bind_Ret by exact E. reflexivity. }
  erewrite bind_Ret by (apply get_bucket_eq; exact Hb').
  destruct (find_free_cell_in_bucket bk') as [c|] eqn:Ef'; [|exfalso; rewrite !bool_decide_false in Hfree by (intros [? ?]; discriminate); discriminate].
  destruct (free_target true bk' bk c Hb' Hb Ef') as (s1 & E & Hr). eexists true, _, s1. split; [|exact Hr].
  erewrite bind_Ret by exact E. reflexivity.
Qed.
End free.

Hypothesis room : add_room.

Lemma full_locked t' b bk :
  same_but_locks (trie s) t' -> trie_bucket (trie s) b = Some bk -> find_free_cell_in_bucket bk = None -> full t' b.
Proof.
  intros Hs Hb Hf. destruct (same_but_locks_bucket _ _ _ _ Hs Hb) as (bk' & Hb' & Ec & _). exists bk'. split; [done|].
  unfold find_free_cell_in_bucket in *. now rewrite <- Ec.
Qed.

Lemma no_room bk bk' :
  trie_bucket (trie s) (pair_bucket (trie s) h false) = Some bk -> find_free_cell_in_bucket bk = None ->
  trie_bucket (trie s) (pair_bucket (trie s) h true) = Some bk' -> find_free_cell_in_bucket bk' = None ->
  pair_has_room (trie s) h = false.
Proof. intros E1 E2 E3 E4. unfold pair_has_room, has_free_cell. now rewrite E1, E2, E3, E4. Qed.

(** Both buckets are full: an entry of the primary one is moved away, or
    the search found no way to do so. *)
Lemma relocated_target bk bk' :
  trie_bucket (trie s) (pair_bucket (trie s) h false) = Some bk -> find_free_cell_in_bucket bk = None ->
  trie_bucket (trie s) (pair_bucket (trie s) h true) = Some bk' -> find_free_cell_in_bucket bk' = None ->
  exists s1 r s2,
    upgrade_bucket_lock (mk_read_lock (pair_bucket (trie s) h false) (seq_part (write_lock_and_seq bk))) s = Ret SI_OK s1 /\
    ('(ret2, cell) ← relocate_entry (pair_bucket (trie s) h false) imm;
     match ret2, cell with
     | SI_OK, Some p => mret (SI_OK, Some (mk_target p 0
          (mk_read_lock (pair_bucket (trie s) h true) (seq_part (write_lock_and_seq bk')))))
     | _, _ => _ ← release_bucket_lock (pair_bucket (trie s) h false); mret (ret2, None)
     end) s1 = Ret r s2 /\ cell_found h imm (N + 1 + RELOCATE_REFS) s r s2.
Proof.
  intros Hb Hf Hb' Hf'. pose proof (no_room bk bk' Hb Hf Hb' Hf') as Hno. assert (HR : 0 <= RELOCATE_REFS) by (unfold RELOCATE_REFS; lia).
  destruct (upgrade_bucket_lock_spec N s (pair_bucket (trie s) h false) bk) as (s1 & E1 & F & _); try done;
    [now apply table_shape|lia|apply room|]. pose proof F as [A1 A2 A3 A4 A5 A6].
  pose proof (lock_effect_relocated (N + 1) imm s s1 _ t_ok ltac:(split; done)) as R1.
  assert (Href : 1 <= bucket_refs (lock_mgr s1) (pair_bucket (trie s) h false)).
  { rewrite A6. unfold one_at. rewrite Z.eqb_refl. pose proof (bucket_refs_nonneg N s (pair_bucket (trie s) h false) l_ok). lia. }
  assert (Hin : 0 <= pair_bucket (trie s) h false < num_buckets (trie s)) by (apply hash_parts; [apply t_ok|done]).
  destruct (relocate_entry_spec (N + 1) s1 imm (pair_bucket (trie s) h false)) as [E2|(p & s2 & E2 & R2 & L2 & Hp & Hc & Hfree)];
    try done; [apply R1|lia|now apply (full_locked _ _ bk)|
               now rewrite (same_params_eq _ _ (rl_params _ _ _ _ R1))|now apply (ar_path room _ _ Hb E1)| |].
  - destruct (release_bucket_lock_spec (N + 1) s1 (pair_bucket (trie s) h false)) as (s2 & E3 & F3 & _); try done; [lia|].
    exists s1, (SI_FAIL, None), s2. split; [done|]. split; [erewrite bind_Ret by exact E2; cbv iota beta; erewrite bind_Ret by exact E3; done|].
    split; [apply (locks_ok_mono (N + 1)); [lia|apply F3]|]. split; [done|]. split; [done|].
    pose proof (lock_effect_trans _ _ _ _ _ _ _ _ _ F F3) as [B1 B2 B3 B4 B5 B6].
    apply (lock_effect_relocated (N + 1)); [done|]. split; try done.
    + intros b. rewrite B5. apply A5.
    + intros b. rewrite B6, A6. lia.
  - exists s1, (SI_OK, Some (mk_target p 0 (mk_read_lock (pair_bucket (trie s) h true) (seq_part (write_lock_and_seq bk'))))), s2.
    split; [done|]. split; [erewrite bind_Ret by exact E2; reflexivity|]. split; [done|]. cbn [fst snd at_cell]. split; [done|].
    pose proof (relocated_trans _ _ _ _ _ _ R1 R2) as R. rewrite Hp.
    assert (Hrefs : forall b, bucket_refs (lock_mgr s2) b = bucket_refs (lock_mgr s) b + one_at (pair_bucket (trie s) h false) b)
      by (intros b; rewrite (rl_refs _ _ _ _ R2); apply A6).
    split; [destruct R; by split|]. exists false. split; [|rewrite Hno; discriminate].
    split; cbn [at_cell at_flags at_alternate rl_bucket negb]; rewrite <- ?(pair_bucket_params _ _ _ _ (rl_params _ _ _ _ R)); try done.
    rewrite Hrefs, Hp, <- A6. done.
Qed.

Lemma find_cell_spec :
  exists r s1, add_entry_find_cell h imm s = Ret r s1 /\ cell_found h imm (N + 1 + RELOCATE_REFS) s r s1.
Proof.
  assert (HR : 0 <= RELOCATE_REFS) by (unfold RELOCATE_REFS; lia). destruct (pair_has_room (trie s) h) eqn:Eroom.
  - destruct (find_free_spec (ar_bucket room) Eroom) as (sec & tg & s1 & E & F & Htg & Halt). exists (SI_OK, Some tg), s1. split; [exact E|].
    split; [apply (locks_ok_mono (N + 1)); [lia|apply F]|]. cbn [fst snd]. split; [done|].
    split; [now apply (lock_effect_relocated (N + 1))|]. exists sec. done.
  - destruct pair_buckets as (bk & bk' & Hb & Hb').
    assert (Hf : find_free_cell_in_bucket bk = None /\ find_free_cell_in_bucket bk' = None).
    { unfold pair_has_room, has_free_cell in Eroom. rewrite Hb, Hb' in Eroom. apply orb_false_iff in Eroom as [E1 E2].
      apply bool_decide_eq_false in E1, E2. now rewrite <- !eq_None_not_Some in *. }
    destruct Hf as [Ef Ef']. destruct (relocated_target bk bk' Hb Ef Hb' Ef') as (s1 & r & s2 & E1 & E2 & Hr). exists r, s2. split; [|exact Hr].
    unfold add_entry_find_cell, get_trie. erewrite bind_Ret by reflexivity.
    change (hash_to_bucket h) with (pair_bucket (trie s) h false). change (mix_bucket _ _ _) with (pair_bucket (trie s) h true).
    erewrite bind_Ret by (unfold read_lock_bucket; erewrite bind_Ret by (apply get_bucket_eq; exact Hb); reflexivity).
    erewrite bind_Ret by (unfold read_lock_bucket; erewrite bind_Ret by (apply get_bucket_eq; exact Hb'); reflexivity).
    erewrite bind_Ret by (apply get_bucket_eq; exact Hb). rewrite Ef.
    erewrite bind_Ret by (apply get_bucket_eq; exact Hb'). rewrite Ef'.
    erewrite bind_Ret by exact E1. exact E2.
Qed.
End find_cell.

(** ** [add_entry] *)

(** What adding an entry keeps, whatever its result. *)
Record kept (imm : option pos) (s s' : state) : Prop := mk_kept {
  kp_params : same_params (trie s) (trie s');
  kp_table : table_ok (trie s');
  kp_mem : kv_mem s' = kv_mem s;
  kp_fixed : forall p e, fixed_pos imm p -> trie_entry (trie s) p = Some e -> used e = true ->
               trie_entry (trie s') p = Some e;
  kp_locked : forall k, entries_locked (trie s) (trie_entry (trie s)) (lock_mgr s) k ->
                entries_locked (trie s') (trie_entry (trie s')) (lock_mgr s') k;
  kp_refs : forall b, bucket_refs (lock_mgr s') b = bucket_refs (lock_mgr s) b;
}.

Lemma relocated_kept imm s s' : relocated imm s s' (bucket_refs (lock_mgr s)) -> kept imm s s'.
Proof. intros []. split; done. Qed.

Lemma add_ref_le c refs i : byte_at refs i <= byte_at (add_ref 1 c refs) i.
Proof.
  unfold byte_at, add_ref. rewrite !nth_lookup. destruct (decide (c = i)) as [->|Hne].
  - rewrite list_lookup_alter_eq. destruct (refs !! i); cbn; lia.
  - rewrite list_lookup_alter_ne by done. lia.
Qed.

Section stored.
Variables (imm : option pos) (s0 s s' : state) (tg : add_target) (N : Z) (lock : bool) (x : ct_entry).
Hypothesis before : relocated imm s0 s (fun b => bucket_refs (lock_mgr s0) b + one_at (pos_bucket (at_cell tg)) b).
Hypothesis free : exists e, trie_entry (trie s) (at_cell tg) = Some e /\ used e = false.
Hypothesis st : stored s tg N lock x s'.
Hypothesis cells : cells_ok (trie s) (fill (at_cell tg) x (trie_entry (trie s))).

Lemma not_target q e : trie_entry (trie s) q = Some e -> used e = true -> q <> at_cell tg.
Proof. intros Hq Hu ->. destruct free as (e' & He' & Hu'). congruence. Qed.

Lemma stored_kept : kept imm s0 s'.
Proof.
  assert (Hpar : same_params (trie s0) (trie s')) by (transitivity (trie s); [apply before|apply st]).
  split.
  - exact Hpar.
  - apply table_cells. split; [apply st|]. apply (cells_ok_params (trie s)); [apply st|].
    apply (cells_ok_eq _ (fill (at_cell tg) x (trie_entry (trie s)))); [|exact cells].
    intros q. symmetry. apply (st_cells _ _ _ _ _ _ st).
  - rewrite (st_mem _ _ _ _ _ _ st). apply before.
  - intros p e Hp He Hu. pose proof (rl_fixed _ _ _ _ before p e Hp He Hu) as He'.
    rewrite (st_cells _ _ _ _ _ _ st), fill_ne; [done|]. exact (not_target p e He' Hu).
  - intros k Hk. destruct (rl_locked _ _ _ _ before k Hk) as (p & e & (H1 & H2 & H3 & H4) & Hr).
    apply (entries_locked_params (trie s)); [apply st|]. exists p, e.
    split; [split; [done|]; split; [|done]; rewrite (st_cells _ _ _ _ _ _ st), fill_ne; [done|exact (not_target p e H2 H3)]|].
    unfold entry_ref in *. rewrite (st_entry_refs _ _ _ _ _ _ st). destruct (lock && _); [|done].
    pose proof (add_ref_le (pos_cell (at_cell tg)) (entry_refs (lock_mgr s) (pos_bucket p)) (pos_cell p)). lia.
  - intros b. rewrite (st_refs _ _ _ _ _ _ st), (rl_refs _ _ _ _ before). lia.
Qed.

Lemma stored_contents k e :
  cell_contents (trie s) (fill (at_cell tg) x (trie_entry (trie s))) k e <-> contents (trie s') k e.
Proof.
  split; intros (p & e0 & Hp & ->); exists p, e0; (split; [|done]).
  - apply (cell_holds_params (trie s)); [apply st|]. revert Hp. apply cell_holds_ext. symmetry. apply (st_cells _ _ _ _ _ _ st).
  - apply (cell_holds_params (trie s) (trie s')) in Hp; [|apply st]. revert Hp. apply cell_holds_ext, (st_cells _ _ _ _ _ _ st).
Qed.
End stored.

(** The entry [e] of hash [h] was added as [x], in cell [p]. *)
Record added (h : Z) (e : ct_entry) (lock : bool) (s s' : state) (p : pos) (x : ct_entry) : Prop := mk_added {
  ad_color : 0 <= entry_color x <= MAX_VALID_COLOR;
  ad_fresh : forall y, ~ contents (trie s) (h, entry_color x) y;
  ad_entry : exists sec, x = prepared h (entry_color x) sec e;
  ad_holds : holds (trie s') p (h, entry_color x) x;
  ad_contents : forall k y, contents (trie s') k y <->
                  contents (trie s) k y \/ (k = (h, entry_color x) /\ y = clear_secondary x);
  ad_lock : lock = true -> 1 <= entry_ref (lock_mgr s') p;
}.

#[local] Opaque prepared clear_secondary.

Section add.
Context `{laws : BucketLaws}.
Variables (s : state) (h : Z) (e : ct_entry) (imm : option pos) (lock : bool) (N : Z).
Hypothesis t_ok : table_ok (trie s).
Hypothesis l_ok : locks_ok N s.
Hypothesis N_ok : 0 <= N /\ N + 2 + RELOCATE_REFS < 2 ^ 32.
Hypothesis h_ok : hash_ok (trie s) h.
Hypothesis e_ok : entry_ok e.
Hypothesis e_used : used e = true.
Hypothesis e_primary : entry_is_secondary e = false.
Hypothesis room : add_room s h imm.

Section target.
Variables (s1 : state) (tg : add_target) (sec : bool).
Hypothesis tg_found : add_entry_find_cell h imm s = Ret (SI_OK, Some tg) s1.
Hypothesis tg_locks : locks_ok (N + 1 + RELOCATE_REFS) s1.
Hypothesis tg_moved : relocated imm s s1 (fun b => bucket_refs (lock_mgr s) b + one_at (pos_bucket (at_cell tg)) b).
Hypothesis tg_ok : target_ok s1 h sec tg.

Lemma target_hash : hash_ok (trie s1) h.
Proof. unfold hash_ok. rewrite (same_params_eq _ _ (rl_params _ _ _ _ tg_moved)). exact h_ok. Qed.

Lemma fresh_before color :
  (forall q x, ~ cell_holds (trie s1) (trie_entry (trie s1)) q (h, color) x) -> forall y, ~ contents (trie s) (h, color) y.
Proof. intros Hf y Hy. apply (rl_contents _ _ _ _ tg_moved) in Hy as (p & e0 & Hp & _). exact (Hf p e0 Hp). Qed.

(** The entry written is found where it was written. *)
Lemma stored_added color s' :
  0 <= color <= MAX_VALID_COLOR -> (forall q x, ~ cell_holds (trie s1) (trie_entry (trie s1)) q (h, color) x) ->
  stored s1 tg (N + 1 + RELOCATE_REFS) lock (prepared h color sec e) s' ->
  kept imm s s' /\ added h e lock s s' (at_cell tg) (prepared h color sec e).
Proof.
  intros Hc Hf Hst. assert (Ht1 : table_ok (trie s1)) by apply tg_moved. pose proof target_hash as Hh.
  destruct (written_key s1 h sec tg e Ht1 Hh tg_ok e_ok e_used e_primary color Hc) as (Hk & Hok & Hcell & Hu).
  destruct (hash_parts _ (tb_params _ t_ok) h h_ok) as (_ & Htag & _).
  destruct (prepared_fields h color sec e e_ok e_primary Hc Htag) as (_ & _ & _ & Ecol & _).
  pose proof (target_in s1 h sec tg Ht1 Hh tg_ok) as Hin. pose proof (tg_free _ _ _ _ tg_ok) as Hfree.
  assert (Hunused : forall x, trie_entry (trie s1) (at_cell tg) = Some x -> used x = false)
    by (intros x Hx; destruct Hfree as (e0 & He0 & Hu0); congruence).
  assert (Hnew : forall q x, ~ cell_holds (trie s1) (trie_entry (trie s1)) q
            (entry_key (trie s1) (at_cell tg) (prepared h color sec e)) x) by (rewrite Hk; exact Hf).
  pose proof (proj1 (table_cells _) Ht1) as [_ Hcells].
  split; [apply (stored_kept imm s s1 s' tg (N + 1 + RELOCATE_REFS) lock (prepared h color sec e));
    [exact tg_moved|exact Hfree|exact Hst|exact (fill_ok _ _ _ _ Hcells Hin Hunused (conj Hok Hcell) Hu Hnew)]|].
  assert (Hat : cell_holds (trie s1) (fill (at_cell tg) (prepared h color sec e) (trie_entry (trie s1))) (at_cell tg) (h, color)
            (prepared h color sec e)) by (split; [done|]; split; [apply fill_eq|done]).
  split; rewrite ?Ecol; [exact Hc|now apply fresh_before|now exists sec| | |].
  - apply (cell_holds_params (trie s1)); [apply Hst|]. revert Hat. apply cell_holds_ext. symmetry. apply (st_cells _ _ _ _ _ _ Hst).
  - intros k y. rewrite <- (stored_contents s1 s' tg _ lock _ Hst k y), (rl_contents _ _ _ _ tg_moved k y).
    unfold cell_contents. setoid_rewrite (fill_holds _ _ _ _ Hin Hunused (conj Hok Hcell) Hu). rewrite Hk. split.
    + intros (p & e0 & [(-> & -> & ->)|Hp] & ->); [right; split; reflexivity|left; exists p, e0; split; [exact Hp|reflexivity]].
    + intros [(p & e0 & Hp & ->)|[-> ->]].
      * exists p, e0. split; [right; exact Hp|reflexivity].
      * exists (at_cell tg), (prepared h color sec e). split; [left; repeat split|]; reflexivity.
  - intros ->. unfold entry_ref. rewrite (st_entry_refs _ _ _ _ _ _ Hst), Z.eqb_refl. cbn [andb].
    destruct (entry_refs_ok _ _ (pos_bucket (at_cell tg)) tg_locks) as [Hlen Hnn]. pose proof (tg_cell _ _ _ _ tg_ok) as Hlt.
    unfold byte_at, add_ref. rewrite nth_lookup, list_lookup_alter_eq.
    destruct (lookup_lt_is_Some_2 (entry_refs (lock_mgr s1) (pos_bucket (at_cell tg))) (pos_cell (at_cell tg))) as [r Hr];
      [now rewrite Hlen|]. rewrite Hr. cbn. pose proof (Forall_lookup_1 _ _ _ _ Hnn Hr). cbn in *. lia.
Qed.

(** The target was given up: what was stored is an unused entry. *)
Lemma stored_unused s' :
  stored s1 tg (N + 1 + RELOCATE_REFS) lock unused_entry s' ->
  kept imm s s' /\ forall k y, contents (trie s') k y <-> contents (trie s) k y.
Proof.
  intros Hst. assert (Ht1 : table_ok (trie s1)) by apply tg_moved. pose proof (proj1 (table_cells _) Ht1) as [_ Hcells].
  assert (Hu : used unused_entry = false /\ entry_ok unused_entry /\ cell_ok unused_entry) 
    by (split; [reflexivity|]; split; [now apply entry_ok_check|]; split; reflexivity).
  assert (Hunused : forall x, trie_entry (trie s1) (at_cell tg) = Some x -> used x = false)
    by (intros x Hx; destruct (tg_free _ _ _ _ tg_ok) as (e0 & He0 & Hu0); congruence).
  split.
  - apply (stored_kept imm s s1 s' tg (N + 1 + RELOCATE_REFS) lock unused_entry);
      [exact tg_moved|apply tg_ok|exact Hst|].
    revert Hcells. apply cells_ok_ext. intros p x _ Hx. unfold fill in Hx. case_decide; [right; now injection Hx as <-|now left].
  - intros k y. rewrite <- (stored_contents s1 s' tg _ lock _ Hst k y), (rl_contents _ _ _ _ tg_moved k y).
    assert (Hsame : same_contents (trie s1) (fill (at_cell tg) unused_entry (trie_entry (trie s1))) (trie_entry (trie s1))); [|apply Hsame].
    transitivity (erase (at_cell tg) (fill (at_cell tg) unused_entry (trie_entry (trie s1)))).
    { apply erase_unused_contents. intros x. rewrite fill_eq. intros [= <-]. apply Hu. }
    transitivity (erase (at_cell tg) (trie_entry (trie s1))); [|symmetry; now apply erase_unused_contents].
    apply same_contents_eq. intros q. unfold erase, fill. now case_decide.
Qed.
End target.

(** The result of [add_entry]. *)
Definition add_result (r : si_status * option (pos * ct_entry)) (s' : state) : Prop :=
  match r with
  | (SI_OK, Some (p, x)) => added h e lock s s' p x
  | ((SI_RETRY | SI_FAIL), None) => pair_has_room (trie s) h = false /\ forall k y, contents (trie s') k y <-> contents (trie s) k y
  | _ => False
  end.

Lemma add_entry_spec :
  exists r s', add_entry h e imm lock s = Ret r s' /\ kept imm s s' /\ locks_ok (N + 2 + RELOCATE_REFS) s' /\ add_result r s'.
Proof.
  destruct (find_cell_spec s h imm N t_ok l_ok ltac:(lia) h_ok room) as ([st [tg|]] & s1 & E & Hl1 & Hr); cbn [fst snd] in Hr.
  - destruct Hr as (-> & Hmv & sec & Htg & Hroom). pose proof (target_hash s1 tg Hmv) as Hh.
    destruct (place_spec s1 h sec tg e (N + 1 + RELOCATE_REFS) (rl_table _ _ _ _ Hmv) Hl1 ltac:(unfold RELOCATE_REFS in *; lia)
      Hh Htg e_ok e_used e_primary imm lock s E) as (color & Hc & Hf & Hplace).
    destruct (alternate_unchanged s1 tg) eqn:Ealt; destruct Hplace as (s' & Eadd & Hst).
    + destruct (stored_added s1 tg sec Hl1 Hmv Htg color s' Hc Hf Hst) as [Hk Ha].
      exists (SI_OK, Some (at_cell tg, prepared h color sec e)), s'. split; [done|]. split; [done|].
      split; [|exact Ha]. apply (locks_ok_mono (N + 1 + RELOCATE_REFS + 1)); [lia|apply Hst].
    + destruct (stored_unused s1 tg sec Hmv Htg s' Hst) as [Hk Ha].
      exists (SI_RETRY, None), s'. split; [done|]. split; [done|].
      split; [apply (locks_ok_mono (N + 1 + RELOCATE_REFS + 1)); [lia|apply Hst]|]. split; [|exact Ha].
      apply not_true_iff_false. intros Hroom'. specialize (Hroom Hroom'). congruence.
  - destruct Hr as (-> & Hno & Hmv). exists (SI_FAIL, None), s1. split; [unfold add_entry; erewrite bind_Ret by exact E; reflexivity|].
    split; [now apply relocated_kept|]. split; [apply (locks_ok_mono (N + 1 + RELOCATE_REFS)); [lia|done]|].
    split; [done|]. intros k y. symmetry. apply Hmv.
Qed.
End add.

(** ** Adding an entry to a pair with room

    Nothing is moved: the new entry fills an unused cell and all other cells
    are as they were. *)

(** Entry [e] of hash [h] was written to the unused cell [p], as [x]. *)
Record placed (N : Z) (h : Z) (e : ct_entry) (lock : bool) (s s' : state) (p : pos) (x : ct_entry) : Prop := mk_placed {
  pc_in : in_table (trie s) p;
  pc_free : forall y, trie_entry (trie s) p = Some y -> used y = false;
  pc_cells : forall q, trie_entry (trie s') q = fill p x (trie_entry (trie s)) q;
  pc_params : same_params (trie s) (trie s');
  pc_table : table_ok (trie s');
  pc_mem : kv_mem s' = kv_mem s;
  pc_locks : locks_ok N s';
  pc_new : exists color sec, 0 <= color <= MAX_VALID_COLOR /\ x = prepared h color sec e /\ holds (trie s') p (h, color) x;
  pc_entries : forall q, entry_ref (lock_mgr s) q <= entry_ref (lock_mgr s') q;
  pc_held : lock = true -> 1 <= entry_ref (lock_mgr s') p;
  pc_seq : forall b bk, b <> pos_bucket p -> trie_bucket (trie s) b = Some bk ->
    exists bk', trie_bucket (trie s') b = Some bk' /\ seq_part (write_lock_and_seq bk') = seq_part (write_lock_and_seq bk);
  pc_bucket : exists sec, pos_bucket p = pair_bucket (trie s) h sec;
  pc_count : (length (lock_mgr s') <= S (length (lock_mgr s)))%nat;
}.

(** One more bucket has one more record. *)
Lemma lock_count_le N N' s s' b0 :
  locks_ok N s -> locks_ok N' s' -> (forall b, bucket_refs (lock_mgr s') b = bucket_refs (lock_mgr s) b) ->
  (forall b, b <> b0 -> entry_refs (lock_mgr s') b = entry_refs (lock_mgr s) b) ->
  (length (lock_mgr s') <= S (length (lock_mgr s)))%nat.
Proof.
  intros Hs Hs' Hr He. rewrite <- (length_fmap wl_bucket (lock_mgr s)), <- (length_fmap wl_bucket (lock_mgr s')).
  change (S (length (wl_bucket <$> lock_mgr s))) with (length (b0 :: (wl_bucket <$> lock_mgr s))).
  apply submseteq_length, NoDup_submseteq; [apply (lks_nodup _ _ Hs')|]. intros b Hb.
  destruct (decide (b = b0)) as [->|Hne]; [apply list_elem_of_here|]. apply list_elem_of_further.
  apply list_elem_of_fmap in Hb as (l & -> & Hl). set (b := wl_bucket l) in *.
  assert (Hat : lock_at (lock_mgr s') b = Some l) by (apply lock_at_elem; [apply (lks_nodup _ _ Hs')|done]).
  destruct (lock_at_ok _ _ _ _ Hs' Hat) as [[R1 R2 R3 R4] _].
  assert (Hlk : is_Some (lock_at (lock_mgr s) b)).
  { apply refs_locked. rewrite <- Hr, <- (He b Hne). unfold bucket_refs, entry_refs. rewrite Hat. cbn [from_option].
    destruct (decide (0 < total_refcount l - sum_refs (entry_refcounts l))) as [|Hz]; [now left|right].
    assert (Hsum : 0 < sum_refs (entry_refcounts l)) by lia. clear - R2 Hsum. revert R2 Hsum.
    induction (entry_refcounts l) as [|r rs IH]; intros R2 Hsum; [done|]. apply Forall_cons in R2 as [Hr R2]. unfold sum_refs in Hsum. cbn [foldr] in Hsum.
    destruct (decide (0 < r)); [exists 0%nat, r; done|]. destruct (IH R2) as (c & x & Hc & Hx); [unfold sum_refs; lia|]. exists (S c), x. done. }
  destruct Hlk as [l' Hl']. apply lock_at_elem in Hl' as [Hin Eb]; [|apply (lks_nodup _ _ Hs)]. apply list_elem_of_fmap. eauto.
Qed.

Section add_room.
Context `{laws : BucketLaws}.
Variables (s : state) (h : Z) (e : ct_entry) (imm : option pos) (lock : bool) (N : Z).
Hypothesis t_ok : table_ok (trie s).
Hypothesis l_ok : locks_ok N s.
Hypothesis N_ok : 0 <= N /\ N + 2 + RELOCATE_REFS < 2 ^ 32.
Hypothesis h_ok : hash_ok (trie s) h.
Hypothesis e_ok : entry_ok e.
Hypothesis e_used : used e = true.
Hypothesis e_primary : entry_is_secondary e = false.
Hypothesis bucket_room : forall sec, room_for s (pair_bucket (trie s) h sec).
Hypothesis has_room : pair_has_room (trie s) h = true.

Lemma stored_ref s1 tg s' x p :
  locks_ok (N + 1) s1 -> target_ok s1 h p tg -> stored s1 tg (N + 1) lock x s' ->
  (forall q, entry_ref (lock_mgr s1) q <= entry_ref (lock_mgr s') q) /\ (lock = true -> 1 <= entry_ref (lock_mgr s') (at_cell tg)).
Proof.
  intros Hl Htg Hst. unfold entry_ref. split.
  - intros q. rewrite (st_entry_refs _ _ _ _ _ _ Hst). destruct (lock && _); [apply add_ref_le|lia].
  - intros ->. rewrite (st_entry_refs _ _ _ _ _ _ Hst), Z.eqb_refl. cbn [andb].
    destruct (entry_refs_ok _ _ (pos_bucket (at_cell tg)) Hl) as [Hlen Hnn]. pose proof (tg_cell _ _ _ _ Htg) as Hlt.
    unfold byte_at, add_ref. rewrite nth_lookup, list_lookup_alter_eq.
    destruct (lookup_lt_is_Some_2 (entry_refs (lock_mgr s1) (pos_bucket (at_cell tg))) (pos_cell (at_cell tg))) as [r Hr]; [now rewrite Hlen|].
    rewrite Hr. cbn. pose proof (Forall_lookup_1 _ _ _ _ Hnn Hr). cbn in *. lia.
Qed.

Lemma add_entry_room_spec :
  exists p x s', add_entry h e imm lock s = Ret (SI_OK, Some (p, x)) s' /\ placed (N + 2) h e lock s s' p x.
Proof.
  unfold RELOCATE_REFS in *.
  destruct (find_free_spec s h imm N t_ok l_ok ltac:(unfold RELOCATE_REFS; lia) h_ok bucket_room has_room) as (sec & tg & s1 & E & F & Htg & Halt).
  pose proof F as [A1 A2 A3 A4 A5 A6].
  assert (Ht1 : table_ok (trie s1)) by now apply (lock_effect_relocated (N + 1) imm s s1 _ t_ok) in F as [_ ? _ _ _ _ _].
  assert (Hp1 : same_params (trie s) (trie s1)) by apply A1.
  assert (Hh : hash_ok (trie s1) h) by (unfold hash_ok; rewrite (same_params_eq _ _ Hp1); exact h_ok).
  destruct (place_spec s1 h sec tg e (N + 1) Ht1 A4 ltac:(lia) Hh Htg e_ok e_used e_primary imm lock s E) as (color & Hc & Hf & Hplace).
  rewrite Halt in Hplace. destruct Hplace as (s' & Eadd & Hst). set (x := prepared h color sec e) in *.
  destruct (written_key s1 h sec tg e Ht1 Hh Htg e_ok e_used e_primary color Hc) as (Hk & Hok & Hcell & Hu). fold x in Hk, Hok, Hcell, Hu.
  pose proof (target_in s1 h sec tg Ht1 Hh Htg) as Hin. destruct (tg_free _ _ _ _ Htg) as (e0 & He0 & Hu0).
  assert (Hunused : forall y, trie_entry (trie s1) (at_cell tg) = Some y -> used y = false) by (intros y Hy; congruence).
  assert (Hnew : forall q y, ~ cell_holds (trie s1) (trie_entry (trie s1)) q (entry_key (trie s1) (at_cell tg) x) y) by (rewrite Hk; exact Hf).
  pose proof (proj1 (table_cells _) Ht1) as [_ Hcells].
  assert (Hcells' : forall q, trie_entry (trie s') q = fill (at_cell tg) x (trie_entry (trie s)) q).
  { intros q. rewrite (st_cells _ _ _ _ _ _ Hst). unfold fill. case_decide; [done|]. symmetry. now apply same_but_locks_entry. }
  assert (Hp' : same_params (trie s) (trie s')) by (transitivity (trie s1); [done|apply Hst]).
  destruct (stored_ref s1 tg s' x sec A4 Htg Hst) as [Hmono Hheld].
  exists (at_cell tg), x, s'. split; [exact Eadd|]. split.
  - now rewrite Hp1.
  - intros y Hy. apply Hunused. now rewrite <- (same_but_locks_entry _ _ _ A1).
  - exact Hcells'.
  - exact Hp'.
  - apply table_cells. split; [apply Hst|]. apply (cells_ok_params (trie s1)); [apply Hst|].
    apply (cells_ok_eq _ (fill (at_cell tg) x (trie_entry (trie s1)))); [intros q; symmetry; apply (st_cells _ _ _ _ _ _ Hst)|].
    exact (fill_ok _ _ _ _ Hcells Hin Hunused (conj Hok Hcell) Hu Hnew).
  - rewrite (st_mem _ _ _ _ _ _ Hst). exact A3.
  - replace (N + 2) with (N + 1 + 1) by lia. apply Hst.
  - exists color, sec. split; [exact Hc|]. split; [done|].
    apply (cell_holds_params (trie s1)); [apply Hst|]. split; [done|]. split; [now rewrite (st_cells _ _ _ _ _ _ Hst), fill_eq|]. done.
  - intros q. pose proof (Hmono q) as Hq. unfold entry_ref in *. now rewrite A5 in Hq.
  - exact Hheld.
  - intros b bk Hne Hb. destruct (same_seq _ _ _ _ (table_shape _ t_ok) A2 A1 Hb) as (bk1 & Hb1 & E1).
    destruct (st_seq _ _ _ _ _ _ Hst b bk1 Hne Hb1) as (bk2 & Hb2 & E2). exists bk2. split; [done|congruence].
  - exists sec. rewrite (tg_bucket _ _ _ _ Htg). unfold pair_bucket. now rewrite Hp1.
  - apply (lock_count_le N (N + 1 + 1) s s' (pos_bucket (at_cell tg))); [exact l_ok|apply Hst| |].
    + intros b. rewrite (st_refs _ _ _ _ _ _ Hst), A6. lia.
    + intros b Hb. rewrite (st_entry_refs _ _ _ _ _ _ Hst), A5. apply Z.eqb_neq in Hb. now rewrite Hb, andb_false_r.
Qed.
End add_room.
