(* ===== verification/Scalar.v ===== *)
(** * Scanning a bucket, one cell at a time (main.c)

    The scalar implementation of [BucketOps]. The cycle counters and
    histograms of COLLECT_STATISTICS are not modelled: no result depends on
    them. *)

From S2P Require Import Prelude Bits Entry KeyObject State Hashing Atomics Table Contents.
From stdpp Require Import base list gmap.
From Stdlib Require Import ZArith Lia Bool.

#[local] Open Scope Z_scope.

(** ** Header masks

    Both searches compare the first quadword of a cell under a mask. *)

Definition color_mask : Z :=
  (((1 .<< TAG_BITS) - 1) .<< 8) .| (((255 .<< TAG_BITS) .& 255) .<< 8)
  .| (FLAG_SECONDARY_BUCKET .<< 0).

Definition color_values (is_secondary : bool) (tag color : Z) : Z :=
  let v := u64 (tag .<< 8) .| u64 (color .<< (8 + TAG_BITS)) in
  if is_secondary then v .| (FLAG_SECONDARY_BUCKET .<< 0) else v.

Definition parent_mask : Z :=
  (((1 .<< TAG_BITS) - 1) .<< 8) .| (255 .<< 16)
  .| (((255 .<< PARENT_COLOR_SHIFT) .& 255) .<< 0) .| (FLAG_SECONDARY_BUCKET .<< 0).

Definition parent_values (is_secondary : bool) (tag last_sym parent_color : Z) : Z :=
  let v := u64 (tag .<< 8) .| u64 (last_sym .<< 16)
           .| u64 (parent_color .<< (0 + PARENT_COLOR_SHIFT)) in
  if is_secondary then v .| (FLAG_SECONDARY_BUCKET .<< 0) else v.

(** The [for] loop over the cells: the first one whose header matches. *)
Fixpoint scan_cells (l : list ct_entry) (i : nat) (mask values : Z) : option (nat * ct_entry) :=
  match l with
  | [] => None
  | e :: t => if (entry_qword e .& mask) =? values then Some (i, e) else scan_cells t (S i) mask values
  end.

(** A search is abandoned while the bucket is being written. *)
Definition scan_bucket (b : ct_bucket) (mask values : Z) : option (nat * ct_entry * Z) :=
  let start_counter := write_lock_and_seq b in
  if negb ((start_counter .& SEQ_INCREMENT) =? 0) then None
  else
    match scan_cells (take CUCKOO_BUCKET_SIZE (cells b)) 0 mask values with
    | None => None
    | Some (i, e) =>
        if write_lock_and_seq b =? start_counter then Some (i, e, start_counter) else None
    end.

Definition find_by_color (b : ct_bucket) (is_secondary : bool) (tag color : Z) :=
  scan_bucket b color_mask (color_values is_secondary tag color).

Definition find_by_parent (b : ct_bucket) (is_secondary : bool) (tag last_sym parent_color : Z) :=
  scan_bucket b parent_mask (parent_values is_secondary tag last_sym parent_color).

(** ** Choosing a color *)

Definition used_colors (l : list ct_entry) : Z :=
  fold_left (fun acc e => acc .| u64 (1 .<< entry_color e)) l 0.

(** The loop visits cell [i] of both buckets before cell [i + 1]. *)
Definition zip_cells (l1 l2 : list ct_entry) : list ct_entry :=
  flat_map (fun '(a, b) => [a; b]) (zip l1 l2).

Definition unused_color (b1 b2 : ct_bucket) : Z :=
  u8 (ctz 64 (bnot 64 (used_colors (zip_cells (take CUCKOO_BUCKET_SIZE (cells b1))
                                               (take CUCKOO_BUCKET_SIZE (cells b2)))))).

#[export] Instance scalar_ops : BucketOps := mk_bucket_ops find_by_color find_by_parent unused_color (fun e => negb (entry_type e =? TYPE_UNUSED)).

(** ** A masked compare of the header is a compare of its fields *)

Lemma land_cons b y m n :
  is_byte b -> is_byte m -> 0 <= y -> 0 <= n ->
  (b + 256 * y) .& (m + 256 * n) = (b .& m) + 256 * (y .& n).
Proof.
  intros Hb Hm Hy Hn.
  assert (is_byte (b .& m)) by (apply (land_bound 8); [lia|exact Hm]).
  apply Z.bits_inj'. intros i Hi. rewrite Z.land_spec.
  rewrite !testbit_cons by (done || (apply Z.land_nonneg; lia)). rewrite !Z.land_spec. destruct (i <? 8); done.
Qed.

Lemma cons_eq b y b' y' : is_byte b -> is_byte b' -> b + 256 * y = b' + 256 * y' -> b = b' /\ y = y'.
Proof. unfold is_byte. intros. lia. Qed.

(** The first three bytes of the header. *)
Lemma entry_qword_bytes e :
  entry_ok e ->
  exists rest, 0 <= rest /\
    entry_qword e = parent_color_and_flags e + 256 * (color_and_tag e + 256 * (last_symbol e + 256 * rest)).
Proof.
  intros [_ Hb]. unfold entry_qword, load_bytes. cbn [seq map le_combine Nat.add].
  eexists. split; [|unfold parent_color_and_flags, color_and_tag, last_symbol; reflexivity].
  pose proof (byte_at_ok e 3 Hb). pose proof (byte_at_ok e 4 Hb). pose proof (byte_at_ok e 5 Hb).
  pose proof (byte_at_ok e 6 Hb). pose proof (byte_at_ok e 7 Hb). unfold is_byte in *. lia.
Qed.

Definition sec_flag (sec : bool) : Z := if sec then FLAG_SECONDARY_BUCKET else 0.

Lemma color_mask_bytes : color_mask = 4 + 256 * (255 + 256 * 0).
Proof. reflexivity. Qed.
Lemma parent_mask_bytes : parent_mask = 244 + 256 * (15 + 256 * (255 + 256 * 0)).
Proof. reflexivity. Qed.

Lemma color_values_bytes sec tag color :
  0 <= tag < 16 -> 0 <= color < 16 ->
  color_values sec tag color = sec_flag sec + 256 * ((tag + 16 * color) + 256 * 0).
Proof.
  intros Ht Hc.
  set (P := fun sec tag color => color_values sec tag color =? sec_flag sec + 256 * (tag + 16 * color + 256 * 0)).
  apply Z.eqb_eq. change (P sec tag color = true).
  apply (forallb_below 16 (P sec tag)); [|lia].
  apply (forallb_below 16 (fun tag => forallb (P sec tag) (map Z.of_nat (seq 0 16)))); [|lia].
  destruct sec; vm_compute; reflexivity.
Qed.

Lemma parent_values_bytes sec tag last_sym pc :
  0 <= tag < 16 -> is_byte last_sym -> 0 <= pc < 16 ->
  parent_values sec tag last_sym pc = (16 * pc + sec_flag sec) + 256 * (tag + 256 * (last_sym + 256 * 0)).
Proof.
  intros Ht Hl Hp.
  set (P := fun sec tag pc ls =>
    parent_values sec tag ls pc =? (16 * pc + sec_flag sec) + 256 * (tag + 256 * (ls + 256 * 0))).
  apply Z.eqb_eq. change (P sec tag pc last_sym = true).
  apply byte_check; [|done].
  set (Q := fun sec tag pc => forallb (P sec tag pc) (map Z.of_nat (seq 0 256))).
  change (Q sec tag pc = true). apply (forallb_below 16 (Q sec tag)); [|lia].
  apply (forallb_below 16 (fun tag => forallb (Q sec tag) (map Z.of_nat (seq 0 16)))); [|lia].
  destruct sec; vm_compute; reflexivity.
Qed.

(** The flags byte under the two masks. *)
Lemma flags_masks b sec pc :
  is_byte b -> 0 <= pc < 16 ->
  ((b .& 4 =? sec_flag sec) = Bool.eqb (b .& FLAG_SECONDARY_BUCKET =? FLAG_SECONDARY_BUCKET) sec) /\
  ((b .& 244 =? 16 * pc + sec_flag sec) =
   Bool.eqb (b .& FLAG_SECONDARY_BUCKET =? FLAG_SECONDARY_BUCKET) sec && (b .>> PARENT_COLOR_SHIFT =? pc)).
Proof.
  intros Hb Hp.
  set (P := fun sec pc b =>
    Bool.eqb (Z.land b 4 =? sec_flag sec) (Bool.eqb (Z.land b FLAG_SECONDARY_BUCKET =? FLAG_SECONDARY_BUCKET) sec) &&
    Bool.eqb (Z.land b 244 =? 16 * pc + sec_flag sec)
      (Bool.eqb (Z.land b FLAG_SECONDARY_BUCKET =? FLAG_SECONDARY_BUCKET) sec && (Z.shiftr b PARENT_COLOR_SHIFT =? pc))).
  assert (H : P sec pc b = true).
  { apply byte_check; [|done].
    apply (forallb_below 16 (fun pc => forallb (P sec pc) (map Z.of_nat (seq 0 256)))); [|lia].
    destruct sec; vm_compute; reflexivity. }
  subst P. cbv beta in H. now rewrite andb_true_iff, !Bool.eqb_true_iff in H.
Qed.

Lemma color_tag_masks b tag color :
  is_byte b -> 0 <= tag < 16 -> 0 <= color < 16 ->
  ((b .& 255 =? tag + 16 * color) =
   (b .& ((1 .<< TAG_BITS) - 1) =? tag) && (b .>> TAG_BITS =? color)) /\
  ((b .& 15 =? tag) = (b .& ((1 .<< TAG_BITS) - 1) =? tag)).
Proof.
  intros Hb Ht Hc. change ((1 .<< TAG_BITS) - 1) with (Z.ones 4). change 255 with (Z.ones 8).
  change 15 with (Z.ones 4). unfold TAG_BITS. rewrite !Z.land_ones, Z.shiftr_div_pow2 by lia.
  change (2 ^ 8) with 256. change (2 ^ 4) with 16. unfold is_byte in Hb. split; [|done].
  apply eq_true_iff_eq. rewrite andb_true_iff, !Z.eqb_eq. zdiv.
Qed.

Lemma header_match_color e sec tag color :
  entry_ok e -> 0 <= tag < 16 -> 0 <= color < 16 ->
  ((entry_qword e .& color_mask) =? color_values sec tag color) = matches_color sec tag color e.
Proof.
  intros He Ht Hc. destruct (entry_qword_bytes e He) as (rest & Hr & ->).
  pose proof (flags_byte e He) as Hf. pose proof (color_and_tag_byte e He) as Hct.
  pose proof (entry_byte e 2 He) as Hls. fold (last_symbol e) in Hls.
  destruct (flags_masks _ sec 0 Hf ltac:(lia)) as [E1 _].
  destruct (color_tag_masks _ tag color Hct Ht Hc) as [E2 _].
  rewrite color_mask_bytes, color_values_bytes by done.
  rewrite !land_cons, Z.land_0_r by (done || unfold is_byte in *; lia).
  unfold matches_color, entry_is_secondary, entry_tag, entry_color.
  rewrite <- E1, <- andb_assoc, <- E2.
  assert (is_byte (parent_color_and_flags e .& 4)) by (apply (land_bound 8); lia).
  assert (is_byte (color_and_tag e .& 255)) by (apply (land_bound 8); lia).
  apply eq_true_iff_eq. rewrite andb_true_iff, !Z.eqb_eq.
  unfold is_byte, sec_flag, FLAG_SECONDARY_BUCKET in *. destruct sec; lia.
Qed.

Lemma header_match_parent e sec tag last_sym pc :
  entry_ok e -> 0 <= tag < 16 -> is_byte last_sym -> 0 <= pc < 16 ->
  ((entry_qword e .& parent_mask) =? parent_values sec tag last_sym pc) =
  matches_parent sec tag last_sym pc e.
Proof.
  intros He Ht Hl Hp. destruct (entry_qword_bytes e He) as (rest & Hr & ->).
  pose proof (flags_byte e He) as Hf. pose proof (color_and_tag_byte e He) as Hct.
  pose proof (entry_byte e 2 He) as Hls. fold (last_symbol e) in Hls.
  destruct (flags_masks _ sec pc Hf Hp) as [_ E1].
  destruct (color_tag_masks _ tag 0 Hct Ht ltac:(lia)) as [_ E2].
  rewrite parent_mask_bytes, parent_values_bytes by done.
  rewrite !land_cons, Z.land_0_r by (done || unfold is_byte in *; lia).
  assert (E3 : last_symbol e .& 255 = last_symbol e).
  { change 255 with (Z.ones 8). rewrite Z.land_ones by lia. now apply Z.mod_small. }
  rewrite E3. unfold matches_parent, entry_is_secondary, entry_tag, entry_parent_color.
  rewrite <- E2.
  assert (is_byte (parent_color_and_flags e .& 244)) by (apply (land_bound 8); lia).
  assert (is_byte (color_and_tag e .& 15)) by (apply (land_bound 8); lia).
  transitivity ((parent_color_and_flags e .& 244 =? 16 * pc + sec_flag sec) && (color_and_tag e .& 15 =? tag)
                && (last_symbol e =? last_sym)).
  - apply eq_true_iff_eq. rewrite !andb_true_iff, !Z.eqb_eq.
    unfold is_byte, sec_flag, FLAG_SECONDARY_BUCKET in *. destruct sec; lia.
  - rewrite E1. destruct (Bool.eqb _ sec), (_ =? pc), (_ =? tag), (_ =? last_sym); done.
Qed.

(** ** The scan *)

Lemma scan_cells_spec l i mask values :
  match scan_cells l i mask values with
  | Some (c, e) => (i <= c)%nat /\ l !! (c - i)%nat = Some e /\ ((entry_qword e .& mask) =? values) = true
  | None => forall c e, l !! c = Some e -> ((entry_qword e .& mask) =? values) = false
  end.
Proof.
  revert i. induction l as [|e l IH]; intros i; cbn [scan_cells]; [intros; discriminate|].
  destruct ((entry_qword e .& mask) =? values) eqn:E.
  - rewrite Nat.sub_diag. split; [lia|]. split; [reflexivity|done].
  - specialize (IH (S i)). destruct (scan_cells l (S i) mask values) as [[c e']|].
    + destruct IH as (H1 & H2 & H3). split; [lia|]. split; [|done].
      replace (c - i)%nat with (S (c - S i)) by lia. exact H2.
    + intros [|c] e' H; [cbn in H; injection H as <-; exact E|exact (IH c e' H)].
Qed.

Lemma scan_bucket_spec b mask values (P : ct_entry -> bool) :
  bucket_ok b -> quiescent b ->
  (forall e, entry_ok e -> ((entry_qword e .& mask) =? values) = P e) ->
  scan_result P b (scan_bucket b mask values).
Proof.
  intros Hok Hq HP. unfold scan_bucket, quiescent in *. rewrite Hq. cbn [Z.eqb negb].
  rewrite Z.eqb_refl. pose proof (bk_length b Hok) as Hl.
  rewrite take_ge by lia. pose proof (scan_cells_spec (cells b) 0 mask values) as Hs.
  pose proof (bk_cells b Hok) as Hc. rewrite Forall_lookup in Hc.
  destruct (scan_cells (cells b) 0 mask values) as [[c e]|]; cbn.
  - destruct Hs as (_ & H2 & H3). rewrite Nat.sub_0_r in H2. split; [done|]. split; [|done].
    rewrite <- HP by (eapply Hc; exact H2). exact H3.
  - intros c e H. rewrite <- HP by (eapply Hc; exact H). exact (Hs c e H).
Qed.

(** ** The free color *)

Lemma testbit_used_colors l k :
  Forall entry_ok l -> 0 <= k ->
  Z.testbit (used_colors l) k = existsb (fun e => entry_color e =? k) l.
Proof.
  unfold used_colors. intros Hl Hk. assert (H0 : Z.testbit 0 k = false) by apply Z.bits_0.
  transitivity (Z.testbit 0 k || existsb (fun e => entry_color e =? k) l); [|now rewrite H0].
  generalize 0. induction Hl as [|e l He Hl IH]; intros acc; cbn [fold_left existsb]; [now rewrite orb_false_r|].
  rewrite IH, Z.lor_spec, testbit_wrap, testbit_shl by (lia || apply entry_color_bound; done).
  rewrite <- orb_assoc. f_equal. f_equal.
  pose proof (entry_color_bound e He). change 1 with (2 ^ 0). rewrite Z.pow2_bits_eqb by lia.
  apply eq_true_iff_eq. rewrite !andb_true_iff, Z.leb_le, Z.ltb_lt, !Z.eqb_eq. lia.
Qed.

Lemma zip_cells_cons a b (l1 l2 : list ct_entry) :
  zip_cells (a :: l1) (b :: l2) = a :: b :: zip_cells l1 l2.
Proof. reflexivity. Qed.

Lemma zip_cells_In l1 l2 (e : ct_entry) :
  length l1 = length l2 -> (In e (zip_cells l1 l2) <-> In e l1 \/ In e l2).
Proof.
  revert l2. induction l1 as [|a l1 IH]; intros [|b l2] Hl; try discriminate; [cbn; tauto|].
  rewrite zip_cells_cons. injection Hl as Hl. cbn [In]. rewrite (IH l2 Hl). tauto.
Qed.

Lemma length_zip_cells (l1 l2 : list ct_entry) :
  length l1 = length l2 -> length (zip_cells l1 l2) = (2 * length l1)%nat.
Proof.
  revert l2. induction l1 as [|a l1 IH]; intros [|b l2] Hl; try discriminate; [done|].
  rewrite zip_cells_cons. injection Hl as Hl. cbn [length]. rewrite (IH l2 Hl). lia.
Qed.

(** Eight cells leave one of the nine colors free. *)
Lemma color_free l :
  length l = 8%nat -> exists k, 0 <= k <= MAX_VALID_COLOR /\ existsb (fun e => entry_color e =? k) l = false.
Proof.
  intros Hl.
  destruct (List.Forall_dec (fun k => existsb (fun e => entry_color e =? k) l = true)
              (fun k => bool_dec _ _) (map Z.of_nat (seq 0 9))) as [Hall|Hn].
  - exfalso. assert (Hincl : incl (map Z.of_nat (seq 0 9)) (map entry_color l)).
    { intros k Hk. rewrite List.Forall_forall in Hall. specialize (Hall k Hk).
      apply existsb_exists in Hall as (e & He & E). apply Z.eqb_eq in E. subst. now apply in_map. }
    apply NoDup_incl_length in Hincl.
    + rewrite !length_map, length_seq in Hincl. lia.
    + vm_compute; repeat constructor; cbn; intuition discriminate.
  - apply neg_Forall_Exists_neg in Hn; [|intros; apply bool_dec].
    apply List.Exists_exists in Hn as (k & Hk & E). exists k. apply in_map_iff in Hk as (n & <- & Hn).
    apply in_seq in Hn. unfold MAX_VALID_COLOR, CUCKOO_BUCKET_SIZE. split; [lia|].
    destruct (existsb _ l); [exfalso; now apply E|done].
Qed.

Lemma unused_color_spec b1 b2 :
  bucket_ok b1 -> bucket_ok b2 ->
  0 <= unused_color b1 b2 <= MAX_VALID_COLOR /\
  forall c e, cells b1 !! c = Some e \/ cells b2 !! c = Some e -> entry_color e <> unused_color b1 b2.
Proof.
  intros H1 H2. pose proof (bk_length b1 H1) as L1. pose proof (bk_length b2 H2) as L2.
  unfold unused_color. rewrite !take_ge by lia.
  set (l := zip_cells (cells b1) (cells b2)).
  assert (Hl : length l = 8%nat) by (unfold l; rewrite length_zip_cells, L1; unfold CUCKOO_BUCKET_SIZE in *; lia).
  assert (Hin : forall e, In e l <-> In e (cells b1) \/ In e (cells b2))
    by (intros e; apply zip_cells_In; congruence).
  assert (Hok : Forall entry_ok l).
  { apply List.Forall_forall. intros e He. apply Hin in He.
    pose proof (bk_cells b1 H1) as C1. pose proof (bk_cells b2 H2) as C2.
    rewrite List.Forall_forall in C1, C2. destruct He; auto. }
  destruct (color_free l Hl) as (k & Hk & Ek).
  destruct (ctz_spec 64 (bnot 64 (used_colors l))) as (B1 & B2 & B3).
  set (c := ctz 64 _) in *.
  assert (Hbit : forall j, 0 <= j < 64 -> Z.testbit (bnot 64 (used_colors l)) j =
                 negb (existsb (fun e => entry_color e =? j) l)).
  { intros j Hj. rewrite testbit_bnot, testbit_used_colors by (done || lia). zcases. now destruct (existsb _ _). }
  unfold MAX_VALID_COLOR, CUCKOO_BUCKET_SIZE in *.
  assert (Hc : c <= k).
  { destruct (Z.le_gt_cases c k); [done|]. specialize (B2 k ltac:(lia)). rewrite Hbit, Ek in B2 by lia. discriminate. }
  rewrite wrap_small by lia. split; [lia|]. intros i e He E.
  specialize (B3 ltac:(lia)). rewrite Hbit in B3 by lia. apply negb_true_iff in B3.
  assert (existsb (fun e => entry_color e =? c) l = true); [|congruence].
  apply existsb_exists. exists e. split; [|now apply Z.eqb_eq].
  apply Hin. destruct He as [He|He]; apply list_elem_of_lookup_2, list_elem_of_In in He; tauto.
Qed.

(** A used cell is what the comparison of valid colors finds. *)
Lemma scan_result_used P b r :
  Forall cell_ok (cells b) -> (forall e, cell_ok e -> P e = true -> used e = true) ->
  scan_result P b r -> scan_result (fun e => used e && P e) b r.
Proof.
  intros Hc HP. rewrite Forall_lookup in Hc. destruct r as [[[c e] seq]|]; cbn.
  - intros (H1 & H2 & H3). split; [done|]. split; [|done]. rewrite H2, (HP e (Hc _ _ H1) H2). done.
  - intros H c e He. rewrite (H c e He). apply andb_false_r.
Qed.

Lemma matches_color_used sec tag color e :
  color <= MAX_VALID_COLOR -> cell_ok e -> matches_color sec tag color e = true -> used e = true.
Proof.
  unfold matches_color, cell_ok. rewrite !andb_true_iff, !Z.eqb_eq. intros Hc H [_ Hm].
  destruct (used e); [done|]. unfold INVALID_COLOR in *. lia.
Qed.

Lemma matches_parent_used sec tag ls pc e :
  pc <= MAX_VALID_COLOR -> cell_ok e -> matches_parent sec tag ls pc e = true -> used e = true.
Proof.
  unfold matches_parent, cell_ok. rewrite !andb_true_iff, !Z.eqb_eq. intros Hc H [_ Hm].
  destruct (used e); [done|]. unfold INVALID_COLOR in *. lia.
Qed.

Lemma valid_color_16 c : 0 <= c <= MAX_VALID_COLOR -> 0 <= c < 16.
Proof. unfold MAX_VALID_COLOR, CUCKOO_BUCKET_SIZE. lia. Qed.

#[export] Instance scalar_laws : BucketLaws.
Proof.
  split.
  - intros b sec tag color Hb Hq Hcl Ht Hc.
    apply scan_result_used; [done|intros e; now apply matches_color_used|].
    apply scan_bucket_spec; [done..|]. intros e He. apply header_match_color; auto using valid_color_16.
  - intros b sec tag ls pc Hb Hq Hcl Ht Hl Hp.
    apply scan_result_used; [done|intros e; now apply matches_parent_used|].
    apply scan_bucket_spec; [done..|]. intros e He. apply header_match_parent; auto using valid_color_16.
  - exact unused_color_spec.
  - intros e He. exact He.
Qed.
