(* ===== verification/Finger.v ===== *)
(** * Fingers: a position in the trie (main.c: init_finger .. descend)

    [path] is the finger's array of visited nodes up to [last_path_entry];
    [finger->lock_mgr] is the lock manager of the thread state. *)

From S2P Require Import Prelude Bits Entry KeyObject State Hashing Symbols Atomics Table.
From stdpp Require Import base list gmap.
From Stdlib Require Import ZArith Lia Bool.

#[local] Open Scope Z_scope.

Record ct_path_entry := mk_path_entry {
  pe_entry : ct_entry_local_copy;
  pe_prefix_hash : Z;
}.

Record ct_finger := mk_finger {
  containing_entry : ct_entry_local_copy;
  path : list ct_path_entry;
  prefix_len : Z;
  prefix_hash : Z;
  last_prefix_symbol : Z;
  depth_in_jump : Z;
}.

Definition set_containing_entry (l : ct_entry_local_copy) (f : ct_finger) : ct_finger :=
  mk_finger l (path f) (prefix_len f) (prefix_hash f) (last_prefix_symbol f) (depth_in_jump f).
Definition set_path (p : list ct_path_entry) (f : ct_finger) : ct_finger :=
  mk_finger (containing_entry f) p (prefix_len f) (prefix_hash f) (last_prefix_symbol f) (depth_in_jump f).
Definition set_depth_in_jump (d : Z) (f : ct_finger) : ct_finger :=
  mk_finger (containing_entry f) (path f) (prefix_len f) (prefix_hash f) (last_prefix_symbol f) d.

(** [finger->last_path_entry - finger->path]. *)
Definition last_path_entry (f : ct_finger) : nat := (length (path f) - 1)%nat.

(** Node of the path, and its replacement by an updated local copy. *)
Definition path_local (f : ct_finger) (i : nat) : option ct_entry_local_copy :=
  pe_entry <$> path f !! i.
Definition set_path_local (i : nat) (l : ct_entry_local_copy) (f : ct_finger) : ct_finger :=
  set_path (alter (fun pe => mk_path_entry l (pe_prefix_hash pe)) i (path f)) f.

Section finger.
Context `{BucketOps} `{Env}.

(** A store past [path\[MAX_KEY_SYMBOLS - 1\]] is a fault. *)
Definition store_path_entry (f : ct_finger) : MS ct_finger :=
  _ ← assert (Z.of_nat (length (path f)) <? MAX_KEY_SYMBOLS);
  _ ← assert (depth_in_jump f =? 0);
  mret (set_path (path f ++ [mk_path_entry (containing_entry f) (prefix_hash f)]) f).

(** Returns the finger and whether the trie has a root. *)
Definition init_finger : MS (ct_finger * bool) :=
  empty ← read_is_empty;
  root ← (if negb (empty =? 0) then mret None else l ← find_root; mret (Some l));
  _ ← init_lock_mgr;
  let f := mk_finger (from_option id garbage_local root) [] 0 HASH_START_VALUE ROOT_LAST_SYMBOL 0 in
  f' ← store_path_entry f;
  mret (f', bool_decide (is_Some root)).

Definition finger_extend_prefix_known_hash (f : ct_finger) (symbol new_hash : Z) : ct_finger :=
  mk_finger (containing_entry f) (path f) (prefix_len f + 1) new_hash symbol (depth_in_jump f).

Definition finger_extend_prefix (t : cuckoo_trie) (f : ct_finger) (symbol : Z) : ct_finger :=
  finger_extend_prefix_known_hash f symbol (accumulate_hash t (prefix_hash f) symbol).

Definition finger_node_changed (f : ct_finger) (extend_path : bool) : MS ct_finger :=
  let f' := set_depth_in_jump 0 f in
  if extend_path then store_path_entry f' else mret f'.

(** The copy of the path's last node was updated: refresh the finger's own. *)
Definition reread_path_end (f : ct_finger) : MS ct_finger :=
  l ← lift (path_local f (last_path_entry f));
  mret (set_containing_entry l f).

Definition validate_path_from (f : ct_finger) (top_path_pos : nat) : MS bool :=
  for_each (drop top_path_pos (path f))
    (fun (ok : bool) pe => if ok then validate_entry (pe_entry pe) else mret false) true.

(** One step down the trie; [None] when the node has no such child. *)
Definition try_descend (f : ct_finger) (symbol : Z) (save_path : bool) (expected_hash : Z)
    : MS (option ct_finger) :=
  let e := lc_value (containing_entry f) in
  if entry_type e =? TYPE_LEAF then mret None
  else if entry_type e =? TYPE_JUMP then
    if negb (get_jump_symbol e (depth_in_jump f) =? symbol) then mret None
    else
      let f1 := set_depth_in_jump (depth_in_jump f + 1)
                  (finger_extend_prefix_known_hash f symbol expected_hash) in
      if depth_in_jump f1 =? entry_jump_size e then
        child ← find_entry_in_pair_by_color (hash_to_bucket expected_hash)
                  (hash_to_tag expected_hash) (entry_child_color e);
        f2 ← finger_node_changed (set_containing_entry child f1) save_path;
        mret (Some f2)
      else mret (Some f1)
  else
    if negb (get_bit (bits_area e) symbol) then mret None
    else
      let f1 := finger_extend_prefix_known_hash f symbol expected_hash in
      child ← find_entry_in_pair_by_parent (hash_to_bucket expected_hash)
                (hash_to_tag expected_hash) symbol (entry_color e);
      f2 ← finger_node_changed (set_containing_entry child f1) save_path;
      mret (Some f2).

(** Descend as far as possible; returns the first symbol that failed, or
    [None] (the C code's -1) when the END symbol was consumed. *)
Definition descend (f : ct_finger) (key_size : Z) (key_bytes : list Z) (track_path : bool)
    : MS (ct_finger * option Z) :=
  p0 ← prefetcher_start key_size key_bytes;
  loop (S (Z.to_nat MAX_KEY_SYMBOLS))
    (fun '(f, p) =>
       p' ← prefetcher_step p;
       symbol ← lift (zlookup (key_symbols p') (prefix_len f));
       expected ← lift (zlookup (prefix_hashes p') (prefix_len f));
       r ← try_descend f symbol track_path expected;
       match r with
       | None => mret (inr (f, Some symbol))
       | Some f' => if symbol =? SYMBOL_END then mret (inr (f', None)) else mret (inl (f', p'))
       end) (f, p0).

(** ** Predecessors *)

Record ct_pred_locator := mk_pred_locator {
  sub_path_pos : nat;          (* meaningful when sub_primary_bucket is *)
  sub_primary_bucket : Z;
  sub_parent_color : Z;
  sub_last_symbol : Z;
  sub_tag : Z;
}.

Definition no_predecessor : ct_pred_locator := mk_pred_locator 0 NO_BUCKET64 0 0 0.

Definition bitmap_child_before (e : ct_entry) (symbol : Z) : Z :=
  u64 (last_bit_before (bits_area e) symbol).

(** The closest bitmap node strictly above path position [n]. *)
Fixpoint bitmap_above (p : list ct_path_entry) (n : nat) : option nat :=
  match n with
  | O => None
  | S k =>
      match p !! k with
      | Some pe => if entry_type (lc_value (pe_entry pe)) =? TYPE_BITMAP then Some k else bitmap_above p k
      | None => None
      end
  end.

(** [None] when the child is minimal. *)
Fixpoint find_left_descend (fuel : nat) (p : list ct_path_entry) (path_pos : nat) (symbol : Z)
    : MS (option (nat * Z)) :=
  match fuel with
  | O => spin
  | S k =>
      pe ← lift (p !! path_pos);
      let prev := bitmap_child_before (lc_value (pe_entry pe)) symbol in
      if negb (prev =? NO_BUCKET64) then mret (Some (path_pos, prev))
      else
        match bitmap_above p path_pos with
        | None => mret None
        | Some up =>
            below ← lift (p !! S up);
            find_left_descend k p up (last_symbol (lc_value (pe_entry below)))
        end
  end.

Definition prefetch_path_child_predecessor (f : ct_finger) (path_pos : nat) (symbol : Z)
    : MS ct_pred_locator :=
  r ← find_left_descend (length (path f)) (path f) path_pos symbol;
  match r with
  | None => mret no_predecessor
  | Some (bp, left_symbol) =>
      pe ← lift (path f !! bp);
      t ← get_trie;
      let child_prefix_hash := accumulate_hash t (pe_prefix_hash pe) left_symbol in
      mret (mk_pred_locator bp (hash_to_bucket child_prefix_hash)
              (entry_color (lc_value (pe_entry pe))) left_symbol (hash_to_tag child_prefix_hash))
  end.

Definition prefetch_leaf_predecessor (f : ct_finger) : MS ct_pred_locator :=
  if (last_path_entry f =? 0)%nat then
    _ ← assert (entry_color (lc_value (containing_entry f)) =? ROOT_COLOR);
    mret no_predecessor
  else prefetch_path_child_predecessor f (last_path_entry f - 1) (last_prefix_symbol f).

Definition prefetch_bitmap_child_predecessor (f : ct_finger) (symbol : Z) : MS ct_pred_locator :=
  prefetch_path_child_predecessor f (last_path_entry f) symbol.

(** The leaf a locator describes; [None] when the trie changed meanwhile. *)
Definition get_predecessor_atomic (f : ct_finger) (pl : ct_pred_locator)
    : MS (option ct_entry_local_copy) :=
  if sub_primary_bucket pl =? NO_BUCKET64 then
    l ← read_min_leaf;
    ok ← validate_path_from f 0;
    mret (if (ok : bool) then Some l else None)
  else
    subtree_root ← find_entry_in_pair_by_parent (sub_primary_bucket pl) (sub_tag pl)
                     (sub_last_symbol pl) (sub_parent_color pl);
    if entry_type (lc_value subtree_root) =? TYPE_LEAF then
      ok ← validate_path_from f (sub_path_pos pl);
      if negb ok then mret None
      else if entry_dirty (lc_value subtree_root) then mret None
      else mret (Some subtree_root)
    else
      result ← locator_to_entry (max_leaf (lc_value subtree_root));
      if negb (entry_type (lc_value result) =? TYPE_LEAF) then mret None
      else
        ok ← validate_path_from f (sub_path_pos pl);
        if negb ok then mret None
        else
          ok2 ← validate_entry subtree_root;
          if negb ok2 then mret None
          else if entry_dirty (lc_value result) then mret None
          else mret (Some result).

(** [find_predecessor]: the same leaf, without validation. *)
Definition find_predecessor (pl : ct_pred_locator) : MS ct_entry_local_copy :=
  if sub_primary_bucket pl =? NO_BUCKET64 then read_min_leaf
  else
    l ← find_entry_in_pair_by_parent (sub_primary_bucket pl) (sub_tag pl)
          (sub_last_symbol pl) (sub_parent_color pl);
    if entry_type (lc_value l) =? TYPE_LEAF then mret l
    else
      r ← locator_to_entry (max_leaf (lc_value l));
      _ ← assert (entry_type (lc_value r) =? TYPE_LEAF);
      mret r.

End finger.
