(* ===== verification/Insert.v ===== *)
(** * Inserting a key (main.c: create_root .. create_leaf, ct_insert_internal)

    A C function that updates its finger or a local copy in place returns
    the updated value here; the labels [locking_failed] and [trie_full] are
    the [SI_RETRY] and [SI_FAIL] branches. *)

From S2P Require Import Prelude Bits Entry KeyObject State Hashing Symbols Atomics Table Finger.
From stdpp Require Import base list gmap.
From Stdlib Require Import ZArith Lia Bool.

#[local] Open Scope Z_scope.

Section insert.
Context `{BucketOps} `{Env}.

(** ** The first key *)

Definition create_root (kv : Z) : MS si_status :=
  let tag := hash_to_tag HASH_START_VALUE in
  let primary := hash_to_bucket HASH_START_VALUE in
  let root :=
    set_next_leaf_bucket NO_BUCKET32
      (entry_set_kv kv
        (set_color_and_tag_byte ((ROOT_COLOR .<< TAG_BITS) .| tag)
          (set_parent_color_and_flags ((INVALID_COLOR .<< PARENT_COLOR_SHIFT) .| TYPE_LEAF)
            garbage_entry))) in
  lock ← write_lock_bucket primary;
  empty ← read_is_empty;
  _ ← (match lock with
       | Some _ => mret tt
       | None => if negb (empty =? 0) then spin else mret tt   (* wait for the other thread *)
       end);
  empty2 ← read_is_empty;
  if empty2 =? 0 then _ ← release_all_locks; mret SI_EXISTS
  else
    _ ← write_entry (mk_pos primary 0) root;
    t ← get_trie;
    head ← get_entry (trie_min_leaf t);
    _ ← put_entry (trie_min_leaf t) (set_next_leaf (mk_locator primary tag ROOT_COLOR) head);
    _ ← write_is_empty 0;
    _ ← release_all_locks;
    mret SI_OK.

(** ** Locking the nodes whose max_leaf may change *)

(** The [while (path_pos > 0)] loop; returns the status and the position
    reached. *)
Fixpoint upgrade_left_parents (f : ct_finger) (path_pos : nat) : MS (si_status * nat) :=
  match path_pos with
  | O => mret (SI_OK, O)
  | S above =>
      node ← lift (path_local f path_pos);
      parent ← lift (path_local f above);
      let is_jump := entry_type (lc_value parent) =? TYPE_JUMP in
      _ ← assert (is_jump || (entry_type (lc_value parent) =? TYPE_BITMAP));
      if negb is_jump && negb (last_symbol (lc_value node) =? max_child (lc_value parent))
      then mret (SI_OK, path_pos)
      else
        result ← upgrade_lock parent;
        if bool_decide (result = SI_OK) then upgrade_left_parents f above
        else mret (result, path_pos)
  end.

Definition upgrade_locks_on_left_parents_above (f : ct_finger) (bitmap_path_pos : nat) : MS si_status :=
  bitmap ← lift (path_local f bitmap_path_pos);
  _ ← assert (entry_type (lc_value bitmap) =? TYPE_BITMAP);
  '(result, path_pos) ← upgrade_left_parents f bitmap_path_pos;
  _ ← when (negb (bool_decide (result = SI_OK)))
        (for_each (seq path_pos (bitmap_path_pos - path_pos)%nat)
           (fun _ i => l ← lift (path_local f i); write_unlock (last_pos l)) tt);
  mret result.

(** ** Linking leaves *)

Definition linklist_insert (pred : ct_entry_local_copy) (new_entry : pos) (primary : Z)
    : MS ct_entry_local_copy :=
  e ← get_entry new_entry;
  update_entry pred
    (set_next_leaf (mk_locator primary (entry_tag e) (entry_color e)) (lc_value pred)).

Definition linklist_insert_two (pred : ct_entry_local_copy) (entry_1_hash entry_1_color : Z)
    : MS ct_entry_local_copy :=
  update_entry pred
    (set_next_leaf (mk_locator (hash_to_bucket entry_1_hash) (hash_to_tag entry_1_hash) entry_1_color)
       (lc_value pred)).

(** ** Children of bitmap nodes *)

Definition create_bitmap_child (f : ct_finger) (bitmap_color symbol kv : Z)
    : MS (si_status * option (pos * ct_entry)) :=
  t ← get_trie;
  let child_prefix_hash := accumulate_hash t (prefix_hash f) symbol in
  let child :=
    entry_set_kv kv
      (set_last_symbol symbol
        (set_parent_color_and_flags ((bitmap_color .<< PARENT_COLOR_SHIFT) .| TYPE_LEAF) garbage_entry)) in
  add_entry child_prefix_hash child (Some (last_pos (containing_entry f))) true.

Definition mark_bitmap_child (bitmap : ct_entry_local_copy) (symbol child_prefix_hash child_color : Z)
    : MS ct_entry_local_copy :=
  let e := entry_set_child_bit symbol (lc_value bitmap) in
  let new_bitmap :=
    if max_child (lc_value bitmap) <? symbol then
      set_max_leaf (mk_locator (hash_to_bucket child_prefix_hash) (hash_to_tag child_prefix_hash) child_color)
        (set_max_child symbol e)
    else e in
  update_entry bitmap new_bitmap.

(** From the end of the path towards [top_path_pos]; the path with its
    updated local copies is returned. *)
Fixpoint propagate_from (f : ct_finger) (path_pos : nat) : MS ct_finger :=
  match path_pos with
  | O => mret f
  | S above =>
      child ← lift (path_local f path_pos);
      parent ← lift (path_local f above);
      if (entry_type (lc_value parent) =? TYPE_BITMAP) &&
         (last_symbol (lc_value child) <? max_child (lc_value parent))
      then mret f
      else
        parent' ← update_entry parent (set_max_leaf (max_leaf (lc_value child)) (lc_value parent));
        propagate_from (set_path_local above parent' f) above
  end.

(** [propagate_max_leaf] with [top_path_pos = path\[0\]], as it is called. *)
Definition propagate_max_leaf (f : ct_finger) : MS ct_finger := propagate_from f (last_path_entry f).

(** ** Splitting a leaf *)

(** A node of the path under construction and its prefix hash. *)
Definition path_node : Type := ct_entry * Z.
(** [path_nodes\[\]] and [path_prefix_hashes\[\]] have this many elements. *)
Definition MAX_PATH_NODES : nat := Z.to_nat (MAX_KEY_SYMBOLS / MAX_JUMP_SYMBOLS + 1).

Definition push_node (nodes : list path_node) (n : path_node) : MS (list path_node) :=
  _ ← assert (length nodes <? MAX_PATH_NODES)%nat; mret (nodes ++ [n]).

Definition update_last (g : ct_entry -> ct_entry) (nodes : list path_node) : list path_node :=
  alter (fun '(e, h) => (g e, h)) (length nodes - 1)%nat nodes.

(** The locks [split_leaf] takes before creating nodes; the predecessor. *)
Definition split_leaf_locks (f : ct_finger) (pl : ct_pred_locator) : MS (option ct_entry_local_copy) :=
  let has_parent := (0 <? last_path_entry f)%nat in
  ret1 ← (if has_parent then parent ← lift (path_local f (last_path_entry f - 1)%nat); upgrade_lock parent
          else mret SI_OK);
  if bool_decide (ret1 = SI_RETRY) then mret None
  else
    ret2 ← (if has_parent then upgrade_locks_on_left_parents_above f (last_path_entry f - 1)%nat
            else mret SI_OK);
    if bool_decide (ret2 = SI_RETRY) then mret None
    else
      ret3 ← upgrade_lock (containing_entry f);
      if bool_decide (ret3 = SI_RETRY) then mret None
      else
        pred ← get_predecessor_atomic f pl;
        match pred with
        | None => mret None
        | Some p =>
            ret4 ← upgrade_lock p;
            mret (if bool_decide (ret4 = SI_RETRY) then None else Some p)
        end.

Record split_path := mk_split_path {
  sp_nodes : list path_node;
  sp_last_symbol : Z;
  sp_hash : Z;
  sp_len : Z;
}.

Definition new_jump_node (last_sym hash : Z) : ct_entry :=
  set_child_color_and_jump_size 0
    (set_color_and_tag_byte (hash_to_tag hash)
      (set_last_symbol last_sym
        (set_parent_color_and_flags ((INVALID_COLOR .<< PARENT_COLOR_SHIFT) .| TYPE_JUMP) garbage_entry))).

(** The [while (1)] loop over the common part of the two keys: jump nodes
    for the symbols they share, and the two symbols that differ. *)
Definition split_common_part (existing new : ct_kv) (sp0 : split_path) : MS (split_path * Z * Z) :=
  loop (S (Z.to_nat MAX_KEY_SYMBOLS))
    (fun sp =>
       let es := get_key_symbol existing (sp_len sp) in
       let ns := get_key_symbol new (sp_len sp) in
       if negb (es =? ns) then mret (inr (sp, es, ns))
       else
         t ← get_trie;
         nodes ←
           (match last (sp_nodes sp) with
            | Some (e, _) =>
                if entry_jump_size e =? MAX_JUMP_SYMBOLS
                then push_node (sp_nodes sp) (new_jump_node (sp_last_symbol sp) (sp_hash sp), sp_hash sp)
                else mret (sp_nodes sp)
            | None => push_node (sp_nodes sp) (new_jump_node (sp_last_symbol sp) (sp_hash sp), sp_hash sp)
            end);
         _ ← assert (negb (ns =? SYMBOL_END));
         mret (inl (mk_split_path (update_last (extend_jump_node ns) nodes) es
                      (accumulate_hash t (sp_hash sp) es) (sp_len sp + 1))))
    sp0.

(** [memset(bitmap_node->child_bitmap, 0, CHILD_BITMAP_BYTES)]. *)
Definition clear_child_bitmap (e : ct_entry) : ct_entry :=
  set_bits_area (replicate CHILD_BITMAP_BYTES 0 ++ drop CHILD_BITMAP_BYTES (bits_area e)) e.

Definition new_bitmap_node (last_sym : Z) : ct_entry :=
  clear_child_bitmap
    (set_last_symbol last_sym
      (set_parent_color_and_flags ((INVALID_COLOR .<< PARENT_COLOR_SHIFT) .| TYPE_BITMAP) garbage_entry)).

(** The first path node takes the place of the leaf. *)
Definition become_head (leaf head : ct_entry) : ct_entry :=
  let e := set_color_and_tag_byte (color_and_tag leaf)
             (entry_set_parent_color (entry_parent_color leaf) head) in
  if negb ((parent_color_and_flags leaf .& FLAG_SECONDARY_BUCKET) =? 0)
  then set_parent_color_and_flags (parent_color_and_flags e .| FLAG_SECONDARY_BUCKET) e else e.

Definition alter_head (g : ct_entry -> ct_entry) (nodes : list path_node) : list path_node :=
  alter (fun '(e, h) => (g e, h)) 0%nat nodes.

(** Add [path_nodes\[i\]] for [i] from [n] down to 1; returns the status, the
    nodes and how many were written. *)
Fixpoint add_path_nodes (n : nat) (nodes : list path_node) (written : nat)
    : MS (si_status * list path_node * nat) :=
  match n with
  | O => mret (SI_OK, nodes, written)
  | S above =>
      '(e, h) ← lift (nodes !! n);
      '(ret, r) ← add_entry h e None true;
      match r with
      | None => mret (ret, nodes, written)
      | Some (_, e') =>
          let nodes' := alter (fun '(p, ph) => (entry_set_child_color (entry_color e') p, ph)) above
                          (<[n := (e', h)]> nodes) in
          add_path_nodes above nodes' (S written)
      end
  end.

(** The label [locking_failed]: remove the last [written] path nodes and the
    maximal leaf, if it was created. *)
Definition split_leaf_undo (nodes : list path_node) (written : nat) (maximal : option path_node)
    : MS si_status :=
  _ ← for_each (seq 0%nat written)
        (fun _ i => '(e, h) ← lift (nodes !! (length nodes - 1 - i)%nat); remove_entry_by_value e h) tt;
  _ ← (match maximal with Some (e, h) => remove_entry_by_value e h | None => mret tt end);
  _ ← release_all_locks;
  mret SI_RETRY.

Definition give_up_full : MS si_status := _ ← release_all_locks; mret SI_FAIL.

(** The path below the leaf's position: jump nodes for the common part and
    the bitmap node, the head adjusted; with the two differing symbols. *)
Definition split_leaf_path (f : ct_finger) (existing new : ct_kv) : MS (list path_node * Z * Z * Z) :=
  let leaf := lc_value (containing_entry f) in
  '(sp, es, ns) ← split_common_part existing new
                    (mk_split_path [] (last_prefix_symbol f) (prefix_hash f) (prefix_len f));
  nodes ← push_node (sp_nodes sp) (new_bitmap_node (sp_last_symbol sp), sp_hash sp);
  mret (alter_head (become_head leaf) nodes, sp_hash sp, es, ns).

(** The tail of [split_leaf], when everything was created: make the new path
    reachable, link the leaves and propagate the maximal leaf. *)
Definition split_leaf_publish (f : ct_finger) (pred : ct_entry_local_copy) (head : ct_entry)
    (minimal_hash minimal_color : Z) : MS si_status :=
  pred1 ← mark_entry_dirty pred;
  old_head ← lift (path_local f (last_path_entry f));
  head_local ← update_entry old_head head;
  let f1 := set_path_local (last_path_entry f) head_local f in
  pred2 ← linklist_insert_two pred1 minimal_hash minimal_color;
  _ ← propagate_max_leaf f1;
  _ ← mark_entry_clean pred2;
  _ ← release_all_locks;
  mret SI_OK.

Definition split_leaf (f : ct_finger) (kv : Z) (is_maximal : bool) (pl : ct_pred_locator)
    : MS si_status :=
  let leaf := lc_value (containing_entry f) in
  let existing_kv := entry_kv leaf in
  let original_leaf_next := next_leaf leaf in
  locked ← split_leaf_locks f pl;
  match locked with
  | None => split_leaf_undo [] 0%nat None
  | Some pred =>
      existing ← load_kv existing_kv;
      new ← load_kv kv;
      t ← get_trie;
      '(nodes0, hash, es, ns) ← split_leaf_path f existing new;
      let '(minimal_child, maximal_child, minimal_kv, maximal_kv) :=
        if is_maximal then (es, ns, existing_kv, kv) else (ns, es, kv, existing_kv) in
      let minimal_leaf_hash := accumulate_hash t hash minimal_child in
      let maximal_leaf_hash := accumulate_hash t hash maximal_child in
      let maximal_content :=
        set_last_symbol maximal_child (set_parent_color_and_flags TYPE_LEAF garbage_entry) in
      '(ret, r) ← add_entry maximal_leaf_hash maximal_content None true;
      match r with
      | None => if bool_decide (ret = SI_RETRY) then split_leaf_undo nodes0 0%nat None else give_up_full
      | Some (maximal_leaf, maximal_entry) =>
          m ← get_entry maximal_leaf;
          _ ← put_entry maximal_leaf (set_next_leaf original_leaf_next (entry_set_kv maximal_kv m));
          let max_loc := mk_locator (hash_to_bucket maximal_leaf_hash)
                           (hash_to_tag maximal_leaf_hash) (entry_color maximal_entry) in
          let nodes1 := map (fun '(e, h) => (set_max_leaf max_loc e, h))
            (update_last (fun e => set_max_child maximal_child
               (set_child_bit_in maximal_child (set_child_bit_in minimal_child e))) nodes0) in
          '(ret2, nodes2, written) ← add_path_nodes (length nodes1 - 1)%nat nodes1 0%nat;
          if negb (bool_decide (ret2 = SI_OK)) then
            if bool_decide (ret2 = SI_RETRY)
            then split_leaf_undo nodes2 written (Some (maximal_entry, maximal_leaf_hash))
            else give_up_full
          else
            '(bitmap_node, _) ← lift (last nodes2);
            m2 ← get_entry maximal_leaf;
            _ ← put_entry maximal_leaf (entry_set_parent_color (entry_color bitmap_node) m2);
            let minimal_content :=
              set_next_leaf max_loc
                (entry_set_kv minimal_kv
                  (set_parent_color_and_flags ((entry_color bitmap_node .<< PARENT_COLOR_SHIFT) .| TYPE_LEAF)
                    (set_last_symbol minimal_child garbage_entry))) in
            '(ret3, r3) ← add_entry minimal_leaf_hash minimal_content (Some maximal_leaf) true;
            match r3 with
            | None =>
                if bool_decide (ret3 = SI_RETRY)
                then split_leaf_undo nodes2 written (Some (maximal_entry, maximal_leaf_hash))
                else give_up_full
            | Some (_, minimal_entry) =>
                '(head, _) ← lift (nodes2 !! 0%nat);
                split_leaf_publish f pred head minimal_leaf_hash (entry_color minimal_entry)
            end
      end
  end.

(** ** Splitting a jump node *)

Definition split_jump_undo (created : option (ct_entry * Z)) (f : ct_finger) : MS (si_status * ct_finger) :=
  _ ← (match created with Some (e, h) => remove_entry_by_value e h | None => mret tt end);
  _ ← release_all_locks;
  mret (SI_RETRY, f).

Definition split_jump_full (f : ct_finger) : MS (si_status * ct_finger) :=
  _ ← release_all_locks; mret (SI_FAIL, f).

(** The jump node after the split symbol. *)
Definition tail_jump_node (jump : ct_entry) (bitmap_color split_symbol remaining : Z) : ct_entry :=
  let num_tail_symbols := entry_jump_size jump - remaining - 1 in
  let e :=
    set_max_leaf (max_leaf jump)
      (set_last_symbol split_symbol
        (set_child_color_and_jump_size ((entry_child_color jump .<< CHILD_COLOR_SHIFT) .| num_tail_symbols)
          (set_parent_color_and_flags ((bitmap_color .<< PARENT_COLOR_SHIFT) .| TYPE_JUMP) garbage_entry))) in
  set_bits_area (copy_bits (bits_area e) (bits_area jump) ((remaining + 1) * BITS_PER_SYMBOL)
                   (num_tail_symbols * BITS_PER_SYMBOL)) e.

(** The bitmap node that replaces the split symbol: one child. *)
Definition bitmap_with_child (symbol : Z) (e : ct_entry) : ct_entry :=
  set_max_child symbol (set_child_bit_in symbol (clear_child_bitmap e)).

(** Everything is in place: write the new head and move the finger to the
    bitmap node, which is the head itself or the created node. *)
Definition split_jump_publish (f : ct_finger) (new_head : ct_entry)
    (created : option (pos * ct_entry * Z)) : MS (si_status * ct_finger) :=
  old_head ← lift (path_local f (last_path_entry f));
  head_local ← update_entry old_head new_head;
  f1 ← reread_path_end (set_path_local (last_path_entry f) head_local f);
  f2 ← (match created with
        | Some (p, e, seq) =>
            finger_node_changed
              (set_containing_entry (mk_local e p (hash_to_bucket (prefix_hash f)) seq) f1) true
        | None => mret f1
        end);
  _ ← release_all_locks;
  mret (SI_OK, f2).

(** The second half of [split_jump_node], once the bitmap node exists: the
    tail node, or the new parent color of the jump node's child. *)
Definition split_jump_tail (f : ct_finger) (child : option ct_entry_local_copy) (new_head bitmap : ct_entry)
    (created : option (pos * ct_entry * Z)) (split_symbol tail_hash : Z) : MS (si_status * ct_finger) :=
  let jump := lc_value (containing_entry f) in
  let bitmap_in_trie := option_map (fun '(p, _, _) => p) created in
  match child with
  | None =>
      '(ret, r) ← add_entry tail_hash
                    (tail_jump_node jump (entry_color bitmap) split_symbol (depth_in_jump f))
                    bitmap_in_trie false;
      match r with
      | None =>
          if bool_decide (ret = SI_RETRY)
          then split_jump_undo (option_map (fun '(_, e, _) => (e, prefix_hash f)) created) f
          else split_jump_full f
      | Some _ => split_jump_publish f new_head created
      end
  | Some c =>
      _ ← entry_set_parent_color_atomic (last_pos c) (entry_color bitmap);
      split_jump_publish f new_head created
  end.

Definition split_jump_node (f : ct_finger) : MS (si_status * ct_finger) :=
  t ← get_trie;
  let remaining := depth_in_jump f in
  let jump := lc_value (containing_entry f) in
  let has_tail := remaining + 1 <? entry_jump_size jump in
  _ ← assert (remaining <? entry_jump_size jump);
  let split_symbol := get_jump_symbol jump remaining in
  let tail_hash := accumulate_hash t (prefix_hash f) split_symbol in
  '(ret1, child) ←
    (if has_tail then mret (SI_OK, None)
     else
       c ← find_entry_in_pair_by_color (hash_to_bucket tail_hash) (hash_to_tag tail_hash)
             (entry_child_color jump);
       r ← upgrade_lock c; mret (r, Some c));
  if bool_decide (ret1 = SI_RETRY) then split_jump_undo None f
  else
    ret2 ← upgrade_lock (containing_entry f);
    if bool_decide (ret2 = SI_RETRY) then split_jump_undo None f
    else
      let shortened := entry_set_jump_size remaining jump in
      if remaining =? 0 then
        (* the jump node itself becomes the bitmap node *)
        let new_head := bitmap_with_child split_symbol (entry_set_type TYPE_BITMAP shortened) in
        split_jump_tail f child new_head new_head None split_symbol tail_hash
      else
        let bitmap0 :=
          set_max_leaf (max_leaf jump)
            (set_last_symbol (last_prefix_symbol f)
              (set_parent_color_and_flags ((INVALID_COLOR .<< PARENT_COLOR_SHIFT) .| TYPE_BITMAP) garbage_entry)) in
        '(ret3, r) ← add_entry (prefix_hash f) (bitmap_with_child split_symbol bitmap0) None true;
        match r with
        | None => if bool_decide (ret3 = SI_RETRY) then split_jump_undo None f else split_jump_full f
        | Some (p, bitmap) =>
            seq ← read_int_atomic_seq (pos_bucket p);
            let new_head := entry_set_child_color (entry_color bitmap) shortened in
            split_jump_tail f child new_head bitmap (Some (p, bitmap, seq)) split_symbol tail_hash
        end.

(** ** Creating the leaf of a new key *)

(** [create_leaf] at a bitmap node without the required child. *)
Definition create_leaf_in_bitmap (f : ct_finger) (kv next_symbol : Z) : MS si_status :=
  let failed := (_ ← release_all_locks; mret SI_RETRY) in
  pl ← prefetch_bitmap_child_predecessor f next_symbol;
  t ← get_trie;
  let new_leaf_hash := accumulate_hash t (prefix_hash f) next_symbol in
  ret1 ← upgrade_lock (containing_entry f);
  if bool_decide (ret1 = SI_RETRY) then failed
  else
    ret2 ← upgrade_locks_on_left_parents_above f (last_path_entry f);
    if bool_decide (ret2 = SI_RETRY) then failed
    else
      pred0 ← get_predecessor_atomic f pl;
      match pred0 with
      | None => failed
      | Some pred =>
          ret3 ← upgrade_lock pred;
          if bool_decide (ret3 = SI_RETRY) then failed
          else
            '(ret4, r) ← create_bitmap_child f (entry_color (lc_value (containing_entry f))) next_symbol kv;
            match r with
            | None => if bool_decide (ret4 = SI_RETRY) then failed else give_up_full
            | Some (new_leaf, _) =>
                e ← get_entry new_leaf;
                _ ← put_entry new_leaf (set_next_leaf (next_leaf (lc_value pred)) e);
                pred1 ← mark_entry_dirty pred;
                pred2 ← linklist_insert pred1 new_leaf (hash_to_bucket new_leaf_hash);
                leaf ← get_entry new_leaf;
                bitmap ← lift (path_local f (last_path_entry f));
                bitmap' ← mark_bitmap_child bitmap next_symbol new_leaf_hash (entry_color leaf);
                f1 ← reread_path_end (set_path_local (last_path_entry f) bitmap' f);
                _ ← propagate_max_leaf f1;
                _ ← mark_entry_clean pred2;
                _ ← release_all_locks;
                mret SI_OK
            end
      end.

(** [create_leaf] at a leaf. *)
Definition create_leaf_at_leaf (f : ct_finger) (kv : Z) : MS si_status :=
  pl ← prefetch_leaf_predecessor f;
  leaf_kv ← load_kv (entry_kv (lc_value (containing_entry f)));
  new ← load_kv kv;
  let leaf_cmp := kv_key_compare leaf_kv new in
  if leaf_cmp =? 0 then mret SI_EXISTS
  else split_leaf f kv (leaf_cmp <? 0) pl.

Definition create_leaf (f : ct_finger) (kv next_symbol : Z) : MS (si_status * ct_finger) :=
  let node := lc_value (containing_entry f) in
  '(ret, f1) ← (if entry_type node =? TYPE_JUMP
                then _ ← assert (negb (depth_in_jump f =? entry_jump_size node)); split_jump_node f
                else mret (SI_OK, f));
  if bool_decide (ret = SI_RETRY) then _ ← release_all_locks; mret (SI_RETRY, f1)
  else if bool_decide (ret = SI_FAIL) then mret (SI_FAIL, f1)
  else
    st ← (if entry_type (lc_value (containing_entry f1)) =? TYPE_BITMAP
          then create_leaf_in_bitmap f1 kv next_symbol
          else create_leaf_at_leaf f1 kv);
    mret (st, f1).

(** Replace the value of the leaf the finger points to (the tail of
    [ct_insert_internal] and of [ct_update_internal]). *)
Definition replace_kv (f : ct_finger) (kv : Z) : MS si_status :=
  let l := containing_entry f in
  ret ← upgrade_lock l;
  if bool_decide (ret = SI_RETRY) then mret SI_RETRY
  else
    _ ← update_entry l (entry_set_kv kv (lc_value l));
    _ ← release_all_locks;
    mret SI_OK.

Definition ct_insert_internal (kv : Z) (is_upsert : bool) : MS si_status :=
  o ← load_kv kv;
  '(f0, has_root) ← init_finger;
  '(created, f1) ←
    (if has_root : bool then mret (None, f0)
     else
       ret ← create_root kv;
       if bool_decide (ret = SI_EXISTS) then '(f', _) ← init_finger; mret (None, f')
       else _ ← assert (bool_decide (ret = SI_OK)); mret (Some SI_OK, f0));
  match created with
  | Some st => mret st
  | None =>
      '(f2, symbol) ← descend f1 (kv_key_size o) (kv_key_bytes o) true;
      '(result, f3) ← create_leaf f2 kv (from_option id NO_BUCKET64 symbol);
      if is_upsert && bool_decide (result = SI_EXISTS) then
        _ ← assert (entry_type (lc_value (containing_entry f3)) =? TYPE_LEAF);
        ret ← replace_kv f3 kv;
        if bool_decide (ret = SI_RETRY) then mret SI_RETRY else mret result
      else mret result
  end.

End insert.
