(* ===== verification/Iter.v ===== *)
(** * Iterators (main.c: ct_iter_goto_internal .. ct_iter_alloc)

    [NUM_LINKED_LISTS] is 1: an iterator keeps one leaf. A function that
    updates its iterator in place returns the updated one. *)

From S2P Require Import Prelude Bits Entry KeyObject State Hashing Symbols Atomics Table Finger.
From stdpp Require Import base list gmap.
From Stdlib Require Import ZArith Lia Bool.

#[local] Open Scope Z_scope.

Record ct_iter := mk_iter {
  is_exhausted : bool;
  report_current : bool;
  iter_leaf : ct_entry_local_copy;   (* leaves[0] *)
}.

Definition set_exhausted (b : bool) (it : ct_iter) : ct_iter :=
  mk_iter b (report_current it) (iter_leaf it).
Definition set_report_current (b : bool) (it : ct_iter) : ct_iter :=
  mk_iter (is_exhausted it) b (iter_leaf it).
Definition set_iter_leaf (l : ct_entry_local_copy) (it : ct_iter) : ct_iter :=
  mk_iter (is_exhausted it) (report_current it) l.

Section iter.
Context `{BucketOps} `{Env}.

(** [malloc]: the fields are not initialised. *)
Definition ct_iter_alloc : ct_iter := mk_iter false false garbage_local.

Definition iter_max_leaf (it : ct_iter) : ct_entry_local_copy := iter_leaf it.

(** The position of the descent in [ct_iter_goto_internal]. *)
Record goto_pos := mk_goto_pos {
  gp_finger : ct_finger;
  gp_prefetcher : key_prefetcher;
  gp_symbol : Z;
  gp_last_bitmap : option nat;   (* last_bitmap_path_pos *)
}.

(** The [for] loop: descend while [depth < num_key_symbols]. *)
Definition goto_descend (f : ct_finger) (p : key_prefetcher) (num_key_symbols : Z) : MS goto_pos :=
  loop (S (Z.to_nat num_key_symbols))
    (fun '(depth, g) =>
       if negb (depth <? num_key_symbols) then mret (inr g)
       else
         p' ← prefetcher_step (gp_prefetcher g);
         let f := gp_finger g in
         let last_bitmap := if entry_type (lc_value (containing_entry f)) =? TYPE_BITMAP
                            then Some (last_path_entry f) else gp_last_bitmap g in
         symbol ← lift (zlookup (key_symbols p') depth);
         expected ← lift (zlookup (prefix_hashes p') depth);
         success ← try_descend f symbol true expected;
         match success with
         | None => mret (inr (mk_goto_pos f p' symbol last_bitmap))
         | Some f' => mret (inl (depth + 1, mk_goto_pos f' p' symbol last_bitmap))
         end) (0, mk_goto_pos f p NO_BUCKET64 None).

(** Is the key smaller than, or equal to, the leaves below the node reached? *)
Definition goto_before_longest_prefix (g : goto_pos) (key_bytes : list Z) : MS bool :=
  let e := lc_value (containing_entry (gp_finger g)) in
  if entry_type e =? TYPE_LEAF then
    leaf_kv ← load_kv (entry_kv e);
    mret (0 <=? kv_key_compare_to leaf_kv (Z.of_nat (length key_bytes)) key_bytes)
  else
    let next_symbol_in_jump := get_jump_symbol e (depth_in_jump (gp_finger g)) in
    _ ← assert (negb (gp_symbol g =? next_symbol_in_jump));
    mret (gp_symbol g <? next_symbol_in_jump).

(** Place the iterator on the leaf a predecessor locator describes. *)
Definition goto_predecessor (f : ct_finger) (pl : ct_pred_locator) (it : ct_iter)
    : MS (si_status * ct_iter) :=
  r ← get_predecessor_atomic f pl;
  match r with
  | None => mret (SI_RETRY, it)
  | Some l => mret (SI_OK, set_iter_leaf l it)
  end.

(** No bitmap node on the path: the trie has a single leaf. *)
Definition goto_single_leaf (is_before : bool) (it : ct_iter) : MS (si_status * ct_iter) :=
  if is_before then
    l ← read_min_leaf;
    if entry_dirty (lc_value l) then mret (SI_RETRY, set_iter_leaf l it)
    else
      ok ← validate_entry l;
      if negb ok then mret (SI_RETRY, set_iter_leaf l it)
      else mret (SI_OK, set_iter_leaf l it)
  else mret (SI_OK, set_exhausted true it).

Definition ct_iter_goto_internal (it0 : ct_iter) (key_bytes : list Z) : MS (si_status * ct_iter) :=
  let key_size := Z.of_nat (length key_bytes) in
  let num_key_symbols := (key_size * 8 + BITS_PER_SYMBOL - 1) / BITS_PER_SYMBOL + 1 in
  '(f0, has_root) ← init_finger;
  let it := set_exhausted false it0 in
  if negb has_root then mret (SI_OK, set_exhausted true it)
  else if key_size =? 0 then l ← read_min_leaf; mret (SI_OK, set_iter_leaf l it)
  else
    p ← prefetcher_start key_size key_bytes;
    g ← goto_descend f0 p num_key_symbols;
    let f := gp_finger g in
    if entry_type (lc_value (containing_entry f)) =? TYPE_BITMAP then
      pl ← prefetch_bitmap_child_predecessor f (gp_symbol g);
      goto_predecessor f pl it
    else
      is_before ← goto_before_longest_prefix g key_bytes;
      match gp_last_bitmap g with
      | Some bp =>
          below ← lift (path_local f (S bp));
          let last_bitmap_child := last_symbol (lc_value below) in
          pl ← prefetch_path_child_predecessor f bp
                 (if (is_before : bool) then last_bitmap_child else last_bitmap_child + 1);
          goto_predecessor f pl it
      | None => goto_single_leaf is_before it
      end.

Definition ct_iter_next_internal (it : ct_iter) : MS (si_status * ct_iter) :=
  new_leaf ← locator_to_entry (next_leaf (lc_value (iter_leaf it)));
  if negb (entry_type (lc_value new_leaf) =? TYPE_LEAF) then mret (SI_RETRY, it)
  else mret (SI_OK, set_iter_leaf new_leaf it).

(** [next_leaf.primary_bucket == (uint32_t)-1]. *)
Definition is_last_leaf (it : ct_iter) : bool :=
  loc_primary_bucket (next_leaf (lc_value (iter_leaf it))) =? NO_BUCKET32.

Definition ct_iter_goto (it0 : ct_iter) (key_bytes : list Z) : MS ct_iter :=
  loop retry_fuel
    (fun it =>
       '(result, it1) ← ct_iter_goto_internal it key_bytes;
       if bool_decide (result = SI_RETRY) then mret (inl it1)
       else
         let it2 := if is_last_leaf it1 then set_exhausted true it1 else it1 in
         if is_exhausted it2 then mret (inr it2)
         else
           '(result2, it3) ← ct_iter_next_internal it2;
           if bool_decide (result2 = SI_RETRY) then mret (inl it3)
           else mret (inr (set_report_current true it3)))
    it0.

(** The key-value pointer to report, [None] for NULL. *)
Definition ct_iter_next (it : ct_iter) : MS (option Z * ct_iter) :=
  if is_exhausted it then mret (None, it)
  else if report_current it then
    mret (Some (entry_kv (lc_value (iter_max_leaf it))), set_report_current false it)
  else if is_last_leaf it then mret (None, set_exhausted true it)
  else
    it' ← loop retry_fuel
      (fun it =>
         '(result, it1) ← ct_iter_next_internal it;
         if bool_decide (result = SI_RETRY) then
           last_reported ← load_kv (entry_kv (lc_value (iter_max_leaf it1)));
           it2 ← ct_iter_goto it1 (kv_key last_reported);
           _ ← assert (report_current it2);
           mret (inl (set_report_current false it2))
         else
           _ ← assert (bool_decide (result = SI_OK));
           mret (inr it1)) it;
    mret (Some (entry_kv (lc_value (iter_max_leaf it'))), it').

End iter.
