(* ===== verification/Api.v ===== *)
(** * The public operations on keys (main.c: ct_insert, ct_upsert, ct_lookup,
    ct_update)

    [retry_fuel] bounds the [do ... while (ret == SI_RETRY)] loops. *)

From S2P Require Import Prelude Bits Entry KeyObject State Hashing Symbols Atomics Table Finger Insert.
From stdpp Require Import base list gmap.
From Stdlib Require Import ZArith Lia Bool.

#[local] Open Scope Z_scope.


Inductive s_status := S_OK | S_ALREADYIN | S_OVERFLOW | S_KEYTOOLONG | S_NOTFOUND.
#[global] Instance s_status_eq_dec : EqDecision s_status.
Proof. solve_decision. Defined.

Section api.
Context `{BucketOps} `{Env}.

(** Repeat an operation until it does not ask to be retried. *)
Definition retry (op : MS si_status) : MS si_status :=
  loop retry_fuel
    (fun _ : unit =>
       ret ← op;
       if bool_decide (ret = SI_RETRY) then mret (inl tt) else mret (inr ret)) tt.

Definition ct_insert (kv : Z) : MS s_status :=
  o ← load_kv kv;
  if MAX_KEY_BYTES <? kv_key_size o then mret S_KEYTOOLONG
  else
    ret ← retry (ct_insert_internal kv false);
    match ret with
    | SI_FAIL => mret S_OVERFLOW
    | SI_EXISTS => mret S_ALREADYIN
    | SI_OK => mret S_OK
    | SI_RETRY => fault
    end.

(** With the value stored to [*created_new], when it is. *)
Definition ct_upsert (kv : Z) : MS (s_status * option Z) :=
  o ← load_kv kv;
  if MAX_KEY_BYTES <? kv_key_size o then mret (S_KEYTOOLONG, None)
  else
    ret ← retry (ct_insert_internal kv true);
    match ret with
    | SI_FAIL => mret (S_OVERFLOW, None)
    | SI_EXISTS => mret (S_OK, Some 0)
    | SI_OK => mret (S_OK, Some 1)
    | SI_RETRY => fault
    end.

(** The key-value object found, [None] for NULL. *)
Definition ct_lookup (key_bytes : list Z) : MS (option Z) :=
  let key_size := Z.of_nat (length key_bytes) in
  '(f0, has_root) ← init_finger;
  if negb has_root then mret None
  else
    '(f, symbol) ← descend f0 key_size key_bytes false;
    let e := lc_value (containing_entry f) in
    match symbol with
    | None =>
        _ ← assert (entry_type e =? TYPE_LEAF);
        mret (Some (entry_kv e))
    | Some _ =>
        if negb (entry_type e =? TYPE_LEAF) then mret None
        else
          leaf_kv ← load_kv (entry_kv e);
          mret (if kv_key_compare_to leaf_kv key_size key_bytes =? 0 then Some (entry_kv e) else None)
    end.

Definition ct_update_internal (kv : Z) : MS si_status :=
  o ← load_kv kv;
  '(f0, has_root) ← init_finger;
  if negb has_root then mret SI_FAIL
  else
    '(f, _) ← descend f0 (kv_key_size o) (kv_key_bytes o) false;
    let e := lc_value (containing_entry f) in
    if negb (entry_type e =? TYPE_LEAF) then mret SI_FAIL
    else
      leaf_kv ← load_kv (entry_kv e);
      if negb (kv_key_compare leaf_kv o =? 0) then mret SI_FAIL
      else _ ← assert (entry_type e =? TYPE_LEAF); replace_kv f kv.

Definition ct_update (kv : Z) : MS s_status :=
  ret ← retry (ct_update_internal kv);
  match ret with
  | SI_FAIL => mret S_NOTFOUND
  | SI_OK => mret S_OK
  | _ => fault
  end.

End api.
