(* ===== verification/Alloc.v ===== *)
(** * Creating and destroying a trie (main.c: init_buckets, ct_alloc, ct_free)

    [mmap] and [malloc] are parameters: [mmap size] is the memory of the
    mapping, as buckets, or one of its two failure values. *)

From S2P Require Import Prelude Bits Entry KeyObject State Hashing Random Atomics Table Contents.
From stdpp Require Import base list gmap.
From Stdlib Require Import ZArith Lia Bool.

#[local] Open Scope Z_scope.

Definition HUGEPAGE_LOG_SIZE : Z := 21.
Definition HUGEPAGE_SIZE : Z := 1 .<< HUGEPAGE_LOG_SIZE.

Inductive mmap_result :=
| MapFailed
| MapNull
| Mapped (memory : list ct_bucket).

Section alloc.
Variable mmap : Z -> mmap_result.
Variable malloc_succeeds : bool.
(** The order in which the compiler evaluates the operands in [rand_uint64]. *)
Variable high_first : bool.

Definition mmap_hugepage (size : Z) : option (list ct_bucket) :=
  match mmap size with
  | MapNull => None
  | MapFailed => None
  | Mapped memory => Some memory
  end.

(** The body of the [init_buckets] loops. *)
Definition init_cell (e : ct_entry) : ct_entry :=
  set_color_and_tag_byte (INVALID_COLOR .<< TAG_BITS) (set_parent_color_and_flags UNUSED_HEADER e).
Definition init_bucket (b : ct_bucket) : ct_bucket := mk_bucket (map init_cell (cells b)) 0.

Definition init_buckets (t : cuckoo_trie) : cuckoo_trie :=
  let n := Z.to_nat (num_buckets t) in
  set_buckets (map init_bucket (take n (buckets t)) ++ drop n (buckets t)) t.

(** [num_buckets], rounded up to a multiple of [2 * FANOUT]. *)
Definition round_num_buckets (num_cells : Z) : Z :=
  let n := u64 (num_cells + Z.of_nat CUCKOO_BUCKET_SIZE - 1) / Z.of_nat CUCKOO_BUCKET_SIZE in
  u64 (u64 (n + (FANOUT * 2) - 1) / (FANOUT * 2) * (FANOUT * 2)).

(** The bytes mapped for [n] buckets, and unmapped for a trie. *)
Definition mapping_size (n : Z) : Z := u64 (u64 (u64 (n * SIZEOF_BUCKET) / HUGEPAGE_SIZE + 1) * HUGEPAGE_SIZE).

Definition init_min_leaf (e : ct_entry) : ct_entry :=
  set_next_leaf_bucket NO_BUCKET32 (set_parent_color_and_flags TYPE_LEAF e).

(** The remainder by [num_buckets = 0] is a fault. *)
Definition ct_alloc {S : Type} (num_cells : Z) : M S (option cuckoo_trie) :=
  let n := round_num_buckets num_cells in
  let buckets_to_alloc := u64 (n + 1) in
  match mmap_hugepage (mapping_size buckets_to_alloc) with
  | None => mret None
  | Some memory =>
      if negb malloc_succeeds then mret None
      else
        let num_pairs := u64 (n * (1 .<< TAG_BITS)) in
        min_leaf_bk ← lift (zlookup memory n);
        min_leaf ← lift (bucket_cell min_leaf_bk 0);
        let bs := take (Z.to_nat buckets_to_alloc)
                    (zset memory n (set_cells (<[0%nat := init_min_leaf min_leaf]> (cells min_leaf_bk)) min_leaf_bk)) in
        _ ← assert (negb (n =? 0));
        mret (Some (init_buckets
          (mk_trie bs n num_pairs (num_pairs .>> BITS_PER_SYMBOL)
             (init_bucket_mix_table high_first n) 1)))
  end.

(** [ct_free] passes this size to [munmap]. *)
Definition ct_free_size (t : cuckoo_trie) : Z := mapping_size (num_buckets t).

End alloc.

(** ** A fresh trie *)

(** The pages of an anonymous mapping are filled with zeros. *)
Definition zero_bucket : ct_bucket :=
  mk_bucket (replicate CUCKOO_BUCKET_SIZE (replicate ENTRY_BYTES 0)) 0.

Definition fresh_bucket : ct_bucket := init_bucket zero_bucket.
Definition fresh_entry : ct_entry := init_cell (replicate ENTRY_BYTES 0).
Definition head_bucket : ct_bucket :=
  set_cells (<[0%nat := init_min_leaf (replicate ENTRY_BYTES 0)]> (cells zero_bucket)) zero_bucket.

Lemma fresh_entry_facts : entry_ok fresh_entry /\ used fresh_entry = false /\ cell_ok fresh_entry.
Proof. split; [apply entry_ok_check; reflexivity|]. split; [reflexivity|]. vm_compute. split; reflexivity. Qed.

Lemma fresh_bucket_facts : bucket_ok fresh_bucket /\ quiescent fresh_bucket /\ write_lock fresh_bucket = 0.
Proof.
  split; [|split; reflexivity]. split; [reflexivity| |cbn; lia].
  repeat (apply List.Forall_cons; [apply entry_ok_check; reflexivity|]). apply List.Forall_nil.
Qed.

Lemma head_bucket_facts : bucket_ok head_bucket /\ quiescent head_bucket /\ write_lock head_bucket = 0.
Proof.
  split; [|split; reflexivity]. split; [reflexivity| |cbn; lia].
  repeat (apply List.Forall_cons; [apply entry_ok_check; reflexivity|]). apply List.Forall_nil.
Qed.

Lemma fresh_cells c e : cells fresh_bucket !! c = Some e -> e = fresh_entry.
Proof. destruct c as [|[|[|[|]]]]; cbn; intros H; (discriminate || now injection H as <-). Qed.

(** ** The mix table *)

(** None of the random numbers is a multiple of 64, in either order. *)
Lemma rand_not_multiple high_first :
  Forall (fun x => 0 < x mod 64) (rand_list (Z.to_nat (1 .<< TAG_BITS)) high_first (rand_seed 1)).
Proof.
  apply List.Forall_forall. intros x Hx. apply Z.ltb_lt. revert x Hx. apply forallb_forall.
  destruct high_first; vm_compute; reflexivity.
Qed.

Lemma init_bucket_mix_table_ok high_first n :
  0 < n -> n mod 64 = 0 ->
  length (init_bucket_mix_table high_first n) = 16%nat /\
  Forall (fun v => 0 < v < n) (init_bucket_mix_table high_first n).
Proof.
  intros Hn Hm. unfold init_bucket_mix_table. split.
  - rewrite length_map. destruct high_first; reflexivity.
  - apply Forall_map. eapply Forall_impl; [apply rand_not_multiple|]. intros x Hx. cbv beta in *.
    assert (x mod n <> 0); [|zdiv]. intros E. apply Z.mod_divide in E; [|lia]. apply Z.mod_divide in Hm; [|lia].
    assert (E2 : (64 | x)) by (eapply Z.divide_trans; eassumption). apply Z.mod_divide in E2; lia.
Qed.

(** ** Sizes *)

Lemma round_num_buckets_spec num_cells :
  0 < num_cells <= 2 ^ 33 ->
  let n := round_num_buckets num_cells in
  n mod 64 = 0 /\ 0 < n <= 2 ^ 31 /\ num_cells <= 4 * n < num_cells + 256.
Proof.
  intros Hn. unfold round_num_buckets. change (Z.of_nat CUCKOO_BUCKET_SIZE) with 4. change (FANOUT * 2) with 64.
  rewrite (wrap_small 64 (num_cells + 4 - 1)) by lia.
  rewrite (wrap_small 64 ((num_cells + 4 - 1) / 4 + 64 - 1)) by zdiv.
  rewrite wrap_small by zdiv. change (2 ^ 31) with (33554432 * 64). change (2 ^ 33) with (33554432 * 256) in Hn.
  rewrite Z.mod_mul by lia. split; [done|]. zdiv.
Qed.

Lemma mapping_size_spec n :
  0 <= n < 2 ^ 40 -> mapping_size n = (n * 64 / 2097152 + 1) * 2097152.
Proof.
  intros Hn. unfold mapping_size, SIZEOF_BUCKET. change HUGEPAGE_SIZE with 2097152.
  rewrite (wrap_small 64 (n * 64)) by lia. rewrite (wrap_small 64 (_ + 1)) by zdiv. rewrite wrap_small by zdiv. done.
Qed.

(** The mapping has room for all buckets; the size passed to [munmap], which
    leaves the last bucket out, is the same number of pages. *)
Lemma mapping_sizes n :
  0 < n <= 2 ^ 31 -> n mod 64 = 0 ->
  (n + 1) * 64 <= mapping_size (n + 1) /\ mapping_size (n + 1) = mapping_size n /\ mapping_size n mod 64 = 0.
Proof.
  intros Hn Hm. rewrite !mapping_size_spec by lia. split; [zdiv|]. split; [|zdiv].
  do 2 f_equal. zdiv.
Qed.

(** ** The table [ct_alloc] builds *)

Section fresh.
Variables (n : Z) (table : list Z).
Hypothesis n_ok : 0 < n <= 2 ^ 31 /\ n mod 64 = 0.
Hypothesis table_16 : length table = 16%nat.
Hypothesis table_range : Forall (fun v => 0 < v < n) table.

Definition fresh_trie : cuckoo_trie :=
  mk_trie (replicate (Z.to_nat n) fresh_bucket ++ [head_bucket]) n (16 * n) (16 * n / 32) table 1.

Lemma fresh_trie_bucket b bk :
  trie_bucket fresh_trie b = Some bk <-> 0 <= b /\ ((b < n /\ bk = fresh_bucket) \/ (b = n /\ bk = head_bucket)).
Proof.
  unfold trie_bucket, zlookup. cbn [buckets fresh_trie].
  destruct (Z.leb_spec 0 b); [|split; [discriminate|lia]]. rewrite lookup_app_Some. split.
  - intros [E|[H1 H2]].
    + apply lookup_replicate in E as [-> E]. split; [done|]. left. split; [lia|done].
    + rewrite length_replicate in *. apply list_lookup_singleton_Some in H2 as [H2 <-]. split; [done|].
      right. split; [lia|done].
  - intros [Hb [[Hlt ->]|[-> ->]]].
    + left. apply lookup_replicate_2. lia.
    + right. rewrite length_replicate, Nat.sub_diag. done.
Qed.

Lemma fresh_trie_entry p e : in_table fresh_trie p -> trie_entry fresh_trie p = Some e -> e = fresh_entry.
Proof.
  intros Hp He. apply trie_entry_bucket in He as (bk & Hbk & Hc). apply fresh_trie_bucket in Hbk as [_ Hbk].
  unfold in_table in Hp. cbn in Hp. destruct Hbk as [[_ ->]|[E _]]; [now apply fresh_cells in Hc|lia].
Qed.

Lemma fresh_params : params_ok fresh_trie.
Proof. split; cbn; (done || lia || apply n_ok). Qed.

Lemma fresh_table : table_ok fresh_trie.
Proof.
  split.
  - apply fresh_params.
  - cbn. rewrite length_app, length_replicate. cbn. lia.
  - apply Forall_app. split; [apply Forall_replicate, fresh_bucket_facts|].
    constructor; [apply head_bucket_facts|constructor].
  - apply Forall_app. split; [apply Forall_replicate, fresh_bucket_facts|].
    constructor; [apply head_bucket_facts|constructor].
  - intros p e Hp He. rewrite (fresh_trie_entry p e Hp He). apply fresh_entry_facts.
  - intros p p' k e e' (Hp & He & Hu & _) _. rewrite (fresh_trie_entry p e Hp He) in Hu.
    destruct fresh_entry_facts as (_ & Hf & _). congruence.
Qed.

Lemma fresh_unlocked : unlocked fresh_trie.
Proof.
  intros b bk H. apply fresh_trie_bucket in H as [_ [[_ ->]|[_ ->]]];
    [apply fresh_bucket_facts|apply head_bucket_facts].
Qed.
End fresh.

(** ** [ct_alloc] *)

Lemma zset_replicate {A : Type} (x y : A) (n L : nat) :
  (n < L)%nat -> take (S n) (zset (replicate L x) (Z.of_nat n) y) = replicate n x ++ [y].
Proof.
  intros H. unfold zset. destruct (Z.leb_spec 0 (Z.of_nat n)); [|lia]. rewrite Nat2Z.id.
  replace L with (n + (S (L - n - 1)))%nat by lia. rewrite replicate_add.
  rewrite insert_app_r_alt by (rewrite length_replicate; lia). rewrite length_replicate, Nat.sub_diag.
  change (replicate (S (L - n - 1)) x) with (x :: replicate (L - n - 1) x). cbn [insert list_insert].
  rewrite firstn_app, take_ge, length_replicate by (rewrite length_replicate; lia).
  replace (S n - n)%nat with 1%nat by lia. reflexivity.
Qed.

Section ct_alloc.
Variable mmap : Z -> mmap_result.
Variables (malloc_succeeds high_first : bool) (num_cells : Z).
Hypothesis num_cells_ok : 0 < num_cells <= 2 ^ 33.
Hypothesis mmap_zeros : forall size mem, mmap size = Mapped mem -> mem = replicate (Z.to_nat (size / 64)) zero_bucket.

Let n := round_num_buckets num_cells.

Lemma ct_alloc_eq {S : Type} (s : S) :
  ct_alloc mmap malloc_succeeds high_first num_cells s =
  Ret (match mmap (mapping_size (n + 1)) with
       | Mapped _ => if malloc_succeeds then Some (fresh_trie n (init_bucket_mix_table high_first n)) else None
       | _ => None
       end) s.
Proof.
  destruct (round_num_buckets_spec num_cells num_cells_ok) as (Hm & Hn & _). fold n in Hm, Hn.
  destruct (mapping_sizes n Hn Hm) as (Hroom & _ & _).
  unfold ct_alloc, mmap_hugepage. fold n. rewrite (wrap_small 64 (n + 1)) by lia.
  destruct (mmap (mapping_size (n + 1))) as [| |mem] eqn:Em; [reflexivity|reflexivity|].
  apply mmap_zeros in Em. subst mem. set (L := Z.to_nat (mapping_size (n + 1) / 64)).
  assert (HL : (Z.to_nat n < L)%nat) by (unfold L; zdiv).
  destruct malloc_succeeds; [cbn [negb]|reflexivity].
  assert (Ez : zlookup (replicate L zero_bucket) n = Some zero_bucket).
  { unfold zlookup. destruct (Z.leb_spec 0 n); [|lia]. apply lookup_replicate_2. lia. }
  erewrite bind_Ret by (rewrite Ez; reflexivity). erewrite bind_Ret by reflexivity. fold head_bucket.
  erewrite bind_Ret by (apply assert_true; destruct (Z.eqb_spec n 0); (done || lia)).
  rewrite (wrap_small 64 (n * _)) by (change (1 .<< TAG_BITS) with 16; lia).
  change (1 .<< TAG_BITS) with 16. rewrite (Z.mul_comm n 16), Z.shiftr_div_pow2 by done.
  change (2 ^ BITS_PER_SYMBOL) with 32. unfold mret, M_ret. do 2 f_equal.
  pose proof (zset_replicate zero_bucket head_bucket (Z.to_nat n) L HL) as Et. rewrite Z2Nat.id in Et by lia.
  replace (Datatypes.S (Z.to_nat n)) with (Z.to_nat (n + 1)) in Et by lia. rewrite Et.
  unfold init_buckets, fresh_trie, set_buckets. cbn [num_buckets buckets num_pairs num_shuffle_blocks bucket_mix_table is_empty].
  f_equal.
  rewrite take_app_length', drop_app_length' by (now rewrite length_replicate).
  f_equal. apply list_eq. intros i. rewrite list_lookup_fmap. destruct (decide (i < Z.to_nat n)%nat).
  - rewrite !lookup_replicate_2 by done. reflexivity.
  - rewrite !lookup_ge_None_2 by (rewrite length_replicate; lia). reflexivity.
Qed.
End ct_alloc.

(** ** Properties *)

(** C30. [ct_alloc] builds an empty, well-formed trie: for up to 2^33 cells it
    returns NULL when [mmap] or [malloc] fails, and only then; otherwise a trie
    with room for the cells asked for, rounded up to a multiple of 64 buckets,
    whose hash parameters are valid (the mix constants lie strictly between 0
    and the number of buckets, whichever operand of [rand_uint64] the compiler
    evaluates first), in which no cell is used and no bucket is locked, and
    whose leaf list is empty. [ct_free] unmaps what [ct_alloc] mapped, although
    the two compute different numbers of buckets. *)
Theorem ct_alloc_correct {S : Type} mmap malloc_succeeds high_first num_cells (s : S) :
  0 < num_cells <= 2 ^ 33 ->
  (forall size mem, mmap size = Mapped mem -> mem = replicate (Z.to_nat (size / 64)) zero_bucket) ->
  exists r, ct_alloc mmap malloc_succeeds high_first num_cells s = Ret r s /\
    match r with
    | None => malloc_succeeds = false \/
        mmap (mapping_size (round_num_buckets num_cells + 1)) = MapFailed \/
        mmap (mapping_size (round_num_buckets num_cells + 1)) = MapNull
    | Some t =>
        malloc_succeeds = true /\ (exists mem, mmap (mapping_size (round_num_buckets num_cells + 1)) = Mapped mem) /\
        params_ok t /\ table_ok t /\ unlocked t /\ is_empty t = 1 /\
        (forall p k e, ~ holds t p k e) /\
        num_cells <= 4 * num_buckets t < num_cells + 256 /\
        (exists head, trie_entry t (trie_min_leaf t) = Some head /\ entry_type head = TYPE_LEAF /\
           loc_primary_bucket (next_leaf head) = NO_BUCKET32) /\
        ct_free_size t = mapping_size (round_num_buckets num_cells + 1)
    end.
Proof.
  intros Hc Hz. pose proof (ct_alloc_eq mmap malloc_succeeds high_first num_cells Hc Hz s) as E.
  destruct (round_num_buckets_spec num_cells Hc) as (Hm & Hn & Hroom).
  set (n := round_num_buckets num_cells) in *.
  destruct (init_bucket_mix_table_ok high_first n ltac:(lia) Hm) as [T1 T2].
  eexists. split; [exact E|]. destruct (mmap (mapping_size (n + 1))) as [| |mem]; [auto|auto|].
  destruct malloc_succeeds; [|auto]. set (t := fresh_trie n _). split; [done|]. split; [now exists mem|].
  split; [now apply fresh_params|]. split; [now apply fresh_table|]. split; [now apply fresh_unlocked|].
  split; [done|]. split.
  { intros p k e (Hp & He & Hu & _). apply fresh_trie_entry in He; [|done..]. subst e.
    destruct fresh_entry_facts as (_ & Hf & _). congruence. }
  split; [exact Hroom|]. split.
  - exists (init_min_leaf (replicate ENTRY_BYTES 0)). split; [|split; reflexivity]. unfold trie_entry.
    assert (Eb : trie_bucket t (pos_bucket (trie_min_leaf t)) = Some head_bucket)
      by (apply fresh_trie_bucket; try done; split; [unfold t; cbn; lia|right; done]).
    rewrite Eb. reflexivity.
  - unfold ct_free_size. cbn. symmetry. now apply mapping_sizes.
Qed.

Lemma ct_alloc_correct_witness :
  exists t, ct_alloc (fun size => Mapped (replicate (Z.to_nat (size / 64)) zero_bucket)) true false 1000 tt =
              Ret (Some t) tt /\ params_ok t /\ num_buckets t = 256.
Proof.
  destruct (ct_alloc_correct (fun size => Mapped (replicate (Z.to_nat (size / 64)) zero_bucket)) true false 1000 tt)
    as (r & E & H); [lia|intros size mem [= <-]; reflexivity|].
  destruct r as [t|].
  - exists t. split; [exact E|]. destruct H as (_ & _ & H1 & _ & _ & _ & _ & H2 & _). split; [exact H1|].
    pose proof (params_mult t H1). zdiv.
  - exfalso. destruct H as [H|[H|H]]; discriminate.
Defined.
