(* ===== verification/Verify.v ===== *)
(** * The consistency checker (verify_trie.c)

    [ct_verify_trie] and the functions it calls, without their messages: a
    function that prints an error returns [false] (or the error code) here.
    A search for an entry that does not exist never returns. *)

From S2P Require Import Prelude Bits Entry KeyObject State Hashing Atomics Table.
From stdpp Require Import base list gmap.
From Stdlib Require Import ZArith Lia Bool.

#[local] Open Scope Z_scope.

Section verify.
Context `{BucketOps}.

Definition try_follow_locator (l : ct_entry_locator) : MS ct_entry_local_copy :=
  find_entry_in_pair_by_color (loc_primary_bucket l) (loc_tag l) (loc_color l).

Inductive locator_error := BUCKET_TOO_LARGE | POINTS_TO_NOTHING | POINTS_TO_NON_LEAF.

Definition leaf_locator_error (l : ct_entry_locator) : MS (option locator_error) :=
  t ← get_trie;
  if num_buckets t <=? loc_primary_bucket l then mret (Some BUCKET_TOO_LARGE)
  else
    pointed_entry ← try_follow_locator l;
    mret (if negb (entry_type (lc_value pointed_entry) =? TYPE_LEAF) then Some POINTS_TO_NON_LEAF else None).

(** The prefix hash of the entry in a cell. *)
Definition entry_prefix_hash (t : cuckoo_trie) (bucket : Z) (entry : ct_entry) : Z :=
  let primary_bucket := if entry_is_secondary entry
                        then unmix_bucket t bucket (entry_tag entry) else bucket in
  u64 ((primary_bucket .<< TAG_BITS) + entry_tag entry).

Definition verify_bitmap_children (bucket : Z) (cell : nat) : MS bool :=
  t ← get_trie;
  entry ← get_entry (mk_pos bucket cell);
  let prefix_hash := entry_prefix_hash t bucket entry in
  _ ← for_each (seq 0 (Z.to_nat (FANOUT + 1)))
        (fun _ i =>
           let child := Z.of_nat i in
           when (get_bit (bits_area entry) child)
             (let child_prefix_hash := accumulate_hash t prefix_hash child in
              _ ← find_entry_in_pair_by_parent (hash_to_bucket child_prefix_hash)
                    (hash_to_tag child_prefix_hash) child (entry_color entry);
              mret tt)) tt;
  mret true.

Definition verify_jump_child (bucket : Z) (cell : nat) : MS bool :=
  t ← get_trie;
  entry ← get_entry (mk_pos bucket cell);
  let prefix_hash :=
    fold_left (fun h i => accumulate_hash t h (get_jump_symbol entry (Z.of_nat i)))
      (seq 0 (Z.to_nat (entry_jump_size entry))) (entry_prefix_hash t bucket entry) in
  child ← find_entry_in_pair_by_color (hash_to_bucket prefix_hash) (hash_to_tag prefix_hash)
            (entry_child_color entry);
  mret (negb (entry_type (lc_value child) =? TYPE_LEAF)).

Definition is_none {A : Type} (o : option A) : bool := match o with None => true | Some _ => false end.

Definition verify_entry (bucket : Z) (cell : nat) : MS bool :=
  entry ← get_entry (mk_pos bucket cell);
  ok1 ← (if negb (entry_type entry =? TYPE_LEAF)
         then e ← leaf_locator_error (max_leaf entry); mret (is_none e) else mret true);
  ok2 ← (if entry_type entry =? TYPE_BITMAP then verify_bitmap_children bucket cell else mret true);
  ok3 ← (if entry_type entry =? TYPE_JUMP then verify_jump_child bucket cell else mret true);
  ok4 ← (if (entry_type entry =? TYPE_LEAF) &&
            negb (loc_primary_bucket (next_leaf entry) =? NO_BUCKET32)
         then e ← leaf_locator_error (next_leaf entry); mret (is_none e) else mret true);
  mret (ok1 && ok2 && ok3 && ok4).

(** [unlinked_leaves], a byte per cell: set at the leaves. *)
Definition leaf_marks (t : cuckoo_trie) : list Z :=
  flat_map (fun b => map (fun e => if entry_type e =? TYPE_LEAF then 1 else 0)
                       (take CUCKOO_BUCKET_SIZE (cells b)))
    (take (Z.to_nat (num_buckets t)) (buckets t)).

Record linklist_pos := mk_linklist_pos {
  ll_next : ct_entry_locator;
  ll_last_kv : option Z;
  ll_count : Z;
  ll_unlinked : list Z;
}.

(** The [while] loop over the linked leaves: [None] on an error, else the
    marks left. *)
Definition verify_linklist_walk (num_leaves : Z) (unlinked : list Z) : MS (option (list Z)) :=
  t ← get_trie;
  head ← get_entry (trie_min_leaf t);
  loop (S (S (Z.to_nat num_leaves)))
    (fun p =>
       if loc_primary_bucket (ll_next p) =? NO_BUCKET32 then mret (inr (Some (ll_unlinked p)))
       else
         leaf ← try_follow_locator (ll_next p);
         if negb (entry_type (lc_value leaf) =? TYPE_LEAF) then mret (inr None)
         else
           let kv := entry_kv (lc_value leaf) in
           in_order ← (match ll_last_kv p with
                       | None => mret true
                       | Some last_kv =>
                           a ← load_kv kv; b ← load_kv last_kv;
                           mret (negb (kv_key_compare a b <=? 0))
                       end);
           if negb in_order then mret (inr None)
           else
             let leaf_bucket := pos_bucket (last_pos leaf) in
             let leaf_cell := pos_cell (last_pos leaf) in
             let unlinked' := zset (ll_unlinked p)
               (leaf_bucket * Z.of_nat CUCKOO_BUCKET_SIZE + Z.of_nat leaf_cell) 0 in
             if num_leaves <? ll_count p + 1 then mret (inr None)
             else
               mret (inl (mk_linklist_pos (next_leaf (lc_value leaf)) (Some kv) (ll_count p + 1) unlinked')))
    (mk_linklist_pos (next_leaf head) None 0 unlinked).

Definition verify_linklist : MS bool :=
  t ← get_trie;
  let marks := leaf_marks t in
  r ← verify_linklist_walk (fold_left Z.add marks 0) marks;
  mret (match r with
        | None => false
        | Some unlinked => forallb (fun m => negb (m =? 1)) unlinked
        end).

Definition verify_bucket (is_ok : bool) (bucket : Z) : MS bool :=
  b ← get_bucket bucket;
  for_each (seq 0 CUCKOO_BUCKET_SIZE)
    (fun (ok : bool) cell =>
       entry ← get_entry (mk_pos bucket cell);
       if entry_type entry =? TYPE_UNUSED then mret ok
       else good ← verify_entry bucket cell; mret (ok && good))
    (is_ok && (write_lock b =? 0)).

Definition ct_verify_trie : MS bool :=
  t ← get_trie;
  is_ok ← for_each (map Z.of_nat (seq 0 (Z.to_nat (num_buckets t)))) verify_bucket true;
  linked ← verify_linklist;
  mret (is_ok && linked).

End verify.
