(* ===== verification/Lookup.v ===== *)
(** * Looking a key up: the trie in the table refines an abstract trie

    [tnode] is the trie as a tree over symbols and [rep] says that a node of
    it is stored in the table. The descent of main.c walks the tree, and
    [ct_lookup] returns the leaf with the given key. *)

From S2P Require Import Prelude Bits Entry KeyObject State Hashing Symbols Atomics Table Contents Finger Insert Api.
From stdpp Require Import base list gmap.
From Stdlib Require Import ZArith Lia Bool.

#[local] Open Scope Z_scope.

(** ** The abstract trie *)

#[local] Unset Elimination Schemes.
Inductive tnode :=
| TLeaf (kv : Z)
| TJump (syms : list Z) (child : tnode)
| TBitmap (children : Z -> option tnode).
#[local] Set Elimination Schemes.

Definition tnode_ind (P : tnode -> Prop)
    (leaf : forall kv, P (TLeaf kv))
    (jump : forall syms child, P child -> P (TJump syms child))
    (bitmap : forall f, (forall s c, f s = Some c -> P c) -> P (TBitmap f)) : forall n, P n :=
  fix go n :=
    match n with
    | TLeaf kv => leaf kv
    | TJump syms child => jump syms child (go child)
    | TBitmap f =>
        bitmap f (fun s c E =>
          match f s as o return o = Some c -> P c with
          | Some c' => fun E' => match E' in _ = o return match o with Some x => P x | None => True end with eq_refl => go c' end
          | None => fun E' => match E' in _ = o return match o with Some x => P x | None => True end with eq_refl => I end
          end E)
    end.

Definition is_leaf (n : tnode) : bool := match n with TLeaf _ => true | _ => false end.

(** The symbols of a jump node are those of the key from position [k]. *)
Fixpoint follows (syms : list Z) (sym : Z -> Z) (k : Z) : bool :=
  match syms with
  | [] => true
  | x :: l => (x =? sym k) && follows l sym (k + 1)
  end.

(** The leaf the symbols lead to; [true] when the END symbol was consumed. *)
Fixpoint tsearch (n : tnode) (sym : Z -> Z) (k : Z) : option (Z * bool) :=
  match n with
  | TLeaf kv => Some (kv, false)
  | TJump syms child => if follows syms sym k then tsearch child sym (k + Z.of_nat (length syms)) else None
  | TBitmap f =>
      match f (sym k) with
      | None => None
      | Some c =>
          if sym k =? SYMBOL_END then match c with TLeaf kv => Some (kv, true) | _ => None end
          else tsearch c sym (k + 1)
      end
  end.

(** What a lookup means: the leaf found, if it has the key. *)
Definition tlookup (m : gmap Z ct_kv) (n : tnode) (bytes : list Z) : option Z :=
  match tsearch n (symbol_at bytes) 0 with
  | Some (kv, _) =>
      match m !! kv with
      | Some o => if bool_decide (kv_key o = bytes) then Some kv else None
      | None => None
      end
  | None => None
  end.

Fixpoint leaf_of (n : tnode) (kv : Z) : Prop :=
  match n with
  | TLeaf kv' => kv = kv'
  | TJump _ child => leaf_of child kv
  | TBitmap f => exists s, match f s with Some c => leaf_of c kv | None => False end
  end.

(** Well-formed below the symbols [pre]: every leaf's key starts with the
    symbols on its path, what follows an END symbol is a leaf, and what follows
    a jump node is not. *)
Definition leaf_ok (m : gmap Z ct_kv) (pre : list Z) (kv : Z) : Prop :=
  exists o, m !! kv = Some o /\ kv_ok o /\
    forall i s, pre !! i = Some s -> symbol_at (kv_key o) (Z.of_nat i) = s.

Fixpoint trie_ok (m : gmap Z ct_kv) (n : tnode) (pre : list Z) : Prop :=
  match n with
  | TLeaf kv => leaf_ok m pre kv
  | TJump syms child =>
      (1 <= length syms <= 8)%nat /\ Forall (fun s => 1 <= s <= 32) syms /\ trie_ok m child (pre ++ syms) /\ is_leaf child = false
  | TBitmap f =>
      forall s, match f s with
                | Some c => 0 <= s <= 32 /\ trie_ok m c (pre ++ [s]) /\ (s = SYMBOL_END -> is_leaf c = true)
                | None => True
                end
  end.

(** ** A node in the table *)

Definition accumulate_list (t : cuckoo_trie) (h : Z) (syms : list Z) : Z := fold_left (accumulate_hash t) syms h.

(** The child of the bitmap node with hash [h] and color [c] by symbol [s]
    is the entry with color [c'], and no other entry looks like it. *)
Definition child_of (t : cuckoo_trie) (h c s c' : Z) : Prop :=
  (exists p e, holds t p (accumulate_hash t h s, c') e /\ last_symbol e = s /\ entry_parent_color e = c) /\
  (forall p c'' e, holds t p (accumulate_hash t h s, c'') e ->
     last_symbol e = s -> entry_parent_color e = c -> c'' = c').

Lemma child_of_unique t h c s c1 c2 : child_of t h c s c1 -> child_of t h c s c2 -> c1 = c2.
Proof. intros [(q & x & Hh & Hl & Hp) _] [_ Hu]. exact (Hu q c1 x Hh Hl Hp). Qed.

Fixpoint rep (t : cuckoo_trie) (n : tnode) (h c : Z) : Prop :=
  exists p e, holds t p (h, c) e /\
  match n with
  | TLeaf kv => entry_type e = TYPE_LEAF /\ entry_kv e = kv
  | TJump syms child =>
      entry_type e = TYPE_JUMP /\ entry_jump_size e = Z.of_nat (length syms) /\
      (forall i s, syms !! i = Some s -> get_jump_symbol e (Z.of_nat i) = s) /\
      rep t child (accumulate_list t h syms) (entry_child_color e)
  | TBitmap f =>
      entry_type e = TYPE_BITMAP /\
      forall s, 0 <= s <= 32 ->
        match f s with
        | None => get_bit (bits_area e) s = false
        | Some ch => get_bit (bits_area e) s = true /\
                     exists c', rep t ch (accumulate_hash t h s) c' /\ child_of t h c s c'
        end
  end.

(** The symbols of the key from position [k] lead from node [n] to the
    leaf in cell [p]. *)
Fixpoint reaches (t : cuckoo_trie) (n : tnode) (h c : Z) (sym : Z -> Z) (k : Z) (p : pos) : Prop :=
  match n with
  | TLeaf _ => exists e, holds t p (h, c) e
  | TJump syms child =>
      exists q e, holds t q (h, c) e /\
        reaches t child (accumulate_list t h syms) (entry_child_color e) sym (k + Z.of_nat (length syms)) p
  | TBitmap f =>
      match f (sym k) with
      | Some ch => exists c', child_of t h c (sym k) c' /\ reaches t ch (accumulate_hash t h (sym k)) c' sym (k + 1) p
      | None => False
      end
  end.

(** The last conjunct of [rep]: what entry [e] says of node [n]. *)
Definition node_at (t : cuckoo_trie) (n : tnode) (e : ct_entry) (h c : Z) : Prop :=
  match n with
  | TLeaf kv => entry_type e = TYPE_LEAF /\ entry_kv e = kv
  | TJump syms child =>
      entry_type e = TYPE_JUMP /\ entry_jump_size e = Z.of_nat (length syms) /\
      (forall i s, syms !! i = Some s -> get_jump_symbol e (Z.of_nat i) = s) /\
      rep t child (accumulate_list t h syms) (entry_child_color e)
  | TBitmap f =>
      entry_type e = TYPE_BITMAP /\
      forall s, 0 <= s <= 32 ->
        match f s with
        | None => get_bit (bits_area e) s = false
        | Some ch => get_bit (bits_area e) s = true /\
                     exists c', rep t ch (accumulate_hash t h s) c' /\ child_of t h c s c'
        end
  end.

Lemma rep_unfold t n h c : rep t n h c <-> exists p e, holds t p (h, c) e /\ node_at t n e h c.
Proof. destruct n; reflexivity. Qed.

(** ** The finger and the tree *)

Section child.
Context `{BucketLaws}.

(** The search by parent color finds the child of a bitmap node. *)
Lemma find_child_spec s h c x c' :
  table_ok (trie s) -> child_of (trie s) h c x c' -> c <= MAX_VALID_COLOR ->
  exists l, find_entry_in_pair_by_parent (hash_to_bucket (accumulate_hash (trie s) h x))
              (hash_to_tag (accumulate_hash (trie s) h x)) x c s = Ret l s /\
    local_ok (trie s) l /\ holds (trie s) (last_pos l) (accumulate_hash (trie s) h x, c') (lc_value l) /\ last_symbol (lc_value l) = x.
Proof.
  intros Ht ((p & e & Hh & Hlast & Hpc) & Huniq) Hc. pose proof Hh as (Hp & He & Hu & Hkey). injection Hkey as Hkh Hkc.
  destruct (find_by_parent_spec (trie s) Ht s p _ e eq_refl Hp He Hkh Hu ltac:(now rewrite Hpc))
    as (l & El & Hl & Hlh & Hlu & Hllast & Hlpc). rewrite Hlast, Hpc in El. exists l. split; [exact El|]. split; [exact Hl|].
  assert (Hc' : entry_color (lc_value l) = c').
  { apply (Huniq (last_pos l) (entry_color (lc_value l)) (lc_value l)); [|congruence..].
    split; [apply Hl|]. split; [apply Hl|]. split; [done|]. unfold entry_key. now rewrite Hlh. }
  split; [|congruence]. split; [apply Hl|]. split; [apply Hl|]. split; [done|]. unfold entry_key. now rewrite Hlh, Hc'.
Qed.
End child.

Section descent.
Context `{BucketLaws} `{Env}.
Variable t : cuckoo_trie.
Hypothesis t_ok : table_ok t.
Variable bytes : list Z.
Hypothesis bytes_byte : bytes_ok bytes.
Hypothesis bytes_short : Z.of_nat (length bytes) <= 255.

(** The finger has consumed [k] symbols of the key and is at node [n] with
    hash [h] and color [c], [d] symbols into it when it is a jump node. *)
Record finger_on (f : ct_finger) (n : tnode) (h c : Z) (d : nat) (k : Z) : Prop := mk_finger_on {
  fa_holds : holds t (last_pos (containing_entry f)) (h, c) (lc_value (containing_entry f));
  fa_node : node_at t n (lc_value (containing_entry f)) h c;
  fa_depth : depth_in_jump f = Z.of_nat d;
  fa_prefix : prefix_len f = k;
  fa_hash : prefix_hash f = prefix_hash_of t bytes (Z.to_nat k);
  fa_start : exists j, (Z.to_nat k = j + d)%nat /\ h = prefix_hash_of t bytes j;
  fa_path : Z.of_nat (length (path f)) <= k + 1;
  fa_symbol : 0 < k -> last_prefix_symbol f = symbol_at bytes (k - 1);
  fa_range : 0 <= last_prefix_symbol f <= 32;
}.

(** Its copy of the node is up to date. *)
Record finger_at (f : ct_finger) (n : tnode) (h c : Z) (d : nat) (k : Z) : Prop := mk_finger_at {
  fa_on :> finger_on f n h c d k;
  fa_local : local_ok t (containing_entry f);
}.

Lemma prefix_hash_succ k :
  0 <= k -> prefix_hash_of t bytes (S (Z.to_nat k)) =
  accumulate_hash t (prefix_hash_of t bytes (Z.to_nat k)) (symbol_at bytes k).
Proof. intros Hk. cbn [prefix_hash_of]. now rewrite Z2Nat.id by lia. Qed.

(** Storing a path entry after a node change, when the path has room. *)
Lemma finger_node_changed_spec s f (save : bool) :
  Z.of_nat (length (path f)) < MAX_KEY_SYMBOLS ->
  exists path', finger_node_changed f save s = Ret (set_path path' (set_depth_in_jump 0 f)) s /\
    Z.of_nat (length path') <= Z.of_nat (length (path f)) + 1.
Proof.
  intros Hp. unfold finger_node_changed. destruct save.
  - exists (path f ++ [mk_path_entry (containing_entry f) (prefix_hash f)]).
    split; [|rewrite length_app; cbn; lia]. unfold store_path_entry.
    erewrite bind_Ret by (apply assert_true, Z.ltb_lt; exact Hp).
    erewrite bind_Ret by (apply assert_true; reflexivity). reflexivity.
  - exists (path f). split; [|lia]. destruct f. reflexivity.
Qed.

(** Arriving at the entry of a child node. *)
Lemma arrive_at s f n h c k l (save : bool) :
  0 <= k < MAX_KEY_SYMBOLS - 1 ->
  local_ok t l -> holds t (last_pos l) (h, c) (lc_value l) -> node_at t n (lc_value l) h c ->
  h = prefix_hash_of t bytes (S (Z.to_nat k)) ->
  prefix_len f = k + 1 -> last_prefix_symbol f = symbol_at bytes k -> prefix_hash f = h -> containing_entry f = l ->
  Z.of_nat (length (path f)) <= k + 1 ->
  exists f', finger_node_changed f save s = Ret f' s /\ finger_at f' n h c 0 (k + 1).
Proof.
  intros Hk Hl Hh Hn Eh Hpl Hls Hph Hce Hpath.
  destruct (finger_node_changed_spec s f save) as (path' & E & Hp'); [lia|].
  eexists. split; [exact E|]. subst l.
  split; [|exact Hl]. split; cbn; try done; try lia.
  - rewrite Hph, Eh. f_equal. lia.
  - exists (S (Z.to_nat k)). split; [lia|done].
  - intros _. rewrite Hls. f_equal. lia.
  - rewrite Hls. apply symbol_range.
Qed.

Lemma jump_node_entry p e h c :
  holds t p (h, c) e -> entry_ok e.
Proof. intros Hh. exact (proj1 (holds_ok t t_ok _ _ _ Hh)). Qed.

(** One step of the descent at a jump node. *)
Lemma try_descend_jump s f syms child h c d k (save : bool) :
  trie s = t -> (1 <= length syms <= 8)%nat ->
  finger_at f (TJump syms child) h c d k -> (d < length syms)%nat -> 0 <= k < MAX_KEY_SYMBOLS - 1 ->
  forall x, syms !! d = Some x ->
  (forall i y, (i < d)%nat -> syms !! i = Some y -> exists j, (Z.to_nat k = j + d)%nat /\ y = symbol_at bytes (Z.of_nat (j + i))) ->
  let r := try_descend f (symbol_at bytes k) save (prefix_hash_of t bytes (S (Z.to_nat k))) s in
  if x =? symbol_at bytes k then
    exists f', r = Ret (Some f') s /\
      if (S d =? length syms)%nat
      then finger_at f' child (accumulate_list t h syms) (entry_child_color (lc_value (containing_entry f))) 0 (k + 1)
      else finger_at f' (TJump syms child) h c (S d) (k + 1)
  else r = Ret None s.
Proof.
  intros Hs Hlen Hf Hd Hk x Hx Hmatch r. destruct (fa_node _ _ _ _ _ _ Hf) as (Ht & Hsize & Hsyms & Hrep).
  subst r. unfold try_descend. rewrite Ht. cbn [Z.eqb TYPE_LEAF TYPE_JUMP Pos.eqb].
  rewrite (fa_depth _ _ _ _ _ _ Hf), (Hsyms d x Hx).
  destruct (Z.eqb_spec x (symbol_at bytes k)) as [Ex|Hne]; cbn [negb]; [|reflexivity].
  cbn [depth_in_jump set_depth_in_jump]. rewrite Hsize.
  assert (Epos : (Z.of_nat d + 1 =? Z.of_nat (length syms)) = (S d =? length syms)%nat).
  { apply eq_true_iff_eq. rewrite Z.eqb_eq, Nat.eqb_eq. lia. }
  rewrite Epos. destruct (Nat.eqb_spec (S d) (length syms)) as [El|El].
  - destruct (fa_start _ _ _ _ _ _ Hf) as (j & Ej & Eh).
    assert (Ehash : accumulate_list t h syms = prefix_hash_of t bytes (S (Z.to_nat k))).
    { assert (Hpre : forall m, (m <= length syms)%nat ->
        accumulate_list t h (take m syms) = prefix_hash_of t bytes (j + m)).
      { induction m as [|m IH]; intros Hm; [cbn; now rewrite Nat.add_0_r|].
        destruct (lookup_lt_is_Some_2 syms m ltac:(lia)) as [y Hy].
        rewrite (take_S_r _ _ _ Hy). unfold accumulate_list in *. rewrite fold_left_app, IH by lia.
        rewrite Nat.add_succ_r. cbn. f_equal.
        destruct (Nat.eq_dec m d) as [->|Hnd].
        - rewrite Hx in Hy. injection Hy as <-. rewrite Ex. f_equal. lia.
        - destruct (Hmatch m y ltac:(lia) Hy) as (j' & Ej' & ->). f_equal. lia. }
      specialize (Hpre (length syms) ltac:(lia)). rewrite take_ge in Hpre by lia. rewrite Hpre. f_equal. lia. }
    apply rep_unfold in Hrep as (p' & e' & Hh' & Hn'). rewrite Ehash in Hh', Hn'.
    destruct (find_by_color_spec t t_ok s p' _ _ e' Hs Hh') as (l & El' & Hl & Hpos & Hval).
    edestruct (arrive_at s (set_containing_entry l (set_depth_in_jump (Z.of_nat d + 1)
      (finger_extend_prefix_known_hash f (symbol_at bytes k) (prefix_hash_of t bytes (S (Z.to_nat k))))))
      child (prefix_hash_of t bytes (S (Z.to_nat k))) (entry_child_color (lc_value (containing_entry f)))
      k l save Hk Hl) as (f' & Ef' & Hf').
    + rewrite Hpos, Hval. exact Hh'.
    + rewrite Hval. exact Hn'.
    + reflexivity.
    + cbn. now rewrite (fa_prefix _ _ _ _ _ _ Hf).
    + reflexivity.
    + reflexivity.
    + reflexivity.
    + cbn. exact (fa_path _ _ _ _ _ _ Hf).
    + exists f'. rewrite Ehash. split; [|exact Hf'].
      erewrite bind_Ret by exact El'. erewrite bind_Ret by exact Ef'. reflexivity.
  - eexists. split; [reflexivity|]. split; [|exact (fa_local _ _ _ _ _ _ Hf)].
    split; cbn; try (apply Hf); rewrite ?(fa_prefix _ _ _ _ _ _ Hf); try lia.
    + replace (Z.to_nat (k + 1)) with (S (Z.to_nat k)) by lia. reflexivity.
    + destruct (fa_start _ _ _ _ _ _ Hf) as (j & Ej & Eh). exists j. split; [lia|done].
    + pose proof (fa_path _ _ _ _ _ _ Hf). lia.
    + intros _. f_equal. lia.
    + apply symbol_range.
Qed.

(** One step of the descent at a bitmap node. *)
Lemma try_descend_bitmap s f g h c k (save : bool) :
  trie s = t -> finger_at f (TBitmap g) h c 0 k -> 0 <= k < MAX_KEY_SYMBOLS - 1 ->
  let r := try_descend f (symbol_at bytes k) save (prefix_hash_of t bytes (S (Z.to_nat k))) s in
  match g (symbol_at bytes k) with
  | Some ch => exists f' c', r = Ret (Some f') s /\ child_of t h c (symbol_at bytes k) c' /\
                 finger_at f' ch (accumulate_hash t h (symbol_at bytes k)) c' 0 (k + 1)
  | None => r = Ret None s
  end.
Proof.
  intros Hs Hf Hk r. subst r. destruct (fa_node _ _ _ _ _ _ Hf) as (Ht & Hbits).
  pose proof (symbol_range bytes k) as Hsym. specialize (Hbits _ Hsym).
  unfold try_descend. rewrite Ht. cbn [Z.eqb TYPE_LEAF TYPE_JUMP TYPE_BITMAP Pos.eqb].
  destruct (g (symbol_at bytes k)) as [ch|].
  2: { rewrite Hbits. reflexivity. }
  destruct Hbits as (Hbit & c' & Hrep & Hchild). rewrite Hbit. cbn [negb].
  assert (Eh : accumulate_hash t h (symbol_at bytes k) = prefix_hash_of t bytes (S (Z.to_nat k))).
  { rewrite prefix_hash_succ by lia. destruct (fa_start _ _ _ _ _ _ Hf) as (j & Ej & ->). do 2 f_equal. lia. }
  pose proof (fa_holds _ _ _ _ _ _ Hf) as (_ & _ & _ & Hkey). injection Hkey as _ Hc.
  destruct (holds_ok t t_ok _ _ _ (fa_holds _ _ _ _ _ _ Hf)) as (_ & _ & Hcol). cbn [snd] in Hcol.
  pose proof (find_child_spec s h c (symbol_at bytes k) c') as Hfind. rewrite Hs in Hfind.
  destruct (Hfind t_ok Hchild ltac:(lia)) as (l & El & Hl & Hhl & _).
  rewrite Eh, <- Hc in El.
  apply rep_unfold in Hrep as (p & e & Hh & Hn).
  assert (Ep : last_pos l = p) by exact (tb_unique t t_ok _ _ _ _ _ Hhl Hh).
  assert (Ee : lc_value l = e).
  { destruct Hh as (_ & Ee & _). destruct Hhl as (_ & Ee' & _). congruence. }
  edestruct (arrive_at s (set_containing_entry l
    (finger_extend_prefix_known_hash f (symbol_at bytes k) (prefix_hash_of t bytes (S (Z.to_nat k)))))
    ch (accumulate_hash t h (symbol_at bytes k)) c' k l save Hk Hl Hhl) as (f' & Ef' & Hf').
  - rewrite Ee. exact Hn.
  - exact Eh.
  - cbn. now rewrite (fa_prefix _ _ _ _ _ _ Hf).
  - reflexivity.
  - cbn. now rewrite Eh.
  - reflexivity.
  - cbn. exact (fa_path _ _ _ _ _ _ Hf).
  - exists f', c'. split; [|split; [exact Hchild|exact Hf']].
    rewrite Hc in El |- *. erewrite bind_Ret by exact El. erewrite bind_Ret by exact Ef'. reflexivity.
Qed.

(** ** The descent loop *)

Lemma max_key_symbols : MAX_KEY_SYMBOLS = 410.
Proof. reflexivity. Qed.

Lemma num_symbols_short : 0 <= num_symbols (Z.of_nat (length bytes)) <= 408.
Proof. unfold num_symbols. zdiv. Qed.

(** The prefetcher is ahead of the descent at depth [k]. *)
Definition ahead (p : key_prefetcher) (k : Z) : Prop :=
  prefetch_ok t bytes p /\ Z.min (k + 4) (num_symbols (Z.of_nat (length bytes)) + 1) <= prefetch_pos p.

Lemma prefetch_next s p k :
  trie s = t -> ahead p k -> 0 <= k <= num_symbols (Z.of_nat (length bytes)) ->
  exists p', prefetcher_step p s = Ret p' s /\ ahead p' (k + 1) /\
    zlookup (key_symbols p') k = Some (symbol_at bytes k) /\
    zlookup (prefix_hashes p') k = Some (prefix_hash_of t bytes (S (Z.to_nat k))).
Proof.
  intros Hs [Hp Ha] Hk. rewrite <- Hs in Hp.
  destruct (prefetcher_step_spec bytes p s Hp) as (p' & E & Hp' & Epos). rewrite Hs in Hp, Hp'.
  pose proof (po_num _ _ _ Hp). pose proof (po_num _ _ _ Hp').
  exists p'. split; [done|]. split; [split; [done|lia]|]. split.
  - apply (po_symbols _ _ _ Hp'). lia.
  - apply (po_hashes _ _ _ Hp'). lia.
Qed.

(** The body of the loop in [descend]. *)
Definition descend_body (save : bool) : ct_finger * key_prefetcher ->
    MS (ct_finger * key_prefetcher + ct_finger * option Z) :=
  fun '(f, p) =>
    p' ← prefetcher_step p;
    symbol ← lift (zlookup (key_symbols p') (prefix_len f));
    expected ← lift (zlookup (prefix_hashes p') (prefix_len f));
    r ← try_descend f symbol save expected;
    match r with
    | None => mret (inr (f, Some symbol))
    | Some f' => if symbol =? SYMBOL_END then mret (inr (f', None)) else mret (inl (f', p'))
    end.

(** One round: the step of the finger decides. *)
Lemma descend_round s save f p k :
  trie s = t -> ahead p k -> 0 <= k <= num_symbols (Z.of_nat (length bytes)) -> prefix_len f = k ->
  exists p', ahead p' (k + 1) /\
    descend_body save (f, p) s =
    (r ← try_descend f (symbol_at bytes k) save (prefix_hash_of t bytes (S (Z.to_nat k)));
     match r with
     | None => mret (inr (f, Some (symbol_at bytes k)))
     | Some f' => if symbol_at bytes k =? SYMBOL_END then mret (inr (f', None)) else mret (inl (f', p'))
     end) s.
Proof.
  intros Hs Ha Hk Hf. destruct (prefetch_next s p k Hs Ha Hk) as (p' & E & Ha' & E1 & E2).
  exists p'. split; [done|]. unfold descend_body. erewrite bind_Ret by exact E. rewrite Hf, E1, E2. reflexivity.
Qed.

(** What the descent from node [n] at depth [k] ends with. *)
Definition descent_result (n : tnode) (h c k : Z) (f : ct_finger) (r : option Z) : Prop :=
  match tsearch n (symbol_at bytes) k with
  | Some (kv, exact) =>
      entry_type (lc_value (containing_entry f)) = TYPE_LEAF /\ entry_kv (lc_value (containing_entry f)) = kv /\
      local_ok t (containing_entry f) /\ bool_decide (r = None) = exact /\
      reaches t n h c (symbol_at bytes) k (last_pos (containing_entry f))
  | None => entry_type (lc_value (containing_entry f)) <> TYPE_LEAF /\ r <> None
  end.

Variable m : gmap Z ct_kv.

(** The loop, from a finger that has just arrived at node [n]. *)
Definition descends (n : tnode) : Prop :=
  forall s save f p h c k fuel pre,
    trie s = t -> finger_at f n h c 0 k -> ahead p k ->
    0 <= k <= num_symbols (Z.of_nat (length bytes)) -> trie_ok m n pre ->
    num_symbols (Z.of_nat (length bytes)) - k < Z.of_nat fuel ->
    exists f' r, loop fuel (descend_body save) (f, p) s = Ret (f', r) s /\ descent_result n h c k f' r.

Lemma fuel_succ fuel k :
  0 <= k <= num_symbols (Z.of_nat (length bytes)) -> num_symbols (Z.of_nat (length bytes)) - k < Z.of_nat fuel ->
  exists fuel', fuel = S fuel' /\ num_symbols (Z.of_nat (length bytes)) - (k + 1) < Z.of_nat fuel'.
Proof. intros. exists (fuel - 1)%nat. lia. Qed.

Lemma symbol_not_end k :
  0 <= k <= num_symbols (Z.of_nat (length bytes)) -> symbol_at bytes k <> SYMBOL_END ->
  k + 1 <= num_symbols (Z.of_nat (length bytes)).
Proof.
  intros Hk Hs. destruct (Z.le_gt_cases (k + 1) (num_symbols (Z.of_nat (length bytes)))); [done|].
  exfalso. apply Hs, symbol_end_iff; lia.
Qed.

Lemma descends_leaf kv : descends (TLeaf kv).
Proof.
  intros s save f p h c k fuel pre Hs Hf Ha Hk _ Hfuel.
  destruct (fuel_succ fuel k Hk Hfuel) as (fuel' & -> & _).
  destruct (descend_round s save f p k Hs Ha Hk (fa_prefix _ _ _ _ _ _ Hf)) as (p' & _ & E).
  destruct (fa_node _ _ _ _ _ _ Hf) as [Ht Hkv].
  erewrite bind_Ret in E by (unfold try_descend; rewrite Ht; reflexivity).
  exists f, (Some (symbol_at bytes k)). split; [exact (loop_inr _ _ _ _ _ _ E)|].
  unfold descent_result. cbn. split; [done|]. split; [done|]. split; [apply Hf|]. split; [done|].
  eexists. exact (fa_holds _ _ _ _ _ _ Hf).
Qed.

Lemma descends_bitmap g : (forall x ch, g x = Some ch -> descends ch) -> descends (TBitmap g).
Proof.
  intros IH s save f p h c k fuel pre Hs Hf Ha Hk Hok Hfuel.
  destruct (fuel_succ fuel k Hk Hfuel) as (fuel' & -> & Hfuel').
  destruct (descend_round s save f p k Hs Ha Hk (fa_prefix _ _ _ _ _ _ Hf)) as (p' & Ha' & E).
  pose proof num_symbols_short as Hn.
  pose proof (try_descend_bitmap s f g h c k save Hs Hf ltac:(rewrite max_key_symbols; lia)) as Hstep.
  unfold descent_result. cbn [tsearch reaches]. specialize (Hok (symbol_at bytes k)).
  destruct (g (symbol_at bytes k)) as [ch|] eqn:Eg.
  - destruct Hstep as (f' & c' & Er & Hch' & Hf'). destruct Hok as (_ & Hch & Hleaf).
    erewrite bind_Ret in E by exact Er. destruct (Z.eqb_spec (symbol_at bytes k) SYMBOL_END) as [Eend|Hne].
    + exists f', None. split; [exact (loop_inr _ _ _ _ _ _ E)|].
      specialize (Hleaf Eend). destruct ch as [kv| |]; try discriminate.
      destruct (fa_node _ _ _ _ _ _ Hf') as [Ht Hkv].
      split; [done|]. split; [done|]. split; [apply Hf'|]. split; [done|].
      exists c'. split; [done|]. eexists. exact (fa_holds _ _ _ _ _ _ Hf').
    + destruct (IH _ _ Eg s save f' p' (accumulate_hash t h (symbol_at bytes k)) c' (k + 1) fuel'
                 (pre ++ [symbol_at bytes k]) Hs Hf' Ha')
        as (f2 & r & El & Hr); [|exact Hch|exact Hfuel'|].
      * pose proof (symbol_not_end k Hk Hne). lia.
      * exists f2, r. split; [rewrite (loop_inl _ _ _ _ _ _ E); exact El|].
        unfold descent_result in Hr. destruct (tsearch ch _ _) as [[kv ex]|]; [|done].
        destruct Hr as (R1 & R2 & R3 & R4 & R5). repeat (split; [done|]). eauto.
  - erewrite bind_Ret in E by exact Hstep. exists f, (Some (symbol_at bytes k)).
    split; [exact (loop_inr _ _ _ _ _ _ E)|]. destruct (fa_node _ _ _ _ _ _ Hf) as [Ht _].
    rewrite Ht. split; discriminate.
Qed.

(** Inside a jump node, [d] symbols in. *)
Lemma descends_in_jump syms child s save rest :
  trie s = t -> descends child -> (1 <= length syms <= 8)%nat -> Forall (fun x => 1 <= x <= 32) syms ->
  forall d f p h c k fuel pre,
    length syms = (d + length rest)%nat -> drop d syms = rest -> rest <> [] ->
    finger_at f (TJump syms child) h c d k -> ahead p k ->
    (forall i y, (i < d)%nat -> syms !! i = Some y ->
       exists j, (Z.to_nat k = j + d)%nat /\ y = symbol_at bytes (Z.of_nat (j + i))) ->
    0 <= k <= num_symbols (Z.of_nat (length bytes)) -> trie_ok m child pre ->
    num_symbols (Z.of_nat (length bytes)) - k < Z.of_nat fuel ->
    exists f' r, loop fuel (descend_body save) (f, p) s = Ret (f', r) s /\
      if follows rest (symbol_at bytes) k
      then exists c', (exists q e, holds t q (h, c) e /\ c' = entry_child_color e) /\
             descent_result child (accumulate_list t h syms) c' (k + Z.of_nat (length rest)) f' r
      else entry_type (lc_value (containing_entry f')) <> TYPE_LEAF /\ r <> None.
Proof.
  intros Hs IH Hlen Hsyms. induction rest as [|x rest IHr]; [easy|].
  intros d f p h c k fuel pre Hd Hdrop _ Hf Ha Hmatch Hk Hok Hfuel.
  destruct (fuel_succ fuel k Hk Hfuel) as (fuel' & -> & Hfuel'). cbn [length] in Hd.
  assert (Hx : syms !! d = Some x).
  { rewrite <- (Nat.add_0_r d), <- lookup_drop, Hdrop. reflexivity. }
  pose proof (Forall_lookup_1 _ _ _ _ Hsyms Hx) as Hxr. cbv beta in Hxr.
  destruct (descend_round s save f p k Hs Ha Hk (fa_prefix _ _ _ _ _ _ Hf)) as (p' & Ha' & E).
  pose proof num_symbols_short as Hn.
  pose proof (try_descend_jump s f syms child h c d k save Hs Hlen Hf ltac:(lia)
                ltac:(rewrite max_key_symbols; lia) x Hx Hmatch) as Hstep. cbv zeta in Hstep.
  cbn [follows]. destruct (Z.eqb_spec x (symbol_at bytes k)) as [Ex|Hne]; cbn [andb].
  2: { erewrite bind_Ret in E by exact Hstep. exists f, (Some (symbol_at bytes k)).
       split; [exact (loop_inr _ _ _ _ _ _ E)|]. destruct (fa_node _ _ _ _ _ _ Hf) as [Ht _].
       rewrite Ht. split; discriminate. }
  destruct Hstep as (f' & Er & Hf'). erewrite bind_Ret in E by exact Er.
  destruct (Z.eqb_spec (symbol_at bytes k) SYMBOL_END) as [Eend|Hend]; [unfold SYMBOL_END in Eend; lia|].
  pose proof (symbol_not_end k Hk Hend) as Hk'. rewrite (loop_inl _ _ _ _ _ _ E).
  destruct rest as [|y rest].
  - destruct (Nat.eqb_spec (S d) (length syms)); [|cbn in Hd; lia]. cbn [follows length].
    destruct (IH s save f' p' _ _ (k + 1) fuel' pre Hs Hf' Ha') as (f2 & r & El & Hr); [lia|done|lia|].
    exists f2, r. split; [exact El|]. eexists. split; [|exact Hr].
    eexists _, _. split; [exact (fa_holds _ _ _ _ _ _ Hf)|reflexivity].
  - destruct (Nat.eqb_spec (S d) (length syms)); [cbn in Hd; lia|].
    replace (k + Z.of_nat (length (x :: y :: rest))) with (k + 1 + Z.of_nat (length (y :: rest))) by (cbn; lia).
    apply (IHr (S d) f' p' h c (k + 1) fuel' pre); try done; try lia.
    + rewrite (drop_S _ _ _ Hx) in Hdrop. injection Hdrop as Hdrop. exact Hdrop.
    + intros i z Hi Hz. destruct (Nat.eq_dec i d) as [->|Hid].
      * rewrite Hx in Hz. injection Hz as <-. destruct (fa_start _ _ _ _ _ _ Hf) as (j & Ej & _).
        exists j. split; [lia|]. rewrite Ex. f_equal. lia.
      * destruct (Hmatch i z ltac:(lia) Hz) as (j & Ej & ->). exists j. split; [lia|done].
Qed.

Lemma descends_all n : descends n.
Proof.
  induction n as [kv|syms child IH|g IH] using tnode_ind.
  - apply descends_leaf.
  - intros s save f p h c k fuel pre Hs Hf Ha Hk Hok Hfuel. destruct Hok as (Hlen & Hsyms & Hok & _).
    destruct (descends_in_jump syms child s save syms Hs IH Hlen Hsyms 0 f p h c k fuel (pre ++ syms))
      as (f' & r & E & Hr); try done.
    + intros ->. cbn in Hlen. lia.
    + intros i y Hi. lia.
    + exists f', r. split; [exact E|]. unfold descent_result in *. cbn [tsearch reaches].
      destruct (follows syms (symbol_at bytes) k); [|exact Hr].
      destruct Hr as (c' & (q & e & Hh & ->) & Hr). destruct (tsearch child _ _) as [[kv ex]|]; [|exact Hr].
      destruct Hr as (R1 & R2 & R3 & R4 & R5). repeat (split; [done|]). eauto.
  - apply descends_bitmap, IH.
Qed.

End descent.

(** ** What the search of the tree means *)

Section tree.
Variable m : gmap Z ct_kv.

Lemma leaf_ok_prefix pre pre' kv : leaf_ok m (pre ++ pre') kv -> leaf_ok m pre kv.
Proof.
  intros (o & Ho & Hkv & Hsyms). exists o. split; [done|]. split; [done|]. intros i s Hi.
  apply Hsyms. now apply lookup_app_l_Some.
Qed.

Lemma leaf_of_ok n pre kv : trie_ok m n pre -> leaf_of n kv -> leaf_ok m pre kv.
Proof.
  revert pre. induction n as [kv'|syms child IH|g IH] using tnode_ind; intros pre Hok Hl; cbn in *.
  - now subst.
  - destruct Hok as (_ & _ & Hok & _). apply (leaf_ok_prefix _ syms). now apply IH.
  - destruct Hl as [s Hl]. specialize (Hok s). destruct (g s) as [c|] eqn:E; [|done].
    destruct Hok as (_ & Hok & _). apply (leaf_ok_prefix _ [s]). now apply (IH s c E).
Qed.

Variable bytes : list Z.

(** The symbols [pre] are the first ones of the key. *)
Definition on_path (pre : list Z) : Prop := forall i s, pre !! i = Some s -> s = symbol_at bytes (Z.of_nat i).

Lemma on_path_app pre syms :
  on_path pre -> follows syms (symbol_at bytes) (Z.of_nat (length pre)) = true -> on_path (pre ++ syms).
Proof.
  revert pre. induction syms as [|x syms IH]; intros pre Hp Hf; [now rewrite app_nil_r|].
  cbn [follows] in Hf. apply andb_true_iff in Hf as [Hx Hf]. apply Z.eqb_eq in Hx.
  replace (pre ++ x :: syms) with ((pre ++ [x]) ++ syms) by (rewrite <- app_assoc; done). apply IH.
  - intros i s Hi. apply lookup_app_Some in Hi as [Hi|[Hi1 Hi2]]; [now apply Hp|].
    destruct (i - length pre)%nat eqn:E; [|now destruct n]. cbn in Hi2. injection Hi2 as <-.
    rewrite Hx. f_equal. lia.
  - rewrite length_app. cbn [length]. now replace (Z.of_nat (length pre + 1)) with (Z.of_nat (length pre) + 1) by lia.
Qed.

Lemma leaf_follows pre syms kv o :
  leaf_ok m (pre ++ syms) kv -> m !! kv = Some o -> kv_key o = bytes ->
  follows syms (symbol_at bytes) (Z.of_nat (length pre)) = true.
Proof.
  intros (o' & Ho' & _ & Hs) Ho Hk. rewrite Ho in Ho'. injection Ho' as <-. rewrite Hk in Hs.
  revert pre Hs. induction syms as [|x syms IH]; intros pre Hs; [done|]. cbn [follows].
  rewrite andb_true_iff, Z.eqb_eq. split.
  - symmetry. apply Hs. rewrite lookup_app_r, Nat.sub_diag by lia. done.
  - specialize (IH (pre ++ [x])). rewrite length_app in IH. cbn [length] in IH.
    replace (Z.of_nat (length pre + 1)) with (Z.of_nat (length pre) + 1) in IH by lia. apply IH.
    intros i s Hi. apply Hs. rewrite <- app_assoc in Hi. exact Hi.
Qed.

Hypothesis bytes_byte : bytes_ok bytes.

Lemma kv_key_ok o : kv_ok o -> bytes_ok (kv_key o).
Proof. intros (_ & _ & _ & Hb). now apply Forall_take. Qed.

Lemma tsearch_sound n pre kv exact :
  trie_ok m n pre -> on_path pre -> tsearch n (symbol_at bytes) (Z.of_nat (length pre)) = Some (kv, exact) ->
  leaf_of n kv /\ exists o, m !! kv = Some o /\ kv_ok o /\ (exact = true -> kv_key o = bytes).
Proof.
  revert pre. induction n as [kv'|syms child IH|g IH] using tnode_ind; intros pre Hok Hp E; cbn in Hok, E.
  - injection E as <- <-. split; [done|]. destruct Hok as (o & Ho & Hkv & _). exists o. repeat split; try done; apply Hkv.
  - destruct Hok as (_ & _ & Hok & _). destruct (follows syms _ _) eqn:Ef; [|discriminate].
    apply (IH (pre ++ syms) Hok (on_path_app pre syms Hp Ef)).
    rewrite length_app, Nat2Z.inj_add. exact E.
  - specialize (Hok (symbol_at bytes (Z.of_nat (length pre)))).
    destruct (g (symbol_at bytes (Z.of_nat (length pre)))) as [c|] eqn:Eg; [|discriminate].
    destruct Hok as (Hs & Hok & Hleaf).
    assert (Hp' : on_path (pre ++ [symbol_at bytes (Z.of_nat (length pre))])).
    { apply on_path_app; [done|]. cbn. now rewrite Z.eqb_refl. }
    destruct (Z.eqb_spec (symbol_at bytes (Z.of_nat (length pre))) SYMBOL_END) as [Eend|Hend].
    + destruct c as [kv'| |]; try discriminate. injection E as <- <-. cbn in Hok.
      split; [exists (symbol_at bytes (Z.of_nat (length pre))); now rewrite Eg|].
      destruct Hok as (o & Ho & Hkv & Hsyms). exists o. split; [done|]. split; [done|]. intros _.
      assert (Hsym : forall i, (i <= length pre)%nat -> symbol_at (kv_key o) (Z.of_nat i) = symbol_at bytes (Z.of_nat i)).
      { intros i Hi. destruct (lookup_lt_is_Some_2 (pre ++ [symbol_at bytes (Z.of_nat (length pre))]) i) as [s Ei];
          [rewrite length_app; cbn; lia|]. rewrite (Hsyms i s Ei). now apply Hp'. }
      apply (symbols_agree_eq _ _ (Z.of_nat (length pre))); try done; try lia.
      * now apply kv_key_ok.
      * intros j Hj. rewrite <- (Z2Nat.id j) by lia. apply Hsym. lia.
      * apply Hsym. lia.
      * rewrite Hsym by lia. exact Eend.
    + destruct (IH _ _ Eg (pre ++ [symbol_at bytes (Z.of_nat (length pre))]) Hok Hp') as [Hl Ho].
      * rewrite length_app. cbn [length]. replace (Z.of_nat (length pre + 1)) with (Z.of_nat (length pre) + 1) by lia. exact E.
      * split; [|done]. exists (symbol_at bytes (Z.of_nat (length pre))). now rewrite Eg.
Qed.

Lemma tsearch_complete n pre kv o :
  trie_ok m n pre -> leaf_of n kv -> m !! kv = Some o -> kv_key o = bytes ->
  exists exact, tsearch n (symbol_at bytes) (Z.of_nat (length pre)) = Some (kv, exact).
Proof.
  revert pre. induction n as [kv'|syms child IH|g IH] using tnode_ind; intros pre Hok Hl Ho Hk; cbn in Hok, Hl |- *.
  - subst. eauto.
  - destruct Hok as (_ & _ & Hok & _). pose proof (leaf_of_ok _ _ _ Hok Hl) as Hlk.
    rewrite (leaf_follows pre syms kv o) by done.
    destruct (IH (pre ++ syms) Hok Hl Ho Hk) as [ex E]. rewrite length_app, Nat2Z.inj_add in E. eauto.
  - destruct Hl as [s Hl]. pose proof (Hok s) as Hs. destruct (g s) as [c|] eqn:Eg; [|done].
    destruct Hs as (_ & Hc & Hleaf). pose proof (leaf_of_ok _ _ _ Hc Hl) as Hlk.
    pose proof (leaf_follows pre [s] kv o Hlk Ho Hk) as Ef. cbn in Ef. rewrite andb_true_r in Ef.
    apply Z.eqb_eq in Ef. rewrite <- Ef, Eg. destruct (Z.eqb_spec s SYMBOL_END) as [Eend|Hend].
    + specialize (Hleaf Eend). destruct c as [kv'| |]; try discriminate. cbn in Hl. subst. eauto.
    + destruct (IH _ _ Eg (pre ++ [s]) Hc Hl Ho Hk) as [ex E]. rewrite length_app in E. cbn [length] in E.
      replace (Z.of_nat (length pre + 1)) with (Z.of_nat (length pre) + 1) in E by lia. eauto.
Qed.

Lemma tlookup_iff n kv :
  trie_ok m n [] ->
  tlookup m n bytes = Some kv <-> leaf_of n kv /\ exists o, m !! kv = Some o /\ kv_key o = bytes.
Proof.
  intros Hok. unfold tlookup. split.
  - destruct (tsearch n (symbol_at bytes) 0) as [[kv' ex]|] eqn:E; [|discriminate].
    destruct (tsearch_sound n [] kv' ex Hok) as (Hl & o & Ho & _); [now intros i s Hi|exact E|].
    rewrite Ho. case_bool_decide; [|discriminate]. intros [= <-]. split; [done|]. eauto.
  - intros (Hl & o & Ho & Hk). destruct (tsearch_complete n [] kv o Hok Hl Ho Hk) as [ex E].
    change (Z.of_nat (length (@nil Z))) with 0 in E. rewrite E, Ho. now rewrite bool_decide_true by done.
Qed.

End tree.

(** ** [init_finger] and [ct_lookup] *)

(** The trie [n] is stored in the table, its root where [find_root] reads it. *)
Record trie_rep (s : state) (n : tnode) : Prop := mk_trie_rep {
  tr_table : table_ok (trie s);
  tr_nonempty : is_empty (trie s) = 0;
  tr_root : exists e, holds (trie s) root_pos (HASH_START_VALUE, ROOT_COLOR) e;
  tr_rep : rep (trie s) n HASH_START_VALUE ROOT_COLOR;
  tr_ok : trie_ok (kv_mem s) n [];
}.

Lemma trie_rep_locks s n ls : trie_rep s n -> trie_rep (set_lock_mgr ls s) n.
Proof. intros []. now split. Qed.

Section lookup.
Context `{BucketLaws} `{env : Env}.

Lemma read_entry_spec s p e bk :
  table_ok (trie s) -> trie_entry (trie s) p = Some e -> trie_bucket (trie s) (pos_bucket p) = Some bk ->
  read_entry p s = Ret (e, write_lock_and_seq bk) s.
Proof.
  intros Ht He Hb. pose proof (get_bucket_spec (trie s) Ht s (pos_bucket p) bk eq_refl Hb) as Eb.
  destruct (trie_bucket_ok _ Ht _ _ Hb) as [_ Hq]. unfold quiescent in Hq.
  assert (Es : read_int_atomic_seq (pos_bucket p) s = Ret (write_lock_and_seq bk) s)
    by (unfold read_int_atomic_seq; now erewrite bind_Ret by exact Eb).
  unfold read_entry. erewrite bind_Ret by exact Es. rewrite Hq. cbn [Z.eqb negb].
  erewrite bind_Ret by (apply get_entry_spec with (t := trie s); done).
  erewrite bind_Ret by exact Es. now rewrite Z.eqb_refl.
Qed.

Lemma init_finger_spec s n bytes :
  trie_rep s n ->
  exists f, init_finger s = Ret (f, true) (set_lock_mgr [] s) /\
    finger_at (trie s) bytes f n HASH_START_VALUE ROOT_COLOR 0 0 /\
    path f = [mk_path_entry (containing_entry f) HASH_START_VALUE].
Proof.
  intros [Ht Hne (e & Hroot) Hrep Hok]. pose proof Hroot as (Hin & He & Hu & Hkey).
  destruct (trie_entry_bucket _ _ _ He) as (bk & Hbk & Hc).
  apply rep_unfold in Hrep as (p & e' & Hh & Hn).
  pose proof (tb_unique _ Ht _ _ _ _ _ Hh Hroot) as ->.
  assert (e' = e) as -> by (destruct Hh as (_ & E & _); congruence).
  set (l := mk_local e root_pos 0 (write_lock_and_seq bk)).
  exists (mk_finger l [mk_path_entry l HASH_START_VALUE] 0 HASH_START_VALUE ROOT_LAST_SYMBOL 0).
  split; [|split; [|done]].
  - unfold init_finger, read_is_empty. erewrite bind_Ret by reflexivity. rewrite Hne. cbn [Z.eqb negb].
    erewrite bind_Ret.
    2: { erewrite bind_Ret; [reflexivity|]. unfold find_root.
         erewrite bind_Ret by (apply read_entry_spec; [exact Ht|exact He|exact Hbk]). reflexivity. }
    reflexivity.
  - split; [split; cbn; try done; try lia|].
    + exists 0%nat. split; done.
    + split; cbn; [exact Hin|exact He|eauto|].
      injection Hkey as Hkh _. unfold entry_hash in Hkh |- *. cbn [pos_bucket root_pos] in Hkh |- *.
      now rewrite Hkh.
Qed.

Hypothesis ambient_ok : forall a, is_byte (ambient_byte a).

Lemma descend_spec s n f bytes (save : bool) :
  trie_rep s n -> bytes_ok bytes -> Z.of_nat (length bytes) <= 255 ->
  finger_at (trie s) bytes f n HASH_START_VALUE ROOT_COLOR 0 0 ->
  exists f' r, descend f (Z.of_nat (length bytes)) bytes save s = Ret (f', r) s /\
    descent_result (trie s) bytes n HASH_START_VALUE ROOT_COLOR 0 f' r.
Proof.
  intros Hr Hb Hlen Hf.
  destruct (prefetcher_start_spec bytes Hb ambient_ok s Hlen) as (p & Ep & Hp & Epos).
  pose proof (num_symbols_short bytes Hlen) as Hn.
  destruct (descends_all (trie s) (tr_table _ _ Hr) bytes Hlen (kv_mem s) n s save f p
    HASH_START_VALUE ROOT_COLOR 0 (S (Z.to_nat MAX_KEY_SYMBOLS)) []) as (f' & r & E & Hres).
  - reflexivity.
  - exact Hf.
  - split; [exact Hp|]. rewrite Epos. lia.
  - lia.
  - apply Hr.
  - rewrite max_key_symbols. lia.
  - exists f', r. split; [|exact Hres]. unfold descend. erewrite bind_Ret by exact Ep. exact E.
Qed.

(** The same for a key object, whose key is followed by its value. *)
Lemma descend_kv_spec s n f o (save : bool) :
  trie_rep s n -> kv_ok o -> key_size o <= 255 ->
  finger_at (trie s) (kv_key o) f n HASH_START_VALUE ROOT_COLOR 0 0 ->
  exists f' r, descend f (kv_key_size o) (kv_key_bytes o) save s = Ret (f', r) s /\
    descent_result (trie s) (kv_key o) n HASH_START_VALUE ROOT_COLOR 0 f' r.
Proof.
  intros Hr Ho Hlen Hf. pose proof Ho as (K1 & K2 & K3 & K4).
  pose proof (length_kv_key o Ho) as Hl.
  assert (Ek : Z.of_nat (Z.to_nat (key_size o)) = key_size o) by lia.
  destruct (@prefetcher_start_spec (env_after (kv_bytes o) env) (kv_key o) (kv_key_bytes_ok o Ho)
    (key_mem_byte (kv_bytes o) K4 ambient_ok) s ltac:(lia)) as (p & Ep & Hp & Epos).
  rewrite Hl, <- Ek in Ep. unfold kv_key in Ep at 1. rewrite <- prefetcher_start_take in Ep by lia.
  rewrite Ek in Ep. pose proof (num_symbols_short (kv_key o) ltac:(lia)) as Hn.
  destruct (descends_all (trie s) (tr_table _ _ Hr) (kv_key o) ltac:(lia) (kv_mem s) n s save f p
    HASH_START_VALUE ROOT_COLOR 0 (S (Z.to_nat MAX_KEY_SYMBOLS)) []) as (f' & r & E & Hres).
  - reflexivity.
  - exact Hf.
  - split; [exact Hp|]. rewrite Epos. lia.
  - lia.
  - apply Hr.
  - rewrite max_key_symbols. lia.
  - exists f', r. split; [|exact Hres]. unfold descend. rewrite kv_key_size_eq by done.
    unfold kv_key_bytes. erewrite bind_Ret by exact Ep. exact E.
Qed.

Lemma compare_zero kv bytes :
  kv_ok kv -> Z.of_nat (length bytes) < 2 ^ 31 ->
  (kv_key_compare_to kv (Z.of_nat (length bytes)) bytes =? 0) = bool_decide (kv_key kv = bytes).
Proof.
  intros Hkv Hlen. pose proof (kv_key_compare_to_spec kv bytes Hkv Hlen) as E.
  case_bool_decide as Hd.
  - rewrite Hd, key_compare_refl in E. cbn in E. apply Z.eqb_eq. now apply Z.sgn_null_iff.
  - apply Z.eqb_neq. intros E0. rewrite E0 in E. apply Hd, key_compare_eq.
    destruct (key_compare (kv_key kv) bytes); cbn in E; (done || discriminate).
Qed.

Lemma ct_lookup_spec s n bytes :
  trie_rep s n -> bytes_ok bytes -> Z.of_nat (length bytes) <= 255 ->
  ct_lookup bytes s = Ret (tlookup (kv_mem s) n bytes) (set_lock_mgr [] s).
Proof.
  intros Hr Hb Hlen. destruct (init_finger_spec s n bytes Hr) as (f & Ef & Hf & _).
  unfold ct_lookup. erewrite bind_Ret by exact Ef. cbn [negb].
  assert (Hr' : trie_rep (set_lock_mgr [] s) n) by now apply trie_rep_locks.
  destruct (descend_spec (set_lock_mgr [] s) n f bytes false Hr' Hb Hlen Hf) as (f' & r & Ed & Hres).
  erewrite bind_Ret by exact Ed. unfold descent_result in Hres. unfold tlookup.
  destruct (tsearch n (symbol_at bytes) 0) as [[kv ex]|] eqn:Es.
  - destruct Hres as (Ht & Hkv & _ & Hex & _). rewrite Ht, Hkv. cbn [Z.eqb TYPE_LEAF Pos.eqb negb].
    destruct (tsearch_sound _ _ Hb n [] kv ex (tr_ok _ _ Hr)) as (_ & o & Ho & Hok & Hexact);
      [now intros i x Hi|exact Es|]. rewrite Ho.
    destruct r as [sym|]; cbn in Hex.
    + erewrite bind_Ret by (unfold load_kv; erewrite bind_Ret by reflexivity; cbn; now rewrite Ho).
      rewrite compare_zero by (done || lia). reflexivity.
    + rewrite bool_decide_true by (apply Hexact; symmetry; exact Hex). reflexivity.
  - destruct Hres as [Ht Hr2]. destruct r as [sym|]; [|done].
    destruct (Z.eqb_spec (entry_type (lc_value (containing_entry f'))) TYPE_LEAF); [done|]. reflexivity.
Qed.

(** An empty trie. *)
Lemma ct_lookup_empty s bytes :
  is_empty (trie s) <> 0 -> ct_lookup bytes s = Ret None (set_lock_mgr [] s).
Proof.
  intros He. unfold ct_lookup, init_finger, read_is_empty. erewrite bind_Ret.
  2: { erewrite bind_Ret by reflexivity. cbn. destruct (Z.eqb_spec (is_empty (trie s)) 0); [done|]. reflexivity. }
  reflexivity.
Qed.

End lookup.
