(* ===== verification/Preserve.v ===== *)
(** * Relocation and the dictionary

    What a trie means depends on the contents of the table, not on the cells
    its entries lie in: tables with the same contents store the same trie. *)

From S2P Require Import Prelude Bits Entry KeyObject State Hashing Symbols Atomics Table Contents Store Locks Cells Search Relocate AddEntry Finger Insert Api Lookup.
From stdpp Require Import base list gmap.
From Stdlib Require Import ZArith Lia Bool.

#[local] Open Scope Z_scope.

(** ** Entries equal up to the flag for their place *)

Definition same_entry (e e' : ct_entry) : Prop := clear_secondary e = clear_secondary e'.

#[export] Instance same_entry_equiv : Equivalence same_entry.
Proof.
  unfold same_entry. split; [intros e; reflexivity|intros e e' H; now symmetry|intros a b c H1 H2; now rewrite H1].
Qed.

Section same.
Variables e e' : ct_entry.
Hypothesis e_ok : entry_ok e.
Hypothesis e'_ok : entry_ok e'.
Hypothesis same : same_entry e e'.

Lemma same_entry_byte i : (0 < i)%nat -> byte_at e i = byte_at e' i.
Proof.
  intros Hi. destruct (Nat.lt_ge_cases i ENTRY_BYTES) as [Hlt|Hge].
  - assert (H : byte_at (clear_secondary e) i = byte_at (clear_secondary e') i) by (now rewrite same).
    unfold clear_secondary, set_parent_color_and_flags in H.
    rewrite !byte_at_set_byte in H by (done || entry_lia). now rewrite !decide_False in H by lia.
  - unfold byte_at. rewrite !nth_overflow by entry_lia. done.
Qed.

Lemma same_entry_flags : parent_color_and_flags e .& bnot 8 FLAG_SECONDARY_BUCKET = parent_color_and_flags e' .& bnot 8 FLAG_SECONDARY_BUCKET.
Proof.
  assert (H : parent_color_and_flags (clear_secondary e) = parent_color_and_flags (clear_secondary e')) by (now rewrite same).
  unfold clear_secondary in H. rewrite !flags_set_flags in H by done.
  rewrite !wrap_small in H; [exact H| |]; (apply land_bound; first [lia|apply flags_byte; done|split; (discriminate || reflexivity)]).
Qed.

(** A field that does not look at the flag. *)
Lemma flags_field (f : Z -> Z) :
  forallb (fun b => f (b .& bnot 8 FLAG_SECONDARY_BUCKET) =? f b) (map Z.of_nat (seq 0 256)) = true ->
  f (parent_color_and_flags e) = f (parent_color_and_flags e').
Proof.
  intros Hf. pose proof (byte_check (fun b => f (b .& bnot 8 FLAG_SECONDARY_BUCKET) =? f b) _ Hf (flags_byte e e_ok)) as H1.
  pose proof (byte_check (fun b => f (b .& bnot 8 FLAG_SECONDARY_BUCKET) =? f b) _ Hf (flags_byte e' e'_ok)) as H2.
  cbv beta in H1, H2. apply Z.eqb_eq in H1, H2. rewrite <- H1, <- H2. f_equal. exact same_entry_flags.
Qed.

Lemma same_entry_bits : bits_area e = bits_area e'.
Proof.
  unfold bits_area. apply bytes_ext; [rewrite !length_drop; entry_lia|]. intros i _.
  unfold byte_at. rewrite !nth_skipn. apply (same_entry_byte (3 + i)). lia.
Qed.

Lemma same_entry_fields :
  used e = used e' /\ entry_type e = entry_type e' /\ entry_color e = entry_color e' /\
  last_symbol e = last_symbol e' /\ entry_parent_color e = entry_parent_color e' /\
  bits_area e = bits_area e' /\ child_color_and_jump_size e = child_color_and_jump_size e'.
Proof.
  assert (Ht : entry_type e = entry_type e') by (apply (flags_field (fun b => b .& TYPE_MASK)); vm_compute; reflexivity).
  split; [unfold used; now rewrite Ht|]. split; [exact Ht|].
  split; [unfold entry_color, color_and_tag; now rewrite (same_entry_byte 1) by lia|].
  split; [apply (same_entry_byte 2); lia|].
  split; [apply (flags_field (fun b => b .>> PARENT_COLOR_SHIFT)); vm_compute; reflexivity|].
  split; [exact same_entry_bits|apply (same_entry_byte 8); lia].
Qed.

Lemma same_entry_kv : entry_kv e = entry_kv e'.
Proof.
  assert (H : get_bits_uint128 (entry_u128 e) (3 * 8) (6 * 8) = get_bits_uint128 (entry_u128 e') (3 * 8) (6 * 8));
    [|unfold entry_kv; now rewrite H].
  unfold get_bits_uint128, entry_u128. f_equal. apply Z.bits_inj'. intros i Hi.
  rewrite !Z.shiftr_spec, !testbit_le_combine by (lia || apply e_ok || apply e'_ok).
  rewrite same_entry_byte; [done|]. zdiv.
Qed.
End same.

(** ** Tables with the same contents *)

Section same_contents.
Variables t t' : cuckoo_trie.
Hypothesis t_ok : table_ok t.
Hypothesis t'_ok : table_ok t'.
Hypothesis params : same_params t t'.
Hypothesis same : forall k e, contents t' k e <-> contents t k e.

Lemma holds_same p k e : holds t p k e -> exists p' e', holds t' p' k e' /\ same_entry e e' /\ entry_ok e /\ entry_ok e'.
Proof.
  intros Hh. assert (Hc : contents t k (clear_secondary e)) by (exists p, e; done).
  apply same in Hc as (p' & e' & Hh' & E). exists p', e'. split; [done|]. split; [exact E|].
  split; [exact (proj1 (holds_ok t t_ok _ _ _ Hh))|exact (proj1 (holds_ok t' t'_ok _ _ _ Hh'))].
Qed.

Lemma accumulate_hash_params h s : accumulate_hash t' h s = accumulate_hash t h s.
Proof. now rewrite (same_params_eq _ _ params). Qed.

Lemma accumulate_list_params h syms : accumulate_list t' h syms = accumulate_list t h syms.
Proof. now rewrite (same_params_eq _ _ params). Qed.
End same_contents.

Lemma child_of_same t t' h c s c' :
  table_ok t -> table_ok t' -> same_params t t' -> (forall k e, contents t' k e <-> contents t k e) ->
  child_of t h c s c' -> child_of t' h c s c'.
Proof.
  intros Ht Ht' Hp Hc [(p & e & Hh & Hl & Hpc) Hu]. unfold child_of. rewrite !(accumulate_hash_params _ _ Hp). split.
  - destruct (holds_same t t' Ht Ht' Hc p _ e Hh) as (p' & e' & Hh' & Hs & He & He').
    destruct (same_entry_fields e e' He He' Hs) as (_ & _ & _ & E1 & E2 & _).
    exists p', e'. split; [done|]. split; congruence.
  - intros p' c'' e' Hh' Hl' Hpc'.
    destruct (holds_same t' t Ht' Ht (fun k x => iff_sym (Hc k x)) p' _ e' Hh') as (p2 & e2 & Hh2 & Hs & He & He2).
    destruct (same_entry_fields e' e2 He He2 Hs) as (_ & _ & _ & E1 & E2 & _).
    apply (Hu p2 c'' e2 Hh2); congruence.
Qed.

Lemma rep_same t t' n h c :
  table_ok t -> table_ok t' -> same_params t t' -> (forall k e, contents t' k e <-> contents t k e) ->
  rep t n h c -> rep t' n h c.
Proof.
  intros Ht Ht' Hp Hc. revert h c.
  induction n as [kv|syms child IH|g IH] using tnode_ind; intros h c (p & e & Hh & Hn);
    destruct (holds_same t t' Ht Ht' Hc p _ e Hh) as (p' & e' & Hh' & Hs & He & He');
    destruct (same_entry_fields e e' He He' Hs) as (_ & Et & _ & _ & _ & Eb & Ej);
    exists p', e'; (split; [exact Hh'|]); rewrite <- Et.
  - now rewrite <- (same_entry_kv e e' He He' Hs).
  - destruct Hn as (H1 & H2 & H3 & H4). split; [done|]. unfold entry_jump_size, entry_child_color, get_jump_symbol in *.
    rewrite <- Ej, <- Eb, (accumulate_list_params _ _ Hp). split; [done|]. split; [done|]. now apply IH.
  - destruct Hn as (H1 & H2). split; [done|]. intros s Hsym. specialize (H2 s Hsym).
    rewrite <- Eb, (accumulate_hash_params _ _ Hp). destruct (g s) as [ch|] eqn:Eg; [|exact H2].
    destruct H2 as (Hb & c' & Hr & Hch). split; [exact Hb|]. exists c'. split; [now apply (IH s ch Eg)|].
    now apply (child_of_same t t').
Qed.

(** The trie is still there, when the root is where it was. *)
Lemma trie_rep_same s s' n :
  trie_rep s n -> table_ok (trie s') -> same_params (trie s) (trie s') -> kv_mem s' = kv_mem s ->
  (forall k e, contents (trie s') k e <-> contents (trie s) k e) ->
  (forall e, trie_entry (trie s) root_pos = Some e -> used e = true -> trie_entry (trie s') root_pos = Some e) ->
  trie_rep s' n.
Proof.
  intros [Ht Hne (er & Hr) Hrep Hok] Ht' Hp Hm Hc Hroot. split.
  - exact Ht'.
  - rewrite (same_params_eq _ _ Hp). exact Hne.
  - exists er. destruct Hr as (R1 & R2 & R3 & R4). apply (cell_holds_params (trie s)); [exact Hp|].
    split; [exact R1|]. split; [now apply Hroot|done].
  - now apply (rep_same (trie s)).
  - now rewrite Hm.
Qed.

(** ** The properties *)

(** C12. Relocation is invisible to the dictionary: when [relocate_entry]
    runs on a table that stores a trie, the table stores the same trie
    afterwards, and every lookup gives the answer it gave before. *)
Theorem relocation_preserves_lookups `{BucketLaws} `{Env} (s : state) (n : tnode) (N : Z) (immovable : option pos) (start : Z) :
  trie_rep s n -> locks_ok N s -> 0 <= N /\ N + RELOCATE_REFS < 2 ^ 32 ->
  full (trie s) start -> 0 <= start < num_buckets (trie s) -> 1 <= bucket_refs (lock_mgr s) start ->
  path_room immovable start s -> (forall a, is_byte (ambient_byte a)) ->
  exists status p s', relocate_entry start immovable s = Ret (status, p) s' /\ trie_rep s' n /\
    forall bytes, bytes_ok bytes -> Z.of_nat (length bytes) <= 255 ->
      exists r, ct_lookup bytes s = Ret r (set_lock_mgr [] s) /\ ct_lookup bytes s' = Ret r (set_lock_mgr [] s').
Proof.
  intros Hr Hl HN Hfull Hin Hlock Hroom Ha.
  destruct (relocate_entry_spec N s immovable start (tr_table _ _ Hr) Hl HN Hfull Hin Hlock Hroom)
    as [E|(p & s' & E & [R1 R2 R3 R4 R5 R6 R7] & _)].
  - exists SI_FAIL, None, s. split; [exact E|]. split; [exact Hr|]. intros bytes Hb Hlen.
    eexists. split; exact (ct_lookup_spec Ha s n bytes Hr Hb Hlen).
  - assert (Hr' : trie_rep s' n).
    { apply (trie_rep_same s); [exact Hr|exact R2|exact R1|exact R3|intros k e; now symmetry|].
      intros e He Hu. apply R5; [now right|exact He|exact Hu]. }
    exists SI_OK, (Some p), s'. split; [exact E|]. split; [exact Hr'|]. intros bytes Hb Hlen.
    eexists. split; [exact (ct_lookup_spec Ha s n bytes Hr Hb Hlen)|]. rewrite <- R3.
    exact (ct_lookup_spec Ha s' n bytes Hr' Hb Hlen).
Qed.
