(* ===== verification/Order.v ===== *)
(** * The leaves of a trie in key order

    The leaves of the abstract trie from left to right, by increasing
    symbols, are sorted by their keys. A subtree's neighbours in that order
    compare with a key as the symbols on the way to the subtree do. *)

From S2P Require Import Prelude Bits Entry KeyObject State Hashing Symbols Atomics Table Contents Finger Insert Api Lookup.
From stdpp Require Import base list gmap sorting.
From Stdlib Require Import ZArith Lia Bool.

#[local] Open Scope Z_scope.

(** ** Ranges of symbols *)

Definition symbols_between (a b : nat) : list Z := map Z.of_nat (seq a (b - a)).
(** The symbols of a bitmap node, 0 to 32, and those below [s] and from [s] on. *)
Definition all_symbols : list Z := symbols_between 0 33.
Definition symbols_below (s : Z) : list Z := symbols_between 0 (Z.to_nat s).
Definition symbols_above (s : Z) : list Z := symbols_between (S (Z.to_nat s)) 33.

Lemma elem_of_symbols_between a b x : x ∈ symbols_between a b <-> Z.of_nat a <= x < Z.of_nat b.
Proof.
  unfold symbols_between. rewrite list_elem_of_fmap. split.
  - intros (i & -> & Hi). apply elem_of_seq in Hi. lia.
  - intros Hx. exists (Z.to_nat x). rewrite elem_of_seq. lia.
Qed.

Lemma symbols_between_app a b c : (a <= b <= c)%nat -> symbols_between a c = symbols_between a b ++ symbols_between b c.
Proof.
  intros H. unfold symbols_between. rewrite <- fmap_app. f_equal.
  replace (c - a)%nat with ((b - a) + (c - b))%nat by lia. rewrite seq_app. do 2 f_equal. lia.
Qed.

Lemma symbols_between_cons a b : (a < b)%nat -> symbols_between a b = Z.of_nat a :: symbols_between (S a) b.
Proof. intros H. unfold symbols_between. replace (b - a)%nat with (S (b - S a)) by lia. reflexivity. Qed.

(** The symbols around [s]. *)
Lemma all_symbols_split s : 0 <= s <= 32 -> all_symbols = symbols_below s ++ s :: symbols_above s.
Proof.
  intros Hs. unfold all_symbols, symbols_below, symbols_above. rewrite (symbols_between_app 0 (Z.to_nat s) 33) by lia.
  rewrite (symbols_between_cons (Z.to_nat s) 33) by lia. now rewrite Z2Nat.id by lia.
Qed.

Lemma symbols_below_succ s : 0 <= s -> symbols_below (s + 1) = symbols_below s ++ [s].
Proof.
  intros Hs. unfold symbols_below. rewrite (symbols_between_app 0 (Z.to_nat s) (Z.to_nat (s + 1))) by lia.
  rewrite (symbols_between_cons (Z.to_nat s)) by lia. unfold symbols_between at 2.
  replace (Z.to_nat (s + 1) - S (Z.to_nat s))%nat with 0%nat by lia. now rewrite Z2Nat.id by lia.
Qed.

(** ** Lists of leaves *)

Lemma flat_map_nil {A B : Type} (g : A -> list B) l : (forall x, x ∈ l -> g x = []) -> flat_map g l = [].
Proof.
  intros H. induction l as [|x l IH]; [done|]. cbn. rewrite (H x) by apply list_elem_of_here.
  apply IH. intros y Hy. apply H. now apply list_elem_of_further.
Qed.

Lemma elem_of_flat_map {A B : Type} (g : A -> list B) l y : y ∈ flat_map g l <-> exists x, x ∈ l /\ y ∈ g x.
Proof.
  rewrite list_elem_of_In, in_flat_map. split; intros (x & H1 & H2); exists x; now rewrite !list_elem_of_In in *.
Qed.

Lemma map_flat_map {A B C : Type} (k : B -> C) (g : A -> list B) l : k <$> flat_map g l = flat_map (fun x => k <$> g x) l.
Proof. induction l as [|x l IH]; [done|]. cbn. now rewrite fmap_app, IH. Qed.

Lemma flat_map_ext_elem {A B : Type} (g g' : A -> list B) l : (forall x, x ∈ l -> g x = g' x) -> flat_map g l = flat_map g' l.
Proof.
  intros H. induction l as [|x l IH]; [done|]. cbn. rewrite (H x) by apply list_elem_of_here. f_equal.
  apply IH. intros y Hy. apply H. now apply list_elem_of_further.
Qed.

Lemma last_of_app {A : Type} (l l' : list A) x : last l' = Some x -> last (l ++ l') = Some x.
Proof. intros H. rewrite last_app. now rewrite H. Qed.

(** ** Sorted concatenations *)

Section sorted.
Context {A B : Type} (R : B -> B -> Prop) (Rs : A -> A -> Prop).

Lemma sorted_app l1 l2 :
  StronglySorted R l1 -> StronglySorted R l2 -> (forall x y, x ∈ l1 -> y ∈ l2 -> R x y) -> StronglySorted R (l1 ++ l2).
Proof.
  intros H1 H2 H. induction H1 as [|x l1 H1 IH Hx]; [done|]. cbn. constructor.
  - apply IH. intros y z Hy Hz. apply H; [now apply list_elem_of_further|done].
  - apply Forall_app. split; [done|]. apply Forall_forall. intros y Hy. apply H; [apply list_elem_of_here|done].
Qed.

Lemma sorted_app_r l1 l2 : StronglySorted R (l1 ++ l2) -> StronglySorted R l2.
Proof. induction l1 as [|x l1 IH]; [done|]. cbn. intros H. inversion H. auto. Qed.

Lemma sorted_app_inv l1 l2 x y : StronglySorted R (l1 ++ l2) -> x ∈ l1 -> y ∈ l2 -> R x y.
Proof.
  induction l1 as [|z l1 IH]; intros H Hx Hy; [now apply not_elem_of_nil in Hx|]. cbn in H. inversion H as [|? ? H1 H2]; subst.
  apply elem_of_cons in Hx as [->|Hx]; [|now apply IH].
  rewrite Forall_app in H2. now apply (proj1 (Forall_forall _ _) (proj2 H2)).
Qed.

Lemma sorted_flat_map g l :
  StronglySorted Rs l -> (forall a, a ∈ l -> StronglySorted R (g a)) ->
  (forall a b x y, a ∈ l -> b ∈ l -> Rs a b -> x ∈ g a -> y ∈ g b -> R x y) ->
  StronglySorted R (flat_map g l).
Proof.
  intros Hl Hg H. induction Hl as [|a l Hl IH Ha]; [constructor|]. cbn. apply sorted_app.
  - apply Hg, list_elem_of_here.
  - apply IH; [intros b Hb; apply Hg; now apply list_elem_of_further|].
    intros b b' x y Hb Hb'. apply H; now apply list_elem_of_further.
  - intros x y Hx Hy. apply elem_of_flat_map in Hy as (b & Hb & Hy).
    apply (H a b x y); [apply list_elem_of_here|now apply list_elem_of_further| |done|done].
    now apply (proj1 (Forall_forall _ _) Ha).
Qed.
End sorted.

Lemma symbols_sorted a b : StronglySorted Z.lt (symbols_between a b).
Proof.
  unfold symbols_between. generalize (b - a)%nat as n. intros n. revert a. induction n as [|n IH]; intros a; [constructor|].
  cbn. constructor; [apply IH|]. apply Forall_forall. intros x Hx. apply list_elem_of_fmap in Hx as (i & -> & Hi).
  apply elem_of_seq in Hi. lia.
Qed.

(** ** The leaves of a trie *)

Fixpoint leaves (n : tnode) : list Z :=
  match n with
  | TLeaf kv => [kv]
  | TJump _ child => leaves child
  | TBitmap f => flat_map (fun s => match f s with Some c => leaves c | None => [] end) all_symbols
  end.

(** The key of an object, and the order of keys. *)
Definition key_of (m : gmap Z ct_kv) (kv : Z) : list Z := from_option kv_key [] (m !! kv).
Definition key_lt (a b : list Z) : Prop := key_compare a b = Lt.

#[export] Instance key_lt_trans : Transitive key_lt.
Proof. intros a b c. apply key_compare_lt_trans. Qed.

Lemma key_lt_irrefl a : ~ key_lt a a.
Proof. unfold key_lt. now rewrite key_compare_refl. Qed.

Lemma key_lt_total a b : key_lt a b \/ a = b \/ key_lt b a.
Proof.
  unfold key_lt. destruct (key_compare a b) eqn:E; [right; left; now apply key_compare_eq|now left|].
  right. right. rewrite key_compare_antisym, E. reflexivity.
Qed.

Section order.
Variable m : gmap Z ct_kv.

Lemma leaf_ok_key pre kv :
  leaf_ok m pre kv -> bytes_ok (key_of m kv) /\ forall i s, pre !! i = Some s -> symbol_at (key_of m kv) (Z.of_nat i) = s.
Proof. intros (o & Ho & Hok & Hs). unfold key_of. rewrite Ho. cbn. split; [now apply kv_key_ok|exact Hs]. Qed.

Lemma elem_of_leaves n pre kv : trie_ok m n pre -> kv ∈ leaves n <-> leaf_of n kv.
Proof.
  revert pre. induction n as [kv'|syms child IH|g IH] using tnode_ind; intros pre Hok; cbn [leaves leaf_of trie_ok] in *.
  - now rewrite list_elem_of_singleton.
  - apply (IH (pre ++ syms)). apply Hok.
  - rewrite elem_of_flat_map. split.
    + intros (s & _ & Hl). exists s. specialize (Hok s). destruct (g s) as [c|] eqn:E; [|now apply not_elem_of_nil in Hl].
      apply (IH s c E (pre ++ [s])); [apply Hok|done].
    + intros (s & Hl). exists s. specialize (Hok s). destruct (g s) as [c|] eqn:E; [|done]. destruct Hok as (Hs & Hok & _).
      split; [apply elem_of_symbols_between; lia|]. now apply (IH s c E (pre ++ [s])).
Qed.

Lemma leaves_ok n pre kv : trie_ok m n pre -> kv ∈ leaves n -> leaf_ok m pre kv.
Proof. intros Hok Hl. apply (leaf_of_ok m n); [done|]. now apply (elem_of_leaves n pre). Qed.

(** Keys that part ways at a symbol are ordered by it. *)
Lemma keys_diverge pre x y a b :
  bytes_ok a -> bytes_ok b ->
  (forall i s, (pre ++ [x]) !! i = Some s -> symbol_at a (Z.of_nat i) = s) ->
  (forall i s, (pre ++ [y]) !! i = Some s -> symbol_at b (Z.of_nat i) = s) -> x < y -> key_lt a b.
Proof.
  intros Ha Hb Hpa Hpb Hxy. apply (symbol_lt_key_lt a b (Z.of_nat (length pre))); [done..|lia| |].
  - intros j Hj. destruct (lookup_lt_is_Some_2 pre (Z.to_nat j) ltac:(lia)) as [s Hs].
    rewrite <- (Z2Nat.id j) by lia. rewrite (Hpa _ s), (Hpb _ s) by now apply lookup_app_l_Some. reflexivity.
  - rewrite (Hpa _ x), (Hpb _ y); [done|rewrite lookup_app_r, Nat.sub_diag by lia; reflexivity..].
Qed.

Definition kv_lt (x y : Z) : Prop := key_lt (key_of m x) (key_of m y).

Lemma kv_sorted_keys l : StronglySorted kv_lt l -> StronglySorted key_lt (key_of m <$> l).
Proof.
  induction 1 as [|x l _ IH Hx]; [constructor|]. cbn. constructor; [exact IH|]. apply Forall_fmap. exact Hx.
Qed.

Lemma leaves_sorted n pre : trie_ok m n pre -> StronglySorted kv_lt (leaves n).
Proof.
  revert pre. induction n as [kv'|syms child IH|g IH] using tnode_ind; intros pre Hok; cbn [leaves leaf_of trie_ok] in *.
  - repeat constructor.
  - apply (IH (pre ++ syms)), Hok.
  - apply (sorted_flat_map kv_lt Z.lt); [apply symbols_sorted|..].
    + intros s _. specialize (Hok s). destruct (g s) as [c|] eqn:E; [|constructor]. apply (IH s c E (pre ++ [s])), Hok.
    + intros s s' x y _ _ Hlt Hx Hy. pose proof (Hok s) as H1. pose proof (Hok s') as H2.
      destruct (g s) as [c|]; [|now apply not_elem_of_nil in Hx]. destruct (g s') as [c'|]; [|now apply not_elem_of_nil in Hy].
      destruct (leaf_ok_key _ _ (leaves_ok _ _ _ (proj1 (proj2 H1)) Hx)) as [A1 A2].
      destruct (leaf_ok_key _ _ (leaves_ok _ _ _ (proj1 (proj2 H2)) Hy)) as [B1 B2].
      now apply (keys_diverge pre s s').
Qed.
End order.
