(* ===== verification/Linked.v ===== *)
(** * The leaf list and the maximal leaves

    Besides the nodes themselves, the table holds two kinds of links: every
    inner node points to the last leaf below it, and the leaves form a list
    that starts at [min_leaf]. [linked] extends [rep] by the first kind and
    names the leaves of the subtree, [list_ok] is the second. *)

From S2P Require Import Prelude Bits Entry KeyObject State Hashing Symbols Atomics Table Contents Finger Insert Api Lookup Order.
From stdpp Require Import base list gmap sorting.
From Stdlib Require Import ZArith Lia Bool.

#[local] Open Scope Z_scope.

(** A leaf: what identifies its entry, and its key-value object. *)
Record leaf_ref := mk_leaf_ref { lr_hash : Z; lr_color : Z; lr_kv : Z }.

#[export] Instance leaf_ref_eq_dec : EqDecision leaf_ref.
Proof. solve_decision. Defined.

Definition locator_of (x : leaf_ref) : ct_entry_locator :=
  mk_locator (hash_to_bucket (lr_hash x)) (hash_to_tag (lr_hash x)) (lr_color x).

(** The entry of a leaf. *)
Definition leaf_entry (t : cuckoo_trie) (x : leaf_ref) (e : ct_entry) : Prop :=
  (exists p, holds t p (lr_hash x, lr_color x) e) /\
  entry_type e = TYPE_LEAF /\ entry_kv e = lr_kv x /\ entry_dirty e = false.

(** [max_leaf] of an inner node names the last leaf below it. *)
Definition max_leaf_ok (e : ct_entry) (L : list leaf_ref) : Prop :=
  exists x, last L = Some x /\ max_leaf e = locator_of x.

(** [max_child] of a bitmap node is its last child. *)
Definition max_child_ok (e : ct_entry) : Prop :=
  0 <= max_child e <= 32 /\ get_bit (bits_area e) (max_child e) = true /\
  forall s, 0 <= s <= 32 -> get_bit (bits_area e) s = true -> s <= max_child e.

(** Node [n] is stored under hash [h] and color [c], and [L] are its leaves. *)
Fixpoint linked (t : cuckoo_trie) (n : tnode) (h c : Z) (L : list leaf_ref) : Prop :=
  exists p e, holds t p (h, c) e /\
  match n with
  | TLeaf kv => L = [mk_leaf_ref h c kv] /\ leaf_entry t (mk_leaf_ref h c kv) e
  | TJump syms child =>
      entry_type e = TYPE_JUMP /\ entry_jump_size e = Z.of_nat (length syms) /\
      (forall i s, syms !! i = Some s -> get_jump_symbol e (Z.of_nat i) = s) /\ max_leaf_ok e L /\
      linked t child (accumulate_list t h syms) (entry_child_color e) L
  | TBitmap f =>
      entry_type e = TYPE_BITMAP /\ max_leaf_ok e L /\ max_child_ok e /\
      exists g, L = flat_map g all_symbols /\
      forall s, 0 <= s <= 32 ->
        match f s with
        | None => get_bit (bits_area e) s = false /\ g s = []
        | Some ch => get_bit (bits_area e) s = true /\
                     exists c', linked t ch (accumulate_hash t h s) c' (g s) /\ child_of t h c s c'
        end
  end.

(** The conjuncts of [linked] at entry [e]. *)
Definition linked_at (t : cuckoo_trie) (n : tnode) (e : ct_entry) (h c : Z) (L : list leaf_ref) : Prop :=
  match n with
  | TLeaf kv => L = [mk_leaf_ref h c kv] /\ leaf_entry t (mk_leaf_ref h c kv) e
  | TJump syms child =>
      entry_type e = TYPE_JUMP /\ entry_jump_size e = Z.of_nat (length syms) /\
      (forall i s, syms !! i = Some s -> get_jump_symbol e (Z.of_nat i) = s) /\ max_leaf_ok e L /\
      linked t child (accumulate_list t h syms) (entry_child_color e) L
  | TBitmap f =>
      entry_type e = TYPE_BITMAP /\ max_leaf_ok e L /\ max_child_ok e /\
      exists g, L = flat_map g all_symbols /\
      forall s, 0 <= s <= 32 ->
        match f s with
        | None => get_bit (bits_area e) s = false /\ g s = []
        | Some ch => get_bit (bits_area e) s = true /\
                     exists c', linked t ch (accumulate_hash t h s) c' (g s) /\ child_of t h c s c'
        end
  end.

Lemma linked_unfold t n h c L : linked t n h c L <-> exists p e, holds t p (h, c) e /\ linked_at t n e h c L.
Proof. destruct n; reflexivity. Qed.

Lemma linked_at_inner t n e h c L :
  is_leaf n = false -> linked_at t n e h c L -> entry_type e <> TYPE_LEAF /\ max_leaf_ok e L.
Proof.
  intros Hl Hn. destruct n as [kv|syms child|g]; [discriminate| |].
  - destruct Hn as (Ht & _ & _ & Hm & _). rewrite Ht. split; [discriminate|exact Hm].
  - destruct Hn as (Ht & Hm & _). rewrite Ht. split; [discriminate|exact Hm].
Qed.

Lemma linked_rep t n h c L : linked t n h c L -> rep t n h c.
Proof.
  revert h c L. induction n as [kv|syms child IH|g IH] using tnode_ind; intros h c L (p & e & Hh & Hn);
    exists p, e; (split; [exact Hh|]).
  - now destruct Hn as (_ & _ & Ht & Hk & _).
  - destruct Hn as (Ht & Hs & Hsym & _ & Hl). split; [exact Ht|]. split; [exact Hs|]. split; [exact Hsym|]. exact (IH _ _ _ Hl).
  - destruct Hn as (Ht & _ & _ & G & _ & Hl). split; [exact Ht|]. intros s Hs. specialize (Hl s Hs).
    destruct (g s) as [ch|] eqn:E; [|exact (proj1 Hl)]. destruct Hl as (Hb & c' & Hl & Hc). split; [exact Hb|].
    exists c'. split; [exact (IH s ch E _ _ _ Hl)|exact Hc].
Qed.

Lemma linked_kvs t n h c L : linked t n h c L -> lr_kv <$> L = leaves n.
Proof.
  revert h c L. induction n as [kv|syms child IH|g IH] using tnode_ind; intros h c L (p & e & Hh & Hn); cbn [leaves].
  - now destruct Hn as (-> & _).
  - exact (IH _ _ _ (proj2 (proj2 (proj2 (proj2 Hn))))).
  - destruct Hn as (_ & _ & _ & G & -> & Hl). rewrite map_flat_map. apply flat_map_ext_elem. intros s Hs.
    apply elem_of_symbols_between in Hs. specialize (Hl s ltac:(lia)). destruct (g s) as [ch|] eqn:E.
    + destruct Hl as (_ & c' & Hl & _). exact (IH s ch E _ _ _ Hl).
    + now rewrite (proj2 Hl).
Qed.

Lemma linked_leaf t n h c L x : linked t n h c L -> x ∈ L -> exists e, leaf_entry t x e.
Proof.
  revert h c L. induction n as [kv|syms child IH|g IH] using tnode_ind; intros h c L (p & e & Hh & Hn) Hx.
  - destruct Hn as (-> & Hl). apply list_elem_of_singleton in Hx as ->. now exists e.
  - exact (IH _ _ _ (proj2 (proj2 (proj2 (proj2 Hn)))) Hx).
  - destruct Hn as (_ & _ & _ & G & -> & Hl). apply elem_of_flat_map in Hx as (s & Hs & Hx).
    apply elem_of_symbols_between in Hs. specialize (Hl s ltac:(lia)). destruct (g s) as [ch|] eqn:E.
    + destruct Hl as (_ & c' & Hl & _). exact (IH s ch E _ _ _ Hl Hx).
    + rewrite (proj2 Hl) in Hx. now apply not_elem_of_nil in Hx.
Qed.

(** Every subtree has a last leaf, and its entry or that entry's [max_leaf]
    names it. *)
Lemma linked_last t n h c L :
  linked t n h c L -> exists x, last L = Some x.
Proof.
  intros H. apply linked_unfold in H as (p & e & _ & Hn). destruct n as [kv|syms child|g].
  - destruct Hn as (-> & _). eauto.
  - destruct Hn as (_ & _ & _ & (x & Hx & _) & _). eauto.
  - destruct Hn as (_ & (x & Hx & _) & _). eauto.
Qed.

(** ** The list *)

(** [e] is followed by the leaf [next], or ends the list. *)
Definition followed_by (e : ct_entry) (next : option leaf_ref) : Prop :=
  match next with
  | Some y => next_leaf e = locator_of y
  | None => loc_primary_bucket (next_leaf e) = NO_BUCKET32
  end.

Record list_ok (t : cuckoo_trie) (L : list leaf_ref) : Prop := mk_list_ok {
  lk_head : exists e, trie_entry t (trie_min_leaf t) = Some e /\ entry_type e = TYPE_LEAF /\ entry_dirty e = false /\
    followed_by e (L !! 0%nat);
  lk_next : forall i x e, L !! i = Some x -> leaf_entry t x e -> followed_by e (L !! S i);
}.

(** The table stores trie [n], with the leaves [L] in order. *)
Record ordered_rep (s : state) (n : tnode) (L : list leaf_ref) : Prop := mk_ordered_rep {
  or_rep : trie_rep s n;
  or_linked : linked (trie s) n HASH_START_VALUE ROOT_COLOR L;
  or_list : list_ok (trie s) L;
}.

Lemma ordered_rep_locks s n L ls : ordered_rep s n L -> ordered_rep (set_lock_mgr ls s) n L.
Proof. intros [H1 H2 H3]. split; [now apply trie_rep_locks|exact H2|exact H3]. Qed.

(** The entry of a key is unique. *)
Lemma holds_entry t p p' k e e' : table_ok t -> holds t p k e -> holds t p' k e' -> p = p' /\ e = e'.
Proof.
  intros Ht H1 H2. pose proof (tb_unique t Ht _ _ _ _ _ H1 H2) as ->. split; [done|].
  destruct H1 as (_ & E1 & _). destruct H2 as (_ & E2 & _). congruence.
Qed.

Lemma leaf_entry_unique t x e e' : table_ok t -> leaf_entry t x e -> leaf_entry t x e' -> e = e'.
Proof. intros Ht ((p & H1) & _) ((p' & H2) & _). now destruct (holds_entry _ _ _ _ _ _ Ht H1 H2). Qed.

(** A real leaf is never taken for the end of the list. *)
Lemma locator_not_end t x e : table_ok t -> leaf_entry t x e -> loc_primary_bucket (locator_of x) <> NO_BUCKET32.
Proof.
  intros Ht ((p & H) & _). destruct (holds_ok t Ht _ _ _ H) as (_ & Hh & _). cbn [fst] in Hh.
  destruct (hash_parts t (tb_params t Ht) _ Hh) as (Hb & _). pose proof (params_bound t (tb_params t Ht)).
  cbn [locator_of loc_primary_bucket]. unfold NO_BUCKET32. lia.
Qed.

Section leaf.
Context `{BucketLaws}.

(** Following a locator. *)
Lemma locator_to_entry_spec s x e :
  table_ok (trie s) -> leaf_entry (trie s) x e ->
  exists l, locator_to_entry (locator_of x) s = Ret l s /\ local_ok (trie s) l /\ lc_value l = e /\
    holds (trie s) (last_pos l) (lr_hash x, lr_color x) e.
Proof.
  intros Ht ((p & Hh) & _). destruct (find_by_color_spec (trie s) Ht s p _ _ e eq_refl Hh) as (l & E & Hl & Hp & Hv).
  exists l. split; [exact E|]. split; [done|]. split; [done|]. now rewrite Hp.
Qed.
End leaf.
