(* ===== verification/Spine.v ===== *)
(** * The path of a finger and predecessors (main.c: find_left_descend,
    prefetch_path_child_predecessor, get_predecessor_atomic)

    The finger's path is the spine from the root to the current node. The
    leaves to the left of the spine are the keys before the current node;
    the predecessor search finds the last of them. *)

From S2P Require Import Prelude Bits Entry KeyObject State Hashing Symbols Atomics Table Contents Finger Insert Api Lookup Order Linked.
From stdpp Require Import base list gmap sorting.
From Stdlib Require Import ZArith Lia Bool.

#[local] Open Scope Z_scope.

(** ** Spines *)

Section spine.
Variable t : cuckoo_trie.
(** The root of the trie and all its leaves. *)
Variables (root : tnode) (leaves0 : list leaf_ref).

(** Path entry [pe] is a copy of the node with hash [h] and color [c]; the
    bucket may have been written since it was read. *)
Record at_node (pe : ct_path_entry) (h c : Z) : Prop := mk_at_node {
  an_primary : primary_bucket (pe_entry pe) = hash_to_bucket (entry_hash t (last_pos (pe_entry pe)) (lc_value (pe_entry pe)));
  an_holds : holds t (last_pos (pe_entry pe)) (h, c) (lc_value (pe_entry pe));
  an_hash : pe_prefix_hash pe = h;
}.

(** The leaves [g] below the children [f] of a bitmap node with entry [e]. *)
Definition children_at (f : Z -> option tnode) (e : ct_entry) (h c : Z) (g : Z -> list leaf_ref) : Prop :=
  forall s, 0 <= s <= 32 ->
    match f s with
    | None => get_bit (bits_area e) s = false /\ g s = []
    | Some ch => get_bit (bits_area e) s = true /\
                 exists c', linked t ch (accumulate_hash t h s) c' (g s) /\ child_of t h c s c'
    end.

Definition pe_value (pe : ct_path_entry) : ct_entry := lc_value (pe_entry pe).

(** [spine P n h c L B pre]: the path [P] leads from the root to node [n] by
    the symbols [pre], [L] are the leaves below [n] and [B] those to the left
    of the path. *)
Inductive spine : list ct_path_entry -> tnode -> Z -> Z -> list leaf_ref -> list leaf_ref -> list Z -> Prop :=
| spine_root pe :
    at_node pe HASH_START_VALUE ROOT_COLOR ->
    linked_at t root (pe_value pe) HASH_START_VALUE ROOT_COLOR leaves0 ->
    spine [pe] root HASH_START_VALUE ROOT_COLOR leaves0 [] []
| spine_jump P pe pe' syms child h c L B pre :
    spine P (TJump syms child) h c L B pre -> last P = Some pe ->
    at_node pe' (accumulate_list t h syms) (entry_child_color (pe_value pe)) ->
    linked_at t child (pe_value pe') (accumulate_list t h syms) (entry_child_color (pe_value pe)) L ->
    spine (P ++ [pe']) child (accumulate_list t h syms) (entry_child_color (pe_value pe)) L B (pre ++ syms)
| spine_bitmap P pe pe' f g h c L B pre s ch c' :
    spine P (TBitmap f) h c L B pre -> last P = Some pe -> L = flat_map g all_symbols -> children_at f (pe_value pe) h c g ->
    0 <= s <= 32 -> f s = Some ch -> child_of t h c s c' ->
    at_node pe' (accumulate_hash t h s) c' -> last_symbol (pe_value pe') = s ->
    linked_at t ch (pe_value pe') (accumulate_hash t h s) c' (g s) ->
    spine (P ++ [pe']) ch (accumulate_hash t h s) c' (g s) (B ++ flat_map g (symbols_below s)) (pre ++ [s]).

Lemma spine_length P n h c L B pre : spine P n h c L B pre -> (1 <= length P)%nat.
Proof. destruct 1; rewrite ?length_app; cbn; lia. Qed.

Lemma spine_last P n h c L B pre :
  spine P n h c L B pre -> exists pe, last P = Some pe /\ at_node pe h c /\ linked_at t n (pe_value pe) h c L.
Proof. destruct 1; eexists; rewrite ?last_snoc; (split; [reflexivity|done]). Qed.

(** The children of a bitmap node on the spine. *)
Lemma spine_children P f h c L B pre :
  spine P (TBitmap f) h c L B pre ->
  exists pe g, last P = Some pe /\ at_node pe h c /\ entry_type (pe_value pe) = TYPE_BITMAP /\
    L = flat_map g all_symbols /\ children_at f (pe_value pe) h c g.
Proof.
  intros H. destruct (spine_last _ _ _ _ _ _ _ H) as (pe & Hl & Ha & Ht & _ & _ & g & HL & Hg). exists pe, g. done.
Qed.

(** The nearest bitmap node above a path position. *)
Lemma bitmap_above_app P R n : (n <= length P)%nat -> bitmap_above (P ++ R) n = bitmap_above P n.
Proof.
  induction n as [|n IH]; intros Hn; [done|]. cbn [bitmap_above]. rewrite lookup_app_l by lia.
  destruct (P !! n); [|done]. rewrite IH by lia. done.
Qed.

Lemma bitmap_above_last P pe pe' :
  last P = Some pe ->
  bitmap_above (P ++ [pe']) (length P) =
  if entry_type (pe_value pe) =? TYPE_BITMAP then Some (length P - 1)%nat else bitmap_above P (length P - 1).
Proof.
  intros Hl. apply last_Some in Hl as (Q & ->). rewrite length_app. cbn [length]. replace (length Q + 1)%nat with (S (length Q)) by lia.
  cbn [bitmap_above]. rewrite lookup_app_l by (rewrite length_app; cbn; lia). rewrite lookup_app_r, Nat.sub_diag by lia. cbn [lookup list_lookup].
  replace (S (length Q) - 1)%nat with (length Q) by lia.
  fold (pe_value pe). destruct (_ =? _); [done|]. rewrite <- app_assoc, !bitmap_above_app by lia. done.
Qed.

(** The spine up to the nearest bitmap node above: the leaves to its left, and
    those below its lesser children, are the leaves to the left of the node,
    and the leaves below the child on the spine are the node's. *)
Definition above_bitmap (P : list ct_path_entry) (L B : list leaf_ref) (up : nat) : Prop :=
  exists f h c L1 B1 pre pe g s below,
    spine (take (S up) P) (TBitmap f) h c L1 B1 pre /\ length (take (S up) P) = S up /\
    last (take (S up) P) = Some pe /\ at_node pe h c /\ L1 = flat_map g all_symbols /\ children_at f (pe_value pe) h c g /\
    P !! S up = Some below /\ last_symbol (pe_value below) = s /\ 0 <= s <= 32 /\ g s = L /\
    B = B1 ++ flat_map g (symbols_below s).

Lemma above_bitmap_snoc P pe' L B up : above_bitmap P L B up -> above_bitmap (P ++ [pe']) L B up.
Proof.
  intros (f & h & c & L1 & B1 & pre & pe & g & s & below & H1 & H2 & H3 & H4 & H5 & H6 & H7 & H8).
  pose proof (lookup_lt_Some _ _ _ H7) as Hlt. exists f, h, c, L1, B1, pre, pe, g, s, below.
  rewrite take_app_le by lia. rewrite lookup_app_l by lia. done.
Qed.

Lemma spine_above P n h c L B pre :
  spine P n h c L B pre ->
  match bitmap_above P (length P - 1) with
  | None => B = []
  | Some up => above_bitmap P L B up
  end.
Proof.
  induction 1 as [pe Ha Hn|P pe pe' syms child h c L B pre Hs IH Hl Ha Hn|
                  P pe pe' f g h c L B pre s ch c' Hs IH Hl HL Hg Hsr Hf Hch Ha Hlast Hn]; [done|..];
    rewrite length_app; cbn [length]; replace (length P + 1 - 1)%nat with (length P) by lia;
    rewrite (bitmap_above_last P pe pe' Hl); destruct (spine_last _ _ _ _ _ _ _ Hs) as (pe1 & Hl1 & Ha1 & Hn1);
    rewrite Hl in Hl1; injection Hl1 as <-; destruct Hn1 as (Ht & Hn1); rewrite Ht; cbn [Z.eqb TYPE_JUMP TYPE_BITMAP Pos.eqb].
  - destruct (bitmap_above P _) as [up|]; [now apply above_bitmap_snoc|exact IH].
  - pose proof (spine_length _ _ _ _ _ _ _ Hs) as Hlen. exists f, h, c, L, B, pre, pe, g, s, pe'.
    replace (S (length P - 1)) with (length P) by lia. rewrite take_app_length. rewrite lookup_app_r, Nat.sub_diag by lia.
    repeat (split; [done|]). done.
Qed.

End spine.

(** ** Reading without interference *)

Section reads.
Context `{BucketLaws} `{Env}.
Variable s : state.
Hypothesis s_table : table_ok (trie s).

Lemma validate_entry_spec l bk :
  trie_bucket (trie s) (pos_bucket (last_pos l)) = Some bk -> seq_part (last_seq l) = seq_part (write_lock_and_seq bk) ->
  validate_entry l s = Ret true s.
Proof.
  intros Hb Hq. unfold validate_entry, read_int_atomic_seq.
  erewrite bind_Ret by (erewrite bind_Ret by (apply get_bucket_spec with (t := trie s); [done|done|exact Hb]); reflexivity).
  now rewrite Hq, Z.eqb_refl.
Qed.

Lemma validate_local l : local_ok (trie s) l -> validate_entry l s = Ret true s.
Proof. intros Hl. destruct (lo_seq _ _ Hl) as (bk & Hb & Hq). now apply (validate_entry_spec l bk). Qed.

Lemma validate_path_spec f k :
  Forall (fun pe => local_ok (trie s) (pe_entry pe)) (path f) -> validate_path_from f k s = Ret true s.
Proof.
  intros Hf. unfold validate_path_from.
  assert (Hd : Forall (fun pe => local_ok (trie s) (pe_entry pe)) (drop k (path f))) by now apply Forall_drop.
  destruct (for_each_inv (fun ok => ok = true) (drop k (path f))
    (fun (ok : bool) pe => if ok then validate_entry (pe_entry pe) else mret false) true s eq_refl) as (a & E & ->); [|exact E].
  intros a pe Hpe ->. exists true. split; [|done]. apply validate_local. exact (proj1 (Forall_forall _ _) Hd pe Hpe).
Qed.

Lemma read_min_leaf_spec e :
  trie_entry (trie s) (trie_min_leaf (trie s)) = Some e ->
  exists l, read_min_leaf s = Ret l s /\ lc_value l = e /\ last_pos l = trie_min_leaf (trie s) /\
    exists bk, trie_bucket (trie s) (pos_bucket (trie_min_leaf (trie s))) = Some bk /\ seq_part (last_seq l) = seq_part (write_lock_and_seq bk).
Proof.
  intros He. destruct (trie_entry_bucket _ _ _ He) as (bk & Hb & _).
  eexists. split; [|split; [|split]].
  - unfold read_min_leaf, get_trie. erewrite bind_Ret by reflexivity.
    erewrite bind_Ret by (apply read_entry_spec; [exact s_table|exact He|exact Hb]). reflexivity.
  - reflexivity.
  - reflexivity.
  - exists bk. done.
Qed.
End reads.

(** ** The search for the predecessor *)

Section predecessor.
Context `{BucketLaws} `{Env}.
Variable s : state.
Hypothesis s_table : table_ok (trie s).
Variables (root : tnode) (leaves0 : list leaf_ref).

(** What [find_left_descend] finds for the leaves [before]: the child of a
    bitmap node on the path whose last leaf is the last of them. *)
Definition left_child (P : list ct_path_entry) (before : list leaf_ref) (r : option (nat * Z)) : Prop :=
  match r with
  | None => before = []
  | Some (bp, sub) =>
      exists f h c pe g ch c', P !! bp = Some pe /\ at_node (trie s) pe h c /\ 0 <= sub <= 32 /\ f sub = Some ch /\
        linked (trie s) ch (accumulate_hash (trie s) h sub) c' (g sub) /\ child_of (trie s) h c sub c' /\
        last before = last (g sub)
  end.

(** The children below [sym] have no leaves beyond those of the last one. *)
Lemma last_child_below f e h c g sym :
  entry_ok e -> children_at (trie s) f e h c g -> 0 <= sym <= 33 ->
  let prev := bitmap_child_before e sym in
  (prev = NO_BUCKET64 /\ flat_map g (symbols_below sym) = []) \/
  (prev <> NO_BUCKET64 /\ 0 <= prev < sym /\ (exists ch, f prev = Some ch) /\
   last (flat_map g (symbols_below sym)) = last (g prev)).
Proof.
  intros He Hg Hsym prev. pose proof (bits_area_ok e He) as Hb.
  assert (Hempty : forall j, 0 <= j < sym -> bit (bits_area e) j = false -> g j = []).
  { intros j Hj Hbit. specialize (Hg j ltac:(lia)). rewrite get_bit_bit, Hbit in Hg by (done || lia).
    destruct (f j); [now destruct Hg|exact (proj2 Hg)]. }
  pose proof (last_bit_before_spec (bits_area e) sym Hb ltac:(lia)) as Hspec. cbv zeta in Hspec.
  subst prev. unfold bitmap_child_before. set (r := last_bit_before (bits_area e) sym) in *.
  destruct Hspec as [[-> Hno]|(Hr & Hbit & Hno)]; [left|right].
  - split; [reflexivity|]. apply flat_map_nil. intros j Hj. apply elem_of_symbols_between in Hj. apply Hempty; [lia|]. apply Hno. lia.
  - rewrite wrap_small by lia. split; [unfold NO_BUCKET64; lia|]. split; [exact Hr|].
    pose proof (Hg r ltac:(lia)) as Hgr. rewrite get_bit_bit, Hbit in Hgr by (done || lia).
    destruct (f r) as [ch|]; [|now destruct Hgr]. split; [eauto|]. destruct Hgr as (_ & c' & Hl & _).
    destruct (linked_last _ _ _ _ _ Hl) as (x & Hx).
    assert (E : symbols_below sym = symbols_below r ++ r :: symbols_between (S (Z.to_nat r)) (Z.to_nat sym)).
    { unfold symbols_below. rewrite (symbols_between_app 0 (Z.to_nat r) (Z.to_nat sym)) by lia. f_equal.
      rewrite symbols_between_cons by lia. now rewrite Z2Nat.id by lia. }
    rewrite E, flat_map_app. cbn [flat_map]. rewrite (flat_map_nil g (symbols_between _ _)).
    + rewrite app_nil_r, last_app, Hx. reflexivity.
    + intros j Hj. apply elem_of_symbols_between in Hj. apply Hempty; [lia|]. apply Hno. lia.
Qed.

Lemma find_left_descend_spec P fuel : forall Q f h c L B pre pe g sym,
  spine (trie s) root leaves0 Q (TBitmap f) h c L B pre -> last Q = Some pe -> at_node (trie s) pe h c ->
  children_at (trie s) f (pe_value pe) h c g ->
  Q = take (length Q) P -> (length Q <= fuel)%nat -> 0 <= sym <= 33 ->
  exists r, find_left_descend fuel P (length Q - 1) sym s = Ret r s /\
    left_child P (B ++ flat_map g (symbols_below sym)) r.
Proof.
  induction fuel as [|fuel IH]; intros Q f h c L B pre pe g sym Hs Hl Ha Hg HQ Hfuel Hsym;
    pose proof (spine_length _ _ _ _ _ _ _ _ _ _ Hs) as Hlen; [lia|].
  assert (Hpe : P !! (length Q - 1)%nat = Some pe).
  { rewrite last_lookup in Hl. assert (E : take (length Q) P !! pred (length Q) = Some pe) by (now rewrite <- HQ).
    apply lookup_take_Some in E as [E _]. now replace (length Q - 1)%nat with (pred (length Q)) by lia. }
  cbn [find_left_descend]. rewrite Hpe. erewrite bind_Ret by reflexivity. fold (pe_value pe).
  pose proof (jump_node_entry _ s_table _ _ _ _ (an_holds _ _ _ _ Ha)) as Hok. fold (pe_value pe) in Hok.
  destruct (last_child_below f (pe_value pe) h c g sym Hok Hg Hsym) as [[E1 E2]|(E1 & E2 & (ch & Ech) & E3)].
  - rewrite E1, Z.eqb_refl, E2, app_nil_r. cbn [negb].
    pose proof (spine_above _ _ _ _ _ _ _ _ _ _ Hs) as Hup.
    assert (Eb : bitmap_above P (length Q - 1) = bitmap_above Q (length Q - 1)).
    { assert (EP : P = Q ++ drop (length Q) P) by (rewrite HQ at 1; symmetry; apply take_drop).
      rewrite EP at 1. apply bitmap_above_app. lia. }
    rewrite Eb. destruct (bitmap_above Q (length Q - 1)) as [up|]; [|exists None; done].
    destruct Hup as (f1 & h1 & c1 & L1 & B1 & pre1 & pe1 & g1 & s1 & below & U1 & U2 & U3 & U4 & U5 & U6 & U7 & U8 & U9 & U10 & ->).
    assert (Hbelow : P !! S up = Some below).
    { rewrite HQ in U7. now apply lookup_take_Some in U7 as [U7 _]. }
    rewrite Hbelow. erewrite bind_Ret by reflexivity. change (lc_value (pe_entry below)) with (pe_value below). rewrite U8.
    pose proof (lookup_lt_Some _ _ _ U7) as Hlt.
    assert (Et : take (S up) Q = take (S up) P) by (rewrite HQ, take_take; f_equal; lia).
    assert (HQ1 : take (S up) Q = take (length (take (S up) Q)) P) by (rewrite U2; exact Et).
    pose proof (IH _ f1 h1 c1 L1 B1 pre1 pe1 g1 s1 U1 U3 U4 U6 HQ1 ltac:(rewrite U2; lia) ltac:(clear - U9; lia)) as R.
    rewrite U2 in R. replace (S up - 1)%nat with up in R by lia. exact R.
  - destruct (Z.eqb_spec (bitmap_child_before (pe_value pe) sym) NO_BUCKET64) as [|_]; [done|]. cbn [negb].
    eexists. split; [reflexivity|]. cbn [left_child]. pose proof (Hg (bitmap_child_before (pe_value pe) sym) ltac:(lia)) as Hgp. rewrite Ech in Hgp.
    destruct Hgp as (_ & c' & Hlk & Hch). exists f, h, c, pe, g, ch, c'. split; [exact Hpe|]. split; [exact Ha|].
    split; [lia|]. repeat (split; [done|]). destruct (linked_last _ _ _ _ _ Hlk) as (x & Hx). rewrite Hx. apply last_of_app. now rewrite E3.
Qed.

(** The leaf before a position: the last of the leaves [before], or the head
    of the leaf list. *)
Definition leaf_before (before : list leaf_ref) (e : ct_entry) : Prop :=
  match last before with
  | Some x => leaf_entry (trie s) x e
  | None => trie_entry (trie s) (trie_min_leaf (trie s)) = Some e
  end.

(** The copy of that leaf: valid, or the head of the list. *)
Definition pred_copy (before : list leaf_ref) (l : ct_entry_local_copy) : Prop :=
  match last before with
  | Some x => local_ok (trie s) l /\ holds (trie s) (last_pos l) (lr_hash x, lr_color x) (lc_value l) /\ leaf_entry (trie s) x (lc_value l)
  | None => last_pos l = trie_min_leaf (trie s) /\ trie_entry (trie s) (trie_min_leaf (trie s)) = Some (lc_value l) /\
      exists bk, trie_bucket (trie s) (pos_bucket (last_pos l)) = Some bk /\ seq_part (last_seq l) = seq_part (write_lock_and_seq bk)
  end.

Lemma pred_copy_leaf before l : pred_copy before l -> leaf_before before (lc_value l).
Proof. unfold pred_copy, leaf_before. destruct (last before); [now intros (_ & _ & Hx)|now intros (_ & Hx & _)]. Qed.

(** What [prefetch_path_child_predecessor] makes of it. *)
Definition locator_at (t : cuckoo_trie) (P : list ct_path_entry) (r : option (nat * Z)) : ct_pred_locator :=
  match r with
  | None => no_predecessor
  | Some (bp, sub) =>
      match P !! bp with
      | None => no_predecessor
      | Some pe =>
          let h := accumulate_hash t (pe_prefix_hash pe) sub in
          mk_pred_locator bp (hash_to_bucket h) (entry_color (pe_value pe)) sub (hash_to_tag h)
      end
  end.

(** From where on [get_predecessor_atomic] validates the path. *)
Definition validated_from (r : option (nat * Z)) : nat := match r with Some (bp, _) => bp | None => 0 end.

Lemma left_child_leaf f bp sub before (ok : bool) :
  validate_path_from f bp s = Ret ok s -> left_child (path f) before (Some (bp, sub)) ->
  exists l, pred_copy before l /\
    get_predecessor_atomic f (locator_at (trie s) (path f) (Some (bp, sub))) s = Ret (if ok then Some l else None) s.
Proof.
  intros Hval (f0 & h & c & pe & g & ch & c' & Hpe & Ha & Hleft & Hch & Hlk & Hchild & Hlast).
  unfold locator_at. rewrite Hpe. cbv zeta.
  rewrite (an_hash _ _ _ _ Ha). pose proof (an_holds _ _ _ _ Ha) as Hh. pose proof Hh as (_ & _ & _ & Hk). injection Hk as _ Hc.
  fold (pe_value pe) in Hc. rewrite Hc.
  destruct (holds_ok _ s_table _ _ _ Hh) as (_ & Hhok & Hcol). cbn [fst snd] in Hhok, Hcol.
  destruct (find_child_spec s h c sub c' s_table Hchild ltac:(lia)) as (l & El & Hl & Hhl & _).
  pose proof (linked_last _ _ _ _ _ Hlk) as (x & Hx). rewrite Hx in Hlast.
  unfold pred_copy. rewrite Hlast. unfold get_predecessor_atomic. cbn [sub_primary_bucket sub_tag sub_last_symbol sub_parent_color sub_path_pos].
  destruct (holds_ok _ s_table _ _ _ Hhl) as (_ & Hhl' & _). cbn [fst] in Hhl'.
  destruct (hash_parts _ (tb_params _ s_table) _ Hhl') as (Hb & _). pose proof (params_bound _ (tb_params _ s_table)) as Hn.
  destruct (Z.eqb_spec (hash_to_bucket (accumulate_hash (trie s) h sub)) NO_BUCKET64) as [Eno|_]; [unfold NO_BUCKET64 in Eno; lia|].
  apply linked_unfold in Hlk as (p & e & Hh' & Hn'). destruct (holds_entry _ _ _ _ _ _ s_table Hh' Hhl) as [_ ->].
  pose proof (linked_unfold (trie s) ch (accumulate_hash (trie s) h sub) c' (g sub)) as [_ Hfold].
  specialize (Hfold (ex_intro _ p (ex_intro _ (lc_value l) (conj Hh' Hn')))).
  destruct (is_leaf ch) eqn:Eleaf.
  - destruct ch as [kv| |]; try discriminate. destruct Hn' as (Eg & Hle). rewrite Eg in Hx. injection Hx as <-.
    exists l. split; [split; [exact Hl|split; [exact Hhl|exact Hle]]|].
    destruct Hle as (_ & Ht & _ & Hd). erewrite bind_Ret by exact El. rewrite Ht, Z.eqb_refl. erewrite bind_Ret by apply Hval.
    destruct ok; cbn [negb]; [now rewrite Hd|reflexivity].
  - destruct (linked_at_inner _ _ _ _ _ _ Eleaf Hn') as (Ht & y & Hy & Hml). rewrite Hx in Hy. injection Hy as <-.
    destruct (linked_leaf _ _ _ _ _ x Hfold) as (e & Hle);
      [apply last_Some in Hx as (L' & ->); apply elem_of_app; right; apply list_elem_of_here|].
    destruct (locator_to_entry_spec s x e s_table Hle) as (l2 & El2 & Hl2 & Hv & Hh2). subst e. exists l2. split; [split; [exact Hl2|split; [exact Hh2|exact Hle]]|].
    destruct Hle as (_ & Ht2 & _ & Hd2). erewrite bind_Ret by exact El. rewrite (proj2 (Z.eqb_neq _ _) Ht).
    rewrite Hml. erewrite bind_Ret by exact El2. rewrite Ht2. cbn [Z.eqb TYPE_LEAF Pos.eqb negb]. erewrite bind_Ret by apply Hval.
    destruct ok; cbn [negb]; [|reflexivity]. erewrite bind_Ret by now apply validate_local. cbn [negb]. now rewrite Hd2.
Qed.

(** From a bitmap node on the path: where the leaf before its child [sym] is
    found, and the leaf. *)
Lemma prefetch_spec f Q R f0 h c L B pre pe g sym :
  path f = Q ++ R -> spine (trie s) root leaves0 Q (TBitmap f0) h c L B pre -> last Q = Some pe -> at_node (trie s) pe h c ->
  children_at (trie s) f0 (pe_value pe) h c g -> 0 <= sym <= 33 ->
  exists r, prefetch_path_child_predecessor f (length Q - 1) sym s = Ret (locator_at (trie s) (path f) r) s /\
    left_child (path f) (B ++ flat_map g (symbols_below sym)) r.
Proof.
  intros Ef Hs Hl Ha Hg Hsym. assert (EQ : Q = take (length Q) (path f)) by (now rewrite Ef, take_app_length).
  assert (Hlen : (length Q <= length (path f))%nat) by (rewrite Ef, length_app; lia).
  destruct (find_left_descend_spec (path f) (length (path f)) Q f0 h c L B pre pe g sym Hs Hl Ha Hg EQ Hlen Hsym) as (r & Er & Hr).
  exists r. split; [|exact Hr]. unfold prefetch_path_child_predecessor. erewrite bind_Ret by exact Er. destruct r as [[bp sub]|]; [|reflexivity].
  destruct Hr as (f1 & h1 & c1 & pe1 & g1 & ch & c' & Hpe & _). cbv iota beta. unfold locator_at. rewrite Hpe. erewrite bind_Ret by reflexivity.
  unfold get_trie. erewrite bind_Ret by reflexivity. reflexivity.
Qed.

Lemma get_predecessor_validated f before r e (ok : bool) :
  left_child (path f) before r -> validate_path_from f (validated_from r) s = Ret ok s ->
  trie_entry (trie s) (trie_min_leaf (trie s)) = Some e ->
  exists l, get_predecessor_atomic f (locator_at (trie s) (path f) r) s = Ret (if ok then Some l else None) s /\ pred_copy before l.
Proof.
  intros Hr Hval He. destruct r as [[bp sub]|].
  - destruct (left_child_leaf f bp sub _ ok Hval Hr) as (l & Hlf & Eg). eauto.
  - cbn [left_child] in Hr. destruct (read_min_leaf_spec s s_table e He) as (l & El & Hv & Hp & Hq).
    exists l. split.
    + unfold get_predecessor_atomic, locator_at, no_predecessor. cbn [sub_primary_bucket]. rewrite Z.eqb_refl.
      erewrite bind_Ret by exact El. erewrite bind_Ret by exact Hval. reflexivity.
    + unfold pred_copy. rewrite Hr. cbn [last]. rewrite Hv. split; [done|]. split; [exact He|]. now rewrite Hp.
Qed.

Lemma get_predecessor_spec f before r e :
  left_child (path f) before r -> Forall (fun pe => local_ok (trie s) (pe_entry pe)) (path f) ->
  trie_entry (trie s) (trie_min_leaf (trie s)) = Some e ->
  exists l, get_predecessor_atomic f (locator_at (trie s) (path f) r) s = Ret (Some l) s /\ pred_copy before l.
Proof.
  intros Hr Hpath He. exact (get_predecessor_validated f before r e true Hr (validate_path_spec s s_table f _ Hpath) He).
Qed.

Lemma predecessor_spec f Q R f0 h c L B pre pe g sym e :
  path f = Q ++ R -> spine (trie s) root leaves0 Q (TBitmap f0) h c L B pre -> last Q = Some pe -> at_node (trie s) pe h c ->
  children_at (trie s) f0 (pe_value pe) h c g -> 0 <= sym <= 33 ->
  Forall (fun pe => local_ok (trie s) (pe_entry pe)) (path f) ->
  trie_entry (trie s) (trie_min_leaf (trie s)) = Some e ->
  exists pl l, prefetch_path_child_predecessor f (length Q - 1) sym s = Ret pl s /\
    get_predecessor_atomic f pl s = Ret (Some l) s /\ leaf_before (B ++ flat_map g (symbols_below sym)) (lc_value l).
Proof.
  intros Ef Hs Hl Ha Hg Hsym Hpath He. destruct (prefetch_spec f Q R f0 h c L B pre pe g sym Ef Hs Hl Ha Hg Hsym) as (r & Er & Hr).
  destruct (get_predecessor_spec f _ r e Hr Hpath He) as (l & El & Hl2). eexists _, l. split; [exact Er|]. split; [exact El|].
  now apply pred_copy_leaf.
Qed.
End predecessor.
