(* ===== verification/Sample.v ===== *)
(** * Deciding the invariants of a concrete table

    Boolean versions of [table_ok] and of the representation of a trie, with
    their soundness, and the trie they read back from a table: with them a
    property is applied to a trie built by the operations themselves. *)

From S2P Require Import Prelude Bits Entry KeyObject State Hashing Symbols Random Atomics Table Contents Scalar Finger Insert Api Alloc Lookup.
From stdpp Require Import base list gmap.
From Stdlib Require Import ZArith Lia Bool.

#[local] Open Scope Z_scope.

(** ** The table *)

Definition entry_okb (e : ct_entry) : bool :=
  (length e =? ENTRY_BYTES)%nat && forallb (fun b => (0 <=? b) && (b <? 256)) e.

Definition cell_okb (e : ct_entry) : bool :=
  if used e then entry_color e <=? MAX_VALID_COLOR
  else (entry_color e =? INVALID_COLOR) && (entry_parent_color e =? INVALID_COLOR).

Definition bucket_okb (b : ct_bucket) : bool :=
  (length (cells b) =? CUCKOO_BUCKET_SIZE)%nat && forallb entry_okb (cells b)
  && (0 <=? write_lock_and_seq b) && (write_lock_and_seq b <? 2 ^ 32)
  && (write_lock_and_seq b .& SEQ_INCREMENT =? 0).

Definition params_okb (t : cuckoo_trie) : bool :=
  (num_buckets t mod 64 =? 0) && (0 <? num_buckets t) && (num_buckets t <? 2 ^ 32 - 1)
  && (num_pairs t =? 16 * num_buckets t) && (num_shuffle_blocks t =? num_pairs t / 32)
  && (length (bucket_mix_table t) =? 16)%nat
  && forallb (fun v => (0 <? v) && (v <? num_buckets t)) (bucket_mix_table t).

(** All cells of the table proper, with their positions. *)
Definition all_cells (t : cuckoo_trie) : list (pos * ct_entry) :=
  flat_map (fun i =>
    match trie_bucket t (Z.of_nat i) with
    | Some b => map (fun '(c, e) => (mk_pos (Z.of_nat i) c, e)) (zip (seq 0 (length (cells b))) (cells b))
    | None => []
    end) (seq 0 (Z.to_nat (num_buckets t))).

Definition used_cells (t : cuckoo_trie) : list (pos * ct_entry) := List.filter (fun '(_, e) => used e) (all_cells t).

Definition key_eqb (k k' : Z * Z) : bool := (fst k =? fst k') && (snd k =? snd k').

Fixpoint distinct (l : list (Z * Z)) : bool :=
  match l with
  | [] => true
  | k :: l' => negb (existsb (key_eqb k) l') && distinct l'
  end.

Definition table_okb (t : cuckoo_trie) : bool :=
  params_okb t && (Z.of_nat (length (buckets t)) =? num_buckets t + 1) && forallb bucket_okb (buckets t)
  && forallb (fun '(_, e) => cell_okb e) (all_cells t)
  && distinct (map (fun '(p, e) => entry_key t p e) (used_cells t)).

Lemma entry_okb_ok e : entry_okb e = true -> entry_ok e.
Proof. apply entry_ok_check. Qed.

Lemma bucket_okb_ok b : bucket_okb b = true -> bucket_ok b /\ quiescent b.
Proof.
  unfold bucket_okb. rewrite !andb_true_iff, Nat.eqb_eq, Z.leb_le, Z.ltb_lt, Z.eqb_eq.
  intros ((((H1 & H2) & H3) & H4) & H5). split; [split|exact H5]; [done| |lia].
  apply List.Forall_forall. intros e He. apply entry_okb_ok. rewrite forallb_forall in H2. auto.
Qed.

Lemma params_okb_ok t : params_okb t = true -> params_ok t.
Proof.
  unfold params_okb. rewrite !andb_true_iff, !Z.eqb_eq, !Z.ltb_lt, Nat.eqb_eq.
  intros ((((((H1 & H2) & H3) & H4) & H5) & H6) & H7). split; try done; try lia.
  apply List.Forall_forall. intros v Hv. rewrite forallb_forall in H7. specialize (H7 v Hv). lia.
Qed.

Lemma all_cells_In t p e :
  trie_entry t p = Some e -> in_table t p -> In (p, e) (all_cells t).
Proof.
  intros He Hp. unfold in_table in Hp. destruct (trie_entry_bucket t p e He) as (b & Hb & Hc). unfold all_cells.
  apply in_flat_map. exists (Z.to_nat (pos_bucket p)). split; [apply in_seq; lia|].
  rewrite Z2Nat.id, Hb by lia. apply in_map_iff. exists (pos_cell p, e).
  split; [now destruct p|]. apply list_elem_of_In, (list_elem_of_lookup_2 _ (pos_cell p)).
  pose proof (lookup_lt_Some _ _ _ Hc) as Hlt.
  apply lookup_zip_with_Some. exists (pos_cell p), e. split; [done|]. split; [|done]. apply lookup_seq. lia.
Qed.

Lemma distinct_inj {A : Type} (g : A -> Z * Z) (l : list A) x y :
  distinct (map g l) = true -> In x l -> In y l -> g x = g y -> x = y.
Proof.
  assert (Hneq : forall k l', negb (existsb (key_eqb k) l') = true -> forall k', In k' l' -> k <> k').
  { intros k l' Hk k' Hin ->. apply negb_true_iff in Hk. rewrite <- not_true_iff_false in Hk. apply Hk.
    apply existsb_exists. exists k'. split; [done|]. unfold key_eqb. now rewrite !Z.eqb_refl. }
  induction l as [|a l IH]; cbn [map distinct]; [easy|]. rewrite andb_true_iff.
  intros [H1 H2] [->|Hx] [->|Hy] E; [done|exfalso|exfalso|now apply IH].
  - apply (Hneq _ _ H1 (g y)); [now apply in_map|done].
  - apply (Hneq _ _ H1 (g x)); [now apply in_map|done].
Qed.

Lemma table_okb_ok t : table_okb t = true -> table_ok t.
Proof.
  unfold table_okb. rewrite !andb_true_iff, Z.eqb_eq. intros ((((H1 & H2) & H3) & H4) & H5).
  rewrite forallb_forall in H3, H4. split.
  - now apply params_okb_ok.
  - done.
  - apply List.Forall_forall. intros b Hb. apply bucket_okb_ok. auto.
  - apply List.Forall_forall. intros b Hb. apply bucket_okb_ok. auto.
  - intros p e Hp He. specialize (H4 (p, e) (all_cells_In t p e He Hp)). cbv beta iota in H4.
    unfold cell_okb, cell_ok in *. destruct (used e); [lia|]. rewrite andb_true_iff, !Z.eqb_eq in H4. tauto.
  - intros p p' k e e' (Hp & He & Hu & Hk) (Hp' & He' & Hu' & Hk').
    assert (Hin : forall q x, in_table t q -> trie_entry t q = Some x -> used x = true -> In (q, x) (used_cells t)).
    { intros q x Hq Hx Hux. apply filter_In. split; [now apply all_cells_In|exact Hux]. }
    pose proof (distinct_inj _ _ (p, e) (p', e') H5 (Hin _ _ Hp He Hu) (Hin _ _ Hp' He' Hu')) as E.
    cbv beta iota in E. rewrite Hk, Hk' in E. now injection (E eq_refl) as <- _.
Qed.

(** ** The trie *)

Definition holder (t : cuckoo_trie) (k : Z * Z) : option (pos * ct_entry) :=
  find (fun '(p, e) => key_eqb (entry_key t p e) k) (used_cells t).

(** The colors of the entries that look like the child by [s]. *)
Definition child_colors (t : cuckoo_trie) (h c s : Z) : list Z :=
  map (fun '(_, e) => entry_color e)
    (List.filter (fun '(p, e) => (entry_hash t p e =? accumulate_hash t h s) && (last_symbol e =? s)
                                 && (entry_parent_color e =? c)) (used_cells t)).

Definition symbols : list Z := map Z.of_nat (seq 0 33).
Definition is_symbol (s : Z) : bool := (0 <=? s) && (s <=? 32).

(** The trie below the entry with hash [h] and color [c]. *)
Fixpoint extract (fuel : nat) (t : cuckoo_trie) (h c : Z) : option tnode :=
  match fuel with
  | O => None
  | S k =>
      match holder t (h, c) with
      | None => None
      | Some (_, e) =>
          if entry_type e =? TYPE_LEAF then Some (TLeaf (entry_kv e))
          else if entry_type e =? TYPE_JUMP then
            let syms := map (fun i => get_jump_symbol e (Z.of_nat i)) (seq 0 (Z.to_nat (entry_jump_size e))) in
            match extract k t (accumulate_list t h syms) (entry_child_color e) with
            | Some child => Some (TJump syms child)
            | None => None
            end
          else
            Some (TBitmap (fun s =>
              if is_symbol s && get_bit (bits_area e) s
              then match child_colors t h c s with
                   | [c'] => extract k t (accumulate_hash t h s) c'
                   | _ => None
                   end
              else None))
      end
  end.

Definition kv_okb (o : ct_kv) : bool :=
  (0 <=? key_size o) && (key_size o <? 2 ^ 31) && (0 <=? value_size o) && (value_size o <? 2 ^ 31)
  && (Z.of_nat (length (kv_bytes o)) =? key_size o + value_size o)
  && forallb (fun b => (0 <=? b) && (b <? 256)) (kv_bytes o).

(** There is a trie below that entry, with what [trie_ok] asks of it. *)
Fixpoint rep_okb (fuel : nat) (m : gmap Z ct_kv) (t : cuckoo_trie) (pre : list Z) (h c : Z) : bool :=
  match fuel with
  | O => false
  | S k =>
      match holder t (h, c) with
      | None => false
      | Some (_, e) =>
          if entry_type e =? TYPE_LEAF then
            match m !! entry_kv e with
            | Some o =>
                kv_okb o && forallb (fun '(i, s) => symbol_at (kv_key o) (Z.of_nat i) =? s) (zip (seq 0 (length pre)) pre)
            | None => false
            end
          else if entry_type e =? TYPE_JUMP then
            let syms := map (fun i => get_jump_symbol e (Z.of_nat i)) (seq 0 (Z.to_nat (entry_jump_size e))) in
            (1 <=? entry_jump_size e) && (entry_jump_size e <=? 8) && forallb (fun s => (1 <=? s) && (s <=? 32)) syms
            && rep_okb k m t (pre ++ syms) (accumulate_list t h syms) (entry_child_color e)
            && match holder t (accumulate_list t h syms, entry_child_color e) with
               | Some (_, e') => negb (entry_type e' =? TYPE_LEAF)
               | None => false
               end
          else
            (entry_type e =? TYPE_BITMAP) &&
            forallb (fun s =>
              negb (get_bit (bits_area e) s) ||
              match child_colors t h c s with
              | [c'] =>
                  rep_okb k m t (pre ++ [s]) (accumulate_hash t h s) c' &&
                  (negb (s =? SYMBOL_END) ||
                   match holder t (accumulate_hash t h s, c') with
                   | Some (_, e') => entry_type e' =? TYPE_LEAF
                   | None => false
                   end)
              | _ => false
              end) symbols
      end
  end.

Lemma kv_okb_ok o : kv_okb o = true -> kv_ok o.
Proof.
  unfold kv_okb, kv_ok. rewrite !andb_true_iff, !Z.leb_le, !Z.ltb_lt, Z.eqb_eq.
  intros (((((H1 & H2) & H3) & H4) & H5) & H6). repeat split; try lia. now apply bytes_ok_check.
Qed.

Lemma used_cells_In t p e :
  table_ok t -> In (p, e) (used_cells t) -> trie_entry t p = Some e /\ in_table t p /\ used e = true.
Proof.
  intros Ht Hin. apply filter_In in Hin as [Hin Hu]. split; [|split; [|exact Hu]].
  - unfold all_cells in Hin. apply in_flat_map in Hin as (i & Hi & Hin).
    destruct (trie_bucket t (Z.of_nat i)) as [b|] eqn:Eb; [|done].
    apply in_map_iff in Hin as ((c & e') & [= <- <-] & Hin).
    apply list_elem_of_In, list_elem_of_lookup_1 in Hin as [j Hj].
    apply lookup_zip_with_Some in Hj as (c2 & e2 & [= <- <-] & Hc & He).
    apply lookup_seq in Hc as [-> _]. unfold trie_entry. cbn. rewrite Eb. cbn. exact He.
  - unfold all_cells in Hin. apply in_flat_map in Hin as (i & Hi & Hin). apply in_seq in Hi.
    destruct (trie_bucket t (Z.of_nat i)) as [b|]; [|done].
    apply in_map_iff in Hin as ((c & e') & [= <- <-] & _). unfold in_table. cbn. lia.
Qed.

Lemma holder_holds t k p e : table_ok t -> holder t k = Some (p, e) -> holds t p k e.
Proof.
  intros Ht E. apply find_some in E as [Hin Hk]. destruct (used_cells_In t p e Ht Hin) as (H1 & H2 & H3).
  split; [exact H2|]. split; [exact H1|]. split; [exact H3|]. unfold key_eqb in Hk. apply andb_true_iff in Hk as [Hk1 Hk2].
  apply Z.eqb_eq in Hk1, Hk2. now apply injective_projections.
Qed.

Lemma child_colors_child t h c s c' :
  table_ok t -> child_colors t h c s = [c'] -> child_of t h c s c'.
Proof.
  intros Ht E. unfold child_colors in E.
  destruct (List.filter _ (used_cells t)) as [|[p e] l] eqn:Ef; [discriminate|]. injection E as Ec El.
  apply map_eq_nil in El. subst l.
  assert (Hin : forall q x, In (q, x) [(p, e)] <-> In (q, x) (used_cells t) /\
    entry_hash t q x = accumulate_hash t h s /\ last_symbol x = s /\ entry_parent_color x = c).
  { intros q x. rewrite <- Ef, filter_In, !andb_true_iff, !Z.eqb_eq. tauto. }
  destruct (proj1 (Hin p e) (or_introl eq_refl)) as (Hu & H1 & H2 & H3).
  destruct (used_cells_In t p e Ht Hu) as (E1 & E2 & E3). split.
  - exists p, e. split; [|done]. split; [exact E2|]. split; [exact E1|]. split; [exact E3|].
    unfold entry_key. congruence.
  - intros q c'' x (Hq & Hx & Hux & Hk) Hls Hpc. injection Hk as Hk1 Hk2.
    assert (Hqx : In (q, x) [(p, e)]).
    { apply Hin. split; [|done]. apply filter_In. split; [now apply all_cells_In|exact Hux]. }
    destruct Hqx as [[= <- <-]|[]]. congruence.
Qed.

Lemma symbols_check (P : Z -> bool) s : forallb P symbols = true -> 0 <= s <= 32 -> P s = true.
Proof. intros H Hs. apply (forallb_below 33); [exact H|lia]. Qed.

Lemma rep_okb_ok fuel m t pre h c :
  table_ok t -> rep_okb fuel m t pre h c = true ->
  exists n, extract fuel t h c = Some n /\ rep t n h c /\ trie_ok m n pre.
Proof.
  intros Ht. revert pre h c. induction fuel as [|k IH]; intros pre h c E; [discriminate|].
  cbn [rep_okb extract] in *. destruct (holder t (h, c)) as [[p e]|] eqn:Eh; [|discriminate].
  pose proof (holder_holds t _ p e Ht Eh) as Hh.
  destruct (Z.eqb_spec (entry_type e) TYPE_LEAF) as [Et|_]; [|destruct (Z.eqb_spec (entry_type e) TYPE_JUMP) as [Et|_]].
  - exists (TLeaf (entry_kv e)). split; [done|]. split; [exists p, e; done|].
    destruct (m !! entry_kv e) as [o|] eqn:Eo; [|discriminate]. apply andb_true_iff in E as [E1 E2].
    exists o. split; [exact Eo|]. split; [now apply kv_okb_ok|]. intros i s Hi. rewrite forallb_forall in E2.
    specialize (E2 (i, s)). apply Z.eqb_eq, E2.
    apply list_elem_of_In, (list_elem_of_lookup_2 _ i), lookup_zip_with_Some.
    exists i, s. split; [done|]. split; [|done]. apply lookup_seq. apply lookup_lt_Some in Hi. lia.
  - set (syms := map _ _) in *. rewrite !andb_true_iff, !Z.leb_le in E. destruct E as ((((E1 & E2) & E3) & E4) & E5).
    destruct (IH _ _ _ E4) as (child & Ex & Hr & Hok). rewrite Ex. exists (TJump syms child). split; [done|].
    assert (Hl : length syms = Z.to_nat (entry_jump_size e)) by (unfold syms; now rewrite length_map, length_seq).
    split.
    + exists p, e. split; [done|]. repeat split; [done|lia| |exact Hr]. intros i s Hi.
      unfold syms in Hi. apply list_lookup_fmap_Some in Hi as (j & -> & Hj). apply lookup_seq in Hj as [-> _]. done.
    + split; [lia|]. split; [|split; [exact Hok|]].
      2: { destruct k as [|k']; [discriminate|]. cbn [extract] in Ex.
           destruct (holder t (accumulate_list t h syms, entry_child_color e)) as [[p' e']|]; [|discriminate].
           apply negb_true_iff in E5. rewrite E5 in Ex. destruct (entry_type e' =? TYPE_JUMP); [|now injection Ex as <-].
           destruct (extract k' _ _ _); [|discriminate]. now injection Ex as <-. }
      apply List.Forall_forall. intros s Hs.
      rewrite forallb_forall in E3. specialize (E3 s Hs). lia.
  - apply andb_true_iff in E as [Et E]. apply Z.eqb_eq in Et. eexists. split; [reflexivity|].
    assert (Hbit : forall s, 0 <= s <= 32 -> get_bit (bits_area e) s = true ->
      exists c' n', child_colors t h c s = [c'] /\ extract k t (accumulate_hash t h s) c' = Some n' /\
        rep t n' (accumulate_hash t h s) c' /\ trie_ok m n' (pre ++ [s]) /\ (s = SYMBOL_END -> is_leaf n' = true)).
    { intros s Hs Hb. pose proof (symbols_check _ s E Hs) as Es. cbv beta in Es. rewrite Hb in Es. cbn [negb orb] in Es.
      destruct (child_colors t h c s) as [|c' [|]]; try discriminate. apply andb_true_iff in Es as [Er Ee].
      destruct (IH _ _ _ Er) as (n' & Ex & Hr & Hok). exists c', n'. repeat split; try done.
      intros ->. cbn [Z.eqb SYMBOL_END negb orb] in Ee.
      destruct k as [|k']; [discriminate|]. cbn [extract] in Ex.
      destruct (holder t (accumulate_hash t h SYMBOL_END, c')) as [[p' e']|]; [|discriminate].
      rewrite Ee in Ex. injection Ex as <-. done. }
    split.
    + exists p, e. split; [done|]. split; [done|]. intros s Hs. unfold is_symbol.
      destruct (Z.leb_spec 0 s), (Z.leb_spec s 32); try lia. cbn [andb].
      destruct (get_bit (bits_area e) s) eqn:Eb; [|done].
      destruct (Hbit s Hs Eb) as (c' & n' & Ec & Ex & Hr & _). rewrite Ec, Ex. split; [done|].
      exists c'. split; [exact Hr|]. now apply child_colors_child.
    + intros s. destruct (is_symbol s) eqn:Esym; [|done]. cbn [andb].
      destruct (get_bit (bits_area e) s) eqn:Eb; [|done].
      assert (Hs : 0 <= s <= 32) by (unfold is_symbol in Esym; lia).
      destruct (Hbit s Hs Eb) as (c' & n' & Ec & Ex & _ & Hok & Hend). rewrite Ec, Ex. done.
Qed.

(** ** Whole states *)

Definition trie_rep_okb (fuel : nat) (s : state) : bool :=
  table_okb (trie s) && (is_empty (trie s) =? 0)
  && match holder (trie s) (HASH_START_VALUE, ROOT_COLOR) with Some (p, _) => bool_decide (p = root_pos) | None => false end
  && rep_okb fuel (kv_mem s) (trie s) [] HASH_START_VALUE ROOT_COLOR.

Definition state_trie (fuel : nat) (s : state) : tnode :=
  from_option id (TLeaf 0) (extract fuel (trie s) HASH_START_VALUE ROOT_COLOR).

Lemma trie_rep_okb_ok fuel s : trie_rep_okb fuel s = true -> trie_rep s (state_trie fuel s).
Proof.
  unfold trie_rep_okb, state_trie. rewrite !andb_true_iff, Z.eqb_eq. intros (((H1 & H2) & H3) & H4).
  apply table_okb_ok in H1. destruct (rep_okb_ok _ _ _ _ _ _ H1 H4) as (n & E & Hr & Hok). rewrite E.
  split; try done. destruct (holder (trie s) _) as [[p e]|] eqn:Eh; [|discriminate].
  apply bool_decide_eq_true in H3. subst p. exists e. now apply holder_holds.
Qed.

(** ** A sample trie, built by the operations *)

Definition sample_memory (keys : list (list Z)) : gmap Z ct_kv :=
  list_to_map (imap (fun i k => (65536 + 64 * Z.of_nat i, mk_kv (Z.of_nat (length k)) 0 k)) keys).

Definition sample_address (i : nat) : Z := 65536 + 64 * Z.of_nat i.

(** The pages of an anonymous mapping are filled with zeros. *)
Definition zero_pages (size : Z) : mmap_result := Mapped (replicate (Z.to_nat (Z.min size 12800 / 64)) zero_bucket).

Definition empty_state (keys : list (list Z)) : state :=
  match ct_alloc (S := unit) zero_pages true true 200 tt with
  | Ret (Some t) _ => mk_state t [] (sample_memory keys)
  | _ => mk_state sample_trie [] ∅
  end.

(** The state after inserting the first [n] keys. *)
Definition insert_all (n : nat) (s : state) : outcome state unit :=
  for_each (seq 0 n) (fun _ i => _ ← @ct_insert scalar_ops sample_env (sample_address i); mret tt) tt s.

Definition sample_keys : list (list Z) := [[1; 2; 3]; [1; 2; 4]; [5]; [1; 2; 3; 4; 5; 6; 7; 8; 9]; []].

Definition sample_state : state :=
  match insert_all 5 (empty_state sample_keys) with Ret _ s => s | _ => empty_state sample_keys end.

Lemma sample_state_rep : trie_rep sample_state (state_trie 40 sample_state).
Proof. apply trie_rep_okb_ok. vm_compute. reflexivity. Qed.
