(* ===== verification/IterSpec.v ===== *)
(** * Iterators enumerate the keys in order (main.c: ct_iter_goto, ct_iter_next)

    On a table that stores a trie with its links ([ordered_rep]),
    [ct_iter_goto] places the iterator before the first key that is not
    smaller than the given one, and [ct_iter_next] returns the keys from there
    on, in order. *)

From S2P Require Import Prelude Bits Entry KeyObject State Hashing Symbols Random Atomics Table Contents Scalar Finger Insert Iter Api Alloc Lookup Order Linked Spine Sample.
From stdpp Require Import base list gmap sorting.
From Stdlib Require Import ZArith Lia Bool.

#[local] Open Scope Z_scope.

(** ** How the path of the finger grows *)

Section path.
Context `{BucketOps} `{Env}.

Lemma node_changed_path f s f' s' :
  finger_node_changed f true s = Ret f' s' ->
  path f' = path f ++ [mk_path_entry (containing_entry f) (prefix_hash f)] /\
  containing_entry f' = containing_entry f /\ prefix_hash f' = prefix_hash f.
Proof.
  intros E. unfold finger_node_changed, store_path_entry in E.
  destruct (bind_Ret_inv _ _ _ _ _ E) as (? & ? & _ & E1). destruct (bind_Ret_inv _ _ _ _ _ E1) as (? & ? & _ & E2).
  injection E2 as <- _. done.
Qed.

Definition finger_value (f : ct_finger) : ct_entry := lc_value (containing_entry f).

(** Inside a jump node the path stays, otherwise the new node is added. *)
Lemma try_descend_path f sym h s f' s' :
  try_descend f sym true h s = Ret (Some f') s' ->
  if (entry_type (finger_value f) =? TYPE_JUMP) && negb (depth_in_jump f + 1 =? entry_jump_size (finger_value f))
  then path f' = path f /\ containing_entry f' = containing_entry f
  else path f' = path f ++ [mk_path_entry (containing_entry f') (prefix_hash f')].
Proof.
  intros E. unfold try_descend in E. fold (finger_value f) in E. destruct (_ =? TYPE_LEAF); [discriminate|].
  destruct (_ =? TYPE_JUMP).
  - destruct (negb _); [discriminate|]. cbn [depth_in_jump set_depth_in_jump] in E.
    destruct (_ =? entry_jump_size _); cbn [andb negb].
    + destruct (bind_Ret_inv _ _ _ _ _ E) as (l & ? & _ & E1). destruct (bind_Ret_inv _ _ _ _ _ E1) as (f2 & ? & E2 & E3).
      injection E3 as <- _. destruct (node_changed_path _ _ _ _ E2) as (-> & -> & ->). done.
    + injection E as <- _. done.
  - cbn [andb]. destruct (negb _); [discriminate|].
    destruct (bind_Ret_inv _ _ _ _ _ E) as (l & ? & _ & E1). destruct (bind_Ret_inv _ _ _ _ _ E1) as (f2 & ? & E2 & E3).
    injection E3 as <- _. destruct (node_changed_path _ _ _ _ E2) as (-> & -> & ->). done.
Qed.
End path.

(** ** The descent of [ct_iter_goto_internal] *)

Section goto.
Context `{BucketLaws} `{Env}.
Variables (s : state) (n0 : tnode) (L0 : list leaf_ref).
Hypothesis s_rep : ordered_rep s n0 L0.
Variable bytes : list Z.
Hypothesis bytes_byte : bytes_ok bytes.
Hypothesis bytes_short : Z.of_nat (length bytes) <= 255.

Definition ref_key (x : leaf_ref) : list Z := key_of (kv_mem s) (lr_kv x).
Definition is_before (x : leaf_ref) : Prop := key_lt (ref_key x) bytes.
Definition is_after (x : leaf_ref) : Prop := key_lt bytes (ref_key x).

Let t_ok : table_ok (trie s) := tr_table _ _ (or_rep _ _ _ s_rep).

(** The finger is at node [n] after [k] symbols of the key, [d] of them inside
    the node; [L] are the leaves below it, [B] those before it, whose keys are
    smaller, and [A] those behind it. *)
Record goto_on (f : ct_finger) (lb : option nat) (k : Z) (n : tnode) (h c : Z) (d : nat)
    (L B A : list leaf_ref) (pre : list Z) (pe : ct_path_entry) : Prop := mk_goto_on {
  ga_finger : finger_on (trie s) bytes f n h c d k;
  ga_spine : spine (trie s) n0 L0 (path f) n h c L B pre;
  ga_last : last (path f) = Some pe;
  ga_entry : containing_entry f = pe_entry pe;
  ga_leaves : L0 = B ++ L ++ A;
  ga_before : Forall is_before B;
  ga_after : Forall is_after A;
  ga_bitmap : lb = bitmap_above (path f) (length (path f) - 1);
  ga_single : lb = None -> A = [];
  ga_ok : trie_ok (kv_mem s) n pre;
  ga_on_path : on_path bytes pre;
  ga_depth : (Z.of_nat (length pre + d) = k)%Z;
  ga_jump : match n with
            | TJump syms _ => (d < length syms)%nat /\
                forall i y, (i < d)%nat -> syms !! i = Some y -> y = symbol_at bytes (Z.of_nat (length pre + i))
            | _ => d = 0%nat
            end;
  ga_bound : 0 <= k <= num_symbols (Z.of_nat (length bytes)) \/
             (k = num_symbols (Z.of_nat (length bytes)) + 1 /\ is_leaf n = true);
}.

(** The copies of the nodes are up to date. *)
Definition fresh_path (f : ct_finger) : Prop := Forall (fun pe => local_ok (trie s) (pe_entry pe)) (path f).

Record goto_at (f : ct_finger) (lb : option nat) (k : Z) (n : tnode) (h c : Z) (d : nat)
    (L B A : list leaf_ref) (pre : list Z) (pe : ct_path_entry) : Prop := mk_goto_at {
  ga_on :> goto_on f lb k n h c d L B A pre pe;
  ga_fresh : fresh_path f;
}.

(** The leaves below a node have the symbols on its path. *)
Lemma linked_keys n h c L pre x :
  linked (trie s) n h c L -> trie_ok (kv_mem s) n pre -> x ∈ L ->
  bytes_ok (ref_key x) /\ forall i y, pre !! i = Some y -> symbol_at (ref_key x) (Z.of_nat i) = y.
Proof.
  intros Hl Hok Hx. apply leaf_ok_key. apply (leaves_ok _ n pre); [exact Hok|].
  rewrite <- (linked_kvs _ _ _ _ _ Hl). now apply list_elem_of_fmap_2.
Qed.

(** Keys behind another symbol compare with the key as the symbols do. *)
Lemma keys_diverge_from pre y x :
  on_path bytes pre -> bytes_ok (ref_key x) ->
  (forall i z, (pre ++ [y]) !! i = Some z -> symbol_at (ref_key x) (Z.of_nat i) = z) ->
  (y < symbol_at bytes (Z.of_nat (length pre)) -> is_before x) /\
  (symbol_at bytes (Z.of_nat (length pre)) < y -> is_after x).
Proof.
  intros Hp Hb Hk.
  assert (Hp' : forall i z, (pre ++ [symbol_at bytes (Z.of_nat (length pre))]) !! i = Some z -> symbol_at bytes (Z.of_nat i) = z).
  { intros i z Hi. symmetry. apply (on_path_app bytes pre [symbol_at bytes (Z.of_nat (length pre))] Hp); [|exact Hi].
    cbn. now rewrite Z.eqb_refl. }
  split; intros Hlt; [now apply (keys_diverge pre y (symbol_at bytes (Z.of_nat (length pre))))|].
  now apply (keys_diverge pre (symbol_at bytes (Z.of_nat (length pre))) y).
Qed.

(** The leaves of the children on either side of a symbol. *)
Lemma children_before f e h c g pre :
  children_at (trie s) f e h c g -> trie_ok (kv_mem s) (TBitmap f) pre -> on_path bytes pre ->
  let sym := symbol_at bytes (Z.of_nat (length pre)) in
  Forall is_before (flat_map g (symbols_below sym)) /\ Forall is_after (flat_map g (symbols_above sym)).
Proof.
  intros Hg Hok Hp sym. pose proof (symbol_range bytes (Z.of_nat (length pre))) as Hsym. fold sym in Hsym.
  assert (Hx : forall y x, 0 <= y <= 32 -> x ∈ g y -> (y < sym -> is_before x) /\ (sym < y -> is_after x)).
  { intros y x Hy Hx. specialize (Hg y Hy). specialize (Hok y). cbv beta in Hok. destruct (f y) as [ch|].
    - destruct Hg as (_ & c' & Hl & _). destruct (linked_keys _ _ _ _ _ _ Hl (proj1 (proj2 Hok)) Hx) as [Hb Hk].
      now apply keys_diverge_from.
    - rewrite (proj2 Hg) in Hx. now apply not_elem_of_nil in Hx. }
  split; apply Forall_forall; intros x Hin; apply elem_of_flat_map in Hin as (y & Hy & Hin);
    apply elem_of_symbols_between in Hy; destruct (Hx y x ltac:(lia) Hin) as [H1' H2']; [apply H1'|apply H2']; lia.
Qed.

Lemma goto_holds f lb k n h c d L B A pre pe :
  goto_on f lb k n h c d L B A pre pe ->
  at_node (trie s) pe h c /\ linked_at (trie s) n (pe_value pe) h c L /\ finger_value f = pe_value pe.
Proof.
  intros G. destruct (spine_last _ _ _ _ _ _ _ _ _ _ (ga_spine _ _ _ _ _ _ _ _ _ _ _ _ G)) as (pe' & Hl & Ha & Hn).
  rewrite (ga_last _ _ _ _ _ _ _ _ _ _ _ _ G) in Hl. injection Hl as <-. split; [exact Ha|]. split; [exact Hn|].
  unfold finger_value, pe_value. now rewrite (ga_entry _ _ _ _ _ _ _ _ _ _ _ _ G).
Qed.

Lemma goto_finger f lb k n h c d L B A pre pe :
  goto_at f lb k n h c d L B A pre pe -> finger_at (trie s) bytes f n h c d k.
Proof.
  intros [G Hp]. split; [apply (ga_finger _ _ _ _ _ _ _ _ _ _ _ _ G)|]. rewrite (ga_entry _ _ _ _ _ _ _ _ _ _ _ _ G).
  apply (proj1 (Forall_forall _ _) Hp), last_Some_elem_of, (ga_last _ _ _ _ _ _ _ _ _ _ _ _ G).
Qed.

Lemma fresh_path_snoc f f' : fresh_path f -> path f' = path f ++ [mk_path_entry (containing_entry f') (prefix_hash f')] ->
  local_ok (trie s) (containing_entry f') -> fresh_path f'.
Proof. intros Hf E Hl. unfold fresh_path. rewrite E. apply Forall_app. split; [exact Hf|]. constructor; [exact Hl|constructor]. Qed.

(** Arriving at a new node: its path entry. *)
Lemma arrived f n h c k L :
  finger_at (trie s) bytes f n h c 0 k -> 0 <= k -> linked (trie s) n h c L ->
  at_node (trie s) (mk_path_entry (containing_entry f) (prefix_hash f)) h c /\
  linked_at (trie s) n (finger_value f) h c L.
Proof.
  intros Hf Hk Hl. split.
  - split; cbn; [apply (lo_primary _ _ (fa_local _ _ _ _ _ _ _ _ Hf))|apply Hf|]. rewrite (fa_hash _ _ _ _ _ _ _ _ Hf).
    destruct (fa_start _ _ _ _ _ _ _ _ Hf) as (j & Ej & ->). f_equal. lia.
  - apply linked_unfold in Hl as (p & e & Hh & Hn).
    destruct (holds_entry _ _ _ _ _ _ t_ok Hh (fa_holds _ _ _ _ _ _ _ _ Hf)) as [_ ->]. exact Hn.
Qed.

Lemma on_path_snoc pre : on_path bytes pre -> on_path bytes (pre ++ [symbol_at bytes (Z.of_nat (length pre))]).
Proof. intros Hp. apply on_path_app; [exact Hp|]. cbn. now rewrite Z.eqb_refl. Qed.

(** Where a child stands at first. *)
Lemma jump_start n pre :
  trie_ok (kv_mem s) n pre ->
  match n with
  | TJump syms _ => (0 < length syms)%nat /\
      forall i y, (i < 0)%nat -> syms !! i = Some y -> y = symbol_at bytes (Z.of_nat (length pre + i))
  | _ => 0%nat = 0%nat
  end.
Proof. destruct n as [kv|syms child|g]; [done| |done]. intros (Hl & _). split; [lia|]. intros i y Hi. lia. Qed.

Lemma goto_step_bitmap f lb k fc h c d L B A pre pe :
  goto_at f lb k (TBitmap fc) h c d L B A pre pe -> 0 <= k <= num_symbols (Z.of_nat (length bytes)) ->
  let r := try_descend f (symbol_at bytes k) true (prefix_hash_of (trie s) bytes (S (Z.to_nat k))) s in
  match fc (symbol_at bytes k) with
  | None => r = Ret None s
  | Some ch => exists f' h' c' L' B' A' pre' pe', r = Ret (Some f') s /\
      goto_at f' (Some (length (path f) - 1)%nat) (k + 1) ch h' c' 0 L' B' A' pre' pe' /\ pre' = pre ++ [symbol_at bytes k]
  end.
Proof.
  intros G Hk r. destruct (goto_holds _ _ _ _ _ _ _ _ _ _ _ _ G) as (Ha & (Ht & _ & _ & g & HL & Hg) & Ev).
  pose proof (goto_finger _ _ _ _ _ _ _ _ _ _ _ _ G) as Gf. pose proof (ga_fresh _ _ _ _ _ _ _ _ _ _ _ _ G) as Gfr.
  pose proof (ga_on _ _ _ _ _ _ _ _ _ _ _ _ G) as [_ Gs Gl Ge GL GB GA Gb G1 Gok Gp Gd Gj _]. subst d.
  assert (Ek : k = Z.of_nat (length pre)) by lia. pose proof (num_symbols_short bytes bytes_short) as Hn.
  pose proof (try_descend_bitmap (trie s) t_ok bytes s f fc h c k true eq_refl Gf ltac:(rewrite max_key_symbols; lia)) as Hstep.
  cbv zeta in Hstep. fold r in Hstep. pose proof (symbol_range bytes k) as Hsym. set (sym := symbol_at bytes k) in *.
  pose proof (Hg sym Hsym) as Hgs. pose proof (Gok sym) as Hch. cbv beta in Hch.
  destruct (fc sym) as [ch|] eqn:Efc; [|exact Hstep].
  destruct Hstep as (f' & c' & Er & Hchild & Hf'). destruct Hgs as (_ & c2 & Hlk & Hchild2). destruct Hch as (_ & Hok & Hend).
  pose proof (child_of_unique _ _ _ _ _ _ Hchild2 Hchild) as ->.
  destruct (arrived _ _ _ _ _ _ Hf' ltac:(lia) Hlk) as [Ha' Hn'].
  pose proof (try_descend_path f sym _ s f' s Er) as Hpath. rewrite Ev, Ht in Hpath. cbn [Z.eqb TYPE_JUMP TYPE_BITMAP Pos.eqb andb] in Hpath.
  destruct (children_before _ _ _ _ _ _ Hg Gok Gp) as [CB CA]. rewrite <- Ek in CB, CA. fold sym in CB, CA.
  exists f', (accumulate_hash (trie s) h sym), c', (g sym), (B ++ flat_map g (symbols_below sym)),
    (flat_map g (symbols_above sym) ++ A), (pre ++ [sym]), (mk_path_entry (containing_entry f') (prefix_hash f')).
  split; [exact Er|]. split; [|unfold sym; now rewrite Ek].
  split; [|exact (fresh_path_snoc f f' Gfr Hpath (fa_local _ _ _ _ _ _ _ _ Hf'))]. split.
  - exact Hf'.
  - rewrite Hpath. apply (spine_bitmap _ _ _ _ pe _ fc g h c L B pre sym ch c'); try done.
    destruct Hchild as ((p & e & E1 & E2 & _) & _).
    destruct (holds_entry _ _ _ _ _ _ t_ok E1 (an_holds _ _ _ _ Ha')) as [_ ->]. exact E2.
  - rewrite Hpath. apply last_snoc.
  - reflexivity.
  - rewrite GL, HL, (all_symbols_split sym Hsym), flat_map_app. cbn [flat_map]. now rewrite <- !app_assoc.
  - now apply Forall_app.
  - now apply Forall_app.
  - rewrite Hpath, length_app. cbn [length]. replace (length (path f) + 1 - 1)%nat with (length (path f)) by lia.
    rewrite (bitmap_above_last _ pe) by exact Gl. now rewrite Ht.
  - discriminate.
  - exact Hok.
  - unfold sym. rewrite Ek. now apply on_path_snoc.
  - rewrite length_app. cbn. lia.
  - now apply jump_start.
  - destruct (Z.eq_dec sym SYMBOL_END) as [Eend|Hne].
    + right. split; [|now apply Hend]. apply symbol_end_iff in Eend; lia.
    + left. pose proof (symbol_not_end bytes k Hk Hne). lia.
Qed.

Lemma follows_lookup syms j :
  (forall i y, (i < length syms)%nat -> syms !! i = Some y -> y = symbol_at bytes (Z.of_nat (j + i))) ->
  follows syms (symbol_at bytes) (Z.of_nat j) = true.
Proof.
  revert j. induction syms as [|x syms IH]; intros j Hs; [done|]. cbn [follows]. rewrite andb_true_iff, Z.eqb_eq. split.
  - rewrite (Hs 0%nat x) by (cbn; (lia || done)). f_equal. lia.
  - replace (Z.of_nat j + 1) with (Z.of_nat (S j)) by lia. apply IH. intros i y Hi Hy.
    rewrite (Hs (S i) y) by (cbn; (lia || done)). f_equal. lia.
Qed.

Lemma goto_step_jump f lb k syms child h c d L B A pre pe :
  goto_at f lb k (TJump syms child) h c d L B A pre pe -> 0 <= k <= num_symbols (Z.of_nat (length bytes)) ->
  let r := try_descend f (symbol_at bytes k) true (prefix_hash_of (trie s) bytes (S (Z.to_nat k))) s in
  exists x, syms !! d = Some x /\ get_jump_symbol (finger_value f) (depth_in_jump f) = x /\
  if x =? symbol_at bytes k then
    exists f' n' h' c' d' L' B' A' pre' pe', r = Ret (Some f') s /\
      goto_at f' lb (k + 1) n' h' c' d' L' B' A' pre' pe' /\
      (n' = TJump syms child /\ pre' = pre \/
       n' = child /\ pre' = pre ++ syms /\ follows syms (symbol_at bytes) (Z.of_nat (length pre)) = true)
  else r = Ret None s.
Proof.
  intros G Hk r. destruct (goto_holds _ _ _ _ _ _ _ _ _ _ _ _ G) as (Ha & (Ht & Hsz & Hsy & Hml & Hlk) & Ev).
  pose proof (goto_finger _ _ _ _ _ _ _ _ _ _ _ _ G) as Gf. pose proof (ga_fresh _ _ _ _ _ _ _ _ _ _ _ _ G) as Gfr.
  pose proof (ga_on _ _ _ _ _ _ _ _ _ _ _ _ G) as [_ Gs Gl Ge GL GB GA Gb G1 Gok Gp Gd (Gd1 & Gd2) _].
  pose proof Gok as (Hlen & Hrange & Hok & _). pose proof (num_symbols_short bytes bytes_short) as Hn.
  destruct (lookup_lt_is_Some_2 syms d Gd1) as [x Hx]. exists x. split; [exact Hx|]. split.
  { rewrite Ev, (fa_depth _ _ _ _ _ _ _ _ Gf). now apply Hsy. }
  pose proof (try_descend_jump (trie s) t_ok bytes s f syms child h c d k true eq_refl Hlen Gf Gd1
                ltac:(rewrite max_key_symbols; lia) x Hx) as Hstep. cbv zeta in Hstep. fold r in Hstep.
  specialize (Hstep ltac:(intros i y Hi Hy; exists (length pre); split; [lia|now apply Gd2])).
  destruct (Z.eqb_spec x (symbol_at bytes k)) as [Ex|_]; [|exact Hstep]. destruct Hstep as (f' & Er & Hf').
  pose proof (Forall_lookup_1 _ _ _ _ Hrange Hx) as Hxr. cbv beta in Hxr.
  assert (Hk' : k + 1 <= num_symbols (Z.of_nat (length bytes))).
  { apply symbol_not_end; [exact Hk|]. unfold SYMBOL_END. lia. }
  assert (Hmatch : forall i y, (i < S d)%nat -> syms !! i = Some y -> y = symbol_at bytes (Z.of_nat (length pre + i))).
  { intros i y Hi Hy. destruct (Nat.eq_dec i d) as [->|Hne]; [|apply Gd2; [lia|done]].
    rewrite Hx in Hy. injection Hy as <-. rewrite Ex. f_equal. lia. }
  pose proof (try_descend_path f (symbol_at bytes k) _ s f' s Er) as Hpath.
  rewrite Ev, Ht, Hsz, (fa_depth _ _ _ _ _ _ _ _ Gf) in Hpath. cbn [Z.eqb TYPE_JUMP Pos.eqb andb] in Hpath.
  replace (Z.of_nat d + 1 =? Z.of_nat (length syms)) with (S d =? length syms)%nat in Hpath
    by (apply eq_true_iff_eq; rewrite Z.eqb_eq, Nat.eqb_eq; lia).
  destruct (Nat.eqb_spec (S d) (length syms)) as [El|El]; cbn [negb] in Hpath.
  - change (lc_value (containing_entry f)) with (finger_value f) in Hf'. rewrite Ev in Hf'.
    destruct (arrived _ _ _ _ _ _ Hf' ltac:(lia) Hlk) as [Ha' Hn'].
    exists f', child, (accumulate_list (trie s) h syms), (entry_child_color (pe_value pe)), 0%nat, L, B, A, (pre ++ syms),
      (mk_path_entry (containing_entry f') (prefix_hash f')).
    split; [exact Er|]. split; [|right; split; [done|split; [done|apply follows_lookup; rewrite <- El; exact Hmatch]]].
    split; [|exact (fresh_path_snoc f f' Gfr Hpath (fa_local _ _ _ _ _ _ _ _ Hf'))]. split; try done.
    + exact Hf'.
    + rewrite Hpath. exact (spine_jump _ _ _ _ pe _ syms child h c L B pre Gs Gl Ha' Hn').
    + rewrite Hpath. apply last_snoc.
    + rewrite Hpath, length_app. cbn [length]. replace (length (path f) + 1 - 1)%nat with (length (path f)) by lia.
      rewrite (bitmap_above_last _ pe) by exact Gl. rewrite Ht. exact Gb.
    + intros i y Hy. apply lookup_app_Some in Hy as [Hy|[Hi Hy]]; [now apply Gp|].
      rewrite (Hmatch (i - length pre)%nat y); [f_equal; lia| |exact Hy]. apply lookup_lt_Some in Hy. lia.
    + rewrite length_app. lia.
    + now apply jump_start.
    + left. lia.
  - destruct Hpath as [Hp1 Hp2].
    exists f', (TJump syms child), h, c, (S d), L, B, A, pre, pe. split; [exact Er|]. split; [|now left].
    split; [|unfold fresh_path; rewrite Hp1; exact Gfr]. split; try done.
    + exact Hf'.
    + now rewrite Hp1.
    + now rewrite Hp1.
    + now rewrite Hp2.
    + now rewrite Hp1.
    + lia.
    + split; [lia|exact Hmatch].
    + left. lia.
Qed.

Lemma goto_step_leaf f lb k kv h c d L B A pre pe sym hash :
  goto_at f lb k (TLeaf kv) h c d L B A pre pe -> try_descend f sym true hash s = Ret None s.
Proof.
  intros G. destruct (goto_holds _ _ _ _ _ _ _ _ _ _ _ _ G) as (_ & (_ & _ & Ht & _) & Ev).
  unfold try_descend. fold (finger_value f). now rewrite Ev, Ht.
Qed.

(** Where the descent ends, and why. *)
Inductive goto_end (g : goto_pos) : Prop :=
| end_leaf k kv h c d L B A pre pe :
    goto_at (gp_finger g) (gp_last_bitmap g) k (TLeaf kv) h c d L B A pre pe -> goto_end g
| end_jump k syms child h c d L B A pre pe x :
    goto_at (gp_finger g) (gp_last_bitmap g) k (TJump syms child) h c d L B A pre pe -> syms !! d = Some x ->
    get_jump_symbol (finger_value (gp_finger g)) (depth_in_jump (gp_finger g)) = x ->
    gp_symbol g = symbol_at bytes k -> x <> symbol_at bytes k -> goto_end g
| end_bitmap lb k fc h c d L B A pre pe :
    goto_at (gp_finger g) lb k (TBitmap fc) h c d L B A pre pe -> gp_symbol g = symbol_at bytes k ->
    fc (symbol_at bytes k) = None -> goto_end g.

(** What holds at the head of the loop. *)
Definition goto_inv (a : Z * goto_pos) : Prop :=
  ahead (trie s) bytes (gp_prefetcher (snd a)) (fst a) /\
  exists n h c d L B A pre pe, goto_at (gp_finger (snd a)) (gp_last_bitmap (snd a)) (fst a) n h c d L B A pre pe.

Lemma goto_descend_spec f p n h c L pe :
  goto_at f None 0 n h c 0 L [] [] [] pe -> ahead (trie s) bytes p 0 ->
  exists g, goto_descend f p (num_symbols (Z.of_nat (length bytes)) + 1) s = Ret g s /\ goto_end g.
Proof.
  intros G Ha. set (num := num_symbols (Z.of_nat (length bytes))).
  pose proof (num_symbols_short bytes bytes_short) as Hn. fold num in Hn.
  unfold goto_descend. apply (loop_total goto_inv goto_end (fun a => num + 1 - fst a)).
  - intros [k g] (_ & n1 & h1 & c1 & d1 & L1 & B1 & A1 & pre1 & pe1 & G1). cbn [fst snd] in *.
    pose proof (ga_bound _ _ _ _ _ _ _ _ _ _ _ _ G1). lia.
  - intros [k g] (Hah & n1 & h1 & c1 & d1 & L1 & B1 & A1 & pre1 & pe1 & G1). cbn [fst snd] in *.
    destruct (Z.ltb_spec k (num + 1)) as [Hlt|Hge]; cbn [negb].
    2: { left. exists g. split; [reflexivity|]. pose proof (ga_bound _ _ _ _ _ _ _ _ _ _ _ _ G1) as [Hb|[_ Hb]]; [lia|].
         destruct n1; try discriminate. exact (end_leaf g _ _ _ _ _ _ _ _ _ _ G1). }
    assert (Hk : 0 <= k <= num) by (pose proof (ga_bound _ _ _ _ _ _ _ _ _ _ _ _ G1); lia).
    destruct (prefetch_next (trie s) bytes s (gp_prefetcher g) k eq_refl Hah Hk) as (p' & Ep & Hah' & E1 & E2).
    erewrite bind_Ret by exact Ep. cbv zeta. rewrite E1, E2. erewrite bind_Ret by reflexivity. erewrite bind_Ret by reflexivity.
    fold (finger_value (gp_finger g)).
    destruct (goto_holds _ _ _ _ _ _ _ _ _ _ _ _ G1) as (_ & Hn1 & Ev). destruct n1 as [kv|syms child|fc].
    + left. erewrite bind_Ret by exact (goto_step_leaf _ _ _ _ _ _ _ _ _ _ _ _ _ _ G1). eexists. split; [reflexivity|].
      destruct Hn1 as (_ & _ & Ht & _). rewrite Ev, Ht. exact (end_leaf (mk_goto_pos _ _ _ _) _ _ _ _ _ _ _ _ _ _ G1).
    + destruct (goto_step_jump _ _ _ _ _ _ _ _ _ _ _ _ _ G1 Hk) as (x & Hx & Hj & Hstep). destruct Hn1 as (Ht & _). rewrite Ev, Ht.
      destruct (Z.eqb_spec x (symbol_at bytes k)) as [Ex|Hne].
      * right. destruct Hstep as (f' & n' & h' & c' & d' & L' & B' & A' & pre' & pe' & Er & G' & _).
        eexists. split; [erewrite bind_Ret by exact Er; reflexivity|]. split; [|cbn; lia]. split; [exact Hah'|].
        cbn [fst snd gp_finger gp_last_bitmap Z.eqb TYPE_JUMP TYPE_BITMAP Pos.eqb]. do 9 eexists. exact G'.
      * left. eexists. split; [erewrite bind_Ret by exact Hstep; reflexivity|].
        apply (end_jump (mk_goto_pos _ _ _ _) _ _ _ _ _ _ _ _ _ _ _ _ G1 Hx Hj eq_refl Hne).
    + pose proof (goto_step_bitmap _ _ _ _ _ _ _ _ _ _ _ _ G1 Hk) as Hstep. cbv zeta in Hstep. destruct Hn1 as (Ht & _). rewrite Ev, Ht.
      destruct (fc (symbol_at bytes k)) as [ch|] eqn:Efc.
      * right. destruct Hstep as (f' & h' & c' & L' & B' & A' & pre' & pe' & Er & G' & _).
        eexists. split; [erewrite bind_Ret by exact Er; reflexivity|]. split; [|cbn; lia]. split; [exact Hah'|].
        cbn [fst snd gp_finger gp_last_bitmap Z.eqb TYPE_BITMAP Pos.eqb]. do 9 eexists. exact G'.
      * left. eexists. split; [erewrite bind_Ret by exact Hstep; reflexivity|].
        apply (end_bitmap (mk_goto_pos _ _ _ _) _ _ _ _ _ _ _ _ _ _ _ G1 eq_refl Efc).
  - split; [exact Ha|]. cbn [fst snd gp_finger gp_last_bitmap]. do 9 eexists. exact G.
  - cbn [fst]. lia.
Qed.

(** ** From the end of the descent to a leaf *)

Definition not_before (x : leaf_ref) : Prop := ~ is_before x.

Lemma after_not_before x : is_after x -> not_before x.
Proof. intros H1' H2'. exact (key_lt_irrefl bytes (key_lt_trans _ _ _ H1' H2')). Qed.

(** The two halves of the leaves: those before the key, and the others. *)
Definition halves (before after : list leaf_ref) : Prop :=
  L0 = before ++ after /\ Forall is_before before /\ Forall not_before after.

Lemma compare_before kv o :
  kv_mem s !! kv = Some o -> kv_ok o ->
  (0 <=? kv_key_compare_to o (Z.of_nat (length bytes)) bytes) = negb (bool_decide (key_compare (key_of (kv_mem s) kv) bytes = Lt)).
Proof.
  intros Ho Hok. pose proof (kv_key_compare_to_spec o bytes Hok ltac:(lia)) as E. unfold key_of. rewrite Ho. cbn [from_option].
  destruct (key_compare (kv_key o) bytes); cbn in E |- *; destruct (Z.leb_spec 0 (kv_key_compare_to o (Z.of_nat (length bytes)) bytes)); try done; lia.
Qed.

(** At a leaf or inside a jump node all leaves below are on one side. *)
Lemma before_longest_prefix_spec g n k h c d L B A pre pe :
  goto_at (gp_finger g) (gp_last_bitmap g) k n h c d L B A pre pe ->
  match n with
  | TLeaf _ => True
  | TJump syms _ => exists x, syms !! d = Some x /\ x <> symbol_at bytes k /\ gp_symbol g = symbol_at bytes k /\
      get_jump_symbol (finger_value (gp_finger g)) (depth_in_jump (gp_finger g)) = x
  | TBitmap _ => False
  end ->
  exists b : bool, goto_before_longest_prefix g bytes s = Ret b s /\ if b then Forall not_before L else Forall is_before L.
Proof.
  intros G Hend. destruct (goto_holds _ _ _ _ _ _ _ _ _ _ _ _ G) as (Ha & Hn & Ev).
  unfold goto_before_longest_prefix. fold (finger_value (gp_finger g)).
  destruct n as [kv|syms child|]; [| |done].
  - destruct Hn as (-> & _ & Ht & Hkv & _). cbn [lr_kv] in Hkv. rewrite Ev, Ht, Hkv, Z.eqb_refl.
    destruct (ga_ok _ _ _ _ _ _ _ _ _ _ _ _ G) as (o & Ho & Hok & _).
    eexists. split.
    + erewrite bind_Ret by (unfold load_kv; erewrite bind_Ret by reflexivity; rewrite Ho; reflexivity).
      rewrite (compare_before kv o Ho Hok). reflexivity.
    + case_bool_decide as Hd; cbn [negb]; repeat constructor; exact Hd.
  - destruct Hend as (x & Hx & Hne & Hsym & Hj). destruct Hn as (Ht & _ & _ & _ & Hlk). rewrite Hj, Hsym, Ev, Ht.
    cbn [Z.eqb TYPE_JUMP TYPE_LEAF Pos.eqb]. eexists. split.
    + erewrite bind_Ret; [reflexivity|]. apply assert_true. destruct (Z.eqb_spec (symbol_at bytes k) x); [congruence|done].
    + pose proof (ga_on _ _ _ _ _ _ _ _ _ _ _ _ G) as [Gf Gs Gl Ge GL GB GA Gb G1 Gok Gp Gd (Gd1 & Gd2) _]. destruct Gok as (_ & _ & Hok & _).
      assert (Hok' : trie_ok (kv_mem s) child ((pre ++ take d syms) ++ [x] ++ drop (S d) syms)).
      { rewrite <- app_assoc, (app_assoc (take d syms)). cbn [app]. rewrite <- (take_S_r syms d x Hx), take_drop. exact Hok. }
      assert (Hpath : on_path bytes (pre ++ take d syms)).
      { intros i y Hy. apply lookup_app_Some in Hy as [Hy|[Hi Hy]]; [now apply Gp|]. apply lookup_take_Some in Hy as [Hy Hlt].
        rewrite (Gd2 _ y Hlt Hy). f_equal. lia. }
      assert (Hlen : Z.of_nat (length (pre ++ take d syms)) = k).
      { rewrite length_app, length_take_le by lia. exact Gd. }
      assert (Hx' : forall y, y ∈ L -> (x < symbol_at bytes k -> is_before y) /\ (symbol_at bytes k < x -> is_after y)).
      { intros y Hy. destruct (linked_keys _ _ _ _ _ _ Hlk Hok' Hy) as [Hb Hk].
        rewrite <- Hlen. apply keys_diverge_from; [exact Hpath|exact Hb|].
        intros i z Hi. apply Hk. rewrite app_assoc. now apply lookup_app_l_Some. }
      destruct (Z.ltb_spec (symbol_at bytes k) x) as [Hlt|Hge]; apply Forall_forall; intros y Hy.
      * apply after_not_before, Hx'; [exact Hy|lia].
      * apply Hx'; [exact Hy|lia].
Qed.

(** The leaf list has a head. *)
Lemma head_entry : exists e, trie_entry (trie s) (trie_min_leaf (trie s)) = Some e /\ entry_dirty e = false /\
  followed_by e (L0 !! 0%nat).
Proof. destruct (lk_head _ _ (or_list _ _ _ s_rep)) as (e & He & _ & Hd & Hf). eauto. Qed.

(** The iterator is placed on the leaf before the key, or exhausted. *)
Definition placed (it it' : ct_iter) : Prop :=
  exists before after, halves before after /\ report_current it' = report_current it /\
    if is_exhausted it' then after = [] else leaf_before s before (lc_value (iter_leaf it')).

Lemma halves_before : forall B L A b, L0 = B ++ L ++ A -> Forall is_before B -> Forall is_after A ->
  (if b : bool then Forall not_before L else Forall is_before L) ->
  if b then halves B (L ++ A) else halves (B ++ L) A.
Proof.
  intros B L A b EL HB HA HL.
  assert (HA' : Forall not_before A) by (eapply Forall_impl; [exact HA|]; intros x; apply after_not_before).
  destruct b; (split; [now rewrite EL, <- ?app_assoc|]); split; try done; now apply Forall_app.
Qed.

(** From a bitmap node of the path, [sym] being the position to look before. *)
Lemma goto_predecessor_spec f Q R f0 h c L B pre pe g sym it :
  path f = Q ++ R -> spine (trie s) n0 L0 Q (TBitmap f0) h c L B pre -> last Q = Some pe -> at_node (trie s) pe h c ->
  children_at (trie s) f0 (pe_value pe) h c g -> 0 <= sym <= 33 ->
  Forall (fun pe => local_ok (trie s) (pe_entry pe)) (path f) ->
  exists pl l, prefetch_path_child_predecessor f (length Q - 1) sym s = Ret pl s /\
    goto_predecessor f pl it s = Ret (SI_OK, set_iter_leaf l it) s /\
    leaf_before s (B ++ flat_map g (symbols_below sym)) (lc_value l).
Proof.
  intros Hp Hs Hl Ha Hg Hsym Hall. destruct head_entry as (e & He & _).
  destruct (predecessor_spec s t_ok n0 L0 f Q R f0 h c L B pre pe g sym e Hp Hs Hl Ha Hg Hsym Hall He) as (pl & l & E1 & E2 & E3).
  exists pl, l. split; [exact E1|]. split; [|exact E3]. unfold goto_predecessor. now erewrite bind_Ret by exact E2.
Qed.

(** The rest of [ct_iter_goto_internal], after the descent. *)
Definition goto_place (it : ct_iter) (g : goto_pos) : MS (si_status * ct_iter) :=
  let f := gp_finger g in
  if entry_type (lc_value (containing_entry f)) =? TYPE_BITMAP then
    pl ← prefetch_bitmap_child_predecessor f (gp_symbol g);
    goto_predecessor f pl it
  else
    is_before ← goto_before_longest_prefix g bytes;
    match gp_last_bitmap g with
    | Some bp =>
        below ← lift (path_local f (S bp));
        let last_bitmap_child := last_symbol (lc_value below) in
        pl ← prefetch_path_child_predecessor f bp
               (if (is_before : bool) then last_bitmap_child else last_bitmap_child + 1);
        goto_predecessor f pl it
    | None => goto_single_leaf is_before it
    end.

Lemma place_at_bitmap it g lb k fc h c d L B A pre pe :
  is_exhausted it = false ->
  goto_at (gp_finger g) lb k (TBitmap fc) h c d L B A pre pe -> gp_symbol g = symbol_at bytes k ->
  fc (symbol_at bytes k) = None ->
  exists it', goto_place it g s = Ret (SI_OK, it') s /\ placed it it'.
Proof.
  intros Hex G Hsym Hno. destruct (goto_holds _ _ _ _ _ _ _ _ _ _ _ _ G) as (Ha & (Ht & _ & _ & ch & HL & Hg) & Ev).
  pose proof (ga_on _ _ _ _ _ _ _ _ _ _ _ _ G) as [Gf Gs Gl Ge GL GB GA _ _ Gok Gp Gd Gj _]. subst d.
  assert (Ek : k = Z.of_nat (length pre)) by lia. pose proof (symbol_range bytes k) as Hr.
  destruct (goto_predecessor_spec (gp_finger g) (path (gp_finger g)) [] fc h c L B pre pe ch (symbol_at bytes k) it)
    as (pl & l & E1 & E2 & E3); [now rewrite app_nil_r|exact Gs|exact Gl|exact Ha|exact Hg|lia|exact (ga_fresh _ _ _ _ _ _ _ _ _ _ _ _ G)|].
  exists (set_iter_leaf l it). split.
  - unfold goto_place. fold (finger_value (gp_finger g)). rewrite Ev, Ht, Z.eqb_refl, Hsym.
    unfold prefetch_bitmap_child_predecessor, last_path_entry. now erewrite bind_Ret by exact E1.
  - exists (B ++ flat_map ch (symbols_below (symbol_at bytes k))), (flat_map ch (symbols_above (symbol_at bytes k)) ++ A).
    cbn [report_current is_exhausted set_iter_leaf iter_leaf]. rewrite Hex. split; [|done].
    destruct (children_before _ _ _ _ _ _ Hg Gok Gp) as [CB CA]. rewrite <- Ek in CB, CA.
    assert (Eg : ch (symbol_at bytes k) = []) by (specialize (Hg _ Hr); rewrite Hno in Hg; apply Hg).
    pose proof (halves_before B (flat_map ch (symbols_below (symbol_at bytes k)))
      (flat_map ch (symbols_above (symbol_at bytes k)) ++ A) false) as Hh. apply Hh; [|exact GB|now apply Forall_app|exact CB].
    rewrite GL, HL, (all_symbols_split _ Hr), flat_map_app. cbn [flat_map]. rewrite Eg. cbn [app]. now rewrite <- app_assoc.
Qed.

Lemma place_elsewhere it g n k h c d L B A pre pe (b : bool) :
  is_exhausted it = false ->
  goto_at (gp_finger g) (gp_last_bitmap g) k n h c d L B A pre pe -> (forall f, n <> TBitmap f) ->
  goto_before_longest_prefix g bytes s = Ret b s -> (if b then Forall not_before L else Forall is_before L) ->
  exists it', goto_place it g s = Ret (SI_OK, it') s /\ placed it it'.
Proof.
  intros Hex G Hn Eb HL. destruct (goto_holds _ _ _ _ _ _ _ _ _ _ _ _ G) as (Ha & Hn1 & Ev).
  pose proof (ga_on _ _ _ _ _ _ _ _ _ _ _ _ G) as [Gf Gs Gl Ge GL GB GA Gb G1 Gok Gp Gd Gj _].
  assert (Ht : (entry_type (finger_value (gp_finger g)) =? TYPE_BITMAP) = false).
  { rewrite Ev. destruct n as [kv|syms child|fc]; [|destruct Hn1 as (-> & _); reflexivity|now destruct (Hn fc)].
    destruct Hn1 as (_ & _ & -> & _). reflexivity. }
  pose proof (halves_before B L A b GL GB GA HL) as Hh.
  unfold goto_place. fold (finger_value (gp_finger g)). rewrite Ht. erewrite bind_Ret by exact Eb.
  pose proof (spine_above _ _ _ _ _ _ _ _ _ _ Gs) as Hup. rewrite <- Gb in Hup. destruct (gp_last_bitmap g) as [bp|].
  - destruct Hup as (f1 & h1 & c1 & L1 & B1 & pre1 & pe1 & g1 & s1 & below & U1 & U2 & U3 & U4 & U5 & U6 & U7 & U8 & U9 & U10 & EB).
    unfold path_local. rewrite U7. cbn [fmap option_fmap option_map lift]. erewrite bind_Ret by reflexivity.
    change (lc_value (pe_entry below)) with (pe_value below). rewrite U8.
    destruct (goto_predecessor_spec (gp_finger g) (take (S bp) (path (gp_finger g))) (drop (S bp) (path (gp_finger g)))
      f1 h1 c1 L1 B1 pre1 pe1 g1 (if b then s1 else s1 + 1) it) as (pl & l & E1 & E2 & E3);
      [now rewrite take_drop|exact U1|exact U3|exact U4|exact U6|destruct b; lia|exact (ga_fresh _ _ _ _ _ _ _ _ _ _ _ _ G)|].
    rewrite U2 in E1. replace (S bp - 1)%nat with bp in E1 by lia.
    exists (set_iter_leaf l it). split; [now erewrite bind_Ret by exact E1|]. destruct b.
    + exists B, (L ++ A). cbn [report_current is_exhausted set_iter_leaf iter_leaf]. rewrite Hex, EB. now rewrite EB in Hh.
    + exists (B ++ L), A. cbn [report_current is_exhausted set_iter_leaf iter_leaf]. rewrite Hex.
      rewrite symbols_below_succ, flat_map_app in E3 by lia. cbn [flat_map] in E3. rewrite U10, app_nil_r, app_assoc, <- EB in E3. done.
  - specialize (G1 eq_refl). subst A B. unfold goto_single_leaf. destruct b.
    + destruct head_entry as (e & He & Hd & _). destruct (read_min_leaf_spec s t_ok e He) as (l & El & Hv & Hp & bk & Hbk & Hq).
      assert (Hval : validate_entry l s = Ret true s) by (apply (validate_entry_spec s t_ok l bk); [now rewrite Hp|exact Hq]).
      exists (set_iter_leaf l it). split; [|exists [], (L ++ []); cbn [report_current is_exhausted set_iter_leaf iter_leaf]; rewrite Hex;
        split; [exact Hh|]; split; [done|]; unfold leaf_before; cbn [last]; now rewrite Hv].
      erewrite bind_Ret by exact El. rewrite Hv, Hd. now erewrite bind_Ret by exact Hval.
    + exists (set_exhausted true it). split; [reflexivity|]. exists ([] ++ L), []. done.
Qed.

Lemma goto_place_spec it g :
  is_exhausted it = false -> goto_end g -> exists it', goto_place it g s = Ret (SI_OK, it') s /\ placed it it'.
Proof.
  intros Hex [k kv h c d L B A pre pe G|k syms child h c d L B A pre pe x G Hx Hj Hsym Hne|lb k fc h c d L B A pre pe G Hsym Hno].
  - destruct (before_longest_prefix_spec _ _ _ _ _ _ _ _ _ _ _ G I) as (b & Eb & HL).
    exact (place_elsewhere it g _ _ _ _ _ _ _ _ _ _ b Hex G ltac:(discriminate) Eb HL).
  - destruct (before_longest_prefix_spec _ _ _ _ _ _ _ _ _ _ _ G) as (b & Eb & HL); [now exists x|].
    exact (place_elsewhere it g _ _ _ _ _ _ _ _ _ _ b Hex G ltac:(discriminate) Eb HL).
  - exact (place_at_bitmap it g _ _ _ _ _ _ _ _ _ _ _ Hex G Hsym Hno).
Qed.

(** The finger at the root. *)
Lemma goto_start f :
  finger_at (trie s) bytes f n0 HASH_START_VALUE ROOT_COLOR 0 0 ->
  path f = [mk_path_entry (containing_entry f) HASH_START_VALUE] ->
  goto_at f None 0 n0 HASH_START_VALUE ROOT_COLOR 0 L0 [] [] [] (mk_path_entry (containing_entry f) HASH_START_VALUE).
Proof.
  intros Hf Hp. pose proof (or_linked _ _ _ s_rep) as Hl. apply linked_unfold in Hl as (p & e & Hh & Hn).
  destruct (holds_entry _ _ _ _ _ _ t_ok Hh (fa_holds _ _ _ _ _ _ _ _ Hf)) as [_ ->].
  pose proof (num_symbols_short bytes bytes_short).
  split; [|unfold fresh_path; rewrite Hp; constructor; [apply Hf|constructor]].
  split; rewrite ?Hp, ?app_nil_r; try done.
  - exact Hf.
  - constructor; [|exact Hn]. split; [apply (lo_primary _ _ (fa_local _ _ _ _ _ _ _ _ Hf))|apply Hf|done].
  - apply (tr_ok _ _ (or_rep _ _ _ s_rep)).
  - apply jump_start, (tr_ok _ _ (or_rep _ _ _ s_rep)).
  - left. lia.
Qed.
End goto.

(** ** The operations *)

Section iterate.
Context `{BucketLaws} `{Env}.
Hypothesis ambient_ok : forall a, is_byte (ambient_byte a).
Variables (n0 : tnode) (L0 : list leaf_ref).

Lemma ct_iter_goto_internal_spec s bytes it :
  ordered_rep s n0 L0 -> bytes_ok bytes -> Z.of_nat (length bytes) <= 255 ->
  exists it', ct_iter_goto_internal it bytes s = Ret (SI_OK, it') (set_lock_mgr [] s) /\
    placed (set_lock_mgr [] s) L0 bytes it it'.
Proof.
  intros Hr Hb Hlen. set (s1 := set_lock_mgr [] s).
  assert (Hr1 : ordered_rep s1 n0 L0) by now apply ordered_rep_locks.
  destruct (init_finger_spec s n0 bytes (or_rep _ _ _ Hr)) as (f & Ef & Hf & Hp). fold s1 in Ef.
  unfold ct_iter_goto_internal. erewrite bind_Ret by exact Ef. cbv iota beta zeta. cbn [negb].
  destruct (Z.eqb_spec (Z.of_nat (length bytes)) 0) as [E0|Hne].
  - destruct (head_entry s1 n0 L0 Hr1) as (e & He & _).
    destruct (read_min_leaf_spec s1 (tr_table _ _ (or_rep _ _ _ Hr1)) e He) as (l & El & Hv & _).
    exists (set_iter_leaf l (set_exhausted false it)). split; [now erewrite bind_Ret by exact El|].
    exists [], L0. split; [split; [done|split; [constructor|]]|split; [done|]].
    + apply Forall_forall. intros x _. unfold not_before, is_before, key_lt.
      destruct bytes; [|cbn in E0; lia]. destruct (ref_key s1 x); discriminate.
    + cbn. unfold leaf_before. cbn [last]. now rewrite Hv.
  - destruct (prefetcher_start_spec bytes Hb ambient_ok s1 Hlen) as (p & Ep & Hpo & Epos).
    erewrite bind_Ret by exact Ep. pose proof (num_symbols_short bytes Hlen) as Hn.
    change ((Z.of_nat (length bytes) * 8 + BITS_PER_SYMBOL - 1) / BITS_PER_SYMBOL + 1)
      with ((Z.of_nat (length bytes) * 8 + 5 - 1) / 5 + 1).
    replace ((Z.of_nat (length bytes) * 8 + 5 - 1) / 5 + 1) with (num_symbols (Z.of_nat (length bytes)) + 1)
      by (unfold num_symbols; do 2 f_equal; lia).
    pose proof (goto_start s1 n0 L0 Hr1 bytes Hlen f Hf Hp) as G.
    destruct (goto_descend_spec s1 n0 L0 Hr1 bytes Hb Hlen f p n0 _ _ L0 _ G) as (g & Eg & Hend); [split; [exact Hpo|rewrite Epos; lia]|].
    erewrite bind_Ret by exact Eg.
    destruct (goto_place_spec s1 n0 L0 Hr1 bytes Hb Hlen (set_exhausted false it) g eq_refl Hend) as (it' & E & Hpl).
    exists it'. split; [exact E|exact Hpl].
Qed.

(** The iterator will report the leaves [rest] of the list next. *)
Definition iter_at (s : state) (it : ct_iter) (rest : list leaf_ref) : Prop :=
  (is_exhausted it = true /\ rest = []) \/
  (is_exhausted it = false /\ exists i x, L0 !! i = Some x /\ leaf_entry (trie s) x (lc_value (iter_leaf it)) /\
     rest = drop (if report_current it then i else S i) L0).

(** The entry before position [i] of the list leads to position [i]. *)
Lemma leaf_before_next s before after e :
  ordered_rep s n0 L0 -> L0 = before ++ after -> leaf_before s before e -> followed_by e (head after).
Proof.
  intros Hr EL Hb. unfold leaf_before in Hb. pose proof (or_list _ _ _ Hr) as Hlist.
  assert (Eh : forall i, i = length before -> L0 !! i = head after).
  { intros i ->. rewrite EL, lookup_app_r, Nat.sub_diag by lia. now destruct after. }
  destruct (last before) as [x|] eqn:El.
  - apply last_Some in El as (B & ->). rewrite <- (Eh (S (length B))) by (rewrite length_app; cbn; lia).
    apply (lk_next _ _ Hlist (length B) x e); [|exact Hb]. rewrite EL, <- app_assoc, lookup_app_r, Nat.sub_diag by lia. reflexivity.
  - apply last_None in El as ->. destruct (lk_head _ _ Hlist) as (e' & He' & _ & _ & Hf). rewrite Hb in He'. injection He' as <-.
    now rewrite <- (Eh 0%nat).
Qed.

Lemma followed_not_last s it x :
  ordered_rep s n0 L0 -> x ∈ L0 -> followed_by (lc_value (iter_leaf it)) (Some x) -> is_last_leaf it = false.
Proof.
  intros Hr Hx Hf. cbn [followed_by] in Hf. unfold is_last_leaf. rewrite Hf. apply Z.eqb_neq.
  destruct (linked_leaf _ _ _ _ _ x (or_linked _ _ _ Hr) Hx) as (e & He).
  exact (locator_not_end _ _ _ (tr_table _ _ (or_rep _ _ _ Hr)) He).
Qed.

(** Moving to the next leaf. *)
Lemma ct_iter_next_internal_spec s it x :
  ordered_rep s n0 L0 -> x ∈ L0 -> followed_by (lc_value (iter_leaf it)) (Some x) ->
  exists l, ct_iter_next_internal it s = Ret (SI_OK, set_iter_leaf l it) s /\ leaf_entry (trie s) x (lc_value l).
Proof.
  intros Hr Hx Hf. destruct (linked_leaf _ _ _ _ _ x (or_linked _ _ _ Hr) Hx) as (e & He).
  destruct (locator_to_entry_spec s x e (tr_table _ _ (or_rep _ _ _ Hr)) He) as (l & El & _ & Hv & _).
  exists l. subst e. split; [|exact He]. unfold ct_iter_next_internal. cbn [followed_by] in Hf. rewrite Hf. erewrite bind_Ret by exact El.
  destruct He as (_ & Ht & _). rewrite Ht, Z.eqb_refl. reflexivity.
Qed.

Lemma ct_iter_goto_spec s bytes it :
  ordered_rep s n0 L0 -> bytes_ok bytes -> Z.of_nat (length bytes) <= 255 -> (0 < retry_fuel)%nat ->
  exists it' before rest, ct_iter_goto it bytes s = Ret it' (set_lock_mgr [] s) /\
    halves s L0 bytes before rest /\ iter_at (set_lock_mgr [] s) it' rest.
Proof.
  intros Hr Hb Hlen Hfuel. set (s1 := set_lock_mgr [] s).
  assert (Hr1 : ordered_rep s1 n0 L0) by now apply ordered_rep_locks.
  destruct (ct_iter_goto_internal_spec s bytes it Hr Hb Hlen) as (it1 & E1 & before & after & Hh & _ & Hit). fold s1 in E1, Hh, Hit.
  unfold ct_iter_goto. destruct retry_fuel as [|fuel]; [lia|].
  destruct (is_exhausted it1) eqn:Ex.
  - exists (if is_last_leaf it1 then set_exhausted true it1 else it1), before, after. split; [|split; [exact Hh|]].
    + apply loop_inr. erewrite bind_Ret by exact E1. cbv iota beta. rewrite bool_decide_false by discriminate.
      destruct (is_last_leaf it1); cbn [is_exhausted set_exhausted]; rewrite ?Ex; reflexivity.
    + left. destruct (is_last_leaf it1); done.
  - pose proof (leaf_before_next s1 before after _ Hr1 (proj1 Hh) Hit) as Hf. destruct after as [|x rest].
    + exists (set_exhausted true it1), before, []. split; [|split; [exact Hh|now left]]. cbn [followed_by] in Hf.
      apply loop_inr. erewrite bind_Ret by exact E1. cbv iota beta. rewrite bool_decide_false by discriminate.
      unfold is_last_leaf. rewrite Hf, Z.eqb_refl. reflexivity.
    + cbn [head] in Hf. assert (Hx : x ∈ L0) by (rewrite (proj1 Hh); apply elem_of_app; right; apply list_elem_of_here).
      destruct (ct_iter_next_internal_spec s1 it1 x Hr1 Hx Hf) as (l & E2 & Hl).
      exists (set_report_current true (set_iter_leaf l it1)), before, (x :: rest). split; [|split; [exact Hh|]].
      * apply loop_inr. erewrite bind_Ret by exact E1. cbv iota beta. rewrite bool_decide_false by discriminate.
        rewrite (followed_not_last s1 it1 x Hr1 Hx Hf), Ex. erewrite bind_Ret by exact E2. cbv iota beta.
        rewrite bool_decide_false by discriminate. reflexivity.
      * right. split; [exact Ex|]. exists (length before), x. rewrite (proj1 Hh), lookup_app_r, Nat.sub_diag by lia.
        split; [done|]. split; [exact Hl|]. cbn [report_current set_report_current]. now rewrite drop_app_length.
Qed.

Lemma ct_iter_next_spec s it rest :
  ordered_rep s n0 L0 -> iter_at s it rest -> (0 < retry_fuel)%nat ->
  exists it', ct_iter_next it s = Ret (lr_kv <$> head rest, it') s /\ iter_at s it' (tail rest).
Proof.
  intros Hr [[Hex ->]|(Hex & i & x & Hx & He & ->)] Hfuel; unfold ct_iter_next; rewrite Hex.
  - exists it. split; [done|]. now left.
  - destruct (report_current it) eqn:Erc.
    + exists (set_report_current false it). rewrite (drop_S _ _ _ Hx). cbn [head tail]. split.
      * unfold iter_max_leaf. destruct He as (_ & _ & Hk & _). rewrite Hk. reflexivity.
      * right. cbn [is_exhausted report_current set_report_current iter_leaf]. split; [exact Hex|]. now exists i, x.
    + pose proof (lk_next _ _ (or_list _ _ _ Hr) i x _ Hx He) as Hf. destruct (L0 !! S i) as [y|] eqn:Ey.
      * assert (Hy : y ∈ L0) by (eapply list_elem_of_lookup_2; exact Ey).
        rewrite (followed_not_last s it y Hr Hy Hf). destruct (ct_iter_next_internal_spec s it y Hr Hy Hf) as (l & E & Hl).
        exists (set_iter_leaf l it). rewrite (drop_S _ _ _ Ey). cbn [head tail]. split.
        -- destruct retry_fuel as [|fuel]; [lia|]. erewrite bind_Ret.
           2: { apply loop_inr. erewrite bind_Ret by exact E. cbv iota beta. rewrite bool_decide_false by discriminate.
                erewrite bind_Ret by reflexivity. reflexivity. }
           unfold iter_max_leaf. cbn [iter_leaf set_iter_leaf]. destruct Hl as (_ & _ & Hk & _). rewrite Hk. reflexivity.
        -- right. cbn [is_exhausted report_current set_iter_leaf iter_leaf]. split; [exact Hex|]. exists (S i), y. now rewrite Erc.
      * unfold is_last_leaf. cbn [followed_by] in Hf. rewrite Hf, Z.eqb_refl. exists (set_exhausted true it).
        rewrite drop_ge by (now apply lookup_ge_None). split; [done|]. now left.
Qed.

(** Call [ct_iter_next] [k] times. *)
Fixpoint take_next (k : nat) (it : ct_iter) : MS (list (option Z) * ct_iter) :=
  match k with
  | O => mret ([], it)
  | S k' => '(kv, it1) ← ct_iter_next it; '(kvs, it2) ← take_next k' it1; mret (kv :: kvs, it2)
  end.

Lemma take_next_spec s k : forall it rest,
  ordered_rep s n0 L0 -> iter_at s it rest -> (0 < retry_fuel)%nat ->
  exists it', take_next k it s = Ret (map (fun i => lr_kv <$> rest !! i) (seq 0 k), it') s /\ iter_at s it' (drop k rest).
Proof.
  induction k as [|k IH]; intros it rest Hr Hit Hfuel; [exists it; split; [reflexivity|exact Hit]|].
  destruct (ct_iter_next_spec s it rest Hr Hit Hfuel) as (it1 & E1 & Hit1).
  destruct (IH it1 (tail rest) Hr Hit1 Hfuel) as (it2 & E2 & Hit2). exists it2. cbn [take_next]. split.
  - erewrite bind_Ret by exact E1. cbv iota beta. erewrite bind_Ret by exact E2. cbv iota beta. unfold mret, M_ret. do 2 f_equal.
    cbn [seq map]. f_equal; [now destruct rest|]. rewrite <- seq_shift, map_map. apply map_ext. intros i. now destruct rest.
  - destruct rest; [now rewrite !drop_nil in *|exact Hit2].
Qed.
End iterate.

(** ** Deciding [ordered_rep] *)

#[export] Instance ct_entry_locator_eq_dec : EqDecision ct_entry_locator.
Proof. solve_decision. Defined.

Definition max_leaf_okb (e : ct_entry) (L : list leaf_ref) : bool :=
  match last L with Some x => bool_decide (max_leaf e = locator_of x) | None => false end.

Definition max_child_okb (e : ct_entry) : bool :=
  (max_child e <=? 32) && get_bit (bits_area e) (max_child e) &&
  forallb (fun s => negb (get_bit (bits_area e) s) || (s <=? max_child e)) all_symbols.

(** The leaves below an entry, when its links are right. *)
Fixpoint linked_leaves (fuel : nat) (t : cuckoo_trie) (h c : Z) : option (list leaf_ref) :=
  match fuel with
  | O => None
  | S k =>
      match holder t (h, c) with
      | None => None
      | Some (_, e) =>
          if entry_type e =? TYPE_LEAF then if entry_dirty e then None else Some [mk_leaf_ref h c (entry_kv e)]
          else if entry_type e =? TYPE_JUMP then
            let syms := map (fun i => get_jump_symbol e (Z.of_nat i)) (seq 0 (Z.to_nat (entry_jump_size e))) in
            match linked_leaves k t (accumulate_list t h syms) (entry_child_color e) with
            | Some L => if max_leaf_okb e L && (0 <=? entry_jump_size e) then Some L else None
            | None => None
            end
          else
            match mapM (fun s => if get_bit (bits_area e) s
                                 then match child_colors t h c s with
                                      | [c'] => linked_leaves k t (accumulate_hash t h s) c'
                                      | _ => None
                                      end
                                 else Some []) all_symbols with
            | Some Ls => if max_leaf_okb e (concat Ls) && max_child_okb e && (entry_type e =? TYPE_BITMAP) then Some (concat Ls) else None
            | None => None
            end
      end
  end.

Lemma max_leaf_okb_ok e L : max_leaf_okb e L = true -> max_leaf_ok e L.
Proof.
  unfold max_leaf_okb, max_leaf_ok. destruct (last L) as [x|]; [|discriminate]. rewrite bool_decide_eq_true. intros E.
  now exists x.
Qed.

Lemma max_child_okb_ok e : entry_ok e -> max_child_okb e = true -> max_child_ok e.
Proof.
  intros He. unfold max_child_okb. rewrite !andb_true_iff, Z.leb_le. intros ((H1 & H2) & H3).
  pose proof (entry_byte e 8 He) as Hb. unfold is_byte in Hb. split; [unfold max_child in *; lia|]. split; [exact H2|].
  intros s Hs Hbit. rewrite forallb_forall in H3. specialize (H3 s). rewrite Hbit in H3. cbn [negb orb] in H3.
  apply Z.leb_le, H3, list_elem_of_In, elem_of_symbols_between. lia.
Qed.

Lemma mapM_flat_map {A B : Type} (g : A -> option (list B)) l ls :
  mapM g l = Some ls -> concat ls = flat_map (fun x => from_option id [] (g x)) l /\ forall x, x ∈ l -> is_Some (g x).
Proof.
  intros E. apply mapM_Some in E. induction E as [|x y l ls Hxy _ [IH1 IH2]]; [split; [done|]; intros x Hx; now apply not_elem_of_nil in Hx|].
  cbn [concat flat_map]. rewrite Hxy, IH1. split; [done|]. intros z Hz. apply elem_of_cons in Hz as [->|Hz]; [now rewrite Hxy|now apply IH2].
Qed.

Lemma linked_leaves_ok fuel t h c L :
  table_ok t -> linked_leaves fuel t h c = Some L ->
  exists n, extract fuel t h c = Some n /\ linked t n h c L.
Proof.
  intros Ht. revert h c L. induction fuel as [|k IH]; intros h c L E; [discriminate|].
  cbn [linked_leaves extract] in *. destruct (holder t (h, c)) as [[p e]|] eqn:Eh; [|discriminate].
  pose proof (holder_holds t _ p e Ht Eh) as Hh.
  destruct (Z.eqb_spec (entry_type e) TYPE_LEAF) as [Et|_]; [|destruct (Z.eqb_spec (entry_type e) TYPE_JUMP) as [Et|_]].
  - destruct (entry_dirty e) eqn:Ed; [discriminate|]. injection E as <-. exists (TLeaf (entry_kv e)). split; [done|].
    exists p, e. split; [done|]. split; [done|]. split; [now exists p|done].
  - set (syms := map _ _) in *. destruct (linked_leaves k t _ _) as [L'|] eqn:El; [|discriminate].
    destruct (max_leaf_okb e L' && (0 <=? entry_jump_size e)) eqn:Em; [|discriminate]. injection E as <-.
    apply andb_true_iff in Em as [Em Ej]. apply Z.leb_le in Ej.
    destruct (IH _ _ _ El) as (child & Ex & Hl). rewrite Ex. exists (TJump syms child). split; [done|].
    exists p, e. split; [done|]. split; [done|].
    split; [unfold syms; rewrite length_map, length_seq; lia|]. split; [|split; [now apply max_leaf_okb_ok|exact Hl]].
    intros i s Hi. unfold syms in Hi. apply list_lookup_fmap_Some in Hi as (j & -> & Hj). now apply lookup_seq in Hj as [-> _].
  - destruct (mapM _ all_symbols) as [Ls|] eqn:El; [|discriminate]. apply mapM_flat_map in El as [E1 E2].
    destruct (max_leaf_okb e (concat Ls) && max_child_okb e && (entry_type e =? TYPE_BITMAP)) eqn:Em; [|discriminate]. injection E as <-.
    apply andb_true_iff in Em as [Em Et]. apply andb_true_iff in Em as [Em Emc]. apply Z.eqb_eq in Et. rewrite E1 in Em |- *.
    eexists. split; [reflexivity|]. exists p, e. split; [exact Hh|]. split; [exact Et|].
    split; [now apply max_leaf_okb_ok|]. split; [apply max_child_okb_ok; [exact (proj1 (holds_ok t Ht _ _ _ Hh))|exact Emc]|].
    eexists. split; [reflexivity|]. intros s Hs.
    specialize (E2 s ltac:(apply elem_of_symbols_between; lia)). unfold is_symbol.
    destruct (Z.leb_spec 0 s), (Z.leb_spec s 32); try lia. cbn [andb]. destruct (get_bit (bits_area e) s) eqn:Eb; [|done].
    destruct (child_colors t h c s) as [|c' [|]] eqn:Ec; try (now destruct E2). destruct E2 as [L' EL']. rewrite EL'.
    destruct (IH _ _ _ EL') as (n' & Ex & Hl). rewrite Ex. split; [done|]. exists c'. split; [exact Hl|]. now apply child_colors_child.
Qed.

Definition followed_byb (e : ct_entry) (next : option leaf_ref) : bool :=
  match next with
  | Some y => bool_decide (next_leaf e = locator_of y)
  | None => loc_primary_bucket (next_leaf e) =? NO_BUCKET32
  end.

Fixpoint chain_okb (t : cuckoo_trie) (L : list leaf_ref) : bool :=
  match L with
  | [] => true
  | x :: L' =>
      match holder t (lr_hash x, lr_color x) with
      | Some (_, e) => followed_byb e (head L') && chain_okb t L'
      | None => false
      end
  end.

Definition list_okb (t : cuckoo_trie) (L : list leaf_ref) : bool :=
  match trie_entry t (trie_min_leaf t) with
  | Some e => (entry_type e =? TYPE_LEAF) && negb (entry_dirty e) && followed_byb e (head L) && chain_okb t L
  | None => false
  end.

Lemma followed_byb_ok e next : followed_byb e next = true -> followed_by e next.
Proof. destruct next; cbn [followed_byb followed_by]; [now rewrite bool_decide_eq_true|apply Z.eqb_eq]. Qed.

Lemma head_lookup0 {A : Type} (l : list A) : l !! 0%nat = head l.
Proof. now destruct l. Qed.

Lemma list_okb_ok t L : table_ok t -> list_okb t L = true -> list_ok t L.
Proof.
  intros Ht. unfold list_okb. destruct (trie_entry t _) as [e|] eqn:Ee; [|discriminate].
  rewrite !andb_true_iff, Z.eqb_eq, negb_true_iff. intros (((H1 & H2) & H3) & H4). split.
  - exists e. rewrite head_lookup0. split; [exact Ee|]. split; [done|]. split; [done|]. now apply followed_byb_ok.
  - clear H3. induction L as [|x L IH]; intros i y e' Hi He'; [discriminate|]. cbn [chain_okb] in H4.
    destruct (holder t _) as [[p e0]|] eqn:Eh; [|discriminate]. apply andb_true_iff in H4 as [H4 H5].
    destruct i as [|i]; [|exact (IH H5 i y e' Hi He')]. cbn in Hi. injection Hi as <-. change ((x :: L) !! 1%nat) with (L !! 0%nat).
    destruct He' as ((p' & Hh) & _). destruct (holds_entry _ _ _ _ _ _ Ht (holder_holds _ _ _ _ Ht Eh) Hh) as [_ <-].
    rewrite head_lookup0. now apply followed_byb_ok.
Qed.

Definition state_leaves (fuel : nat) (s : state) : list leaf_ref :=
  from_option id [] (linked_leaves fuel (trie s) HASH_START_VALUE ROOT_COLOR).

Definition ordered_rep_okb (fuel : nat) (s : state) : bool :=
  trie_rep_okb fuel s && bool_decide (is_Some (linked_leaves fuel (trie s) HASH_START_VALUE ROOT_COLOR)) &&
  list_okb (trie s) (state_leaves fuel s).

Lemma ordered_rep_okb_ok fuel s :
  ordered_rep_okb fuel s = true -> ordered_rep s (state_trie fuel s) (state_leaves fuel s).
Proof.
  unfold ordered_rep_okb, state_leaves. rewrite !andb_true_iff, bool_decide_eq_true. intros ((H1 & [L HL]) & H3).
  rewrite HL in *. cbn [from_option id] in *. apply trie_rep_okb_ok in H1. split; [exact H1| |now apply list_okb_ok, H3; apply H1].
  destruct (linked_leaves_ok _ _ _ _ _ (tr_table _ _ H1) HL) as (n & E & Hl). unfold state_trie. now rewrite E.
Qed.

Lemma sample_state_ordered : ordered_rep sample_state (state_trie 40 sample_state) (state_leaves 40 sample_state).
Proof. apply ordered_rep_okb_ok. vm_compute. reflexivity. Qed.

(** ** The property *)

(** C3. An iterator enumerates the keys from a given one on, in order. On a
    table that stores a trie, [ct_iter_goto key] returns at the first attempt,
    and the calls of [ct_iter_next] that follow return, one by one and in
    strictly increasing key order, exactly the objects whose keys are not
    smaller than [key], and NULL from then on. On an empty trie all of them
    return NULL. *)
Theorem ct_iter_in_order `{BucketLaws} `{Env} s bytes it :
  bytes_ok bytes -> Z.of_nat (length bytes) <= 255 -> (forall a, is_byte (ambient_byte a)) -> (0 < retry_fuel)%nat ->
  (forall n L, ordered_rep s n L ->
     exists it' ks, ct_iter_goto it bytes s = Ret it' (set_lock_mgr [] s) /\
       StronglySorted key_lt (key_of (kv_mem s) <$> ks) /\
       (forall kv, kv ∈ ks <-> leaf_of n kv /\ ~ key_lt (key_of (kv_mem s) kv) bytes) /\
       forall k, exists it2, take_next k it' (set_lock_mgr [] s) = Ret (map (fun i => ks !! i) (seq 0 k), it2) (set_lock_mgr [] s)) /\
  (is_empty (trie s) <> 0 ->
     exists it', ct_iter_goto it bytes s = Ret it' (set_lock_mgr [] s) /\
       forall s' k, take_next k it' s' = Ret (replicate k None, it') s').
Proof.
  intros Hb Hlen Ha Hfuel. split.
  - intros n L Hr. destruct (ct_iter_goto_spec Ha n L s bytes it Hr Hb Hlen Hfuel) as (it' & before & rest & E & (EL & HB & HA) & Hit).
    exists it', (lr_kv <$> rest). split; [exact E|].
    pose proof (tr_ok _ _ (or_rep _ _ _ Hr)) as Hok. pose proof (linked_kvs _ _ _ _ _ (or_linked _ _ _ Hr)) as Ekv.
    pose proof (leaves_sorted _ _ _ Hok) as Hs. rewrite <- Ekv, EL, fmap_app in Hs. split; [|split].
    + apply kv_sorted_keys. exact (sorted_app_r _ _ _ Hs).
    + intros kv. rewrite <- (elem_of_leaves _ _ _ _ Hok), <- Ekv, EL, fmap_app, elem_of_app. split.
      * intros Hkv. split; [now right|]. apply list_elem_of_fmap in Hkv as (x & -> & Hx). exact (proj1 (Forall_forall _ _) HA x Hx).
      * intros [[Hkv|Hkv] Hn]; [|done]. apply list_elem_of_fmap in Hkv as (x & -> & Hx). destruct Hn.
        exact (proj1 (Forall_forall _ _) HB x Hx).
    + intros k. destruct (take_next_spec n L (set_lock_mgr [] s) k it' rest (ordered_rep_locks _ _ _ _ Hr) Hit Hfuel) as (it2 & E2 & _).
      exists it2. rewrite E2. do 2 f_equal. apply map_ext. intros i. now rewrite list_lookup_fmap.
  - intros He.
    assert (Eg : exists it1, ct_iter_goto_internal it bytes s = Ret (SI_OK, it1) (set_lock_mgr [] s) /\ is_exhausted it1 = true).
    { exists (set_exhausted true (set_exhausted false it)). split; [|reflexivity]. unfold ct_iter_goto_internal, init_finger, read_is_empty. erewrite bind_Ret.
      2: { erewrite bind_Ret by reflexivity. cbn. destruct (Z.eqb_spec (is_empty (trie s)) 0); [done|]. reflexivity. }
      reflexivity. }
    destruct Eg as (it1 & E1 & Hx). exists (if is_last_leaf it1 then set_exhausted true it1 else it1). split.
    + unfold ct_iter_goto. destruct retry_fuel as [|fuel]; [lia|]. apply loop_inr. erewrite bind_Ret by exact E1. cbv iota beta.
      rewrite bool_decide_false by discriminate. destruct (is_last_leaf it1); cbn [is_exhausted set_exhausted]; rewrite ?Hx; reflexivity.
    + intros s' k. assert (Hx' : is_exhausted (if is_last_leaf it1 then set_exhausted true it1 else it1) = true)
        by (destruct (is_last_leaf it1); done).
      induction k as [|k IH]; [reflexivity|]. cbn [take_next]. erewrite bind_Ret by (unfold ct_iter_next; rewrite Hx'; reflexivity).
      cbv iota beta. erewrite bind_Ret by exact IH. reflexivity.
Qed.

Lemma ct_iter_in_order_witness :
  exists it' ks, @ct_iter_goto scalar_ops sample_env (@ct_iter_alloc sample_env) [1; 2; 4] sample_state = Ret it' (set_lock_mgr [] sample_state) /\
    StronglySorted key_lt (key_of (kv_mem sample_state) <$> ks) /\
    forall k, exists it2, @take_next scalar_ops sample_env k it' (set_lock_mgr [] sample_state) =
      Ret (map (fun i => ks !! i) (seq 0 k), it2) (set_lock_mgr [] sample_state).
Proof.
  destruct (@ct_iter_in_order scalar_ops scalar_laws sample_env sample_state [1; 2; 4] (@ct_iter_alloc sample_env)) as [H _].
  - apply bytes_ok_check. reflexivity.
  - cbn. lia.
  - intros a. unfold is_byte. cbn. lia.
  - cbn. lia.
  - destruct (H _ _ sample_state_ordered) as (it' & ks & H1 & H2 & _ & H3). exists it', ks.
    exact (conj H1 (conj H2 H3)).
Defined.
