(* ===== verification/Place.v ===== *)
(** * Where a new key belongs (main.c: descend, as ct_insert uses it)

    [tplace] is the place of a key in the abstract trie: the leaf it meets, the
    jump node it leaves, or the bitmap node that lacks a child for it. The
    descent that tracks its path ends there. *)

From S2P Require Import Prelude Bits Entry KeyObject State Hashing Symbols Random Atomics Table Contents Scalar Finger Insert Iter Api Alloc Lookup Order Linked Spine Sample IterSpec.
From stdpp Require Import base list gmap sorting.
From Stdlib Require Import ZArith Lia Bool.

#[local] Open Scope Z_scope.

(** ** Places *)

(** With the number of symbols before the place: at the leaf with that
    object, inside a jump node, or at a bitmap node without the child. *)
Inductive place :=
| at_leaf (kv k : Z)
| in_jump (k : Z)
| at_bitmap (k : Z).

#[export] Instance place_eq_dec : EqDecision place.
Proof. solve_decision. Defined.

(** How many of the symbols [syms] the key has from position [k]. *)
Fixpoint common (syms : list Z) (sym : Z -> Z) (k : Z) : nat :=
  match syms with
  | [] => 0
  | x :: l => if x =? sym k then S (common l sym (k + 1)) else 0
  end.

Fixpoint tplace (n : tnode) (sym : Z -> Z) (k : Z) : place :=
  match n with
  | TLeaf kv => at_leaf kv k
  | TJump syms child =>
      if follows syms sym k then tplace child sym (k + Z.of_nat (length syms))
      else in_jump (k + Z.of_nat (common syms sym k))
  | TBitmap f => match f (sym k) with Some c => tplace c sym (k + 1) | None => at_bitmap k end
  end.

Lemma common_at syms sym k d x :
  (forall i y, (i < d)%nat -> syms !! i = Some y -> y = sym (k + Z.of_nat i)) ->
  syms !! d = Some x -> x <> sym (k + Z.of_nat d) -> follows syms sym k = false /\ common syms sym k = d.
Proof.
  revert k d. induction syms as [|y syms IH]; intros k d Hm Hx Hne; [discriminate|]. cbn [follows common]. destruct d as [|d].
  - cbn in Hx. injection Hx as ->. rewrite Z.add_0_r in Hne. apply Z.eqb_neq in Hne. now rewrite Hne.
  - assert (Ey : (y =? sym k) = true) by (apply Z.eqb_eq; rewrite (Hm 0%nat y) by (done || lia); f_equal; lia).
    rewrite Ey. cbn [andb].
    destruct (IH (k + 1) d) as [-> ->]; [|exact Hx| |done].
    + intros i z Hi Hz. rewrite (Hm (S i) z) by (done || lia). f_equal. lia.
    + intros E. apply Hne. rewrite E. f_equal. lia.
Qed.

(** ** The descent *)

Section place.
Context `{BucketLaws} `{env : Env}.
Hypothesis ambient_ok : forall a, is_byte (ambient_byte a).
Variables (s : state) (n0 : tnode) (L0 : list leaf_ref).
Hypothesis s_rep : ordered_rep s n0 L0.
Variable o : ct_kv.
Hypothesis o_ok : kv_ok o.
Hypothesis o_short : key_size o <= 255.

Let bytes : list Z := kv_key o.
Let num : Z := num_symbols (Z.of_nat (length bytes)).
Let sym : Z -> Z := symbol_at bytes.

(** The finger is at node [n], and the place of the key is below it. *)
Record placed_at (f : ct_finger) (lb : option nat) (k : Z) (n : tnode) (h c : Z) (d : nat)
    (L B A : list leaf_ref) (pre : list Z) (pe : ct_path_entry) : Prop := mk_placed_at {
  pa_goto : goto_at s n0 L0 bytes f lb k n h c d L B A pre pe;
  pa_place : tplace n0 sym 0 = tplace n sym (Z.of_nat (length pre));
}.

(** Where the descent ends, with the symbol it reports. *)
Inductive descend_end (f : ct_finger) : option Z -> Prop :=
| de_leaf r lb k kv h c d L B A pre pe :
    placed_at f lb k (TLeaf kv) h c d L B A pre pe -> tplace n0 sym 0 = at_leaf kv k ->
    r = None \/ r = Some (sym k) -> descend_end f r
| de_jump lb k syms child h c d L B A pre pe x :
    placed_at f lb k (TJump syms child) h c d L B A pre pe -> tplace n0 sym 0 = in_jump k ->
    syms !! d = Some x -> x <> sym k -> descend_end f (Some (sym k))
| de_bitmap lb k fc h c d L B A pre pe :
    placed_at f lb k (TBitmap fc) h c d L B A pre pe -> tplace n0 sym 0 = at_bitmap k ->
    fc (sym k) = None -> 0 <= k <= num -> descend_end f (Some (sym k)).

Lemma bytes_facts : bytes_ok bytes /\ Z.of_nat (length bytes) <= 255 /\ Z.of_nat (length bytes) = key_size o.
Proof.
  split; [now apply kv_key_bytes_ok|]. pose proof (length_kv_key o o_ok) as E. unfold bytes. lia.
Qed.

(** What holds at the head of the loop. *)
Definition descend_inv (a : ct_finger * key_prefetcher) : Prop :=
  exists lb k n h c d L B A pre pe, placed_at (fst a) lb k n h c d L B A pre pe /\
    ahead (trie s) bytes (snd a) k /\ 0 <= k <= num.

Lemma descend_step f p :
  descend_inv (f, p) ->
  (exists f' r, descend_body true (f, p) s = Ret (inr (f', r)) s /\ descend_end f' r) \/
  (exists f' p', descend_body true (f, p) s = Ret (inl (f', p')) s /\ descend_inv (f', p') /\
     num - prefix_len f' < num - prefix_len f).
Proof.
  destruct bytes_facts as (Hb & Hlen & _). pose proof (num_symbols_short bytes Hlen) as Hn. fold num in Hn.
  intros (lb & k & n & h & c & d & L & B & A & pre & pe & [G Hpl] & Hah & Hk). cbn [fst snd] in *.
  pose proof (ga_finger _ _ _ _ _ _ _ _ _ _ _ _ _ _ _ _ G) as Hf.
  pose proof (ga_depth _ _ _ _ _ _ _ _ _ _ _ _ _ _ _ _ G) as Hd.
  pose proof (fa_prefix _ _ _ _ _ _ _ _ Hf) as Epl.
  destruct (descend_round (trie s) bytes s true f p k eq_refl Hah Hk Epl) as (p' & Hah' & E). destruct n as [kv|syms child|fc].
  - pose proof (goto_step_leaf s n0 L0 bytes f lb k kv h c d L B A pre pe (symbol_at bytes k)
      (prefix_hash_of (trie s) bytes (S (Z.to_nat k))) G) as Es.
    left. exists f, (Some (sym k)). split; [rewrite E; now erewrite bind_Ret by exact Es|].
    apply (de_leaf f (Some (sym k)) lb k kv h c d L B A pre pe); [now split| |now right].
    rewrite Hpl. cbn [tplace]. f_equal. pose proof (ga_jump _ _ _ _ _ _ _ _ _ _ _ _ _ _ _ _ G) as E0. cbn in E0. lia.
  - destruct (goto_step_jump s n0 L0 s_rep bytes Hlen f lb k syms child h c d L B A pre pe G Hk) as (x & Hx & _ & Hstep).
    pose proof (ga_jump _ _ _ _ _ _ _ _ _ _ _ _ _ _ _ _ G) as [_ Hm].
    destruct (Z.eqb_spec x (symbol_at bytes k)) as [Ex|Hne].
    + destruct Hstep as (f' & n' & h' & c' & d' & L' & B' & A' & pre' & pe' & Er & G' & Hnext).
      pose proof (Forall_lookup_1 _ _ _ _ (proj1 (proj2 (ga_ok _ _ _ _ _ _ _ _ _ _ _ _ _ _ _ _ G))) Hx) as Hxr. cbv beta in Hxr.
      assert (Hend : (symbol_at bytes k =? SYMBOL_END) = false) by (apply Z.eqb_neq; unfold SYMBOL_END; lia).
      right. exists f', p'. split; [rewrite E; erewrite bind_Ret by exact Er; now rewrite Hend|].
      assert (Hpl' : tplace n0 sym 0 = tplace n' sym (Z.of_nat (length pre'))).
      { rewrite Hpl. destruct Hnext as [[-> ->]|(-> & -> & Hfol)]; [done|]. cbn [tplace]. fold sym in Hfol. rewrite Hfol.
        now rewrite length_app, Nat2Z.inj_add. }
      pose proof (fa_prefix _ _ _ _ _ _ _ _ (ga_finger _ _ _ _ _ _ _ _ _ _ _ _ _ _ _ _ G')) as Epl'.
      split; [|lia]. exists lb, (k + 1), n', h', c', d', L', B', A', pre', pe'. cbn [fst snd].
      split; [now split|]. split; [exact Hah'|]. apply Z.eqb_neq in Hend. pose proof (symbol_not_end bytes k Hk Hend) as Hne. fold num in Hne. lia.
    + left. exists f, (Some (sym k)). split; [rewrite E; now erewrite bind_Ret by exact Hstep|].
      apply (de_jump f lb k syms child h c d L B A pre pe x); [now split| |exact Hx|exact Hne].
      rewrite Hpl. cbn [tplace]. destruct (common_at syms sym (Z.of_nat (length pre)) d x) as [-> ->]; [|exact Hx| |f_equal; lia].
      * intros i y Hi Hy. rewrite (Hm i y Hi Hy). unfold sym. f_equal. lia.
      * replace (Z.of_nat (length pre) + Z.of_nat d) with k by lia. exact Hne.
  - pose proof (goto_step_bitmap s n0 L0 s_rep bytes Hb Hlen f lb k fc h c d L B A pre pe G Hk) as Hstep. cbv zeta in Hstep.
    pose proof (ga_jump _ _ _ _ _ _ _ _ _ _ _ _ _ _ _ _ G) as E0. cbn in E0. assert (Ek : k = Z.of_nat (length pre)) by lia.
    destruct (fc (symbol_at bytes k)) as [ch|] eqn:Efc.
    + destruct Hstep as (f' & h' & c' & L' & B' & A' & pre' & pe' & Er & G' & ->).
      assert (Hpl' : tplace n0 sym 0 = tplace ch sym (Z.of_nat (length (pre ++ [symbol_at bytes k])))).
      { rewrite Hpl. cbn [tplace]. rewrite <- Ek. fold sym in Efc. rewrite Efc, length_app. cbn [length]. f_equal. lia. }
      pose proof (fa_prefix _ _ _ _ _ _ _ _ (ga_finger _ _ _ _ _ _ _ _ _ _ _ _ _ _ _ _ G')) as Epl'.
      destruct (Z.eqb_spec (symbol_at bytes k) SYMBOL_END) as [Eend|Hne].
      * left. exists f', None. split; [rewrite E; erewrite bind_Ret by exact Er; now rewrite Eend|].
        pose proof (ga_ok _ _ _ _ _ _ _ _ _ _ _ _ _ _ _ _ G (symbol_at bytes k)) as Hok. cbv beta in Hok. rewrite Efc in Hok.
        destruct Hok as (_ & _ & Hleaf). specialize (Hleaf Eend). destruct ch as [kv| |]; try discriminate.
        apply (de_leaf f' None (Some (length (path f) - 1)%nat) (k + 1) kv h' c' 0 L' B' A' (pre ++ [symbol_at bytes k]) pe');
          [now split| |now left]. rewrite Hpl'. cbn [tplace]. f_equal. rewrite length_app. cbn. lia.
      * right. exists f', p'. split; [rewrite E; now erewrite bind_Ret by exact Er|].
        split; [|lia]. exists (Some (length (path f) - 1)%nat), (k + 1), ch, h', c', 0%nat, L', B', A', (pre ++ [symbol_at bytes k]), pe'.
        cbn [fst snd]. split; [now split|]. split; [exact Hah'|]. pose proof (symbol_not_end bytes k Hk Hne) as Hle. fold num in Hle. lia.
    + left. exists f, (Some (sym k)). split; [rewrite E; now erewrite bind_Ret by exact Hstep|].
      apply (de_bitmap f lb k fc h c d L B A pre pe); [now split| |exact Efc|exact Hk].
      rewrite Hpl. cbn [tplace]. rewrite <- Ek. fold sym in Efc. now rewrite Efc.
Qed.

(** [descend] from the root, as [ct_insert_internal] calls it. *)
Lemma descend_place f :
  finger_at (trie s) bytes f n0 HASH_START_VALUE ROOT_COLOR 0 0 ->
  path f = [mk_path_entry (containing_entry f) HASH_START_VALUE] ->
  exists f' r, descend f (kv_key_size o) (kv_key_bytes o) true s = Ret (f', r) s /\ descend_end f' r.
Proof.
  intros Hf Hp. destruct bytes_facts as (Hb & Hlen & Els). pose proof (num_symbols_short bytes Hlen) as Hn. fold num in Hn.
  pose proof o_ok as (K1 & K2 & K3 & K4).
  assert (Ek : Z.of_nat (Z.to_nat (key_size o)) = key_size o) by lia.
  destruct (@prefetcher_start_spec (env_after (kv_bytes o) env) bytes Hb
    (key_mem_byte (kv_bytes o) K4 ambient_ok) s ltac:(lia)) as (p & Ep & Hpo & Epos).
  rewrite Els, <- Ek in Ep. change bytes with (take (Z.to_nat (key_size o)) (kv_bytes o)) in Ep. rewrite <- prefetcher_start_take in Ep by lia. rewrite Ek in Ep.
  unfold descend. rewrite kv_key_size_eq by done. unfold kv_key_bytes. erewrite bind_Ret by exact Ep.
  destruct (loop_total descend_inv (fun a => descend_end (fst a) (snd a)) (fun a => num - prefix_len (fst a))
    (descend_body true) s) with (n := S (Z.to_nat MAX_KEY_SYMBOLS)) (a := (f, p)) as ([f' r] & E & Hend).
  - intros [f1 p1] (lb & k & n & h & c & d & L & B & A & pre & pe & [G _] & _ & Hk). cbn [fst snd] in *.
    rewrite (fa_prefix _ _ _ _ _ _ _ _ (ga_finger _ _ _ _ _ _ _ _ _ _ _ _ _ _ _ _ G)). lia.
  - intros [f1 p1] Hinv. destruct (descend_step f1 p1 Hinv) as [(f' & r & E & Hend)|(f' & p' & E & Hinv' & Hlt)].
    + left. now exists (f', r).
    + right. now exists (f', p').
  - exists None, 0, n0, HASH_START_VALUE, ROOT_COLOR, 0%nat, L0, [], [], [], (mk_path_entry (containing_entry f) HASH_START_VALUE).
    cbn [fst snd]. split; [split; [now apply goto_start|done]|]. split; [split; [exact Hpo|rewrite Epos; unfold num in *; lia]|lia].
  - cbn [fst]. rewrite (fa_prefix _ _ _ _ _ _ _ _ Hf), max_key_symbols. lia.
  - now exists f', r.
Qed.
End place.
