(* ===== verification/Frame.v ===== *)
(** * What is unique about the nodes of a trie, and what an update leaves alone

    The entry of a node determines the subtree below it, so no entry belongs
    to two nodes. An update of the nodes on a path therefore leaves the
    subtrees beside the path as they are. *)

From S2P Require Import Prelude Bits Entry KeyObject State Hashing Symbols Atomics Table Contents Cells Finger Insert Api Lookup Preserve Order Linked Spine.
From stdpp Require Import base list gmap sorting.
From Stdlib Require Import ZArith Lia Bool.

#[local] Open Scope Z_scope.

(** An entry of two types. *)
Ltac type_clash :=
  exfalso; match goal with H1 : entry_type ?e = _, H2 : entry_type ?e = _ |- _ => rewrite H1 in H2; discriminate end.

(** ** The entry determines the subtree *)

Fixpoint theight (n : tnode) : nat :=
  match n with
  | TLeaf _ => 0
  | TJump _ child => S (theight child)
  | TBitmap f => S (foldr Nat.max 0%nat (map (fun s => match f s with Some c => theight c | None => 0%nat end) all_symbols))
  end.

Lemma foldr_max_le (l : list nat) x : x ∈ l -> (x <= foldr Nat.max 0%nat l)%nat.
Proof. induction 1 as [x l|x y l _ IH]; cbn; lia. Qed.

Lemma theight_child f s ch : 0 <= s <= 32 -> f s = Some ch -> (theight ch < theight (TBitmap f))%nat.
Proof.
  intros Hs Hf. cbn [theight]. apply Nat.lt_succ_r, foldr_max_le. apply list_elem_of_fmap. exists s.
  rewrite Hf. split; [done|]. apply elem_of_symbols_between. lia.
Qed.

Lemma linked_det t n h c L : table_ok t -> linked t n h c L ->
  forall n' L', linked t n' h c L' -> theight n = theight n' /\ L = L' /\ is_leaf n = is_leaf n'.
Proof.
  intros Ht. revert h c L. induction n as [kv|syms child IH|f IH] using tnode_ind; intros h c L H1 n' L' H2;
    apply linked_unfold in H1 as (p & e & Hh & Hn), H2 as (p' & e' & Hh' & Hn');
    destruct (holds_entry _ _ _ _ _ _ Ht Hh Hh') as [_ <-]; clear Hh'.
  - destruct Hn as (-> & _ & Ty & Hk & _). cbn [lr_kv] in Hk. destruct n' as [kv'|syms' child'|f'].
    + destruct Hn' as (-> & _ & _ & Hk' & _). cbn [lr_kv] in Hk'. subst. done.
    + destruct Hn' as (Ty' & _). type_clash.
    + destruct Hn' as (Ty' & _). type_clash.
  - destruct Hn as (Ty & Hsz & Hsy & _ & Hl). destruct n' as [kv'|syms' child'|f'].
    + destruct Hn' as (_ & _ & Ty' & _). type_clash.
    + destruct Hn' as (_ & Hsz' & Hsy' & _ & Hl').
      assert (syms' = syms) as ->.
      { apply list_eq_same_length with (n := length syms); [lia|lia|]. intros i x y _ Hx Hy. rewrite <- (Hsy' i x Hx), <- (Hsy i y Hy). done. }
      cbn [theight is_leaf]. destruct (IH _ _ _ Hl _ _ Hl') as (-> & -> & _). done.
    + destruct Hn' as (Ty' & _). type_clash.
  - destruct Hn as (Ty & _ & _ & g & -> & Hg). destruct n' as [kv'|syms' child'|f'].
    + destruct Hn' as (_ & _ & Ty' & _). type_clash.
    + destruct Hn' as (Ty' & _). type_clash.
    + destruct Hn' as (_ & _ & _ & g' & -> & Hg').
      assert (H : forall s, s ∈ all_symbols -> g s = g' s /\
        match f s with Some c => theight c | None => 0%nat end = match f' s with Some c => theight c | None => 0%nat end).
      { intros s Hs. apply elem_of_symbols_between in Hs. specialize (Hg s ltac:(lia)). specialize (Hg' s ltac:(lia)).
        destruct (f s) as [ch|] eqn:E, (f' s) as [ch'|].
        - destruct Hg as (_ & c1 & Hl & Hc), Hg' as (_ & c2 & Hl' & Hc').
          rewrite (child_of_unique _ _ _ _ _ _ Hc' Hc) in Hl'. now destruct (IH s ch E _ _ _ Hl _ _ Hl') as (-> & -> & _).
        - destruct Hg, Hg'. congruence.
        - destruct Hg, Hg'. congruence.
        - destruct Hg as (_ & ->), Hg' as (_ & ->). done. }
      cbn [theight is_leaf]. split; [|split; [|done]].
      * do 2 f_equal. apply map_ext_Forall, Forall_forall. intros s Hs. apply H, Hs.
      * apply flat_map_ext_elem. intros s Hs. apply H, Hs.
Qed.

Lemma linked_nonempty t n h c L : linked t n h c L -> exists x, x ∈ L.
Proof. intros H. destruct (linked_last _ _ _ _ _ H) as (x & Hx). exists x. now apply last_Some_elem_of. Qed.

(** A subtree's leaves are distinct. *)
Lemma linked_nodup t m n h c L pre : linked t n h c L -> trie_ok m n pre -> NoDup L.
Proof.
  intros Hl Hok. apply (NoDup_fmap_1 lr_kv). rewrite (linked_kvs _ _ _ _ _ Hl).
  pose proof (leaves_sorted _ _ _ Hok) as Hs. induction Hs as [|x l _ IH Hx]; constructor; [|exact IH].
  intros Hin. pose proof (proj1 (Forall_forall _ _) Hx x Hin) as Hlt. exact (key_lt_irrefl _ Hlt).
Qed.

(** ** Updates *)

(** [e'] says of a node what [e] says; a leaf may have another successor, an
    inner node another parent. *)
Record alike (e e' : ct_entry) : Prop := mk_alike {
  al_type : entry_type e' = entry_type e;
  al_inner : entry_type e <> TYPE_LEAF -> bits_area e' = bits_area e;
  al_kv : entry_kv e' = entry_kv e;
  al_dirty : entry_dirty e' = entry_dirty e;
}.

Lemma alike_refl e : alike e e.
Proof. done. Qed.

Lemma same_area_byte e e' i : bits_area e' = bits_area e -> (3 <= i)%nat -> byte_at e' i = byte_at e i.
Proof.
  intros E Hi. replace i with (3 + (i - 3))%nat by lia. now rewrite <- !byte_at_bits_area, E.
Qed.

Lemma same_area_fields e e' :
  bits_area e' = bits_area e ->
  max_leaf e' = max_leaf e /\ max_child e' = max_child e /\ entry_jump_size e' = entry_jump_size e /\
  entry_child_color e' = entry_child_color e /\ forall i, get_jump_symbol e' i = get_jump_symbol e i.
Proof.
  intros E. pose proof (fun i => same_area_byte e e' i E) as H.
  unfold max_child, entry_jump_size, entry_child_color, child_color_and_jump_size, get_jump_symbol, entry_locator, load_bytes.
  cbn [map seq Nat.add]. rewrite !H, E by lia. done.
Qed.

Section frame.
Variables t t' : cuckoo_trie.
Hypothesis t_ok : table_ok t.
Hypothesis params : same_params t t'.
(** The keys of the nodes that change. *)
Variable M : Z * Z -> Prop.
Hypothesis kept : forall p k e, holds t p k e -> ~ M k -> exists e', holds t' p k e' /\ alike e e'.
Hypothesis kept_child : forall p h c s c' e, holds t p (h, c) e -> entry_type e = TYPE_BITMAP -> 0 <= s <= 32 -> get_bit (bits_area e) s = true ->
  child_of t h c s c' -> child_of t' h c s c'.

Lemma leaf_entry_kept x e : leaf_entry t x e -> ~ M (lr_hash x, lr_color x) -> exists e', leaf_entry t' x e' /\ alike e e'.
Proof.
  intros ((p & Hh) & Ty & Hk & Hd) Hm. destruct (kept _ _ _ Hh Hm) as (e' & Hh' & Hal). exists e'. split; [|exact Hal].
  destruct Hal as [A1 A2 A3 A4]. split; [eauto|]. split; [congruence|]. split; congruence.
Qed.

(** No changed node is in a subtree when each is higher, or has other leaves. *)
Lemma linked_frame n h c L :
  linked t n h c L -> (forall hm cm, M (hm, cm) -> exists nm Lm, linked t nm hm cm Lm /\
    ((theight n < theight nm)%nat \/ forall x, x ∈ L -> x ∈ Lm -> False)) ->
  linked t' n h c L.
Proof.
  revert h c L. induction n as [kv|syms child IH|f IH] using tnode_ind; intros h c L Hl HM;
    (assert (Hn : ~ M (h, c)) by
      (intros Hm; destruct (HM _ _ Hm) as (nm & Lm & Hlm & Hor); destruct (linked_det _ _ _ _ _ t_ok Hl _ _ Hlm) as (Eh & <- & _);
       destruct (linked_nonempty _ _ _ _ _ Hl) as (x & Hx); destruct Hor as [Hlt|Hd]; [lia|exact (Hd x Hx Hx)]));
    apply linked_unfold in Hl as (p & e & Hh & Hat); apply linked_unfold.
  - destruct Hat as (-> & Hle). destruct (leaf_entry_kept _ _ Hle Hn) as (e' & Hle' & _). pose proof Hle' as ((p' & Hh') & _).
    exists p', e'. done.
  - destruct Hat as (Ty & Hsz & Hsy & Hml & Hl). destruct (kept _ _ _ Hh Hn) as (e' & Hh' & Hal).
    destruct (same_area_fields e e') as (E1 & E2 & E3 & E4 & E5); [apply (al_inner _ _ Hal); rewrite Ty; discriminate|].
    exists p, e'. split; [done|]. split; [now rewrite (al_type _ _ Hal)|]. split; [congruence|].
    split; [intros i s Hi; rewrite E5; now apply Hsy|]. split; [unfold max_leaf_ok; now rewrite E1|].
    rewrite (accumulate_list_params _ _ params), E4. apply IH; [exact Hl|].
    intros hm cm Hm. destruct (HM hm cm Hm) as (nm & Lm & Hlm & [Hlt|Hd]); exists nm, Lm; (split; [done|]); [left; cbn [theight] in Hlt; lia|now right].
  - destruct Hat as (Ty & Hml & Hmc & g & -> & Hg). destruct (kept _ _ _ Hh Hn) as (e' & Hh' & Hal).
    assert (Eb : bits_area e' = bits_area e) by (apply (al_inner _ _ Hal); rewrite Ty; discriminate).
    destruct (same_area_fields e e' Eb) as (E1 & E2 & _). exists p, e'. split; [done|]. split; [now rewrite (al_type _ _ Hal)|].
    split; [unfold max_leaf_ok; now rewrite E1|]. split; [unfold max_child_ok; now rewrite E2, Eb|].
    exists g. split; [done|]. rewrite Eb. intros s Hs. pose proof (Hg s Hs) as Hgs. destruct (f s) as [ch|] eqn:Ef; [|exact Hgs].
    destruct Hgs as (Hb & c' & Hl & Hc). split; [exact Hb|]. exists c'. split; [|now apply (kept_child p _ _ _ _ e)].
    rewrite (accumulate_hash_params _ _ params).
    apply (IH s ch Ef); [exact Hl|]. intros hm cm Hm. destruct (HM hm cm Hm) as (nm & Lm & Hlm & [Hlt|Hd]); exists nm, Lm; (split; [done|]).
    + left. pose proof (theight_child f s ch Hs Ef). lia.
    + right. intros x Hx. apply Hd. apply elem_of_flat_map. exists s. split; [|exact Hx]. apply elem_of_symbols_between. lia.
Qed.
End frame.
