(* ===== verification/TableSpec.v ===== *)
(** * The hash table under load (main.c: relocate_entry, add_entry; write locks)

    The theorems about a table whose buckets are full, stated for any table
    and applied to a trie of 64 buckets that holds 68 keys. *)

From S2P Require Import Prelude Bits Entry KeyObject State Hashing Symbols Random Atomics Table Contents Store Locks Cells Search Relocate AddEntry Scalar Finger Insert Iter Api Alloc Verify Lookup Sample.
From stdpp Require Import base list gmap.
From Stdlib Require Import ZArith Lia Bool.

#[local] Open Scope Z_scope.

(** ** The search for a free cell *)

(** The buckets an entry can be moved to, in any number of moves, when a
    cell of [start] has to be freed. *)
Inductive reaches (t : cuckoo_trie) (immovable : option pos) (start : Z) : Z -> Prop :=
  | reaches_start : reaches t immovable start start
  | reaches_move b c e :
      reaches t immovable start b -> movable t immovable (mk_pos b c) e ->
      reaches t immovable start (alternate_bucket t e b).

Section search.
Variables (t : cuckoo_trie) (immovable : option pos) (start : Z).

Lemma queue_reached Q i q : queue_ok t immovable start Q -> Q !! i = Some q -> reaches t immovable start (q_bucket q).
Proof.
  intros HQ. revert q. induction (lt_wf i) as [i _ IH]. intros q Hq. destruct (decide (i = 0%nat)) as [->|Hi].
  - destruct (qo_head _ _ _ _ HQ) as (q0 & Hq0 & <-). rewrite Hq in Hq0. injection Hq0 as <-. constructor.
  - destruct (qo_link _ _ _ _ HQ i q ltac:(lia) Hq) as [(Hlt & q' & e & Hq' & Hm & <-) _].
    apply (reaches_move _ _ _ _ (q_child_idx q)); [exact (IH _ Hlt q' Hq')|exact Hm].
Qed.

Lemma link_reached Q n par idx b :
  queue_ok t immovable start Q -> link t immovable Q n par idx b -> reaches t immovable start b.
Proof.
  intros HQ (_ & q & e & Hq & Hm & <-). apply (reaches_move _ _ _ _ idx); [now apply (queue_reached Q par)|exact Hm].
Qed.

(** A queue that was explored to its end, and never full, holds every
    bucket that can be reached. *)
Lemma explored_all Q b :
  queue_ok t immovable start Q -> explored t immovable Q (length Q) -> (length Q < RELOCATE_QUEUE_SIZE)%nat ->
  reaches t immovable start b -> queued Q b.
Proof.
  intros HQ Hexp Hlen. induction 1 as [|b c e _ (i & q & Hi & <-) Hm].
  - destruct (qo_head _ _ _ _ HQ) as (q & Hq & <-). now exists 0%nat, q.
  - pose proof (lookup_lt_Some _ _ _ Hi) as Hlt.
    destruct (Hexp i q c Hlt Hi (mv_cell _ _ _ _ Hm) e Hm) as [Hq|Hq]; [exact Hq|lia].
Qed.
End search.

(** C13. The breadth-first search of [relocate_entry] always ends, on every
    table and from every full bucket, without touching the state. It never
    looks at a bucket twice. A cell it reports is free, and it gives up only
    when no bucket that can be reached by moving entries has a free cell,
    unless its queue of 1000 buckets is full. *)
Theorem relocate_search_terminates (s : state) (immovable : option pos) (start : Z) :
  table_ok (trie s) -> full (trie s) start -> 0 <= start < num_buckets (trie s) ->
  exists queue queue_pos found,
    relocate_search immovable start s = Ret (queue, queue_pos, found) s /\
    NoDup (q_bucket <$> queue) /\ (length queue <= RELOCATE_QUEUE_SIZE)%nat /\
    match found with
    | Some fc =>
        reaches (trie s) immovable start (pos_bucket (fc_free_cell fc)) /\
        exists e, trie_entry (trie s) (fc_free_cell fc) = Some e /\ used e = false
    | None =>
        (length queue < RELOCATE_QUEUE_SIZE)%nat ->
        forall b, reaches (trie s) immovable start b -> full (trie s) b
    end.
Proof.
  intros Ht Hfull Hin.
  destruct (relocate_search_spec (trie s) immovable start (table_shape _ Ht) s eq_refl Hfull Hin)
    as ([[Q n] found] & E & [HQ Hf] & Hn).
  exists Q, n, found. split; [exact E|]. split; [apply HQ|]. split; [apply HQ|]. destruct found as [fc|].
  - destruct Hf as [_ Hf]. split; [exact (link_reached _ _ _ _ _ _ _ _ HQ (fo_link _ _ _ _ _ Hf))|apply Hf].
  - subst n. intros Hlen b Hb. destruct (explored_all _ _ _ _ _ HQ Hf Hlen Hb) as (i & q & Hi & <-).
    exact (qo_full _ _ _ _ HQ i q Hi).
Qed.

(** ** Relocation *)

(** C11. [relocate_entry], called on a full bucket this thread has locked,
    either finds no path and leaves the state alone, or returns an unused
    cell of that bucket. Then the table is well formed and holds the same
    entries under the same hashes and colors, only their cells differ; the
    immovable entry and the root have not moved, entries that were locked
    are locked where they are now, and no bucket lock is left behind. It
    never faults, and never asks for a retry. *)
Theorem relocate_entry_correct (s : state) (N : Z) (immovable : option pos) (start : Z) :
  table_ok (trie s) -> locks_ok N s -> 0 <= N /\ N + RELOCATE_REFS < 2 ^ 32 ->
  full (trie s) start -> 0 <= start < num_buckets (trie s) -> 1 <= bucket_refs (lock_mgr s) start ->
  path_room immovable start s ->
  relocate_entry start immovable s = Ret (SI_FAIL, None) s \/
  exists p s', relocate_entry start immovable s = Ret (SI_OK, Some p) s' /\
    pos_bucket p = start /\ (exists e, trie_entry (trie s') p = Some e /\ used e = false) /\
    table_ok (trie s') /\ kv_mem s' = kv_mem s /\
    (forall k e, contents (trie s') k e <-> contents (trie s) k e) /\
    (forall q e, Some q = immovable \/ q = root_pos -> trie_entry (trie s) q = Some e -> used e = true ->
       trie_entry (trie s') q = Some e) /\
    (forall k, entries_locked (trie s) (trie_entry (trie s)) (lock_mgr s) k ->
       entries_locked (trie s') (trie_entry (trie s')) (lock_mgr s') k) /\
    (forall b, bucket_refs (lock_mgr s') b = bucket_refs (lock_mgr s) b).
Proof.
  intros Ht Hl HN Hfull Hin Hlock Hroom.
  destruct (relocate_entry_spec N s immovable start Ht Hl HN Hfull Hin Hlock Hroom)
    as [E|(p & s' & E & [] & _ & Hp & _ & Hfree)]; [now left|right].
  exists p, s'. repeat (split; [assumption|]). split; [intros k e; now symmetry|done].
Qed.

(** ** Adding an entry *)

(** C10. [add_entry] always returns. On success the entry is in one of the
    two buckets of its hash, with a color that no entry of this hash had, so
    that hash and color now identify it; nothing else of what the table holds
    has changed, even if entries were relocated to make room, and the entry
    is locked if that was asked for. It succeeds at once when either bucket
    has a free cell. Otherwise it may also ask for a retry (a relocation
    changed the other bucket of the pair) or fail (no cell can be freed);
    then the table holds exactly what it held before. In all three cases the
    invariants hold, immovable and locked entries are kept, and every bucket
    lock is given back. *)
Theorem add_entry_correct `{laws : BucketLaws} (s : state) (h : Z) (e : ct_entry) (imm : option pos) (lock : bool) (N : Z) :
  table_ok (trie s) -> locks_ok N s -> 0 <= N /\ N + 2 + RELOCATE_REFS < 2 ^ 32 -> hash_ok (trie s) h ->
  entry_ok e -> used e = true -> entry_is_secondary e = false -> add_room s h imm ->
  exists status result s', add_entry h e imm lock s = Ret (status, result) s' /\ kept imm s s' /\
    locks_ok (N + 2 + RELOCATE_REFS) s' /\
    (pair_has_room (trie s) h = true -> status = SI_OK) /\
    match result with
    | Some (p, x) => status = SI_OK /\ added h e lock s s' p x
    | None => (status = SI_RETRY \/ status = SI_FAIL) /\ forall k y, contents (trie s') k y <-> contents (trie s) k y
    end.
Proof.
  intros Ht Hl HN Hh He Hu Hp Hroom.
  destruct (add_entry_spec s h e imm lock N Ht Hl HN Hh He Hu Hp Hroom) as ([st r] & s' & E & Hk & Hl' & Hr).
  exists st, r, s'. split; [exact E|]. split; [exact Hk|]. split; [exact Hl'|].
  unfold add_result in Hr. destruct st, r as [[p x]|]; try contradiction.
  - split; [done|]. split; [done|exact Hr].
  - destruct Hr as [-> Hc]. split; [discriminate|]. split; [by left|exact Hc].
  - destruct Hr as [-> Hc]. split; [discriminate|]. split; [by right|exact Hc].
Qed.

(** ** The write locks *)

(** C25. Upgrading a read lock that is still valid takes the write lock: the
    lock byte of the bucket is set and one reference is counted. Releasing it
    restores the table, lock bytes included, and all reference counts:
    nested locks of the same bucket are counted, and the byte is cleared by
    the last release only. *)
Theorem bucket_lock_roundtrip (s : state) (N : Z) (b : Z) (bk : ct_bucket) :
  table_ok (trie s) -> locks_ok N s -> 1 <= N + 1 < 2 ^ 32 -> trie_bucket (trie s) b = Some bk -> room_for s b ->
  exists s1 s2,
    upgrade_bucket_lock (mk_read_lock b (seq_part (write_lock_and_seq bk))) s = Ret SI_OK s1 /\
    (forall bk1, trie_bucket (trie s1) b = Some bk1 -> write_lock bk1 = 1) /\
    bucket_refs (lock_mgr s1) b = bucket_refs (lock_mgr s) b + 1 /\
    release_bucket_lock b s1 = Ret tt s2 /\
    trie s2 = trie s /\ kv_mem s2 = kv_mem s /\
    (forall b', bucket_refs (lock_mgr s2) b' = bucket_refs (lock_mgr s) b' /\
                entry_refs (lock_mgr s2) b' = entry_refs (lock_mgr s) b').
Proof.
  intros Ht Hl HN Hb Hroom. pose proof (table_shape _ Ht) as Hsh.
  destruct (upgrade_bucket_lock_spec N s b bk Hl Hsh HN Hb Hroom) as (s1 & E1 & F1 & _). pose proof F1 as [A1 A2 A3 A4 A5 A6].
  assert (Hone : bucket_refs (lock_mgr s1) b = bucket_refs (lock_mgr s) b + 1) by (rewrite A6; unfold one_at; now rewrite Z.eqb_refl).
  pose proof (bucket_refs_nonneg N s b Hl) as Hnn.
  destruct (release_bucket_lock_spec (N + 1) s1 b A4 A2 ltac:(lia) ltac:(lia)) as (s2 & E2 & F2 & _).
  pose proof (lock_effect_trans _ _ _ _ _ _ _ _ _ F1 F2) as [B1 B2 B3 B4 B5 B6].
  assert (Hrefs : forall b', bucket_refs (lock_mgr s2) b' = bucket_refs (lock_mgr s) b' /\
                             entry_refs (lock_mgr s2) b' = entry_refs (lock_mgr s) b')
    by (intros b'; rewrite B6, A6, B5, A5; split; [lia|done]).
  exists s1, s2. split; [exact E1|]. split; [|split; [exact Hone|split; [exact E2|split; [|split; [exact B3|exact Hrefs]]]]].
  - intros bk1 Hbk1. rewrite (lks_bytes _ _ A4 _ _ Hbk1). destruct (refs_locked (lock_mgr s1) b ltac:(left; lia)) as [x ->]. done.
  - apply (same_locks_same_trie (N + 1)); [apply (locks_ok_mono N); [lia|done]|exact B4|exact B1|].
    intros b'. destruct (Hrefs b') as [R1 R2]. rewrite (locked_iff _ _ _ B4), (locked_iff _ _ _ Hl). now rewrite R1, R2.
Qed.

(** C24. [release_all_locks], which ends every operation, always returns and
    leaves no bucket locked and no lock record, whatever locks were held and
    how often; cells and sequence counters are untouched. *)
Theorem release_all_locks_correct (s : state) (N : Z) :
  table_ok (trie s) -> locks_ok N s ->
  exists s', release_all_locks s = Ret tt s' /\ unlocked (trie s') /\ lock_mgr s' = [] /\
    table_ok (trie s') /\ kv_mem s' = kv_mem s /\ (forall p, trie_entry (trie s') p = trie_entry (trie s) p) /\
    (forall b bk bk', trie_bucket (trie s) b = Some bk -> trie_bucket (trie s') b = Some bk' ->
       seq_part (write_lock_and_seq bk') = seq_part (write_lock_and_seq bk)).
Proof.
  intros Ht Hl. pose proof (table_shape _ Ht) as Hsh.
  destruct (release_all_locks_spec N s Hl Hsh) as (t' & E & Hsame & Hsh' & Hun).
  exists (mk_state t' [] (kv_mem s)). split; [exact E|]. cbn [trie lock_mgr kv_mem].
  assert (HE : forall p, trie_entry (trie s) p = trie_entry t' p) by (intros p; now apply same_but_locks_entry).
  split; [exact Hun|]. split; [done|]. split; [|split; [done|split; [intros p; now rewrite HE|]]].
  - now apply (table_ok_locks (trie s)).
  - intros b bk bk' Hb Hb'. destruct (same_seq _ _ _ _ Hsh Hsh' Hsame Hb) as (bk2 & Hb2 & Es). congruence.
Qed.
