(* ===== verification/Contended.v ===== *)
(** * Relocation while other threads hold locks (main.c: relocate_entry)

    [others_hold F s] is the state [s] in which other threads hold the locks of
    the buckets [F]. An operation on buckets that are not among them does
    there what it does in [s]. When one of them is on the path of the search,
    [relocate_entry] has to give up, and its final assertion fails. *)

From S2P Require Import Prelude Bits Entry KeyObject State Hashing Atomics Table Contents Store Locks Cells Search Relocate.
From stdpp Require Import base list gmap.
From Stdlib Require Import ZArith Lia Bool.

#[local] Open Scope Z_scope.

Definition hold_lock (t : cuckoo_trie) (m : Z) : cuckoo_trie :=
  match trie_bucket t m with Some bk => upd_bucket t m (set_write_lock 1 bk) | None => t end.

Definition others_hold (F : list Z) (s : state) : state := set_trie (foldl hold_lock (trie s) F) s.

(** ** Operations that do not touch a bucket *)

Definition not_mine (m : Z) (s : state) : Prop := Forall (fun l => wl_bucket l <> m) (lock_mgr s).

(** [op] runs in the same way when another thread holds the lock of bucket [m]. *)
Definition blind {A : Type} (m : Z) (op : MS A) : Prop :=
  forall s r s', not_mine m s -> op s = Ret r s' -> not_mine m s' /\ op (others_hold [m] s) = Ret r (others_hold [m] s').

Section blind.
Variable m : Z.

Lemma blind_bind {A B} (op : MS A) (k : A -> MS B) : blind m op -> (forall a, blind m (k a)) -> blind m (mbind k op).
Proof.
  intros H1 H2 s r s' Hm E. unfold mbind, M_bind in *. destruct (op s) as [a s1| |] eqn:E1; try discriminate.
  destruct (H1 s a s1 Hm E1) as [Hm1 ->]. exact (H2 a s1 r s' Hm1 E).
Qed.

Lemma blind_ret {A} (a : A) : blind m (mret a).
Proof. intros s r s' Hm [= <- <-]. now split. Qed.

Lemma blind_fault {A} : blind m (@fault _ A).
Proof. intros s r s' _ E. discriminate. Qed.

Lemma blind_lift {A} (o : option A) : blind m (lift o).
Proof. destruct o; [apply blind_ret|apply blind_fault]. Qed.

Lemma blind_assert b : blind m (assert b).
Proof. destruct b; [apply blind_ret|apply blind_fault]. Qed.

Lemma blind_locks : blind m get_locks.
Proof. intros s r s' Hm [= <- <-]. now split. Qed.

Lemma held_bucket t b : b <> m -> trie_bucket (hold_lock t m) b = trie_bucket t b.
Proof.
  intros Hb. unfold hold_lock. destruct (trie_bucket t m) as [bk|] eqn:E; [|done].
  rewrite (trie_bucket_upd _ _ _ _ _ E). destruct (Z.eqb_spec b m); [contradiction|done].
Qed.

Lemma held_upd t b bk : b <> m -> 0 <= b -> hold_lock (upd_bucket t b bk) m = upd_bucket (hold_lock t m) b bk.
Proof.
  intros Hb H0. unfold hold_lock, trie_bucket, upd_bucket, zlookup, zset. cbn [buckets set_buckets].
  destruct (Z.leb_spec 0 m); [|done]. destruct (Z.leb_spec 0 b); [|lia]. rewrite list_lookup_insert_ne by lia.
  destruct (buckets t !! Z.to_nat m); [|done]. cbn [buckets set_buckets]. unfold set_buckets. cbn. f_equal. apply list_insert_insert_ne. lia.
Qed.

Lemma blind_get b : b <> m -> blind m (get_bucket b).
Proof.
  intros Hb s r s' Hm E. unfold get_bucket, get_trie, lift, mbind, M_bind, gets in *. cbn [others_hold foldl trie set_trie] in *.
  rewrite held_bucket by done. destruct (trie_bucket (trie s) b) as [bk|]; [|discriminate]. injection E as <- <-. now split.
Qed.

Lemma blind_put b bk : b <> m -> blind m (put_bucket b bk).
Proof.
  intros Hb s r s' Hm E. destruct (trie_bucket (trie s) b) as [bk0|] eqn:Eb.
  - assert (Hb0 : 0 <= b) by (unfold trie_bucket, zlookup in Eb; destruct (Z.leb_spec 0 b); [done|discriminate]).
    rewrite (put_bucket_spec _ _ _ _ Eb) in E. injection E as <- <-. split; [done|].
    rewrite (put_bucket_spec (others_hold [m] s) b bk0) by (cbn; now rewrite held_bucket).
    unfold others_hold. cbn. unfold set_trie. cbn. now rewrite held_upd by done.
  - exfalso. unfold put_bucket, get_bucket, get_trie, lift, mbind, M_bind, gets in E. now rewrite Eb in E.
Qed.

Lemma blind_take b : b <> m -> blind m (try_take_lock b).
Proof. intros Hb. apply blind_bind; [now apply blind_get|]. intros bk. apply blind_bind; [now apply blind_put|]. intros _. apply blind_ret. Qed.

Lemma blind_update i f : (forall l, wl_bucket (f l) = wl_bucket l) -> blind m (update_lock i f).
Proof.
  intros Hf s r s' Hm E. unfold update_lock, get_locks, put_locks, modify, lift, mbind, M_bind, gets in *. cbn [lock_mgr others_hold set_trie] in *.
  destruct (lock_mgr s !! i) as [l|] eqn:El; [|discriminate]. injection E as <- <-. split; [|reflexivity].
  apply Forall_insert; [exact Hm|]. rewrite Hf. exact (Forall_lookup_1 _ _ _ _ Hm El).
Qed.

Lemma blind_add b : b <> m -> blind m (add_lock b).
Proof.
  intros Hb s r s' Hm E. unfold add_lock, get_locks, put_locks, modify, assert, mbind, M_bind, gets in *. cbn [lock_mgr others_hold set_trie] in *.
  destruct (_ <? _); [|discriminate]. injection E as <- <-. split; [|reflexivity].
  apply Forall_app. split; [exact Hm|]. now constructor.
Qed.

Lemma blind_remove i : blind m (remove_lock i).
Proof.
  intros s r s' Hm E. unfold remove_lock, get_locks, put_locks, modify, lift in *. unfold mbind, M_bind, gets in E |- *. cbn [lock_mgr others_hold set_trie] in *.
  destruct (lock_mgr s !! i) as [l|] eqn:El; [|discriminate]. destruct (last (lock_mgr s)) as [ll|] eqn:Ell; [|discriminate].
  cbn [mret M_ret] in *.
  assert (Hb : blind m (unlock_byte (wl_bucket l))).
  { apply blind_bind; [apply blind_get|intros bk; apply blind_put]; exact (Forall_lookup_1 _ _ _ _ Hm El). }
  apply (Hb _ _ _) in E; [|].
  - exact E.
  - apply Forall_take, Forall_insert; [exact Hm|]. apply last_Some_elem_of in Ell. exact (proj1 (Forall_forall _ _) Hm _ Ell).
Qed.

Lemma blind_release b : blind m (release_bucket_lock b).
Proof.
  apply blind_bind; [apply blind_locks|intros ls]. apply blind_bind; [apply blind_lift|intros i]. apply blind_bind; [apply blind_lift|intros l].
  apply blind_bind; [apply blind_assert|intros _]. apply blind_bind; [now apply blind_update|intros _].
  destruct (negb _); [apply blind_ret|apply blind_remove].
Qed.

Lemma blind_upgrade rl : rl_bucket rl <> m -> blind m (upgrade_bucket_lock rl).
Proof.
  intros Hb. apply blind_bind; [apply blind_locks|intros ls]. cbv zeta. destruct (find_write_lock ls (rl_bucket rl)).
  - apply blind_bind; [now apply blind_get|intros bk]. destruct (negb _); [apply blind_ret|].
    apply blind_bind; [now apply blind_update|intros _; apply blind_ret].
  - apply blind_bind.
    + apply blind_bind; [apply blind_locks|intros ls']. apply blind_bind; [apply blind_assert|intros _].
      apply blind_bind; [now apply blind_take|]. intros []; [|apply blind_ret].
      apply blind_bind; [now apply blind_add|intros i; apply blind_ret].
    + intros [i|]; [|apply blind_ret]. apply blind_bind; [now apply blind_get|intros bk]. destruct (negb _); [|apply blind_ret].
      apply blind_bind; [apply blind_release|intros _; apply blind_ret].
Qed.
End blind.

(** The same for several buckets. *)
Lemma others_hold_cons m F s : others_hold (m :: F) s = others_hold F (others_hold [m] s).
Proof. reflexivity. Qed.

Lemma others_hold_nil s : others_hold [] s = s.
Proof. now destruct s. Qed.

Lemma blind_all {A} (op : MS A) F s r s' :
  (forall m, m ∈ F -> blind m op) -> (forall m, m ∈ F -> not_mine m s) -> op s = Ret r s' -> op (others_hold F s) = Ret r (others_hold F s').
Proof.
  revert s s'. induction F as [|m F IH]; intros s s' Hop Hm E; [now rewrite !others_hold_nil|].
  destruct (Hop m (list_elem_of_here m F) s r s' (Hm m (list_elem_of_here m F)) E) as [_ E1]. rewrite (others_hold_cons m F s), (others_hold_cons m F s').
  apply IH; [intros m' Hm'; apply Hop; now right|intros m' Hm'; apply (Hm m'); now right|exact E1].
Qed.

(** ** A bucket that another thread holds *)

Lemma held_lock t m F bk : trie_bucket t m = Some bk -> bucket_ok bk -> m ∈ F -> exists bk', trie_bucket (foldl hold_lock t F) m = Some bk' /\
  bucket_ok bk' /\ write_lock bk' = 1 /\ set_write_lock 1 bk' = bk'.
Proof.
  intros Hb Hok Hin.
  assert (Hidem : forall b, bucket_ok b -> write_lock b = 1 -> set_write_lock 1 b = b).
  { intros b Hk Hw. unfold write_lock in Hw. rewrite land_255 in Hw. pose proof (set_write_lock_word 1 b (bk_word b Hk) ltac:(lia)) as E.
    assert (Ew : write_lock_and_seq (set_write_lock 1 b) = write_lock_and_seq b) by (pose proof (Z.div_mod (write_lock_and_seq b) 256); lia).
    change (set_write_lock 1 b) with (set_lock_word (write_lock_and_seq (set_write_lock 1 b)) b). rewrite Ew. now destruct b. }
  assert (H1 : forall F t bk, trie_bucket t m = Some bk -> bucket_ok bk -> (m ∈ F \/ write_lock bk = 1) ->
    exists bk', trie_bucket (foldl hold_lock t F) m = Some bk' /\ bucket_ok bk' /\ write_lock bk' = 1).
  { clear F t bk Hb Hok Hin. induction F as [|a F IH]; intros t bk Hb Hok Hin; cbn [foldl].
    - destruct Hin as [Hin|Hw]; [now apply elem_of_nil in Hin|]. exists bk. now split.
    - destruct (decide (a = m)) as [->|Hne].
      + apply (IH _ (set_write_lock 1 bk)); [|apply set_write_lock_ok; (done || lia)|right; apply write_lock_set; (done || lia)].
        unfold hold_lock. rewrite Hb, (trie_bucket_upd _ _ _ _ _ Hb). now rewrite Z.eqb_refl.
      + apply (IH _ bk); [rewrite held_bucket by done; exact Hb|exact Hok|].
        destruct Hin as [Hin|Hw]; [|now right]. left. apply elem_of_cons in Hin as [->|]; [done|assumption]. }
  destruct (H1 F t bk Hb Hok (or_introl Hin)) as (bk' & E1 & E2 & E3). exists bk'. do 3 (split; [done|]). now apply Hidem.
Qed.

Lemma upgrade_of_theirs s m F rl : rl_bucket rl = m -> m ∈ F -> find_write_lock (lock_mgr s) m = None ->
  (exists bk, trie_bucket (trie s) m = Some bk /\ bucket_ok bk) ->
  upgrade_bucket_lock rl (others_hold F s) = Ret SI_RETRY (others_hold F s).
Proof.
  intros Erl Hin Hm (bk & Hb & Hok). destruct (held_lock (trie s) m F bk Hb Hok Hin) as (bk' & Hb' & _ & Hw & Hi).
  unfold upgrade_bucket_lock, get_locks. erewrite bind_Ret by reflexivity. cbv zeta. rewrite Erl. cbn [lock_mgr others_hold set_trie]. rewrite Hm.
  assert (E : write_lock_unlocked_bucket m (others_hold F s) = Ret None (others_hold F s)).
  { unfold write_lock_unlocked_bucket, get_locks. erewrite bind_Ret by reflexivity. cbn [lock_mgr others_hold set_trie].
    erewrite bind_Ret by (apply assert_true; now apply bool_decide_eq_true).
    erewrite bind_Ret by (apply try_take_lock_spec; exact Hb'). rewrite Hw. cbn [Z.eqb]. cbv iota. rewrite Hi.
    rewrite upd_bucket_id by exact Hb'. reflexivity. }
  erewrite bind_Ret by exact E. reflexivity.
Qed.

(** ** The path *)

(** The first bucket of the path, from [occ] on, that others hold; [l] are the
    queue positions before it. *)
Inductive first_held (Q : list relocation_queue_entry) (F : list Z) : nat -> list nat -> nat -> Prop :=
| fh_here j q : (0 < j)%nat -> Q !! j = Some q -> q_bucket q ∈ F -> first_held Q F j [] j
| fh_next i q l j : (0 < i)%nat -> Q !! i = Some q -> q_bucket q ∉ F -> first_held Q F (q_parent_queue_pos q) l j -> first_held Q F i (i :: l) j.

Lemma first_held_exists Q F l occ : chain Q occ l -> (exists i, i ∈ l /\ bucket_of Q i ∈ F) ->
  exists l1 j, first_held Q F occ l1 j /\ (length l1 < length l)%nat /\ (forall i, i ∈ l1 -> i ∈ l).
Proof.
  induction 1 as [|i q l Hi Hq Hc IH]; intros (k & Hk & HF); [now apply elem_of_nil in Hk|].
  assert (Eb : bucket_of Q i = q_bucket q) by (unfold bucket_of; now rewrite Hq).
  destruct (decide (q_bucket q ∈ F)) as [Hin|Hno].
  - exists [], i. split; [now apply (fh_here Q F i q)|]. split; [cbn; lia|]. intros x Hx. now apply elem_of_nil in Hx.
  - apply elem_of_cons in Hk as [->|Hk]; [rewrite Eb in HF; contradiction|].
    destruct (IH (ex_intro _ k (conj Hk HF))) as (l1 & j & H1 & H2 & H3). exists (i :: l1), j.
    split; [now apply (fh_next Q F i q)|]. split; [cbn; lia|]. intros x Hx. apply elem_of_cons in Hx as [->|Hx]; [left|right; now apply H3].
Qed.

Lemma first_held_pos Q F occ l j : first_held Q F occ l j -> (0 < j)%nat.
Proof. induction 1; assumption. Qed.

Lemma not_mine_refs N s m : locks_ok N s -> lock_at (lock_mgr s) m = None <-> not_mine m s.
Proof.
  intros Hs. unfold not_mine. rewrite Forall_forall. split.
  - intros Hm l Hl E. assert (lock_at (lock_mgr s) m = Some l) by (apply lock_at_elem; [apply Hs|now split]). congruence.
  - intros Hall. destruct (lock_at (lock_mgr s) m) as [l|] eqn:E; [|done]. apply lock_at_elem in E as [Hl Hb]; [|apply Hs].
    exfalso. exact (Hall l Hl Hb).
Qed.

(** A lock operation on another bucket leaves the lock of [m] to the others. *)
Lemma not_mine_effect N N' s s' e r m : locks_ok N s -> not_mine m s -> lock_effect N' s s' e r ->
  e m = entry_refs (lock_mgr s) m -> r m = bucket_refs (lock_mgr s) m -> not_mine m s'.
Proof.
  intros Hs Hm He Ee Er. apply (not_mine_refs N s m Hs) in Hm. apply (not_mine_refs N' s' m (le_locks _ _ _ _ _ He)).
  destruct (lock_at (lock_mgr s') m) as [l|] eqn:E; [|done]. exfalso.
  assert (Hl : is_Some (lock_at (lock_mgr s') m)) by (rewrite E; eauto).
  apply (locked_iff N' s' m (le_locks _ _ _ _ _ He)) in Hl. rewrite (le_refs _ _ _ _ _ He), (le_entries _ _ _ _ _ He), Ee, Er in Hl.
  apply (locked_iff N s m Hs) in Hl as [x Hx]. congruence.
Qed.

Section path.
Variables (t : cuckoo_trie) (immovable : option pos) (start : Z) (Q : list relocation_queue_entry) (F : list Z).
Hypothesis t_shape : shape_ok t.
Hypothesis Q_ok : queue_ok t immovable start Q.

Definition theirs (s : state) : Prop := forall m, m ∈ F -> not_mine m s.

Lemma theirs_step N N' s s' e r b : locks_ok N s -> theirs s -> lock_effect N' s s' e r -> b ∉ F ->
  (forall m, e m = entry_refs (lock_mgr s) m) -> (forall m, m <> b -> r m = bucket_refs (lock_mgr s) m) -> theirs s'.
Proof.
  intros Hs Hm He Hb H1 H2 m Hin. apply (not_mine_effect N N' s s' e r m Hs (Hm m Hin) He (H1 m)). apply H2. intros ->. contradiction.
Qed.

(** The locks before the bucket are taken; then the attempt is given up. *)
Lemma upgrade_contended l occ j : first_held Q F occ l j -> forall fuel N s n,
  (length l < fuel)%nat -> locks_ok N s -> shape_ok (trie s) -> same_but_locks t (trie s) -> theirs s ->
  0 <= N -> N + Z.of_nat (length l) < 2 ^ 32 -> Z.of_nat (length (lock_mgr s) + length l) <= MAX_LOCKS ->
  exists s', relocate_upgrade fuel Q occ n (others_hold F s) = Ret (SI_RETRY, (n + length l)%nat) (others_hold F s') /\
    lock_effect (N + Z.of_nat (length l)) s s' (entry_refs (lock_mgr s)) (fun b => bucket_refs (lock_mgr s) b + path_refs Q l b) /\ theirs s'.
Proof.
  induction 1 as [j q Hj Hq Hin|i q l j Hi Hq Hno Hc IH]; intros fuel N s n Hfuel Hs Ht Hsame Hm HN0 HN Hmax;
    (destruct fuel as [|fuel]; [cbn in Hfuel; lia|]).
  - exists s. split; [|split; [|exact Hm]].
    + cbn [relocate_upgrade length]. destruct (Nat.eqb_spec j 0); [lia|]. rewrite Hq. erewrite bind_Ret by reflexivity.
      destruct (qo_link _ _ _ _ Q_ok j q Hj Hq) as [_ (bk & Hbk & Erl)].
      destruct (same_but_locks_bucket _ _ _ _ Hsame Hbk) as (bk' & Hbk' & _).
      erewrite bind_Ret.
      2: { apply (upgrade_of_theirs s (q_bucket q)); [now rewrite Erl|exact Hin| |exists bk'; split; [exact Hbk'|exact (proj1 (shape_bucket _ _ _ Ht Hbk'))]].
           apply lock_none. apply (not_mine_refs N s); [exact Hs|now apply Hm]. }
      cbv iota. now rewrite Nat.add_0_r.
    + split; try done; [cbn [length Z.of_nat]; now rewrite Z.add_0_r|]. intros b. cbn. lia.
  - destruct (qo_link _ _ _ _ Q_ok i q Hi Hq) as [_ (bk & Hbk & Erl)].
    destruct (same_but_locks_bucket _ _ _ _ Hsame Hbk) as (bk' & Hbk' & Hsb).
    destruct (shape_bucket _ _ _ t_shape Hbk) as [Hb1 _]. destruct (shape_bucket _ _ _ Ht Hbk') as [Hb2 _].
    rewrite <- (same_bucket_seq _ _ Hsb Hb1 Hb2) in Erl. cbn [length] in *.
    destruct (upgrade_bucket_lock_spec N s (q_bucket q) bk') as (s1 & E1 & F1 & N1); try done; try lia.
    { intros _. lia. }
    assert (Hm1 : theirs s1).
    { apply (theirs_step N _ s s1 _ _ (q_bucket q) Hs Hm F1 Hno); [done|]. intros b Hb. unfold one_at. destruct (Z.eqb_spec b (q_bucket q)); [contradiction|lia]. }
    destruct (IH fuel (N + 1) s1 (S n)) as (s2 & E2 & F2 & Hm2); try lia; try apply F1; try exact Hm1.
    { transitivity (trie s); [done|apply F1]. }
    exists s2. split; [|split; [|exact Hm2]].
    + cbn [relocate_upgrade]. destruct (Nat.eqb_spec i 0); [lia|]. rewrite Hq. erewrite bind_Ret by reflexivity.
      erewrite bind_Ret.
      2: { apply blind_all with (s' := s1); [|exact Hm|rewrite Erl; exact E1]. intros m Hm'. apply blind_upgrade. rewrite Erl. cbn. intros E. apply Hno. now rewrite E. }
      cbv iota. rewrite E2. do 2 f_equal. lia.
    + pose proof (lock_effect_trans _ _ _ _ _ _ _ _ _ F1 F2) as [A1 A2 A3 A4 A5 A6]. split; try done.
      * replace (N + Z.of_nat (S (length l))) with (N + 1 + Z.of_nat (length l)) by lia. exact A4.
      * intros b. rewrite A5. apply F1.
      * intros b. rewrite A6, (le_refs _ _ _ _ _ F1). cbn. fold (path_refs Q l b). unfold bucket_of at 1. rewrite Hq. cbn. lia.
Qed.

(** As many buckets are released again, and the release stops at the bucket. *)
Lemma release_contended l occ j : first_held Q F occ l j -> forall N s,
  locks_ok N s -> shape_ok (trie s) -> N < 2 ^ 32 -> theirs s -> (forall b, path_refs Q l b <= bucket_refs (lock_mgr s) b) ->
  exists s', relocate_release (length l) Q occ (others_hold F s) = Ret j (others_hold F s') /\
    lock_effect N s s' (entry_refs (lock_mgr s)) (fun b => bucket_refs (lock_mgr s) b - path_refs Q l b).
Proof.
  induction 1 as [j q Hj Hq Hin|i q l j Hi Hq Hno Hc IH]; intros N s Hs Ht HN Hm Hrefs.
  - exists s. split; [done|]. split; try done; intros b; cbn; lia.
  - assert (Eb : bucket_of Q i = q_bucket q) by (unfold bucket_of; now rewrite Hq).
    assert (Hr : forall b, path_refs Q (i :: l) b = one_at (q_bucket q) b + path_refs Q l b) by (intros b; cbn; now rewrite Eb).
    destruct (release_bucket_lock_spec N s (q_bucket q)) as (s1 & E1 & F1 & N1); try done.
    { specialize (Hrefs (q_bucket q)). rewrite Hr in Hrefs. unfold one_at in Hrefs. rewrite Z.eqb_refl in Hrefs.
      pose proof (path_refs_nonneg Q l (q_bucket q)). lia. }
    assert (Hm1 : theirs s1).
    { apply (theirs_step N _ s s1 _ _ (q_bucket q) Hs Hm F1 Hno); [done|]. intros b Hb. unfold one_at. destruct (Z.eqb_spec b (q_bucket q)); [contradiction|lia]. }
    destruct (IH N s1) as (s2 & E2 & F2); try apply F1; try done.
    { intros b. rewrite (le_refs _ _ _ _ _ F1). specialize (Hrefs b). rewrite Hr in Hrefs. lia. }
    exists s2. split.
    + cbn [length relocate_release]. rewrite Hq. erewrite bind_Ret by reflexivity.
      erewrite bind_Ret by (apply blind_all with (s' := s1); [intros m _; apply blind_release|exact Hm|exact E1]). exact E2.
    + pose proof (lock_effect_trans _ _ _ _ _ _ _ _ _ F1 F2) as [A1 A2 A3 A4 A5 A6]. split; try done.
      * intros b. rewrite A5. apply F1.
      * intros b. rewrite A6, (le_refs _ _ _ _ _ F1), Hr. lia.
Qed.
End path.

(** ** The property *)

Lemma hold_same t m : shape_ok t -> shape_ok (hold_lock t m) /\ same_but_locks t (hold_lock t m).
Proof.
  intros Ht. unfold hold_lock. destruct (trie_bucket t m) as [bk|] eqn:E; [|split; [exact Ht|reflexivity]].
  apply shape_set_lock; (done || lia).
Qed.

Lemma hold_all_same F : forall t, shape_ok t -> shape_ok (foldl hold_lock t F) /\ same_but_locks t (foldl hold_lock t F).
Proof.
  induction F as [|m F IH]; intros t Ht; cbn [foldl]; [split; [exact Ht|reflexivity]|].
  destruct (hold_same t m Ht) as [H1 H2]. destruct (IH _ H1) as [H3 H4]. split; [exact H3|]. now transitivity (hold_lock t m).
Qed.

Lemma full_locks t t' b : same_but_locks t t' -> full t b -> full t' b.
Proof.
  intros Hs (bk & Hb & Hf). destruct (same_but_locks_bucket _ _ _ _ Hs Hb) as (bk' & Hb' & Ec & _).
  exists bk'. split; [exact Hb'|]. unfold find_free_cell_in_bucket in *. now rewrite <- Ec.
Qed.

Section contended.
Variables (s : state) (F : list Z) (N : Z) (immovable : option pos) (start : Z).
Variables (Q : list relocation_queue_entry) (n : nat) (fc : found_cell) (l : list nat).
Hypothesis t_ok : table_ok (trie s).
Hypothesis l_ok : locks_ok N s.
Hypothesis N_ok : 0 <= N /\ N + RELOCATE_REFS < 2 ^ 32.
Hypothesis s_theirs : theirs F s.
Hypothesis room : Z.of_nat (S (length (lock_mgr s) + length l)) <= MAX_LOCKS.
Hypothesis Q_ok : queue_ok (trie (others_hold F s)) immovable start Q.
Hypothesis fc_ok : found_ok (trie (others_hold F s)) immovable Q (n - 1) fc.
Hypothesis l_chain : chain Q (n - 1) l.

Let b : Z := pos_bucket (fc_free_cell fc).
Hypothesis free_not_theirs : b ∉ F.

Lemma others_same : shape_ok (trie (others_hold F s)) /\ same_but_locks (trie s) (trie (others_hold F s)).
Proof. exact (hold_all_same F (trie s) (table_shape _ t_ok)). Qed.

(** The bucket of the free cell is locked. *)
Lemma free_upgraded : exists s1, upgrade_bucket_lock (fc_read_lock fc) (others_hold F s) = Ret SI_OK (others_hold F s1) /\
  lock_effect (N + 1) s s1 (entry_refs (lock_mgr s)) (fun b' => bucket_refs (lock_mgr s) b' + one_at b b') /\
  (length (lock_mgr s1) <= S (length (lock_mgr s)))%nat /\ theirs F s1.
Proof.
  destruct others_same as [Hsh0 Hsame0]. unfold RELOCATE_REFS in N_ok. destruct (fo_lock _ _ _ _ _ fc_ok) as (bk0 & Hbk0 & Erl). fold b in Hbk0, Erl.
  destruct (same_but_locks_bucket _ _ _ _ (symmetry Hsame0) Hbk0) as (bk & Hbk & Hsb).
  assert (Eseq : seq_part (write_lock_and_seq bk) = seq_part (write_lock_and_seq bk0)).
  { apply same_bucket_seq; [exact Hsb|apply (shape_bucket _ _ _ Hsh0 Hbk0)|apply (shape_bucket _ _ _ (table_shape _ t_ok) Hbk)]. }
  destruct (upgrade_bucket_lock_spec N s b bk l_ok (table_shape _ t_ok)) as (s1 & E1 & F1 & N1); [lia|exact Hbk|intros _; lia|].
  exists s1. split; [|split; [exact F1|split; [exact N1|]]].
  - rewrite Erl, <- Eseq. apply blind_all; [|exact s_theirs|exact E1]. intros m Hin. apply blind_upgrade. cbn. intros <-. contradiction.
  - apply (theirs_step F N _ s s1 _ _ b l_ok s_theirs F1 free_not_theirs); [done|].
    intros m Hne. unfold one_at. destruct (Z.eqb_spec m b); [contradiction|lia].
Qed.

Lemma chain_fits : (length l < length Q)%nat /\ (length Q <= RELOCATE_QUEUE_SIZE)%nat.
Proof.
  destruct (fo_link _ _ _ _ _ fc_ok) as (Hn & _). split; [|apply (qo_length _ _ _ _ Q_ok)].
  destruct (chain_exists _ immovable start Q Q_ok (n - 1)%nat Hn) as (l' & Hl' & Hf & Hnd).
  assert (l' = l) as -> by exact (chain_unique _ _ _ Hl' _ l_chain). pose proof (chain_length (n - 1) l Hf Hnd). lia.
Qed.

(** The path is given up at the first bucket that others hold. *)
Lemma path_given_up l1 j s1 : first_held Q F (n - 1) l1 j -> (length l1 < length l)%nat ->
  lock_effect (N + 1) s s1 (entry_refs (lock_mgr s)) (fun b' => bucket_refs (lock_mgr s) b' + one_at b b') ->
  (length (lock_mgr s1) <= S (length (lock_mgr s)))%nat -> theirs F s1 ->
  exists s4, relocate_path Q n fc (others_hold F s1) = Ret (SI_RETRY, None, j) (others_hold F s4) /\
    same_but_locks (trie s) (trie (others_hold F s4)) /\
    forall b', bucket_refs (lock_mgr s4) b' = bucket_refs (lock_mgr s) b' /\ entry_refs (lock_mgr s4) b' = entry_refs (lock_mgr s) b'.
Proof.
  intros Hj Hlen F1 N1 Hm1. destruct others_same as [Hsh0 Hsame0]. destruct chain_fits as [Hl HQ]. unfold RELOCATE_REFS in N_ok.
  destruct (upgrade_contended _ immovable start Q F Hsh0 Q_ok l1 (n - 1) j Hj (length Q) (N + 1) s1 1) as (s2 & E2 & F2 & Hm2); try lia; try apply F1; try exact Hm1.
  { transitivity (trie s); [now symmetry|apply F1]. }
  assert (Hr2 : forall m, bucket_refs (lock_mgr s2) m = bucket_refs (lock_mgr s) m + one_at b m + path_refs Q l1 m)
    by (intros m; rewrite (le_refs _ _ _ _ _ F2), (le_refs _ _ _ _ _ F1); lia).
  destruct (release_bucket_lock_spec (N + 1 + Z.of_nat (length l1)) s2 b) as (s3 & E3 & F3 & N3); try apply F2; try lia.
  { rewrite Hr2. unfold one_at. rewrite Z.eqb_refl. pose proof (path_refs_nonneg Q l1 b). pose proof (bucket_refs_nonneg N s b l_ok). lia. }
  assert (Hm3 : theirs F s3).
  { apply (theirs_step F _ _ s2 s3 _ _ b (le_locks _ _ _ _ _ F2) Hm2 F3 free_not_theirs); [done|].
    intros m Hne. unfold one_at. destruct (Z.eqb_spec m b); [contradiction|lia]. }
  destruct (release_contended Q F l1 (n - 1) j Hj (N + 1 + Z.of_nat (length l1)) s3) as (s4 & E4 & F4); try apply F3; try exact Hm3; try lia.
  { intros m. rewrite (le_refs _ _ _ _ _ F3), Hr2. pose proof (bucket_refs_nonneg N s m l_ok). lia. }
  exists s4. split; [|split].
  - unfold relocate_path. erewrite bind_Ret by exact E2. cbv iota beta. erewrite bind_Ret by reflexivity.
    fold b. erewrite bind_Ret by (apply blind_all with (s' := s3); [intros m _; apply blind_release|exact Hm2|exact E3]).
    replace (1 + length l1 - 1)%nat with (length l1) by lia. erewrite bind_Ret by exact E4. reflexivity.
  - transitivity (trie s4); [|apply hold_all_same, F4]. transitivity (trie s1); [apply F1|]. transitivity (trie s2); [apply F2|]. transitivity (trie s3); [apply F3|apply F4].
  - intros m. rewrite (le_refs _ _ _ _ _ F4), (le_refs _ _ _ _ _ F3), Hr2, (le_entries _ _ _ _ _ F4), (le_entries _ _ _ _ _ F3),
      (le_entries _ _ _ _ _ F2), (le_entries _ _ _ _ _ F1). split; [lia|done].
Qed.
End contended.

(** C40. Other threads hold the locks of the buckets [F]. When the search of
    [relocate_entry] finds a free cell in a bucket that they do not hold, and
    they hold a bucket in the middle of the path to it, all the code up to
    the final assertion runs: the upgrade of that bucket fails, the locks taken
    before are released again and the table is unchanged, which is a
    legitimate retry. But the release stops at the queue position of that
    bucket, which is not the first, so [assert(occupied_queue_pos == 0)] fails. *)
Theorem relocate_retry_assertion s F N immovable start Q n fc l i :
  table_ok (trie s) -> locks_ok N s -> 0 <= N /\ N + RELOCATE_REFS < 2 ^ 32 ->
  full (trie s) start -> 0 <= start < num_buckets (trie s) -> 1 <= bucket_refs (lock_mgr s) start ->
  (forall m, m ∈ F -> lock_at (lock_mgr s) m = None) -> path_room immovable start (others_hold F s) ->
  relocate_search immovable start (others_hold F s) = Ret (Q, n, Some fc) (others_hold F s) -> chain Q (n - 1) l ->
  pos_bucket (fc_free_cell fc) ∉ F -> i ∈ l -> bucket_of Q i ∈ F ->
  exists s1 stop s2, upgrade_bucket_lock (fc_read_lock fc) (others_hold F s) = Ret SI_OK s1 /\
    relocate_path Q n fc s1 = Ret (SI_RETRY, None, stop) s2 /\ (0 < stop)%nat /\
    same_but_locks (trie s) (trie s2) /\
    (forall b, bucket_refs (lock_mgr s2) b = bucket_refs (lock_mgr s) b /\ entry_refs (lock_mgr s2) b = entry_refs (lock_mgr s) b) /\
    relocate_entry start immovable (others_hold F s) = (_ ← assert (stop =? 0)%nat; mret (SI_RETRY, None)) s2 /\
    relocate_entry start immovable (others_hold F s) = Fault.
Proof.
  intros Ht Hs HN Hfull Hrange Hstart HF Hroom Hsearch Hc Hfree Hi Hheld.
  destruct (others_same s F Ht) as [Hsh0 Hsame0]. set (s0 := others_hold F s) in *.
  assert (Hm : theirs F s) by (intros m Hm; apply (not_mine_refs N s m Hs); now apply HF).
  destruct (relocate_search_spec (trie s0) immovable start Hsh0 s0 eq_refl (full_locks _ _ _ Hsame0 Hfull)) as (r & Er & Hr & _).
  { assert (E : num_buckets (trie s) = num_buckets (trie s0)) by exact (f_equal num_buckets (sb_rest _ _ Hsame0)). lia. }
  rewrite Hsearch in Er. injection Er as <-. destruct Hr as (HQ & _ & Hfc).
  destruct (first_held_exists Q F l (n - 1) Hc (ex_intro _ i (conj Hi Hheld))) as (l1 & j & Hj & Hlen & _).
  pose proof (Hroom Q n fc l Hsearch Hc) as Hmax. change (lock_mgr s0) with (lock_mgr s) in Hmax.
  destruct (free_upgraded s F N immovable Q n fc l Ht Hs HN Hm Hmax Hfc Hfree) as (s1 & E1 & F1 & N1 & Hm1).
  destruct (path_given_up s F N immovable start Q n fc l Ht Hs HN Hmax HQ Hfc Hc Hfree l1 j s1 Hj Hlen F1 N1 Hm1) as (s4 & E4 & Hsame & Hrefs).
  pose proof (first_held_pos _ _ _ _ _ Hj) as Hjpos.
  assert (Eall : relocate_entry start immovable s0 = (_ ← assert (j =? 0)%nat; mret (SI_RETRY, None)) (others_hold F s4)).
  { unfold relocate_entry, bucket_write_locked, get_locks.
    destruct (refs_locked (lock_mgr s) start ltac:(left; lia)) as [lk Hlk]. destruct (lock_index _ _ _ Hlk) as (k & Hk & _).
    erewrite bind_Ret by (erewrite bind_Ret by reflexivity; reflexivity).
    erewrite bind_Ret by (apply assert_true, bool_decide_eq_true; change (lock_mgr s0) with (lock_mgr s); eauto).
    erewrite bind_Ret by exact Hsearch. cbv iota beta. erewrite bind_Ret by exact E1. cbv iota.
    erewrite bind_Ret by exact E4. reflexivity. }
  exists (others_hold F s1), j, (others_hold F s4). split; [exact E1|]. split; [exact E4|]. split; [exact Hjpos|].
  split; [exact Hsame|]. split; [exact Hrefs|]. split; [exact Eall|]. rewrite Eall. destruct (Nat.eqb_spec j 0); [lia|reflexivity].
Qed.
