(* ===== verification/Crowded.v ===== *)
(** * A crowded trie

    A trie of 64 buckets (ct_alloc with 200 cells) after 68 insertions, built
    by the operations. Its table has full buckets, so it exercises the search
    and the relocation; the theorems of TableSpec and Contended are applied to
    it, and the insertion of one more key runs into a defect of
    [split_jump_node]. *)

From S2P Require Import Prelude Bits Entry KeyObject State Hashing Symbols Random Atomics Table Contents Store Locks Cells Search Relocate AddEntry Scalar Finger Insert Iter Api Alloc Verify Lookup Preserve Sample TableSpec Contended.
From stdpp Require Import base list gmap.
From Stdlib Require Import ZArith Lia Bool.

#[local] Open Scope Z_scope.

(** ** The trie *)

(** Key-value objects away from the end of a page. *)
Definition crowded_env : Env := mk_env 10 (replicate 15 170) 170 1048576 (fun _ => 85).

(** Nine bytes over 0, 85 and 170. *)
Definition crowded_key (i : nat) : list Z :=
  map (fun b => 85 * (b mod 3)) (fst (random_bytes 9 (2000006 + 7919 * Z.of_nat i))).

Definition crowded_insert (i : nat) : MS s_status := @ct_insert scalar_ops crowded_env (sample_address i).

Definition crowded_state : state := Eval vm_compute in
  match for_each (seq 0 68) (fun _ i => _ ← crowded_insert i; mret tt) tt (empty_state (map crowded_key (seq 0 69))) with
  | Ret _ s => s
  | _ => empty_state []
  end.

(** ** Deciding the hypotheses *)

Definition fullb (t : cuckoo_trie) (b : Z) : bool :=
  match trie_bucket t b with Some bk => bool_decide (find_free_cell_in_bucket bk = None) | None => false end.

Lemma fullb_ok t b : fullb t b = true -> full t b.
Proof. unfold fullb, full. destruct (trie_bucket t b) as [bk|]; [|discriminate]. rewrite bool_decide_eq_true. eauto. Qed.

Definition lock_okb (N : Z) (l : ct_bucket_write_lock) : bool :=
  (length (entry_refcounts l) =? CUCKOO_BUCKET_SIZE)%nat && forallb (fun r => 0 <=? r) (entry_refcounts l) &&
  (sum_refs (entry_refcounts l) <=? total_refcount l) && (0 <? total_refcount l) && (total_refcount l <=? N).

Definition locks_okb (N : Z) (s : state) : bool :=
  bool_decide (NoDup (wl_bucket <$> lock_mgr s)) && forallb (lock_okb N) (lock_mgr s) &&
  forallb (fun b => match trie_bucket (trie s) b with
                    | Some bk => write_lock bk =? match lock_at (lock_mgr s) b with Some _ => 1 | None => 0 end
                    | None => true
                    end) (map Z.of_nat (seq 0 (length (buckets (trie s))))) &&
  forallb (fun l => bool_decide (is_Some (trie_bucket (trie s) (wl_bucket l)))) (lock_mgr s).

Lemma lock_okb_ok N l : lock_okb N l = true -> lock_ok N l.
Proof.
  unfold lock_okb. rewrite !andb_true_iff, Nat.eqb_eq, !Z.leb_le, Z.ltb_lt, forallb_forall.
  intros ((((H1 & H2) & H3) & H4) & H5). split; [done| |done|done].
  apply List.Forall_forall. intros r Hr. apply Z.leb_le. now apply H2.
Qed.

Lemma locks_okb_ok N s : locks_okb N s = true -> locks_ok N s.
Proof.
  unfold locks_okb. rewrite !andb_true_iff, !forallb_forall, bool_decide_eq_true.
  intros (((H1 & H2) & H3) & H4). split; [exact H1| | |].
  - apply List.Forall_forall. intros l Hl. apply lock_okb_ok. now apply H2.
  - intros b bk Hb. assert (Hin : In b (map Z.of_nat (seq 0 (length (buckets (trie s)))))).
    { unfold trie_bucket, zlookup in Hb. destruct (Z.leb_spec 0 b); [|discriminate]. apply lookup_lt_Some in Hb.
      apply in_map_iff. exists (Z.to_nat b). split; [lia|]. apply in_seq. lia. }
    specialize (H3 b Hin). rewrite Hb in H3. now apply Z.eqb_eq.
  - intros b [l Hl]. apply lock_at_elem in Hl as [Hl <-]; [|exact H1].
    specialize (H4 l (proj1 (list_elem_of_In _ _) Hl)). now apply bool_decide_eq_true in H4.
Qed.

(** A search whose queue fits in the lock manager leaves room for the path. *)
Definition path_roomb (immovable : option pos) (start : Z) (s : state) : bool :=
  match relocate_search immovable start s with
  | Ret (Q, _, _) _ => Z.of_nat (length (lock_mgr s) + length Q) <=? MAX_LOCKS
  | _ => true
  end.

Lemma path_roomb_ok immovable start s :
  table_ok (trie s) -> full (trie s) start -> 0 <= start < num_buckets (trie s) ->
  path_roomb immovable start s = true -> path_room immovable start s.
Proof.
  intros Ht Hf Hin Hb Q n fc l E Hl. unfold path_roomb in Hb. rewrite E in Hb. apply Z.leb_le in Hb.
  destruct (relocate_search_spec (trie s) immovable start (table_shape _ Ht) s eq_refl Hf Hin) as (r & Er & Hr & _).
  rewrite E in Er. injection Er as <-. destruct Hr as (HQ & _ & Hfc).
  destruct (chain_short s immovable start Q n fc l HQ Hfc Hl) as [Hlen _]. lia.
Qed.

(** ** The table theorems on the crowded trie *)

Lemma crowded_table_ok : table_ok (trie crowded_state).
Proof. apply table_okb_ok. vm_compute. reflexivity. Qed.

(** The search from bucket 14 goes through seven buckets. *)
Lemma relocate_search_terminates_witness :
  exists queue queue_pos found,
    relocate_search None 14 crowded_state = Ret (queue, queue_pos, found) crowded_state /\
    NoDup (q_bucket <$> queue) /\ length queue = 7%nat /\ option_map fc_free_cell found = Some (mk_pos 20 3).
Proof.
  destruct (relocate_search_terminates crowded_state None 14) as (Q & n & found & E & Hnd & _).
  - exact crowded_table_ok.
  - apply fullb_ok. reflexivity.
  - split; reflexivity || discriminate.
  - exists Q, n, found. split; [exact E|]. split; [exact Hnd|].
    assert (C : match relocate_search None 14 crowded_state with
                | Ret (Q', _, found') _ => (length Q' = 7)%nat /\ option_map fc_free_cell found' = Some (mk_pos 20 3)
                | _ => False end) by (vm_compute; split; reflexivity).
    rewrite E in C. exact C.
Defined.

Definition lock_bucket (b : Z) (s : state) : state :=
  match trie_bucket (trie s) b with
  | Some bk => match upgrade_bucket_lock (mk_read_lock b (seq_part (write_lock_and_seq bk))) s with Ret _ s' => s' | _ => s end
  | None => s
  end.

Definition crowded_locked : state := Eval vm_compute in lock_bucket 14 crowded_state.

Lemma crowded_locked_ok : table_ok (trie crowded_locked).
Proof. apply table_okb_ok. vm_compute. reflexivity. Qed.

Lemma relocate_entry_correct_witness :
  exists p s', relocate_entry 14 None crowded_locked = Ret (SI_OK, Some p) s' /\ p = mk_pos 14 1 /\
    table_ok (trie s') /\ forall k e, contents (trie s') k e <-> contents (trie crowded_locked) k e.
Proof.
  destruct (relocate_entry_correct crowded_locked 1 None 14) as [E|(p & s' & E & Hp & Hfree & Hok & _ & Hc & _)].
  - exact crowded_locked_ok.
  - apply locks_okb_ok. vm_compute. reflexivity.
  - unfold RELOCATE_REFS, RELOCATE_QUEUE_SIZE. lia.
  - apply fullb_ok. reflexivity.
  - split; reflexivity || discriminate.
  - vm_compute. discriminate.
  - apply path_roomb_ok; [exact crowded_locked_ok|apply fullb_ok; reflexivity|split; reflexivity || discriminate|reflexivity].
  - exfalso. assert (C : match relocate_entry 14 None crowded_locked with Ret (SI_OK, _) _ => True | _ => False end)
      by (vm_compute; exact I). rewrite E in C. exact C.
  - exists p, s'. split; [exact E|]. split; [|split; [exact Hok|exact Hc]].
    assert (C : match relocate_entry 14 None crowded_locked with Ret (_, Some q) _ => q = mk_pos 14 1 | _ => False end)
      by (vm_compute; reflexivity). rewrite E in C. exact C.
Defined.

Lemma crowded_locked_rep : trie_rep crowded_locked (state_trie 20 crowded_locked).
Proof. apply trie_rep_okb_ok. vm_compute. reflexivity. Qed.

(** Key 3 is found before and after the relocation. *)
Lemma relocation_preserves_lookups_witness :
  exists status p s', relocate_entry 14 None crowded_locked = Ret (status, p) s' /\
    trie_rep s' (state_trie 20 crowded_locked) /\
    @ct_lookup scalar_ops crowded_env (crowded_key 3) s' = Ret (Some (sample_address 3)) (set_lock_mgr [] s').
Proof.
  destruct (@relocation_preserves_lookups scalar_ops scalar_laws crowded_env crowded_locked (state_trie 20 crowded_locked) 1 None 14)
    as (st & p & s' & E & Hr & Hlook).
  - exact crowded_locked_rep.
  - apply locks_okb_ok. vm_compute. reflexivity.
  - unfold RELOCATE_REFS, RELOCATE_QUEUE_SIZE. lia.
  - apply fullb_ok. reflexivity.
  - split; reflexivity || discriminate.
  - vm_compute. discriminate.
  - apply path_roomb_ok; [exact crowded_locked_ok|apply fullb_ok; reflexivity|split; reflexivity || discriminate|reflexivity].
  - intros a. cbn. unfold is_byte. lia.
  - exists st, p, s'. split; [exact E|]. split; [exact Hr|].
    destruct (Hlook (crowded_key 3)) as (r & E1 & E2); [apply bytes_ok_check; vm_compute; reflexivity|vm_compute; discriminate|].
    rewrite E2. f_equal.
    assert (C : match @ct_lookup scalar_ops crowded_env (crowded_key 3) crowded_locked with
                | Ret r0 _ => r0 = Some (sample_address 3) | _ => False end) by (vm_compute; reflexivity).
    rewrite E1 in C. exact C.
Defined.

(** A leaf whose two buckets are both full: hash 1. *)
Definition new_leaf `{Env} : ct_entry := set_parent_color_and_flags TYPE_LEAF garbage_entry.

Lemma add_entry_correct_witness :
  pair_has_room (trie crowded_state) 1 = false /\
  exists p x s', @add_entry scalar_ops 1 (@new_leaf crowded_env) None true crowded_state = Ret (SI_OK, Some (p, x)) s' /\
    table_ok (trie s') /\ added 1 (@new_leaf crowded_env) true crowded_state s' p x.
Proof.
  split; [vm_compute; reflexivity|].
  assert (Ht : table_ok (trie crowded_state)) by exact crowded_table_ok.
  destruct (@add_entry_correct scalar_ops scalar_laws crowded_state 1 (@new_leaf crowded_env) None true 0)
    as (st & r & s' & E & Hk & _ & _ & Hr).
  - exact Ht.
  - apply locks_okb_ok. vm_compute. reflexivity.
  - unfold RELOCATE_REFS, RELOCATE_QUEUE_SIZE. lia.
  - vm_compute. split; [discriminate|reflexivity].
  - apply entry_ok_check. reflexivity.
  - reflexivity.
  - reflexivity.
  - assert (Hin : 0 <= pair_bucket (trie crowded_state) 1 false < num_buckets (trie crowded_state)) by (vm_compute; split; (discriminate || reflexivity)).
    split; [intros sec _; vm_compute; reflexivity|]. intros bk s1 Hb E.
    assert (C : match trie_bucket (trie crowded_state) (pair_bucket (trie crowded_state) 1 false) with
                | Some bk =>
                    match upgrade_bucket_lock (mk_read_lock (pair_bucket (trie crowded_state) 1 false)
                            (seq_part (write_lock_and_seq bk))) crowded_state with
                    | Ret SI_OK s1 =>
                        table_okb (trie s1) && fullb (trie s1) (pair_bucket (trie crowded_state) 1 false) &&
                        (num_buckets (trie s1) =? num_buckets (trie crowded_state)) &&
                        path_roomb None (pair_bucket (trie crowded_state) 1 false) s1
                    | _ => false
                    end
                | None => false end = true) by (vm_compute; reflexivity).
    rewrite Hb, E, !andb_true_iff, Z.eqb_eq in C. destruct C as (((C1 & C2) & C3) & C4).
    apply path_roomb_ok; [now apply table_okb_ok|now apply fullb_ok|now rewrite C3|exact C4].
  - assert (C : match @add_entry scalar_ops 1 (@new_leaf crowded_env) None true crowded_state with
                | Ret (SI_OK, Some _) _ => True | _ => False end) by (vm_compute; exact I).
    rewrite E in C. destruct st, r as [[p x]|]; try contradiction. destruct Hr as [_ Hr].
    exists p, x, s'. split; [exact E|]. split; [apply Hk|exact Hr].
Defined.

Lemma bucket_lock_roundtrip_witness :
  exists bk s1 s2, trie_bucket (trie crowded_state) 14 = Some bk /\
    upgrade_bucket_lock (mk_read_lock 14 (seq_part (write_lock_and_seq bk))) crowded_state = Ret SI_OK s1 /\
    release_bucket_lock 14 s1 = Ret tt s2 /\ trie s2 = trie crowded_state.
Proof.
  destruct (trie_bucket (trie crowded_state) 14) as [bk|] eqn:Hb; [|discriminate].
  destruct (bucket_lock_roundtrip crowded_state 0 14 bk) as (s1 & s2 & E1 & _ & _ & E2 & Et & _).
  - exact crowded_table_ok.
  - apply locks_okb_ok. vm_compute. reflexivity.
  - split; reflexivity || discriminate.
  - exact Hb.
  - intros _. vm_compute. reflexivity.
  - exists bk, s1, s2. split; [reflexivity|]. split; [exact E1|]. split; [exact E2|exact Et].
Defined.

Lemma release_all_locks_correct_witness :
  length (lock_mgr crowded_locked) = 1%nat /\
  exists s', release_all_locks crowded_locked = Ret tt s' /\ unlocked (trie s') /\ lock_mgr s' = [].
Proof.
  split; [reflexivity|].
  destruct (release_all_locks_correct crowded_locked 1) as (s' & E & Hu & Hl & _).
  - exact crowded_locked_ok.
  - apply locks_okb_ok. vm_compute. reflexivity.
  - exists s'. split; [exact E|]. split; [exact Hu|exact Hl].
Defined.

(** ** A defect of [split_jump_node], and one of [relocate_entry] *)

Definition finds (i : nat) (s : state) : bool :=
  match @ct_lookup scalar_ops crowded_env (crowded_key i) s with
  | Ret (Some kv) _ => kv =? sample_address i
  | _ => false
  end.

(** [split_jump_node] keeps a pointer to the child of the jump node across its
    calls of [add_entry]. When one of them relocates that child, the new parent
    color is stored in whatever lies at the child's old position. The
    crowded trie is well formed, passes [ct_verify_trie] and finds its 68 keys.
    Inserting one more key then stops in the assertion of
    [find_entry_in_pair_by_color]: the first attempt asks for a retry with all
    locks released, and leaves a trie in which the lookup of a key inserted
    before does not find an entry that it expects. *)
Lemma split_jump_node_stale_child :
  table_ok (trie crowded_state) /\
  @ct_verify_trie scalar_ops crowded_state = Ret true crowded_state /\
  forallb (fun i => finds i crowded_state) (seq 0 68) = true /\
  @ct_insert scalar_ops crowded_env (sample_address 68) crowded_state = Fault /\
  exists s', @ct_insert_internal scalar_ops crowded_env (sample_address 68) false crowded_state = Ret SI_RETRY s' /\
    lock_mgr s' = [] /\ table_ok (trie s') /\
    @ct_lookup scalar_ops crowded_env (crowded_key 1) s' = Fault.
Proof.
  split; [exact crowded_table_ok|]. split; [vm_compute; reflexivity|]. split; [vm_compute; reflexivity|].
  split; [vm_compute; reflexivity|].
  set (r := @ct_insert_internal scalar_ops crowded_env (sample_address 68) false crowded_state).
  assert (C : match r with
              | Ret SI_RETRY s' => bool_decide (lock_mgr s' = []) && table_okb (trie s') &&
                  match @ct_lookup scalar_ops crowded_env (crowded_key 1) s' with Fault => true | _ => false end
              | _ => false end = true) by (vm_compute; reflexivity).
  destruct r as [[] s'| |]; try discriminate. rewrite !andb_true_iff in C. destruct C as ((C1 & C2) & C3).
  exists s'. split; [reflexivity|]. split; [now apply bool_decide_eq_true in C1|]. split; [now apply table_okb_ok|].
  destruct (ct_lookup _ s'); [discriminate|reflexivity|discriminate].
Qed.

(** The path back from queue position [i], in at most [fuel] steps. *)
Fixpoint path_from (fuel : nat) (Q : list relocation_queue_entry) (i : nat) : option (list nat) :=
  match fuel, i with
  | _, O => Some []
  | O, _ => None
  | S fuel, _ => q ← Q !! i; l ← path_from fuel Q (q_parent_queue_pos q); Some (i :: l)
  end.

Lemma path_from_chain fuel Q : forall i l, path_from fuel Q i = Some l -> chain Q i l.
Proof.
  induction fuel as [|fuel IH]; intros [|i] l H; cbn in H; try discriminate; try (injection H as <-; constructor).
  destruct (Q !! S i) as [q|] eqn:Eq; [|discriminate]. cbn in H. destruct (path_from fuel Q _) as [l'|] eqn:El; [|discriminate].
  injection H as <-. apply (chain_link Q (S i) q); [lia|exact Eq|now apply IH].
Qed.

(** Another thread holds the lock of bucket 42, on the path of the search
    from bucket 14. *)
Lemma relocate_retry_assertion_witness :
  exists Q n fc s1 stop s2, relocate_search None 14 (others_hold [42] crowded_locked) = Ret (Q, n, Some fc) (others_hold [42] crowded_locked) /\
    bucket_of Q (n - 1) = 42 /\ upgrade_bucket_lock (fc_read_lock fc) (others_hold [42] crowded_locked) = Ret SI_OK s1 /\
    relocate_path Q n fc s1 = Ret (SI_RETRY, None, stop) s2 /\ (0 < stop)%nat /\
    relocate_entry 14 None (others_hold [42] crowded_locked) = Fault.
Proof.
  set (s0 := others_hold [42] crowded_locked). set (r := relocate_search None 14 s0).
  assert (C : match r with
              | Ret (Q, n, Some fc) _ => (bucket_of Q (n - 1) =? 42) && negb (pos_bucket (fc_free_cell fc) =? 42) &&
                  match path_from 100 Q (n - 1) with Some l => existsb (Nat.eqb (n - 1)) l | None => false end
              | _ => false end = true) by (vm_compute; reflexivity).
  assert (E : match r with Ret (Q, n, Some f) _ => r = Ret (Q, n, Some f) s0 | _ => False end) by (vm_compute; reflexivity).
  destruct r as [[[Q n] [fc|]] s'| |] eqn:Er; try contradiction. rewrite !andb_true_iff, negb_true_iff, Z.eqb_eq, Z.eqb_neq in C.
  injection E as ->. destruct C as ((C1 & C2) & C3). destruct (path_from 100 Q (n - 1)) as [l|] eqn:El; [|discriminate].
  apply existsb_exists in C3 as (k & C3 & <-%Nat.eqb_eq).
  destruct (relocate_retry_assertion crowded_locked [42] 1 None 14 Q n fc l (n - 1)) as (s1 & stop & s2 & E1 & E2 & Hpos & _ & _ & _ & Hf).
  - exact crowded_locked_ok.
  - apply locks_okb_ok. vm_compute. reflexivity.
  - unfold RELOCATE_REFS, RELOCATE_QUEUE_SIZE. lia.
  - apply fullb_ok. reflexivity.
  - split; reflexivity || discriminate.
  - vm_compute. discriminate.
  - intros m ->%list_elem_of_singleton. vm_compute. reflexivity.
  - apply path_roomb_ok; [apply table_okb_ok; vm_compute; reflexivity|apply fullb_ok; vm_compute; reflexivity|vm_compute; split; (reflexivity || discriminate)|vm_compute; reflexivity].
  - exact Er.
  - exact (path_from_chain _ _ _ _ El).
  - intros Hin%list_elem_of_singleton. contradiction.
  - now apply list_elem_of_In.
  - rewrite C1. apply list_elem_of_here.
  - exists Q, n, fc, s1, stop, s2. split; [reflexivity|]. split; [exact C1|]. split; [exact E1|]. split; [exact E2|]. split; [exact Hpos|exact Hf].
Defined.
