(* ===== verification/Vectorized.v ===== *)
(** * The vectorised bucket operations (main_vectorized.c)

    main_vectorized.c replaces the scans of a bucket by prefiltered and SIMD
    comparisons; the rest of the file is main.c. A vector register is the
    list of its 64-bit lanes, lowest lane first, and the intrinsics have
    their documented lane-wise meaning. *)

From S2P Require Import Prelude Bits Entry KeyObject State Hashing Atomics Table Contents Scalar Alloc.
From stdpp Require Import base list gmap.
From Stdlib Require Import ZArith Lia Bool Btauto.

#[local] Open Scope Z_scope.

(** ** Intrinsics *)

Definition vec : Type := list Z.
Definition lane_ones : Z := 2 ^ 64 - 1.

Definition set1_epi64 (lanes : nat) (x : Z) : vec := replicate lanes (u64 x).
Definition and_si (a b : vec) : vec := zip_with Z.land a b.
Definition xor_si (a b : vec) : vec := zip_with Z.lxor a b.
Definition or_si (a b : vec) : vec := zip_with Z.lor a b.
Definition cmpeq_epi64 (a b : vec) : vec := zip_with (fun x y => if x =? y then lane_ones else 0) a b.
Definition srli_epi64 (a : vec) (n : Z) : vec := map (fun x => x .>> n) a.
Definition sllv_epi64 (a counts : vec) : vec := zip_with (fun x n => if n <? 64 then u64 (x .<< n) else 0) a counts.

(** The top bits of the bytes of a 128-bit register. *)
Definition movemask_epi8 (a : vec) : Z :=
  from_bits 16 (fun i => Z.testbit (nth (Z.to_nat (i / 8)) a 0) (8 * (i mod 8) + 7)).

(** ** Compile-time constants *)

Definition TAG_MASK_VALUE : Z := (1 .<< TAG_BITS) - 1.
Definition PARENT_COLOR_MASK_VALUE : Z := (255 .<< PARENT_COLOR_SHIFT) .& 255.
Definition COLOR_MASK_VALUE : Z := (255 .<< TAG_BITS) .& 255.

Definition tag_mask64 : Z := TAG_MASK_VALUE .<< 8.
Definition tag_value64 (tag : Z) : Z := u64 ((tag .& TAG_MASK_VALUE) .<< 8).

(** ** Searching by parent: prefilter, then the full comparison *)

Definition vec_parent_mask : Z :=
  (TAG_MASK_VALUE .<< 8) .| (255 .<< 16) .| (PARENT_COLOR_MASK_VALUE .<< 0) .| (FLAG_SECONDARY_BUCKET .<< 0).

(** The two nested [if]s on the header of one cell. *)
Definition prefiltered (h tag mask values : Z) : bool :=
  negb ((u8 h .& TYPE_MASK) =? 0) && ((h .& tag_mask64) =? tag_value64 tag) && ((h .& mask) =? values).

Definition cell_of (b : ct_bucket) (i : nat) : ct_entry := nth i (cells b) [].

(** A hit is returned unless the bucket was written meanwhile. *)
Definition found_in (b : ct_bucket) (i : nat) (start_counter : Z) : option (nat * ct_entry * Z) :=
  if negb (write_lock_and_seq b =? start_counter) then None else Some (i, cell_of b i, start_counter).

Definition find_by_parent_vectorized (b : ct_bucket) (is_secondary : bool) (tag last_sym parent_color : Z)
    : option (nat * ct_entry * Z) :=
  let values := parent_values is_secondary tag last_sym parent_color in
  let start_counter := write_lock_and_seq b in
  if negb ((start_counter .& SEQ_INCREMENT) =? 0) then None
  else if prefiltered (entry_qword (cell_of b 0)) tag vec_parent_mask values then found_in b 0 start_counter
  else if prefiltered (entry_qword (cell_of b 1)) tag vec_parent_mask values then found_in b 1 start_counter
  else if prefiltered (entry_qword (cell_of b 2)) tag vec_parent_mask values then found_in b 2 start_counter
  else if prefiltered (entry_qword (cell_of b 3)) tag vec_parent_mask values then found_in b 3 start_counter
  else None.

(** ** Searching by color: two headers at a time *)

Definition vec_color_mask : Z :=
  (TAG_MASK_VALUE .<< 8) .| (COLOR_MASK_VALUE .<< 8) .| (FLAG_SECONDARY_BUCKET .<< 0).

(** The byte mask of the cells with headers [h0] and [h1] that match. *)
Definition match_pair (h0 h1 tag mask values : Z) : Z :=
  let headers := [h0; h1] in
  let type_check := and_si headers (set1_epi64 2 TYPE_MASK) in
  let type_nonzero := xor_si (cmpeq_epi64 type_check (set1_epi64 2 0)) (set1_epi64 2 (-1)) in
  let tag_check := cmpeq_epi64 (and_si headers (set1_epi64 2 tag_mask64)) (set1_epi64 2 (tag_value64 tag)) in
  let prefilter_pass := and_si type_nonzero tag_check in
  let full_check := cmpeq_epi64 (and_si headers (set1_epi64 2 mask)) (set1_epi64 2 values) in
  movemask_epi8 (and_si prefilter_pass full_check).

Definition find_by_color_vectorized (b : ct_bucket) (is_secondary : bool) (tag color : Z)
    : option (nat * ct_entry * Z) :=
  let values := color_values is_secondary tag color in
  let start_counter := write_lock_and_seq b in
  if negb ((start_counter .& SEQ_INCREMENT) =? 0) then None
  else
    let m01 := match_pair (entry_qword (cell_of b 0)) (entry_qword (cell_of b 1)) tag vec_color_mask values in
    if negb (m01 =? 0) then found_in b (Z.to_nat (ctz 32 m01 .>> 3)) start_counter
    else
      let m23 := match_pair (entry_qword (cell_of b 2)) (entry_qword (cell_of b 3)) tag vec_color_mask values in
      if m23 =? 0 then None
      else found_in b (2 + Z.to_nat (ctz 32 m23 .>> 3)) start_counter.

(** ** The unused color of a pair *)

Definition lane_colors (headers : vec) : vec :=
  srli_epi64 (and_si headers (set1_epi64 (length headers) (255 .<< 8))) (8 + TAG_BITS).
Definition lane_bits (headers : vec) : vec :=
  sllv_epi64 (set1_epi64 (length headers) 1) (lane_colors headers).

Definition bucket_headers (b : ct_bucket) : vec :=
  [entry_qword (cell_of b 0); entry_qword (cell_of b 1); entry_qword (cell_of b 2); entry_qword (cell_of b 3)].

Definition unused_color_in_pair_avx512 (b1 b2 : ct_bucket) : Z :=
  let bits := lane_bits (bucket_headers b1 ++ bucket_headers b2) in
  u8 (ctz 64 (bnot 64 (fold_left Z.lor bits 0))).

Definition unused_color_in_pair_avx2 (b1 b2 : ct_bucket) : Z :=
  let combined := or_si (lane_bits (bucket_headers b1)) (lane_bits (bucket_headers b2)) in
  u8 (ctz 64 (bnot 64 (fold_left Z.lor combined 0))).

(** [has_avx512]: what the CPU test answered. *)
Definition unused_color_vectorized (has_avx512 : bool) (b1 b2 : ct_bucket) : Z :=
  if has_avx512 then unused_color_in_pair_avx512 b1 b2 else unused_color_in_pair_avx2 b1 b2.

Definition vectorized_ops (has_avx512 : bool) : BucketOps :=
  mk_bucket_ops find_by_color_vectorized find_by_parent_vectorized (unused_color_vectorized has_avx512) (fun _ => true).

(** ** Initialisation: whole entries are stored *)

Definition init_bucket_vectorized (b : ct_bucket) : ct_bucket := mk_bucket (map (fun _ => unused_entry) (cells b)) 0.
Definition init_buckets_vectorized (t : cuckoo_trie) : cuckoo_trie :=
  let n := Z.to_nat (num_buckets t) in
  set_buckets (map init_bucket_vectorized (take n (buckets t)) ++ drop n (buckets t)) t.

(** ** The prefilter *)

Lemma prefilter_type e : entry_ok e -> negb ((u8 (entry_qword e) .& TYPE_MASK) =? 0) = used e.
Proof.
  intros He. destruct (entry_qword_bytes e He) as (rest & Hr & ->). pose proof (flags_byte e He) as Hf.
  unfold used, entry_type, TYPE_UNUSED. do 3 f_equal. unfold wrap, is_byte in *. change (2 ^ 8) with 256. zdiv.
Qed.

Lemma prefilter_tag e tag :
  entry_ok e -> 0 <= tag < 16 -> ((entry_qword e .& tag_mask64) =? tag_value64 tag) = (entry_tag e =? tag).
Proof.
  intros He Ht. destruct (entry_qword_bytes e He) as (rest & Hr & ->).
  pose proof (flags_byte e He) as Hf. pose proof (color_and_tag_byte e He) as Hct.
  pose proof (entry_byte e 2 He) as Hls. fold (last_symbol e) in Hls.
  change tag_mask64 with (0 + 256 * (15 + 256 * 0)). rewrite !land_cons by (done || unfold is_byte in *; lia).
  rewrite !Z.land_0_r. unfold tag_value64, entry_tag. change TAG_MASK_VALUE with (Z.ones 4).
  change ((1 .<< TAG_BITS) - 1) with (Z.ones 4). change 15 with (Z.ones 4).
  rewrite !Z.land_ones, Z.shiftl_mul_pow2 by lia. change (2 ^ 4) with 16. change (2 ^ 8) with 256.
  rewrite (Z.mod_small tag) by lia. rewrite wrap_small by lia.
  apply eq_true_iff_eq. rewrite !Z.eqb_eq. lia.
Qed.

Lemma prefiltered_eq e tag mask values (P : ct_entry -> bool) :
  entry_ok e -> 0 <= tag < 16 -> ((entry_qword e .& mask) =? values) = P e ->
  (P e = true -> entry_tag e = tag) ->
  prefiltered (entry_qword e) tag mask values = used e && P e.
Proof.
  intros He Ht HP Htag. unfold prefiltered. rewrite prefilter_type, prefilter_tag, HP by done.
  destruct (used e), (P e) eqn:E; cbn; rewrite ?andb_true_r, ?andb_false_r; try done.
  apply Z.eqb_eq, Htag. done.
Qed.

(** ** The search by parent *)

Lemma four_cells b : bucket_ok b -> cells b = [cell_of b 0; cell_of b 1; cell_of b 2; cell_of b 3].
Proof.
  intros [Hl _ _]. unfold cell_of, CUCKOO_BUCKET_SIZE in *. destruct (cells b) as [|e0 [|e1 [|e2 [|e3 [|]]]]]; done.
Qed.

Lemma cell_of_lookup b i : bucket_ok b -> (i < 4)%nat -> cells b !! i = Some (cell_of b i).
Proof. intros Hb Hi. rewrite (four_cells b Hb) at 1. destruct i as [|[|[|[|]]]]; (reflexivity || lia). Qed.

Lemma cell_of_ok b i : bucket_ok b -> (i < 4)%nat -> entry_ok (cell_of b i).
Proof. intros Hb Hi. exact (Forall_lookup_1 _ _ _ _ (bk_cells b Hb) (cell_of_lookup b i Hb Hi)). Qed.

(** The first used cell that matches, as the scalar scan finds it. *)
Fixpoint first_used (P : ct_entry -> bool) (l : list ct_entry) (i : nat) : option (nat * ct_entry) :=
  match l with
  | [] => None
  | e :: t => if used e && P e then Some (i, e) else first_used P t (S i)
  end.

Definition first_result (P : ct_entry -> bool) (b : ct_bucket) : option (nat * ct_entry * Z) :=
  match first_used P (cells b) 0 with
  | Some (i, e) => Some (i, e, write_lock_and_seq b)
  | None => None
  end.

Lemma first_used_spec P l i :
  match first_used P l i with
  | Some (c, e) => (i <= c)%nat /\ l !! (c - i)%nat = Some e /\ used e && P e = true
  | None => forall c e, l !! c = Some e -> used e && P e = false
  end.
Proof.
  revert i. induction l as [|e l IH]; intros i; cbn [first_used]; [intros; discriminate|].
  destruct (used e && P e) eqn:E.
  - rewrite Nat.sub_diag. split; [lia|]. split; [reflexivity|done].
  - specialize (IH (S i)). destruct (first_used P l (S i)) as [[c e']|].
    + destruct IH as (H1 & H2 & H3). split; [lia|]. split; [|done].
      replace (c - i)%nat with (S (c - S i)) by lia. exact H2.
    + intros [|c] e' H; [cbn in H; injection H as <-; exact E|exact (IH c e' H)].
Qed.

Lemma first_result_scan P b : scan_result (fun e => used e && P e) b (first_result P b).
Proof.
  unfold first_result. pose proof (first_used_spec P (cells b) 0) as H.
  destruct (first_used P (cells b) 0) as [[c e]|]; cbn.
  - destruct H as (_ & H1 & H2). rewrite Nat.sub_0_r in H1. done.
  - exact H.
Qed.

Lemma found_in_eq b i : found_in b i (write_lock_and_seq b) = Some (i, cell_of b i, write_lock_and_seq b).
Proof. unfold found_in. now rewrite Z.eqb_refl. Qed.

Lemma find_by_parent_vectorized_eq b sec tag ls pc :
  bucket_ok b -> quiescent b -> 0 <= tag < 16 -> is_byte ls -> 0 <= pc <= MAX_VALID_COLOR ->
  find_by_parent_vectorized b sec tag ls pc = first_result (matches_parent sec tag ls pc) b.
Proof.
  intros Hb Hq Ht Hl Hp. unfold quiescent in Hq. unfold find_by_parent_vectorized. rewrite Hq. cbn [Z.eqb negb].
  assert (E : forall i, (i < 4)%nat ->
    prefiltered (entry_qword (cell_of b i)) tag vec_parent_mask (parent_values sec tag ls pc) =
    used (cell_of b i) && matches_parent sec tag ls pc (cell_of b i)).
  { intros i Hi. apply prefiltered_eq; [now apply cell_of_ok|done| |].
    - change vec_parent_mask with parent_mask. apply header_match_parent; auto using valid_color_16, cell_of_ok.
    - unfold matches_parent. rewrite !andb_true_iff, !Z.eqb_eq. tauto. }
  rewrite !E, !found_in_eq by lia. unfold first_result. rewrite (four_cells b Hb). cbn [first_used].
  destruct (used (cell_of b 0) && _); [done|]. destruct (used (cell_of b 1) && _); [done|].
  destruct (used (cell_of b 2) && _); [done|]. now destruct (used (cell_of b 3) && _).
Qed.

(** ** The search by color *)

(** A lane holds all ones or zero. *)
Definition lane (b : bool) : Z := if b then lane_ones else 0.

Lemma lane_and b c : lane b .& lane c = lane (b && c).
Proof. destruct b, c; reflexivity. Qed.

Lemma lane_xor b : lane b .^ lane_ones = lane (negb b).
Proof. destruct b; reflexivity. Qed.

Lemma match_pair_eq h0 h1 tag mask values :
  0 <= tag < 16 -> 0 <= mask < 2 ^ 64 -> 0 <= values < 2 ^ 64 -> 0 <= h0 -> 0 <= h1 ->
  match_pair h0 h1 tag mask values =
  movemask_epi8 [lane (prefiltered h0 tag mask values); lane (prefiltered h1 tag mask values)].
Proof.
  intros Ht Hm Hv H0 H1. unfold match_pair, set1_epi64, and_si, xor_si, cmpeq_epi64. cbn [replicate zip_with].
  rewrite (wrap_small 64 mask), (wrap_small 64 values) by done.
  change (u64 TYPE_MASK) with 3. change (u64 0) with 0. change (u64 (-1)) with lane_ones.
  change (u64 tag_mask64) with tag_mask64.
  assert (Ht64 : u64 (tag_value64 tag) = tag_value64 tag) by (apply wrap_small, wrap_bound; lia).
  rewrite Ht64. fold (lane (h0 .& 3 =? 0)) (lane (h1 .& 3 =? 0)).
  fold (lane (h0 .& tag_mask64 =? tag_value64 tag)) (lane (h1 .& tag_mask64 =? tag_value64 tag)).
  fold (lane (h0 .& mask =? values)) (lane (h1 .& mask =? values)).
  assert (E : forall h, 0 <= h -> h .& 3 = u8 h .& TYPE_MASK).
  { intros h Hh. change TYPE_MASK with (Z.ones 2). change 3 with (Z.ones 2). rewrite !Z.land_ones by lia.
    unfold wrap. change (2 ^ 8) with (4 * 64). change (2 ^ 2) with 4. zdiv. }
  rewrite !lane_xor, !lane_and, (E h0), (E h1) by done. reflexivity.
Qed.

(** Which cell of the pair the mask points to. *)
Lemma movemask_lanes b0 b1 :
  let m := movemask_epi8 [lane b0; lane b1] in
  (m =? 0) = negb (b0 || b1) /\ (b0 || b1 = true -> Z.to_nat (ctz 32 m .>> 3) = if b0 then 0%nat else 1%nat).
Proof. destruct b0, b1; vm_compute; split; (reflexivity || discriminate). Qed.

Lemma color_values_bound sec tag color :
  0 <= tag < 16 -> 0 <= color < 16 -> 0 <= color_values sec tag color < 2 ^ 64.
Proof. intros Ht Hc. rewrite color_values_bytes by done. unfold sec_flag, FLAG_SECONDARY_BUCKET. destruct sec; lia. Qed.

Lemma entry_qword_nonneg e : entry_ok e -> 0 <= entry_qword e.
Proof. intros [_ He]. unfold entry_qword. apply load_bytes_bound. exact He. Qed.

Lemma find_by_color_vectorized_eq b sec tag color :
  bucket_ok b -> quiescent b -> 0 <= tag < 16 -> 0 <= color <= MAX_VALID_COLOR ->
  find_by_color_vectorized b sec tag color = first_result (matches_color sec tag color) b.
Proof.
  intros Hb Hq Ht Hc. unfold quiescent in Hq. unfold find_by_color_vectorized. rewrite Hq. cbn [Z.eqb negb].
  pose proof (valid_color_16 _ Hc) as Hc16.
  assert (E : forall i, (i < 4)%nat ->
    prefiltered (entry_qword (cell_of b i)) tag vec_color_mask (color_values sec tag color) =
    used (cell_of b i) && matches_color sec tag color (cell_of b i)).
  { intros i Hi. apply prefiltered_eq; [now apply cell_of_ok|done| |].
    - change vec_color_mask with color_mask. apply header_match_color; auto using cell_of_ok.
    - unfold matches_color. rewrite !andb_true_iff, !Z.eqb_eq. tauto. }
  assert (Hh : forall i, (i < 4)%nat -> 0 <= entry_qword (cell_of b i))
    by (intros i Hi; now apply entry_qword_nonneg, cell_of_ok).
  assert (M : forall i j, (i < 4)%nat -> (j < 4)%nat ->
    match_pair (entry_qword (cell_of b i)) (entry_qword (cell_of b j)) tag vec_color_mask (color_values sec tag color) =
    movemask_epi8 [lane (used (cell_of b i) && matches_color sec tag color (cell_of b i));
                   lane (used (cell_of b j) && matches_color sec tag color (cell_of b j))]).
  { intros i j Hi Hj. rewrite match_pair_eq; [now rewrite !E|exact Ht|split; [discriminate|reflexivity]|
      now apply color_values_bound|now apply Hh|now apply Hh]. }
  rewrite !M by lia.
  unfold first_result. rewrite (four_cells b Hb). cbn [first_used].
  set (b0 := used (cell_of b 0) && _). set (b1 := used (cell_of b 1) && _).
  set (b2 := used (cell_of b 2) && _). set (b3 := used (cell_of b 3) && _).
  destruct (movemask_lanes b0 b1) as [Z1 P1]. destruct (movemask_lanes b2 b3) as [Z2 P2].
  rewrite Z1, Z2. destruct (b0 || b1) eqn:E01; cbn [negb].
  - rewrite P1 by done. rewrite found_in_eq. destruct b0; [done|]. cbn in E01. now rewrite E01.
  - apply orb_false_iff in E01 as [-> ->]. destruct (b2 || b3) eqn:E23; cbn [negb].
    + rewrite P2 by done. rewrite found_in_eq. destruct b2; [done|]. cbn in E23. now rewrite E23.
    + apply orb_false_iff in E23 as [-> ->]. done.
Qed.

(** ** The unused color *)

Lemma lane_color e : entry_ok e -> (entry_qword e .& (255 .<< 8)) .>> (8 + TAG_BITS) = entry_color e.
Proof.
  intros He. destruct (entry_qword_bytes e He) as (rest & Hr & ->).
  pose proof (flags_byte e He) as Hf. pose proof (color_and_tag_byte e He) as Hct.
  pose proof (entry_byte e 2 He) as Hls. fold (last_symbol e) in Hls.
  change (255 .<< 8) with (0 + 256 * (255 + 256 * 0)).
  rewrite !land_cons, !Z.land_0_r by (done || unfold is_byte in *; lia).
  unfold entry_color, TAG_BITS. rewrite !Z.shiftr_div_pow2 by lia. change 255 with (Z.ones 8).
  rewrite Z.land_ones by lia. change (2 ^ (8 + 4)) with (256 * 16). change (2 ^ 4) with 16. change (2 ^ 8) with 256.
  unfold is_byte in *. rewrite (Z.mod_small (color_and_tag e)) by lia. zdiv.
Qed.

Lemma lane_bits_eq l :
  Forall entry_ok l -> lane_bits (map entry_qword l) = map (fun e => u64 (1 .<< entry_color e)) l.
Proof.
  intros Hl. unfold lane_bits, lane_colors, set1_epi64, sllv_epi64, srli_epi64, and_si.
  rewrite !length_map. induction Hl as [|e l He Hl IH]; [done|].
  cbn [length replicate map zip_with]. rewrite IH. f_equal.
  change (u64 (255 .<< 8)) with (255 .<< 8). change (u64 1) with 1. rewrite lane_color by done.
  pose proof (entry_color_bound e He). now zcases.
Qed.

Lemma bucket_headers_eq b : bucket_ok b -> bucket_headers b = map entry_qword (cells b).
Proof. intros Hb. now rewrite (four_cells b Hb). Qed.

(** The same bits are set, whatever the order of the disjunctions. *)
Lemma used_bits_eq (l : list Z) (es : list ct_entry) :
  Forall entry_ok es ->
  (forall k, 0 <= k -> existsb (fun x => Z.testbit x k) l = existsb (fun e => Z.testbit (u64 (1 .<< entry_color e)) k) es) ->
  fold_left Z.lor l 0 = used_colors es.
Proof.
  intros He H. apply Z.bits_inj'. intros k Hk.
  assert (E : forall (m : list Z) acc,
    Z.testbit (fold_left Z.lor m acc) k = Z.testbit acc k || existsb (fun x => Z.testbit x k) m).
  { induction m as [|x m IH]; intros acc; cbn; [now rewrite orb_false_r|]. now rewrite IH, Z.lor_spec, orb_assoc. }
  unfold used_colors. rewrite E, Z.bits_0, H by done. cbn [orb].
  assert (E2 : forall m acc, Z.testbit (fold_left (fun acc e => acc .| u64 (1 .<< entry_color e)) m acc) k =
    Z.testbit acc k || existsb (fun e => Z.testbit (u64 (1 .<< entry_color e)) k) m).
  { induction m as [|x m IH]; intros acc; cbn; [now rewrite orb_false_r|]. now rewrite IH, Z.lor_spec, orb_assoc. }
  now rewrite E2, Z.bits_0.
Qed.

Lemma existsb_zip_cells (f : ct_entry -> bool) l1 l2 :
  length l1 = length l2 -> existsb f (zip_cells l1 l2) = existsb f l1 || existsb f l2.
Proof.
  revert l2. induction l1 as [|a l1 IH]; intros [|b l2] Hl; try discriminate; [done|].
  rewrite zip_cells_cons. injection Hl as Hl. cbn [existsb]. rewrite IH by done. btauto.
Qed.

Lemma existsb_or_si (f : ct_entry -> Z) k l1 l2 :
  length l1 = length l2 ->
  existsb (fun x => Z.testbit x k) (or_si (map f l1) (map f l2)) =
  existsb (fun e => Z.testbit (f e) k) l1 || existsb (fun e => Z.testbit (f e) k) l2.
Proof.
  unfold or_si. revert l2. induction l1 as [|a l1 IH]; intros [|b l2] Hl; try discriminate; [done|].
  injection Hl as Hl. cbn [map zip_with existsb]. rewrite IH, Z.lor_spec by done. btauto.
Qed.

Lemma existsb_map {A B : Type} (f : B -> bool) (g : A -> B) l : existsb f (map g l) = existsb (fun a => f (g a)) l.
Proof. induction l as [|a l IH]; cbn; [done|]. now rewrite IH. Qed.

Lemma unused_color_vectorized_eq has_avx512 b1 b2 :
  bucket_ok b1 -> bucket_ok b2 -> unused_color_vectorized has_avx512 b1 b2 = unused_color b1 b2.
Proof.
  intros H1 H2. pose proof (bk_cells b1 H1) as C1. pose proof (bk_cells b2 H2) as C2.
  assert (Ei : Forall entry_ok (zip_cells (cells b1) (cells b2))).
  { apply List.Forall_forall. intros e He. apply zip_cells_In in He; [|now rewrite !bk_length].
    rewrite List.Forall_forall in C1, C2. destruct He; auto. }
  unfold unused_color. rewrite !take_ge by (rewrite bk_length by done; lia).
  unfold unused_color_vectorized, unused_color_in_pair_avx512, unused_color_in_pair_avx2.
  rewrite !bucket_headers_eq, <- map_app, !lane_bits_eq by (done || now apply Forall_app).
  assert (L : length (cells b1) = length (cells b2)) by now rewrite !bk_length.
  destruct has_avx512.
  - rewrite (used_bits_eq _ (zip_cells (cells b1) (cells b2))); [done|exact Ei|].
    intros k Hk. now rewrite existsb_zip_cells, existsb_map, existsb_app.
  - rewrite (used_bits_eq _ (zip_cells (cells b1) (cells b2))); [done|exact Ei|].
    intros k Hk. now rewrite existsb_zip_cells, existsb_or_si.
Qed.

#[export] Instance vectorized_laws (has_avx512 : bool) : @BucketLaws (vectorized_ops has_avx512).
Proof.
  split; cbn [find_entry_in_bucket_by_color find_entry_in_bucket_by_parent unused_color_in_pair vectorized_ops].
  - intros b sec tag color Hb Hq _ Ht Hc. rewrite find_by_color_vectorized_eq by done. apply first_result_scan.
  - intros b sec tag ls pc Hb Hq _ Ht Hl Hp. rewrite find_by_parent_vectorized_eq by done. apply first_result_scan.
  - intros b1 b2 H1 H2. rewrite unused_color_vectorized_eq by done. now apply unused_color_spec.
  - done.
Qed.

(** ** The scalar scans find the same cell *)

Lemma scan_cells_first l i mask values (P : ct_entry -> bool) :
  (forall e, In e l -> ((entry_qword e .& mask) =? values) = used e && P e) ->
  scan_cells l i mask values = first_used P l i.
Proof.
  revert i. induction l as [|e l IH]; intros i H; [done|]. cbn [scan_cells first_used].
  rewrite (H e) by now left. destruct (used e && P e); [done|]. apply IH. intros e' He'. apply H. now right.
Qed.

Lemma scan_bucket_first b mask values (P : ct_entry -> bool) :
  bucket_ok b -> quiescent b -> Forall cell_ok (cells b) ->
  (forall e, entry_ok e -> ((entry_qword e .& mask) =? values) = P e) ->
  (forall e, cell_ok e -> P e = true -> used e = true) ->
  scan_bucket b mask values = first_result P b.
Proof.
  intros Hb Hq Hc HP Hu. unfold scan_bucket, quiescent in *. rewrite Hq. cbn [Z.eqb negb].
  rewrite Z.eqb_refl, take_ge by (rewrite bk_length by done; lia). unfold first_result.
  rewrite (scan_cells_first _ _ _ _ P); [now destruct (first_used P (cells b) 0) as [[]|]|].
  intros e He. pose proof (bk_cells b Hb) as Hok. rewrite List.Forall_forall in Hok, Hc.
  rewrite HP by auto. destruct (P e) eqn:E; [now rewrite (Hu e (Hc e He) E)|now rewrite andb_false_r].
Qed.

(** ** Properties *)

(** C29. The vectorised bucket operations of main_vectorized.c agree with the
    scalar ones of main.c: on every well-formed bucket in which no write is in
    progress the searches by color and by parent color return the same cell,
    entry and counter, and both vector versions of [unused_color_in_pair]
    return the same color as the scalar loop. *)
Theorem vectorized_scans_agree b b2 sec tag color last_sym has_avx512 :
  bucket_ok b -> quiescent b -> Forall cell_ok (cells b) -> bucket_ok b2 ->
  0 <= tag < 16 -> 0 <= color <= MAX_VALID_COLOR -> is_byte last_sym ->
  find_by_color_vectorized b sec tag color = find_by_color b sec tag color /\
  find_by_parent_vectorized b sec tag last_sym color = find_by_parent b sec tag last_sym color /\
  unused_color_vectorized has_avx512 b b2 = unused_color b b2.
Proof.
  intros Hb Hq Hc Hb2 Ht Hcol Hl. pose proof (valid_color_16 _ Hcol) as H16. split; [|split].
  - rewrite find_by_color_vectorized_eq by done. symmetry. apply scan_bucket_first; try done.
    + intros e He. now apply header_match_color.
    + intros e. now apply matches_color_used.
  - rewrite find_by_parent_vectorized_eq by done. symmetry. apply scan_bucket_first; try done.
    + intros e He. now apply header_match_parent.
    + intros e. now apply matches_parent_used.
  - now apply unused_color_vectorized_eq.
Qed.

(** A bucket with a jump node of color 3 in its second cell, in the secondary bucket of its pair. *)
Definition sample_bucket : ct_bucket :=
  mk_bucket [unused_entry; set_color_and_tag_byte 53 (set_parent_color_and_flags 39 sample_entry);
             unused_entry; unused_entry] 1024.

Lemma sample_bucket_ok : bucket_ok sample_bucket /\ Forall cell_ok (cells sample_bucket).
Proof.
  split.
  - split; [reflexivity| |cbn; lia]. repeat (apply List.Forall_cons; [apply entry_ok_check; reflexivity|]).
    apply List.Forall_nil.
  - repeat (apply List.Forall_cons; [vm_compute; (discriminate || split; reflexivity)|]). apply List.Forall_nil.
Qed.

Lemma vectorized_scans_agree_witness :
  find_by_color sample_bucket true 5 3 = find_by_color_vectorized sample_bucket true 5 3 /\
  find_by_color_vectorized sample_bucket true 5 3 = Some (1%nat, cell_of sample_bucket 1, 1024).
Proof.
  destruct sample_bucket_ok as [H1 H2].
  destruct (vectorized_scans_agree sample_bucket sample_bucket true 5 3 0 true H1 eq_refl H2 H1 ltac:(lia)
    ltac:(split; discriminate) ltac:(split; [discriminate|reflexivity])) as (H & _ & _).
  split; [symmetry; exact H|vm_compute; reflexivity].
Defined.
