(* ===== verification/VectorLib.v ===== *)
(** * The vectorised library (main_vectorized.c)

    main_vectorized.c is a library of its own: next to the vectorised scans it
    has every function of main.c again, compiled against them. The functions
    that search the table, directly or through others, are given here for
    [vectorized_ops]; those that do not are, word for word, the functions of
    main.c, and share their definitions. *)

From S2P Require Import Prelude Bits Entry KeyObject State Hashing Symbols Random Atomics Table Contents Store Locks Cells Search Relocate AddEntry Scalar Finger Insert Iter Api Alloc Verify Lookup Preserve Sample TableSpec Crowded Vectorized.
From stdpp Require Import base list gmap.
From Stdlib Require Import ZArith Lia Bool.

#[local] Open Scope Z_scope.

(** ** Functions that do not search the table *)

Definition ptr_to_bucket := State.ptr_to_bucket.
Definition entry_index_in_bucket := State.entry_index_in_bucket.
Definition mix_bucket := Hashing.mix_bucket.
Definition unmix_bucket := Hashing.unmix_bucket.
Definition accumulate_hash := Hashing.accumulate_hash.
Definition alternate_bucket := Hashing.alternate_bucket.
Definition hash_to_bucket := Hashing.hash_to_bucket.
Definition hash_to_tag := Hashing.hash_to_tag.
Definition entries_equal := Entry.entries_equal.
Definition validate_entry := Table.validate_entry.
Definition validate_path_from := Finger.validate_path_from.
Definition read_min_leaf := Table.read_min_leaf.
Definition get_jump_symbol := Entry.get_jump_symbol.
Definition get_string_symbol := Symbols.get_string_symbol.
Definition get_key_symbol := Symbols.get_key_symbol.
Definition find_free_cell_in_bucket := Table.find_free_cell_in_bucket.
Definition find_root := Table.find_root.
Definition remove_entry_by_address := Table.remove_entry_by_address.
Definition store_path_entry := Finger.store_path_entry.
Definition init_finger := @Finger.init_finger.
Definition finger_extend_prefix_known_hash := Finger.finger_extend_prefix_known_hash.
Definition finger_extend_prefix := Finger.finger_extend_prefix.
Definition finger_node_changed := Finger.finger_node_changed.
Definition reread_path_end := Finger.reread_path_end.
Definition bitmap_child_before := Finger.bitmap_child_before.
Definition upgrade_locks_on_left_parents_above := Insert.upgrade_locks_on_left_parents_above.
Definition extend_jump_node := Entry.extend_jump_node.
Definition relocate_entry := Table.relocate_entry.
Definition find_left_descend := Finger.find_left_descend.
Definition init_pred_locator := Finger.no_predecessor.
Definition prefetch_path_child_predecessor := Finger.prefetch_path_child_predecessor.
Definition prefetch_leaf_predecessor := Finger.prefetch_leaf_predecessor.
Definition prefetch_bitmap_child_predecessor := Finger.prefetch_bitmap_child_predecessor.
Definition read_qword_zfill := Symbols.read_qword_zfill.
Definition key_to_symbols := @Symbols.key_to_symbols.
Definition prefetcher_start := @Symbols.prefetcher_start.
Definition prefetcher_step := Symbols.prefetcher_step.
Definition iter_max_leaf := Iter.iter_max_leaf.
Definition ct_iter_alloc := @Iter.ct_iter_alloc.
Definition init_bucket_mix_table := Random.init_bucket_mix_table.
Definition ct_free_size := Alloc.ct_free_size.

(** [create_root] and [unused_color_in_pairr], a copy of the scalar
    [unused_color_in_pair] that is kept under another name. *)
Definition create_root := @Insert.create_root.
Definition unused_color_in_pairr := Scalar.unused_color.

(** ** Allocation *)

Section alloc.
Variable mmap : Z -> mmap_result.
Variable malloc_succeeds : bool.
Variable high_first : bool.

(** As [Alloc.ct_alloc], with the other [init_buckets]. *)
Definition ct_alloc {S : Type} (num_cells : Z) : M S (option cuckoo_trie) :=
  let n := round_num_buckets num_cells in
  let buckets_to_alloc := u64 (n + 1) in
  match mmap_hugepage mmap (mapping_size buckets_to_alloc) with
  | None => mret None
  | Some memory =>
      if negb malloc_succeeds then mret None
      else
        let num_pairs := u64 (n * (1 .<< TAG_BITS)) in
        min_leaf_bk ← lift (zlookup memory n);
        min_leaf ← lift (bucket_cell min_leaf_bk 0);
        let bs := take (Z.to_nat buckets_to_alloc)
                    (zset memory n (set_cells (<[0%nat := init_min_leaf min_leaf]> (cells min_leaf_bk)) min_leaf_bk)) in
        _ ← assert (negb (n =? 0));
        mret (Some (init_buckets_vectorized
          (mk_trie bs n num_pairs (num_pairs .>> BITS_PER_SYMBOL)
             (init_bucket_mix_table high_first n) 1)))
  end.
End alloc.

Section library.
Context `{Env} (has_avx512 : bool).
#[local] Instance ops : BucketOps := vectorized_ops has_avx512.

(** ** The table *)

Definition find_entry_in_pair_by_color := Table.find_entry_in_pair_by_color.
Definition find_entry_in_pair_by_parent := Table.find_entry_in_pair_by_parent.
Definition locator_to_entry := Table.locator_to_entry.
Definition update_entry_slow_path := Table.update_entry_slow_path.
Definition update_entry := Table.update_entry.
Definition remove_entry_by_value := Table.remove_entry_by_value.
Definition mark_entry_dirty := Table.mark_entry_dirty.
Definition mark_entry_clean := Table.mark_entry_clean.
Definition add_entry := Table.add_entry.

(** ** Descent and predecessors *)

Definition try_descend := Finger.try_descend.
Definition descend := Finger.descend.
Definition get_predecessor_atomic := Finger.get_predecessor_atomic.
Definition find_predecessor := Finger.find_predecessor.

(** ** Insertion *)

Definition linklist_insert := Insert.linklist_insert.
Definition linklist_insert_two := Insert.linklist_insert_two.
Definition create_bitmap_child := Insert.create_bitmap_child.
Definition mark_bitmap_child := Insert.mark_bitmap_child.
Definition propagate_max_leaf := Insert.propagate_max_leaf.
Definition split_leaf_locks := Insert.split_leaf_locks.
Definition add_path_nodes := Insert.add_path_nodes.
Definition split_leaf_publish := Insert.split_leaf_publish.
Definition split_leaf_undo := Insert.split_leaf_undo.
Definition give_up_full := Insert.give_up_full.
Definition split_leaf := Insert.split_leaf.
Definition split_jump_node := Insert.split_jump_node.
Definition create_leaf := Insert.create_leaf.
Definition ct_insert_internal := Insert.ct_insert_internal.

(** ** The public operations *)

Definition ct_insert := Api.ct_insert.
Definition ct_upsert := Api.ct_upsert.
Definition ct_lookup := Api.ct_lookup.
Definition ct_update_internal := Api.ct_update_internal.
Definition ct_update := Api.ct_update.
Definition ct_iter_goto_internal := Iter.ct_iter_goto_internal.
Definition ct_iter_next_internal := Iter.ct_iter_next_internal.
Definition ct_iter_goto := Iter.ct_iter_goto.
Definition ct_iter_next := Iter.ct_iter_next.
End library.

(** ** The two initialisations *)

Lemma init_zero_buckets l : Forall (eq zero_bucket) l -> map init_bucket_vectorized l = map init_bucket l.
Proof. induction 1 as [|b l <- _ IH]; cbn [map]; [done|]. now rewrite IH. Qed.

Lemma init_buckets_agree t :
  Forall (eq zero_bucket) (take (Z.to_nat (num_buckets t)) (buckets t)) -> init_buckets_vectorized t = init_buckets t.
Proof. intros H. unfold init_buckets_vectorized, init_buckets. now rewrite init_zero_buckets. Qed.

(** Only the bucket of the list head is written before the others are
    initialised. *)
Lemma zero_buckets_below (l : list ct_bucket) (n : Z) (k : nat) (head : ct_bucket) :
  Forall (eq zero_bucket) l -> Forall (eq zero_bucket) (take (Z.to_nat n) (take k (zset l n head))).
Proof.
  intros Hl. apply Forall_lookup_2. intros i b Hi. apply lookup_take_Some in Hi as [Hi Hin].
  apply lookup_take_Some in Hi as [Hi _]. apply (Forall_lookup_1 _ _ i _ Hl). rewrite <- Hi.
  unfold zset. destruct (Z.leb_spec 0 n); [|done]. symmetry. apply list_lookup_insert_ne. lia.
Qed.

(** ** Properties *)

(** C31. [ct_alloc] of the vectorised library, which stores whole entries into
    the cells, builds the same trie as that of main.c, which only stores the two
    header bytes: for every number of cells, on memory that is filled with
    zeros, both fail together, and otherwise return equal tries. *)
Theorem allocs_agree {S : Type} mmap malloc_succeeds high_first num_cells (s : S) :
  (forall size mem, mmap size = Mapped mem -> Forall (eq zero_bucket) mem) ->
  ct_alloc mmap malloc_succeeds high_first num_cells s = Alloc.ct_alloc mmap malloc_succeeds high_first num_cells s.
Proof.
  intros Hz. unfold ct_alloc, Alloc.ct_alloc, mmap_hugepage. set (n := round_num_buckets num_cells).
  destruct (mmap _) as [| |mem] eqn:Em; [reflexivity|reflexivity|]. apply Hz in Em.
  destruct malloc_succeeds; cbn [negb]; [|reflexivity].
  unfold mbind, M_bind, lift, assert, mret, M_ret, fault.
  destruct (zlookup mem n) as [bk|]; [|reflexivity]. destruct (bucket_cell bk 0) as [e|]; [|reflexivity].
  destruct (n =? 0); [reflexivity|]. cbn [negb].
  rewrite init_buckets_agree; [reflexivity|]. cbn [num_buckets buckets]. now apply zero_buckets_below.
Qed.

Lemma allocs_agree_witness :
  ct_alloc zero_pages true true 200 tt = Alloc.ct_alloc zero_pages true true 200 tt.
Proof. apply allocs_agree. intros size mem [= <-]. now apply Forall_replicate. Defined.
