(* ===== verification/Dictionary.v ===== *)
(** * The trie as a dictionary: lookups and updates

    On a table that stores a trie ([trie_rep]) and in which no bucket is
    locked, [ct_lookup] and [ct_update] do what a dictionary does. *)

From S2P Require Import Prelude Bits Entry KeyObject State Hashing Symbols Atomics Table Contents Store Scalar Finger Insert Api Lookup Sample Vectorized.
From stdpp Require Import base list gmap.
From Stdlib Require Import ZArith Lia Bool.

#[local] Open Scope Z_scope.

(** ** One lock, one write: [replace_kv] *)

Lemma read_bucket_seq_eq s b bk :
  trie_bucket (trie s) b = Some bk -> bucket_ok bk ->
  read_bucket_seq b s = Ret (seq_part (write_lock_and_seq bk)) s.
Proof.
  intros Hb Hok. unfold read_bucket_seq. erewrite bind_Ret by (apply get_bucket_eq; exact Hb).
  unfold mret, M_ret. f_equal. rewrite seq_part_eq by apply Hok.
  pose proof (bk_word bk Hok) as Hw. set (w := write_lock_and_seq bk) in *. unfold wrap.
  rewrite !Z.shiftr_div_pow2, !Z.shiftl_mul_pow2 by lia.
  change (2 ^ 8) with 256. change (2 ^ 16) with 65536. change (2 ^ 24) with 16777216. zdiv.
Qed.

Section replace.
Context `{BucketOps}.
Variables (s : state) (l : ct_entry_local_copy) (bk : ct_bucket) (e' : ct_entry).
Hypothesis t_ok : table_ok (trie s).
Hypothesis no_locks : lock_mgr s = [].
Hypothesis l_ok : local_ok (trie s) l.
Hypothesis bk_at : trie_bucket (trie s) (pos_bucket (last_pos l)) = Some bk.
Hypothesis bk_free : write_lock bk = 0.
Hypothesis e'_ok : entry_ok e'.

Let b := pos_bucket (last_pos l).
Let c := pos_cell (last_pos l).
Let bk1 := set_write_lock 1 bk.
Let s1 := set_lock_mgr [mk_write_lock b (alter (fun r => u32 (r + 1)) c (replicate CUCKOO_BUCKET_SIZE 0)) 1]
            (set_trie (upd_bucket (trie s) b bk1) s).

Lemma last_seq_eq : seq_part (last_seq l) = seq_part (write_lock_and_seq bk).
Proof. destruct (lo_seq _ _ l_ok) as (bk' & Hbk' & E). congruence. Qed.

Lemma bk_both : bucket_ok bk /\ quiescent bk.
Proof. exact (trie_bucket_ok _ t_ok _ _ bk_at). Qed.

Lemma bk1_ok : bucket_ok bk1 /\ quiescent bk1 /\ write_lock bk1 = 1 /\
  seq_part (write_lock_and_seq bk1) = seq_part (write_lock_and_seq bk).
Proof.
  destruct bk_both as [H1 H2]. unfold bk1. repeat split;
    first [apply set_write_lock_ok | apply set_write_lock_quiescent | apply write_lock_set | apply set_write_lock_seq];
    (done || lia).
Qed.

Lemma bk1_at (bk' : ct_bucket) : trie_bucket (upd_bucket (trie s) b bk') b = Some bk'.
Proof. rewrite (trie_bucket_upd _ _ bk) by exact bk_at. now rewrite Z.eqb_refl. Qed.

Lemma upgrade_lock_free : upgrade_lock l s = Ret SI_OK s1.
Proof.
  destruct bk1_ok as (H1 & H2 & H3 & H4). unfold upgrade_lock.
  erewrite bind_Ret by (apply try_take_lock_spec; exact bk_at). rewrite bk_free. cbn [Z.eqb].
  erewrite bind_Ret.
  2: { unfold add_lock, get_locks. erewrite bind_Ret by reflexivity. cbn [lock_mgr set_trie]. rewrite no_locks.
       erewrite bind_Ret by (apply assert_true; reflexivity). erewrite bind_Ret by reflexivity. reflexivity. }
  erewrite bind_Ret by (apply (read_bucket_seq_eq _ _ bk1); [apply bk1_at|exact H1]).
  erewrite bind_Ret by (apply (get_bucket_eq _ _ bk1), bk1_at).
  erewrite bind_Ret by (apply assert_true; apply Z.eqb_refl).
  rewrite H4, last_seq_eq, Z.eqb_refl. cbn [negb].
  erewrite bind_Ret; [reflexivity|]. unfold update_lock, get_locks.
  erewrite bind_Ret by reflexivity. cbn [lock_mgr set_lock_mgr length lookup list_lookup app]. reflexivity.
Qed.

Lemma update_entry_locked :
  exists l', update_entry l e' s1 = Ret l' (set_trie (upd_bucket (trie s) b (write_cell bk1 c e')) s1).
Proof.
  destruct bk1_ok as (H1 & H2 & H3 & H4). unfold update_entry, validate_entry.
  destruct (trie_entry_bucket _ _ _ (lo_entry _ _ l_ok)) as (bk' & Hbk' & Hc).
  rewrite bk_at in Hbk'. injection Hbk' as <-.
  erewrite bind_Ret.
  2: { erewrite bind_Ret; [reflexivity|]. unfold read_int_atomic_seq.
       erewrite bind_Ret by (apply (get_bucket_eq _ _ bk1), bk1_at). reflexivity. }
  rewrite H4, last_seq_eq, Z.eqb_refl. eexists. unfold mbind at 1, M_bind at 1.
  rewrite (write_entry_spec s1 (last_pos l) e' (lc_value l) bk1); try done.
  - unfold s1. cbn [trie set_lock_mgr set_trie]. fold b c. rewrite upd_bucket_upd. reflexivity.
  - apply bk1_at.
Qed.

(** Unlocking gives the word the write alone would have given. *)
Lemma unlock_written :
  set_write_lock 0 (write_cell bk1 c e') = write_cell bk c e'.
Proof.
  destruct bk_both as [H1 H2]. destruct bk1_ok as (H3 & _ & _ & H4).
  unfold set_write_lock, write_cell, set_lock_word. cbn [cells write_lock_and_seq]. f_equal.
  pose proof (next_word_ok _ (bk_word _ H3)) as Hw.
  rewrite set_lock_byte by (done || lia). rewrite !next_word_eq by (apply H1 || apply H3).
  assert (E1 : write_lock_and_seq bk1 / 256 = write_lock_and_seq bk / 256) by (apply set_write_lock_div; (done || lia)).
  assert (E2 : write_lock_and_seq bk mod 256 = 0) by (rewrite <- land_255; exact bk_free).
  rewrite E1, E2. pose proof (bk_word _ H3). zdiv.
Qed.

Lemma replace_entry_spec :
  (ret ← upgrade_lock l;
   if bool_decide (ret = SI_RETRY) then mret SI_RETRY
   else _ ← update_entry l e'; _ ← release_all_locks; mret SI_OK) s =
  Ret SI_OK (set_lock_mgr [] (set_trie (upd_bucket (trie s) b (write_cell bk c e')) s)).
Proof.
  erewrite bind_Ret by exact upgrade_lock_free. rewrite bool_decide_false by discriminate.
  destruct update_entry_locked as [l' E]. erewrite bind_Ret by exact E.
  erewrite bind_Ret; [reflexivity|]. unfold release_all_locks, get_locks.
  erewrite bind_Ret by reflexivity. cbn [lock_mgr set_trie set_lock_mgr s1 for_each wl_bucket].
  erewrite bind_Ret.
  2: { erewrite bind_Ret; [reflexivity|]. apply (unlock_byte_spec _ b (write_cell bk1 c e')). apply bk1_at. }
  rewrite unlock_written. unfold put_locks, modify. cbn [trie set_trie set_lock_mgr].
  rewrite upd_bucket_upd. reflexivity.
Qed.
End replace.

(** ** Replacing the value of a leaf *)

Lemma byte_at_set_kv kv e i :
  entry_ok e -> (i < 3)%nat -> byte_at (entry_set_kv kv e) i = byte_at e i.
Proof.
  intros He Hi. apply byte_eq; [auto with cuckoo..|]. intros j Hj.
  rewrite testbit_entry_set_kv by (done || entry_lia). now rewrite decide_False by lia.
Qed.

(** The fields the table looks at are those of the first three bytes. *)
Definition same_header (e e' : ct_entry) : Prop := forall i, (i < 3)%nat -> byte_at e i = byte_at e' i.

Lemma same_header_fields t p e e' :
  same_header e e' ->
  used e = used e' /\ entry_type e = entry_type e' /\ entry_key t p e = entry_key t p e' /\
  entry_color e = entry_color e' /\ last_symbol e = last_symbol e' /\
  entry_parent_color e = entry_parent_color e' /\ entry_hash t p e = entry_hash t p e'.
Proof.
  intros H. pose proof (H 0%nat ltac:(lia)) as H0. pose proof (H 1%nat ltac:(lia)) as H1.
  pose proof (H 2%nat ltac:(lia)) as H2.
  assert (E0 : parent_color_and_flags e = parent_color_and_flags e') by exact H0.
  assert (E1 : color_and_tag e = color_and_tag e') by exact H1.
  unfold entry_key, entry_hash, entry_primary, entry_is_secondary, used, entry_type, entry_color,
    entry_parent_color, entry_tag, last_symbol. now rewrite E0, E1, H2.
Qed.

(** The tree with the leaf the symbols lead to replaced. *)
Fixpoint tupdate (n : tnode) (sym : Z -> Z) (k : Z) (new : Z) : tnode :=
  match n with
  | TLeaf _ => TLeaf new
  | TJump syms child => TJump syms (tupdate child sym (k + Z.of_nat (length syms)) new)
  | TBitmap f =>
      TBitmap (fun s =>
        match f s with
        | Some ch => Some (if s =? sym k then tupdate ch sym (k + 1) new else ch)
        | None => None
        end)
  end.

Section store_leaf.
Variables (t : cuckoo_trie) (p : pos) (bk : ct_bucket) (e0 : ct_entry) (kv : Z).
Hypothesis t_ok : table_ok t.
Hypothesis in_t : in_table t p.
Hypothesis bk_at : trie_bucket t (pos_bucket p) = Some bk.
Hypothesis e0_at : cells bk !! pos_cell p = Some e0.
Hypothesis e0_leaf : entry_type e0 = TYPE_LEAF.

Let e := entry_set_kv kv e0.
Let t' := upd_bucket t (pos_bucket p) (write_cell bk (pos_cell p) e).
Let old := entry_kv e0.

Lemma e0_in : trie_entry t p = Some e0.
Proof. unfold trie_entry. now rewrite bk_at. Qed.

Lemma e0_ok : entry_ok e0.
Proof. exact (trie_entry_ok t t_ok _ _ e0_in). Qed.

Lemma leaf_header : same_header e e0.
Proof. intros i Hi. apply byte_at_set_kv; [exact e0_ok|done]. Qed.

Lemma e0_holds : holds t p (entry_key t p e0) e0.
Proof.
  split; [exact in_t|]. split; [exact e0_in|]. split; [|done]. unfold used. now rewrite e0_leaf.
Qed.

Lemma store_leaf_ok : table_ok t'.
Proof.
  destruct (same_header_fields t p _ _ leaf_header) as (Hu & _ & Hk & Hcol & _ & Hpc & _).
  apply (table_ok_store t p bk e e0); try done.
  - apply entry_set_kv_ok, e0_ok.
  - pose proof (tb_cells t t_ok p e0 in_t e0_in) as Hc. unfold cell_ok in *. now rewrite Hu, Hcol, Hpc.
  - intros _ q x Hx. rewrite Hk in Hx. exact (tb_unique t t_ok _ _ _ _ _ Hx e0_holds).
Qed.

(** Entries other than the leaf are where they were. *)
Lemma holds_store_leaf q k x :
  holds t' q k x <-> exists x0, holds t q k x0 /\ x = if decide (q = p) then e else x0.
Proof.
  destruct (same_header_fields t p _ _ leaf_header) as (Hu & _ & Hk & _).
  pose proof e0_holds as Hh. pose proof Hh as (_ & _ & Hu0 & _).
  unfold t'. rewrite (holds_store t p bk e e0) by done. split.
  - intros [(-> & -> & _ & Ek)|[Hne Hx]].
    + exists e0. rewrite decide_True by done. split; [|done]. rewrite <- Ek, Hk. exact Hh.
    + exists x. rewrite decide_False by done. split; [exact Hx|reflexivity].
  - intros (x0 & Hx0 & ->). case_decide as Hd; [left|right; done]. subst q.
    destruct Hx0 as (_ & Ex & _ & Ek). rewrite e0_in in Ex. injection Ex as <-.
    rewrite Hu, Hk. done.
Qed.

Lemma child_of_store h c s c' : child_of t h c s c' -> child_of t' h c s c'.
Proof.
  assert (Hf : forall q x0, trie_entry t q = Some x0 -> same_header (if decide (q = p) then e else x0) x0).
  { intros q x0 Hx. case_decide; [subst q|done]. rewrite e0_in in Hx. injection Hx as <-. exact leaf_header. }
  intros [(q & x0 & Hh & Hls & Hpc) Hu]. split.
  - exists q, (if decide (q = p) then e else x0). split; [apply holds_store_leaf; eauto|].
    destruct (same_header_fields t q _ _ (Hf q x0 (proj1 (proj2 Hh)))) as (_ & _ & _ & _ & -> & -> & _). done.
  - intros q' c'' x Hx Hlx Hpx. apply holds_store_leaf in Hx as (x1 & Hx1 & ->).
    destruct (same_header_fields t q' _ _ (Hf q' x1 (proj1 (proj2 Hx1)))) as (_ & _ & _ & _ & E1 & E2 & _).
    apply (Hu q' c'' x1 Hx1); congruence.
Qed.

(** A subtree that does not contain the old leaf is unchanged. *)
Lemma rep_elsewhere n h c : rep t n h c -> (forall kv', leaf_of n kv' -> kv' <> old) -> rep t' n h c.
Proof.
  revert h c. induction n as [kv'|syms child IH|g IH] using tnode_ind; intros h c (q & x & Hh & Hn) Hl;
    (assert (Hq : q <> p \/ entry_kv x = old /\ entry_type x = TYPE_LEAF) by
      (destruct (decide (q = p)) as [->|]; [right|now left];
       destruct Hh as (_ & Ex & _); rewrite e0_in in Ex; injection Ex as <-; done)).
  - destruct Hn as [Ht Hkv]. exists q, x. split; [|done]. apply holds_store_leaf. exists x. split; [done|].
    rewrite decide_False; [done|]. intros ->. destruct Hq as [|[E _]]; [done|]. apply (Hl kv'); [done|congruence].
  - destruct Hn as (Ht & Hs & Hsym & Hr). exists q, x. split.
    + apply holds_store_leaf. exists x. split; [done|]. rewrite decide_False; [done|]. intros ->.
      destruct Hq as [|[_ E]]; [done|]. rewrite Ht in E. discriminate.
    + repeat split; try done. apply IH; [exact Hr|exact Hl].
  - destruct Hn as (Ht & Hb). exists q, x. split.
    + apply holds_store_leaf. exists x. split; [done|]. rewrite decide_False; [done|]. intros ->.
      destruct Hq as [|[_ E]]; [done|]. rewrite Ht in E. discriminate.
    + split; [done|]. intros s Hs. specialize (Hb s Hs). destruct (g s) as [ch|] eqn:Eg; [|done].
      destruct Hb as (Hbit & c' & Hr & Hch). split; [done|]. exists c'. split; [|now apply child_of_store].
      apply (IH s ch Eg _ _ Hr). intros kv' Hkv'. apply Hl. exists s. now rewrite Eg.
Qed.

Variable m : gmap Z ct_kv.
Hypothesis kv_canonical : canonical_address kv.

Lemma new_kv : entry_kv e = kv /\ entry_type e = TYPE_LEAF.
Proof.
  destruct (same_header_fields t p _ _ leaf_header) as (_ & -> & _). split; [|exact e0_leaf].
  apply entry_kv_set; [exact e0_ok|exact kv_canonical].
Qed.

Lemma not_at_leaf q k x : holds t q k x -> entry_type x <> TYPE_LEAF -> holds t' q k x.
Proof.
  intros Hh Ht. apply holds_store_leaf. exists x. split; [done|]. rewrite decide_False; [done|]. intros ->.
  destruct Hh as (_ & Ex & _). rewrite e0_in in Ex. injection Ex as <-. done.
Qed.

(** The tree after the store, along the path of the old leaf's key. *)
Lemma rep_updated n pre h c sym :
  rep t n h c -> trie_ok m n pre -> reaches t n h c sym (Z.of_nat (length pre)) p ->
  (forall o, m !! old = Some o -> forall i, symbol_at (kv_key o) i = sym i) ->
  rep t' (tupdate n sym (Z.of_nat (length pre)) kv) h c.
Proof.
  intros Hrep Hok Hs Hsym. revert pre h c Hrep Hok Hs.
  induction n as [kv'|syms child IH|g IH] using tnode_ind; intros pre h c (q & x & Hh & Hn) Hok Hs; cbn in Hs.
  - destruct Hs as (x' & Hx'). pose proof (tb_unique t t_ok _ _ _ _ _ Hh Hx') as ->.
    exists p, e. split; [apply holds_store_leaf; exists x; now rewrite decide_True by done|].
    destruct new_kv. done.
  - destruct Hn as (Ht & Hsz & Hsy & Hr), Hs as (q' & x' & Hh' & Hs), Hok as (_ & _ & Hok & _).
    pose proof (tb_unique t t_ok _ _ _ _ _ Hh Hh') as ->.
    assert (x' = x) as -> by (destruct Hh as (_ & E1 & _), Hh' as (_ & E2 & _); congruence).
    exists q', x. split; [apply not_at_leaf; [done|rewrite Ht; discriminate]|].
    repeat split; try done. specialize (IH (pre ++ syms)). rewrite length_app, Nat2Z.inj_add in IH. now apply IH.
  - destruct Hn as (Ht & Hb). exists q, x. split; [apply not_at_leaf; [done|rewrite Ht; discriminate]|].
    split; [done|]. intros s Hss. specialize (Hb s Hss). pose proof (Hok s) as Hoks.
    destruct (g s) as [ch|] eqn:Eg; [|done]. destruct Hb as (Hbit & c' & Hr & Hch), Hoks as (_ & Hokc & _).
    split; [done|]. exists c'. split; [|now apply child_of_store].
    destruct (Z.eqb_spec s (sym (Z.of_nat (length pre)))) as [Es|Es].
    + rewrite <- Es, Eg in Hs. destruct Hs as (c2 & Hch2 & Hs).
      rewrite (child_of_unique _ _ _ _ _ _ Hch2 Hch) in Hs.
      specialize (IH s ch Eg (pre ++ [s])). rewrite length_app in IH. cbn [length] in IH.
      replace (Z.of_nat (length pre + 1)) with (Z.of_nat (length pre) + 1) in IH by lia. now apply IH.
    + apply rep_elsewhere; [exact Hr|]. intros kv' Hl ->.
      destruct (leaf_of_ok m ch _ old Hokc Hl) as (o & Ho & _ & Hsy). apply Es.
      rewrite <- (Hsym o Ho). symmetry. apply Hsy. rewrite lookup_app_r, Nat.sub_diag by lia. done.
Qed.
End store_leaf.

(** ** The tree after an update *)

Lemma tsearch_tupdate n sym k new kv exact :
  tsearch n sym k = Some (kv, exact) -> tsearch (tupdate n sym k new) sym k = Some (new, exact).
Proof.
  revert k. induction n as [kv'|syms child IH|g IH] using tnode_ind; intros k; cbn.
  - now intros [= _ <-].
  - destruct (follows syms sym k); [apply IH|discriminate].
  - destruct (g (sym k)) as [ch|] eqn:Eg; [|discriminate]. rewrite Z.eqb_refl.
    destruct (sym k =? SYMBOL_END); [|now apply (IH (sym k))].
    destruct ch; try discriminate. now intros [= _ <-].
Qed.

(** A search with other symbols finds what it found, or the replaced leaf. *)
Lemma tsearch_tupdate_other n sym sym' k new old exact :
  tsearch n sym k = Some (old, exact) ->
  tsearch (tupdate n sym k new) sym' k = tsearch n sym' k \/
  exists ex, tsearch n sym' k = Some (old, ex) /\ tsearch (tupdate n sym k new) sym' k = Some (new, ex).
Proof.
  revert k. induction n as [kv'|syms child IH|g IH] using tnode_ind; intros k; cbn.
  - intros [= <- _]. right. now exists false.
  - destruct (follows syms sym k); [|discriminate]. intros E.
    destruct (follows syms sym' k); [now apply IH|now left].
  - destruct (g (sym k)) as [ch|] eqn:Eg; [|discriminate]. intros E.
    destruct (Z.eqb_spec (sym' k) (sym k)) as [->|Hne].
    + rewrite Eg. destruct (sym k =? SYMBOL_END); [|now apply (IH (sym k))].
      destruct ch; try discriminate. injection E as <- _. right. now exists true.
    + left. now destruct (g (sym' k)).
Qed.

Lemma trie_ok_tupdate m n pre sym old exact new :
  trie_ok m n pre -> tsearch n sym (Z.of_nat (length pre)) = Some (old, exact) ->
  (forall pre', leaf_ok m pre' old -> leaf_ok m pre' new) ->
  trie_ok m (tupdate n sym (Z.of_nat (length pre)) new) pre.
Proof.
  intros Hok Hs Hnew. revert pre Hok Hs.
  induction n as [kv'|syms child IH|g IH] using tnode_ind; intros pre Hok Hs; cbn in Hok, Hs |- *.
  - injection Hs as -> _. now apply Hnew.
  - destruct Hok as (Hlen & Hsy & Hok & Hnl). destruct (follows _ _ _); [|discriminate].
    split; [done|]. split; [done|]. specialize (IH (pre ++ syms) Hok).
    rewrite length_app, Nat2Z.inj_add in IH. split; [exact (IH Hs)|now destruct child].
  - intros s. specialize (Hok s). destruct (g s) as [ch|] eqn:Eg; [|done].
    destruct Hok as (Hss & Hc & Hend). destruct (Z.eqb_spec s (sym (Z.of_nat (length pre)))) as [Es|].
    2: { auto. }
    rewrite <- Es, Eg in Hs. split; [done|]. split; [|intros Ee; specialize (Hend Ee); now destruct ch].
    assert (Hl : Z.of_nat (length (pre ++ [s])) = Z.of_nat (length pre) + 1) by (rewrite length_app; cbn; lia).
    specialize (IH s ch Eg (pre ++ [s]) Hc). rewrite Hl in IH.
    destruct (Z.eqb_spec s SYMBOL_END) as [Ee|]; [|now apply IH].
    specialize (Hend Ee). destruct ch; try discriminate. injection Hs as -> _. cbn. now apply Hnew.
Qed.

(** An update changes what is found under its own key only. *)
Lemma tlookup_tupdate m n o old new bytes :
  trie_ok m n [] -> m !! new = Some o -> kv_ok o -> tlookup m n (kv_key o) = Some old ->
  tlookup m (tupdate n (symbol_at (kv_key o)) 0 new) bytes =
  if decide (bytes = kv_key o) then Some new else tlookup m n bytes.
Proof.
  intros Hok Hnew Ho Hold. unfold tlookup in *.
  destruct (tsearch n (symbol_at (kv_key o)) 0) as [[kv ex]|] eqn:Es; [|discriminate].
  destruct (m !! kv) as [o'|] eqn:Eo; [|discriminate]. case_bool_decide as Ek; [|discriminate].
  injection Hold as ->. case_decide as Hd.
  - subst bytes. rewrite (tsearch_tupdate _ _ _ _ _ _ Es), Hnew. now rewrite bool_decide_true.
  - destruct (tsearch_tupdate_other _ _ (symbol_at bytes) _ new _ _ Es) as [->|(ex' & -> & ->)]; [done|].
    rewrite Hnew, Eo, !bool_decide_false by congruence. done.
Qed.

(** ** [ct_update] *)

Section update.
Context `{BucketLaws} `{env : Env}.
Hypothesis ambient_ok : forall a, is_byte (ambient_byte a).
Hypothesis fuel_pos : (0 < retry_fuel)%nat.

Variables (s : state) (n : tnode) (kv : Z) (o : ct_kv).
Hypothesis s_rep : trie_rep s n.
Hypothesis s_unlocked : unlocked (trie s).
Hypothesis kv_at : kv_mem s !! kv = Some o.
Hypothesis o_ok : kv_ok o.
Hypothesis o_short : key_size o <= 255.
Hypothesis kv_canonical : canonical_address kv.

Lemma retry_now (op : MS si_status) s0 r s' :
  op s0 = Ret r s' -> r <> SI_RETRY -> retry op s0 = Ret r s'.
Proof.
  intros E Hr. unfold retry. destruct retry_fuel; [lia|]. apply loop_inr.
  erewrite bind_Ret by exact E. rewrite bool_decide_false by done. reflexivity.
Qed.

Lemma compare_kv kv' o' :
  kv_mem s !! kv' = Some o' -> kv_ok o' ->
  (kv_key_compare o' o =? 0) = bool_decide (kv_key o' = kv_key o).
Proof.
  intros _ Ho'. rewrite kv_key_compare_eq by done. apply compare_zero; [done|].
  rewrite length_kv_key by done. apply o_ok.
Qed.

Lemma tlookup_old old :
  tlookup (kv_mem s) n (kv_key o) = Some old ->
  exists o' ex, kv_mem s !! old = Some o' /\ kv_key o' = kv_key o /\
    tsearch n (symbol_at (kv_key o)) 0 = Some (old, ex).
Proof.
  unfold tlookup. destruct (tsearch _ _ _) as [[kv' ex]|]; [|discriminate].
  destruct (kv_mem s !! kv') as [o'|] eqn:Eo; [|discriminate]. case_bool_decide; [|discriminate].
  intros [= ->]. eauto.
Qed.

Lemma leaf_ok_new old pre :
  tlookup (kv_mem s) n (kv_key o) = Some old -> leaf_ok (kv_mem s) pre old -> leaf_ok (kv_mem s) pre kv.
Proof.
  intros Hl (o1 & Ho1 & _ & Hs). destruct (tlookup_old old Hl) as (o' & _ & Ho' & Hk & _).
  exists o. split; [done|]. split; [done|]. intros i x Hi. rewrite <- Hk. specialize (Hs i x Hi). congruence.
Qed.

(** Replacing the leaf in a cell the symbols of the key lead to. *)
Lemma replaced_leaf f old :
  let l := containing_entry f in
  local_ok (trie s) l -> entry_type (lc_value l) = TYPE_LEAF -> entry_kv (lc_value l) = old ->
  tlookup (kv_mem s) n (kv_key o) = Some old ->
  reaches (trie s) n HASH_START_VALUE ROOT_COLOR (symbol_at (kv_key o)) 0 (last_pos l) ->
  exists t', replace_kv f kv (set_lock_mgr [] s) = Ret SI_OK (mk_state t' [] (kv_mem s)) /\
    trie_rep (mk_state t' [] (kv_mem s)) (tupdate n (symbol_at (kv_key o)) 0 kv) /\ unlocked t'.
Proof.
  intros l Hl Ht Hkv Hlook Hreach. destruct (tlookup_old old Hlook) as (o' & ex & Ho' & Hk & Hs).
  pose proof (tr_table _ _ s_rep) as Htab.
  destruct (trie_entry_bucket _ _ _ (lo_entry _ _ Hl)) as (bk & Hbk & Hc).
  pose proof (trie_entry_ok _ Htab _ _ (lo_entry _ _ Hl)) as He.
  pose proof (lo_in_table _ _ Hl) as Hin.
  exists (upd_bucket (trie s) (pos_bucket (last_pos l))
            (write_cell bk (pos_cell (last_pos l)) (entry_set_kv kv (lc_value l)))).
  split; [|split].
  - exact (replace_entry_spec (set_lock_mgr [] s) l bk (entry_set_kv kv (lc_value l)) Htab eq_refl Hl Hbk
      (s_unlocked _ _ Hbk) (entry_set_kv_ok _ _ He)).
  - destruct (tr_root _ _ s_rep) as (er & Hr). split; cbn [trie kv_mem].
    + apply (store_leaf_ok (trie s) (last_pos l) bk (lc_value l)); done.
    + apply s_rep.
    + eexists. apply (holds_store_leaf (trie s) (last_pos l) bk (lc_value l)); eauto.
    + apply (rep_updated (trie s) (last_pos l) bk (lc_value l) kv) with (m := kv_mem s) (pre := []); try done;
        try apply s_rep. intros o1 Ho1 i. rewrite Hkv in Ho1. congruence.
    + apply (trie_ok_tupdate (kv_mem s) n [] (symbol_at (kv_key o)) old ex kv); [apply s_rep|exact Hs|].
      intros pre'. now apply leaf_ok_new.
  - intros b bk'. cbn [trie set_trie set_lock_mgr]. rewrite (trie_bucket_upd _ _ bk) by done.
    destruct (Z.eqb_spec b (pos_bucket (last_pos l))) as [->|]; [|apply s_unlocked].
    intros [= <-]. rewrite write_cell_lock; [now apply (s_unlocked (pos_bucket (last_pos l)))|].
    exact (proj1 (trie_bucket_ok _ Htab _ _ Hbk)).
Qed.

(** The leaf the descent ends at, and what the search says of it. *)
Lemma descent_lookup f r :
  descent_result (trie s) (kv_key o) n HASH_START_VALUE ROOT_COLOR 0 f r ->
  let e := lc_value (containing_entry f) in
  match tlookup (kv_mem s) n (kv_key o) with
  | Some old =>
      entry_type e = TYPE_LEAF /\ entry_kv e = old /\ local_ok (trie s) (containing_entry f) /\
      reaches (trie s) n HASH_START_VALUE ROOT_COLOR (symbol_at (kv_key o)) 0 (last_pos (containing_entry f)) /\
      exists o', kv_mem s !! old = Some o' /\ kv_ok o' /\ kv_key o' = kv_key o
  | None =>
      entry_type e <> TYPE_LEAF \/
      exists o', entry_type e = TYPE_LEAF /\ kv_mem s !! entry_kv e = Some o' /\ kv_ok o' /\ kv_key o' <> kv_key o
  end.
Proof.
  intros Hres e. unfold descent_result in Hres. unfold tlookup.
  destruct (tsearch n (symbol_at (kv_key o)) 0) as [[old ex]|] eqn:Es; [|now left].
  destruct Hres as (Ht & Hkv & Hl & _ & Hreach).
  destruct (tsearch_sound _ _ (kv_key_bytes_ok o o_ok) n [] old ex (tr_ok _ _ s_rep)) as (_ & o' & Ho' & Hok' & _);
    [now intros i x Hi|exact Es|].
  rewrite Ho'. case_bool_decide as Hk.
  - repeat (split; [done|]). eauto.
  - right. exists o'. rewrite <- Hkv in Ho'. done.
Qed.

Lemma ct_update_spec :
  match tlookup (kv_mem s) n (kv_key o) with
  | Some _ => exists t', ct_update kv s = Ret S_OK (mk_state t' [] (kv_mem s)) /\
      trie_rep (mk_state t' [] (kv_mem s)) (tupdate n (symbol_at (kv_key o)) 0 kv) /\ unlocked t'
  | None => ct_update kv s = Ret S_NOTFOUND (set_lock_mgr [] s)
  end.
Proof.
  destruct (init_finger_spec s n (kv_key o) s_rep) as (f0 & Ef & Hf & _).
  pose proof (trie_rep_locks s n [] s_rep) as Hr'.
  destruct (descend_kv_spec ambient_ok (set_lock_mgr [] s) n f0 o false Hr' o_ok o_short Hf) as (f & r & Ed & Hres).
  pose proof (descent_lookup f r Hres) as Hlook. cbv zeta in Hlook.
  assert (E : ct_update_internal kv s =
    (let e := lc_value (containing_entry f) in
     if negb (entry_type e =? TYPE_LEAF) then mret SI_FAIL
     else
       leaf_kv ← load_kv (entry_kv e);
       if negb (kv_key_compare leaf_kv o =? 0) then mret SI_FAIL
       else _ ← assert (entry_type e =? TYPE_LEAF); replace_kv f kv) (set_lock_mgr [] s)).
  { unfold ct_update_internal. erewrite bind_Ret by (unfold load_kv; erewrite bind_Ret by reflexivity; now rewrite kv_at).
    erewrite bind_Ret by exact Ef. cbn [negb]. now erewrite bind_Ret by exact Ed. }
  cbv zeta in E.
  destruct (tlookup (kv_mem s) n (kv_key o)) as [old|] eqn:El.
  - destruct Hlook as (Ht & Hkv & Hl & Hreach & o' & Ho' & Hok' & Hk).
    destruct (replaced_leaf f old Hl Ht Hkv El Hreach) as (t' & Er & Hrep & Hu).
    exists t'. split; [|done]. rewrite Ht, Hkv in E. cbn [Z.eqb TYPE_LEAF Pos.eqb negb] in E.
    erewrite bind_Ret in E by (unfold load_kv; erewrite bind_Ret by reflexivity; cbn; now rewrite Ho').
    rewrite (compare_kv old o') in E by done. rewrite bool_decide_true in E by done.
    unfold ct_update. erewrite bind_Ret by (apply retry_now; [rewrite E; exact Er|discriminate]). reflexivity.
  - assert (Ei : ct_update_internal kv s = Ret SI_FAIL (set_lock_mgr [] s)).
    2: { unfold ct_update. now erewrite bind_Ret by (apply retry_now; [exact Ei|discriminate]). }
    rewrite E. destruct Hlook as [Hne|(o' & Ht & Ho' & Hok' & Hk)].
    + destruct (Z.eqb_spec (entry_type (lc_value (containing_entry f))) TYPE_LEAF); done.
    + rewrite Ht. cbn [Z.eqb TYPE_LEAF Pos.eqb negb].
      erewrite bind_Ret by (unfold load_kv; erewrite bind_Ret by reflexivity; cbn; now rewrite Ho').
      rewrite (compare_kv _ o') by done. now rewrite bool_decide_false by done.
Qed.
End update.

(** ** Properties *)

(** C1. [ct_lookup] implements the dictionary: on a table that stores a trie
    it returns, for every key of at most 255 bytes and whatever memory
    surrounds the key, the key-value object of the leaf that has exactly this
    key, and NULL when there is no such leaf; it changes nothing but the lock
    manager of its finger, which it empties. *)
Theorem ct_lookup_correct `{BucketLaws} `{Env} s n bytes :
  trie_rep s n -> bytes_ok bytes -> Z.of_nat (length bytes) <= 255 -> (forall a, is_byte (ambient_byte a)) ->
  exists r, ct_lookup bytes s = Ret r (set_lock_mgr [] s) /\
    forall kv, r = Some kv <-> leaf_of n kv /\ exists o, kv_mem s !! kv = Some o /\ kv_key o = bytes.
Proof.
  intros Hr Hb Hl Ha. eexists. split; [exact (ct_lookup_spec Ha s n bytes Hr Hb Hl)|]. intros kv.
  apply tlookup_iff; [done|apply Hr].
Qed.

Lemma sample_ambient : forall a, is_byte (@ambient_byte sample_env a).
Proof. intros a. cbn. unfold is_byte. lia. Qed.

Lemma ct_lookup_correct_witness :
  exists r, @ct_lookup scalar_ops sample_env [1; 2; 4] sample_state = Ret r (set_lock_mgr [] sample_state) /\
    forall kv, r = Some kv <->
      leaf_of (state_trie 40 sample_state) kv /\
      exists o, kv_mem sample_state !! kv = Some o /\ kv_key o = [1; 2; 4].
Proof.
  apply (@ct_lookup_correct _ scalar_laws sample_env sample_state (state_trie 40 sample_state) [1; 2; 4]).
  - exact sample_state_rep.
  - apply bytes_ok_check. reflexivity.
  - discriminate.
  - exact sample_ambient.
Defined.

(** C27. The library built from main_vectorized.c looks keys up as the one
    built from main.c: on a table that stores a trie [ct_lookup] gives the
    same answer and leaves the same state, with AVX-512 and without. *)
Theorem lookup_libraries_agree `{Env} s n bytes has_avx512 :
  trie_rep s n -> bytes_ok bytes -> Z.of_nat (length bytes) <= 255 -> (forall a, is_byte (ambient_byte a)) ->
  @ct_lookup (vectorized_ops has_avx512) _ bytes s = @ct_lookup scalar_ops _ bytes s.
Proof.
  intros Hr Hb Hl Ha. rewrite (@ct_lookup_spec _ (vectorized_laws has_avx512) _ Ha s n bytes Hr Hb Hl).
  now rewrite (@ct_lookup_spec _ scalar_laws _ Ha s n bytes Hr Hb Hl).
Qed.

Lemma lookup_libraries_agree_witness :
  @ct_lookup (vectorized_ops true) sample_env [1; 2; 4] sample_state =
  @ct_lookup scalar_ops sample_env [1; 2; 4] sample_state.
Proof.
  apply (@lookup_libraries_agree sample_env sample_state (state_trie 40 sample_state) [1; 2; 4] true).
  - exact sample_state_rep.
  - apply bytes_ok_check. reflexivity.
  - discriminate.
  - exact sample_ambient.
Defined.

(** C2. [ct_update] changes the value of its own key only: it returns
    [S_OK] exactly when the key was in the trie, afterwards a lookup of the
    key finds the new object, lookups of all other keys find what they found
    before, the table still stores a trie, and no lock is left behind. *)
Theorem ct_update_correct `{BucketLaws} `{Env} s n kv o :
  trie_rep s n -> unlocked (trie s) -> kv_mem s !! kv = Some o -> kv_ok o -> key_size o <= 255 ->
  canonical_address kv -> (forall a, is_byte (ambient_byte a)) -> (0 < retry_fuel)%nat ->
  exists found s', ct_update kv s = Ret (if (found : bool) then S_OK else S_NOTFOUND) s' /\
    (exists n', trie_rep s' n') /\ unlocked (trie s') /\ lock_mgr s' = [] /\ kv_mem s' = kv_mem s /\
    forall bytes, bytes_ok bytes -> Z.of_nat (length bytes) <= 255 ->
      exists before after,
        ct_lookup bytes s = Ret before (set_lock_mgr [] s) /\ ct_lookup bytes s' = Ret after s' /\
        (if decide (bytes = kv_key o)
         then found = bool_decide (is_Some before) /\ after = (if found then Some kv else None)
         else after = before).
Proof.
  intros Hr Hu Hkv Ho Hs Hc Ha Hf. pose proof (ct_update_spec Ha Hf s n kv o Hr Hu Hkv Ho Hs Hc) as E.
  destruct (tlookup (kv_mem s) n (kv_key o)) as [old|] eqn:El.
  - destruct E as (t' & E & Hr' & Hu'). exists true, (mk_state t' [] (kv_mem s)). split; [exact E|].
    split; [eauto|]. repeat (split; [done|]). intros bytes Hb Hl. eexists _, _.
    split; [exact (ct_lookup_spec Ha s n bytes Hr Hb Hl)|].
    split; [exact (ct_lookup_spec Ha _ _ bytes Hr' Hb Hl)|]. cbn [kv_mem].
    rewrite (tlookup_tupdate _ _ _ _ _ bytes (tr_ok _ _ Hr) Hkv Ho El). case_decide; [subst bytes|done].
    rewrite El. split; [|done]. symmetry. apply bool_decide_eq_true. eauto.
  - exists false, (set_lock_mgr [] s). split; [exact E|]. split; [exists n; now apply trie_rep_locks|].
    repeat (split; [done|]). intros bytes Hb Hl. eexists _, _.
    split; [exact (ct_lookup_spec Ha s n bytes Hr Hb Hl)|].
    split; [exact (ct_lookup_spec Ha _ n bytes (trie_rep_locks s n [] Hr) Hb Hl)|]. cbn [kv_mem set_lock_mgr].
    case_decide; [subst bytes|done]. rewrite El. split; [|done]. symmetry. now apply bool_decide_eq_false.
Qed.

Lemma unlocked_check t : forallb (fun bk => write_lock bk =? 0) (buckets t) = true -> unlocked t.
Proof.
  intros Hf b bk Hb. rewrite forallb_forall in Hf. apply Z.eqb_eq, Hf, list_elem_of_In.
  unfold trie_bucket, zlookup in Hb. destruct (0 <=? b); [|discriminate]. exact (list_elem_of_lookup_2 _ _ _ Hb).
Qed.

Definition updated_memory : gmap Z ct_kv := <[131072 := mk_kv 3 2 [1; 2; 4; 77; 78]]> (kv_mem sample_state).
Definition update_state : state := mk_state (trie sample_state) [] updated_memory.

Lemma update_state_rep : trie_rep update_state (state_trie 40 update_state).
Proof. apply trie_rep_okb_ok. vm_compute. reflexivity. Qed.

Lemma ct_update_correct_witness :
  exists s', @ct_update scalar_ops sample_env 131072 update_state = Ret S_OK s'.
Proof.
  destruct (@ct_update_correct _ scalar_laws sample_env update_state (state_trie 40 update_state) 131072
              (mk_kv 3 2 [1; 2; 4; 77; 78])) as (found & s' & E & _ & _ & _ & _ & H).
  - exact update_state_rep.
  - apply unlocked_check. vm_compute. reflexivity.
  - vm_compute. reflexivity.
  - repeat split; try discriminate; try reflexivity. apply bytes_ok_check. reflexivity.
  - discriminate.
  - left. split; [discriminate|reflexivity].
  - exact sample_ambient.
  - cbn. lia.
  - exists s'. rewrite E. destruct (H [1; 2; 4]) as (before & after & Eb & _ & Hd);
      [apply bytes_ok_check; reflexivity|discriminate|].
    rewrite decide_True in Hd by reflexivity. destruct Hd as [-> _].
    assert (Hb : match @ct_lookup scalar_ops sample_env [1; 2; 4] update_state with
                 | Ret (Some _) _ => true | _ => false end = true) by (vm_compute; reflexivity).
    rewrite Eb in Hb. destruct before; [reflexivity|discriminate].
Defined.
