(* ===== verification/InsertSpec.v ===== *)
(** * Insertions that need no new node (main.c: ct_insert, ct_upsert)

    The first key of a trie, keys that are already there and keys that are
    too long: what the two operations return, and what lookups find then. *)

From S2P Require Import Prelude Bits Entry KeyObject State Hashing Symbols Atomics Table Contents Store Locks Cells Search Relocate AddEntry Scalar Finger Insert Iter Api Alloc Verify Lookup Preserve Sample Vectorized Dictionary.
From stdpp Require Import base list gmap.
From Stdlib Require Import ZArith Lia Bool.

#[local] Open Scope Z_scope.

(** ** The path of the finger *)

Section path.
Context `{BucketOps} `{Env}.

(** A path of one node is the root's. *)
Definition path_top (f : ct_finger) : Prop :=
  path f <> [] /\ (length (path f) = 1%nat -> entry_color (lc_value (containing_entry f)) = ROOT_COLOR).

Lemma node_changed_top f s f' s' :
  finger_node_changed f true s = Ret f' s' -> path f <> [] -> path_top f'.
Proof.
  intros E Hp. unfold finger_node_changed, store_path_entry in E.
  destruct (bind_Ret_inv _ _ _ _ _ E) as (? & ? & _ & E1). destruct (bind_Ret_inv _ _ _ _ _ E1) as (? & ? & _ & E2).
  injection E2 as <- _. split; cbn; [now destruct (path f)|]. intros Hl. rewrite length_app in Hl. cbn in Hl.
  destruct (path f); cbn in *; [done|lia].
Qed.

Lemma try_descend_top f sym h s f' s' :
  path_top f -> try_descend f sym true h s = Ret (Some f') s' -> path_top f'.
Proof.
  intros Hf E. unfold try_descend in E. destruct (_ =? TYPE_LEAF); [discriminate|].
  destruct (_ =? TYPE_JUMP).
  - destruct (negb _); [discriminate|]. destruct (_ =? entry_jump_size _).
    + destruct (bind_Ret_inv _ _ _ _ _ E) as (l & ? & _ & E1). destruct (bind_Ret_inv _ _ _ _ _ E1) as (f2 & ? & E2 & E3).
      injection E3 as <- _. apply (node_changed_top _ _ _ _ E2). apply Hf.
    + injection E as <- _. exact Hf.
  - destruct (negb _); [discriminate|].
    destruct (bind_Ret_inv _ _ _ _ _ E) as (l & ? & _ & E1). destruct (bind_Ret_inv _ _ _ _ _ E1) as (f2 & ? & E2 & E3).
    injection E3 as <- _. apply (node_changed_top _ _ _ _ E2). apply Hf.
Qed.

Lemma descend_top f size bytes s f' r s' :
  path_top f -> descend f size bytes true s = Ret (f', r) s' -> path_top f'.
Proof.
  intros Hf E. unfold descend in E. destruct (bind_Ret_inv _ _ _ _ _ E) as (p0 & s1 & _ & El).
  apply (loop_inv (fun a => path_top (fst a)) (fun b => path_top (fst b))) in El; [exact El| |exact Hf].
  intros [f1 p] s2 r2 s3 Hf1 Eb.
  destruct (bind_Ret_inv _ _ _ _ _ Eb) as (p' & ? & _ & E1). destruct (bind_Ret_inv _ _ _ _ _ E1) as (sym & ? & _ & E2).
  destruct (bind_Ret_inv _ _ _ _ _ E2) as (ex & ? & _ & E3). destruct (bind_Ret_inv _ _ _ _ _ E3) as ([f2|] & ? & E4 & E5).
  - pose proof (try_descend_top _ _ _ _ _ _ Hf1 E4) as Hf2. destruct (sym =? SYMBOL_END); injection E5 as <- _; exact Hf2.
  - injection E5 as <- _. exact Hf1.
Qed.

(** ** The search for the predecessor reads nothing but the finger *)

Lemma bitmap_above_lt p n k : bitmap_above p n = Some k -> (k < n)%nat.
Proof.
  induction n as [|n IH]; [discriminate|]. cbn. destruct (p !! n) as [pe|]; [|discriminate].
  destruct (_ =? TYPE_BITMAP); [intros [= <-]; lia|]. intros E. specialize (IH E). lia.
Qed.

Lemma find_left_descend_total p fuel : forall pos sym s,
  (pos < length p)%nat -> (pos < fuel)%nat ->
  exists r, find_left_descend fuel p pos sym s = Ret r s /\ forall bp l, r = Some (bp, l) -> (bp < length p)%nat.
Proof.
  induction fuel as [|fuel IH]; intros pos sym s Hpos Hfuel; [lia|]. cbn [find_left_descend].
  destruct (lookup_lt_is_Some_2 p pos Hpos) as [pe Epe]. rewrite Epe. cbn [lift]. erewrite bind_Ret by reflexivity.
  destruct (negb _).
  - eexists. split; [reflexivity|]. intros bp l [= <- _]. exact Hpos.
  - destruct (bitmap_above p pos) as [up|] eqn:Eup; [|exists None; done].
    pose proof (bitmap_above_lt _ _ _ Eup) as Hup.
    destruct (lookup_lt_is_Some_2 p (S up) ltac:(lia)) as [below Ebelow]. rewrite Ebelow. cbn [lift].
    erewrite bind_Ret by reflexivity. apply IH; lia.
Qed.

Lemma prefetch_path_child_total f pos sym s :
  (pos < length (path f))%nat -> exists pl, prefetch_path_child_predecessor f pos sym s = Ret pl s.
Proof.
  intros Hpos. destruct (find_left_descend_total (path f) (length (path f)) pos sym s Hpos Hpos) as (r & E & Hr).
  unfold prefetch_path_child_predecessor. destruct r as [[bp l]|].
  - destruct (lookup_lt_is_Some_2 (path f) bp (Hr bp l eq_refl)) as [pe Epe]. eexists.
    erewrite bind_Ret by exact E. cbv iota beta. rewrite Epe. cbn [lift]. erewrite bind_Ret by reflexivity.
    unfold get_trie. erewrite bind_Ret by reflexivity. reflexivity.
  - eexists. erewrite bind_Ret by exact E. reflexivity.
Qed.

Lemma prefetch_leaf_total f s : path_top f -> exists pl, prefetch_leaf_predecessor f s = Ret pl s.
Proof.
  intros [Hne Hroot]. unfold prefetch_leaf_predecessor, last_path_entry.
  destruct (Nat.eqb_spec (length (path f) - 1) 0) as [El|El].
  - exists no_predecessor. erewrite bind_Ret; [reflexivity|]. apply assert_true, Z.eqb_eq, Hroot.
    destruct (path f); [done|]. cbn in *. lia.
  - apply prefetch_path_child_total. lia.
Qed.
End path.

(** ** Keys that are already there *)

Section existing.
Context `{BucketLaws} `{env : Env}.
Hypothesis ambient_ok : forall a, is_byte (ambient_byte a).
Hypothesis fuel_pos : (0 < retry_fuel)%nat.

Variables (s : state) (n : tnode) (kv : Z) (o : ct_kv) (old : Z).
Hypothesis s_rep : trie_rep s n.
Hypothesis kv_at : kv_mem s !! kv = Some o.
Hypothesis o_ok : kv_ok o.
Hypothesis o_short : key_size o <= 255.
Hypothesis found : tlookup (kv_mem s) n (kv_key o) = Some old.

Lemma load_kv_eq s0 a x : kv_mem s0 !! a = Some x -> load_kv a s0 = Ret x s0.
Proof. intros E. unfold load_kv. erewrite bind_Ret by reflexivity. now rewrite E. Qed.

(** The attempt ends at the leaf of the key. *)
Lemma insert_reaches_leaf (upsert : bool) :
  exists f, let l := containing_entry f in
    local_ok (trie s) l /\ entry_type (lc_value l) = TYPE_LEAF /\ entry_kv (lc_value l) = old /\
    reaches (trie s) n HASH_START_VALUE ROOT_COLOR (symbol_at (kv_key o)) 0 (last_pos l) /\
    ct_insert_internal kv upsert s =
    (if upsert then
       ret ← replace_kv f kv;
       if bool_decide (ret = SI_RETRY) then mret SI_RETRY else mret SI_EXISTS
     else mret SI_EXISTS) (set_lock_mgr [] s).
Proof.
  destruct (init_finger_spec s n (kv_key o) s_rep) as (f0 & Ef & Hf & Hpath).
  pose proof (trie_rep_locks s n [] s_rep) as Hr'.
  destruct (descend_kv_spec ambient_ok (set_lock_mgr [] s) n f0 o true Hr' o_ok o_short Hf) as (f & r & Ed & Hres).
  pose proof (descent_lookup s n o s_rep o_ok f r Hres) as Hl. cbv zeta in Hl. rewrite found in Hl.
  destruct Hl as (Ht & Hkv & Hloc & Hreach & o' & Ho' & Hok' & Hk).
  assert (Htop : path_top f).
  { apply (descend_top f0 (kv_key_size o) (kv_key_bytes o) (set_lock_mgr [] s) f r (set_lock_mgr [] s)); [|exact Ed].
    split; [now rewrite Hpath|]. intros _.
    destruct (fa_holds _ _ _ _ _ _ _ _ Hf) as (_ & _ & _ & Hkey). now injection Hkey as _ ->. }
  destruct (prefetch_leaf_total f (set_lock_mgr [] s) Htop) as (pl & Epl).
  exists f. split; [exact Hloc|]. split; [exact Ht|]. split; [exact Hkv|]. split; [exact Hreach|].
  unfold ct_insert_internal. erewrite bind_Ret by (apply load_kv_eq; exact kv_at). erewrite bind_Ret by exact Ef. cbv iota beta.
  erewrite bind_Ret by reflexivity. cbv iota beta. erewrite bind_Ret by exact Ed.
  assert (Ec : create_leaf f kv (from_option id NO_BUCKET64 r) (set_lock_mgr [] s) = Ret (SI_EXISTS, f) (set_lock_mgr [] s)).
  { unfold create_leaf. rewrite Ht. cbn [Z.eqb TYPE_LEAF TYPE_JUMP TYPE_BITMAP Pos.eqb].
    erewrite bind_Ret by reflexivity. cbv iota beta. rewrite !bool_decide_false by discriminate. rewrite Ht.
    cbn [Z.eqb TYPE_LEAF TYPE_BITMAP Pos.eqb]. erewrite bind_Ret; [reflexivity|].
    unfold create_leaf_at_leaf. erewrite bind_Ret by exact Epl. rewrite Hkv.
    erewrite bind_Ret by (apply load_kv_eq; exact Ho'). erewrite bind_Ret by (apply load_kv_eq; exact kv_at).
    rewrite (compare_kv s o o_ok old o') by done. now rewrite bool_decide_true. }
  cbv iota beta. erewrite bind_Ret by exact Ec. cbv iota beta. rewrite bool_decide_true by done. destruct upsert; [|done].
  cbn [andb]. now rewrite Ht.
Qed.

Lemma ct_insert_existing_spec : ct_insert kv s = Ret S_ALREADYIN (set_lock_mgr [] s).
Proof.
  destruct (insert_reaches_leaf false) as (f & _ & _ & _ & _ & E). unfold ct_insert.
  erewrite bind_Ret by (apply load_kv_eq; exact kv_at). rewrite kv_key_size_eq by done.
  destruct (Z.ltb_spec MAX_KEY_BYTES (key_size o)) as [Hbig|_]; [unfold MAX_KEY_BYTES in Hbig; lia|].
  erewrite bind_Ret by (apply retry_now; [exact fuel_pos|exact E|discriminate]). reflexivity.
Qed.

Lemma ct_upsert_existing_spec :
  unlocked (trie s) -> canonical_address kv ->
  exists t', ct_upsert kv s = Ret (S_OK, Some 0) (mk_state t' [] (kv_mem s)) /\
    trie_rep (mk_state t' [] (kv_mem s)) (tupdate n (symbol_at (kv_key o)) 0 kv) /\ unlocked t'.
Proof.
  intros Hu Hc. destruct (insert_reaches_leaf true) as (f & Hl & Ht & Hkv & Hreach & E).
  destruct (replaced_leaf s n kv o s_rep Hu kv_at o_ok Hc f old Hl Ht Hkv found Hreach) as (t' & Er & Hrep & Hu').
  exists t'. split; [|done]. unfold ct_upsert. erewrite bind_Ret by (apply load_kv_eq; exact kv_at). rewrite kv_key_size_eq by done.
  destruct (Z.ltb_spec MAX_KEY_BYTES (key_size o)) as [Hbig|_]; [unfold MAX_KEY_BYTES in Hbig; lia|].
  assert (Ei : ct_insert_internal kv true s = Ret SI_EXISTS (mk_state t' [] (kv_mem s))).
  { rewrite E. erewrite bind_Ret by exact Er. now rewrite bool_decide_false by discriminate. }
  erewrite bind_Ret by (apply retry_now; [exact fuel_pos|exact Ei|discriminate]). reflexivity.
Qed.
End existing.

(** ** The first key *)

(** No cell of the table is used. *)
Definition no_entries (t : cuckoo_trie) : Prop := forall p k e, ~ holds t p k e.

Definition root_entry `{Env} (kv : Z) : ct_entry :=
  set_next_leaf_bucket NO_BUCKET32
    (entry_set_kv kv
      (set_color_and_tag_byte ((ROOT_COLOR .<< TAG_BITS) .| hash_to_tag HASH_START_VALUE)
        (set_parent_color_and_flags ((INVALID_COLOR .<< PARENT_COLOR_SHIFT) .| TYPE_LEAF) garbage_entry))).

(** The fields of an entry whose other bytes are changed. *)
Lemma entry_kv_ext e e' :
  entry_ok e -> entry_ok e' -> (forall i, (3 <= i < 9)%nat -> byte_at e i = byte_at e' i) -> entry_kv e = entry_kv e'.
Proof.
  intros He He' H. apply (bits_eq 64); [lia|now apply entry_kv_bound..|]. intros i Hi.
  rewrite !testbit_entry_kv by done. rewrite H; [done|]. zcases; zdiv.
Qed.

Section root_entry.
Context `{Env}.
Hypothesis garbage_ok : entry_ok garbage_entry.
Variable kv : Z.
Hypothesis kv_canonical : canonical_address kv.

Lemma root_entry_facts :
  entry_ok (root_entry kv) /\ entry_type (root_entry kv) = TYPE_LEAF /\ used (root_entry kv) = true /\
  entry_is_secondary (root_entry kv) = false /\ entry_color (root_entry kv) = ROOT_COLOR /\
  entry_tag (root_entry kv) = hash_to_tag HASH_START_VALUE /\ entry_kv (root_entry kv) = kv.
Proof.
  set (e1 := set_color_and_tag_byte ((ROOT_COLOR .<< TAG_BITS) .| hash_to_tag HASH_START_VALUE)
        (set_parent_color_and_flags ((INVALID_COLOR .<< PARENT_COLOR_SHIFT) .| TYPE_LEAF) garbage_entry)).
  assert (He1 : entry_ok e1) by (apply set_color_ok, set_flags_ok, garbage_ok).
  pose proof (entry_set_kv_ok kv e1 He1) as He2.
  assert (Hb : forall i, (i < ENTRY_BYTES)%nat -> byte_at (root_entry kv) i =
            if decide (9 <= i < 13)%nat then byte_at (le_split 4 NO_BUCKET32) (i - 9) else byte_at (entry_set_kv kv e1) i).
  { intros i Hi. unfold root_entry, set_next_leaf_bucket. fold e1. rewrite byte_at_store_bytes by entry_lia. done. }
  assert (Hok : entry_ok (root_entry kv)) by (apply store_entry_ok; [exact He2|entry_lia]).
  assert (H0 : parent_color_and_flags (root_entry kv) = (INVALID_COLOR .<< PARENT_COLOR_SHIFT) .| TYPE_LEAF).
  { unfold parent_color_and_flags. rewrite Hb by entry_lia. rewrite decide_False by lia. rewrite byte_at_set_kv by (done || lia).
    change (byte_at e1 0) with (parent_color_and_flags e1). unfold e1. rewrite flags_set_color by (now apply set_flags_ok).
    rewrite flags_set_flags by done. reflexivity. }
  assert (H1 : color_and_tag (root_entry kv) = 0).
  { unfold color_and_tag. rewrite Hb by entry_lia. rewrite decide_False by lia. rewrite byte_at_set_kv by (done || lia).
    change (byte_at e1 1) with (color_and_tag e1). unfold e1. rewrite color_set_color by (now apply set_flags_ok). reflexivity. }
  split; [exact Hok|]. unfold used, entry_type, entry_is_secondary, entry_color, entry_tag. rewrite H0, H1.
  repeat (split; [reflexivity|]). rewrite (entry_kv_ext _ (entry_set_kv kv e1)); [now apply entry_kv_set|done|done|].
  intros i Hi. rewrite Hb by entry_lia. now rewrite decide_False by lia.
Qed.
End root_entry.

Section create_root.
Context `{BucketLaws} `{Env}.
Hypothesis garbage_ok : entry_ok garbage_entry.
Variables (s : state) (kv : Z).
Hypothesis s_table : table_ok (trie s).
Hypothesis s_empty : no_entries (trie s).
Hypothesis s_flag : is_empty (trie s) <> 0.
Hypothesis s_unlocked : unlocked (trie s).
Hypothesis s_locks : lock_mgr s = [].
Hypothesis kv_canonical : canonical_address kv.

Lemma root_in_table : in_table (trie s) root_pos.
Proof. unfold in_table. cbn [pos_bucket root_pos]. pose proof (params_bound _ (tb_params _ s_table)) as Hm. change (hash_to_bucket HASH_START_VALUE) with 0. lia. Qed.

Lemma cells_unused p e : in_table (trie s) p -> trie_entry (trie s) p = Some e -> used e = false.
Proof.
  intros Hp He. apply not_true_iff_false. intros Hu. apply (s_empty p (entry_key (trie s) p e) e). done.
Qed.

Lemma root_key p0 : p0 = root_pos -> entry_key (trie s) p0 (root_entry kv) = (HASH_START_VALUE, ROOT_COLOR).
Proof.
  intros ->. destruct (root_entry_facts garbage_ok kv kv_canonical) as (Hok & _ & _ & Hsec & Hcol & Htag & _).
  unfold entry_key. rewrite Hcol. f_equal.
  assert (Hh : hash_ok (trie s) HASH_START_VALUE).
  { unfold hash_ok. rewrite (params_pairs _ (tb_params _ s_table)). pose proof (params_bound _ (tb_params _ s_table)).
    unfold HASH_START_VALUE. lia. }
  exact (position_hash (trie s) s_table HASH_START_VALUE false 0 (root_entry kv) Hh Hok Hsec Htag).
Qed.

(** The root's bucket is locked and the root written. *)
Lemma root_written :
  exists i s1 seq t2, write_lock_bucket 0 s = Ret (Some i) s1 /\ is_empty (trie s1) = is_empty (trie s) /\
    write_entry root_pos (root_entry kv) s1 = Ret seq (set_trie t2 s1) /\ kv_mem s1 = kv_mem s /\
    shape_ok t2 /\ same_params (trie s) t2 /\ locks_ok 1 (set_trie t2 s1) /\
    forall p, trie_entry t2 p = fill root_pos (root_entry kv) (trie_entry (trie s)) p.
Proof.
  pose proof root_in_table as Hin. unfold in_table in Hin. cbn [pos_bucket root_pos] in Hin.
  change (hash_to_bucket HASH_START_VALUE) with 0 in Hin.
  destruct (bucket_exists _ s_table 0) as [bk Hbk]; [lia|].
  destruct (take_lock_spec 1 s 0 bk (unlocked_locks_ok 1 s s_unlocked s_locks) (table_shape _ s_table) ltac:(lia) Hbk)
    as (s0 & s1 & E0 & _ & E1 & [A1 A2 A3 A4 _ _] & _ & _ & Hat & _); [now rewrite s_locks|rewrite s_locks; reflexivity|].
  destruct (root_entry_facts garbage_ok kv kv_canonical) as (Hok & _).
  destruct (write_locked_spec 1 s1 root_pos (root_entry kv) A4 A2) as (seq & t2 & E2 & B1 & B2 & B3 & B4 & _);
    [change (pos_bucket root_pos) with 0; rewrite Hat; eauto|unfold CUCKOO_BUCKET_SIZE; cbn; lia|exact Hok|].
  exists (length (lock_mgr s)), s1, seq, t2.
  split; [unfold write_lock_bucket; erewrite bind_Ret by exact E0; cbv iota; erewrite bind_Ret by exact E1; reflexivity|].
  split; [now rewrite (same_params_eq (trie s) (trie s1)) by apply A1|]. split; [exact E2|]. split; [exact A3|].
  split; [exact B1|]. split; [transitivity (trie s1); [apply A1|exact B2]|]. split; [exact B3|].
  intros p. rewrite B4. unfold fill. case_decide; [done|]. symmetry. now apply same_but_locks_entry.
Qed.

(** The root becomes the first leaf, and the trie is no longer empty. *)
Lemma root_linked t2 s1 :
  shape_ok t2 -> same_params (trie s) t2 -> locks_ok 1 (set_trie t2 s1) ->
  (forall p, trie_entry t2 p = fill root_pos (root_entry kv) (trie_entry (trie s)) p) ->
  exists head t3, get_entry (trie_min_leaf t2) (set_trie t2 s1) = Ret head (set_trie t2 s1) /\
    put_entry (trie_min_leaf t2) (set_next_leaf (mk_locator 0 (hash_to_tag HASH_START_VALUE) ROOT_COLOR) head) (set_trie t2 s1)
      = Ret tt (set_trie t3 s1) /\
    shape_ok t3 /\ same_params (trie s) t3 /\ locks_ok 1 (set_trie t3 s1) /\
    (forall p, in_table (trie s) p -> trie_entry t3 p = fill root_pos (root_entry kv) (trie_entry (trie s)) p) /\
    exists head', trie_entry t3 (trie_min_leaf t3) = Some head' /\
      next_leaf head' = mk_locator 0 (hash_to_tag HASH_START_VALUE) ROOT_COLOR.
Proof.
  intros Hsh Hp Hl HE. assert (Hn : num_buckets t2 = num_buckets (trie s)) by (now rewrite (same_params_eq _ _ Hp)).
  pose proof (params_bound _ (tb_params _ s_table)) as Hbound.
  destruct (shape_exists t2 (num_buckets t2) Hsh) as [bk Hbk]; [lia|]. destruct (shape_bucket _ _ _ Hsh Hbk) as [Hok Hq].
  destruct (lookup_lt_is_Some_2 (cells bk) 0) as [head Hhead]; [rewrite bk_length by done; unfold CUCKOO_BUCKET_SIZE; lia|].
  assert (Hent : trie_entry t2 (trie_min_leaf t2) = Some head) by (unfold trie_entry, trie_min_leaf, min_leaf_bucket; cbn; now rewrite Hbk).
  set (l := mk_locator 0 (hash_to_tag HASH_START_VALUE) ROOT_COLOR). set (bk' := set_cells (<[0%nat := set_next_leaf l head]> (cells bk)) bk).
  assert (Hhok : entry_ok head) by exact (shape_entry _ _ _ Hsh Hent).
  assert (Hok' : bucket_ok bk') by (destruct Hok; split; cbn [bk' cells set_cells write_lock_and_seq]; [now rewrite length_insert|apply Forall_insert; [done|now apply set_entry_locator_ok]|done]).
  exists head, (upd_bucket t2 (num_buckets t2) bk').
  split; [now apply get_entry_eq|]. split.
  { unfold put_entry. erewrite bind_Ret by (apply get_bucket_eq; exact Hbk). unfold bucket_cell. cbn [pos_cell trie_min_leaf].
    rewrite Hhead. erewrite bind_Ret by reflexivity. apply (put_bucket_spec (set_trie t2 s1) _ bk). exact Hbk. }
  split; [apply (shape_upd _ _ bk); done|]. split; [exact Hp|]. split; [|split].
  - destruct Hl as [L1 L2 L3 L4]. split; cbn [lock_mgr trie set_trie] in *; [done|done| |].
    + intros b x Hx. rewrite (trie_bucket_upd _ _ bk) in Hx by done. destruct (Z.eqb_spec b (num_buckets t2)) as [->|]; [|now apply L3].
      injection Hx as <-. exact (L3 _ bk Hbk).
    + intros b Hb. rewrite (trie_bucket_upd _ _ bk) by done. case_match; [eauto|now apply L4].
  - intros p Hin. rewrite <- HE. unfold trie_entry. rewrite (trie_bucket_upd _ _ bk) by done.
    destruct (Z.eqb_spec (pos_bucket p) (num_buckets t2)); [unfold in_table in Hin; lia|reflexivity].
  - exists (set_next_leaf l head). split; [|apply entry_locator_set; [done|]; split; [split; reflexivity || discriminate|split; split; reflexivity || discriminate]].
    unfold trie_entry, trie_min_leaf, min_leaf_bucket. cbn [pos_bucket pos_cell num_buckets upd_bucket set_buckets].
    rewrite (trie_bucket_upd _ _ bk) by done. rewrite Z.eqb_refl. cbn. apply list_lookup_insert_eq.
    rewrite bk_length by done. unfold CUCKOO_BUCKET_SIZE. lia.
Qed.

(** The table with the root in it. *)
Lemma root_table t3 t4 :
  shape_ok t3 -> same_params (trie s) t3 -> same_but_locks (set_is_empty 0 t3) t4 -> shape_ok t4 ->
  (forall p, in_table (trie s) p -> trie_entry t3 p = fill root_pos (root_entry kv) (trie_entry (trie s)) p) ->
  table_ok t4 /\
  forall p k e, holds t4 p k e <-> p = root_pos /\ e = root_entry kv /\ k = (HASH_START_VALUE, ROOT_COLOR).
Proof.
  intros Hsh Hp Hs Hsh4 HE. destruct (root_entry_facts garbage_ok kv kv_canonical) as (Hok & Ht & Hu & _ & Hcol & _).
  pose proof (root_key root_pos eq_refl) as Hkey. pose proof root_in_table as Hin.
  assert (Hcell : cell_ok (root_entry kv)) by (unfold cell_ok; rewrite Hu, Hcol; unfold MAX_VALID_COLOR, ROOT_COLOR, CUCKOO_BUCKET_SIZE; lia).
  assert (Hfree : forall x, trie_entry (trie s) root_pos = Some x -> used x = false) by (intros x; now apply cells_unused).
  assert (Hcells : cells_ok (trie s) (fill root_pos (root_entry kv) (trie_entry (trie s)))).
  { apply fill_ok; [now apply table_cells|exact Hin|exact Hfree|exact (conj Hok Hcell)|exact Hu|]. intros q x Hx. exact (s_empty _ _ _ Hx). }
  assert (Hcells3 : cells_ok (trie s) (trie_entry t3)).
  { revert Hcells. apply cells_ok_ext. intros p e Hpt He. left. now rewrite <- HE. }
  assert (Hsh3 : shape_ok (set_is_empty 0 t3)) by (destruct Hsh as [[]]; split; try done; split; done).
  assert (Hp3 : forall p k e, cell_holds (set_is_empty 0 t3) (trie_entry (set_is_empty 0 t3)) p k e <-> cell_holds (trie s) (trie_entry t3) p k e).
  { intros p k e. rewrite (cell_holds_params (trie s) t3) by exact Hp. reflexivity. }
  assert (Ht3 : table_ok (set_is_empty 0 t3)).
  { apply table_cells. split; [exact Hsh3|]. apply (cells_ok_params (trie s) t3) in Hcells3; [|exact Hp].
    destruct Hcells3 as [C1 C2]. split; [exact C1|exact C2]. }
  split; [now apply (table_ok_locks (set_is_empty 0 t3))|].
  intros p k e. change (holds t4 p k e) with (cell_holds t4 (trie_entry t4) p k e).
  rewrite <- (cell_holds_params (set_is_empty 0 t3) t4) by apply Hs.
  assert (H4 : cell_holds (set_is_empty 0 t3) (trie_entry t4) p k e <-> cell_holds (set_is_empty 0 t3) (trie_entry (set_is_empty 0 t3)) p k e).
  { split; apply cell_holds_ext; [symmetry|]; now apply same_but_locks_entry. }
  rewrite H4, Hp3. split.
  - intros (B1 & B2 & B3 & B4). rewrite HE in B2 by done. unfold fill in B2. case_decide as Hd.
    + subst p. injection B2 as <-. split; [done|]. split; [done|]. now rewrite <- B4.
    + exfalso. rewrite (cells_unused p e B1 B2) in B3. discriminate.
  - intros (-> & -> & ->). split; [exact Hin|]. split; [rewrite HE by done; apply fill_eq|]. split; [exact Hu|exact Hkey].
Qed.

Lemma create_root_spec :
  exists t', create_root kv s = Ret SI_OK (mk_state t' [] (kv_mem s)) /\ table_ok t' /\ unlocked t' /\ is_empty t' = 0 /\
    num_buckets t' = num_buckets (trie s) /\
    (forall p k e, holds t' p k e <-> p = root_pos /\ e = root_entry kv /\ k = (HASH_START_VALUE, ROOT_COLOR)) /\
    exists head, trie_entry t' (trie_min_leaf t') = Some head /\
      next_leaf head = mk_locator (pos_bucket root_pos) (hash_to_tag HASH_START_VALUE) ROOT_COLOR.
Proof.
  destruct root_written as (i & s1 & seq & t2 & E1 & Hemp & E2 & Hmem & Hsh2 & Hp2 & Hl2 & HE2).
  destruct (root_linked t2 s1 Hsh2 Hp2 Hl2 HE2) as (head & t3 & E3 & E4 & Hsh3 & Hp3 & Hl3 & HE3 & (head' & Hhead & Hnext)).
  set (s3 := set_trie (set_is_empty 0 t3) s1).
  assert (Hl3' : locks_ok 1 s3) by (destruct Hl3 as [L1 L2 L3 L4]; split; [exact L1|exact L2|exact L3|exact L4]).
  assert (Hsh3' : shape_ok (trie s3)) by (destruct Hsh3 as [[]]; split; try done; split; done).
  destruct (release_all_locks_spec 1 s3 Hl3' Hsh3') as (t4 & E5 & Hs4 & Hsh4 & Hu4).
  destruct (root_table t3 t4 Hsh3 Hp3 Hs4 Hsh4 HE3) as [Htab Hholds].
  assert (Ht4 : t4 = set_buckets (buckets t4) (set_is_empty 0 t3)) by now apply same_but_locks_set_buckets.
  exists t4. split; [|split; [exact Htab|split; [exact Hu4|split; [now rewrite Ht4|split; [|split; [exact Hholds|]]]]]].
  - unfold create_root. change (hash_to_bucket HASH_START_VALUE) with 0. erewrite bind_Ret by exact E1.
    unfold read_is_empty, get_trie. erewrite bind_Ret by (erewrite bind_Ret by reflexivity; reflexivity). cbv iota.
    erewrite bind_Ret by reflexivity. erewrite bind_Ret by (erewrite bind_Ret by reflexivity; reflexivity).
    rewrite Hemp. destruct (Z.eqb_spec (is_empty (trie s)) 0); [contradiction|].
    erewrite bind_Ret by exact E2. erewrite bind_Ret by reflexivity. cbn [trie set_trie].
    erewrite bind_Ret by exact E3. erewrite bind_Ret by exact E4.
    erewrite (bind_Ret (write_is_empty 0) _ _ s3) by reflexivity. erewrite bind_Ret by exact E5.
    cbn [kv_mem s3 set_trie]. now rewrite Hmem.
  - rewrite Ht4. cbn. now rewrite (same_params_eq _ _ Hp3).
  - exists head'. split; [|exact Hnext]. rewrite <- Hhead, <- (same_but_locks_entry _ _ _ Hs4).
    rewrite Ht4. reflexivity.
Qed.
End create_root.

Lemma trie_rep_root s kv o :
  table_ok (trie s) -> is_empty (trie s) = 0 -> kv_mem s !! kv = Some o -> kv_ok o ->
  (exists e, holds (trie s) root_pos (HASH_START_VALUE, ROOT_COLOR) e /\ entry_type e = TYPE_LEAF /\ entry_kv e = kv) ->
  trie_rep s (TLeaf kv).
Proof.
  intros Ht He Hkv Ho (e & Hh & Hty & Hk). split; [exact Ht|exact He|now exists e| |].
  - apply rep_unfold. exists root_pos, e. done.
  - exists o. split; [exact Hkv|]. split; [exact Ho|]. intros i x Hi. now destruct i.
Qed.

(** ** The properties *)

Section first.
Context `{BucketLaws} `{Env}.
Hypothesis garbage_ok : entry_ok garbage_entry.
Hypothesis fuel_pos : (0 < retry_fuel)%nat.
Variables (s : state) (kv : Z) (o : ct_kv).
Hypothesis s_table : table_ok (trie s).
Hypothesis s_empty : no_entries (trie s).
Hypothesis s_flag : is_empty (trie s) <> 0.
Hypothesis s_unlocked : unlocked (trie s).
Hypothesis kv_at : kv_mem s !! kv = Some o.
Hypothesis o_ok : kv_ok o.
Hypothesis o_short : key_size o <= MAX_KEY_BYTES.
Hypothesis kv_canonical : canonical_address kv.

Lemma ct_insert_first_spec :
  exists t', ct_insert kv s = Ret S_OK (mk_state t' [] (kv_mem s)) /\
    trie_rep (mk_state t' [] (kv_mem s)) (TLeaf kv) /\ unlocked t' /\
    exists head, trie_entry t' (trie_min_leaf t') = Some head /\
      next_leaf head = mk_locator (pos_bucket root_pos) (hash_to_tag HASH_START_VALUE) ROOT_COLOR.
Proof.
  destruct (create_root_spec garbage_ok (set_lock_mgr [] s) kv s_table s_empty s_flag s_unlocked eq_refl kv_canonical)
    as (t' & E & Ht & Hu & He & _ & Hh & Hhead).
  exists t'. split; [|split; [|split; [exact Hu|exact Hhead]]].
  - unfold ct_insert. erewrite bind_Ret by (apply load_kv_eq; exact kv_at). rewrite kv_key_size_eq by done.
    destruct (Z.ltb_spec MAX_KEY_BYTES (key_size o)) as [Hbig|_]; [lia|].
    assert (Ei : ct_insert_internal kv false s = Ret SI_OK (mk_state t' [] (kv_mem s))).
    { unfold ct_insert_internal. erewrite bind_Ret by (apply load_kv_eq; exact kv_at).
      erewrite (bind_Ret init_finger _ _ (set_lock_mgr [] s) (_, false)).
      2: { unfold init_finger, read_is_empty, get_trie. erewrite bind_Ret by (erewrite bind_Ret by reflexivity; reflexivity).
           cbn. destruct (Z.eqb_spec (is_empty (trie s)) 0); [contradiction|]. reflexivity. }
      cbv iota beta. erewrite bind_Ret by (erewrite bind_Ret by exact E; rewrite bool_decide_false by discriminate;
        erewrite bind_Ret by (apply assert_true; now apply bool_decide_eq_true); reflexivity).
      reflexivity. }
    erewrite bind_Ret by (apply retry_now; [exact fuel_pos|exact Ei|discriminate]). reflexivity.
  - destruct (root_entry_facts garbage_ok kv kv_canonical) as (_ & Hty & _ & _ & _ & _ & Hkv).
    apply (trie_rep_root _ kv o); [exact Ht|exact He|exact kv_at|exact o_ok|].
    exists (root_entry kv). split; [apply Hh; done|]. split; [exact Hty|exact Hkv].
Qed.
End first.

(** C7. The first insertion: on an empty trie, as [ct_alloc] leaves it,
    [ct_insert] succeeds at the first attempt. The table then stores the trie
    that consists of the new leaf, the leaf is the first of the leaf list, no
    lock is left, and [ct_lookup] finds the object under its own key and
    nothing under any other key. *)
Theorem ct_insert_first `{BucketLaws} `{Env} s kv o :
  table_ok (trie s) -> no_entries (trie s) -> is_empty (trie s) <> 0 -> unlocked (trie s) ->
  kv_mem s !! kv = Some o -> kv_ok o -> key_size o <= MAX_KEY_BYTES -> canonical_address kv ->
  entry_ok garbage_entry -> (forall a, is_byte (ambient_byte a)) -> (0 < retry_fuel)%nat ->
  exists s', ct_insert kv s = Ret S_OK s' /\ trie_rep s' (TLeaf kv) /\ unlocked (trie s') /\ lock_mgr s' = [] /\
    kv_mem s' = kv_mem s /\
    (exists head, trie_entry (trie s') (trie_min_leaf (trie s')) = Some head /\
       next_leaf head = mk_locator (pos_bucket root_pos) (hash_to_tag HASH_START_VALUE) ROOT_COLOR) /\
    forall bytes, bytes_ok bytes -> Z.of_nat (length bytes) <= 255 ->
      ct_lookup bytes s' = Ret (if decide (bytes = kv_key o) then Some kv else None) s'.
Proof.
  intros Ht He Hf Hu Hkv Ho Hs Hc Hg Ha Hfuel.
  destruct (ct_insert_first_spec Hg Hfuel s kv o Ht He Hf Hu Hkv Ho Hs Hc) as (t' & E & Hr & Hu' & Hhead).
  exists (mk_state t' [] (kv_mem s)). split; [exact E|]. split; [exact Hr|]. split; [exact Hu'|]. do 2 (split; [done|]). split; [exact Hhead|].
  intros bytes Hb Hl. rewrite (ct_lookup_spec Ha _ _ bytes Hr Hb Hl). cbn [kv_mem set_lock_mgr]. unfold tlookup. cbn [tsearch].
  rewrite Hkv. f_equal. case_decide as Hd; [subst bytes; now rewrite bool_decide_true|rewrite bool_decide_false; [done|congruence]].
Qed.

(** C9. [ct_insert] never replaces a key: when the trie has the key already it
    returns [S_ALREADYIN], and for a key of more than 256 bytes
    [S_KEYTOOLONG], and changes nothing (it only empties the lock manager).
    [ct_upsert] rejects such a long key, too. *)
Theorem ct_insert_rejects `{BucketLaws} `{Env} s n kv o :
  trie_rep s n -> kv_mem s !! kv = Some o -> kv_ok o ->
  (forall a, is_byte (ambient_byte a)) -> (0 < retry_fuel)%nat ->
  (MAX_KEY_BYTES < key_size o -> ct_insert kv s = Ret S_KEYTOOLONG s /\ ct_upsert kv s = Ret (S_KEYTOOLONG, None) s) /\
  (key_size o <= 255 -> (exists old o', leaf_of n old /\ kv_mem s !! old = Some o' /\ kv_key o' = kv_key o) ->
   ct_insert kv s = Ret S_ALREADYIN (set_lock_mgr [] s)).
Proof.
  intros Hr Hkv Ho Ha Hf. split.
  - intros Hbig. unfold ct_insert, ct_upsert. rewrite !(bind_Ret _ _ _ _ _ (load_kv_eq s kv o Hkv)).
    rewrite kv_key_size_eq by done. destruct (Z.ltb_spec MAX_KEY_BYTES (key_size o)); [done|lia].
  - intros Hs (old & o' & Hl & Ho' & Hk). apply (ct_insert_existing_spec Ha Hf s n kv o old); try done.
    apply tlookup_iff; [now apply kv_key_bytes_ok|apply Hr|]. eauto.
Qed.

(** C8. [ct_upsert] of a key the trie has replaces its value: it returns
    [S_OK] with [created_new = 0], a lookup of the key then finds the new
    object, lookups of all other keys find what they found before, the table
    still stores a trie, and no lock is left behind. *)
Theorem ct_upsert_existing `{BucketLaws} `{Env} s n kv o old o' :
  trie_rep s n -> unlocked (trie s) -> kv_mem s !! kv = Some o -> kv_ok o -> key_size o <= 255 -> canonical_address kv ->
  leaf_of n old -> kv_mem s !! old = Some o' -> kv_key o' = kv_key o ->
  (forall a, is_byte (ambient_byte a)) -> (0 < retry_fuel)%nat ->
  exists s', ct_upsert kv s = Ret (S_OK, Some 0) s' /\ (exists n', trie_rep s' n') /\ unlocked (trie s') /\
    lock_mgr s' = [] /\ kv_mem s' = kv_mem s /\
    forall bytes, bytes_ok bytes -> Z.of_nat (length bytes) <= 255 ->
      exists before, ct_lookup bytes s = Ret before (set_lock_mgr [] s) /\
        ct_lookup bytes s' = Ret (if decide (bytes = kv_key o) then Some kv else before) s'.
Proof.
  intros Hr Hu Hkv Ho Hs Hc Hl Ho' Hk Ha Hf.
  assert (El : tlookup (kv_mem s) n (kv_key o) = Some old).
  { apply tlookup_iff; [now apply kv_key_bytes_ok|apply Hr|]. eauto. }
  destruct (ct_upsert_existing_spec Ha Hf s n kv o old Hr Hkv Ho Hs El Hu Hc) as (t' & E & Hr' & Hu').
  exists (mk_state t' [] (kv_mem s)). split; [exact E|]. split; [eauto|]. split; [exact Hu'|]. do 2 (split; [done|]).
  intros bytes Hb Hlen. eexists. split; [exact (ct_lookup_spec Ha s n bytes Hr Hb Hlen)|].
  rewrite (ct_lookup_spec Ha _ _ bytes Hr' Hb Hlen). cbn [kv_mem set_lock_mgr].
  now rewrite (tlookup_tupdate _ _ _ _ _ bytes (tr_ok _ _ Hr) Hkv Ho El).
Qed.

(** ** At concrete inputs *)

(** A trie of 64 buckets just allocated, and one key. *)
Definition first_state : state := Eval vm_compute in empty_state [[7; 8; 9]].

Lemma no_entries_check t : used_cells t = [] -> no_entries t.
Proof.
  intros Hn p k e (Hp & He & Hu & _). assert (Hin : In (p, e) (used_cells t)); [|now rewrite Hn in Hin].
  apply filter_In. split; [now apply all_cells_In|exact Hu].
Qed.

Lemma ct_insert_first_witness :
  exists s', @ct_insert scalar_ops sample_env (sample_address 0) first_state = Ret S_OK s' /\
    @ct_lookup scalar_ops sample_env [7; 8; 9] s' = Ret (Some (sample_address 0)) s' /\
    @ct_lookup scalar_ops sample_env [7; 8] s' = Ret None s'.
Proof.
  destruct (@ct_insert_first scalar_ops scalar_laws sample_env first_state (sample_address 0) (mk_kv 3 0 [7; 8; 9]))
    as (s' & E & _ & _ & _ & _ & _ & Hlook).
  - apply table_okb_ok. vm_compute. reflexivity.
  - apply no_entries_check. vm_compute. reflexivity.
  - discriminate.
  - apply unlocked_check. vm_compute. reflexivity.
  - vm_compute. reflexivity.
  - repeat split; try discriminate; try reflexivity. apply bytes_ok_check. reflexivity.
  - discriminate.
  - left. split; [discriminate|reflexivity].
  - apply entry_ok_check. reflexivity.
  - exact sample_ambient.
  - cbn. lia.
  - exists s'. split; [exact E|]. split.
    + rewrite (Hlook [7; 8; 9]); [now rewrite decide_True|apply bytes_ok_check; reflexivity|discriminate].
    + rewrite (Hlook [7; 8]); [now rewrite decide_False|apply bytes_ok_check; reflexivity|discriminate].
Defined.

(** The objects of [update_state]: one with a key of the trie, one too long. *)
Definition long_kv : ct_kv := mk_kv 257 0 (replicate 257 1).
Definition rejecting_state : state := mk_state (trie sample_state) [] (<[196608 := long_kv]> updated_memory).

Lemma rejecting_state_rep : trie_rep rejecting_state (state_trie 40 rejecting_state).
Proof. apply trie_rep_okb_ok. vm_compute. reflexivity. Qed.

(** Key 1 of the sample trie. *)
Lemma rejecting_leaf : leaf_of (state_trie 40 rejecting_state) (sample_address 1).
Proof.
  assert (Hb : bytes_ok [1; 2; 4]) by (apply bytes_ok_check; reflexivity).
  assert (E : tlookup (kv_mem rejecting_state) (state_trie 40 rejecting_state) [1; 2; 4] = Some (sample_address 1))
    by (vm_compute; reflexivity).
  exact (proj1 (proj1 (tlookup_iff (kv_mem rejecting_state) [1; 2; 4] Hb (state_trie 40 rejecting_state) (sample_address 1)
    (tr_ok _ _ rejecting_state_rep)) E)).
Qed.

Lemma ct_insert_rejects_witness :
  @ct_insert scalar_ops sample_env 196608 rejecting_state = Ret S_KEYTOOLONG rejecting_state /\
  @ct_insert scalar_ops sample_env 131072 rejecting_state = Ret S_ALREADYIN (set_lock_mgr [] rejecting_state).
Proof.
  destruct (@ct_insert_rejects scalar_ops scalar_laws sample_env rejecting_state (state_trie 40 rejecting_state) 196608 long_kv)
    as [Hlong _].
  - exact rejecting_state_rep.
  - vm_compute. reflexivity.
  - do 2 (split; [split; [discriminate|reflexivity]|]). split; [reflexivity|]. apply bytes_ok_check. reflexivity.
  - exact sample_ambient.
  - cbn. lia.
  - destruct (@ct_insert_rejects scalar_ops scalar_laws sample_env rejecting_state (state_trie 40 rejecting_state) 131072
               (mk_kv 3 2 [1; 2; 4; 77; 78])) as [_ Hdup].
    + exact rejecting_state_rep.
    + vm_compute. reflexivity.
    + do 2 (split; [split; [discriminate|reflexivity]|]). split; [reflexivity|]. apply bytes_ok_check. reflexivity.
    + exact sample_ambient.
    + cbn. lia.
    + split; [exact (proj1 (Hlong eq_refl))|]. apply Hdup; [discriminate|].
      exists (sample_address 1), (mk_kv 3 0 [1; 2; 4]). split; [exact rejecting_leaf|].
      split; [vm_compute; reflexivity|reflexivity].
Defined.

Lemma ct_upsert_existing_witness :
  exists s', @ct_upsert scalar_ops sample_env 131072 rejecting_state = Ret (S_OK, Some 0) s' /\
    @ct_lookup scalar_ops sample_env [1; 2; 4] s' = Ret (Some 131072) s'.
Proof.
  destruct (@ct_upsert_existing scalar_ops scalar_laws sample_env rejecting_state (state_trie 40 rejecting_state) 131072
             (mk_kv 3 2 [1; 2; 4; 77; 78]) (sample_address 1) (mk_kv 3 0 [1; 2; 4])) as (s' & E & _ & _ & _ & _ & Hlook).
  - exact rejecting_state_rep.
  - apply unlocked_check. vm_compute. reflexivity.
  - vm_compute. reflexivity.
  - repeat split; try discriminate; try reflexivity. apply bytes_ok_check. reflexivity.
  - discriminate.
  - left. split; [discriminate|reflexivity].
  - exact rejecting_leaf.
  - vm_compute. reflexivity.
  - reflexivity.
  - exact sample_ambient.
  - cbn. lia.
  - exists s'. split; [exact E|].
    destruct (Hlook [1; 2; 4]) as (before & _ & El); [apply bytes_ok_check; reflexivity|discriminate|].
    rewrite El. now rewrite decide_True.
Defined.
