(* ===== verification/Fields.v ===== *)
(** * Entries that agree on some of their bytes

    Writing the locator of an entry, its dirty flag or a bit of its child
    bitmap leaves the other fields as they are. *)

From S2P Require Import Prelude Bits Entry KeyObject State Hashing Atomics Table Contents Insert Lookup Linked Dictionary InsertSpec.
From stdpp Require Import base list gmap.
From Stdlib Require Import ZArith Lia Bool.

#[local] Open Scope Z_scope.

(** The first [n] bytes of [e'] are those of [e]. *)
Definition agrees (n : nat) (e e' : ct_entry) : Prop := forall i, (i < n)%nat -> byte_at e' i = byte_at e i.

Lemma agrees_header e e' : agrees 9 e e' -> same_header e' e.
Proof. intros H i Hi. apply H. lia. Qed.

Lemma agrees_type e e' : agrees 9 e e' -> entry_type e' = entry_type e.
Proof. intros H. unfold entry_type, parent_color_and_flags. now rewrite H by lia. Qed.

Lemma agrees_trans n e e' e'' : agrees n e e' -> agrees n e' e'' -> agrees n e e''.
Proof. intros H1 H2 i Hi. now rewrite H2, H1. Qed.

(** The flags byte holds the type, the dirty flag, the secondary flag and the
    parent color. *)
Lemma header_flags e e' :
  same_header e' e -> entry_dirty e' = entry_dirty e /\ entry_is_secondary e' = entry_is_secondary e /\ entry_tag e' = entry_tag e.
Proof.
  intros H. unfold entry_dirty, entry_is_secondary, entry_tag, parent_color_and_flags, color_and_tag. rewrite !H by lia. done.
Qed.

Section agree.
Variables e e' : ct_entry.
Hypothesis e_ok : entry_ok e.
Hypothesis e'_ok : entry_ok e'.
Hypothesis same : agrees 9 e e'.

Lemma agrees_bit j : 0 <= j < 48 -> bit (bits_area e') j = bit (bits_area e) j.
Proof.
  intros Hj. unfold bit. rewrite !byte_at_bits_area. f_equal. apply same. assert (0 <= j / 8 < 6) by zdiv. lia.
Qed.

Lemma agrees_get_bit j : 0 <= j <= 32 -> get_bit (bits_area e') j = get_bit (bits_area e) j.
Proof. intros Hj. rewrite !get_bit_bit by (auto with cuckoo || lia). apply agrees_bit. lia. Qed.

Lemma agrees_jump_symbol i : 0 <= i < 8 -> get_jump_symbol e' i = get_jump_symbol e i.
Proof.
  intros Hi. assert (E : get_jump_symbol e' i - 1 = get_jump_symbol e i - 1); [|lia].
  pose proof (jump_symbol_bound e i e_ok Hi). pose proof (jump_symbol_bound e' i e'_ok Hi).
  apply (bits_eq 5); [lia|lia|lia|]. intros j Hj. rewrite !testbit_jump_symbol by (done || lia). f_equal. apply agrees_bit. lia.
Qed.

Lemma agrees_byte_8 : max_child e' = max_child e /\ entry_jump_size e' = entry_jump_size e /\ entry_child_color e' = entry_child_color e.
Proof.
  assert (E : byte_at e' 8 = byte_at e 8) by (apply same; lia).
  unfold max_child, entry_jump_size, entry_child_color, child_color_and_jump_size. now rewrite E.
Qed.

Lemma agrees_kv : entry_kv e' = entry_kv e.
Proof. apply entry_kv_ext; [done|done|]. intros i Hi. apply same. lia. Qed.
End agree.

(** ** Writing the locator *)

Lemma set_locator_agrees l e : entry_ok e -> agrees 9 e (set_entry_locator l e).
Proof.
  intros He i Hi. apply byte_eq; [apply entry_byte, set_entry_locator_ok, He|apply entry_byte, He|].
  intros j Hj. rewrite testbit_set_entry_locator by (done || entry_lia). rewrite !decide_False by lia. done.
Qed.

(** The same locator again changes nothing. *)
Lemma set_locator_id e : entry_ok e -> set_entry_locator (entry_locator e) e = e.
Proof.
  intros He. apply entry_bits_eq; [now apply set_entry_locator_ok|done|]. intros i j Hi Hj.
  rewrite testbit_set_entry_locator by done. case_decide; [now subst|]. case_decide; [now subst|]. case_decide; [|done].
  cbn [entry_locator loc_primary_bucket]. unfold ENTRY_BYTES in *.
  rewrite testbit_load_bytes by (apply He || lia). assert (E : (8 * (Z.of_nat i - 9) + j) / 8 = Z.of_nat i - 9 /\ (8 * (Z.of_nat i - 9) + j) mod 8 = j) by zdiv.
  destruct E as [-> ->]. do 2 f_equal. lia.
Qed.

Lemma entry_locator_ok e : entry_ok e -> locator_ok (entry_locator e).
Proof.
  intros He. split; [apply (load_bytes_bound 4), He|]. split; apply entry_byte, He.
Qed.

(** ** The dirty flag *)

Lemma dirty_flag b :
  is_byte b -> (b .& FLAG_DIRTY =? FLAG_DIRTY) = false ->
  is_byte (b .| FLAG_DIRTY) /\ (b .| FLAG_DIRTY) .& TYPE_MASK = b .& TYPE_MASK /\
  (b .| FLAG_DIRTY) .& FLAG_SECONDARY_BUCKET = b .& FLAG_SECONDARY_BUCKET /\
  (b .| FLAG_DIRTY) .>> PARENT_COLOR_SHIFT = b .>> PARENT_COLOR_SHIFT /\ (b .| FLAG_DIRTY) .& bnot 8 FLAG_DIRTY = b.
Proof.
  intros Hb H0.
  set (P := fun b => implb (negb (Z.land b FLAG_DIRTY =? FLAG_DIRTY))
    (let b' := Z.lor b FLAG_DIRTY in
     (0 <=? b') && (b' <? 256) && (Z.land b' TYPE_MASK =? Z.land b TYPE_MASK) &&
     (Z.land b' FLAG_SECONDARY_BUCKET =? Z.land b FLAG_SECONDARY_BUCKET) &&
     (Z.shiftr b' PARENT_COLOR_SHIFT =? Z.shiftr b PARENT_COLOR_SHIFT) && (Z.land b' (bnot 8 FLAG_DIRTY) =? b))).
  assert (H : P b = true) by (apply byte_check; [vm_compute; reflexivity|done]).
  subst P. cbv beta zeta in H. rewrite H0 in H. cbn [negb implb] in H.
  rewrite !andb_true_iff, !Z.eqb_eq, Z.leb_le, Z.ltb_lt in H. unfold is_byte. tauto.
Qed.

(** [e'] is in use like [e], in the same bucket of the pair, with the same tag
    and color; an unused one keeps its parent color. *)
Record same_tags (e e' : ct_entry) : Prop := mk_same_tags {
  sg_used : used e' = used e;
  sg_sec : entry_is_secondary e' = entry_is_secondary e;
  sg_tag : entry_tag e' = entry_tag e;
  sg_color : entry_color e' = entry_color e;
  sg_parent : used e = false -> entry_parent_color e' = entry_parent_color e;
}.

Lemma same_header_tags e e' : same_header e' e -> same_tags e e'.
Proof.
  intros H. unfold same_header in H. split; unfold used, entry_type, entry_is_secondary, entry_tag, entry_color, entry_parent_color,
    parent_color_and_flags, color_and_tag; rewrite H by lia; done.
Qed.

#[export] Instance same_tags_equiv : Equivalence same_tags.
Proof.
  split.
  - intros e. now split.
  - intros e e' []. split; try congruence. intros Hu. symmetry. apply sg_parent0. congruence.
  - intros e e' e'' [] []. split; try congruence. intros Hu. rewrite sg_parent1, sg_parent0; congruence.
Qed.

Lemma same_tags_key t p e e' : same_tags e e' -> entry_key t p e' = entry_key t p e /\ entry_hash t p e' = entry_hash t p e /\ (cell_ok e -> cell_ok e').
Proof.
  intros []. unfold entry_key, entry_hash, entry_primary, cell_ok. rewrite sg_sec0, sg_tag0, sg_color0, sg_used0. split; [done|]. split; [done|].
  destruct (used e); [done|]. now rewrite sg_parent0.
Qed.

Section dirty.
Variable e : ct_entry.
Hypothesis e_ok : entry_ok e.
Hypothesis e_clean : entry_dirty e = false.

Lemma set_dirty_tags : entry_ok (entry_set_dirty e) /\ same_tags e (entry_set_dirty e).
Proof.
  rewrite entry_set_dirty_eq by done. split; [now apply set_flags_ok|].
  destruct (dirty_flag (parent_color_and_flags e) (flags_byte e e_ok) e_clean) as (D1 & D2 & D3 & D4 & _).
  split; unfold used, entry_type, entry_is_secondary, entry_tag, entry_color, entry_parent_color;
    rewrite ?flags_set_flags, ?color_set_flags, ?(wrap_small 8 _ D1) by done; congruence.
Qed.

(** Linking an entry that was marked dirty, and cleaning it, links it. *)
Lemma dirty_link_clean l :
  entry_set_clean (set_next_leaf l (entry_set_dirty e)) = set_next_leaf l e.
Proof.
  destruct set_dirty_tags as [Hd _]. pose proof (set_entry_locator_ok l _ Hd) as Hl.
  destruct (dirty_flag (parent_color_and_flags e) (flags_byte e e_ok) e_clean) as (D1 & _ & _ & _ & D5).
  assert (Ef : parent_color_and_flags (set_next_leaf l (entry_set_dirty e)) = parent_color_and_flags e .| FLAG_DIRTY).
  { unfold parent_color_and_flags at 1. rewrite set_locator_agrees by (done || lia).
    change (parent_color_and_flags (entry_set_dirty e) = parent_color_and_flags e .| FLAG_DIRTY).
    rewrite entry_set_dirty_eq by done. rewrite flags_set_flags by done. now apply wrap_small. }
  rewrite entry_set_clean_eq by done. rewrite Ef, D5.
  apply entry_bits_eq; [now apply set_flags_ok|now apply set_entry_locator_ok|]. intros i j Hi Hj.
  unfold set_parent_color_and_flags. rewrite set_byte_bits by (done || lia). rewrite !testbit_set_entry_locator by done.
  rewrite entry_set_dirty_eq by done. unfold set_parent_color_and_flags. rewrite !set_byte_bits by (done || lia).
  repeat case_decide; subst; done || lia.
Qed.

Lemma dirty_link_tags l : same_tags e (set_next_leaf l (entry_set_dirty e)).
Proof.
  destruct set_dirty_tags as [Hd Ht]. transitivity (entry_set_dirty e); [done|]. apply same_header_tags, agrees_header, set_locator_agrees, Hd.
Qed.
End dirty.

Lemma set_locator_tags l e : entry_ok e -> same_tags e (set_entry_locator l e).
Proof. intros He. apply same_header_tags, agrees_header, set_locator_agrees, He. Qed.

(** ** A new child of a bitmap node *)

(** The node [mark_bitmap_child] writes. *)
Definition with_child (l : ct_entry_locator) (symbol : Z) (e : ct_entry) : ct_entry :=
  let e1 := entry_set_child_bit symbol e in
  if max_child e <? symbol then set_max_leaf l (set_max_child symbol e1) else e1.

Section child.
Variables (e : ct_entry) (l : ct_entry_locator) (c : Z).
Hypothesis e_ok : entry_ok e.
Hypothesis l_ok : locator_ok l.
Hypothesis c_ok : 0 <= c <= 32.

Lemma child_bit_ok : entry_ok (entry_set_child_bit c e).
Proof. rewrite entry_set_child_bit_eq by (done || lia). apply set_child_bit_in_ok; (done || lia). Qed.

(** Setting the bit changes the bitmap only. *)
Lemma child_bit_byte i : (i < 3 \/ 8 <= i < ENTRY_BYTES)%nat -> byte_at (entry_set_child_bit c e) i = byte_at e i.
Proof.
  intros Hi. apply byte_eq; [apply entry_byte, child_bit_ok|now apply entry_byte|]. intros j Hj.
  rewrite entry_set_child_bit_eq by (done || lia). rewrite testbit_set_child_bit_in by (done || entry_lia).
  destruct (Z.eqb_spec (8 * (Z.of_nat i - 3) + (7 - j)) c); [unfold ENTRY_BYTES in *; lia|done].
Qed.

Lemma child_bit_bits j : 0 <= j <= 32 -> get_bit (bits_area (entry_set_child_bit c e)) j = (j =? c) || get_bit (bits_area e) j.
Proof.
  intros Hj. rewrite entry_set_child_bit_eq by (done || lia). unfold set_child_bit_in. rewrite bits_area_set by done.
  rewrite get_bit_set_bit by (auto with cuckoo || (rewrite length_bits_area by done; lia) || lia). destruct (j =? c); done.
Qed.

Lemma max_child_stored e1 : entry_ok e1 -> max_child (set_max_child c e1) = c.
Proof.
  intros H1. unfold max_child, set_max_child. rewrite byte_at_set_byte by (done || entry_lia).
  rewrite decide_True by done. apply wrap_small. lia.
Qed.

Lemma max_child_byte e1 i : entry_ok e1 -> i <> 8%nat -> byte_at (set_max_child c e1) i = byte_at e1 i.
Proof.
  intros H1 Hi. unfold set_max_child, set_byte, byte_at, ct_entry in *. rewrite !nth_lookup, list_lookup_insert_ne by lia. done.
Qed.

Lemma with_child_ok : entry_ok (with_child l c e).
Proof.
  pose proof child_bit_ok as H. unfold with_child. destruct (_ <? _); [|exact H]. now apply set_entry_locator_ok, set_byte_ok.
Qed.

Lemma with_child_header : same_header (with_child l c e) e.
Proof.
  pose proof child_bit_ok as H. intros i Hi. unfold with_child. destruct (_ <? _).
  - rewrite set_locator_agrees by (lia || now apply set_byte_ok). rewrite max_child_byte by (done || lia). apply child_bit_byte. lia.
  - apply child_bit_byte. lia.
Qed.

Lemma with_child_bits j : 0 <= j <= 32 -> get_bit (bits_area (with_child l c e)) j = (j =? c) || get_bit (bits_area e) j.
Proof.
  intros Hj. pose proof child_bit_ok as H. rewrite <- child_bit_bits by done. unfold with_child. destruct (_ <? _); [|done].
  assert (H1 : entry_ok (set_max_child c (entry_set_child_bit c e))) by now apply set_byte_ok.
  rewrite (agrees_get_bit _ _ H1) by (done || now apply set_entry_locator_ok || now apply set_locator_agrees).
  rewrite !get_bit_bit by (lia || apply bits_area_ok; done). unfold bit. rewrite !byte_at_bits_area. f_equal. apply max_child_byte; [done|].
  assert (0 <= j / 8 <= 4) by zdiv. lia.
Qed.

Lemma with_child_max : max_child (with_child l c e) = Z.max (max_child e) c.
Proof.
  pose proof child_bit_ok as H. unfold with_child. destruct (Z.ltb_spec (max_child e) c).
  - unfold max_child at 1. rewrite set_locator_agrees by (lia || now apply set_byte_ok).
    change (max_child (set_max_child c (entry_set_child_bit c e)) = Z.max (max_child e) c).
    rewrite max_child_stored by done. lia.
  - unfold max_child at 1. rewrite child_bit_byte by entry_lia. change (byte_at e 8) with (max_child e). lia.
Qed.

Lemma with_child_leaf : max_leaf (with_child l c e) = if max_child e <? c then l else max_leaf e.
Proof.
  pose proof child_bit_ok as H. unfold with_child. destruct (_ <? _).
  - apply entry_locator_set; [now apply set_byte_ok|done].
  - unfold entry_locator. rewrite !child_bit_byte by entry_lia. f_equal. unfold load_bytes.
    cbn [map seq]. rewrite !child_bit_byte by entry_lia. done.
Qed.

(** The greatest child is again the greatest. *)
Lemma with_child_max_ok : max_child_ok e -> max_child_ok (with_child l c e).
Proof.
  intros (M1 & M2 & M3). unfold max_child_ok. rewrite with_child_max. split; [lia|]. split.
  - rewrite with_child_bits by lia. destruct (Z.max_spec (max_child e) c) as [[_ ->]|[_ ->]]; [now rewrite Z.eqb_refl|].
    rewrite M2. apply orb_true_r.
  - intros s Hs. rewrite with_child_bits by lia. intros [->%Z.eqb_eq|Hb]%orb_true_iff; [lia|]. specialize (M3 s Hs Hb). lia.
Qed.
End child.

(** ** Leaves *)

(** The fields of a leaf. *)
Record leaf_fields (color symbol kv : Z) (e : ct_entry) : Prop := mk_leaf_fields {
  lf_ok : entry_ok e;
  lf_type : entry_type e = TYPE_LEAF;
  lf_dirty : entry_dirty e = false;
  lf_parent : entry_parent_color e = color;
  lf_symbol : last_symbol e = symbol;
  lf_kv : entry_kv e = kv;
}.

(** Another successor keeps them. *)
Lemma linked_leaf_fields color symbol kv e l : leaf_fields color symbol kv e -> leaf_fields color symbol kv (set_next_leaf l e).
Proof.
  intros [L1 L2 L3 L4 L5 L6]. pose proof (set_locator_agrees l e L1) as Hag. pose proof (agrees_header _ _ Hag) as Hh.
  destruct (header_flags _ _ Hh) as (E1 & _). destruct (same_header_fields (mk_trie [] 0 0 0 [] 0) (mk_pos 0 0) _ _ Hh) as (_ & E2 & _ & _ & E3 & E4 & _).
  split; [now apply set_entry_locator_ok|congruence|congruence|congruence|congruence|].
  rewrite <- L6. apply agrees_kv; [done|now apply set_entry_locator_ok|done].
Qed.
