(* ===== verification/Nodes.v ===== *)
(** * The entries of the path a leaf is split into (main.c: split_leaf)

    The fields of the jump nodes and of the bitmap node while [split_leaf]
    builds them: adding symbols, children, colors and locators, and the
    change that turns the first of them into the head of the path. *)

From S2P Require Import Prelude Bits Entry KeyObject State Hashing Atomics Table Contents Store Locks Cells Search Relocate AddEntry Finger Insert Lookup Linked Dictionary InsertSpec Fields.
From stdpp Require Import base list gmap.
From Stdlib Require Import ZArith Lia Bool.

#[local] Open Scope Z_scope.

(** ** Bytes that stay *)

(** The bytes from 2 to [n] are the same, and so is the type. *)
Record same_body (n : nat) (e e' : ct_entry) : Prop := mk_same_body {
  sb_ok : entry_ok e';
  sb_type : entry_type e' = entry_type e;
  sb_bytes : forall i, (2 <= i < n)%nat -> byte_at e' i = byte_at e i;
}.

Lemma same_body_trans n e1 e2 e3 : same_body n e1 e2 -> same_body n e2 e3 -> same_body n e1 e3.
Proof. intros [A1 A2 A3] [B1 B2 B3]. split; [done|congruence|]. intros i Hi. now rewrite B3, A3. Qed.

Lemma same_body_le n m e e' : (m <= n)%nat -> same_body n e e' -> same_body m e e'.
Proof. intros Hl [A1 A2 A3]. split; [done|done|]. intros i Hi. apply A3. lia. Qed.

Lemma agrees_body e e' : entry_ok e' -> agrees 9 e e' -> same_body 9 e e'.
Proof. intros Hok Ha. split; [done|apply (agrees_type _ _ Ha)|]. intros i Hi. apply Ha. lia. Qed.

Section body.
Variables e e' : ct_entry.
Hypothesis e_ok : entry_ok e.

Lemma body_symbol n : (3 <= n)%nat -> same_body n e e' -> last_symbol e' = last_symbol e.
Proof. intros Hn H. unfold last_symbol. apply (sb_bytes _ _ _ H). lia. Qed.

Lemma body_bit j : same_body 8 e e' -> 0 <= j < 40 -> bit (bits_area e') j = bit (bits_area e) j.
Proof.
  intros H Hj. unfold bit. rewrite !byte_at_bits_area. f_equal. apply (sb_bytes _ _ _ H). assert (0 <= j / 8 < 5) by zdiv. lia.
Qed.

Lemma body_get_bit j : same_body 8 e e' -> 0 <= j <= 32 -> get_bit (bits_area e') j = get_bit (bits_area e) j.
Proof.
  intros H Hj. rewrite !get_bit_bit by (lia || (apply bits_area_ok; (done || apply H))). apply body_bit; [done|lia].
Qed.

Lemma body_jump_symbol i : same_body 8 e e' -> 0 <= i < 8 -> get_jump_symbol e' i = get_jump_symbol e i.
Proof.
  intros H Hi. assert (E : get_jump_symbol e' i - 1 = get_jump_symbol e i - 1); [|lia]. pose proof (sb_ok _ _ _ H) as Hok.
  pose proof (jump_symbol_bound e i e_ok Hi). pose proof (jump_symbol_bound e' i Hok Hi).
  apply (bits_eq 5); [lia|lia|lia|]. intros j Hj. rewrite !testbit_jump_symbol by (done || lia). f_equal. apply body_bit; [done|lia].
Qed.
End body.

(** ** The flags byte *)

(** The first byte from a parent color and a type. *)
Lemma node_flags c ty :
  0 <= c < 16 -> 1 <= ty <= 3 ->
  let b := (c .<< PARENT_COLOR_SHIFT) .| ty in
  is_byte b /\ b .& TYPE_MASK = ty /\ ((b .& FLAG_SECONDARY_BUCKET) =? FLAG_SECONDARY_BUCKET) = false /\
  ((b .& FLAG_DIRTY) =? FLAG_DIRTY) = false /\ b .>> PARENT_COLOR_SHIFT = c.
Proof.
  intros Hc Hty b. set (P := fun c ty => let b := (c .<< PARENT_COLOR_SHIFT) .| ty in
    (0 <=? b) && (b <? 256) && (b .& TYPE_MASK =? ty) && negb ((b .& FLAG_SECONDARY_BUCKET) =? FLAG_SECONDARY_BUCKET) &&
    negb ((b .& FLAG_DIRTY) =? FLAG_DIRTY) && (b .>> PARENT_COLOR_SHIFT =? c)).
  assert (H : P c ty = true).
  { assert (Hall : forallb (fun c => P c 1 && P c 2 && P c 3) (map Z.of_nat (seq 0 16)) = true) by (vm_compute; reflexivity).
    pose proof (forallb_below 16 _ c Hall ltac:(lia)) as H. rewrite !andb_true_iff in H. destruct H as [[H1 H2] H3].
    assert (ty = 1 \/ ty = 2 \/ ty = 3) as [->|[->| ->]] by lia; done. }
  unfold P in H. rewrite !andb_true_iff, !negb_true_iff, !Z.eqb_eq, Z.leb_le, Z.ltb_lt in H. unfold is_byte. subst b. tauto.
Qed.

(** Another parent color. *)
Lemma recolored_flags b c :
  is_byte b -> 0 <= c < 16 ->
  let b' := (b .& ((1 .<< PARENT_COLOR_SHIFT) - 1)) .| (c .<< PARENT_COLOR_SHIFT) in
  is_byte b' /\ b' .& TYPE_MASK = b .& TYPE_MASK /\ b' .& FLAG_SECONDARY_BUCKET = b .& FLAG_SECONDARY_BUCKET /\
  b' .& FLAG_DIRTY = b .& FLAG_DIRTY /\ b' .>> PARENT_COLOR_SHIFT = c.
Proof.
  intros Hb Hc b'. set (P := fun b c => let b' := (b .& ((1 .<< PARENT_COLOR_SHIFT) - 1)) .| (c .<< PARENT_COLOR_SHIFT) in
    (0 <=? b') && (b' <? 256) && (b' .& TYPE_MASK =? b .& TYPE_MASK) && (b' .& FLAG_SECONDARY_BUCKET =? b .& FLAG_SECONDARY_BUCKET) &&
    (b' .& FLAG_DIRTY =? b .& FLAG_DIRTY) && (b' .>> PARENT_COLOR_SHIFT =? c)).
  assert (H : P b c = true).
  { apply (forallb_below 16 (P b)); [|lia]. revert b Hb b'. intros b Hb _.
    apply (byte_check (fun b => forallb (P b) (map Z.of_nat (seq 0 16)))); [vm_compute; reflexivity|done]. }
  unfold P in H. rewrite !andb_true_iff, !Z.eqb_eq, Z.leb_le, Z.ltb_lt in H. unfold is_byte. subst b'. tauto.
Qed.

(** The flag of the other bucket. *)
Lemma flag_secondary b :
  is_byte b -> ((b .& FLAG_SECONDARY_BUCKET) =? FLAG_SECONDARY_BUCKET) = negb ((b .& FLAG_SECONDARY_BUCKET) =? 0).
Proof.
  intros Hb. assert (H : Bool.eqb ((b .& FLAG_SECONDARY_BUCKET) =? FLAG_SECONDARY_BUCKET) (negb ((b .& FLAG_SECONDARY_BUCKET) =? 0)) = true).
  { apply (byte_check (fun b => Bool.eqb ((b .& FLAG_SECONDARY_BUCKET) =? FLAG_SECONDARY_BUCKET) (negb ((b .& FLAG_SECONDARY_BUCKET) =? 0)))); [vm_compute; reflexivity|done]. }
  now apply Bool.eqb_true_iff.
Qed.

Lemma secondary_keeps b (sec : bool) :
  is_byte b -> (b .| secondary_flag sec) .& FLAG_DIRTY = b .& FLAG_DIRTY /\
  (b .| secondary_flag sec) .>> PARENT_COLOR_SHIFT = b .>> PARENT_COLOR_SHIFT.
Proof.
  intros Hb. assert (H : ((b .| secondary_flag sec) .& FLAG_DIRTY =? b .& FLAG_DIRTY) &&
    ((b .| secondary_flag sec) .>> PARENT_COLOR_SHIFT =? b .>> PARENT_COLOR_SHIFT) = true).
  { apply (byte_check (fun b => ((b .| secondary_flag sec) .& FLAG_DIRTY =? b .& FLAG_DIRTY) &&
      ((b .| secondary_flag sec) .>> PARENT_COLOR_SHIFT =? b .>> PARENT_COLOR_SHIFT))); [destruct sec; vm_compute; reflexivity|done]. }
  now rewrite andb_true_iff, !Z.eqb_eq in H.
Qed.

(** ** Entries the table takes *)

(** [add_entry] writes the flag of the bucket, the color and the tag. *)
Lemma prepared_body h c sec e :
  entry_ok e -> entry_is_secondary e = false -> 0 <= c <= MAX_VALID_COLOR -> 0 <= hash_to_tag h < 16 ->
  same_body ENTRY_BYTES e (prepared h c sec e) /\ entry_dirty (prepared h c sec e) = entry_dirty e /\
  entry_parent_color (prepared h c sec e) = entry_parent_color e.
Proof.
  intros Hok Hp Hc Ht. destruct (prepared_fields h c sec e Hok Hp Hc Ht) as (P1 & _).
  destruct (prepared_eq h c sec e Hok Hc Ht) as [E H1]. destruct (add_flag_byte _ sec (flags_byte e Hok) Hp) as (F1 & _ & F3 & _).
  destruct (secondary_keeps _ sec (flags_byte e Hok)) as (F4 & F5). rewrite E in *.
  set (e1 := set_parent_color_and_flags (parent_color_and_flags e .| secondary_flag sec) e) in *.
  assert (E0 : parent_color_and_flags (set_color_and_tag_byte ((c .<< TAG_BITS) .| hash_to_tag h) e1) = parent_color_and_flags e .| secondary_flag sec).
  { rewrite flags_set_color by done. unfold e1. rewrite flags_set_flags by done. now apply wrap_small. }
  unfold entry_dirty, entry_parent_color. rewrite E0, F4, F5. split; [|done]. split; [exact P1|unfold entry_type; now rewrite E0, F3|].
  intros i Hi. unfold set_color_and_tag_byte, e1, set_parent_color_and_flags.
  rewrite !byte_at_set_byte by (try apply set_byte_ok; done || lia). rewrite !decide_False by lia. done.
Qed.

Lemma leaf_fields_body color color' symbol kv e e' :
  leaf_fields color symbol kv e -> same_body 9 e e' -> entry_dirty e' = entry_dirty e -> entry_parent_color e' = color' ->
  leaf_fields color' symbol kv e'.
Proof.
  intros [L1 L2 L3 L4 L5 L6] Hb Hd Hc. pose proof Hb as [B1 B2 B3]. split; [done|congruence|congruence|done| |].
  - rewrite <- L5. now apply (body_symbol _ _ 9); [lia|].
  - rewrite <- L6. apply entry_kv_ext; [done|done|]. intros i Hi. apply B3. lia.
Qed.

Lemma prepared_leaf color symbol kv e h c sec :
  leaf_fields color symbol kv e -> entry_is_secondary e = false -> 0 <= c <= MAX_VALID_COLOR -> 0 <= hash_to_tag h < 16 ->
  leaf_fields color symbol kv (prepared h c sec e).
Proof.
  intros Hf Hp Hc Ht. destruct (prepared_body h c sec e (lf_ok _ _ _ _ Hf) Hp Hc Ht) as (Hb & Hd & Hpc).
  apply (leaf_fields_body color color symbol kv e); [done| |done|now rewrite Hpc, (lf_parent _ _ _ _ Hf)].
  apply (same_body_le ENTRY_BYTES); [entry_lia|exact Hb].
Qed.

(** A leaf with another parent. *)
Lemma recolored_leaf color color' symbol kv e :
  leaf_fields color symbol kv e -> 0 <= color' <= MAX_VALID_COLOR ->
  let e' := entry_set_parent_color color' e in
  leaf_fields color' symbol kv e' /\ (forall i, (1 <= i < ENTRY_BYTES)%nat -> byte_at e' i = byte_at e i) /\
  entry_is_secondary e' = entry_is_secondary e.
Proof.
  intros Hf Hc e'. pose proof (lf_ok _ _ _ _ Hf) as Hok. change MAX_VALID_COLOR with 8 in Hc.
  destruct (recolored_flags (parent_color_and_flags e) color' (flags_byte e Hok) ltac:(lia)) as (R1 & R2 & R3 & R4 & R5).
  assert (E0 : parent_color_and_flags e' = (parent_color_and_flags e .& ((1 .<< PARENT_COLOR_SHIFT) - 1)) .| (color' .<< PARENT_COLOR_SHIFT)).
  { unfold e', entry_set_parent_color. rewrite flags_set_flags by done. now apply wrap_small. }
  assert (Eb : forall i, (1 <= i < ENTRY_BYTES)%nat -> byte_at e' i = byte_at e i).
  { intros i Hi. unfold e', entry_set_parent_color, set_parent_color_and_flags. rewrite byte_at_set_byte by (done || lia). now rewrite decide_False by lia. }
  split; [|split; [exact Eb|unfold entry_is_secondary; now rewrite E0, R3]].
  apply (leaf_fields_body color color' symbol kv e); [done| |unfold entry_dirty; now rewrite E0, R4|unfold entry_parent_color; now rewrite E0, R5].
  split; [now apply set_flags_ok|unfold entry_type; now rewrite E0, R2|]. intros i Hi. apply Eb. entry_lia.
Qed.

(** ** Jump nodes *)

(** A jump node of the symbols [syms]. *)
Record jump_fields (symbol : Z) (syms : list Z) (e : ct_entry) : Prop := mk_jump_fields {
  jf_ok : entry_ok e;
  jf_type : entry_type e = TYPE_JUMP;
  jf_symbol : last_symbol e = symbol;
  jf_size : entry_jump_size e = Z.of_nat (length syms);
  jf_room : (length syms <= 8)%nat;
  jf_symbols : forall i s, syms !! i = Some s -> get_jump_symbol e (Z.of_nat i) = s;
}.

Lemma jump_fields_body symbol syms e e' :
  jump_fields symbol syms e -> same_body 8 e e' -> entry_jump_size e' = entry_jump_size e -> jump_fields symbol syms e'.
Proof.
  intros [J1 J2 J3 J4 J5 J6] Hb Hs. pose proof Hb as [B1 B2 B3]. split; [done|congruence| |congruence|done|].
  - rewrite <- J3. now apply (body_symbol _ _ 8); [lia|].
  - intros i s Hi. rewrite <- (J6 i s Hi). apply body_jump_symbol; [done|done|]. apply lookup_lt_Some in Hi. lia.
Qed.

(** What the header of a node under construction says: it is in its primary
    bucket, not dirty, and has no parent color. *)
Record plain_header (e : ct_entry) : Prop := mk_plain {
  fr_primary : entry_is_secondary e = false;
  fr_clean : entry_dirty e = false;
  fr_parent : entry_parent_color e = INVALID_COLOR;
}.

Lemma plain_flags e e' : parent_color_and_flags e' = parent_color_and_flags e -> plain_header e -> plain_header e'.
Proof. intros E [F1 F2 F3]. unfold entry_is_secondary, entry_dirty, entry_parent_color in *. split; unfold entry_is_secondary, entry_dirty, entry_parent_color; now rewrite E. Qed.

Section new_jump.
Context `{Env}.
Hypothesis garbage_ok : entry_ok garbage_entry.

Lemma new_jump_fields symbol h : 0 <= symbol <= 32 -> jump_fields symbol [] (new_jump_node symbol h) /\ plain_header (new_jump_node symbol h).
Proof.
  intros Hs. destruct (node_flags INVALID_COLOR TYPE_JUMP ltac:(done) ltac:(done)) as (F1 & F2 & F3 & F4 & F5).
  set (b := (INVALID_COLOR .<< PARENT_COLOR_SHIFT) .| TYPE_JUMP) in *.
  assert (H1 : entry_ok (set_parent_color_and_flags b garbage_entry)) by now apply set_flags_ok.
  assert (H2 : entry_ok (set_last_symbol symbol (set_parent_color_and_flags b garbage_entry))) by now apply set_byte_ok.
  assert (H3 : entry_ok (set_color_and_tag_byte (hash_to_tag h) (set_last_symbol symbol (set_parent_color_and_flags b garbage_entry)))) by now apply set_byte_ok.
  assert (E0 : parent_color_and_flags (new_jump_node symbol h) = b).
  { unfold new_jump_node, parent_color_and_flags. fold b. unfold set_child_color_and_jump_size, set_color_and_tag_byte, set_last_symbol, set_parent_color_and_flags in *.
    rewrite !byte_at_set_byte by (done || entry_lia). cbn [decide]. rewrite !decide_False, decide_True by lia. now apply wrap_small. }
  assert (E8 : child_color_and_jump_size (new_jump_node symbol h) = 0).
  { unfold new_jump_node, child_color_and_jump_size. fold b. unfold set_child_color_and_jump_size. rewrite byte_at_set_byte by (done || entry_lia).
    now rewrite decide_True by lia. }
  split.
  - split; [now apply set_byte_ok|unfold entry_type; now rewrite E0| |unfold entry_jump_size; now rewrite E8|cbn; lia|done].
    unfold last_symbol, new_jump_node. fold b. unfold set_child_color_and_jump_size, set_color_and_tag_byte, set_last_symbol, set_parent_color_and_flags in *.
    rewrite !byte_at_set_byte by (done || entry_lia). rewrite !decide_False, decide_True by lia. apply wrap_small. lia.
  - split; unfold entry_is_secondary, entry_dirty, entry_parent_color; now rewrite E0.
Qed.
End new_jump.

Lemma extended_jump_fields symbol syms s e :
  jump_fields symbol syms e -> (length syms < 8)%nat -> 1 <= s <= 32 ->
  jump_fields symbol (syms ++ [s]) (extend_jump_node s e) /\
  (forall i, (i < 2)%nat -> byte_at (extend_jump_node s e) i = byte_at e i).
Proof.
  intros [J1 J2 J3 J4 J5 J6] Hl Hs. assert (Hr : entry_jump_size e < 8) by (rewrite J4; lia).
  pose proof (extend_jump_node_ok e s J1 Hr) as Hok.
  assert (Eb : forall i, (i < 3)%nat -> byte_at (extend_jump_node s e) i = byte_at e i) by (intros i Hi; apply extend_jump_byte; (done || entry_lia)).
  split; [|intros i Hi; apply Eb; lia]. split; [done| | | | |].
  - unfold entry_type, parent_color_and_flags. now rewrite Eb by lia.
  - unfold last_symbol. now rewrite Eb by lia.
  - unfold entry_jump_size, child_color_and_jump_size. rewrite extend_jump_size_byte by done.
    destruct (jump_size_incr (byte_at e 8)) as [-> _]; [auto with cuckoo|exact Hr|].
    change (byte_at e 8 .& _) with (entry_jump_size e). rewrite J4, length_app. cbn [length]. lia.
  - rewrite length_app. cbn [length]. lia.
  - intros i y Hi. pose proof (lookup_lt_Some _ _ _ Hi) as Hlt. rewrite length_app in Hlt. cbn [length] in Hlt.
    rewrite extend_jump_symbol by (done || lia). rewrite J4. apply lookup_snoc_Some in Hi as [[Hi Hy]|[-> <-]].
    + destruct (Z.eqb_spec (Z.of_nat i) (Z.of_nat (length syms))); [lia|]. now apply J6.
    + now rewrite Z.eqb_refl.
Qed.

(** The child's color. *)
Lemma colored_byte b c :
  is_byte b -> 0 <= c < 16 ->
  let b' := (b .& ((1 .<< CHILD_COLOR_SHIFT) - 1)) .| (c .<< CHILD_COLOR_SHIFT) in
  is_byte b' /\ b' .& ((1 .<< CHILD_COLOR_SHIFT) - 1) = b .& ((1 .<< CHILD_COLOR_SHIFT) - 1) /\ b' .>> CHILD_COLOR_SHIFT = c.
Proof.
  intros Hb Hc b'. set (P := fun b c => let b' := (b .& ((1 .<< CHILD_COLOR_SHIFT) - 1)) .| (c .<< CHILD_COLOR_SHIFT) in
    (0 <=? b') && (b' <? 256) && (b' .& ((1 .<< CHILD_COLOR_SHIFT) - 1) =? b .& ((1 .<< CHILD_COLOR_SHIFT) - 1)) && (b' .>> CHILD_COLOR_SHIFT =? c)).
  assert (H : P b c = true).
  { apply (forallb_below 16 (P b)); [|lia]. revert b Hb b'. intros b Hb _.
    apply (byte_check (fun b => forallb (P b) (map Z.of_nat (seq 0 16)))); [vm_compute; reflexivity|done]. }
  unfold P in H. rewrite !andb_true_iff, !Z.eqb_eq, Z.leb_le, Z.ltb_lt in H. unfold is_byte. subst b'. tauto.
Qed.

Lemma child_color_fields c e :
  entry_ok e -> 0 <= c <= MAX_VALID_COLOR ->
  let e' := entry_set_child_color c e in
  entry_ok e' /\ entry_child_color e' = c /\ entry_jump_size e' = entry_jump_size e /\
  forall i, i <> 8%nat -> byte_at e' i = byte_at e i.
Proof.
  intros Hok Hc e'. change MAX_VALID_COLOR with 8 in Hc.
  destruct (colored_byte (child_color_and_jump_size e) c (entry_byte e 8 Hok) ltac:(lia)) as (C1 & C2 & C3).
  assert (E8 : child_color_and_jump_size e' = (child_color_and_jump_size e .& ((1 .<< CHILD_COLOR_SHIFT) - 1)) .| (c .<< CHILD_COLOR_SHIFT)).
  { unfold e', entry_set_child_color, child_color_and_jump_size at 1, set_child_color_and_jump_size. rewrite byte_at_set_byte by (done || entry_lia).
    rewrite decide_True by lia. now apply wrap_small. }
  split; [now apply set_byte_ok|]. unfold entry_child_color, entry_jump_size. rewrite E8. split; [done|]. split; [done|].
  intros i Hi. unfold e', entry_set_child_color, set_child_color_and_jump_size, set_byte, byte_at, ct_entry in *.
  rewrite !nth_lookup, list_lookup_insert_ne by lia. done.
Qed.

(** ** The bitmap node *)

(** A bitmap node with the children [a] and [b], the greater of which is [b]. *)
Record fork_fields (symbol a b : Z) (e : ct_entry) : Prop := mk_fork_fields {
  ff_ok : entry_ok e;
  ff_type : entry_type e = TYPE_BITMAP;
  ff_symbol : last_symbol e = symbol;
  ff_bits : forall j, 0 <= j <= 32 -> get_bit (bits_area e) j = (j =? a) || (j =? b);
  ff_max : max_child e = b;
}.

Lemma fork_fields_body symbol a b e e' : fork_fields symbol a b e -> same_body 9 e e' -> fork_fields symbol a b e'.
Proof.
  intros [J1 J2 J3 J4 J5] Hb. pose proof Hb as [B1 B2 B3]. split; [done|congruence| | |].
  - rewrite <- J3. now apply (body_symbol _ _ 9); [lia|].
  - intros j Hj. rewrite <- J4 by done. apply body_get_bit; [done| |done]. now apply (same_body_le 9); [lia|].
  - rewrite <- J5. apply B3. lia.
Qed.

(** A bitmap node without children. *)
Record blank_fields (symbol : Z) (e : ct_entry) : Prop := mk_blank_fields {
  bf_ok : entry_ok e;
  bf_type : entry_type e = TYPE_BITMAP;
  bf_symbol : last_symbol e = symbol;
  bf_bits : forall j, 0 <= j <= 32 -> get_bit (bits_area e) j = false;
}.

Lemma blank_fields_body symbol e e' : blank_fields symbol e -> same_body 8 e e' -> blank_fields symbol e'.
Proof.
  intros [J1 J2 J3 J4] Hb. pose proof Hb as [B1 B2 B3]. split; [done|congruence| |].
  - rewrite <- J3. now apply (body_symbol _ _ 8); [lia|].
  - intros j Hj. rewrite <- (J4 j) by done. now apply body_get_bit.
Qed.

Lemma cleared_bits e : entry_ok e ->
  entry_ok (clear_child_bitmap e) /\ (forall i, (i < 3)%nat -> byte_at (clear_child_bitmap e) i = byte_at e i) /\
  forall j, 0 <= j <= 32 -> get_bit (bits_area (clear_child_bitmap e)) j = false.
Proof.
  intros Hok. unfold clear_child_bitmap. set (bs := replicate CHILD_BITMAP_BYTES 0 ++ drop CHILD_BITMAP_BYTES (bits_area e)).
  assert (Hb : bytes_ok bs).
  { apply Forall_app_2; [|now apply Forall_drop, bits_area_ok]. apply Forall_replicate. unfold is_byte. lia. }
  assert (Hl : length bs = 12%nat).
  { unfold bs. rewrite length_app, length_drop, length_bits_area by done. reflexivity. }
  split; [now apply set_bits_area_ok|]. split.
  - intros i Hi. rewrite byte_at_set_bits_area by done. now destruct (Nat.ltb_spec i 3); [|lia].
  - intros j Hj. rewrite bits_area_set by done. rewrite get_bit_bit by (done || lia). unfold bit.
    replace (byte_at bs (Z.to_nat (j / 8))) with 0; [now rewrite Z.bits_0|]. unfold byte_at. rewrite nth_lookup.
    assert (0 <= j / 8 < 5) by zdiv. unfold bs. rewrite lookup_app_l by (rewrite length_replicate; unfold CHILD_BITMAP_BYTES; lia).
    rewrite lookup_replicate_2 by (unfold CHILD_BITMAP_BYTES; lia). reflexivity.
Qed.

Section new_bitmap.
Context `{Env}.
Hypothesis garbage_ok : entry_ok garbage_entry.

Lemma new_bitmap_fields symbol : 0 <= symbol <= 32 -> blank_fields symbol (new_bitmap_node symbol) /\ plain_header (new_bitmap_node symbol).
Proof.
  intros Hs. destruct (node_flags INVALID_COLOR TYPE_BITMAP ltac:(done) ltac:(done)) as (F1 & F2 & F3 & F4 & F5).
  set (b := (INVALID_COLOR .<< PARENT_COLOR_SHIFT) .| TYPE_BITMAP) in *. unfold new_bitmap_node. fold b.
  assert (H1 : entry_ok (set_parent_color_and_flags b garbage_entry)) by now apply set_flags_ok.
  set (e := set_last_symbol symbol (set_parent_color_and_flags b garbage_entry)). assert (H2 : entry_ok e) by now apply set_byte_ok.
  destruct (cleared_bits e H2) as (C1 & C2 & C3).
  assert (E0 : parent_color_and_flags (clear_child_bitmap e) = b).
  { unfold parent_color_and_flags. rewrite C2 by lia. unfold e, set_last_symbol. rewrite byte_at_set_byte by (done || entry_lia).
    rewrite decide_False by lia. change (parent_color_and_flags (set_parent_color_and_flags b garbage_entry) = b).
    rewrite flags_set_flags by done. now apply wrap_small. }
  split.
  - split; [done|unfold entry_type; now rewrite E0| |done]. unfold last_symbol. rewrite C2 by lia. unfold e, set_last_symbol.
    rewrite byte_at_set_byte by (done || entry_lia). rewrite decide_True by lia. apply wrap_small. lia.
  - split; unfold entry_is_secondary, entry_dirty, entry_parent_color; now rewrite E0.
Qed.
End new_bitmap.

(** Its two children. *)
Definition fork (a b : Z) (e : ct_entry) : ct_entry := set_max_child b (set_child_bit_in b (set_child_bit_in a e)).

Lemma child_bit_in_byte c e i : entry_ok e -> 0 <= c -> (i < 3)%nat -> byte_at (set_child_bit_in c e) i = byte_at e i.
Proof. intros Hok Hc Hi. unfold set_child_bit_in. rewrite byte_at_set_bits_area by done. now destruct (Nat.ltb_spec i 3); [|lia]. Qed.

Lemma child_bit_in_bits c e j : entry_ok e -> 0 <= c <= 32 -> 0 <= j <= 32 ->
  get_bit (bits_area (set_child_bit_in c e)) j = (j =? c) || get_bit (bits_area e) j.
Proof.
  intros Hok Hc Hj. unfold set_child_bit_in. rewrite bits_area_set by done.
  rewrite get_bit_set_bit by (auto with cuckoo || (rewrite length_bits_area by done; lia) || lia). destruct (j =? c); done.
Qed.

Lemma forked_fields symbol a b e : blank_fields symbol e -> 0 <= a <= 32 -> 0 <= b <= 32 ->
  fork_fields symbol a b (fork a b e) /\ forall i, (i < 3)%nat -> byte_at (fork a b e) i = byte_at e i.
Proof.
  intros [J1 J2 J3 J4] Ha Hb. unfold fork.
  pose proof (set_child_bit_in_ok a e J1 ltac:(lia)) as H1. set (e1 := set_child_bit_in a e) in *.
  pose proof (set_child_bit_in_ok b e1 H1 ltac:(lia)) as H2. set (e2 := set_child_bit_in b e1) in *.
  assert (H3 : entry_ok (set_max_child b e2)) by now apply set_byte_ok.
  assert (Eb : forall i, i <> 8%nat -> byte_at (set_max_child b e2) i = byte_at e2 i) by (intros i Hi; now apply max_child_byte).
  assert (E3 : forall i, (i < 3)%nat -> byte_at (set_max_child b e2) i = byte_at e i).
  { intros i Hi. rewrite Eb by lia. unfold e2. rewrite child_bit_in_byte by (done || lia). unfold e1. now rewrite child_bit_in_byte by (done || lia). }
  assert (Hbody : same_body 8 e2 (set_max_child b e2)).
  { split; [done|unfold entry_type, parent_color_and_flags; now rewrite Eb by lia|]. intros i Hi. apply Eb. lia. }
  split; [|exact E3]. split; [done| | | |exact (max_child_stored e2 b H2 Hb e2 H2)].
  - rewrite <- J2. unfold entry_type, parent_color_and_flags. now rewrite E3 by lia.
  - rewrite <- J3. unfold last_symbol. now rewrite E3 by lia.
  - intros j Hj. rewrite (body_get_bit e2) by done. unfold e2, e1. rewrite !child_bit_in_bits by done. rewrite J4 by done.
    now rewrite orb_false_r, orb_comm.
Qed.

(** ** The head of the path *)

Lemma parent_color_bound e : entry_ok e -> 0 <= entry_parent_color e < 16.
Proof.
  intros Hok. pose proof (flags_byte e Hok) as Hb. unfold entry_parent_color, is_byte in *. rewrite Z.shiftr_div_pow2 by done.
  change (2 ^ PARENT_COLOR_SHIFT) with 16. zdiv.
Qed.

(** The first path node in the place of the leaf: it keeps its own body and
    takes the header of the leaf. *)
Lemma head_fields leaf e :
  entry_ok leaf -> entry_ok e -> plain_header e -> used leaf = true -> used e = true ->
  same_body ENTRY_BYTES e (become_head leaf e) /\ same_tags leaf (become_head leaf e) /\
  entry_dirty (become_head leaf e) = false /\ entry_parent_color (become_head leaf e) = entry_parent_color leaf.
Proof.
  intros Hl He [F1 F2 F3] Hu Hue. pose proof (parent_color_bound leaf Hl) as Hpc.
  destruct (recolored_flags (parent_color_and_flags e) (entry_parent_color leaf) (flags_byte e He) Hpc) as (R1 & R2 & R3 & R4 & R5).
  set (b := (parent_color_and_flags e .& ((1 .<< PARENT_COLOR_SHIFT) - 1)) .| (entry_parent_color leaf .<< PARENT_COLOR_SHIFT)) in *.
  set (e1 := entry_set_parent_color (entry_parent_color leaf) e). assert (H1 : entry_ok e1) by now apply set_flags_ok.
  assert (E1 : parent_color_and_flags e1 = b) by (unfold e1, entry_set_parent_color; rewrite flags_set_flags by done; now apply wrap_small).
  set (e2 := set_color_and_tag_byte (color_and_tag leaf) e1). assert (H2 : entry_ok e2) by now apply set_color_ok.
  assert (E2 : parent_color_and_flags e2 = b) by (unfold e2; now rewrite flags_set_color).
  assert (C2 : color_and_tag e2 = color_and_tag leaf) by (unfold e2; rewrite color_set_color by done; apply wrap_small, color_and_tag_byte, Hl).
  set (sec := entry_is_secondary leaf). assert (Hsec : negb ((parent_color_and_flags leaf .& FLAG_SECONDARY_BUCKET) =? 0) = sec).
  { unfold sec, entry_is_secondary. symmetry. apply flag_secondary, flags_byte, Hl. }
  destruct (add_flag_byte b sec R1 ltac:(now rewrite R3)) as (A1 & A2 & A3 & A4). destruct (secondary_keeps b sec R1) as (A5 & A6).
  assert (Eq : become_head leaf e = set_parent_color_and_flags (b .| secondary_flag sec) e2).
  { unfold become_head. fold e1 e2. rewrite Hsec, E2. destruct sec; cbn [secondary_flag]; [done|]. rewrite Z.lor_0_r. rewrite <- E2. symmetry. now apply set_flags_id. }
  assert (E3 : parent_color_and_flags (become_head leaf e) = b .| secondary_flag sec) by (rewrite Eq, flags_set_flags by done; now apply wrap_small).
  assert (C3 : color_and_tag (become_head leaf e) = color_and_tag leaf) by (rewrite Eq, color_set_flags by done; exact C2).
  split; [|split].
  - split; [rewrite Eq; now apply set_flags_ok|unfold entry_type; now rewrite E3, A3|]. intros i Hi. rewrite Eq.
    unfold e2, e1, set_parent_color_and_flags, set_color_and_tag_byte, entry_set_parent_color, set_parent_color_and_flags in *.
    rewrite !byte_at_set_byte by (done || lia). rewrite !decide_False by lia. done.
  - split; unfold entry_is_secondary, entry_tag, entry_color, entry_parent_color; rewrite ?E3, ?C3; try done.
    + rewrite Hu, <- Hue. unfold used, entry_type. now rewrite E3, A3, R2.
    + now rewrite A6.
  - unfold entry_dirty, entry_parent_color. rewrite E3, A5, A6, R4, R5. done.
Qed.

(** ** Other fields of the nodes *)

Lemma jump_is_used symbol syms e : jump_fields symbol syms e -> used e = true.
Proof. intros H. unfold used. now rewrite (jf_type _ _ _ H). Qed.

Lemma blank_is_used symbol e : blank_fields symbol e -> used e = true.
Proof. intros H. unfold used. now rewrite (bf_type _ _ H). Qed.

Lemma fork_is_used symbol a b e : fork_fields symbol a b e -> used e = true.
Proof. intros H. unfold used. now rewrite (ff_type _ _ _ _ H). Qed.

(** The locator of the maximal leaf. *)
Lemma with_max_leaf l e : entry_ok e -> locator_ok l ->
  same_body 9 e (set_max_leaf l e) /\ max_leaf (set_max_leaf l e) = l /\ same_tags e (set_max_leaf l e).
Proof.
  intros He Hl. pose proof (set_locator_agrees l e He) as Ha. split; [apply agrees_body; [now apply set_entry_locator_ok|done]|].
  split; [now apply entry_locator_set|now apply set_locator_tags].
Qed.

(** The locator is in the bytes from 9 on. *)
Lemma locator_bytes e e' : (forall i, (9 <= i < ENTRY_BYTES)%nat -> byte_at e' i = byte_at e i) -> entry_locator e' = entry_locator e.
Proof.
  intros H. unfold entry_locator. rewrite !H by entry_lia. f_equal. unfold load_bytes. cbn [map seq]. now rewrite !H by entry_lia.
Qed.

Lemma body_locator e e' : same_body ENTRY_BYTES e e' -> entry_locator e' = entry_locator e.
Proof. intros Hb. apply locator_bytes. intros i Hi. apply Hb. lia. Qed.

(** ** The two leaves *)

Lemma leaf_from_flags c symbol e :
  entry_ok e -> 0 <= c <= MAX_VALID_COLOR -> parent_color_and_flags e = (c .<< PARENT_COLOR_SHIFT) .| TYPE_LEAF -> last_symbol e = symbol ->
  leaf_fields c symbol (entry_kv e) e /\ entry_is_secondary e = false.
Proof.
  intros Hok Hc E0 Es. change MAX_VALID_COLOR with 8 in Hc. destruct (node_flags c TYPE_LEAF ltac:(lia) ltac:(done)) as (F1 & F2 & F3 & F4 & F5).
  split; [split|]; unfold entry_type, entry_dirty, entry_parent_color, entry_is_secondary; rewrite ?E0; done.
Qed.

Lemma leaf_is_used c symbol kv e : leaf_fields c symbol kv e -> used e = true.
Proof. intros H. unfold used. now rewrite (lf_type _ _ _ _ H). Qed.

(** A new object. *)
Lemma leaf_with_kv c symbol kv0 kv e : leaf_fields c symbol kv0 e -> canonical_address kv ->
  leaf_fields c symbol kv (entry_set_kv kv e) /\ same_tags e (entry_set_kv kv e) /\
  entry_is_secondary (entry_set_kv kv e) = entry_is_secondary e.
Proof.
  intros [L1 L2 L3 L4 L5 L6] Hk. pose proof (entry_set_kv_ok kv e L1) as Hok.
  assert (Eb : forall i, (i < 3)%nat -> byte_at (entry_set_kv kv e) i = byte_at e i) by (intros i Hi; apply byte_at_set_kv; (done || lia)).
  assert (Ht : same_tags e (entry_set_kv kv e)) by (apply same_header_tags; exact Eb).
  assert (E0 : parent_color_and_flags (entry_set_kv kv e) = parent_color_and_flags e) by (apply Eb; lia).
  split; [|split; [exact Ht|apply (sg_sec _ _ Ht)]].
  split; [done|unfold entry_type in *; now rewrite E0|unfold entry_dirty in *; now rewrite E0|unfold entry_parent_color in *; now rewrite E0| |now apply entry_kv_set].
  rewrite <- L5. apply Eb. lia.
Qed.

(** Another parent color of an entry in use. *)
Lemma recolored_tags color color' symbol kv e :
  leaf_fields color symbol kv e -> 0 <= color' <= MAX_VALID_COLOR -> same_tags e (entry_set_parent_color color' e).
Proof.
  intros Hf Hc. destruct (recolored_leaf color color' symbol kv e Hf Hc) as (H1 & H2 & H3).
  assert (E1 : color_and_tag (entry_set_parent_color color' e) = color_and_tag e) by (apply H2; entry_lia).
  split; [|exact H3|unfold entry_tag; now rewrite E1|unfold entry_color; now rewrite E1|].
  - now rewrite (leaf_is_used _ _ _ _ Hf), (leaf_is_used _ _ _ _ H1).
  - intros Hu. rewrite (leaf_is_used _ _ _ _ Hf) in Hu. discriminate.
Qed.

Section two_leaves.
Context `{Env}.
Hypothesis garbage_ok : entry_ok garbage_entry.

(** The maximal leaf as it is added: its object comes later. *)
Definition max_leaf_content (symbol : Z) : ct_entry := set_last_symbol symbol (set_parent_color_and_flags TYPE_LEAF garbage_entry).

(** The minimal leaf, below the node of color [c] and before the leaf at [l]. *)
Definition min_leaf_content (c symbol kv : Z) (l : ct_entry_locator) : ct_entry :=
  set_next_leaf l (entry_set_kv kv
    (set_parent_color_and_flags ((c .<< PARENT_COLOR_SHIFT) .| TYPE_LEAF) (set_last_symbol symbol garbage_entry))).

Lemma max_content_fields symbol : 0 <= symbol <= 32 ->
  leaf_fields 0 symbol (entry_kv (max_leaf_content symbol)) (max_leaf_content symbol) /\ entry_is_secondary (max_leaf_content symbol) = false.
Proof.
  intros Hs. unfold max_leaf_content. assert (H1 : entry_ok (set_parent_color_and_flags TYPE_LEAF garbage_entry)) by now apply set_flags_ok.
  apply leaf_from_flags; [now apply set_byte_ok|done| |].
  - unfold parent_color_and_flags, set_last_symbol, set_parent_color_and_flags in *. rewrite !byte_at_set_byte by (done || entry_lia). done.
  - unfold last_symbol, set_last_symbol. rewrite byte_at_set_byte by (done || entry_lia). rewrite decide_True by lia. apply wrap_small. lia.
Qed.

Lemma min_content_fields c symbol kv l :
  0 <= symbol <= 32 -> 0 <= c <= MAX_VALID_COLOR -> canonical_address kv -> locator_ok l ->
  leaf_fields c symbol kv (min_leaf_content c symbol kv l) /\ entry_is_secondary (min_leaf_content c symbol kv l) = false /\
  next_leaf (min_leaf_content c symbol kv l) = l.
Proof.
  intros Hs Hc Hk Hl. unfold min_leaf_content. set (b := (c .<< PARENT_COLOR_SHIFT) .| TYPE_LEAF).
  destruct (node_flags c TYPE_LEAF ltac:(change MAX_VALID_COLOR with 8 in Hc; lia) ltac:(done)) as (F1 & _). fold b in F1.
  assert (H1 : entry_ok (set_last_symbol symbol garbage_entry)) by now apply set_byte_ok.
  set (e := set_parent_color_and_flags b (set_last_symbol symbol garbage_entry)). assert (H2 : entry_ok e) by now apply set_flags_ok.
  destruct (leaf_from_flags c symbol e H2 Hc) as [Hf Hsec].
  - unfold e. rewrite flags_set_flags by done. now apply wrap_small.
  - unfold e, last_symbol, set_parent_color_and_flags. rewrite byte_at_set_byte by (done || entry_lia). rewrite decide_False by lia.
    unfold set_last_symbol. rewrite byte_at_set_byte by (done || entry_lia). rewrite decide_True by lia. apply wrap_small. lia.
  - destruct (leaf_with_kv c symbol _ kv e Hf Hk) as (Hf2 & _ & Hs2). pose proof (lf_ok _ _ _ _ Hf2) as H3.
    split; [now apply linked_leaf_fields|]. split; [|now apply entry_locator_set].
    rewrite (sg_sec _ _ (set_locator_tags l _ H3)). congruence.
Qed.
End two_leaves.
