(* ===== verification/TreeInsert.v ===== *)
(** * Insertion into the abstract trie

    [tinsert] adds a leaf: at a bitmap node that lacks the child, at a leaf,
    which becomes a path of jump nodes for the symbols the two keys share and a
    bitmap node below, or inside a jump node, one of whose symbols becomes a
    bitmap node. The trie stays well-formed, the key of the leaf is found and
    every other key is looked up as before. *)

From S2P Require Import Prelude Bits Entry KeyObject State Hashing Symbols Atomics Table Contents Finger Insert Api Lookup Order Place.
From stdpp Require Import base list gmap sorting.
From Stdlib Require Import ZArith Lia Bool.

#[local] Open Scope Z_scope.

(** ** The tree *)

(** The symbols of the object at address [kv]. *)
Definition kv_symbol (m : gmap Z ct_kv) (kv : Z) : Z -> Z :=
  match m !! kv with Some o => symbol_at (kv_key o) | None => fun _ => SYMBOL_END end.

(** The symbols that two keys share from position [k] on. *)
Fixpoint shared (fuel : nat) (a b : Z -> Z) (k : Z) : list Z :=
  match fuel with
  | O => []
  | S fuel' => if a k =? b k then a k :: shared fuel' a b (k + 1) else []
  end.

Definition SPLIT_ROUNDS : nat := S (Z.to_nat MAX_KEY_SYMBOLS).

(** Symbols in pieces of eight, as many as a jump node has. *)
Fixpoint chunks (fuel : nat) (l : list Z) : list (list Z) :=
  match fuel, l with
  | S fuel', _ :: _ => take 8 l :: chunks fuel' (drop 8 l)
  | _, _ => []
  end.

Definition jump_chain (cs : list (list Z)) (n : tnode) : tnode := foldr TJump n cs.

Definition two_leaves (s1 kv1 s2 kv2 : Z) : tnode :=
  TBitmap (fun s => if s =? s1 then Some (TLeaf kv1) else if s =? s2 then Some (TLeaf kv2) else None).

(** What a leaf becomes. *)
Definition split_leaf_tree (old : Z) (osym : Z -> Z) (sym : Z -> Z) (k kv : Z) : tnode :=
  let l := shared SPLIT_ROUNDS osym sym k in
  let k' := k + Z.of_nat (length l) in
  jump_chain (chunks (length l) l) (two_leaves (sym k') kv (osym k') old).

Definition jump_opt (syms : list Z) (n : tnode) : tnode := match syms with [] => n | _ => TJump syms n end.

(** What a jump node becomes. *)
Definition split_jump_tree (syms : list Z) (child : tnode) (sym : Z -> Z) (k kv : Z) : tnode :=
  let d := common syms sym k in
  jump_opt (take d syms) (TBitmap (fun s =>
    if s =? sym (k + Z.of_nat d) then Some (TLeaf kv)
    else match syms !! d with
         | Some x => if s =? x then Some (jump_opt (drop (S d) syms) child) else None
         | None => None
         end)).

Fixpoint tinsert (m : gmap Z ct_kv) (n : tnode) (sym : Z -> Z) (k kv : Z) : tnode :=
  match n with
  | TLeaf old => split_leaf_tree old (kv_symbol m old) sym k kv
  | TJump syms child =>
      if follows syms sym k then TJump syms (tinsert m child sym (k + Z.of_nat (length syms)) kv)
      else split_jump_tree syms child sym k kv
  | TBitmap f =>
      TBitmap (fun s =>
        if s =? sym k then Some (match f s with Some c => tinsert m c sym (k + 1) kv | None => TLeaf kv end) else f s)
  end.

(** ** Two keys *)

Lemma num_symbols_inj n n' : num_symbols (Z.of_nat n) = num_symbols (Z.of_nat n') -> n = n'.
Proof. unfold num_symbols. intros H. zdiv. Qed.

(** Keys with the same symbols are the same. *)
Lemma symbols_equal_keys a b :
  bytes_ok a -> bytes_ok b ->
  (forall i, 0 <= i <= num_symbols (Z.of_nat (length a)) -> symbol_at a i = symbol_at b i) -> a = b.
Proof.
  intros Ha Hb Heq. set (na := num_symbols (Z.of_nat (length a))) in *. set (nb := num_symbols (Z.of_nat (length b))).
  assert (Hn : 0 <= na) by (unfold na, num_symbols; zdiv). assert (Hn' : 0 <= nb) by (unfold nb, num_symbols; zdiv).
  assert (Hba : nb <= na) by (apply (symbol_end_iff b na Hn); rewrite <- (Heq na) by lia; apply (symbol_end_iff a na Hn); fold na; lia).
  assert (Hab : na <= nb) by (apply (symbol_end_iff a nb Hn'); rewrite (Heq nb) by lia; apply (symbol_end_iff b nb Hn'); fold nb; lia).
  assert (El : length a = length b) by (apply num_symbols_inj; fold na nb; lia).
  rewrite <- (firstn_all a), <- (firstn_all b), <- El. apply bits_eq_bytes; [done|done|lia|lia|]. intros k Hk.
  apply (symbols_eq_bits a b na); [done|done|lia|fold na; lia|fold nb; lia|intros j Hj; apply Heq; lia|]. unfold na, num_symbols. zdiv.
Qed.

(** An END symbol at the same place, and the same symbols before it. *)
Lemma end_equal_keys a b i :
  bytes_ok a -> bytes_ok b -> 0 <= i -> symbol_at b i = SYMBOL_END ->
  (forall j, 0 <= j <= i -> symbol_at a j = symbol_at b j) -> a = b.
Proof.
  intros Ha Hb Hi He Heq. symmetry. apply symbols_equal_keys; [done|done|]. intros j Hj. symmetry. apply Heq.
  apply (symbol_end_iff b i Hi) in He. lia.
Qed.

Section shared.
Variables asym bsym : Z -> Z.

Lemma shared_spec fuel : forall k i x, shared fuel asym bsym k !! i = Some x -> asym (k + Z.of_nat i) = x /\ bsym (k + Z.of_nat i) = x.
Proof.
  induction fuel as [|fuel IH]; intros k i x Hi; [discriminate|]. cbn [shared] in Hi. destruct (Z.eqb_spec (asym k) (bsym k)) as [E|]; [|discriminate].
  destruct i as [|i]; [injection Hi as <-; rewrite Z.add_0_r; done|]. cbn in Hi. apply IH in Hi.
  now replace (k + Z.of_nat (S i)) with (k + 1 + Z.of_nat i) by lia.
Qed.

Lemma shared_length fuel : forall k, (length (shared fuel asym bsym k) <= fuel)%nat /\
  ((length (shared fuel asym bsym k) < fuel)%nat -> asym (k + Z.of_nat (length (shared fuel asym bsym k))) <> bsym (k + Z.of_nat (length (shared fuel asym bsym k)))).
Proof.
  induction fuel as [|fuel IH]; intros k; [split; [done|cbn; lia]|]. cbn [shared]. destruct (Z.eqb_spec (asym k) (bsym k)) as [E|E]; cbn [length].
  - destruct (IH (k + 1)) as [I1 I2]. split; [lia|]. intros Hl. specialize (I2 ltac:(lia)).
    now replace (k + Z.of_nat (S (length (shared fuel asym bsym (k + 1))))) with (k + 1 + Z.of_nat (length (shared fuel asym bsym (k + 1)))) by lia.
  - split; [lia|]. intros _. now rewrite Z.add_0_r.
Qed.

Lemma shared_follows fuel k : follows (shared fuel asym bsym k) bsym k = true.
Proof.
  revert k. induction fuel as [|fuel IH]; intros k; [done|]. cbn [shared]. destruct (Z.eqb_spec (asym k) (bsym k)) as [E|]; [|done].
  cbn [follows]. rewrite E, Z.eqb_refl. apply IH.
Qed.
End shared.

(** ** Where two different keys part *)

Section two_keys.
Variables a b : list Z.
Hypothesis a_ok : bytes_ok a.
Hypothesis b_ok : bytes_ok b.
Hypothesis b_short : num_symbols (Z.of_nat (length b)) <= 408.
Variable k : Z.
Hypothesis k_nonneg : 0 <= k.
Hypothesis before : forall i, 0 <= i < k -> symbol_at a i = symbol_at b i.
Hypothesis differ : a <> b.

Let l : list Z := shared SPLIT_ROUNDS (symbol_at a) (symbol_at b) k.
Let k' : Z := k + Z.of_nat (length l).

Lemma shared_equal i : 0 <= i < k' -> symbol_at a i = symbol_at b i.
Proof.
  intros Hi. unfold k' in Hi. destruct (decide (i < k)); [apply before; lia|].
  destruct (lookup_lt_is_Some_2 l (Z.to_nat (i - k)) ltac:(lia)) as [x Hx]. apply shared_spec in Hx as [E1 E2].
  replace (k + Z.of_nat (Z.to_nat (i - k))) with i in * by lia. congruence.
Qed.

Lemma shared_before_end i : 0 <= i < k' -> i < num_symbols (Z.of_nat (length b)).
Proof.
  intros Hi. destruct (decide (i < num_symbols (Z.of_nat (length b)))) as [|Hge]; [done|]. exfalso. apply differ.
  apply (end_equal_keys a b i); [done|done|lia|apply symbol_end_iff; lia|]. intros j Hj. apply shared_equal. lia.
Qed.

Lemma shared_symbols : Forall (fun s => 1 <= s <= 32) l.
Proof.
  apply Forall_lookup_2. intros i x Hi. pose proof (lookup_lt_Some _ _ _ Hi) as Hlt. pose proof (shared_spec _ _ _ _ _ _ Hi) as [_ <-].
  apply symbol_pos. split; [lia|]. apply shared_before_end. unfold k'. lia.
Qed.

Lemma shared_bound : k <= 408 -> k' <= 408.
Proof.
  intros Hk. unfold k'. destruct (decide (length l = 0%nat)); [lia|].
  pose proof (shared_before_end (k + Z.of_nat (length l) - 1) ltac:(unfold k'; lia)). lia.
Qed.

Lemma shared_differ : symbol_at a k' <> symbol_at b k'.
Proof.
  destruct (shared_length (symbol_at a) (symbol_at b) SPLIT_ROUNDS k) as [H1 H2]. apply H2. fold l in H1 |- *.
  destruct (decide (length l < SPLIT_ROUNDS)%nat) as [|Hge]; [done|]. exfalso.
  assert (E : Z.of_nat SPLIT_ROUNDS = 411) by reflexivity.
  pose proof (shared_before_end (k + 410) ltac:(unfold k'; lia)). lia.
Qed.
End two_keys.

(** ** Chains of jump nodes *)

Lemma chunks_nil fuel : chunks fuel [] = [].
Proof. now destruct fuel. Qed.

Lemma jump_chain_not_leaf cs n : is_leaf n = false -> is_leaf (jump_chain cs n) = false.
Proof. now destruct cs. Qed.

Lemma jump_opt_not_leaf syms n : is_leaf n = false -> is_leaf (jump_opt syms n) = false.
Proof. now destruct syms. Qed.

Lemma tinsert_not_leaf m n sym k kv : is_leaf (tinsert m n sym k kv) = false.
Proof.
  destruct n as [old|syms child|f]; cbn [tinsert]; [now apply jump_chain_not_leaf| |done].
  destruct (follows syms sym k); [done|now apply jump_opt_not_leaf].
Qed.

Lemma jump_chain_ok m n fuel : is_leaf n = false -> forall l pre,
  (length l <= fuel)%nat -> Forall (fun s => 1 <= s <= 32) l -> trie_ok m n (pre ++ l) -> trie_ok m (jump_chain (chunks fuel l) n) pre.
Proof.
  intros Hn. induction fuel as [|fuel IH]; intros l pre Hlen Hs Hok; destruct l as [|x l]; cbn [length] in Hlen; try lia; try (now rewrite app_nil_r in Hok).
  cbn [chunks jump_chain foldr trie_ok]. set (l0 := x :: l) in *. split; [|split].
  - rewrite length_take. unfold l0. cbn [length]. lia.
  - now apply Forall_take.
  - split; [|now apply jump_chain_not_leaf].
    apply IH; [rewrite length_drop; unfold l0; cbn [length]; lia|now apply Forall_drop|]. now rewrite <- app_assoc, take_drop.
Qed.

Lemma follows_app l l' sym k : follows (l ++ l') sym k = follows l sym k && follows l' sym (k + Z.of_nat (length l)).
Proof.
  revert k. induction l as [|x l IH]; intros k; cbn [app follows length]; [now rewrite Z.add_0_r|].
  rewrite IH, andb_assoc. do 2 f_equal. lia.
Qed.

Lemma jump_chain_search n sym fuel : forall l k, (length l <= fuel)%nat ->
  tsearch (jump_chain (chunks fuel l) n) sym k = if follows l sym k then tsearch n sym (k + Z.of_nat (length l)) else None.
Proof.
  induction fuel as [|fuel IH]; intros l k Hlen; (destruct l as [|x l]; [cbn; now rewrite Z.add_0_r|]); cbn [length] in Hlen; [lia|].
  cbn [chunks jump_chain foldr tsearch]. set (l0 := x :: l) in *. change (foldr TJump n (chunks fuel (drop 8 l0))) with (jump_chain (chunks fuel (drop 8 l0)) n).
  rewrite IH by (rewrite length_drop; unfold l0; cbn [length]; lia).
  assert (E : follows l0 sym k = follows (take 8 l0) sym k && follows (drop 8 l0) sym (k + Z.of_nat (length (take 8 l0))))
    by (rewrite <- follows_app; now rewrite take_drop).
  assert (El : length l0 = (length (take 8 l0) + length (drop 8 l0))%nat) by (rewrite <- length_app; now rewrite take_drop).
  rewrite E, El. destruct (follows (take 8 l0) sym k); [|done]. cbn [andb]. destruct (follows (drop 8 l0) sym _); [|done]. f_equal. lia.
Qed.

Lemma follows_fails l sym k : follows l sym k = false -> exists i x, l !! i = Some x /\ sym (k + Z.of_nat i) <> x.
Proof.
  revert k. induction l as [|x l IH]; intros k Hf; [discriminate|]. cbn [follows] in Hf. destruct (Z.eqb_spec x (sym k)) as [E|E].
  - destruct (IH (k + 1) Hf) as (i & y & Hi & Hy). exists (S i), y. split; [done|]. now replace (k + Z.of_nat (S i)) with (k + 1 + Z.of_nat i) by lia.
  - exists 0%nat, x. rewrite Z.add_0_r. split; [done|]. intros E2. now apply E.
Qed.

Lemma common_spec syms sym k :
  follows syms sym k = false ->
  exists x, syms !! common syms sym k = Some x /\ x <> sym (k + Z.of_nat (common syms sym k)) /\ follows (take (common syms sym k) syms) sym k = true.
Proof.
  revert k. induction syms as [|x syms IH]; intros k Hf; [discriminate|]. cbn [follows common] in *. destruct (Z.eqb_spec x (sym k)) as [E|E].
  - destruct (IH (k + 1) Hf) as (y & Hy & Hne & Hfol). exists y. split; [exact Hy|]. cbn [take follows]. rewrite E, Z.eqb_refl.
    split; [|exact Hfol]. now replace (k + Z.of_nat (S (common syms sym (k + 1)))) with (k + 1 + Z.of_nat (common syms sym (k + 1))) by lia.
  - exists x. rewrite Z.add_0_r. done.
Qed.

Lemma jump_opt_search syms n sym k :
  tsearch (jump_opt syms n) sym k = if follows syms sym k then tsearch n sym (k + Z.of_nat (length syms)) else None.
Proof. destruct syms; [cbn; now rewrite Z.add_0_r|reflexivity]. Qed.

Lemma jump_opt_ok m syms n pre : is_leaf n = false ->
  (length syms <= 8)%nat -> Forall (fun s => 1 <= s <= 32) syms -> trie_ok m n (pre ++ syms) -> trie_ok m (jump_opt syms n) pre.
Proof. destruct syms; cbn [jump_opt trie_ok length]; [now rewrite app_nil_r|]. intros. split; [lia|]. done. Qed.

(** ** The new trie *)

Section tinsert.
Variables (m : gmap Z ct_kv) (kv : Z) (o : ct_kv).
Hypothesis kv_at : m !! kv = Some o.
Hypothesis o_ok : kv_ok o.
Hypothesis o_short : key_size o <= 255.

Let bytes : list Z := kv_key o.
Let sym : Z -> Z := symbol_at bytes.

Lemma key_facts : bytes_ok bytes /\ num_symbols (Z.of_nat (length bytes)) <= 408.
Proof. split; [now apply kv_key_bytes_ok|]. apply num_symbols_short. unfold bytes. rewrite (length_kv_key o o_ok). pose proof o_ok as (? & _). lia. Qed.

(** The symbols of the path are those of the key. *)
Definition on_key (pre : list Z) : Prop := forall i s, pre !! i = Some s -> s = sym (Z.of_nat i).

Lemma on_key_snoc pre : on_key pre -> on_key (pre ++ [sym (Z.of_nat (length pre))]).
Proof.
  intros H i s Hs. apply lookup_snoc_Some in Hs as [[_ Hs]|[-> <-]]; [now apply H|done].
Qed.

Lemma on_key_app pre syms : on_key pre -> follows syms sym (Z.of_nat (length pre)) = true -> on_key (pre ++ syms).
Proof.
  revert pre. induction syms as [|x syms IH]; intros pre Hp Hf; [now rewrite app_nil_r|]. cbn [follows] in Hf.
  apply andb_true_iff in Hf as [Hx Hf]. apply Z.eqb_eq in Hx as ->. rewrite (cons_middle _ pre syms), app_assoc. apply IH; [now apply on_key_snoc|].
  rewrite length_app. cbn [length]. replace (Z.of_nat (length pre + 1)) with (Z.of_nat (length pre) + 1) by lia. exact Hf.
Qed.

Lemma new_leaf_ok pre : on_key pre -> leaf_ok m pre kv.
Proof. intros Hp. exists o. split; [exact kv_at|]. split; [exact o_ok|]. intros i s Hs. symmetry. exact (Hp i s Hs). Qed.

(** The key is not the one of the leaf at its place. *)
Definition absent (pl : place) : Prop :=
  match pl with at_leaf old _ => forall o', m !! old = Some o' -> kv_key o' <> bytes | _ => True end.

(** A leaf and the key: what they share. *)
Lemma leaf_differs pre old :
  leaf_ok m pre old -> on_key pre -> absent (at_leaf old (Z.of_nat (length pre))) ->
  exists o', m !! old = Some o' /\ bytes_ok (kv_key o') /\ kv_symbol m old = symbol_at (kv_key o') /\ kv_key o' <> bytes /\
    forall i, 0 <= i < Z.of_nat (length pre) -> symbol_at (kv_key o') i = sym i.
Proof.
  intros (o' & Ho' & Hok' & Hs) Hp Ha. exists o'. split; [done|]. split; [now apply kv_key_bytes_ok|]. unfold kv_symbol. rewrite Ho'.
  split; [done|]. split; [exact (Ha o' Ho')|]. intros i Hi. destruct (lookup_lt_is_Some_2 pre (Z.to_nat i) ltac:(lia)) as [x Hx].
  pose proof (Hs _ _ Hx) as E1. pose proof (Hp _ _ Hx) as E2. rewrite Z2Nat.id in E1, E2 by lia. congruence.
Qed.

Lemma split_leaf_ok pre old :
  leaf_ok m pre old -> on_key pre -> absent (at_leaf old (Z.of_nat (length pre))) ->
  trie_ok m (split_leaf_tree old (kv_symbol m old) sym (Z.of_nat (length pre)) kv) pre.
Proof.
  intros Hleaf Hp Ha. destruct key_facts as [Hb Hn]. destruct (leaf_differs pre old Hleaf Hp Ha) as (o' & Ho' & Hb' & -> & Hne & Hbef).
  set (k := Z.of_nat (length pre)) in *. unfold split_leaf_tree. set (l := shared SPLIT_ROUNDS (symbol_at (kv_key o')) sym k).
  pose proof (shared_symbols (kv_key o') bytes Hb' Hb k ltac:(lia) Hbef Hne) as Hsy.
  pose proof (shared_follows (symbol_at (kv_key o')) sym SPLIT_ROUNDS k) as Hfol. fold l in Hfol.
  assert (Hp' : on_key (pre ++ l)) by (apply on_key_app; [exact Hp|exact Hfol]).
  assert (Hl' : leaf_ok m (pre ++ l) old).
  { destruct Hleaf as (o2 & Ho2 & Hok2 & Hs2). rewrite Ho' in Ho2. injection Ho2 as <-. exists o'. split; [done|]. split; [done|]. intros i s Hi.
    rewrite (shared_equal (kv_key o') bytes k Hbef (Z.of_nat i)).
    - symmetry. exact (Hp' i s Hi).
    - pose proof (lookup_lt_Some _ _ _ Hi) as Hlt. rewrite length_app in Hlt. fold sym l. lia. }
  apply jump_chain_ok; [done|done|exact Hsy|]. cbn [two_leaves trie_ok]. intros s. replace (k + Z.of_nat (length l)) with (Z.of_nat (length (pre ++ l))) by (rewrite length_app; lia).
  destruct (Z.eqb_spec s (sym (Z.of_nat (length (pre ++ l))))) as [->|_].
  { split; [apply symbol_range|]. split; [|done]. apply new_leaf_ok. now apply on_key_snoc. }
  destruct (Z.eqb_spec s (symbol_at (kv_key o') (Z.of_nat (length (pre ++ l))))) as [->|_]; [|done].
  split; [apply symbol_range|]. split; [|done]. destruct Hl' as (o2 & Ho2 & Hok2 & Hs2). rewrite Ho' in Ho2. injection Ho2 as <-. exists o'.
  split; [done|]. split; [done|]. intros i s Hi. apply lookup_snoc_Some in Hi as [[_ Hi]|[-> <-]]; [now apply Hs2|done].
Qed.

Lemma split_jump_ok pre syms child :
  trie_ok m (TJump syms child) pre -> on_key pre -> follows syms sym (Z.of_nat (length pre)) = false ->
  trie_ok m (split_jump_tree syms child sym (Z.of_nat (length pre)) kv) pre.
Proof.
  intros (Hl & Hs & Hc & Hn) Hp Hf. destruct (common_spec _ _ _ Hf) as (x & Hx & Hne & Hfol). unfold split_jump_tree.
  set (d := common syms sym (Z.of_nat (length pre))) in *. pose proof (lookup_lt_Some _ _ _ Hx) as Hlt.
  assert (Hlen : length (take d syms) = d) by (rewrite length_take; lia).
  assert (Hp' : on_key (pre ++ take d syms)) by now apply on_key_app.
  apply jump_opt_ok; [done|lia|now apply Forall_take|]. cbn [trie_ok]. intros s. rewrite Hx.
  replace (Z.of_nat (length pre) + Z.of_nat d) with (Z.of_nat (length (pre ++ take d syms))) by (rewrite length_app, Hlen; lia).
  destruct (Z.eqb_spec s (sym (Z.of_nat (length (pre ++ take d syms))))) as [->|_].
  { split; [apply symbol_range|]. split; [|done]. apply new_leaf_ok. now apply on_key_snoc. }
  destruct (Z.eqb_spec s x) as [->|_]; [|done]. pose proof (Forall_lookup_1 _ _ _ _ Hs Hx) as Hxr. cbv beta in Hxr.
  split; [lia|]. split; [|unfold SYMBOL_END; lia].
  apply jump_opt_ok; [done|rewrite length_drop; lia|now apply Forall_drop|]. rewrite <- !app_assoc. cbn [app].
  now rewrite (take_drop_middle _ _ _ Hx).
Qed.

(** Well-formed tries. *)
Lemma tinsert_ok n : forall pre, trie_ok m n pre -> on_key pre -> absent (tplace n sym (Z.of_nat (length pre))) ->
  trie_ok m (tinsert m n sym (Z.of_nat (length pre)) kv) pre.
Proof.
  induction n as [old|syms child IH|f IH] using tnode_ind; intros pre Hok Hp Hd; [now apply split_leaf_ok| |].
  - cbn [tinsert tplace] in *. destruct (follows syms sym (Z.of_nat (length pre))) eqn:Ef; [|now apply split_jump_ok].
    destruct Hok as (Hl & Hs & Hc & _). split; [done|]. split; [done|]. split; [|apply tinsert_not_leaf]. rewrite <- Nat2Z.inj_add, <- length_app in Hd |- *.
    apply IH; [done| |exact Hd]. now apply on_key_app.
  - cbn [tinsert trie_ok]. intros s. destruct (Z.eqb_spec s (sym (Z.of_nat (length pre)))) as [->|_]; [|exact (Hok s)].
    specialize (Hok (sym (Z.of_nat (length pre)))). cbn [tplace] in Hd. pose proof (symbol_range bytes (Z.of_nat (length pre))) as Hr.
    split; [exact Hr|]. pose proof (on_key_snoc _ Hp) as Hp'.
    destruct (f (sym (Z.of_nat (length pre)))) as [c|] eqn:Ef.
    + destruct Hok as (_ & Hc & Hend). replace (Z.of_nat (length pre) + 1) with (Z.of_nat (length (pre ++ [sym (Z.of_nat (length pre))]))) in *
        by (rewrite length_app; cbn; lia). split; [now apply (IH _ _ Ef)|]. intros He. specialize (Hend He). destruct c as [old| |]; [|done|done]. exfalso.
      (* both keys end here *)
      destruct (leaf_differs _ old Hc Hp' Hd) as (o' & _ & Hb' & _ & Hne & Hbef). apply Hne.
      apply (end_equal_keys _ bytes (Z.of_nat (length pre))); [done|apply key_facts|lia|exact He|]. intros j Hj. apply Hbef. rewrite length_app. cbn. lia.
    + split; [now apply new_leaf_ok|done].
Qed.

(** Searches: the key's own, and those of other keys. *)
Lemma tinsert_search_own n : forall pre, trie_ok m n pre -> on_key pre -> absent (tplace n sym (Z.of_nat (length pre))) ->
  exists b, tsearch (tinsert m n sym (Z.of_nat (length pre)) kv) sym (Z.of_nat (length pre)) = Some (kv, b).
Proof.
  induction n as [old|syms child IH|f IH] using tnode_ind; intros pre Hok Hp Hd; cbn [tinsert tplace] in *.
  - unfold split_leaf_tree. rewrite jump_chain_search by done.
    rewrite shared_follows. cbn [two_leaves tsearch]. rewrite Z.eqb_refl. destruct (_ =? _); eauto.
  - destruct (follows syms sym (Z.of_nat (length pre))) eqn:Ef.
    + destruct Hok as (_ & _ & Hc & _). cbn [tsearch]. rewrite Ef. pose proof (on_key_app _ _ Hp Ef) as Hp'. rewrite <- Nat2Z.inj_add, <- length_app in *. now apply IH.
    + destruct (common_spec _ _ _ Ef) as (x & Hx & Hne & Hfol). pose proof (lookup_lt_Some _ _ _ Hx) as Hlt. unfold split_jump_tree.
      rewrite jump_opt_search, Hfol. replace (length (take _ syms)) with (common syms sym (Z.of_nat (length pre))) by (rewrite length_take; lia).
      cbn [tsearch]. rewrite Z.eqb_refl. destruct (_ =? _); cbn [tsearch]; eauto.
  - cbn [tsearch]. rewrite Z.eqb_refl. specialize (Hok (sym (Z.of_nat (length pre)))). pose proof (on_key_snoc _ Hp) as Hp'.
    replace (Z.of_nat (length pre) + 1) with (Z.of_nat (length (pre ++ [sym (Z.of_nat (length pre))]))) in * by (rewrite length_app; cbn; lia).
    destruct (f (sym (Z.of_nat (length pre)))) as [c|] eqn:Ef.
    + destruct Hok as (_ & Hc & Hend). destruct (Z.eqb_spec (sym (Z.of_nat (length pre))) SYMBOL_END) as [He|He].
      * specialize (Hend He). destruct c as [old| |]; [|done|done]. exfalso.
        destruct (leaf_differs _ old Hc Hp' Hd) as (o' & _ & Hb' & _ & Hne & Hbef). apply Hne.
        apply (end_equal_keys _ bytes (Z.of_nat (length pre))); [done|apply key_facts|lia|exact He|]. intros j Hj. apply Hbef. rewrite length_app. cbn. lia.
      * now apply (IH _ _ Ef).
    + destruct (_ =? SYMBOL_END); cbn [tsearch]; eauto.
Qed.

(** The leaf another key meets: the same, the new one, or none; where it is
    not the same, the old one has another key. *)
Definition same_search (sym' : Z -> Z) (r r' : option (Z * bool)) : Prop :=
  option_map fst r' = option_map fst r \/
  ((r' = None \/ exists b, r' = Some (kv, b)) /\ forall old b, r = Some (old, b) -> exists i, kv_symbol m old i <> sym' i).

Lemma split_leaf_search pre old sym' :
  leaf_ok m pre old -> on_key pre -> absent (at_leaf old (Z.of_nat (length pre))) ->
  same_search sym' (Some (old, false)) (tsearch (split_leaf_tree old (kv_symbol m old) sym (Z.of_nat (length pre)) kv) sym' (Z.of_nat (length pre))).
Proof.
  intros Hleaf Hp Ha. destruct key_facts as [Hb Hn]. destruct (leaf_differs pre old Hleaf Hp Ha) as (o' & Ho' & Hb' & Ek & Hne & Hbef).
  pose proof (shared_differ (kv_key o') bytes Hb' Hb Hn (Z.of_nat (length pre)) ltac:(lia) Hbef Hne) as Hd.
  unfold split_leaf_tree. set (k := Z.of_nat (length pre)) in *. set (l := shared SPLIT_ROUNDS (kv_symbol m old) sym k) in *.
  set (k' := k + Z.of_nat (length l)) in *. rewrite jump_chain_search by done. fold k'.
  assert (Hd' : kv_symbol m old k' <> sym k') by (unfold k', l; rewrite Ek; exact Hd). clear Hd.
  assert (Hother : forall i, kv_symbol m old i <> sym' i -> forall r, (r = None \/ exists b, r = Some (kv, b)) -> same_search sym' (Some (old, false)) r).
  { intros i Hi r Hr. right. split; [exact Hr|]. intros old' b [= <- <-]. now exists i. }
  destruct (follows l sym' k) eqn:Ef.
  - cbn [two_leaves tsearch]. destruct (Z.eqb_spec (sym' k') (sym k')) as [E|E].
    + apply (Hother k'); [congruence|]. right. destruct (_ =? _); cbn [tsearch]; eauto.
    + destruct (Z.eqb_spec (sym' k') (kv_symbol m old k')) as [E2|E2].
      * left. destruct (_ =? _); reflexivity.
      * apply (Hother k'); [congruence|now left].
  - destruct (follows_fails _ _ _ Ef) as (i & x & Hi & Hne'). apply shared_spec in Hi as [E1 _].
    apply (Hother (k + Z.of_nat i)); [rewrite E1; intros E; now apply Hne'|now left].
Qed.

Lemma same_search_refl sym' r : same_search sym' r r.
Proof. now left. Qed.

Lemma split_jump_search syms child k sym' :
  Forall (fun s => 1 <= s <= 32) syms -> follows syms sym k = false ->
  same_search sym' (tsearch (TJump syms child) sym' k) (tsearch (split_jump_tree syms child sym k kv) sym' k).
Proof.
  intros Hs Hf. destruct (common_spec _ _ _ Hf) as (x & Hx & Hne & Hfol). unfold split_jump_tree. set (d := common syms sym k) in *.
  pose proof (lookup_lt_Some _ _ _ Hx) as Hlt. assert (Hlen : length (take d syms) = d) by (rewrite length_take; lia).
  pose proof (Forall_lookup_1 _ _ _ _ Hs Hx) as Hxr. cbv beta in Hxr. set (k' := k + Z.of_nat d) in *.
  assert (Ef : follows syms sym' k = follows (take d syms) sym' k && ((x =? sym' k') && follows (drop (S d) syms) sym' (k' + 1))).
  { rewrite <- (take_drop_middle _ _ _ Hx) at 1. rewrite follows_app, Hlen. reflexivity. }
  cbn [tsearch]. rewrite jump_opt_search, Hlen, Hx, Ef. fold k'. destruct (follows (take d syms) sym' k); [|apply same_search_refl]. cbn [andb tsearch].
  destruct (Z.eqb_spec (sym' k') (sym k')) as [E|E].
  - destruct (Z.eqb_spec x (sym' k')) as [E2|_]; [congruence|]. right. split; [right; destruct (_ =? _); cbn [tsearch]; eauto|]. discriminate.
  - destruct (Z.eqb_spec (sym' k') x) as [E2|E2].
    + rewrite E2, Z.eqb_refl. cbn [andb]. destruct (Z.eqb_spec x SYMBOL_END); [unfold SYMBOL_END in *; lia|]. rewrite jump_opt_search.
      destruct (follows (drop (S d) syms) sym' (k' + 1)); [|apply same_search_refl]. rewrite length_drop.
      replace (k' + 1 + Z.of_nat (length syms - S d)) with (k + Z.of_nat (length syms)) by (unfold k'; lia). apply same_search_refl.
    + destruct (Z.eqb_spec x (sym' k')); [congruence|]. apply same_search_refl.
Qed.

Lemma tinsert_search n sym' : forall pre, trie_ok m n pre -> on_key pre -> absent (tplace n sym (Z.of_nat (length pre))) ->
  same_search sym' (tsearch n sym' (Z.of_nat (length pre))) (tsearch (tinsert m n sym (Z.of_nat (length pre)) kv) sym' (Z.of_nat (length pre))).
Proof.
  induction n as [old|syms child IH|f IH] using tnode_ind; intros pre Hok Hp Hd; cbn [tinsert tplace] in *; [now apply split_leaf_search| |].
  - destruct Hok as (Hl & Hs & Hc). destruct (follows syms sym (Z.of_nat (length pre))) eqn:Ef; [|now apply split_jump_search].
    cbn [tsearch]. destruct (follows syms sym' _); [|apply same_search_refl]. pose proof (on_key_app _ _ Hp Ef) as Hp'.
    rewrite <- Nat2Z.inj_add, <- length_app in *. now apply IH.
  - cbn [tsearch]. destruct (Z.eqb_spec (sym' (Z.of_nat (length pre))) (sym (Z.of_nat (length pre)))) as [Es|_]; [|apply same_search_refl].
    rewrite Es. specialize (Hok (sym (Z.of_nat (length pre)))). pose proof (on_key_snoc _ Hp) as Hp'.
    replace (Z.of_nat (length pre) + 1) with (Z.of_nat (length (pre ++ [sym (Z.of_nat (length pre))]))) in * by (rewrite length_app; cbn; lia).
    destruct (f (sym (Z.of_nat (length pre)))) as [c|] eqn:Ef.
    + destruct Hok as (_ & Hc & Hend). destruct (Z.eqb_spec (sym (Z.of_nat (length pre))) SYMBOL_END) as [He|He]; [|now apply (IH _ _ Ef)].
      specialize (Hend He). destruct c as [old| |]; [|done|done]. exfalso.
      destruct (leaf_differs _ old Hc Hp' Hd) as (o' & _ & Hb' & _ & Hne & Hbef). apply Hne.
      apply (end_equal_keys _ bytes (Z.of_nat (length pre))); [done|apply key_facts|lia|exact He|]. intros j Hj. apply Hbef. rewrite length_app. cbn. lia.
    + right. split; [right; destruct (_ =? SYMBOL_END); cbn [tsearch]; eauto|]. discriminate.
Qed.

(** The dictionary after the insertion. *)
Lemma tinsert_lookup n b :
  trie_ok m n [] -> absent (tplace n sym 0) ->
  tlookup m (tinsert m n sym 0 kv) b = if decide (b = bytes) then Some kv else tlookup m n b.
Proof.
  intros Hok Hd. assert (Hp : on_key []) by (intros i s Hi; discriminate). unfold tlookup. destruct (decide (b = bytes)) as [->|Hb].
  - destruct (tinsert_search_own n [] Hok Hp Hd) as (b & E). cbn [length] in E. change (Z.of_nat 0) with 0 in E. fold sym. rewrite E, kv_at.
    now rewrite bool_decide_true.
  - destruct (tinsert_search n (symbol_at b) [] Hok Hp Hd) as [E|[Hr Hold]]; cbn [length] in *; change (Z.of_nat 0) with 0 in *.
    + destruct (tsearch (tinsert _ _ _ _ _) _ 0) as [[x1 e1]|], (tsearch n _ 0) as [[x2 e2]|]; cbn in E; try discriminate E; [|done].
      now injection E as ->.
    + assert (Hnone : match tsearch n (symbol_at b) 0 with
        | Some (kv0, _) => match m !! kv0 with Some o => if bool_decide (kv_key o = b) then Some kv0 else None | None => None end
        | None => None end = None).
      { destruct (tsearch n (symbol_at b) 0) as [[old e]|]; [|done]. destruct (Hold old e eq_refl) as (i & Hi). unfold kv_symbol in Hi.
        destruct (m !! old) as [o'|]; [|done]. rewrite bool_decide_false; [done|]. intros <-. done. }
      rewrite Hnone. destruct Hr as [->|(c & ->)]; [done|]. rewrite kv_at, bool_decide_false; [done|]. intros E. now apply Hb.
Qed.

(** A key that is not found is not at its place. *)
Lemma absent_lookup n : trie_ok m n [] -> tlookup m n bytes = None -> absent (tplace n sym 0).
Proof.
  intros Hok Hl. enough (H : forall n k, (exists pre, trie_ok m n pre /\ k = Z.of_nat (length pre)) ->
    match tplace n sym k with at_leaf old _ => exists b, tsearch n sym k = Some (old, b) | _ => True end).
  { specialize (H n 0 (ex_intro _ [] (conj Hok eq_refl))). destruct (tplace n sym 0) as [old j| |]; [|done..]. destruct H as (b & E). intros o' Ho' Ek.
    unfold tlookup in Hl. fold sym in Hl. rewrite E, Ho', bool_decide_true in Hl by done. discriminate. }
  clear. intros n. induction n as [old|syms child IH|f IH] using tnode_ind; intros k (pre & Hok & ->); cbn [tplace tsearch]; [eauto| |].
  - destruct (follows syms sym _); [|done]. apply IH. exists (pre ++ syms). split; [apply Hok|]. rewrite length_app. lia.
  - specialize (Hok (sym (Z.of_nat (length pre)))). destruct (f (sym (Z.of_nat (length pre)))) as [c|] eqn:Ef; [|done].
    destruct Hok as (_ & Hc & Hend). destruct (Z.eqb_spec (sym (Z.of_nat (length pre))) SYMBOL_END) as [He|He].
    + specialize (Hend He). destruct c as [old| |]; [|done|done]. cbn [tplace]. eauto.
    + apply (IH _ _ Ef). exists (pre ++ [sym (Z.of_nat (length pre))]). split; [exact Hc|]. rewrite length_app. cbn. lia.
Qed.
End tinsert.
