(* ===== verification/SplitPath.v ===== *)
(** * The path a leaf is split into (main.c: split_leaf, the loop over the
    common part of the keys)

    [split_leaf_path] builds the jump nodes of the symbols that the two keys
    share, eight to a node, and a bitmap node below. *)

From S2P Require Import Prelude Bits Entry KeyObject State Hashing Symbols Atomics Table Contents Store Locks Cells Search Relocate AddEntry Finger Insert Api Lookup Order Linked Spine Place Dictionary Fields Nodes TreeInsert.
From stdpp Require Import base list gmap.
From Stdlib Require Import ZArith Lia Bool.

#[local] Open Scope Z_scope.

Lemma get_key_symbol_eq o i : kv_ok o -> 0 <= i -> get_key_symbol o i = symbol_at (kv_key o) i.
Proof.
  intros Ho Hi. pose proof Ho as (K1 & K2 & K3 & K4). unfold get_key_symbol, symbol_at. rewrite kv_key_size_eq by done.
  pose proof (length_kv_key o Ho) as El. rewrite El. unfold kv_key_bytes, kv_key.
  replace (key_size o) with (Z.of_nat (Z.to_nat (key_size o))) by lia. rewrite Nat2Z.id. apply get_string_symbol_take; lia.
Qed.

(** The number of jump nodes for [n] symbols. *)
Definition jump_count (n : nat) : nat := ((n + 7) / 8)%nat.
#[global] Arguments jump_count : simpl never.

Lemma jump_count_spec n : (n <= 8 * jump_count n < n + 8)%nat.
Proof. unfold jump_count. pose proof (Nat.div_mod_eq (n + 7) 8). pose proof (Nat.mod_upper_bound (n + 7) 8). lia. Qed.

(** Another symbol: a new node, or one more in the last node. *)
Lemma jump_count_succ n :
  if decide (8 * jump_count n = n)%nat then jump_count (S n) = S (jump_count n) else jump_count (S n) = jump_count n.
Proof. pose proof (jump_count_spec n). pose proof (jump_count_spec (S n)). case_decide; lia. Qed.

Definition piece (j : nat) (l : list Z) : list Z := take 8 (drop (8 * j) l).

Lemma piece_app_before j l x : (8 * j + 8 <= length l)%nat -> piece j (l ++ [x]) = piece j l.
Proof. intros Hj. unfold piece. rewrite drop_app_le by lia. apply take_app_le. rewrite length_drop. lia. Qed.

Lemma piece_app_last j l x : (8 * j <= length l < 8 * j + 8)%nat -> piece j (l ++ [x]) = piece j l ++ [x].
Proof.
  intros Hj. unfold piece. rewrite drop_app_le by lia. rewrite (take_ge (drop _ l)) by (rewrite length_drop; lia).
  apply take_ge. rewrite length_app, length_drop. cbn. lia.
Qed.

Lemma length_piece j l : length (piece j l) = Nat.min 8 (length l - 8 * j).
Proof. unfold piece. now rewrite length_take, length_drop. Qed.

(** ** The nodes for a list of symbols *)

Section path.
Context `{BucketOps} `{env : Env}.
Variables (t : cuckoo_trie) (ls h k : Z).
Hypothesis garbage_ok : entry_ok garbage_entry.

(** Jump nodes for the symbols [l], of which the first has the symbol [ls]. *)
Record built (l : list Z) (nodes : list path_node) : Prop := mk_built {
  bl_length : length nodes = jump_count (length l);
  bl_nodes : forall j e hj, nodes !! j = Some (e, hj) ->
    (exists y, (j = 0%nat -> y = ls) /\ jump_fields y (piece j l) e) /\ plain_header e /\ hj = accumulate_list t h (take (8 * j) l);
}.

Lemma built_nil : built [] [].
Proof. split; [done|]. intros j e hj Hj. discriminate. Qed.

(** The last node takes another symbol. *)
Lemma built_extend l nodes x : built l nodes -> (8 * jump_count (length l) <> length l)%nat -> 1 <= x <= 32 ->
  built (l ++ [x]) (update_last (extend_jump_node x) nodes).
Proof.
  intros [B1 B2] Hne Hx. pose proof (jump_count_spec (length l)) as Hc. pose proof (jump_count_succ (length l)) as Hs.
  rewrite decide_False in Hs by exact Hne. split.
  - unfold update_last. rewrite length_alter, B1, length_app. cbn [length]. rewrite Nat.add_1_r. now symmetry.
  - intros j e hj Hj. unfold update_last in Hj. rewrite list_lookup_alter in Hj. rewrite B1 in Hj.
    destruct (decide (jump_count (length l) - 1 = j)%nat) as [<-|Hjne].
    + apply fmap_Some in Hj as ([e0 h0] & E0 & Hj). injection Hj as -> ->.
      destruct (B2 _ _ _ E0) as ((y & Hy & Hf) & Hfr & Hh).
      assert (Hp : (8 * (jump_count (length l) - 1) <= length l < 8 * (jump_count (length l) - 1) + 8)%nat) by lia.
      destruct (extended_jump_fields y _ x e0 Hf) as [Hf' Hb]; [rewrite length_piece; lia|done|].
      split; [|split].
      * exists y. rewrite piece_app_last by exact Hp. done.
      * apply (plain_flags e0); [|exact Hfr]. apply Hb. lia.
      * rewrite Hh. now rewrite take_app_le by lia.
    + assert (Hlt : (j < jump_count (length l))%nat) by (rewrite <- B1; eapply lookup_lt_Some; exact Hj).
      destruct (B2 _ _ _ Hj) as ((y & Hy & Hf) & Hfr & Hh). split; [|split; [exact Hfr|]].
      * exists y. rewrite piece_app_before by lia. done.
      * rewrite Hh. now rewrite take_app_le by lia.
Qed.

(** A new node, without symbols yet, and its first symbol. *)
Lemma built_push l nodes x y : built l nodes -> (8 * jump_count (length l) = length l)%nat -> 1 <= x <= 32 -> 0 <= y <= 32 -> (l = [] -> y = ls) ->
  built (l ++ [x]) (update_last (extend_jump_node x) (nodes ++ [(new_jump_node y (accumulate_list t h l), accumulate_list t h l)])).
Proof.
  intros [B1 B2] He Hx Hy Hls. pose proof (jump_count_spec (length l)) as Hc. pose proof (jump_count_succ (length l)) as Hs.
  rewrite decide_True in Hs by exact He. destruct (new_jump_fields garbage_ok y (accumulate_list t h l) Hy) as [Hf Hfr].
  destruct (extended_jump_fields y [] x _ Hf ltac:(cbn; lia) Hx) as [Hf' Hb]. split.
  - unfold update_last. rewrite length_alter, !length_app, B1. cbn [length]. rewrite !Nat.add_1_r. now symmetry.
  - intros j e hj Hj. unfold update_last in Hj. rewrite list_lookup_alter in Hj. rewrite length_app, B1 in Hj. cbn [length] in Hj.
    replace (jump_count (length l) + 1 - 1)%nat with (jump_count (length l)) in Hj by lia.
    destruct (decide (jump_count (length l) = j)%nat) as [<-|Hjne].
    + apply fmap_Some in Hj as ([e0 h0] & E0 & Hj). injection Hj as -> ->.
      rewrite lookup_app_r in E0 by (unfold path_node, ct_entry in *; lia). replace (_ - _)%nat with 0%nat in E0 by (unfold path_node, ct_entry in *; lia). injection E0 as <- <-. split; [|split].
      * exists y. split; [|rewrite piece_app_last by lia; unfold piece; rewrite drop_ge by lia; exact Hf'].
        intros E0. apply Hls. rewrite E0 in He. destruct l; [done|cbn in He; lia].
      * apply (plain_flags (new_jump_node y (accumulate_list t h l))); [|exact Hfr]. apply Hb. lia.
      * rewrite He, take_app_length. done.
    + assert (Hlt : (j < jump_count (length l))%nat).
      { pose proof (lookup_lt_Some _ _ _ Hj) as Hlt. rewrite length_app, B1 in Hlt. cbn in Hlt. lia. }
      rewrite lookup_app_l in Hj by (unfold path_node, ct_entry in *; lia). destruct (B2 _ _ _ Hj) as ((z & Hz & Hfz) & Hfrz & Hhz). split; [|split; [exact Hfrz|]].
      * exists z. rewrite piece_app_before by lia. done.
      * rewrite Hhz. now rewrite take_app_le by lia.
Qed.

(** ** The loop *)

Variables existing new : ct_kv.
Let asym : Z -> Z := symbol_at (kv_key existing).
Let bsym : Z -> Z := symbol_at (kv_key new).
Hypothesis existing_ok : kv_ok existing.
Hypothesis new_ok : kv_ok new.
Hypothesis k_nonneg : 0 <= k.

(** The state of the loop after the symbols [l]. *)
Record reached (l : list Z) (sp : split_path) : Prop := mk_reached {
  re_built : built l (sp_nodes sp);
  re_symbol : 0 <= sp_last_symbol sp <= 32 /\ (l = [] -> sp_last_symbol sp = ls);
  re_hash : sp_hash sp = accumulate_list t h l;
  re_len : sp_len sp = k + Z.of_nat (length l);
}.

Definition split_body : split_path -> MS (split_path + split_path * Z * Z) :=
  fun sp =>
    let es := get_key_symbol existing (sp_len sp) in
    let ns := get_key_symbol new (sp_len sp) in
    if negb (es =? ns) then mret (inr (sp, es, ns))
    else
      t ← get_trie;
      nodes ←
        (match last (sp_nodes sp) with
         | Some (e, _) =>
             if entry_jump_size e =? MAX_JUMP_SYMBOLS
             then push_node (sp_nodes sp) (new_jump_node (sp_last_symbol sp) (sp_hash sp), sp_hash sp)
             else mret (sp_nodes sp)
         | None => push_node (sp_nodes sp) (new_jump_node (sp_last_symbol sp) (sp_hash sp), sp_hash sp)
         end);
      _ ← assert (negb (ns =? SYMBOL_END));
      mret (inl (mk_split_path (update_last (extend_jump_node ns) nodes) es
                   (accumulate_hash t (sp_hash sp) es) (sp_len sp + 1))).

Lemma push_node_eq nodes n s : (length nodes < MAX_PATH_NODES)%nat -> push_node nodes n s = Ret (nodes ++ [n]) s.
Proof. intros Hl. unfold push_node. erewrite bind_Ret by (apply assert_true; now apply Nat.ltb_lt). reflexivity. Qed.

(** The size of the last node says whether it is full. *)
Lemma last_node l nodes : built l nodes ->
  match last nodes with
  | Some (e, _) => (entry_jump_size e =? MAX_JUMP_SYMBOLS) = bool_decide (8 * jump_count (length l) = length l)%nat
  | None => (8 * jump_count (length l) = length l)%nat
  end.
Proof.
  intros [B1 B2]. pose proof (jump_count_spec (length l)) as Hc. rewrite last_lookup, B1. destruct (nodes !! _) as [[e he]|] eqn:E.
  - destruct (B2 _ _ _ E) as ((y & _ & Hf) & _). rewrite (jf_size _ _ _ Hf), length_piece.
    pose proof (lookup_lt_Some _ _ _ E) as Hlt. rewrite B1 in Hlt. unfold MAX_JUMP_SYMBOLS.
    destruct (Z.eqb_spec (Z.of_nat (Nat.min 8 (length l - 8 * Nat.pred (jump_count (length l))))) 8); symmetry;
      [apply bool_decide_eq_true|apply bool_decide_eq_false]; lia.
  - apply lookup_ge_None in E. rewrite B1 in E. lia.
Qed.

Lemma split_round s l sp x :
  trie s = t -> reached l sp -> (length l <= 408)%nat -> 1 <= x <= 32 ->
  asym (k + Z.of_nat (length l)) = x -> bsym (k + Z.of_nat (length l)) = x ->
  exists sp', split_body sp s = Ret (inl sp') s /\ reached (l ++ [x]) sp'.
Proof.
  intros Hs [R1 [R2 R3] R4 R5] Hlen Hx Ea Eb. pose proof (jump_count_spec (length l)) as Hc. unfold split_body.
  rewrite !get_key_symbol_eq by (done || lia). rewrite R5. fold asym bsym. rewrite Ea, Eb, Z.eqb_refl. cbn [negb].
  unfold get_trie. erewrite bind_Ret by reflexivity. rewrite Hs.
  pose proof (last_node l _ R1) as Hlast. pose proof (bl_length _ _ R1) as Hl.
  assert (HM : (MAX_PATH_NODES = 52)%nat) by reflexivity.
  set (pushed := sp_nodes sp ++ [(new_jump_node (sp_last_symbol sp) (sp_hash sp), sp_hash sp)]).
  assert (Hnodes : exists nodes, (match last (sp_nodes sp) with
         | Some (e, _) =>
             if entry_jump_size e =? MAX_JUMP_SYMBOLS
             then push_node (sp_nodes sp) (new_jump_node (sp_last_symbol sp) (sp_hash sp), sp_hash sp)
             else mret (sp_nodes sp)
         | None => push_node (sp_nodes sp) (new_jump_node (sp_last_symbol sp) (sp_hash sp), sp_hash sp)
         end) s = Ret nodes s /\ built (l ++ [x]) (update_last (extend_jump_node x) nodes)).
  { assert (Hpush : (8 * jump_count (length l) = length l)%nat -> built (l ++ [x]) (update_last (extend_jump_node x) pushed)).
    { intros He. unfold pushed. rewrite R4. now apply built_push. }
    destruct (last (sp_nodes sp)) as [[e he]|].
    - rewrite Hlast. case_bool_decide as He; [|exists (sp_nodes sp); split; [reflexivity|now apply built_extend]].
      exists pushed. split; [apply push_node_eq; lia|now apply Hpush].
    - exists pushed. split; [apply push_node_eq; lia|now apply Hpush]. }
  destruct Hnodes as (nodes & En & Hb). erewrite bind_Ret by exact En.
  assert (Hne : negb (x =? SYMBOL_END) = true) by (apply negb_true_iff, Z.eqb_neq; unfold SYMBOL_END; lia).
  erewrite bind_Ret by (apply assert_true; exact Hne). eexists. split; [reflexivity|]. split; cbn [sp_nodes sp_last_symbol sp_hash sp_len].
  - exact Hb.
  - split; [lia|]. intros E. now destruct l.
  - rewrite R4. unfold accumulate_list. now rewrite fold_left_app.
  - rewrite length_app. cbn [length]. lia.
Qed.

Lemma split_rounds s rest : trie s = t -> forall l sp fuel,
  reached l sp -> (length (l ++ rest) <= 408)%nat -> (length rest < fuel)%nat -> Forall (fun x => 1 <= x <= 32) rest ->
  (forall i x, rest !! i = Some x -> asym (k + Z.of_nat (length l) + Z.of_nat i) = x /\ bsym (k + Z.of_nat (length l) + Z.of_nat i) = x) ->
  asym (k + Z.of_nat (length (l ++ rest))) <> bsym (k + Z.of_nat (length (l ++ rest))) ->
  exists sp', loop fuel split_body sp s = Ret (sp', asym (k + Z.of_nat (length (l ++ rest))), bsym (k + Z.of_nat (length (l ++ rest)))) s /\
    reached (l ++ rest) sp'.
Proof.
  intros Hs. induction rest as [|x rest IH]; intros l sp fuel Hr Hlen Hfuel Hsy Heq Hne; (destruct fuel as [|fuel]; [lia|]).
  - rewrite app_nil_r in *. exists sp. split; [|exact Hr]. apply loop_inr. unfold split_body.
    rewrite !get_key_symbol_eq by (done || (rewrite (re_len _ _ Hr); lia)). rewrite (re_len _ _ Hr). fold asym bsym.
    apply Z.eqb_neq in Hne. rewrite Hne. reflexivity.
  - apply Forall_cons in Hsy as [Hx Hsy]. destruct (Heq 0%nat x eq_refl) as [Ea Eb]. rewrite Z.add_0_r in Ea, Eb.
    destruct (split_round s l sp x Hs Hr) as (sp1 & E1 & Hr1); [rewrite length_app in Hlen; cbn in Hlen; lia|done..|].
    rewrite cons_middle, app_assoc in Hlen, Hne |- *. destruct (IH (l ++ [x]) sp1 fuel Hr1) as (sp' & E2 & Hr2);
      [done|cbn [length] in Hfuel; lia|exact Hsy| |exact Hne|].
    + intros i y Hi. destruct (Heq (S i) y Hi) as [H1 H2]. rewrite length_app. cbn [length].
      replace (k + Z.of_nat (length l + 1) + Z.of_nat i) with (k + Z.of_nat (length l) + Z.of_nat (S i)) by lia. done.
    + exists sp'. split; [|exact Hr2]. rewrite (loop_inl _ _ _ _ _ _ E1). exact E2.
Qed.

(** ** The whole path *)

(** The header of node [j]: the first one has that of the leaf. *)
Definition node_header (leaf : ct_entry) (j : nat) (e : ct_entry) : Prop :=
  if decide (j = 0%nat) then same_tags leaf e /\ entry_dirty e = false /\ entry_parent_color e = entry_parent_color leaf
  else plain_header e.

Section nodes.
Variables (l : list Z) (leaf : ct_entry).
Hypothesis leaf_ok : entry_ok leaf.
Hypothesis leaf_used : used leaf = true.

Let m : nat := jump_count (length l).

(** Jump nodes and a bitmap node, which has no children yet. *)
Record path_made (nodes : list path_node) : Prop := mk_path_made {
  pm_length : length nodes = S m;
  pm_nodes : forall j e hj, nodes !! j = Some (e, hj) ->
    (exists y, (j = 0%nat -> y = ls) /\ if decide (j < m)%nat then jump_fields y (piece j l) e else blank_fields y e) /\
    node_header leaf j e /\ hj = accumulate_list t h (take (8 * j) l);
}.

(** The first node becomes the head; the others stay as they are. *)
Lemma path_from_built nodes y : built l nodes -> 0 <= y <= 32 -> (l = [] -> y = ls) ->
  path_made (alter_head (become_head leaf) (nodes ++ [(new_bitmap_node y, accumulate_list t h l)])).
Proof.
  intros [B1 B2] Hy Hls. pose proof (jump_count_spec (length l)) as Hc. fold m in B1, Hc. destruct (new_bitmap_fields garbage_ok y Hy) as [Hf Hfr]. split.
  - unfold alter_head. rewrite length_alter, length_app, B1. cbn [length]. lia.
  - assert (Hall : forall j e hj, (nodes ++ [(new_bitmap_node y, accumulate_list t h l)]) !! j = Some (e, hj) ->
      (exists z, (j = 0%nat -> z = ls) /\ if decide (j < m)%nat then jump_fields z (piece j l) e else blank_fields z e) /\
      plain_header e /\ hj = accumulate_list t h (take (8 * j) l)).
    { intros j e hj Hj. destruct (decide (j < m)%nat) as [Hlt|Hge].
      - rewrite lookup_app_l in Hj by (unfold path_node, ct_entry in *; lia). destruct (B2 _ _ _ Hj) as ((z & Hz & Hfz) & Hfrz & Hhz). eauto.
      - rewrite lookup_app_r in Hj by (unfold path_node, ct_entry in *; lia).
        apply list_lookup_singleton_Some in Hj as [Hj E]. injection E as <- <-.
        assert (j = m) as -> by (unfold path_node, ct_entry in *; lia). split; [|split; [exact Hfr|]].
        + exists y. split; [|exact Hf]. intros E0. apply Hls. destruct l; [done|cbn [length] in Hc; lia].
        + now rewrite take_ge by lia. }
    intros j e hj Hj. unfold alter_head in Hj. rewrite list_lookup_alter in Hj. unfold node_header.
    destruct (decide (0%nat = j)) as [<-|Hne].
    + apply fmap_Some in Hj as ([e0 h0] & E0 & Hj). injection Hj as -> ->. destruct (Hall _ _ _ E0) as ((z & Hz & Hfz) & Hfrz & Hhz).
      rewrite decide_True by done.
      assert (Hok : entry_ok e0 /\ used e0 = true).
      { destruct (decide _); [split; [apply Hfz|exact (jump_is_used _ _ _ Hfz)]|split; [apply Hfz|exact (blank_is_used _ _ Hfz)]]. }
      destruct (head_fields leaf e0 leaf_ok (proj1 Hok) Hfrz leaf_used (proj2 Hok)) as (Hb & Ht & Hd).
      split; [|split; [done|exact Hhz]]. exists z. split; [exact Hz|]. destruct (decide (0 < m)%nat).
      * apply (jump_fields_body z _ e0); [exact Hfz|now apply (same_body_le ENTRY_BYTES); [entry_lia|]|].
        unfold entry_jump_size, child_color_and_jump_size. now rewrite (sb_bytes _ _ _ Hb) by entry_lia.
      * apply (blank_fields_body z e0); [exact Hfz|now apply (same_body_le ENTRY_BYTES); [entry_lia|]].
    + destruct (Hall _ _ _ Hj) as (Hz & Hfrz & Hhz). rewrite decide_False by (intros ->; done). done.
Qed.

(** The nodes once the children and the locator of the maximal leaf are set. *)
Record node_fields (loc : ct_entry_locator) (a b : Z) (j : nat) (e : ct_entry) : Prop := mk_node_fields {
  nd_fields : exists y, (j = 0%nat -> y = ls) /\ if decide (j < m)%nat then jump_fields y (piece j l) e else fork_fields y a b e;
  nd_max : max_leaf e = loc;
  nd_header : node_header leaf j e;
}.

Record path_ready (loc : ct_entry_locator) (a b : Z) (nodes : list path_node) : Prop := mk_path_ready {
  py_length : length nodes = S m;
  py_nodes : forall j e hj, nodes !! j = Some (e, hj) -> node_fields loc a b j e /\ hj = accumulate_list t h (take (8 * j) l);
}.

Lemma header_of_tags j e e' : node_header leaf j e -> parent_color_and_flags e' = parent_color_and_flags e -> color_and_tag e' = color_and_tag e -> node_header leaf j e'.
Proof.
  clear leaf_ok leaf_used. intros Hh E0 E1. unfold node_header in *. case_decide.
  - destruct Hh as [[T1 T2 T3 T4 T5] [Hd Hpc]]. unfold entry_dirty, entry_parent_color in *. rewrite E0. split; [|done].
    unfold used, entry_type, entry_is_secondary, entry_tag, entry_color, entry_parent_color in *.
    split; unfold used, entry_type, entry_is_secondary, entry_tag, entry_color, entry_parent_color; congruence.
  - exact (plain_flags _ _ E0 Hh).
Qed.

Lemma path_with_children nodes loc a b : path_made nodes -> locator_ok loc -> 0 <= a <= 32 -> 0 <= b <= 32 ->
  path_ready loc a b (map (fun '(e, hj) => (set_max_leaf loc e, hj)) (update_last (fork a b) nodes)).
Proof.
  intros [P1 P2] Hl Ha Hb. split.
  - rewrite length_map. unfold update_last. now rewrite length_alter.
  - intros j e hj Hj. apply list_lookup_fmap_Some in Hj as ([e1 h1] & E & Hj). injection E as -> ->.
    assert (Hmid : (exists y, (j = 0%nat -> y = ls) /\ if decide (j < m)%nat then jump_fields y (piece j l) e1 else fork_fields y a b e1) /\
      node_header leaf j e1 /\ h1 = accumulate_list t h (take (8 * j) l)).
    { unfold update_last in Hj. rewrite list_lookup_alter, P1 in Hj. replace (S m - 1)%nat with m in Hj by lia.
      destruct (decide (m = j)) as [<-|Hne].
      - apply fmap_Some in Hj as ([e0 h0] & E0 & Hj). injection Hj as -> ->. destruct (P2 _ _ _ E0) as ((y & Hy & Hf) & Hh & Ehj).
        rewrite decide_False in Hf by lia. destruct (forked_fields y a b e0 Hf Ha Hb) as [Hff Hby].
        split; [exists y; rewrite decide_False by lia; done|]. split; [|exact Ehj].
        apply (header_of_tags m e0); [exact Hh|unfold parent_color_and_flags|unfold color_and_tag]; apply Hby; lia.
      - destruct (P2 _ _ _ Hj) as ((y & Hy & Hf) & Hh & Ehj). pose proof (lookup_lt_Some _ _ _ Hj) as Hlt.
        assert (Hjm : (j < m)%nat) by (unfold path_node, ct_entry in *; lia). rewrite decide_True in Hf by exact Hjm.
        split; [|done]. exists y. rewrite decide_True by exact Hjm. done. }
    destruct Hmid as ((y & Hy & Hf) & Hh & Ehj). split; [|exact Ehj].
    assert (Hok : entry_ok e1) by (destruct (decide _); apply Hf). destruct (with_max_leaf loc e1 Hok Hl) as (Hbd & Hml & _).
    pose proof (set_locator_agrees loc e1 Hok) as Hag. split.
    + exists y. split; [exact Hy|]. destruct (decide (j < m)%nat).
      * apply (jump_fields_body y _ e1); [exact Hf|now apply (same_body_le 9); [lia|]|]. unfold entry_jump_size, child_color_and_jump_size. now rewrite Hag by lia.
      * exact (fork_fields_body y a b e1 _ Hf Hbd).
    + exact Hml.
    + apply (header_of_tags j e1); [exact Hh|apply Hag; lia|apply Hag; lia].
Qed.
End nodes.

(** [split_leaf_path], for keys that part after the symbols [l]. *)
Lemma split_leaf_path_spec s f l :
  trie s = t -> prefix_hash f = h -> prefix_len f = k -> last_prefix_symbol f = ls -> 0 <= ls <= 32 ->
  entry_ok (lc_value (containing_entry f)) -> used (lc_value (containing_entry f)) = true ->
  (length l <= 408)%nat -> Forall (fun x => 1 <= x <= 32) l ->
  (forall i x, l !! i = Some x -> asym (k + Z.of_nat i) = x /\ bsym (k + Z.of_nat i) = x) ->
  asym (k + Z.of_nat (length l)) <> bsym (k + Z.of_nat (length l)) ->
  exists nodes, split_leaf_path f existing new s =
      Ret (nodes, accumulate_list t h l, asym (k + Z.of_nat (length l)), bsym (k + Z.of_nat (length l))) s /\
    path_made l (lc_value (containing_entry f)) nodes.
Proof.
  intros Hs Eh Ek Els Hls Hok Hu Hlen Hsy Heq Hne. set (sp0 := mk_split_path [] ls h k).
  destruct (split_rounds s l Hs [] sp0 (S (Z.to_nat MAX_KEY_SYMBOLS))) as (sp & E & [R1 [R2 R3] R4 R5]).
  - split; cbn; [exact built_nil|done|done|lia].
  - exact Hlen.
  - change (Z.to_nat MAX_KEY_SYMBOLS) with 410%nat. lia.
  - exact Hsy.
  - intros i x Hi. cbn [length]. rewrite Z.add_0_r. exact (Heq i x Hi).
  - exact Hne.
  - cbn [app] in *. exists (alter_head (become_head (lc_value (containing_entry f))) (sp_nodes sp ++ [(new_bitmap_node (sp_last_symbol sp), accumulate_list t h l)])).
    split; [|now apply path_from_built].
    unfold split_leaf_path. rewrite Eh, Ek, Els. fold sp0.
    assert (E' : split_common_part existing new sp0 s = Ret (sp, asym (k + Z.of_nat (length l)), bsym (k + Z.of_nat (length l))) s) by exact E.
    erewrite bind_Ret by exact E'. cbv iota beta.
    pose proof (bl_length _ _ R1) as Hl. pose proof (jump_count_spec (length l)) as Hc.
    assert (HM : (MAX_PATH_NODES = 52)%nat) by reflexivity.
    erewrite bind_Ret by (apply push_node_eq; unfold path_node, ct_entry in *; lia). now rewrite R4.
Qed.
End path.
