(* ===== verification/Growth.v ===== *)
(** * A subtree that gained a leaf, seen from the root

    When the subtree at the end of a finger's path gains a leaf, the nodes of
    the path whose maximal leaf was below it change as [propagate_from] does
    it, and the whole trie is again stored in the table. *)

From S2P Require Import Prelude Bits Entry KeyObject State Hashing Symbols Atomics Table Contents Cells Finger Insert Api Lookup Preserve Order Linked Spine Place Frame Dictionary Fields TreeInsert.
From stdpp Require Import base list gmap sorting.
From Stdlib Require Import ZArith Lia Bool.

#[local] Open Scope Z_scope.

(** ** The walk up the path *)

(** The child is not the greatest of the parent: neither the locks nor the
    new maximal leaf go further up. *)
Definition stops (parent child : ct_path_entry) : bool :=
  (entry_type (pe_value parent) =? TYPE_BITMAP) && (last_symbol (pe_value child) <? max_child (pe_value parent)).

(** The position where the walk from position [n] up ends. *)
Fixpoint walk_top (P : list ct_path_entry) (n : nat) : nat :=
  match n with
  | O => O
  | S above =>
      match P !! S above, P !! above with
      | Some child, Some parent => if stops parent child then S above else walk_top P above
      | _, _ => S above
      end
  end.

Lemma walk_top_le P n : (walk_top P n <= n)%nat.
Proof.
  induction n as [|n IH]; [done|]. cbn [walk_top]. destruct (P !! S n); [|done]. destruct (P !! n); [|done].
  destruct (stops _ _); lia.
Qed.

Lemma walk_top_app P R n : (n < length P)%nat -> walk_top (P ++ R) n = walk_top P n.
Proof.
  induction n as [|n IH]; intros Hn; [done|]. cbn [walk_top]. rewrite !lookup_app_l by lia. rewrite IH by lia. done.
Qed.

Lemma walk_top_snoc P pe pe' :
  last P = Some pe -> walk_top (P ++ [pe']) (length P) = if stops pe pe' then length P else walk_top P (length P - 1).
Proof.
  intros Hl. apply last_Some in Hl as (Q & ->). rewrite length_app. cbn [length]. replace (length Q + 1)%nat with (S (length Q)) by lia.
  cbn [walk_top]. rewrite (lookup_app_r _ [pe']) by (rewrite length_app; cbn; lia). rewrite length_app. cbn [length].
  replace (S (length Q) - (length Q + 1))%nat with 0%nat by lia. cbn [lookup list_lookup].
  rewrite lookup_app_l by (rewrite length_app; cbn; lia). rewrite lookup_app_r, Nat.sub_diag by lia. cbn [lookup list_lookup].
  destruct (stops _ _); [done|]. rewrite walk_top_app by (rewrite length_app; cbn; lia). f_equal. lia.
Qed.

(** ** The nodes of a path *)

Section nodes.
Variables (t : cuckoo_trie) (m : gmap Z ct_kv).
Variables (root : tnode) (leaves0 : list leaf_ref).

#[local] Abbreviation spine := (spine t root leaves0).

Lemma spine_ok P n h c L B pre : spine P n h c L B pre -> trie_ok m root [] -> trie_ok m n pre.
Proof.
  induction 1 as [pe Ha Hn|P pe pe' syms child h c L B pre Hs IH Hl Ha Hn|P pe pe' f g h c L B pre s ch c' Hs IH Hl HL Hg Hsr Hf Hch Ha Hlast Hn];
    intros Hok; [done|..]; specialize (IH Hok).
  - apply IH.
  - specialize (IH s). rewrite Hf in IH. apply IH.
Qed.

(** Every node of the path is the last one, or above it. *)
Definition above_node (n : tnode) (L : list leaf_ref) (pe : ct_path_entry) : Prop :=
  exists nm h c Lm, at_node t pe h c /\ linked t nm h c Lm /\ (theight n <= theight nm)%nat /\ forall x, x ∈ L -> x ∈ Lm.

Lemma spine_end P n h c L B pre pe : spine P n h c L B pre -> last P = Some pe -> at_node t pe h c /\ linked_at t n (pe_value pe) h c L /\ linked t n h c L.
Proof.
  intros Hs Hl. destruct (spine_last _ _ _ _ _ _ _ _ _ _ Hs) as (pe1 & Hl1 & Ha & Hn). rewrite Hl in Hl1. injection Hl1 as <-.
  split; [done|]. split; [done|]. apply linked_unfold. exists (last_pos (pe_entry pe)), (pe_value pe). split; [apply Ha|done].
Qed.

Lemma spine_linked P n h c L B pre : spine P n h c L B pre -> linked t n h c L.
Proof. intros Hs. destruct (spine_last _ _ _ _ _ _ _ _ _ _ Hs) as (pe & Hl & _). exact (proj2 (proj2 (spine_end _ _ _ _ _ _ _ _ Hs Hl))). Qed.

Lemma above_node_mono n n' L L' pe :
  (theight n' <= theight n)%nat -> (forall x, x ∈ L' -> x ∈ L) -> above_node n L pe -> above_node n' L' pe.
Proof.
  intros Hh Hsub (nm & h & c & Lm & H1 & H2 & H3 & H4). exists nm, h, c, Lm.
  split; [done|]. split; [done|]. split; [lia|]. auto.
Qed.

Lemma spine_above_nodes P n h c L B pre : spine P n h c L B pre -> Forall (above_node n L) P.
Proof.
  intros Hs. induction Hs as [pe Ha Hn|P pe pe' syms child h c L B pre Hs IH Hl Ha Hn|P pe pe' f g h c L B pre s ch c' Hs IH Hl HL Hg Hsr Hf Hch Ha Hlast Hn];
    [|apply Forall_app; split; [eapply Forall_impl; [exact IH|]|]..];
    try (constructor; [|constructor]; eexists _, _, _, _;
      split; [exact Ha|]; split; [apply linked_unfold; eexists _, _; split; [apply Ha|exact Hn]|]; split; [lia|done]).
  - intros x. apply above_node_mono; [cbn [theight]; lia|done].
  - intros x. apply above_node_mono; [pose proof (theight_child f s ch Hsr Hf); lia|]. intros y Hy. rewrite HL. apply elem_of_flat_map.
    exists s. split; [|done]. apply elem_of_symbols_between. lia.
Qed.
End nodes.

(** The nodes of a path are different entries: they become lower and lower. *)
Lemma spine_distinct t root leaves0 P n h c L B pre :
  table_ok t -> spine t root leaves0 P n h c L B pre ->
  forall i j y z, (i < j)%nat -> P !! i = Some y -> P !! j = Some z -> last_pos (pe_entry y) <> last_pos (pe_entry z).
Proof.
  intros Ht.
  assert (Hsnoc : forall P n h c L B pre pe' n' h' c' L', spine t root leaves0 P n h c L B pre ->
    (theight n' < theight n)%nat -> at_node t pe' h' c' -> linked_at t n' (pe_value pe') h' c' L' ->
    (forall i j y z, (i < j)%nat -> P !! i = Some y -> P !! j = Some z -> last_pos (pe_entry y) <> last_pos (pe_entry z)) ->
    forall i j y z, (i < j)%nat -> (P ++ [pe']) !! i = Some y -> (P ++ [pe']) !! j = Some z -> last_pos (pe_entry y) <> last_pos (pe_entry z)).
  { intros P1 n1 h1 c1 L1 B1 pre1 pe' n' h' c' L' Hs Hlt Ha Hn IH i j y z Hij Hy Hz. pose proof (lookup_lt_Some _ _ _ Hz) as Hj.
    rewrite length_app in Hj. cbn [length] in Hj. rewrite lookup_app_l in Hy by lia. destruct (decide (j < length P1)%nat) as [Hlt1|Hge].
    - rewrite lookup_app_l in Hz by lia. exact (IH i j y z Hij Hy Hz).
    - rewrite lookup_app_r in Hz by lia. replace (j - length P1)%nat with 0%nat in Hz by lia. injection Hz as <-. intros Ep.
      pose proof (spine_above_nodes _ _ _ _ _ _ _ _ _ _ Hs) as Hup.
      destruct (proj1 (Forall_forall _ _) Hup y ltac:(eapply list_elem_of_lookup_2; exact Hy)) as (nm & hm & cm & Lm & Ham & Hlm & Hh & _).
      pose proof (an_holds _ _ _ _ Ham) as (_ & E1 & _ & K1). pose proof (an_holds _ _ _ _ Ha) as (_ & E2 & _ & K2).
      rewrite Ep in E1, K1. rewrite E1 in E2. injection E2 as E2. rewrite E2, K2 in K1. injection K1 as <- <-.
      assert (Hl' : linked t n' h' c' L') by (apply linked_unfold; eexists _, _; split; [apply Ha|exact Hn]).
      destruct (linked_det _ _ _ _ _ Ht Hl' _ _ Hlm) as (Eh & _). lia. }
  induction 1 as [pe Ha Hn|P pe pe' syms child h c L B pre Hs IH Hl Ha Hn|P pe pe' f g h c L B pre s ch c' Hs IH Hl HL Hg Hsr Hf Hch Ha Hlast Hn].
  - intros i [|j] y z Hij Hy Hz; [lia|discriminate].
  - apply (Hsnoc _ _ _ _ _ _ _ _ _ _ _ _ Hs) with (2 := Ha) (3 := Hn); [cbn [theight]; lia|exact IH].
  - apply (Hsnoc _ _ _ _ _ _ _ _ _ _ _ _ Hs) with (2 := Ha) (3 := Hn); [now apply (theight_child f s)|exact IH].
Qed.

(** The leaves to the left of a node are those before its own. *)
Lemma spine_leaves t root leaves0 P n h c L B pre :
  spine t root leaves0 P n h c L B pre -> exists A, leaves0 = B ++ L ++ A.
Proof.
  induction 1 as [pe Ha Hn|P pe pe' syms child h c L B pre Hs IH Hl Ha Hn|P pe pe' f g h c L B pre s ch c' Hs (A & IH) Hl HL Hg Hsr Hf Hch Ha Hlast Hn].
  - exists []. now rewrite app_nil_r.
  - exact IH.
  - exists (flat_map g (symbols_above s) ++ A). rewrite IH, HL, (all_symbols_split s Hsr), flat_map_app. cbn [flat_map]. now rewrite <- !app_assoc.
Qed.

(** ** Lists of leaves around a symbol *)

Lemma flat_map_replace (g : Z -> list leaf_ref) (L' : list leaf_ref) s :
  0 <= s <= 32 ->
  flat_map (fun x => if x =? s then L' else g x) all_symbols =
  flat_map g (symbols_below s) ++ L' ++ flat_map g (symbols_above s).
Proof.
  intros Hs. rewrite (all_symbols_split s Hs), flat_map_app. cbn [flat_map]. rewrite Z.eqb_refl. f_equal; [|f_equal]; apply flat_map_ext_elem;
    intros x Hx; apply elem_of_symbols_between in Hx; (destruct (Z.eqb_spec x s); [lia|done]).
Qed.

Lemma flat_map_around (g : Z -> list leaf_ref) s :
  0 <= s <= 32 -> flat_map g all_symbols = flat_map g (symbols_below s) ++ g s ++ flat_map g (symbols_above s).
Proof. intros Hs. rewrite (all_symbols_split s Hs), flat_map_app. reflexivity. Qed.

Lemma last_app_eq {A : Type} (l l1 l2 l3 : list A) : last l1 = last l2 -> last (l ++ l1 ++ l3) = last (l ++ l2 ++ l3).
Proof. intros H. rewrite !last_app, H. done. Qed.

(** The leaves behind a symbol: those of the greatest child, or none. *)
Lemma children_above t f e h c g s :
  max_child_ok e -> children_at t f e h c g -> 0 <= s < max_child e -> flat_map g (symbols_above s) <> [].
Proof.
  intros (M1 & M2 & _) Hg Hlt Eab. pose proof (Hg (max_child e) M1) as Hgm.
  destruct (f (max_child e)) as [c2|]; [|destruct Hgm; congruence]. destruct Hgm as (_ & c2' & Hl2 & _).
  destruct (linked_nonempty _ _ _ _ _ Hl2) as (x & Hx). apply (not_elem_of_nil x). rewrite <- Eab.
  apply elem_of_flat_map. exists (max_child e). split; [|done]. apply elem_of_symbols_between. lia.
Qed.

Lemma no_children_above t f e h c g s :
  max_child_ok e -> children_at t f e h c g -> 0 <= s -> max_child e <= s -> flat_map g (symbols_above s) = [].
Proof.
  intros (_ & _ & M3) Hg Hs Hge. apply flat_map_nil. intros j Hj. apply elem_of_symbols_between in Hj.
  pose proof (Hg j ltac:(lia)) as Hgj. destruct (f j); [|now destruct Hgj].
  destruct Hgj as (Hbj & _). specialize (M3 j ltac:(lia) Hbj). lia.
Qed.

Lemma last_of_above {A : Type} (l l' : list A) : l' <> [] -> last (l ++ l') = last l'.
Proof. intros H. rewrite last_app. destruct l' as [|x l']; [done|]. rewrite last_cons. now destruct (last l'). Qed.

(** ** From the end of the path to the root *)

Section grow.
Variables (t t' : cuckoo_trie) (m : gmap Z ct_kv).
Variables (root : tnode) (leaves0 : list leaf_ref).
Hypothesis t_ok : table_ok t.
Hypothesis params : same_params t t'.
Hypothesis root_ok : trie_ok m root [].

Variable M : Z * Z -> Prop.
Hypothesis kept : forall p k e, holds t p k e -> ~ M k -> exists e', holds t' p k e' /\ alike e e'.
Hypothesis kept_child : forall p h c s c' e, holds t p (h, c) e -> entry_type e = TYPE_BITMAP -> 0 <= s <= 32 -> get_bit (bits_area e) s = true ->
  child_of t h c s c' -> child_of t' h c s c'.

Variables (kv : Z) (sym : Z -> Z) (y : leaf_ref) (b : nat).
Hypothesis y_ok : locator_ok (locator_of y).

(** What the changed keys are, seen from a node of the path [P]. *)
Definition changed_in (P : list ct_path_entry) (L : list leaf_ref) : Prop :=
  forall hm cm, M (hm, cm) ->
    (exists pe, pe ∈ P /\ at_node t pe hm cm) \/ (exists nm Lm, linked t nm hm cm Lm /\ forall x, x ∈ Lm -> x ∈ L).

(** The nodes of [P] above the last one: from [b] on they have a new maximal leaf. *)
Definition raised_above (P : list ct_path_entry) : Prop :=
  forall i pe, P !! i = Some pe -> (i < length P - 1)%nat ->
    trie_entry t' (last_pos (pe_entry pe)) =
    Some (if (b <=? i)%nat then set_max_leaf (locator_of y) (pe_value pe) else pe_value pe).

(** The last leaf: the new maximal one up to [b], the old one above. *)
Definition last_changes (P : list ct_path_entry) (L L' : list leaf_ref) : Prop :=
  (b = walk_top P (length P - 1) /\ last L' = Some y) \/ ((length P <= b)%nat /\ last L' = last L).

(** A node keeps its key. *)
Lemma raised_holds p k e e' :
  holds t p k e -> agrees 9 e e' -> trie_entry t' p = Some e' -> holds t' p k e'.
Proof.
  intros (H1 & H2 & H3 & H4) Ha He. destruct (same_header_fields t p e' e (agrees_header _ _ Ha)) as (F1 & _ & F3 & _).
  split; [now rewrite <- params|]. split; [done|]. split; [congruence|]. rewrite <- params. congruence.
Qed.

Definition raised (i : nat) (e : ct_entry) : ct_entry := if (b <=? i)%nat then set_max_leaf (locator_of y) e else e.

Lemma raised_facts i e : entry_ok e -> entry_ok (raised i e) /\ agrees 9 e (raised i e) /\
  max_leaf (raised i e) = if (b <=? i)%nat then locator_of y else max_leaf e.
Proof.
  intros He. unfold raised. destruct (b <=? i)%nat; [|done].
  split; [now apply set_entry_locator_ok|]. split; [now apply set_locator_agrees|]. now apply entry_locator_set.
Qed.

(** The subtrees beside the path. *)
Lemma sibling_kept P f h c L B pre g s pe n1 h1 c1 L1 :
  spine t root leaves0 P (TBitmap f) h c L B pre -> last P = Some pe -> L = flat_map g all_symbols ->
  0 <= s <= 32 -> changed_in P (g s) -> linked t n1 h1 c1 L1 -> (theight n1 < theight (TBitmap f))%nat ->
  (forall x, x ∈ L1 -> x ∈ g s -> False) -> linked t' n1 h1 c1 L1.
Proof.
  intros Hs Hl HL Hsr HM Hl1 Hh Hd. pose proof (spine_above_nodes _ _ _ _ _ _ _ _ _ _ Hs) as Hup.
  apply (linked_frame t t' t_ok params M kept kept_child); [exact Hl1|].
  intros hm cm Hm. destruct (HM hm cm Hm) as [(pm & Hpm & Ham)|(nm & Lm & Hlm & Hsub)].
  - destruct (proj1 (Forall_forall _ _) Hup pm Hpm) as (nm & h2 & c2 & Lm & Ha2 & Hl2 & Hh2 & _).
    exists nm, Lm. destruct Ham as [_ (_ & _ & _ & K1) E1], Ha2 as [_ (_ & _ & _ & K2) E2].
    rewrite K1 in K2. injection K2 as -> ->. split; [done|]. left. lia.
  - exists nm, Lm. split; [done|]. right. intros x Hx Hxm. exact (Hd x Hx (Hsub x Hxm)).
Qed.

(** The maximal leaf of a node on the path. *)
Lemma raised_max_leaf P pe L L' :
  (1 <= length P)%nat -> entry_ok (pe_value pe) -> max_leaf_ok (pe_value pe) L -> last_changes P L L' ->
  max_leaf_ok (raised (length P - 1) (pe_value pe)) L'.
Proof.
  intros Hlen Hok (x & Hx & Hmx) Hc. destruct (raised_facts (length P - 1) _ Hok) as (_ & _ & Hml).
  unfold max_leaf_ok. rewrite Hml. destruct Hc as [[-> Hy]|[Hb Hy]].
  - pose proof (walk_top_le P (length P - 1)). rewrite (proj2 (Nat.leb_le _ _)) by lia. eauto.
  - rewrite (proj2 (Nat.leb_gt _ _)) by lia. exists x. split; [congruence|done].
Qed.

Lemma grow_step_jump P pe pe' syms child h c L B pre n' L' :
  spine t root leaves0 P (TJump syms child) h c L B pre -> last P = Some pe ->
  linked t' n' (accumulate_list t h syms) (entry_child_color (pe_value pe)) L' ->
  last_changes (P ++ [pe']) L L' ->
  trie_entry t' (last_pos (pe_entry pe)) = Some (raised (length P - 1) (pe_value pe)) ->
  linked t' (TJump syms n') h c L' /\ last_changes P L L'.
Proof.
  intros Hs Hl Hln Hlast He. destruct (spine_end _ _ _ _ _ _ _ _ _ _ _ Hs Hl) as (Ha & Hat & _).
  pose proof (spine_length _ _ _ _ _ _ _ _ _ _ Hs) as Hlen.
  pose proof (holds_ok _ t_ok _ _ _ (an_holds _ _ _ _ Ha)) as [Hok _]. fold (pe_value pe) in Hok.
  destruct (raised_facts (length P - 1) _ Hok) as (Hok' & Hag & Hml).
  pose proof (spine_ok _ m _ _ _ _ _ _ _ _ _ Hs root_ok) as (Hsz & _).
  destruct Hat as (Ty & Hjs & Hsy & (x & Hx & Hmx) & _). destruct (agrees_byte_8 _ _ Hag) as (_ & E2 & E3).
  assert (Hc : last_changes P L L').
  { unfold last_changes in *. rewrite length_app in Hlast. cbn [length] in Hlast. replace (length P + 1 - 1)%nat with (length P) in Hlast by lia.
    destruct Hlast as [[Eb Hy]|[Hb Hy]]; [left|right; split; [lia|done]]. split; [|done]. rewrite Eb, (walk_top_snoc _ _ _ Hl).
    unfold stops. rewrite Ty. reflexivity. }
  split; [|exact Hc]. apply linked_unfold. exists (last_pos (pe_entry pe)), (raised (length P - 1) (pe_value pe)).
  split; [exact (raised_holds _ _ _ _ (an_holds _ _ _ _ Ha) Hag He)|]. cbn [linked_at].
  split; [now rewrite (agrees_type _ _ Hag)|]. split; [congruence|]. split.
  { intros i s Hi. pose proof (lookup_lt_Some _ _ _ Hi). rewrite (agrees_jump_symbol (pe_value pe)) by (done || lia). now apply Hsy. }
  split; [|rewrite (accumulate_list_params _ _ params), E3; exact Hln].
  apply (raised_max_leaf P pe L L'); try done. now exists x.
Qed.

(** The last leaf below a bitmap node, when its child [s] changes. *)
Lemma around_last P pe pe' f g h c s ch L' :
  last P = Some pe -> (1 <= length P)%nat -> entry_ok (pe_value pe) -> entry_type (pe_value pe) = TYPE_BITMAP ->
  max_child_ok (pe_value pe) -> children_at t f (pe_value pe) h c g -> 0 <= s <= 32 -> f s = Some ch ->
  last_symbol (pe_value pe') = s -> last_changes (P ++ [pe']) (g s) L' ->
  last_changes P (flat_map g all_symbols) (flat_map g (symbols_below s) ++ L' ++ flat_map g (symbols_above s)).
Proof.
  intros Hl Hlen Hok Ty Hmc Hg Hsr Hf Hsym Hlast. pose proof Hmc as (_ & _ & M3). unfold last_changes in *. rewrite length_app in Hlast. cbn [length] in Hlast.
  replace (length P + 1 - 1)%nat with (length P) in Hlast by lia. rewrite (flat_map_around g s Hsr).
  destruct Hlast as [[Eb Hy]|[Hb Hy]].
  2: { right. split; [lia|]. now apply last_app_eq. }
  rewrite (walk_top_snoc _ _ _ Hl) in Eb. unfold stops in Eb. rewrite Ty, Z.eqb_refl, Hsym in Eb. cbn [andb] in Eb.
  pose proof (Hg s Hsr) as Hgs. rewrite Hf in Hgs. destruct Hgs as (Hbit & _). pose proof (M3 s Hsr Hbit) as Hle.
  destruct (Z.ltb_spec s (max_child (pe_value pe))) as [Hlt|Hge].
  - right. split; [lia|]. rewrite !app_assoc, !(last_of_above _ _ (children_above t f _ h c g s Hmc Hg (conj (proj1 Hsr) Hlt))). done.
  - left. split; [done|]. rewrite (no_children_above t f _ h c g s Hmc Hg (proj1 Hsr) Hge), app_nil_r. now apply last_of_app.
Qed.


Lemma grow_step_bitmap P pe pe' f F g h c L B pre s ch c' n' L' :
  spine t root leaves0 P (TBitmap f) h c L B pre -> last P = Some pe -> L = flat_map g all_symbols ->
  children_at t f (pe_value pe) h c g -> 0 <= s <= 32 -> f s = Some ch -> child_of t h c s c' ->
  last_symbol (pe_value pe') = s -> changed_in P (g s) ->
  linked t' n' (accumulate_hash t h s) c' L' ->
  last_changes (P ++ [pe']) (g s) L' ->
  trie_entry t' (last_pos (pe_entry pe)) = Some (raised (length P - 1) (pe_value pe)) ->
  trie_ok m (TBitmap f) pre -> (forall x, F x = if x =? s then Some n' else f x) ->
  linked t' (TBitmap F) h c
    (flat_map g (symbols_below s) ++ L' ++ flat_map g (symbols_above s)) /\
  last_changes P L (flat_map g (symbols_below s) ++ L' ++ flat_map g (symbols_above s)).
Proof.
  intros Hs Hl HL Hg Hsr Hf Hch Hsym HM Hln Hlast He Hnok HF. destruct (spine_end _ _ _ _ _ _ _ _ _ _ _ Hs Hl) as (Ha & Hat & Hlk).
  pose proof (spine_length _ _ _ _ _ _ _ _ _ _ Hs) as Hlen.
  pose proof (an_holds _ _ _ _ Ha) as Hh. pose proof (holds_ok _ t_ok _ _ _ Hh) as [Hok _]. fold (pe_value pe) in Hh, Hok.
  destruct (raised_facts (length P - 1) _ Hok) as (Hok' & Hag & _).
  destruct Hat as (Ty & Hml & Hmc & _). destruct (agrees_byte_8 _ _ Hag) as (E1 & _).
  pose proof (linked_nodup _ m _ _ _ _ pre Hlk Hnok) as Hnd. rewrite HL in Hml, Hnd.
  pose proof (around_last P pe pe' f g h c s ch L' Hl Hlen Hok Ty Hmc Hg Hsr Hf Hsym Hlast) as Hc. split; [|now rewrite HL].
  apply linked_unfold. exists (last_pos (pe_entry pe)), (raised (length P - 1) (pe_value pe)).
  split; [exact (raised_holds _ _ _ _ Hh Hag He)|]. cbn [linked_at].
  split; [now rewrite (agrees_type _ _ Hag)|]. split; [now apply (raised_max_leaf P pe (flat_map g all_symbols))|]. split.
  { destruct Hmc as (M1 & M2 & M3). unfold max_child_ok. rewrite E1. split; [done|].
    rewrite (agrees_get_bit (pe_value pe)) by done. split; [done|]. intros j Hj.
    rewrite (agrees_get_bit (pe_value pe)) by done. now apply M3. }
  exists (fun x => if x =? s then L' else g x). split; [symmetry; now apply flat_map_replace|].
  intros x Hx. rewrite (agrees_get_bit (pe_value pe)), HF by done. rewrite (accumulate_hash_params _ _ params).
  pose proof (Hg s Hsr) as Hgs. rewrite Hf in Hgs. destruct (Z.eqb_spec x s) as [->|Hne].
  - split; [apply Hgs|]. exists c'. split; [exact Hln|]. apply (kept_child (last_pos (pe_entry pe)) h c s c' (pe_value pe)); [exact Hh|exact Ty|lia|apply Hgs|exact Hch].
  - pose proof (Hg x Hx) as Hgx. destruct (f x) as [c2|] eqn:Ex; [|exact Hgx]. destruct Hgx as (Hb & c2' & Hl2 & Hc2). split; [exact Hb|].
    exists c2'. split; [|now apply (kept_child (last_pos (pe_entry pe)) h c x c2' (pe_value pe))].
    apply (sibling_kept P f h c L B pre g s pe); try done; [now apply (theight_child f x)|].
    intros z Hz Hz'. revert Hnd. rewrite (flat_map_around g s Hsr). rewrite !NoDup_app. intros (_ & D1 & _ & D2 & _).
    destruct (decide (x < s)).
    + apply (D1 z).
      * apply elem_of_flat_map. exists x. split; [|done]. apply elem_of_symbols_between. lia.
      * apply elem_of_app. now left.
    + apply (D2 z Hz'). apply elem_of_flat_map. exists x. split; [|done]. apply elem_of_symbols_between. lia.
Qed.

(** The path without its last node. *)
Lemma raised_above_init P pe pe' :
  raised_above (P ++ [pe']) -> last P = Some pe ->
  raised_above P /\ trie_entry t' (last_pos (pe_entry pe)) = Some (raised (length P - 1) (pe_value pe)).
Proof.
  intros Hra Hl. assert (Hlen : (1 <= length P)%nat) by (destruct P; [discriminate|cbn; lia]). split.
  - intros i x Hi Hlt. apply (Hra i x); [|rewrite length_app; cbn; lia]. rewrite lookup_app_l by lia. exact Hi.
  - apply (Hra (length P - 1)%nat); [|rewrite length_app; cbn; lia]. rewrite lookup_app_l by lia.
    rewrite last_lookup in Hl. rewrite <- Hl. f_equal. lia.
Qed.

Lemma changed_in_init P pe' n h c L :
  changed_in (P ++ [pe']) L -> at_node t pe' h c -> linked_at t n (pe_value pe') h c L -> changed_in P L.
Proof.
  intros HM Ha Hn hm cm Hm. destruct (HM hm cm Hm) as [(pm & Hpm & Ham)|Hr]; [|now right]. apply elem_of_app in Hpm as [Hpm|Hpm]; [left; eauto|].
  apply list_elem_of_singleton in Hpm as ->. right. exists n, L. split; [|done]. destruct Ham as [_ K1 E1], Ha as [_ K2 E2].
  assert (Ek : (hm, cm) = (h, c)) by (destruct K1 as (_ & _ & _ & <-), K2 as (_ & _ & _ & <-); done).
  injection Ek as -> ->. apply linked_unfold. eauto.
Qed.

Lemma changed_in_mono P L L' : (forall x, x ∈ L -> x ∈ L') -> changed_in P L -> changed_in P L'.
Proof. intros Hsub HM hm cm Hm. destruct (HM hm cm Hm) as [Hl|(nm & Lm & H1 & H2)]; [now left|right]. exists nm, Lm. auto. Qed.

(** The symbols before a node are those of the key. *)
Definition along (pre : list Z) : Prop := forall i s, pre !! i = Some s -> s = sym (Z.of_nat i).

Lemma along_app pre l : along (pre ++ l) -> along pre.
Proof. intros H i s Hi. apply H. rewrite lookup_app_l by (eapply lookup_lt_Some; exact Hi). exact Hi. Qed.

Lemma along_follows pre l : along (pre ++ l) -> follows l sym (Z.of_nat (length pre)) = true.
Proof.
  revert pre. induction l as [|x l IH]; intros pre H; [done|]. cbn [follows].
  rewrite (H (length pre) x) by now rewrite lookup_app_r, Nat.sub_diag by lia. rewrite Z.eqb_refl. cbn [andb].
  replace (Z.of_nat (length pre) + 1) with (Z.of_nat (length (pre ++ [x]))) by (rewrite length_app; cbn; lia). apply IH. now rewrite <- app_assoc.
Qed.

(** A change of the trie below the end of the path: [upd n k] is what the node
    [n] at depth [k] of the path becomes. *)
Definition upd_at_jump (upd : tnode -> Z -> tnode) : Prop := forall syms child k,
  follows syms sym k = true -> upd (TJump syms child) k = TJump syms (upd child (k + Z.of_nat (length syms))).
Definition upd_at_bitmap (upd : tnode -> Z -> tnode) : Prop := forall f k ch, f (sym k) = Some ch ->
  exists F, upd (TBitmap f) k = TBitmap F /\ forall x, F x = if x =? sym k then Some (upd ch (k + 1)) else f x.

Lemma grow_path upd P n h c L B pre :
  upd_at_jump upd -> upd_at_bitmap upd -> spine t root leaves0 P n h c L B pre -> along pre ->
  forall L', changed_in P L -> last_changes P L L' -> raised_above P ->
    linked t' (upd n (Z.of_nat (length pre))) h c L' ->
    exists A L0', leaves0 = B ++ L ++ A /\ L0' = B ++ L' ++ A /\
      linked t' (upd root 0) HASH_START_VALUE ROOT_COLOR L0'.
Proof.
  intros Uj Ub. induction 1 as [pe Ha Hn|P pe pe' syms child h c L B pre Hs IH Hl Ha Hn|P pe pe' f g h c L B pre s ch c' Hs IH Hl HL Hg Hsr Hf Hch Ha Hlast Hn];
    intros Hpre L' HM Hlc Hra Hln.
  - exists [], L'. rewrite !app_nil_r. done.
  - destruct (raised_above_init P pe pe' Hra Hl) as [Hra' He]. pose proof (changed_in_init _ _ _ _ _ _ HM Ha Hn) as HM'.
    destruct (grow_step_jump P pe pe' syms child h c L B pre _ L' Hs Hl Hln Hlc He) as [Hlp Hcp].
    rewrite length_app, Nat2Z.inj_add in Hlp. apply (IH (along_app _ _ Hpre) L' HM' Hcp Hra').
    rewrite Uj by (now apply along_follows). exact Hlp.
  - destruct (raised_above_init P pe pe' Hra Hl) as [Hra' He]. pose proof (changed_in_init _ _ _ _ _ _ HM Ha Hn) as HM'.
    assert (Epre : s = sym (Z.of_nat (length pre))) by (apply Hpre; rewrite lookup_app_r, Nat.sub_diag by lia; reflexivity).
    rewrite length_app, Nat2Z.inj_add in Hln. destruct (Ub f (Z.of_nat (length pre)) ch ltac:(now rewrite <- Epre)) as (F & EF & HF).
    rewrite <- Epre in HF.
    destruct (grow_step_bitmap P pe pe' f F g h c L B pre s ch c' _ L' Hs Hl HL Hg Hsr Hf Hch Hlast HM' Hln Hlc He
      (spine_ok _ m _ _ _ _ _ _ _ _ _ Hs root_ok) HF) as [Hlp Hcp].
    rewrite <- EF in Hlp.
    destruct (IH (along_app _ _ Hpre) _
        (changed_in_mono P (g s) L ltac:(intros z Hz; rewrite HL; apply elem_of_flat_map; exists s; split; [apply elem_of_symbols_between; lia|exact Hz]) HM')
        Hcp Hra' Hlp) as (A & L0' & E1 & E2 & E3).
    exists (flat_map g (symbols_above s) ++ A), L0'. split; [|split; [|exact E3]].
    + rewrite E1, HL, (flat_map_around g s Hsr), <- !app_assoc. done.
    + rewrite E2, <- !app_assoc. done.
Qed.

Lemma grow P n h c L B pre :
  spine t root leaves0 P n h c L B pre -> along pre ->
  forall L', changed_in P L -> last_changes P L L' -> raised_above P ->
    linked t' (tinsert m n sym (Z.of_nat (length pre)) kv) h c L' ->
    exists A L0', leaves0 = B ++ L ++ A /\ L0' = B ++ L' ++ A /\
      linked t' (tinsert m root sym 0 kv) HASH_START_VALUE ROOT_COLOR L0'.
Proof.
  apply (grow_path (fun n k => tinsert m n sym k kv)).
  - intros syms child k Hf. cbn [tinsert]. now rewrite Hf.
  - intros f k ch Hf. eexists. split; [reflexivity|]. intros x. cbv beta. destruct (Z.eqb_spec x (sym k)) as [->|]; [now rewrite Hf|done].
Qed.
End grow.
