(* ===== verification/NewLeaf.v ===== *)
(** * The table after a leaf was added at a bitmap node

    The cells that change when [create_leaf_in_bitmap] succeeds are listed in
    a section: the new leaf, its predecessor, the bitmap node and the nodes
    above it with a new maximal leaf. The table then stores the trie with the
    new leaf, and the leaf list has the new leaf in its place. *)

From S2P Require Import Prelude Bits Entry KeyObject State Hashing Symbols Atomics Table Contents Cells Finger Insert Api Lookup Preserve Order Linked Spine Place Frame Dictionary Fields TreeInsert Growth.
From stdpp Require Import base list gmap sorting.
From Stdlib Require Import ZArith Lia Bool.

#[local] Open Scope Z_scope.

(** ** Children and their parents *)

(** A node with a parent color has a bitmap node as its parent, and that
    node's bit for it is set; the root has no parent. *)
Record owned (t : cuckoo_trie) : Prop := mk_owned {
  ow_parent : forall p h' c'' e, holds t p (h', c'') e -> entry_parent_color e <> INVALID_COLOR ->
    exists h q eb, 0 <= last_symbol e <= 32 /\ h' = accumulate_hash t h (last_symbol e) /\
      holds t q (h, entry_parent_color e) eb /\ entry_type eb = TYPE_BITMAP /\
      get_bit (bits_area eb) (last_symbol e) = true;
  ow_root : forall p e, holds t p (HASH_START_VALUE, ROOT_COLOR) e -> entry_parent_color e = INVALID_COLOR;
}.

(** ** Inserting into a list *)

Lemma lookup_middle_lt {A : Type} (X Y : list A) y i : (i < length X)%nat -> (X ++ y :: Y) !! i = (X ++ Y) !! i.
Proof. intros Hi. now rewrite !lookup_app_l. Qed.

Lemma lookup_middle_gt {A : Type} (X Y : list A) y i : (length X <= i)%nat -> (X ++ y :: Y) !! S i = (X ++ Y) !! i.
Proof. intros Hi. rewrite !lookup_app_r by lia. now replace (S i - length X)%nat with (S (i - length X)) by lia. Qed.

Lemma lookup_middle_eq {A : Type} (X Y : list A) y : (X ++ y :: Y) !! length X = Some y.
Proof. rewrite lookup_app_r, Nat.sub_diag by lia. reflexivity. Qed.

Lemma followed_by_next e e' next : next_leaf e' = next_leaf e -> followed_by e next -> followed_by e' next.
Proof. intros E. unfold followed_by. now rewrite E. Qed.

(** Leaf [x], and the head of the list, with their successors. *)
Definition leaf_next (t : cuckoo_trie) (x : leaf_ref) (next : option leaf_ref) : Prop :=
  exists e, leaf_entry t x e /\ followed_by e next.
Definition head_next (t : cuckoo_trie) (next : option leaf_ref) : Prop :=
  exists e, trie_entry t (trie_min_leaf t) = Some e /\ entry_type e = TYPE_LEAF /\ entry_dirty e = false /\ followed_by e next.

Lemma list_ok_next t L :
  table_ok t -> (forall x, x ∈ L -> exists e, leaf_entry t x e) ->
  list_ok t L <-> head_next t (L !! 0%nat) /\ forall i x, L !! i = Some x -> leaf_next t x (L !! S i).
Proof.
  intros Ht Hex. split.
  - intros [H1 H2]. split; [exact H1|]. intros i x Hi. destruct (Hex x) as (e & He); [eapply list_elem_of_lookup_2; exact Hi|]. exists e. eauto.
  - intros [H1 H2]. split; [exact H1|]. intros i x e Hi He. destruct (H2 i x Hi) as (e' & He' & Hf).
    now rewrite (leaf_entry_unique _ _ _ _ Ht He He').
Qed.

Section list.
Variables (t t' : cuckoo_trie) (X Y : list leaf_ref) (y : leaf_ref).
Hypothesis t_ok : table_ok t.
Hypothesis t'_ok : table_ok t'.
Hypothesis list_t : list_ok t (X ++ Y).
Hypothesis nodup : NoDup (X ++ Y).
Hypothesis leaf_t : forall x, x ∈ X ++ Y -> exists e, leaf_entry t x e.
(** [y] comes behind the last of [X], or behind the head. *)
Hypothesis head_step : forall next, head_next t next ->
  match last X with Some _ => head_next t' next | None => head_next t' (Some y) /\ leaf_next t' y next end.
Hypothesis leaf_step : forall x next, x ∈ X ++ Y -> leaf_next t x next ->
  if decide (last X = Some x) then leaf_next t' x (Some y) /\ leaf_next t' y next else leaf_next t' x next.

Lemma list_inserted : list_ok t' (X ++ y :: Y).
Proof.
  apply (list_ok_next t (X ++ Y) t_ok leaf_t) in list_t as [Hhead Hnext].
  assert (Hy : leaf_next t' y (Y !! 0%nat)).
  { destruct (last X) as [x|] eqn:El.
    - assert (Hl : (X ++ Y) !! (length X - 1)%nat = Some x).
      { rewrite last_lookup in El. pose proof (lookup_lt_Some _ _ _ El). rewrite lookup_app_l by lia. rewrite <- El. f_equal. lia. }
      assert (Hlen : (1 <= length X)%nat) by (destruct X; [discriminate|cbn; lia]).
      pose proof (leaf_step x _ ltac:(eapply list_elem_of_lookup_2; exact Hl) (Hnext _ _ Hl)) as Hs. rewrite decide_True in Hs by done.
      destruct Hs as [_ Hs]. rewrite lookup_app_r in Hs by lia. now replace (S (length X - 1) - length X)%nat with 0%nat in Hs by lia.
    - apply last_None in El. rewrite El in *. exact (proj2 (head_step _ Hhead)). }
  assert (Hall : forall i x, (X ++ y :: Y) !! i = Some x -> leaf_next t' x ((X ++ y :: Y) !! S i)).
  { intros i x Hi. destruct (lt_eq_lt_dec i (length X)) as [[Hlt| ->]|Hgt].
    - rewrite lookup_middle_lt in Hi by done. pose proof (leaf_step x _ ltac:(eapply list_elem_of_lookup_2; exact Hi) (Hnext _ _ Hi)) as Hs.
      assert (El : last X = Some x <-> S i = length X).
      { rewrite last_lookup. rewrite lookup_app_l in Hi by done. split.
        - intros El. pose proof (NoDup_lookup X _ _ _ ltac:(apply NoDup_app in nodup; apply nodup) El Hi). lia.
        - intros E. rewrite <- Hi. f_equal. lia. }
      case_decide as Hd.
      + apply El in Hd. rewrite Hd, lookup_middle_eq. apply Hs.
      + assert (S i <> length X) by tauto. rewrite lookup_middle_lt by lia. exact Hs.
    - rewrite lookup_middle_eq in Hi. injection Hi as <-. rewrite lookup_middle_gt, lookup_app_r, Nat.sub_diag by lia. exact Hy.
    - destruct i as [|j]; [lia|]. rewrite lookup_middle_gt in Hi by lia. rewrite lookup_middle_gt by lia.
      pose proof (leaf_step x _ ltac:(eapply list_elem_of_lookup_2; exact Hi) (Hnext _ _ Hi)) as Hs. rewrite decide_False in Hs; [exact Hs|].
      intros El. rewrite last_lookup in El. pose proof (lookup_lt_Some _ _ _ El).
      pose proof (NoDup_lookup (X ++ Y) j (Nat.pred (length X)) x nodup Hi ltac:(now rewrite lookup_app_l by lia)). lia. }
  apply list_ok_next; [exact t'_ok| |].
  - intros x Hx. apply list_elem_of_lookup in Hx as (i & Hi). destruct (Hall i x Hi) as (e & He & _). eauto.
  - split; [|exact Hall]. specialize (head_step _ Hhead). destruct (last X) as [x|] eqn:El.
    + rewrite lookup_middle_lt by (destruct X; [discriminate|cbn; lia]). exact head_step.
    + apply last_None in El. rewrite El. apply head_step.
Qed.
End list.

(** ** The new table *)

Section new_leaf.
Variables (s : state) (n0 : tnode) (L0 : list leaf_ref).
Hypothesis s_rep : ordered_rep s n0 L0.
Variables (kv : Z) (o : ct_kv).
Hypothesis kv_at : kv_mem s !! kv = Some o.
Hypothesis o_ok : kv_ok o.
Hypothesis o_short : key_size o <= 255.

Let t : cuckoo_trie := trie s.
Let sym : Z -> Z := symbol_at (kv_key o).

(** The path to the bitmap node. *)
Variables (P : list ct_path_entry) (fc : Z -> option tnode) (h c : Z) (L B : list leaf_ref) (pre : list Z)
  (pe : ct_path_entry) (g : Z -> list leaf_ref).
Hypothesis on_spine : spine t n0 L0 P (TBitmap fc) h c L B pre.
Hypothesis at_end : last P = Some pe.
Hypothesis pre_key : along sym pre.
Hypothesis children : L = flat_map g all_symbols /\ children_at t fc (pe_value pe) h c g.

Let sy : Z := sym (Z.of_nat (length pre)).
Hypothesis no_child : fc sy = None.
Hypothesis t_owned : owned t.

(** The new table: leaf [xl] in cell [pl], behind the entry [ep] in cell [pp]. *)
Variables (t' : cuckoo_trie) (pl pp : pos) (xl ep : ct_entry) (cn : Z).
Hypothesis t'_ok : table_ok t'.
Hypothesis params : same_params t t'.

Let y : leaf_ref := mk_leaf_ref (accumulate_hash t h sy) cn kv.
Let node' : ct_entry := with_child (locator_of y) sy (pe_value pe).

Record leaf_added : Prop := mk_leaf_added {
  la_free : forall e, trie_entry t pl = Some e -> used e = false;
  la_holds : holds t' pl (lr_hash y, cn) xl;
  la_leaf : entry_type xl = TYPE_LEAF /\ entry_kv xl = kv /\ entry_dirty xl = false;
  la_parent : last_symbol xl = sy /\ entry_parent_color xl = c;
  la_next : next_leaf xl = next_leaf ep;
  la_pred : match last (B ++ flat_map g (symbols_below sy)) with
            | Some x => holds t pp (lr_hash x, lr_color x) ep
            | None => pp = trie_min_leaf t
            end;
  la_pred_at : trie_entry t pp = Some ep;
  la_pred_at' : trie_entry t' pp = Some (set_next_leaf (locator_of y) ep);
  la_node : trie_entry t' (last_pos (pe_entry pe)) = Some node';
  la_path : forall i x, P !! i = Some x -> (i < length P - 1)%nat ->
    trie_entry t' (last_pos (pe_entry x)) =
    Some (if (walk_top P (length P - 1) <=? i)%nat then set_max_leaf (max_leaf node') (pe_value x) else pe_value x);
  la_rest : forall q, q <> pl -> q <> pp -> (forall x, x ∈ P -> q <> last_pos (pe_entry x)) -> trie_entry t' q = trie_entry t q;
}.
Hypothesis added : leaf_added.

Lemma t_ok : table_ok t.
Proof. exact (tr_table _ _ (or_rep _ _ _ s_rep)). Qed.

Lemma sy_range : 0 <= sy <= 32.
Proof. apply symbol_range. Qed.

Lemma new_key : hash_ok t' (lr_hash y) /\ 0 <= cn <= MAX_VALID_COLOR.
Proof. exact (proj2 (holds_ok _ t'_ok _ _ _ (la_holds added))). Qed.

Lemma y_locator : locator_ok (locator_of y).
Proof.
  destruct new_key as [Hh Hc]. destruct (hash_parts _ (tb_params _ t'_ok) _ Hh) as (Hb & Ht & _).
  pose proof (params_bound _ (tb_params _ t'_ok)). change MAX_VALID_COLOR with 8 in Hc. unfold locator_ok, is_byte. cbn [locator_of loc_primary_bucket loc_tag loc_color lr_color y]. lia.
Qed.

(** ** The path's nodes *)

Lemma end_node : at_node t pe h c /\ linked_at t (TBitmap fc) (pe_value pe) h c L.
Proof. destruct (spine_end _ _ _ _ _ _ _ _ _ _ _ on_spine at_end) as (H1 & H2 & _). done. Qed.

Lemma path_node x : x ∈ P -> exists hm cm, at_node t x hm cm /\ entry_type (pe_value x) <> TYPE_LEAF.
Proof.
  intros Hx. pose proof (spine_above_nodes _ _ _ _ _ _ _ _ _ _ on_spine) as Hup.
  destruct (proj1 (Forall_forall _ _) Hup x Hx) as (nm & hm & cm & Lm & Ha & Hl & Hh & _). exists hm, cm. split; [done|].
  apply linked_unfold in Hl as (p & e & Hp & Hat). destruct (holds_entry _ _ _ _ _ _ t_ok Hp (an_holds _ _ _ _ Ha)) as [_ ->].
  destruct (is_leaf nm) eqn:E; [destruct nm; try discriminate; cbn [theight] in Hh; clear - Hh; lia|]. now destruct (linked_at_inner _ _ _ _ _ _ E Hat).
Qed.

Lemma value_ok x : x ∈ P -> entry_ok (pe_value x).
Proof. intros Hx. destruct (path_node x Hx) as (hm & cm & Ha & _). exact (proj1 (holds_ok _ t_ok _ _ _ (an_holds _ _ _ _ Ha))). Qed.

Lemma end_in : pe ∈ P.
Proof. now apply last_Some_elem_of. Qed.

Lemma node_ok' : entry_ok node' /\ same_header node' (pe_value pe) /\ locator_ok (max_leaf node').
Proof.
  pose proof (value_ok pe end_in) as Hok. pose proof sy_range as Hr. pose proof y_locator as Hl. split; [now apply with_child_ok|].
  split; [now apply with_child_header|]. now apply entry_locator_ok, with_child_ok.
Qed.

(** A node of the path in the new table. *)
Lemma path_entry x : x ∈ P -> exists e', trie_entry t' (last_pos (pe_entry x)) = Some e' /\ same_header e' (pe_value x).
Proof.
  intros Hx. pose proof Hx as Hi. apply list_elem_of_lookup in Hi as (i & Hi). pose proof (lookup_lt_Some _ _ _ Hi) as Hlt.
  destruct (decide (i = length P - 1)%nat) as [->|Hne].
  - pose proof at_end as Hl. rewrite last_lookup in Hl. replace (Nat.pred (length P)) with (length P - 1)%nat in Hl by lia.
    assert (x = pe) as -> by congruence. exists node'. split; [apply added|apply node_ok'].
  - rewrite (la_path added i x Hi) by lia. eexists. split; [reflexivity|]. destruct (_ <=? _)%nat; [|done].
    apply agrees_header, set_locator_agrees. now apply value_ok.
Qed.

(** ** Old entries in the new table *)

Lemma same_key q k e e' : holds t q k e -> same_header e' e -> trie_entry t' q = Some e' -> holds t' q k e'.
Proof.
  intros (H1 & H2 & H3 & H4) Hs He. destruct (same_header_fields t q _ _ Hs) as (F1 & _ & F3 & _).
  split; [now rewrite <- params|]. split; [done|]. split; [congruence|]. rewrite <- params. congruence.
Qed.

Lemma on_path_dec q : Decision (exists x, x ∈ P /\ q = last_pos (pe_entry x)).
Proof.
  destruct (decide (q ∈ (fun x => last_pos (pe_entry x)) <$> P)) as [H|H]; rewrite list_elem_of_fmap in H; [left|right; intros (x & H1 & H2); apply H; eauto].
  destruct H as (x & H1 & H2). eauto.
Qed.

Lemma head_not_in q : in_table t' q -> q <> trie_min_leaf t.
Proof.
  intros Hin ->. rewrite <- params in Hin. unfold in_table in Hin. cbn [pos_bucket trie_min_leaf] in Hin.
  unfold min_leaf_bucket in Hin. pose proof (tb_length _ t_ok). lia.
Qed.

Lemma forward q k e : holds t q k e ->
  exists e', holds t' q k e' /\ same_header e' e /\
    ((exists x, x ∈ P /\ q = last_pos (pe_entry x)) \/ (q = pp /\ e' = set_next_leaf (locator_of y) e) \/ (q <> pp /\ e' = e)).
Proof.
  intros Hh. pose proof Hh as (Hin & He & Hu & Hk). destruct (on_path_dec q) as [Hp|Hp].
  - pose proof Hp as (x & Hx & ->). destruct (path_entry x Hx) as (e' & He' & Hs). destruct (path_node x Hx) as (hm & cm & Ha & _).
    destruct (an_holds _ _ _ _ Ha) as (_ & Ex & _). fold (pe_value x) in Ex. assert (e = pe_value x) as -> by congruence.
    exists e'. split; [now apply (same_key _ _ (pe_value x))|]. split; [done|now left].
  - destruct (decide (q = pp)) as [->|Hne].
    + assert (e = ep) as -> by (pose proof (la_pred_at added); congruence). exists (set_next_leaf (locator_of y) ep).
      assert (Hs : same_header (set_next_leaf (locator_of y) ep) ep) by (apply agrees_header, set_locator_agrees, (trie_entry_ok _ t_ok _ _ He)).
      split; [apply (same_key _ _ ep); [done|done|apply added]|]. split; [done|]. right. now left.
    + exists e. assert (Hpl : q <> pl) by (intros ->; rewrite (la_free added e He) in Hu; discriminate).
      assert (E : trie_entry t' q = Some e) by (rewrite (la_rest added q Hpl Hne); [done|intros x Hx ->; apply Hp; eauto]).
      split; [now apply (same_key _ _ e)|]. split; [done|]. right. now right.
Qed.

Lemma backward q k e' : holds t' q k e' ->
  (q = pl /\ k = (lr_hash y, cn) /\ e' = xl) \/ exists e, holds t q k e /\ same_header e' e.
Proof.
  intros Hh. pose proof Hh as (Hin & He & Hu & Hk). destruct (decide (q = pl)) as [->|Hpl].
  { left. destruct (la_holds added) as (_ & He2 & _ & Hk2). rewrite He in He2. injection He2 as ->. rewrite Hk in Hk2. done. }
  right. assert (Hold : forall k0 e, holds t q k0 e -> exists e, holds t q k e /\ same_header e' e).
  { intros k0 e H0. destruct (forward q k0 e H0) as (e2 & (_ & He2 & _ & Hk2) & Hs & _). rewrite He in He2. injection He2 as <-.
    rewrite Hk in Hk2. subst k0. eauto. }
  destruct (on_path_dec q) as [(x & Hx & ->)|Hp].
  - destruct (path_node x Hx) as (hm & cm & Ha & _). exact (Hold _ _ (an_holds _ _ _ _ Ha)).
  - destruct (decide (q = pp)) as [->|Hne].
    + pose proof (la_pred added) as Hpr. destruct (last (B ++ flat_map g (symbols_below sy))) as [x|]; [exact (Hold _ _ Hpr)|].
      exfalso. exact (head_not_in _ Hin Hpr).
    + exists e'. split; [|done]. rewrite (la_rest added q Hpl Hne) in He by (intros x Hx ->; apply Hp; eauto).
      split; [now rewrite params|]. split; [done|]. split; [done|]. rewrite params. done.
Qed.

(** ** The subtrees and children *)

Let X : list leaf_ref := B ++ flat_map g (symbols_below sy).

Lemma no_leaves : g sy = [].
Proof. destruct children as [_ Hg]. specialize (Hg sy sy_range). rewrite no_child in Hg. apply Hg. Qed.

Lemma leaves_around : exists A, L0 = X ++ flat_map g (symbols_above sy) ++ A.
Proof.
  destruct (spine_leaves _ _ _ _ _ _ _ _ _ _ on_spine) as (A & E). exists A. rewrite E, (proj1 children).
  rewrite (flat_map_around g sy sy_range), no_leaves. unfold X. cbn [app]. now rewrite <- !app_assoc.
Qed.

Lemma old_leaf x : x ∈ L0 -> exists e, leaf_entry t x e.
Proof. apply linked_leaf with (1 := or_linked _ _ _ s_rep). Qed.

(** The predecessor is a leaf, or the head of the list. *)
Lemma pred_leaf x : last X = Some x -> leaf_entry t x ep /\ x ∈ L0.
Proof.
  intros Hx. pose proof (la_pred added) as Hp. change (B ++ _) with X in Hp. rewrite Hx in Hp.
  assert (Hin : x ∈ L0).
  { destruct leaves_around as (A & ->). apply elem_of_app. left. now apply last_Some_elem_of. }
  destruct (old_leaf x Hin) as (e & He). pose proof He as ((q & Hq) & _). destruct (holds_entry _ _ _ _ _ _ t_ok Hq Hp) as [_ ->]. done.
Qed.

Lemma pred_in_table q k e : holds t q k e -> q = pp -> exists x, last X = Some x /\ k = (lr_hash x, lr_color x) /\ e = ep.
Proof.
  intros (Hin & He & Hu & Hk) ->. pose proof (la_pred added) as Hp. change (B ++ _) with X in Hp. destruct (last X) as [x|].
  - exists x. split; [done|]. destruct Hp as (_ & He' & _ & Hk'). split; congruence.
  - exfalso. rewrite params in Hin. exact (head_not_in pp Hin Hp).
Qed.

Definition on_path_key (k : Z * Z) : Prop := exists x, x ∈ P /\ at_node t x (fst k) (snd k).

Lemma kept q k e : holds t q k e -> ~ on_path_key k -> exists e', holds t' q k e' /\ alike e e'.
Proof.
  intros Hh Hk. destruct (forward q k e Hh) as (e' & Hh' & Hs & [(x & Hx & ->)|[(Hq & ->)|(_ & ->)]]); [|eexists; split; [exact Hh'|]..].
  - exfalso. apply Hk. destruct (path_node x Hx) as (hm & cm & Ha & _). exists x. split; [done|].
    destruct Hh as (_ & He & _ & <-). pose proof (an_holds _ _ _ _ Ha) as (_ & He' & _ & Ek). rewrite He in He'. injection He' as ->. now rewrite Ek.
  - destruct (pred_in_table q k e Hh Hq) as (x & Hx & _ & ->). destruct (pred_leaf x Hx) as ((_ & Ty & _) & _).
    pose proof (trie_entry_ok _ t_ok _ _ (la_pred_at added)) as Hok. pose proof (set_locator_agrees (locator_of y) ep Hok) as Hag.
    split; [apply (agrees_type _ _ Hag)|congruence|apply agrees_kv; [done|now apply set_entry_locator_ok|done]|].
    now destruct (header_flags _ _ Hs) as (-> & _).
  - apply alike_refl.
Qed.

(** The new leaf is no child of another node. *)
Lemma new_parent q h1 c1 e s1 :
  holds t q (h1, c1) e -> 0 <= s1 <= 32 -> accumulate_hash t h1 s1 = lr_hash y -> last_symbol xl = s1 -> entry_parent_color xl = c1 ->
  e = pe_value pe /\ s1 = sy.
Proof.
  intros Hh Hr Ea El Ep. destruct (la_parent added) as [E1 E2]. rewrite El in E1. rewrite E2 in Ep. subst c1.
  destruct end_node as [Ha _]. pose proof (an_holds _ _ _ _ Ha) as Hb.
  destruct (holds_ok _ t_ok _ _ _ Hh) as (_ & H1 & _), (holds_ok _ t_ok _ _ _ Hb) as (_ & H2 & _). cbn [fst] in H1, H2.
  cbn [lr_hash y] in Ea. apply (f_equal (fun x => parent_hash t x sy)) in Ea. rewrite E1 in Ea.
  rewrite !parent_accumulate in Ea by (done || apply t_ok || (pose proof sy_range; lia)). subst h1. split; [|done].
  now destruct (holds_entry _ _ _ _ _ _ t_ok Hh Hb).
Qed.

Lemma bit_clear : get_bit (bits_area (pe_value pe)) sy = false.
Proof. destruct children as [_ Hg]. specialize (Hg sy sy_range). rewrite no_child in Hg. apply Hg. Qed.

Lemma kept_child q h1 c1 s1 c1' e : holds t q (h1, c1) e -> entry_type e = TYPE_BITMAP -> 0 <= s1 <= 32 -> get_bit (bits_area e) s1 = true ->
  child_of t h1 c1 s1 c1' -> child_of t' h1 c1 s1 c1'.
Proof.
  intros Hh _ Hr Hb [(q1 & e1 & Hh1 & Hl1 & Hp1) Hu]. unfold child_of. rewrite !(accumulate_hash_params _ _ params). split.
  - destruct (forward _ _ _ Hh1) as (e' & Hh' & Hs & _). destruct (same_header_fields t q1 _ _ Hs) as (_ & _ & _ & _ & E1 & E2 & _).
    exists q1, e'. split; [exact Hh'|]. split; congruence.
  - intros q2 c2 e2 Hh2 Hl2 Hp2. destruct (backward _ _ _ Hh2) as [(_ & Ek & ->)|(e3 & Hh3 & Hs)].
    + exfalso. injection Ek as Ea _. destruct (new_parent q h1 c1 e s1 Hh Hr Ea Hl2 Hp2) as [-> ->].
      rewrite bit_clear in Hb. discriminate.
    + destruct (same_header_fields t q2 _ _ Hs) as (_ & _ & _ & _ & E1 & E2 & _). apply (Hu q2 c2 e3 Hh3); congruence.
Qed.

Lemma new_child : child_of t' h c sy cn.
Proof.
  destruct (la_parent added) as [El Ep]. unfold child_of. rewrite !(accumulate_hash_params _ _ params). split.
  - exists pl, xl. split; [apply added|done].
  - intros q c2 e Hh Hl Hp. destruct (backward _ _ _ Hh) as [(_ & Ek & ->)|(e3 & Hh3 & Hs)]; [now injection Ek as ->|].
    exfalso. destruct (same_header_fields t q _ _ Hs) as (_ & _ & _ & _ & E1 & E2 & _).
    destruct end_node as [Ha _]. pose proof (an_holds _ _ _ _ Ha) as Hb.
    destruct (holds_ok _ t_ok _ _ _ Hb) as (_ & H2 & Hc). cbn [fst snd] in H2, Hc.
    destruct (ow_parent _ t_owned q _ _ e3 Hh3) as (h3 & q3 & eb & Hr & Ea & Hh4 & _ & Hbit).
    { rewrite <- E2, Hp. change MAX_VALID_COLOR with 8 in Hc. change INVALID_COLOR with 9. lia. }
    rewrite <- E1, Hl in Ea, Hbit, Hr. rewrite <- E2, Hp in Hh4. destruct (holds_ok _ t_ok _ _ _ Hh4) as (_ & H1 & _). cbn [fst] in H1.
    apply (f_equal (fun x => parent_hash t x sy)) in Ea. rewrite !parent_accumulate in Ea by (done || apply t_ok || lia). subst h3.
    destruct (holds_entry _ _ _ _ _ _ t_ok Hh4 Hb) as [_ ->]. fold (pe_value pe) in Hbit. rewrite bit_clear in Hbit. discriminate.
Qed.

(** ** The bitmap node *)

Let L1 : list leaf_ref := flat_map g (symbols_below sy) ++ [y] ++ flat_map g (symbols_above sy).

Lemma max_ok : max_leaf_ok (pe_value pe) L /\ max_child_ok (pe_value pe).
Proof. destruct end_node as [_ (_ & H1 & H2 & _)]. done. Qed.

(** The last leaf below the node, the one its [max_leaf] names. *)
Lemma new_last : exists z, last L1 = Some z /\ max_leaf node' = locator_of z.
Proof.
  destruct max_ok as [(x & Hx & Hml) Hmc]. pose proof sy_range as Hr. pose proof (proj2 children) as Hg.
  unfold node'. rewrite (with_child_leaf _ _ _ (value_ok pe end_in) y_locator Hr). rewrite (proj1 children) in Hx.
  rewrite (flat_map_around g sy Hr), no_leaves in Hx. unfold L1.
  destruct (Z.ltb_spec (max_child (pe_value pe)) sy) as [Hlt|Hge].
  - exists y. split; [|done]. rewrite (no_children_above t fc _ h c g sy Hmc Hg) by lia. now rewrite app_nil_r, last_snoc.
  - exists x. split; [|exact Hml]. rewrite <- Hx. assert (Hne : sy <> max_child (pe_value pe)).
    { intros E. destruct Hmc as (_ & Hb & _). rewrite <- E, bit_clear in Hb. discriminate. }
    rewrite !app_assoc, !last_of_above by (apply (children_above t fc (pe_value pe) h c g sy Hmc Hg); lia). done.
Qed.

Lemma changed_at (l : list leaf_ref) : changed_in t on_path_key P l.
Proof. intros hm cm (x & Hx & Ha). left. eauto. Qed.

Lemma node_linked : linked t' (tinsert (kv_mem s) (TBitmap fc) sym (Z.of_nat (length pre)) kv) h c L1.
Proof.
  destruct end_node as [Ha (Ty & _)]. destruct node_ok' as (Hok & Hs & _). destruct max_ok as [_ Hmc].
  pose proof (value_ok pe end_in) as Hpe. pose proof sy_range as Hr. pose proof y_locator as Hyl.
  cbn [tinsert]. apply linked_unfold. exists (last_pos (pe_entry pe)), node'.
  split; [apply (same_key _ _ (pe_value pe)); [apply Ha|exact Hs|apply added]|]. cbn [linked_at].
  split; [destruct (same_header_fields t (last_pos (pe_entry pe)) _ _ Hs) as (_ & -> & _); exact Ty|].
  split; [exact new_last|]. split; [now apply with_child_max_ok|].
  exists (fun x => if x =? sy then [y] else g x). split; [symmetry; now apply flat_map_replace|].
  intros x Hx. change (sym (Z.of_nat (length pre))) with sy. unfold node'. rewrite with_child_bits by done. rewrite (accumulate_hash_params _ _ params).
  destruct (Z.eqb_spec x sy) as [->|Hne]; cbn [orb].
  - rewrite no_child. split; [done|]. exists cn. split; [|exact new_child]. exists pl, xl. split; [apply added|]. split; [done|].
    destruct (la_leaf added) as (E1 & E2 & E3). split; [exists pl; apply added|]. done.
  - pose proof (proj2 children x Hx) as Hgx. destruct (fc x) as [ch|] eqn:Ex; [|exact Hgx].
    destruct Hgx as (Hb & c2 & Hl2 & Hc2). split; [exact Hb|]. exists c2.
    split; [|now apply (kept_child (last_pos (pe_entry pe)) h c x c2 (pe_value pe)); [apply Ha|..]].
    apply (sibling_kept t t' n0 L0 t_ok params on_path_key kept kept_child P fc h c L B pre g sy pe);
      [exact on_spine|exact at_end|apply children|exact Hr|apply changed_at|exact Hl2|now apply (theight_child fc x)|].
    intros z _ Hz. rewrite no_leaves in Hz. now apply not_elem_of_nil in Hz.
Qed.

(** ** The trie *)

Lemma trie_linked : exists A, L0 = X ++ flat_map g (symbols_above sy) ++ A /\
  linked t' (tinsert (kv_mem s) n0 sym 0 kv) HASH_START_VALUE ROOT_COLOR (X ++ y :: flat_map g (symbols_above sy) ++ A).
Proof.
  destruct new_last as (z & Hz & Hml). destruct node_ok' as (_ & _ & Hlz). rewrite Hml in Hlz.
  destruct (grow t t' (kv_mem s) n0 L0 t_ok params (tr_ok _ _ (or_rep _ _ _ s_rep)) on_path_key kept kept_child kv sym z
    (walk_top P (length P - 1)) Hlz P (TBitmap fc) h c L B pre on_spine pre_key L1 (changed_at L)) as (A & L0' & E1 & E2 & E3).
  - left. split; [done|exact Hz].
  - intros i x Hi Hlt. rewrite <- Hml. now apply (la_path added).
  - exact node_linked.
  - exists A. rewrite E2 in E3. unfold L1, X in *. rewrite <- !app_assoc in *. cbn [app] in E3. split; [|exact E3].
    rewrite E1, (proj1 children), (flat_map_around g sy sy_range), no_leaves. cbn [app]. now rewrite <- !app_assoc.
Qed.

(** ** The leaf list *)

Lemma new_leaf_entry : leaf_entry t' y xl.
Proof. destruct (la_leaf added) as (E1 & E2 & E3). split; [exists pl; apply added|]. done. Qed.

Lemma new_leaf_next next : followed_by ep next -> leaf_next t' y next.
Proof. intros Hf. exists xl. split; [exact new_leaf_entry|]. exact (followed_by_next _ _ _ (la_next added) Hf). Qed.

Lemma pred_fields : entry_ok ep /\ next_leaf (set_next_leaf (locator_of y) ep) = locator_of y /\
  agrees 9 ep (set_next_leaf (locator_of y) ep).
Proof.
  pose proof (trie_entry_ok _ t_ok _ _ (la_pred_at added)) as Hok. split; [done|].
  split; [apply entry_locator_set; [done|exact y_locator]|now apply set_locator_agrees].
Qed.

Lemma head_kept x : last X = Some x -> trie_entry t' (trie_min_leaf t) = trie_entry t (trie_min_leaf t).
Proof.
  intros Hx. apply (la_rest added).
  - intros E. apply (head_not_in pl); [apply (la_holds added)|done].
  - intros E. pose proof (la_pred added) as Hp. change (B ++ _) with X in Hp. rewrite Hx in Hp. destruct Hp as (Hin & _).
    rewrite params in Hin. exact (head_not_in pp Hin (eq_sym E)).
  - intros z Hz E. destruct (path_node z Hz) as (hm & cm & Ha & _). destruct (an_holds _ _ _ _ Ha) as (Hin & _).
    rewrite params in Hin. exact (head_not_in _ Hin (eq_sym E)).
Qed.

Lemma head_step next : head_next t next ->
  match last X with Some _ => head_next t' next | None => head_next t' (Some y) /\ leaf_next t' y next end.
Proof.
  assert (Em : trie_min_leaf t' = trie_min_leaf t) by now rewrite (same_params_eq _ _ params).
  intros (e & He & Ty & Hd & Hf). destruct (last X) as [x|] eqn:El.
  - exists e. rewrite Em, (head_kept x El). done.
  - pose proof (la_pred added) as Hp. change (B ++ _) with X in Hp. rewrite El in Hp.
    pose proof (la_pred_at added) as Hpa. rewrite Hp, He in Hpa. injection Hpa as ->.
    destruct pred_fields as (_ & Hnl & Hag). split; [|now apply new_leaf_next].
    exists (set_next_leaf (locator_of y) ep). rewrite Em, <- Hp. split; [apply added|]. rewrite (agrees_type _ _ Hag).
    destruct (header_flags _ _ (agrees_header _ _ Hag)) as (-> & _). done.
Qed.

Lemma leaf_step x next : x ∈ L0 -> leaf_next t x next ->
  if decide (last X = Some x) then leaf_next t' x (Some y) /\ leaf_next t' y next else leaf_next t' x next.
Proof.
  intros Hx (e & ((q & Hq) & Ty & Hk & Hd) & Hf). destruct (forward _ _ _ Hq) as (e' & Hq' & Hs & [(z & Hz & ->)|[(Hqp & ->)|(Hqp & ->)]]).
  - exfalso. destruct (path_node z Hz) as (hm & cm & Ha & Hty). destruct (an_holds _ _ _ _ Ha) as (_ & He & _), Hq as (_ & He' & _).
    rewrite He in He'. injection He' as <-. exact (Hty Ty).
  - destruct (pred_in_table _ _ _ Hq Hqp) as (z & Hz & Ek & ->). injection Ek as Eh Ec.
    assert (z = x) as -> by (destruct (pred_leaf z Hz) as ((_ & _ & Hkz & _) & _); destruct z, x; cbn in *; congruence).
    rewrite decide_True by done. split; [|now apply new_leaf_next]. destruct pred_fields as (Hok & Hnl & Hag).
    exists (set_next_leaf (locator_of y) ep). split; [|exact Hnl]. split; [eauto|]. rewrite (agrees_type _ _ Hag). split; [done|].
    destruct (header_flags _ _ Hs) as (-> & _). split; [|done]. rewrite (agrees_kv ep); [done|done|now apply set_entry_locator_ok|done].
  - rewrite decide_False.
    + exists e. split; [|exact Hf]. split; [eauto|]. done.
    + intros El. apply Hqp. pose proof (la_pred added) as Hp. change (B ++ _) with X in Hp. rewrite El in Hp.
      exact (proj1 (holds_entry _ _ _ _ _ _ t_ok Hq Hp)).
Qed.

(** ** The invariants *)

Lemma path_bits x e' j : x ∈ P -> trie_entry t' (last_pos (pe_entry x)) = Some e' -> 0 <= j <= 32 ->
  get_bit (bits_area (pe_value x)) j = true -> get_bit (bits_area e') j = true.
Proof.
  intros Hx He' Hj Hb. pose proof (value_ok x Hx) as Hok. apply list_elem_of_lookup in Hx as (i & Hi). pose proof (lookup_lt_Some _ _ _ Hi) as Hlt.
  destruct (decide (i = length P - 1)%nat) as [->|Hne].
  - pose proof at_end as Hl. rewrite last_lookup in Hl. replace (Nat.pred (length P)) with (length P - 1)%nat in Hl by lia.
    assert (x = pe) as -> by congruence. rewrite (la_node added) in He'. injection He' as <-.
    unfold node'. rewrite with_child_bits by (done || apply sy_range). rewrite Hb. apply orb_true_r.
  - rewrite (la_path added i x Hi) in He' by lia. injection He' as <-. destruct (_ <=? _)%nat; [|exact Hb].
    rewrite (agrees_get_bit (pe_value x)); [done|done|now apply set_entry_locator_ok|now apply set_locator_agrees|done].
Qed.

Lemma root_apart q e : holds t' q (HASH_START_VALUE, ROOT_COLOR) e -> entry_parent_color e = INVALID_COLOR.
Proof.
  intros Hh. destruct (tr_root _ _ (or_rep _ _ _ s_rep)) as (er & R). destruct (forward _ _ _ R) as (e' & He' & Hs & _).
  destruct (holds_entry _ _ _ _ _ _ t'_ok Hh He') as [_ ->]. destruct (same_header_fields t root_pos _ _ Hs) as (_ & _ & _ & _ & _ & -> & _).
  exact (ow_root _ t_owned _ _ R).
Qed.

Lemma still_owned : owned t'.
Proof.
  split; [intros q h' c'' e Hh Hc|exact root_apart]. destruct (backward _ _ _ Hh) as [(_ & Ek & ->)|(e3 & Hh3 & Hs)].
  - destruct (la_parent added) as [El Ep]. injection Ek as -> ->. destruct end_node as [Ha (Ty & _)]. destruct node_ok' as (_ & Hsn & _).
    pose proof sy_range as Hr. pose proof (value_ok pe end_in) as Hok.
    exists h, (last_pos (pe_entry pe)), node'. rewrite El, Ep, (accumulate_hash_params _ _ params). split; [exact Hr|]. split; [done|].
    split; [apply (same_key _ _ (pe_value pe)); [apply Ha|exact Hsn|apply added]|].
    split; [destruct (same_header_fields t (last_pos (pe_entry pe)) _ _ Hsn) as (_ & -> & _); exact Ty|].
    unfold node'. rewrite with_child_bits by done. now rewrite Z.eqb_refl.
  - destruct (same_header_fields t q _ _ Hs) as (_ & _ & _ & _ & E1 & E2 & _). rewrite E1, E2 in *.
    destruct (ow_parent _ t_owned q _ _ e3 Hh3 Hc) as (h3 & q3 & eb & Hr & Ea & Hh4 & Ty & Hbit).
    destruct (forward _ _ _ Hh4) as (eb' & Hh5 & Hs5 & Hcase). exists h3, q3, eb'. rewrite (accumulate_hash_params _ _ params).
    split; [done|]. split; [done|]. split; [done|].
    split; [destruct (same_header_fields t q3 _ _ Hs5) as (_ & -> & _); exact Ty|].
    destruct Hcase as [(x & Hx & ->)|[(Hq & ->)|(_ & ->)]]; [| |exact Hbit].
    + destruct Hh4 as (_ & He4 & _). destruct (path_node x Hx) as (hm & cm & Ha & _). destruct (an_holds _ _ _ _ Ha) as (_ & Hex & _).
      rewrite He4 in Hex. injection Hex as ->. apply (path_bits x); [done|apply Hh5|done|exact Hbit].
    + exfalso. destruct (pred_in_table _ _ _ Hh4 Hq) as (z & Hz & _ & ->). destruct (pred_leaf z Hz) as ((_ & Ty2 & _) & _).
      rewrite Ty in Ty2. discriminate.
Qed.

Lemma new_ordered d s' :
  trie s' = t' -> kv_mem s' = kv_mem s -> tplace n0 sym 0 = at_bitmap d ->
  exists Y, L0 = X ++ Y /\ ordered_rep s' (tinsert (kv_mem s) n0 sym 0 kv) (X ++ y :: Y) /\ owned (trie s').
Proof.
  intros Et Em Hpl. destruct trie_linked as (A & E & Hl). exists (flat_map g (symbols_above sy) ++ A).
  split; [exact E|]. split; [|rewrite Et; exact still_owned]. destruct (or_rep _ _ _ s_rep) as [R1 R2 (er & R3) R4 R5]. split.
  - split; rewrite ?Et, ?Em; [exact t'_ok| | |now apply (linked_rep _ _ _ _ _ Hl)|].
    + rewrite (same_params_eq _ _ params). exact R2.
    + destruct (forward _ _ _ R3) as (e' & He' & _). eauto.
    + apply (tinsert_ok (kv_mem s) kv o kv_at o_ok o_short n0 [] R5); [intros i x Hi; discriminate|]. cbn [length]. change (Z.of_nat 0) with 0. fold sym. now rewrite Hpl.
  - rewrite Et. exact Hl.
  - rewrite Et. apply (list_inserted t t'); rewrite <- ?E; [exact t_ok|exact t'_ok|apply s_rep| |exact old_leaf|exact head_step|exact leaf_step].
    exact (linked_nodup t (kv_mem s) n0 _ _ L0 [] (or_linked _ _ _ s_rep) R5).
Qed.
End new_leaf.
