(* ===== verification/Inserted.v ===== *)
(** * What the theorems on insertion share

    [ct_insert] after a first attempt that succeeds, the lookups afterwards,
    and how a concrete state is checked. *)

From S2P Require Import Prelude Bits Entry KeyObject State Hashing Symbols Random Atomics Table Contents Scalar Finger Insert Iter Api Alloc Lookup Preserve Order Linked Spine Sample IterSpec Place Dictionary InsertSpec Fields TreeInsert Growth NewLeaf.
From stdpp Require Import base list gmap sorting.
From Stdlib Require Import ZArith Lia Bool.

#[local] Open Scope Z_scope.

(** ** [ct_insert] *)

Section inserted.
Context `{BucketLaws} `{env : Env}.
Hypothesis fuel_pos : (0 < retry_fuel)%nat.
Variables (s s' : state) (kv : Z) (o : ct_kv).
Hypothesis kv_at : kv_mem s !! kv = Some o.
Hypothesis o_ok : kv_ok o.
Hypothesis o_short : key_size o <= 255.

Lemma ct_insert_retried : retry (ct_insert_internal kv false) s = Ret SI_OK s' -> ct_insert kv s = Ret S_OK s'.
Proof.
  intros E. unfold ct_insert. erewrite bind_Ret by (apply load_kv_eq; exact kv_at). rewrite kv_key_size_eq by done.
  destruct (Z.ltb_spec MAX_KEY_BYTES (key_size o)) as [Hbig|_]; [unfold MAX_KEY_BYTES in Hbig; lia|].
  erewrite bind_Ret by exact E. reflexivity.
Qed.

Lemma ct_insert_created : ct_insert_internal kv false s = Ret SI_OK s' -> ct_insert kv s = Ret S_OK s'.
Proof. intros E. apply ct_insert_retried, retry_now; [exact fuel_pos|exact E|discriminate]. Qed.

(** Lookups when the trie [n] has become the trie with the key. *)
Lemma lookups_after n bytes :
  (forall a, is_byte (ambient_byte a)) -> trie_rep s n -> absent (kv_mem s) o (tplace n (symbol_at (kv_key o)) 0) ->
  trie_rep s' (tinsert (kv_mem s) n (symbol_at (kv_key o)) 0 kv) -> kv_mem s' = kv_mem s -> lock_mgr s' = [] ->
  bytes_ok bytes -> Z.of_nat (length bytes) <= 255 ->
  exists before, ct_lookup bytes s = Ret before (set_lock_mgr [] s) /\
    ct_lookup bytes s' = Ret (if decide (bytes = kv_key o) then Some kv else before) s'.
Proof.
  intros Ha Hr Hab Hr' Hmem Hlm Hb Hl. eexists. split; [exact (ct_lookup_spec Ha s n bytes Hr Hb Hl)|].
  rewrite (ct_lookup_spec Ha s' _ bytes Hr' Hb Hl), Hmem.
  rewrite (tinsert_lookup (kv_mem s) kv o kv_at o_ok o_short n bytes (tr_ok _ _ Hr) Hab). f_equal. destruct s'. cbn in Hlm. now subst.
Qed.
End inserted.

(** ** Concrete states *)

(** The parent of every entry with a parent color, found in the table; the root
    has none. *)
Definition ownedb (t : cuckoo_trie) : bool :=
  forallb (fun '(p, e) =>
    (entry_parent_color e =? INVALID_COLOR) ||
    let s := last_symbol e in
    let h := parent_hash t (entry_hash t p e) s in
    (0 <=? s) && (s <=? 32) && (entry_hash t p e =? accumulate_hash t h s) &&
    match holder t (h, entry_parent_color e) with
    | Some (_, eb) => (entry_type eb =? TYPE_BITMAP) && get_bit (bits_area eb) s
    | None => false
    end) (used_cells t) &&
  match holder t (HASH_START_VALUE, ROOT_COLOR) with Some (_, e) => entry_parent_color e =? INVALID_COLOR | None => true end.

Lemma ownedb_ok t : table_ok t -> ownedb t = true -> owned t.
Proof.
  intros Ht Hb. unfold ownedb in Hb. apply andb_true_iff in Hb as [Hb Hroot]. split.
  2: { intros p e Hh. destruct (holder t _) as [[q eb]|] eqn:Eq.
       - apply holder_holds in Eq; [|done]. destruct (holds_entry _ _ _ _ _ _ Ht Hh Eq) as [_ ->]. now apply Z.eqb_eq.
       - exfalso. destruct Hh as (Hp & He & Hu & Hk). pose proof (find_none _ _ Eq (p, e)) as Hf. cbv beta iota in Hf. unfold key_eqb in Hf.
         rewrite Hk, !Z.eqb_refl in Hf. discriminate Hf. apply filter_In. split; [now apply all_cells_In|exact Hu]. }
  intros p h' c e (Hp & He & Hu & Hk) Hc. rewrite forallb_forall in Hb.
  specialize (Hb (p, e)). cbv beta iota zeta in Hb. injection Hk as Eh _. rewrite Eh in Hb.
  apply Z.eqb_neq in Hc. rewrite Hc in Hb. cbn [orb] in Hb.
  assert (Hin : In (p, e) (used_cells t)) by (apply filter_In; split; [now apply all_cells_In|exact Hu]).
  specialize (Hb Hin). rewrite !andb_true_iff, !Z.leb_le, Z.eqb_eq in Hb. destruct Hb as (((H1 & H2) & H3) & H4).
  destruct (holder t _) as [[q eb]|] eqn:Eq; [|discriminate]. apply andb_true_iff in H4 as [H4 H5]. apply Z.eqb_eq in H4.
  exists (parent_hash t h' (last_symbol e)), q, eb. split; [done|]. split; [done|]. split; [now apply holder_holds|]. done.
Qed.

(** The sample keys are in the trie, a sixth key is not. *)
Definition five_of_six : state :=
  match insert_all 5 (empty_state (sample_keys ++ [[6]])) with Ret _ s => s | _ => empty_state sample_keys end.
