(* ===== verification/LeafTable.v ===== *)
(** * The table after a leaf was split

    The cells that change when [split_leaf] succeeds are listed in a section:
    the leaves and inner nodes of the new path, the leaf that became its head,
    the predecessor, and the nodes above with a new maximal leaf. The table
    then stores the trie with the new leaf, and the leaf list has two leaves
    in the place of the old one. *)

From S2P Require Import Prelude Bits Entry KeyObject State Hashing Symbols Atomics Table Contents Cells Finger Insert Api Lookup Preserve Order Linked Spine Place Frame Dictionary Fields TreeInsert Growth NewLeaf.
From stdpp Require Import base list gmap sorting.
From Stdlib Require Import ZArith Lia Bool.

#[local] Open Scope Z_scope.

(** ** The leaf list as a chain *)

(** What comes after the leaf [prev], or after the head. *)
Definition nexts (t : cuckoo_trie) (prev next : option leaf_ref) : Prop :=
  match prev with Some x => leaf_next t x next | None => head_next t next end.

(** The links from [prev] through [L] to [next]. *)
Fixpoint chain (t : cuckoo_trie) (prev : option leaf_ref) (L : list leaf_ref) (next : option leaf_ref) : Prop :=
  match L with
  | [] => nexts t prev next
  | x :: L' => nexts t prev (Some x) /\ chain t (Some x) L' next
  end.

Lemma chain_cons_app t prev X y Y next :
  chain t prev (X ++ y :: Y) next <-> chain t prev X (Some y) /\ chain t (Some y) Y next.
Proof. revert prev. induction X as [|x X IH]; intros prev; cbn [app chain]; [done|]. rewrite IH. tauto. Qed.

Lemma chain_leaves t x L next :
  chain t (Some x) L next <-> forall i z, (x :: L) !! i = Some z -> leaf_next t z (match (x :: L) !! S i with Some w => Some w | None => next end).
Proof.
  revert x. induction L as [|y L IH]; intros x; cbn [chain nexts].
  - split; [intros H [|i] z Hi; [injection Hi as <-; exact H|discriminate]|intros H; exact (H 0%nat x eq_refl)].
  - rewrite IH. split.
    + intros [H1 H2] [|i] z Hi; [injection Hi as <-; exact H1|exact (H2 i z Hi)].
    + intros H. split; [exact (H 0%nat x eq_refl)|]. intros i z Hi. exact (H (S i) z Hi).
Qed.

Lemma list_ok_chain t L :
  table_ok t -> (forall x, x ∈ L -> exists e, leaf_entry t x e) -> list_ok t L <-> chain t None L None.
Proof.
  intros Ht Hex. rewrite (list_ok_next t L Ht Hex). destruct L as [|x L]; cbn [chain nexts].
  - split; [intros [H _]; exact H|intros H; split; [exact H|intros i x Hi; discriminate]].
  - rewrite chain_leaves. split; intros [H1 H2]; (split; [exact H1|]); intros i z Hi; specialize (H2 i z Hi); now destruct ((x :: L) !! S i).
Qed.

Lemma chain_last t L : forall prev next, chain t prev L next -> nexts t (match last L with Some x => Some x | None => prev end) next.
Proof.
  induction L as [|x L IH]; intros prev next Hc; [exact Hc|]. destruct Hc as [_ Hc]. specialize (IH _ _ Hc).
  rewrite last_cons. destruct (last L); exact IH.
Qed.

Section chains.
Variables t t' : cuckoo_trie.

(** Links that stay, but the last one. *)
Lemma chain_kept_last L : forall prev next next',
  NoDup L -> (forall x, prev = Some x -> x ∉ L) -> chain t prev L next ->
  (forall prev' a, prev' = prev \/ (exists x, prev' = Some x /\ x ∈ L) -> nexts t prev' a ->
     prev' <> match last L with Some x => Some x | None => prev end -> nexts t' prev' a) ->
  nexts t' (match last L with Some x => Some x | None => prev end) next' -> chain t' prev L next'.
Proof.
  induction L as [|x L IH]; intros prev next next' Hnd Hni Hc Hk Hl; cbn [chain] in *; [exact Hl|].
  destruct Hc as [H1 H2]. apply NoDup_cons in Hnd as [Hx Hnd]. assert (El : last (x :: L) = match last L with Some y => Some y | None => Some x end).
  { destruct L; [done|]. rewrite last_cons. now destruct (last (l :: L)). }
  assert (Hlast : match last (x :: L) with Some y => Some y | None => prev end = match last L with Some y => Some y | None => Some x end)
    by (rewrite El; now destruct (last L)). rewrite Hlast in *. split.
  - apply Hk; [now left|exact H1|]. intros ->. destruct (last L) as [y|] eqn:Ey.
    + apply (Hni y); [done|]. apply list_elem_of_further. now apply last_Some_elem_of.
    + apply (Hni x); [done|]. apply list_elem_of_here.
  - apply (IH (Some x) next); [exact Hnd|intros z [= <-]; exact Hx|exact H2| |exact Hl].
    intros prev' a Hp Hn Hne. apply Hk; [|exact Hn|exact Hne]. right. destruct Hp as [->|(z & -> & Hz)]; eexists; (split; [reflexivity|]);
      [apply list_elem_of_here|now apply list_elem_of_further].
Qed.

(** Links that stay, but the first one. *)
Lemma chain_kept_first prev prev' L next :
  chain t prev L next -> (forall a, nexts t prev a -> nexts t' prev' a) -> (forall x a, x ∈ L -> leaf_next t x a -> leaf_next t' x a) ->
  chain t' prev' L next.
Proof.
  revert prev prev'. induction L as [|x L IH]; intros prev prev' Hc Hp Hk; cbn [chain] in *; [now apply Hp|].
  split; [now apply Hp|]. apply (IH (Some x)); [apply Hc| |].
  - intros a Ha. cbn [nexts] in *. apply Hk; [apply list_elem_of_here|exact Ha].
  - intros z a Hz. apply Hk. now apply list_elem_of_further.
Qed.
End chains.

(** ** A path of jump nodes *)

Fixpoint jump_nodes (t : cuckoo_trie) (ml : ct_entry_locator) (cs : list (list Z)) (h c hb cb : Z) : Prop :=
  match cs with
  | [] => h = hb /\ c = cb
  | syms :: cs' => exists q e, holds t q (h, c) e /\ entry_type e = TYPE_JUMP /\ entry_jump_size e = Z.of_nat (length syms) /\
      (forall i s, syms !! i = Some s -> get_jump_symbol e (Z.of_nat i) = s) /\ max_leaf e = ml /\
      jump_nodes t ml cs' (accumulate_list t h syms) (entry_child_color e) hb cb
  end.

Lemma jump_nodes_linked t z cs n hb cb L : linked t n hb cb L -> last L = Some z ->
  forall h c, jump_nodes t (locator_of z) cs h c hb cb -> linked t (jump_chain cs n) h c L.
Proof.
  intros Hn Hz. induction cs as [|syms cs IH]; intros h c Hj; cbn [jump_nodes jump_chain foldr] in *; [destruct Hj as [-> ->]; exact Hn|].
  destruct Hj as (q & e & H1 & H2 & H3 & H4 & H5 & H6). apply linked_unfold. exists q, e. split; [exact H1|]. cbn [linked_at].
  do 3 (split; [done|]). split; [now exists z|]. exact (IH _ _ H6).
Qed.

Lemma accumulate_list_app t h a b : accumulate_list t h (a ++ b) = accumulate_list t (accumulate_list t h a) b.
Proof. apply fold_left_app. Qed.

Lemma jump_nodes_hash t ml fuel : forall l h c hb cb, (length l <= fuel)%nat ->
  jump_nodes t ml (chunks fuel l) h c hb cb -> hb = accumulate_list t h l.
Proof.
  induction fuel as [|fuel IH]; intros l h c hb cb Hlen Hj; (destruct l as [|x l]; [cbn in Hj; now destruct Hj as [-> _]|]); cbn [length] in Hlen; [lia|].
  cbn [chunks jump_nodes] in Hj. set (l0 := x :: l) in *. destruct Hj as (q & e & _ & _ & _ & _ & _ & Hj).
  apply IH in Hj; [|rewrite length_drop; unfold l0; cbn [length]; lia]. now rewrite Hj, <- accumulate_list_app, take_drop.
Qed.

(** ** Two symbols *)

Definition two_lists (s1 s2 : Z) (y1 y2 : leaf_ref) (s : Z) : list leaf_ref :=
  if s =? s1 then [y1] else if s =? s2 then [y2] else [].

Lemma flat_map_two s1 s2 y1 y2 : 0 <= s1 -> s1 < s2 -> s2 <= 32 -> flat_map (two_lists s1 s2 y1 y2) all_symbols = [y1; y2].
Proof.
  intros H1 H2 H3. rewrite (flat_map_around _ s1 ltac:(lia)). unfold two_lists at 2. rewrite Z.eqb_refl.
  rewrite (flat_map_nil _ (symbols_below s1)).
  2: { intros x Hx. apply elem_of_symbols_between in Hx. unfold two_lists.
       destruct (Z.eqb_spec x s1); [lia|]. destruct (Z.eqb_spec x s2); [lia|done]. }
  cbn [app]. f_equal. assert (Ea : symbols_above s1 = symbols_between (S (Z.to_nat s1)) (Z.to_nat s2) ++ s2 :: symbols_above s2).
  { unfold symbols_above. rewrite (symbols_between_app (S (Z.to_nat s1)) (Z.to_nat s2) 33) by lia.
    rewrite (symbols_between_cons (Z.to_nat s2) 33) by lia. now rewrite Z2Nat.id by lia. }
  rewrite Ea, flat_map_app. cbn [flat_map]. rewrite !flat_map_nil.
  - unfold two_lists. destruct (Z.eqb_spec s2 s1); [lia|]. now rewrite Z.eqb_refl.
  - intros x Hx. apply elem_of_symbols_between in Hx. unfold two_lists. destruct (Z.eqb_spec x s1); [lia|]. destruct (Z.eqb_spec x s2); [lia|done].
  - intros x Hx. apply elem_of_symbols_between in Hx. unfold two_lists. destruct (Z.eqb_spec x s1); [lia|]. destruct (Z.eqb_spec x s2); [lia|done].
Qed.

(** A bitmap node with two leaves. *)
Lemma two_linked t q e h c s1 s2 kv1 kv2 c1 c2 y1 y2 f :
  holds t q (h, c) e -> entry_type e = TYPE_BITMAP -> max_leaf e = locator_of y2 -> max_child e = s2 ->
  (forall j, 0 <= j <= 32 -> get_bit (bits_area e) j = (j =? s1) || (j =? s2)) -> 0 <= s1 /\ s1 < s2 /\ s2 <= 32 ->
  linked t (TLeaf kv1) (accumulate_hash t h s1) c1 [y1] -> linked t (TLeaf kv2) (accumulate_hash t h s2) c2 [y2] ->
  child_of t h c s1 c1 -> child_of t h c s2 c2 ->
  (forall j, f j = if j =? s1 then Some (TLeaf kv1) else if j =? s2 then Some (TLeaf kv2) else None) ->
  linked t (TBitmap f) h c [y1; y2].
Proof.
  intros Hh Ty Hml Hmc Hbits Hs L1 L2 C1 C2 Hf. apply linked_unfold. exists q, e. split; [exact Hh|]. cbn [linked_at]. split; [exact Ty|].
  split; [exists y2; split; [reflexivity|exact Hml]|]. split.
  { unfold max_child_ok. rewrite Hmc. split; [lia|]. rewrite Hbits, Z.eqb_refl, orb_true_r by lia. split; [done|].
    intros j Hj. rewrite Hbits by lia. intros [->%Z.eqb_eq| ->%Z.eqb_eq]%orb_true_iff; lia. }
  exists (two_lists s1 s2 y1 y2). split; [symmetry; apply flat_map_two; lia|]. intros j Hj. rewrite Hbits, Hf by lia. unfold two_lists.
  destruct (Z.eqb_spec j s1) as [->|N1]; [split; [done|]; now exists c1|].
  destruct (Z.eqb_spec j s2) as [->|N2]; [split; [done|]; now exists c2|done].
Qed.

Lemma two_leaves_order a kva b kvb : a <> b ->
  forall j, (if j =? a then Some (TLeaf kva) else if j =? b then Some (TLeaf kvb) else None) =
    if j =? (if b <? a then b else a) then Some (TLeaf (if b <? a then kvb else kva))
    else if j =? (if b <? a then a else b) then Some (TLeaf (if b <? a then kva else kvb)) else None.
Proof.
  intros Hne j. destruct (b <? a); [|done]. destruct (Z.eqb_spec j a) as [->|]; [|now destruct (j =? b)].
  destruct (Z.eqb_spec a b); [lia|done].
Qed.

Lemma in_order a b : a <> b -> 0 <= a <= 32 -> 0 <= b <= 32 ->
  0 <= (if a <? b then a else b) /\ (if a <? b then a else b) < (if a <? b then b else a) /\ (if a <? b then b else a) <= 32.
Proof. intros Hne Ha Hb. destruct (Z.ltb_spec a b); lia. Qed.

(** ** The new table *)

Section split.
Variables (s : state) (n0 : tnode) (L0 : list leaf_ref).
Hypothesis s_rep : ordered_rep s n0 L0.
Variables (kv : Z) (o : ct_kv).
Hypothesis kv_at : kv_mem s !! kv = Some o.
Hypothesis o_ok : kv_ok o.
Hypothesis o_short : key_size o <= 255.

Let t : cuckoo_trie := trie s.
Let sym : Z -> Z := symbol_at (kv_key o).

(** The path to the leaf. *)
Variables (P : list ct_path_entry) (old h c : Z) (L B : list leaf_ref) (pre : list Z) (pe : ct_path_entry).
Hypothesis on_spine : spine t n0 L0 P (TLeaf old) h c L B pre.
Hypothesis at_end : last P = Some pe.
Hypothesis pre_key : along sym pre.
Hypothesis at_place : tplace n0 sym 0 = at_leaf old (Z.of_nat (length pre)).
Hypothesis other_key : absent (kv_mem s) o (at_leaf old (Z.of_nat (length pre))).
Hypothesis t_owned : owned t.

(** The two keys and the symbols where they part. *)
Let osym : Z -> Z := kv_symbol (kv_mem s) old.
Let k : Z := Z.of_nat (length pre).
Let common : list Z := shared SPLIT_ROUNDS osym sym k.
Let es : Z := osym (k + Z.of_nat (length common)).
Let ns : Z := sym (k + Z.of_nat (length common)).
Let is_max : bool := es <? ns.
Let s1 : Z := if is_max then es else ns.
Let s2 : Z := if is_max then ns else es.
Let kv1 : Z := if is_max then old else kv.
Let kv2 : Z := if is_max then kv else old.

(** The new table: leaves [x1] and [x2] in cells [p1] and [p2] below the bitmap
    node [eb], of hash [hb] and color [cb], in cell [pb]; the head [eh] of the path
    is where the leaf was. All cells that were unused before are in [newp]. *)
Variables (t' : cuckoo_trie) (newp : list pos) (p1 p2 pb pp : pos) (x1 x2 eb eh ep : ct_entry) (hb cb c1 c2 : Z).
Hypothesis t'_ok : table_ok t'.
Hypothesis params : same_params t t'.

Let y1 : leaf_ref := mk_leaf_ref (accumulate_hash t hb s1) c1 kv1.
Let y2 : leaf_ref := mk_leaf_ref (accumulate_hash t hb s2) c2 kv2.

Record leaf_split : Prop := mk_leaf_split {
  ls_free : forall q e, q ∈ newp -> trie_entry t q = Some e -> used e = false;
  ls_min : p1 ∈ newp /\ holds t' p1 (lr_hash y1, c1) x1 /\ leaf_fields cb s1 kv1 x1 /\ next_leaf x1 = locator_of y2;
  ls_max : p2 ∈ newp /\ holds t' p2 (lr_hash y2, c2) x2 /\ leaf_fields cb s2 kv2 x2 /\ next_leaf x2 = next_leaf (pe_value pe);
  ls_others : forall q e, q ∈ newp -> q <> p1 -> q <> p2 -> trie_entry t' q = Some e -> entry_parent_color e = INVALID_COLOR;
  ls_head : holds t' (last_pos (pe_entry pe)) (h, c) eh /\
    (last_symbol eh = last_symbol (pe_value pe) \/ entry_parent_color (pe_value pe) = INVALID_COLOR) /\
    entry_parent_color eh = entry_parent_color (pe_value pe);
  ls_jumps : jump_nodes t' (locator_of y2) (chunks (length common) common) h c hb cb;
  ls_bitmap : holds t' pb (hb, cb) eb /\ entry_type eb = TYPE_BITMAP /\ max_leaf eb = locator_of y2 /\ max_child eb = s2 /\
    (forall j, 0 <= j <= 32 -> get_bit (bits_area eb) j = (j =? s1) || (j =? s2)) /\ (pb ∈ newp \/ pb = last_pos (pe_entry pe));
  ls_pred : match last B with
            | Some x => holds t pp (lr_hash x, lr_color x) ep
            | None => pp = trie_min_leaf t
            end;
  ls_pred_at : trie_entry t pp = Some ep;
  ls_pred_at' : trie_entry t' pp = Some (set_next_leaf (locator_of y1) ep);
  ls_path : forall i x, P !! i = Some x -> (i < length P - 1)%nat ->
    trie_entry t' (last_pos (pe_entry x)) =
    Some (if (walk_top P (length P - 1) <=? i)%nat then set_max_leaf (locator_of y2) (pe_value x) else pe_value x);
  ls_rest : forall q, q ∉ newp -> q <> pp -> (forall x, x ∈ P -> q <> last_pos (pe_entry x)) -> trie_entry t' q = trie_entry t q;
}.
Hypothesis has_split : leaf_split.

Lemma table_before : table_ok t.
Proof. exact (tr_table _ _ (or_rep _ _ _ s_rep)). Qed.

(** ** The two keys *)

Lemma keys_apart : exists oe, kv_mem s !! old = Some oe /\ bytes_ok (kv_key oe) /\ osym = symbol_at (kv_key oe) /\ kv_key oe <> kv_key o /\
  forall i, 0 <= i < k -> symbol_at (kv_key oe) i = sym i.
Proof.
  pose proof (spine_ok _ (kv_mem s) _ _ _ _ _ _ _ _ _ on_spine (tr_ok _ _ (or_rep _ _ _ s_rep))) as Hok.
  destruct (leaf_differs (kv_mem s) o pre old Hok pre_key other_key) as (oe & H1 & H2 & H3 & H4 & H5). exists oe. done.
Qed.

Lemma parted : es <> ns /\ 0 <= es <= 32 /\ 0 <= ns <= 32.
Proof.
  destruct keys_apart as (oe & _ & Hb & Eo & Hne & Hbef). destruct (key_facts o o_ok o_short) as [Hb' Hn].
  pose proof (shared_differ (kv_key oe) (kv_key o) Hb Hb' Hn k ltac:(unfold k; lia) Hbef Hne) as Hd.
  unfold es, ns, common. rewrite Eo. split; [exact Hd|]. split; apply symbol_range.
Qed.

Lemma symbols_ordered : 0 <= s1 /\ s1 < s2 /\ s2 <= 32.
Proof. destruct parted as (Hne & He & Hn). exact (in_order es ns Hne He Hn). Qed.

Lemma split_tree_eq : tinsert (kv_mem s) (TLeaf old) sym k kv =
  jump_chain (chunks (length common) common) (two_leaves ns kv es old).
Proof. reflexivity. Qed.

(** ** The entry of the leaf *)

Lemma end_leaf : at_node t pe h c /\ L = [mk_leaf_ref h c old] /\ leaf_entry t (mk_leaf_ref h c old) (pe_value pe).
Proof. destruct (spine_end _ _ _ _ _ _ _ _ _ _ _ on_spine at_end) as (H1 & (H2 & H3) & _). done. Qed.

Lemma leaf_in_path : pe ∈ P.
Proof. now apply last_Some_elem_of. Qed.

Lemma nth_end i x : P !! i = Some x -> i = (length P - 1)%nat -> x = pe.
Proof.
  intros Hi ->. pose proof at_end as Hl. rewrite last_lookup in Hl. pose proof (lookup_lt_Some _ _ _ Hi).
  replace (Nat.pred (length P)) with (length P - 1)%nat in Hl by lia. congruence.
Qed.

Lemma path_at x : x ∈ P -> exists hm cm, at_node t x hm cm /\ (x <> pe -> entry_type (pe_value x) <> TYPE_LEAF).
Proof.
  intros Hx. pose proof (spine_above_nodes _ _ _ _ _ _ _ _ _ _ on_spine) as Hup.
  destruct (proj1 (Forall_forall _ _) Hup x Hx) as (nm & hm & cm & Lm & Ha & Hl & _ & Hsub). exists hm, cm. split; [exact Ha|]. intros Hne Ty.
  apply linked_unfold in Hl as (p & e & Hp & Hat). destruct (holds_entry _ _ _ _ _ _ table_before Hp (an_holds _ _ _ _ Ha)) as [_ ->].
  destruct (is_leaf nm) eqn:E; [|now destruct (linked_at_inner _ _ _ _ _ _ E Hat)].
  (* a leaf of the path is the last one *)
  destruct nm as [kvm| |]; try discriminate. destruct Hat as (-> & _). destruct end_leaf as (Hae & EL & _). rewrite EL in Hsub.
  specialize (Hsub _ (list_elem_of_here _ _)). apply list_elem_of_singleton in Hsub. injection Hsub as <- <- _.
  apply list_elem_of_lookup in Hx as (i & Hi). pose proof leaf_in_path as Hend. pose proof at_end as Hl. rewrite last_lookup in Hl.
  pose proof (lookup_lt_Some _ _ _ Hi). destruct (decide (i = Nat.pred (length P))) as [->|Hd]; [congruence|].
  apply (spine_distinct _ _ _ _ _ _ _ _ _ _ table_before on_spine i (Nat.pred (length P)) x pe ltac:(lia) Hi Hl).
  exact (proj1 (holds_entry _ _ _ _ _ _ table_before (an_holds _ _ _ _ Ha) (an_holds _ _ _ _ Hae))).
Qed.

Lemma path_value_ok x : x ∈ P -> entry_ok (pe_value x).
Proof. intros Hx. destruct (path_at x Hx) as (hm & cm & Ha & _). exact (proj1 (holds_ok _ table_before _ _ _ (an_holds _ _ _ _ Ha))). Qed.

Lemma y2_ok : locator_ok (locator_of y2) /\ locator_ok (locator_of y1).
Proof.
  pose proof (params_bound _ (tb_params _ t'_ok)). split.
  - destruct (ls_max has_split) as (_ & Hh & _). destruct (holds_ok _ t'_ok _ _ _ Hh) as (_ & H1 & H2). cbn [fst snd] in H1, H2.
    destruct (hash_parts _ (tb_params _ t'_ok) _ H1) as (Hb & Ht & _). change MAX_VALID_COLOR with 8 in H2.
    unfold locator_ok, is_byte. cbn [locator_of loc_primary_bucket loc_tag loc_color lr_color y2] in *. lia.
  - destruct (ls_min has_split) as (_ & Hh & _). destruct (holds_ok _ t'_ok _ _ _ Hh) as (_ & H1 & H2). cbn [fst snd] in H1, H2.
    destruct (hash_parts _ (tb_params _ t'_ok) _ H1) as (Hb & Ht & _). change MAX_VALID_COLOR with 8 in H2.
    unfold locator_ok, is_byte. cbn [locator_of loc_primary_bucket loc_tag loc_color lr_color y1] in *. lia.
Qed.

(** A node of the path in the new table. *)
Lemma path_after x : x ∈ P -> exists e', trie_entry t' (last_pos (pe_entry x)) = Some e' /\
  ((x = pe /\ e' = eh) \/ (last_pos (pe_entry x) <> last_pos (pe_entry pe) /\ agrees 9 (pe_value x) e' /\ entry_ok e')).
Proof.
  intros Hx. pose proof Hx as Hi. apply list_elem_of_lookup in Hi as (i & Hi). pose proof (lookup_lt_Some _ _ _ Hi) as Hlt.
  destruct (decide (i = length P - 1)%nat) as [E|Hne].
  - pose proof (nth_end i x Hi E) as ->. destruct (ls_head has_split) as ((_ & He & _) & _). exists eh. split; [exact He|]. now left.
  - rewrite (ls_path has_split i x Hi) by lia. eexists. split; [reflexivity|]. right. pose proof (path_value_ok x Hx) as Hok. split.
    + pose proof at_end as Hl. rewrite last_lookup in Hl.
      exact (spine_distinct _ _ _ _ _ _ _ _ _ _ table_before on_spine i (Nat.pred (length P)) x pe ltac:(lia) Hi Hl).
    + destruct (_ <=? _)%nat; [|done]. split; [now apply set_locator_agrees|now apply set_entry_locator_ok].
Qed.

Lemma leaf_key : holds t (last_pos (pe_entry pe)) (h, c) (pe_value pe).
Proof. apply end_leaf. Qed.

(** ** Old entries in the new table *)

Lemma same_key_after q k0 e e' : holds t q k0 e -> same_header e' e -> trie_entry t' q = Some e' -> holds t' q k0 e'.
Proof.
  intros (H1 & H2 & H3 & H4) Hs He. destruct (same_header_fields t q _ _ Hs) as (F1 & _ & F3 & _).
  split; [now rewrite <- params|]. split; [done|]. split; [congruence|]. rewrite <- params. congruence.
Qed.

Lemma path_pos_dec q : Decision (exists x, x ∈ P /\ q = last_pos (pe_entry x)).
Proof.
  destruct (decide (q ∈ (fun x => last_pos (pe_entry x)) <$> P)) as [H|H]; rewrite list_elem_of_fmap in H; [left|right; intros (x & H1 & H2); apply H; eauto].
  destruct H as (x & H1 & H2). eauto.
Qed.

Lemma head_outside q : in_table t' q -> q <> trie_min_leaf t.
Proof.
  intros Hin ->. rewrite <- params in Hin. unfold in_table in Hin. cbn [pos_bucket trie_min_leaf] in Hin.
  unfold min_leaf_bucket in Hin. pose proof (tb_length _ table_before). lia.
Qed.

(** What an old entry became. *)
Definition became (q : pos) (e e' : ct_entry) : Prop :=
  (q = last_pos (pe_entry pe) /\ e = pe_value pe /\ e' = eh) \/
  ((exists x, x ∈ P /\ q = last_pos (pe_entry x) /\ e = pe_value x /\ q <> last_pos (pe_entry pe)) /\ agrees 9 e e' /\ entry_ok e') \/
  (q = pp /\ e' = set_next_leaf (locator_of y1) e) \/ (q <> pp /\ e' = e).

Lemma entry_after q k0 e : holds t q k0 e -> exists e', holds t' q k0 e' /\ became q e e'.
Proof.
  intros Hh. pose proof Hh as (Hin & He & Hu & Hk). destruct (path_pos_dec q) as [Hp|Hp].
  - destruct Hp as (x & Hx & ->). destruct (path_after x Hx) as (e' & He' & Hor). destruct (path_at x Hx) as (hm & cm & Ha & _).
    pose proof (an_holds _ _ _ _ Ha) as (_ & Ex & _ & Kx). assert (e = pe_value x) as -> by (unfold pe_value; congruence).
    destruct Hor as [[-> ->]|(Hne & Hag & Hok')].
    + exists eh. destruct (ls_head has_split) as (Hh' & _). split; [|now left]. destruct leaf_key as (_ & _ & _ & Kl). now rewrite <- Hk, Kl.
    + exists e'. split; [exact (same_key_after _ _ _ _ Hh (agrees_header _ _ Hag) He')|]. right. left. split; [eauto|done].
  - destruct (decide (q = pp)) as [->|Hne].
    + assert (e = ep) as -> by (pose proof (ls_pred_at has_split); congruence). exists (set_next_leaf (locator_of y1) ep).
      assert (Hs : same_header (set_next_leaf (locator_of y1) ep) ep) by (apply agrees_header, set_locator_agrees, (trie_entry_ok _ table_before _ _ He)).
      split; [exact (same_key_after _ _ _ _ Hh Hs (ls_pred_at' has_split))|]. right. right. now left.
    + exists e. assert (Hq : q ∉ newp) by (intros Hq; rewrite (ls_free has_split q e Hq He) in Hu; discriminate).
      assert (E : trie_entry t' q = Some e) by (rewrite (ls_rest has_split q Hq Hne); [done|intros x Hx ->; apply Hp; eauto]).
      split; [now apply (same_key_after _ _ e)|]. right. right. now right.
Qed.

(** Every entry keeps its symbol and its parent's color. *)
Lemma became_child q k0 e e' : holds t q k0 e -> became q e e' ->
  (last_symbol e' = last_symbol e \/ entry_parent_color e = INVALID_COLOR) /\ entry_parent_color e' = entry_parent_color e.
Proof.
  intros Hh [(_ & -> & ->)|[(_ & Hag & _)|[(_ & ->)|(_ & ->)]]]; [apply (ls_head has_split)| | |now split; [left|]].
  - destruct (same_header_fields t q _ _ (agrees_header _ _ Hag)) as (_ & _ & _ & _ & E1 & E2 & _). now split; [left|].
  - pose proof (proj1 (holds_ok _ table_before _ _ _ Hh)) as Hok.
    destruct (same_header_fields t q _ _ (agrees_header _ _ (set_locator_agrees (locator_of y1) e Hok))) as (_ & _ & _ & _ & E1 & E2 & _).
    now split; [left|].
Qed.

(** Children of bitmap nodes keep both. *)
Lemma became_real_child q k0 e e' c0 : holds t q k0 e -> became q e e' -> c0 <= MAX_VALID_COLOR ->
  (entry_parent_color e = c0 \/ entry_parent_color e' = c0) -> last_symbol e' = last_symbol e /\ entry_parent_color e' = entry_parent_color e.
Proof.
  intros Hh Hb Hc Hor. destruct (became_child _ _ _ _ Hh Hb) as [[E1|E1] E2]; [done|].
  change MAX_VALID_COLOR with 8 in Hc. change INVALID_COLOR with 9 in E1. lia.
Qed.

Lemma entry_before q k0 e' : holds t' q k0 e' ->
  (q ∈ newp /\ ((k0 = (lr_hash y1, c1) /\ e' = x1) \/ (k0 = (lr_hash y2, c2) /\ e' = x2) \/ entry_parent_color e' = INVALID_COLOR)) \/
  exists e, holds t q k0 e /\ became q e e'.
Proof.
  intros Hh. pose proof Hh as (Hin & He & Hu & Hk). destruct (decide (q ∈ newp)) as [Hq|Hq].
  { left. split; [done|]. destruct (decide (q = p1)) as [->|H1].
    - left. destruct (ls_min has_split) as (_ & Hh1 & _). pose proof Hh1 as (_ & E1 & _ & K1). split; congruence.
    - right. destruct (decide (q = p2)) as [->|H2]; [left|right; exact (ls_others has_split q e' Hq H1 H2 He)].
      destruct (ls_max has_split) as (_ & Hh1 & _). pose proof Hh1 as (_ & E1 & _ & K1). split; congruence. }
  right. assert (Hold : forall k1 e, holds t q k1 e -> exists e, holds t q k0 e /\ became q e e').
  { intros k1 e H0. destruct (entry_after q k1 e H0) as (e2 & (_ & He2 & _ & Hk2) & Hb). rewrite He in He2. injection He2 as <-.
    rewrite Hk in Hk2. subst k1. eauto. }
  destruct (path_pos_dec q) as [(x & Hx & ->)|Hp].
  - destruct (path_at x Hx) as (hm & cm & Ha & _). exact (Hold _ _ (an_holds _ _ _ _ Ha)).
  - destruct (decide (q = pp)) as [->|Hne].
    + pose proof (ls_pred has_split) as Hpr. destruct (last B) as [x|]; [exact (Hold _ _ Hpr)|]. exfalso. exact (head_outside _ Hin Hpr).
    + exists e'. rewrite (ls_rest has_split q Hq Hne) in He by (intros x Hx ->; apply Hp; eauto).
      split; [|right; right; now right]. split; [now rewrite params|]. split; [done|]. split; [done|]. now rewrite params.
Qed.

(** ** Subtrees and children *)

Lemma leaves_of x : x ∈ L0 -> exists e, leaf_entry t x e.
Proof. apply linked_leaf with (1 := or_linked _ _ _ s_rep). Qed.

Lemma around : exists A, L0 = B ++ mk_leaf_ref h c old :: A.
Proof.
  destruct (spine_leaves _ _ _ _ _ _ _ _ _ _ on_spine) as (A & E). exists A. rewrite E. now rewrite (proj1 (proj2 end_leaf)).
Qed.

Lemma pred_is_leaf x : last B = Some x -> leaf_entry t x ep /\ x ∈ L0.
Proof.
  intros Hx. pose proof (ls_pred has_split) as Hp. rewrite Hx in Hp.
  assert (Hin : x ∈ L0) by (destruct around as (A & ->); apply elem_of_app; left; now apply last_Some_elem_of).
  destruct (leaves_of x Hin) as (e & He). pose proof He as ((q & Hq) & _). destruct (holds_entry _ _ _ _ _ _ table_before Hq Hp) as [_ ->]. done.
Qed.

Lemma pred_found q k0 e : holds t q k0 e -> q = pp -> exists x, last B = Some x /\ k0 = (lr_hash x, lr_color x) /\ e = ep.
Proof.
  intros (Hin & He & Hu & Hk) ->. pose proof (ls_pred has_split) as Hp. destruct (last B) as [x|].
  - exists x. split; [done|]. destruct Hp as (_ & He' & _ & Hk'). split; congruence.
  - exfalso. rewrite params in Hin. exact (head_outside pp Hin Hp).
Qed.

Definition path_key (k0 : Z * Z) : Prop := exists x, x ∈ P /\ at_node t x (fst k0) (snd k0).

Lemma path_has_key x q k0 e : x ∈ P -> q = last_pos (pe_entry x) -> holds t q k0 e -> path_key k0.
Proof.
  intros Hx -> (_ & He & _ & Hk). destruct (path_at x Hx) as (hm & cm & Ha & _). exists x. split; [done|].
  pose proof (an_holds _ _ _ _ Ha) as (_ & He' & _ & Ek). rewrite He in He'. injection He' as ->. rewrite <- Hk. now rewrite Ek.
Qed.

Lemma others_kept q k0 e : holds t q k0 e -> ~ path_key k0 -> exists e', holds t' q k0 e' /\ alike e e'.
Proof.
  intros Hh Hk. destruct (entry_after q k0 e Hh) as (e' & Hh' & Hb). exists e'. split; [exact Hh'|].
  destruct Hb as [(Eq & _)|[((x & Hx & Eq & _) & _)|[(Hq & ->)|(_ & ->)]]].
  - exfalso. apply Hk. exact (path_has_key pe q k0 e leaf_in_path Eq Hh).
  - exfalso. apply Hk. exact (path_has_key x q k0 e Hx Eq Hh).
  - destruct (pred_found q k0 e Hh Hq) as (x & Hx & _ & ->). destruct (pred_is_leaf x Hx) as ((_ & Ty & _) & _).
    pose proof (trie_entry_ok _ table_before _ _ (ls_pred_at has_split)) as Hok. pose proof (set_locator_agrees (locator_of y1) ep Hok) as Hag.
    split; [apply (agrees_type _ _ Hag)|congruence|apply agrees_kv; [done|now apply set_entry_locator_ok|done]|].
    now destruct (header_flags _ _ (agrees_header _ _ Hag)) as (-> & _).
  - apply alike_refl.
Qed.

(** The new bitmap node is none of the old ones. *)
Lemma bitmap_is_new q e : holds t q (hb, cb) e -> entry_type e = TYPE_BITMAP -> False.
Proof.
  intros Hh Ty. destruct (ls_bitmap has_split) as (Hb & _ & _ & _ & _ & Hor). destruct (entry_after _ _ _ Hh) as (e' & Hh' & _).
  pose proof (tb_unique _ t'_ok _ _ _ _ _ Hh' Hb) as ->. destruct Hor as [Hn| ->].
  - destruct Hh as (_ & He & Hu & _). rewrite (ls_free has_split _ _ Hn He) in Hu. discriminate.
  - destruct Hh as (_ & He & _). destruct leaf_key as (_ & He' & _). rewrite He in He'. injection He' as ->.
    destruct end_leaf as (_ & _ & (_ & Ty' & _)). rewrite Ty in Ty'. discriminate.
Qed.

Lemma hb_ok : hash_ok t hb /\ 0 <= cb <= MAX_VALID_COLOR.
Proof.
  destruct (ls_bitmap has_split) as (Hb & _). destruct (holds_ok _ t'_ok _ _ _ Hb) as (_ & H1 & H2). split; [|exact H2].
  cbn [fst] in H1. unfold hash_ok in *. rewrite (same_params_eq _ _ params) in H1. exact H1.
Qed.

(** A new leaf as a child: of the bitmap node only. *)
Lemma new_leaf_parent h1 s0 x cl kvl :
  leaf_fields cb s0 kvl x -> hash_ok t h1 -> 0 <= s0 <= 32 -> accumulate_hash t h1 (last_symbol x) = accumulate_hash t hb s0 ->
  entry_parent_color x = cl -> h1 = hb /\ cl = cb.
Proof.
  intros Hf Hh1 Hr Ea <-. rewrite (lf_symbol _ _ _ _ Hf) in Ea. split; [|apply Hf].
  apply (f_equal (fun z => parent_hash t z s0)) in Ea. rewrite !parent_accumulate in Ea; (done || apply hb_ok || apply table_before || lia).
Qed.

Lemma children_kept q h1 c0 s0 c' e : holds t q (h1, c0) e -> entry_type e = TYPE_BITMAP -> 0 <= s0 <= 32 -> get_bit (bits_area e) s0 = true ->
  child_of t h1 c0 s0 c' -> child_of t' h1 c0 s0 c'.
Proof.
  intros Hh Ty Hr Hb [(q1 & e1 & Hh1 & Hl1 & Hp1) Hu]. unfold child_of. rewrite !(accumulate_hash_params _ _ params).
  destruct (holds_ok _ table_before _ _ _ Hh) as (_ & Hh1ok & Hc0). cbn [fst snd] in Hh1ok, Hc0. destruct symbols_ordered as (S1 & S2 & S3). split.
  - destruct (entry_after _ _ _ Hh1) as (e' & Hh' & Hbc). destruct (became_real_child _ _ _ _ c0 Hh1 Hbc ltac:(lia) (or_introl Hp1)) as [E1 E2].
    exists q1, e'. split; [exact Hh'|]. split; congruence.
  - intros q2 c2' e2 Hh2 Hl2 Hp2. destruct (entry_before _ _ _ Hh2) as [(_ & Hcase)|(e3 & Hh3 & Hbc)].
    + exfalso. destruct Hcase as [(Ek & ->)|[(Ek & ->)|Ei]].
      * injection Ek as Ea _. destruct (ls_min has_split) as (_ & _ & Hf & _). rewrite <- Hl2 in Ea.
        destruct (new_leaf_parent h1 s1 x1 c0 kv1 Hf Hh1ok ltac:(lia) Ea Hp2) as [-> ->]. exact (bitmap_is_new _ _ Hh Ty).
      * injection Ek as Ea _. destruct (ls_max has_split) as (_ & _ & Hf & _). rewrite <- Hl2 in Ea.
        destruct (new_leaf_parent h1 s2 x2 c0 kv2 Hf Hh1ok ltac:(lia) Ea Hp2) as [-> ->]. exact (bitmap_is_new _ _ Hh Ty).
      * rewrite Hp2 in Ei. change MAX_VALID_COLOR with 8 in Hc0. change INVALID_COLOR with 9 in Ei. lia.
    + destruct (became_real_child _ _ _ _ c0 Hh3 Hbc ltac:(lia) (or_intror Hp2)) as [E1 E2]. apply (Hu q2 c2' e3 Hh3); congruence.
Qed.

Lemma no_old_child q e s0 c' : holds t q (accumulate_hash t hb s0, c') e -> 0 <= s0 <= 32 -> last_symbol e = s0 -> entry_parent_color e = cb -> False.
Proof.
  intros Hh Hr Hl Hp. destruct hb_ok as [Hb Hc]. destruct (ow_parent _ t_owned q _ _ e Hh) as (h3 & q3 & eb3 & Hr3 & Ea & Hh4 & Ty & _).
  { rewrite Hp. change MAX_VALID_COLOR with 8 in Hc. change INVALID_COLOR with 9. lia. }
  rewrite Hp in Hh4. rewrite Hl in Ea. destruct (holds_ok _ table_before _ _ _ Hh4) as (_ & H1 & _). cbn [fst] in H1.
  apply (f_equal (fun x => parent_hash t x s0)) in Ea. rewrite !parent_accumulate in Ea by (done || apply table_before || lia). subst h3.
  exact (bitmap_is_new _ _ Hh4 Ty).
Qed.

(** The two leaves are the children of the bitmap node. *)
Lemma new_children : child_of t' hb cb s1 c1 /\ child_of t' hb cb s2 c2.
Proof.
  destruct symbols_ordered as (S1 & S2 & S3). destruct (ls_min has_split) as (_ & M1 & M2 & _), (ls_max has_split) as (_ & M3 & M4 & _).
  destruct hb_ok as [Hb Hc]. change MAX_VALID_COLOR with 8 in Hc.
  assert (Hother : forall q s0 c' e, 0 <= s0 <= 32 -> holds t' q (accumulate_hash t hb s0, c') e -> last_symbol e = s0 -> entry_parent_color e = cb ->
    (s0 = s1 /\ c' = c1) \/ (s0 = s2 /\ c' = c2)).
  { intros q s0 c' e Hr Hh Hl Hp. destruct (entry_before _ _ _ Hh) as [(_ & [(Ek & ->)|[(Ek & ->)|Ei]])|(e3 & Hh3 & Hbc)].
    - left. rewrite (lf_symbol _ _ _ _ M2) in Hl. now injection Ek as _ ->.
    - right. rewrite (lf_symbol _ _ _ _ M4) in Hl. now injection Ek as _ ->.
    - exfalso. rewrite Hp in Ei. change INVALID_COLOR with 9 in Ei. lia.
    - exfalso. destruct (became_real_child _ _ _ _ cb Hh3 Hbc ltac:(change MAX_VALID_COLOR with 8; lia) (or_intror Hp)) as [E1 E2]. apply (no_old_child q e3 s0 c' Hh3 Hr); congruence. }
  unfold child_of. rewrite !(accumulate_hash_params _ _ params). split; split.
  - exists p1, x1. split; [exact M1|]. split; apply M2.
  - intros q c' e Hh Hl Hp. destruct (Hother q s1 c' e ltac:(lia) Hh Hl Hp) as [[_ ->]|[E _]]; [done|lia].
  - exists p2, x2. split; [exact M3|]. split; apply M4.
  - intros q c' e Hh Hl Hp. destruct (Hother q s2 c' e ltac:(lia) Hh Hl Hp) as [[E _]|[_ ->]]; [lia|done].
Qed.

(** ** The trie *)

Lemma leaf_linked q s0 c0 kv0 x : holds t' q (accumulate_hash t hb s0, c0) x -> leaf_fields cb s0 kv0 x ->
  linked t' (TLeaf kv0) (accumulate_hash t' hb s0) c0 [mk_leaf_ref (accumulate_hash t hb s0) c0 kv0].
Proof.
  intros Hh [F1 F2 F3 F4 F5 F6]. rewrite (accumulate_hash_params _ _ params). exists q, x. split; [exact Hh|]. split; [done|].
  split; [exists q; exact Hh|]. done.
Qed.

Lemma bitmap_linked : linked t' (two_leaves ns kv es old) hb cb [y1; y2].
Proof.
  destruct (ls_bitmap has_split) as (Hb & Ty & Hml & Hmc & Hbits & _).
  destruct (ls_min has_split) as (_ & M1 & M2 & _), (ls_max has_split) as (_ & M3 & M4 & _). destruct new_children as [C1 C2].
  pose proof (leaf_linked _ _ _ _ _ M1 M2) as L1. pose proof (leaf_linked _ _ _ _ _ M3 M4) as L2.
  apply (two_linked t' pb eb hb cb s1 s2 kv1 kv2 c1 c2 y1 y2); try done; [exact symbols_ordered|]. exact (two_leaves_order ns kv es old (not_eq_sym (proj1 parted))).
Qed.

Lemma path_linked : linked t' (tinsert (kv_mem s) (TLeaf old) sym k kv) h c [y1; y2].
Proof. rewrite split_tree_eq. exact (jump_nodes_linked t' y2 _ _ _ _ _ bitmap_linked eq_refl _ _ (ls_jumps has_split)). Qed.

Lemma trie_with_leaf : exists A, L0 = B ++ mk_leaf_ref h c old :: A /\
  linked t' (tinsert (kv_mem s) n0 sym 0 kv) HASH_START_VALUE ROOT_COLOR (B ++ y1 :: y2 :: A).
Proof.
  destruct (grow t t' (kv_mem s) n0 L0 table_before params (tr_ok _ _ (or_rep _ _ _ s_rep)) path_key others_kept children_kept kv sym y2
    (walk_top P (length P - 1)) (proj1 y2_ok) P (TLeaf old) h c L B pre on_spine pre_key [y1; y2]) as (A & L0' & E1 & E2 & E3).
  - intros hm cm (x & Hx & Ha). left. eauto.
  - left. done.
  - intros i x Hi Hlt. now apply (ls_path has_split).
  - exact path_linked.
  - exists A. rewrite (proj1 (proj2 end_leaf)) in E1. split; [exact E1|]. rewrite E2 in E3. exact E3.
Qed.

(** ** The leaf list *)

Lemma min_entry : leaf_entry t' y1 x1.
Proof. destruct (ls_min has_split) as (_ & M1 & [F1 F2 F3 F4 F5 F6] & _). split; [exists p1; exact M1|]. done. Qed.

Lemma max_entry : leaf_entry t' y2 x2.
Proof. destruct (ls_max has_split) as (_ & M1 & [F1 F2 F3 F4 F5 F6] & _). split; [exists p2; exact M1|]. done. Qed.

Lemma before_leaf a : nexts t (last B) a -> nexts t' (last B) (Some y1).
Proof.
  pose proof (trie_entry_ok _ table_before _ _ (ls_pred_at has_split)) as Hok. pose proof (set_locator_agrees (locator_of y1) ep Hok) as Hag.
  assert (Hnl : next_leaf (set_next_leaf (locator_of y1) ep) = locator_of y1) by (apply entry_locator_set; [done|apply y2_ok]).
  assert (Em : trie_min_leaf t' = trie_min_leaf t) by now rewrite (same_params_eq _ _ params).
  destruct (last B) as [x|] eqn:El; cbn [nexts].
  - intros _. destruct (pred_is_leaf x El) as (((q & Hq) & Ty & Hk & Hd) & _). pose proof (ls_pred has_split) as Hp. rewrite El in Hp.
    pose proof (proj1 (holds_entry _ _ _ _ _ _ table_before Hq Hp)) as ->. exists (set_next_leaf (locator_of y1) ep). split; [|exact Hnl].
    split; [exists pp; exact (same_key_after _ _ _ _ Hp (agrees_header _ _ Hag) (ls_pred_at' has_split))|].
    split; [now rewrite (agrees_type _ _ Hag)|]. split; [|destruct (header_flags _ _ (agrees_header _ _ Hag)) as (-> & _); done].
    rewrite <- Hk. apply agrees_kv; [done|now apply set_entry_locator_ok|done].
  - intros (e & He & Ty & Hd & Hf). pose proof (ls_pred has_split) as Hp. rewrite El in Hp. pose proof (ls_pred_at has_split) as Hpa.
    rewrite Hp, He in Hpa. injection Hpa as ->. exists (set_next_leaf (locator_of y1) ep). rewrite Em, <- Hp. split; [apply has_split|].
    rewrite (agrees_type _ _ Hag). destruct (header_flags _ _ (agrees_header _ _ Hag)) as (-> & _). done.
Qed.

Lemma other_leaf x a : x ∈ L0 -> x <> mk_leaf_ref h c old -> last B <> Some x -> leaf_next t x a -> leaf_next t' x a.
Proof.
  intros Hx Hne Hl (e & ((q & Hq) & Ty & Hk & Hd) & Hf). destruct (entry_after _ _ _ Hq) as (e' & Hq' & Hb).
  assert (e' = e) as ->.
  { destruct Hb as [(-> & E & _)|[((z & Hz & -> & -> & Hn) & _)|[(Hqp & _)|(_ & ->)]]]; [| | |done]; exfalso.
    - subst e. pose proof leaf_key as Hlk. destruct Hq as (_ & _ & _ & K1), Hlk as (_ & _ & _ & K2).
      rewrite K1 in K2. injection K2 as Eh Ec. destruct end_leaf as (_ & _ & (_ & _ & Hk2 & _)). cbn [lr_kv] in Hk2.
      apply Hne. destruct x as [xh xc xk]. cbn in *. congruence.
    - destruct (path_at z Hz) as (hm & cm & Ha & Hty). apply Hty; [|exact Ty]. intros ->. now apply Hn.
    - destruct (pred_found _ _ _ Hq Hqp) as (z & Hz & Ek & ->). injection Ek as Eh Ec. apply Hl. rewrite Hz. f_equal.
      destruct (pred_is_leaf z Hz) as ((_ & _ & Hkz & _) & _). destruct z, x; cbn in *; congruence. }
  exists e. split; [|exact Hf]. split; [eauto|]. done.
Qed.

Lemma head_stays x a : last B = Some x -> head_next t a -> head_next t' a.
Proof.
  intros Hx (e & He & Ty & Hd & Hf). assert (Em : trie_min_leaf t' = trie_min_leaf t) by now rewrite (same_params_eq _ _ params).
  exists e. rewrite Em. split; [|done]. rewrite (ls_rest has_split); [exact He| | |].
  - intros Hin. pose proof (ls_free has_split _ _ Hin He) as Hu. unfold used in Hu. rewrite Ty in Hu. discriminate.
  - intros E. pose proof (ls_pred has_split) as Hp. rewrite Hx in Hp. destruct Hp as (Hin & _).
    rewrite params in Hin. exact (head_outside pp Hin (eq_sym E)).
  - intros z Hz E. destruct (path_at z Hz) as (hm & cm & Ha & _). destruct (an_holds _ _ _ _ Ha) as (Hin & _).
    rewrite params in Hin. exact (head_outside _ Hin (eq_sym E)).
Qed.

Lemma list_after A : L0 = B ++ mk_leaf_ref h c old :: A ->
  linked t' (tinsert (kv_mem s) n0 sym 0 kv) HASH_START_VALUE ROOT_COLOR (B ++ y1 :: y2 :: A) -> list_ok t' (B ++ y1 :: y2 :: A).
Proof.
  intros EL Hl. pose proof (linked_nodup t (kv_mem s) n0 _ _ L0 [] (or_linked _ _ _ s_rep) (tr_ok _ _ (or_rep _ _ _ s_rep))) as Hnd.
  rewrite EL in Hnd. apply NoDup_app in Hnd as (NB & ND & NA). apply NoDup_cons in NA as [NA0 NA].
  pose proof (or_list _ _ _ s_rep) as Hlist. fold t in Hlist. apply (list_ok_chain t L0 table_before leaves_of) in Hlist. rewrite EL in Hlist.
  apply chain_cons_app in Hlist as [HB HA].
  apply (list_ok_chain t' _ t'_ok); [intros x Hx; exact (linked_leaf _ _ _ _ _ x Hl Hx)|]. apply chain_cons_app. split; [|cbn [chain nexts]; split].
  - apply (chain_kept_last t t' B None (Some (mk_leaf_ref h c old))); [exact NB|discriminate|exact HB| |].
    + intros prev' a Hor Hn Hne. destruct Hor as [->|(x & -> & Hx)].
      * destruct (last B) as [x|] eqn:El; [|done]. exact (head_stays x a El Hn).
      * apply other_leaf; [rewrite EL; apply elem_of_app; now left| |intros E; apply Hne; now rewrite E|exact Hn].
        intros ->. apply (ND _ Hx). apply list_elem_of_here.
    + assert (El : match last B with Some x => Some x | None => None end = last B) by now destruct (last B).
      rewrite El. apply (before_leaf (Some (mk_leaf_ref h c old))).
      rewrite <- El. exact (chain_last t B None _ HB).
  - exists x1. split; [exact min_entry|]. apply (ls_min has_split).
  - apply (chain_kept_first t t' (Some (mk_leaf_ref h c old)) (Some y2)); [exact HA| |].
    + intros a (e & He & Hf). destruct end_leaf as (_ & _ & Hle). rewrite (leaf_entry_unique _ _ _ _ table_before He Hle) in Hf.
      exists x2. split; [exact max_entry|]. destruct (ls_max has_split) as (_ & _ & _ & Hn). exact (followed_by_next _ _ _ Hn Hf).
    + intros x a Hx. apply other_leaf.
      * rewrite EL. apply elem_of_app. right. now apply list_elem_of_further.
      * intros ->. exact (NA0 Hx).
      * intros E. apply (ND x); [now apply last_Some_elem_of|]. now apply list_elem_of_further.
Qed.

(** ** The invariants *)

Lemma bitmap_stays q k0 e j : holds t q k0 e -> entry_type e = TYPE_BITMAP -> 0 <= j <= 32 -> get_bit (bits_area e) j = true ->
  exists e', holds t' q k0 e' /\ entry_type e' = TYPE_BITMAP /\ get_bit (bits_area e') j = true.
Proof.
  intros Hh Ty Hj Hb. destruct (entry_after _ _ _ Hh) as (e' & Hh' & [(_ & -> & _)|[(_ & Hag & Hok')|[(Hq & _)|(_ & ->)]]]).
  - exfalso. destruct end_leaf as (_ & _ & (_ & Ty' & _)). rewrite Ty in Ty'. discriminate.
  - exists e'. split; [exact Hh'|]. split; [now rewrite (agrees_type _ _ Hag)|].
    now rewrite (agrees_get_bit e e' (proj1 (holds_ok _ table_before _ _ _ Hh)) Hok' Hag j Hj).
  - exfalso. destruct (pred_found _ _ _ Hh Hq) as (x & Hx & _ & ->). destruct (pred_is_leaf x Hx) as ((_ & Ty' & _) & _). rewrite Ty in Ty'. discriminate.
  - exists e. done.
Qed.

Lemma root_after q e : holds t' q (HASH_START_VALUE, ROOT_COLOR) e -> entry_parent_color e = INVALID_COLOR.
Proof.
  intros Hh. destruct (tr_root _ _ (or_rep _ _ _ s_rep)) as (er & R). destruct (entry_after _ _ _ R) as (e' & He' & Hbc).
  destruct (holds_entry _ _ _ _ _ _ t'_ok Hh He') as [_ ->]. destruct (became_child _ _ _ _ R Hbc) as [_ ->].
  exact (ow_root _ t_owned _ _ R).
Qed.

Lemma owned_after : owned t'.
Proof.
  destruct symbols_ordered as (S1 & S2 & S3). destruct (ls_bitmap has_split) as (Hb & Ty & _ & _ & Hbits & _).
  assert (Hnew : forall s0 kv0 x h', leaf_fields cb s0 kv0 x -> 0 <= s0 <= 32 -> h' = accumulate_hash t hb s0 -> (s0 =? s1) || (s0 =? s2) = true ->
    exists h0 q eb0, 0 <= last_symbol x <= 32 /\ h' = accumulate_hash t' h0 (last_symbol x) /\ holds t' q (h0, entry_parent_color x) eb0 /\
      entry_type eb0 = TYPE_BITMAP /\ get_bit (bits_area eb0) (last_symbol x) = true).
  { intros s0 kv0 x h' [F1 F2 F3 F4 F5 F6] Hr -> Hbit. exists hb, pb, eb. rewrite F4, F5, (accumulate_hash_params _ _ params), Hbits by lia. done. }
  split; [intros q h' c' e Hh Hc|exact root_after]. destruct (entry_before _ _ _ Hh) as [(_ & [(Ek & ->)|[(Ek & ->)|Ei]])|(e3 & Hh3 & Hbc)].
  - injection Ek as Eh _. destruct (ls_min has_split) as (_ & _ & Hf & _). apply (Hnew s1 kv1 x1 h' Hf); [lia|exact Eh|now rewrite Z.eqb_refl].
  - injection Ek as Eh _. destruct (ls_max has_split) as (_ & _ & Hf & _). apply (Hnew s2 kv2 x2 h' Hf); [lia|exact Eh|now rewrite Z.eqb_refl, orb_true_r].
  - done.
  - destruct (became_child _ _ _ _ Hh3 Hbc) as [[E1|E1] E2]; [|congruence]. rewrite E1, E2 in *.
    destruct (ow_parent _ t_owned q _ _ e3 Hh3 Hc) as (h3 & q3 & eb3 & Hr & Ea & Hh4 & Ty3 & Hbit).
    destruct (bitmap_stays _ _ _ _ Hh4 Ty3 Hr Hbit) as (eb' & Hh5 & Ty5 & Hbit5). exists h3, q3, eb'.
    rewrite (accumulate_hash_params _ _ params). done.
Qed.

Lemma split_ordered s' :
  trie s' = t' -> kv_mem s' = kv_mem s ->
  exists A, L0 = B ++ mk_leaf_ref h c old :: A /\
    ordered_rep s' (tinsert (kv_mem s) n0 sym 0 kv) (B ++ y1 :: y2 :: A) /\ owned (trie s').
Proof.
  intros Et Em. destruct trie_with_leaf as (A & E & Hl). exists A. split; [exact E|]. split; [|rewrite Et; exact owned_after].
  destruct (or_rep _ _ _ s_rep) as [R1 R2 (er & R3) R4 R5]. split.
  - split; rewrite ?Et, ?Em; [exact t'_ok| | |now apply (linked_rep _ _ _ _ _ Hl)|].
    + rewrite (same_params_eq _ _ params). exact R2.
    + destruct (entry_after _ _ _ R3) as (e' & He' & _). eauto.
    + apply (tinsert_ok (kv_mem s) kv o kv_at o_ok o_short n0 [] R5); [intros i x Hi; discriminate|]. cbn [length]. change (Z.of_nat 0) with 0.
      fold sym. now rewrite at_place.
  - rewrite Et. exact Hl.
  - rewrite Et. exact (list_after A E Hl).
Qed.
End split.
