(* ===== verification/JumpTree.v ===== *)
(** * A jump node that is split (main.c: split_jump_node)

    [tsplit] makes a bitmap node of the symbol where the key leaves a jump
    node: the jump node is cut before it, and a second one holds the symbols
    behind it. No leaf is added; the trie stays well-formed, every search
    finds what it found before, and the place of the key is now the bitmap
    node. *)

From S2P Require Import Prelude Bits Entry KeyObject State Hashing Symbols Atomics Table Contents Finger Insert Api Lookup Order Place TreeInsert.
From stdpp Require Import base list gmap sorting.
From Stdlib Require Import ZArith Lia Bool.

#[local] Open Scope Z_scope.

(** A jump node cut at its symbol [d]. *)
Definition cut_jump (d : nat) (syms : list Z) (child : tnode) : tnode :=
  jump_opt (take d syms) (TBitmap (fun s =>
    match syms !! d with
    | Some x => if s =? x then Some (jump_opt (drop (S d) syms) child) else None
    | None => None
    end)).

Fixpoint tsplit (n : tnode) (sym : Z -> Z) (k : Z) : tnode :=
  match n with
  | TLeaf kv => TLeaf kv
  | TJump syms child =>
      if follows syms sym k then TJump syms (tsplit child sym (k + Z.of_nat (length syms)))
      else cut_jump (common syms sym k) syms child
  | TBitmap f =>
      TBitmap (fun s => if s =? sym k then option_map (fun c => tsplit c sym (k + 1)) (f s) else f s)
  end.

(** ** Searches *)

Section cut.
Variables (d : nat) (syms : list Z) (child : tnode) (x : Z).
Hypothesis symbols_ok : Forall (fun s => 1 <= s <= 32) syms.
Hypothesis x_at : syms !! d = Some x.

Lemma cut_length : (d < length syms)%nat /\ length (take d syms) = d /\ 1 <= x <= 32.
Proof.
  pose proof (lookup_lt_Some _ _ _ x_at) as Hlt. split; [done|]. split; [rewrite length_take; lia|].
  exact (Forall_lookup_1 _ _ _ _ symbols_ok x_at).
Qed.

Lemma follows_cut sym k :
  follows syms sym k = follows (take d syms) sym k && ((x =? sym (k + Z.of_nat d)) && follows (drop (S d) syms) sym (k + Z.of_nat d + 1)).
Proof.
  destruct cut_length as (_ & Hlen & _). rewrite <- (take_drop_middle _ _ _ x_at) at 1. rewrite follows_app, Hlen. reflexivity.
Qed.

Lemma cut_search sym k : tsearch (cut_jump d syms child) sym k = tsearch (TJump syms child) sym k.
Proof.
  destruct cut_length as (Hlt & Hlen & Hx). unfold cut_jump. rewrite jump_opt_search, Hlen, x_at. cbn [tsearch]. rewrite follows_cut.
  set (k' := k + Z.of_nat d). destruct (follows (take d syms) sym k); [|done]. cbn [andb]. destruct (Z.eqb_spec (sym k') x) as [E|E].
  - rewrite E, Z.eqb_refl. cbn [andb]. destruct (Z.eqb_spec x SYMBOL_END); [unfold SYMBOL_END in *; lia|]. rewrite jump_opt_search, length_drop.
    replace (k' + 1 + Z.of_nat (length syms - S d)) with (k + Z.of_nat (length syms)) by (unfold k'; lia). done.
  - destruct (Z.eqb_spec x (sym k')); [congruence|done].
Qed.

Lemma cut_ok m pre : trie_ok m (TJump syms child) pre -> trie_ok m (cut_jump d syms child) pre.
Proof.
  intros (Hl & Hs & Hc & Hn). destruct cut_length as (Hlt & Hlen & Hx).
  apply jump_opt_ok; [done|lia|now apply Forall_take|]. cbn [trie_ok]. intros s. rewrite x_at.
  destruct (Z.eqb_spec s x) as [->|_]; [|done]. split; [lia|]. split; [|unfold SYMBOL_END; lia].
  apply jump_opt_ok; [done|rewrite length_drop; lia|now apply Forall_drop|]. rewrite <- !app_assoc. cbn [app].
  now rewrite (take_drop_middle _ _ _ x_at).
Qed.

Lemma cut_place sym k :
  follows (take d syms) sym k = true -> x <> sym (k + Z.of_nat d) -> tplace (cut_jump d syms child) sym k = at_bitmap (k + Z.of_nat d).
Proof.
  intros Hf Hne. destruct cut_length as (Hlt & Hlen & Hx). unfold cut_jump. rewrite x_at.
  assert (Hp : forall l n, follows l sym k = true -> tplace (jump_opt l n) sym k = tplace n sym (k + Z.of_nat (length l))).
  { intros [|y l] n Hl; [now rewrite Z.add_0_r|]. cbn [jump_opt tplace]. now rewrite Hl. }
  rewrite Hp, Hlen by done. cbn [tplace]. destruct (Z.eqb_spec (sym (k + Z.of_nat d)) x); [congruence|done].
Qed.
End cut.

Lemma jump_opt_leaf syms n : is_leaf n = false -> is_leaf (jump_opt syms n) = false.
Proof. now destruct syms. Qed.

Lemma tsplit_leaf n sym k : is_leaf (tsplit n sym k) = is_leaf n.
Proof.
  destruct n as [kv|syms child|f]; cbn [tsplit]; [done| |done]. destruct (follows syms sym k); [done|].
  unfold cut_jump. now rewrite jump_opt_leaf.
Qed.

Section split.
Variables (m : gmap Z ct_kv) (sym : Z -> Z).

Lemma tsplit_ok n : forall pre k, trie_ok m n pre -> trie_ok m (tsplit n sym k) pre.
Proof.
  induction n as [kv|syms child IH|f IH] using tnode_ind; intros pre k Hok; cbn [tsplit]; [done| |].
  - destruct (follows syms sym k) eqn:Ef.
    + destruct Hok as (H1 & H2 & H3 & H4). cbn [trie_ok]. split; [done|]. split; [done|]. split; [now apply IH|]. now rewrite tsplit_leaf.
    + destruct (common_spec _ _ _ Ef) as (x & Hx & _). apply (cut_ok _ _ _ x); [apply Hok|exact Hx|exact Hok].
  - cbn [trie_ok]. intros s. specialize (Hok s). destruct (Z.eqb_spec s (sym k)) as [->|_]; [|done].
    destruct (f (sym k)) as [c|] eqn:Ef; cbn [option_map]; [|done]. destruct Hok as (H1 & H2 & H3).
    split; [done|]. split; [now apply (IH _ _ Ef)|]. now rewrite tsplit_leaf.
Qed.

(** Every search ends as before. *)
Lemma tsplit_search n sym' : forall pre k, trie_ok m n pre -> tsearch (tsplit n sym k) sym' k = tsearch n sym' k.
Proof.
  induction n as [kv|syms child IH|f IH] using tnode_ind; intros pre k Hok; cbn [tsplit]; [done| |].
  - destruct (follows syms sym k) eqn:Ef.
    + cbn [tsearch]. destruct (follows syms sym' k); [|done]. apply (IH (pre ++ syms)). apply Hok.
    + destruct (common_spec _ _ _ Ef) as (x & Hx & _). apply (cut_search _ _ _ x); [apply Hok|exact Hx].
  - cbn [tsearch]. specialize (Hok (sym' k)). destruct (Z.eqb_spec (sym' k) (sym k)) as [E|_]; [|done].
    destruct (f (sym' k)) as [c|] eqn:Ef; cbn [option_map]; [|done]. destruct Hok as (_ & H2 & H3).
    destruct (Z.eqb_spec (sym' k) SYMBOL_END) as [He|_]; [|exact (IH _ _ Ef _ _ H2)].
    specialize (H3 He). destruct c; done.
Qed.

Lemma tsplit_lookup n bytes : trie_ok m n [] -> tlookup m (tsplit n sym 0) bytes = tlookup m n bytes.
Proof. intros Hok. unfold tlookup. now rewrite (tsplit_search n _ [] 0 Hok). Qed.

(** The key's place. *)
Lemma tsplit_place n j : forall pre k, trie_ok m n pre -> tplace n sym k = in_jump j -> tplace (tsplit n sym k) sym k = at_bitmap j.
Proof.
  induction n as [kv|syms child IH|f IH] using tnode_ind; intros pre k Hok Hp; cbn [tsplit tplace] in *; [done| |].
  - destruct (follows syms sym k) eqn:Ef.
    + cbn [tplace]. rewrite Ef. apply (IH (pre ++ syms)); [apply Hok|exact Hp].
    + injection Hp as <-. destruct (common_spec _ _ _ Ef) as (x & Hx & Hne & Hfol). apply (cut_place _ _ _ x); [apply Hok|done..].
  - rewrite Z.eqb_refl. specialize (Hok (sym k)). destruct (f (sym k)) as [c|] eqn:Ef; cbn [option_map]; [|done].
    exact (IH _ _ Ef _ _ (proj1 (proj2 Hok)) Hp).
Qed.
End split.
