(* ===== verification/JumpTable.v ===== *)
(** * The table after a jump node was split

    The cells that change when [split_jump_node] succeeds are listed in a
    section: the jump node, which is cut or becomes the bitmap node, the new
    bitmap node, and the child of the bitmap node, which is a new jump node for
    the symbols behind or the jump node's old child. The table then stores the
    split trie, with the same leaf list. *)

From S2P Require Import Prelude Bits Entry KeyObject State Hashing Symbols Atomics Table Contents Cells Finger Insert Api Lookup Preserve Order Linked Spine Place Frame Dictionary Fields TreeInsert Growth NewLeaf LeafTable JumpTree.
From stdpp Require Import base list gmap sorting.
From Stdlib Require Import ZArith Lia Bool.

#[local] Open Scope Z_scope.

(** The nodes of a spine are not higher than its root. *)
Lemma spine_height t root leaves0 P n h c L B pre : spine t root leaves0 P n h c L B pre -> (theight n <= theight root)%nat.
Proof.
  induction 1 as [pe Ha Hn|P pe pe' syms child h c L B pre Hs IH Hl Ha Hn|P pe pe' f g h c L B pre s ch c' Hs IH Hl HL Hg Hsr Hf Hch Ha Hlast Hn]; [done|..].
  - cbn [theight] in IH. lia.
  - pose proof (theight_child f s ch Hsr Hf). lia.
Qed.

(** The jump node for some symbols, or none. *)
Definition jump_list (syms : list Z) : list (list Z) := match syms with [] => [] | _ => [syms] end.

Lemma jump_list_chain syms n : jump_chain (jump_list syms) n = jump_opt syms n.
Proof. now destruct syms. Qed.

(** A list of leaves below one child only. *)
Lemma flat_map_one (x : Z) (L : list leaf_ref) : 0 <= x <= 32 -> flat_map (fun s => if s =? x then L else []) all_symbols = L.
Proof.
  intros Hx. rewrite (flat_map_around _ x Hx), Z.eqb_refl.
  rewrite !flat_map_nil; [now rewrite app_nil_r|..]; intros s Hs; apply elem_of_symbols_between in Hs; (destruct (Z.eqb_spec s x); [lia|done]).
Qed.

Section jump_split.
Variables (s : state) (n0 : tnode) (L0 : list leaf_ref).
Hypothesis s_rep : ordered_rep s n0 L0.
Variable sym : Z -> Z.

Let t : cuckoo_trie := trie s.

(** The path to the jump node. *)
Variables (P : list ct_path_entry) (syms : list Z) (child : tnode) (h c : Z) (L B : list leaf_ref) (pre : list Z) (pe : ct_path_entry).
Hypothesis on_spine : spine t n0 L0 P (TJump syms child) h c L B pre.
Hypothesis at_end : last P = Some pe.
Hypothesis pre_key : along sym pre.
Hypothesis key_leaves : follows syms sym (Z.of_nat (length pre)) = false.
Hypothesis t_owned : owned t.

Variable x : Z.
Let d : nat := Place.common syms sym (Z.of_nat (length pre)).
Hypothesis x_at : syms !! d = Some x.

(** The hashes of the bitmap node, of its child, and of the old child. *)
Let jump : ct_entry := pe_value pe.
Let p0 : pos := last_pos (pe_entry pe).
Let hb : Z := accumulate_list t h (take d syms).
Let hx : Z := accumulate_hash t hb x.
Let tail : list Z := drop (S d) syms.

(** The new table: the bitmap node [eb], of color [cb], in cell [pb], and its
    child [ex], of color [cx], in cell [px]; [eh] is where the jump node was. *)
Variables (t' : cuckoo_trie) (newp : list pos) (pb px : pos) (eb eh ex : ct_entry) (cb cx : Z).
Hypothesis t'_ok : table_ok t'.
Hypothesis params : same_params t t'.

Record jump_split : Prop := mk_jump_split {
  js_free : forall q e, q ∈ newp -> trie_entry t q = Some e -> used e = false;
  js_others : forall q e, q ∈ newp -> q <> px -> trie_entry t' q = Some e -> entry_parent_color e = INVALID_COLOR;
  js_head : holds t' p0 (h, c) eh /\ last_symbol eh = last_symbol jump /\ entry_parent_color eh = entry_parent_color jump;
  js_jumps : jump_nodes t' (max_leaf jump) (jump_list (take d syms)) h c hb cb;
  js_bitmap : holds t' pb (hb, cb) eb /\ entry_type eb = TYPE_BITMAP /\ max_leaf eb = max_leaf jump /\ max_child eb = x /\
    (forall j, 0 <= j <= 32 -> get_bit (bits_area eb) j = (j =? x)) /\ (pb ∈ newp \/ pb = p0);
  js_child : holds t' px (hx, cx) ex /\ last_symbol ex = x /\ entry_parent_color ex = cb;
  js_tail : jump_nodes t' (max_leaf jump) (jump_list tail) hx cx (accumulate_list t h syms) (entry_child_color jump);
  js_below : match tail with
             | [] => exists e, holds t px (hx, cx) e /\ alike e ex /\ entry_parent_color e = INVALID_COLOR
             | _ => px ∈ newp
             end;
  js_rest : forall q, q ∉ newp -> q <> p0 -> (tail = [] -> q <> px) -> trie_entry t' q = trie_entry t q;
}.
Hypothesis has_split : jump_split.

Lemma jump_table_before : table_ok t.
Proof. exact (tr_table _ _ (or_rep _ _ _ s_rep)). Qed.

Lemma jump_end : at_node t pe h c /\ linked_at t (TJump syms child) jump h c L /\ linked t (TJump syms child) h c L.
Proof. exact (spine_end _ _ _ _ _ _ _ _ _ _ _ on_spine at_end). Qed.

Lemma jump_key : holds t p0 (h, c) jump /\ entry_type jump = TYPE_JUMP.
Proof. destruct jump_end as (Ha & (Ty & _) & _). split; [apply Ha|exact Ty]. Qed.

Lemma jump_ok : trie_ok (kv_mem s) (TJump syms child) pre.
Proof. exact (spine_ok _ _ _ _ _ _ _ _ _ _ _ on_spine (tr_ok _ _ (or_rep _ _ _ s_rep))). Qed.

Lemma x_range : 1 <= x <= 32.
Proof. exact (proj2 (proj2 (cut_length d syms x (proj1 (proj2 jump_ok)) x_at))). Qed.

Lemma whole_hash : accumulate_list t h syms = accumulate_list t hx tail.
Proof.
  rewrite <- (take_drop_middle _ _ _ x_at) at 1. rewrite accumulate_list_app. reflexivity.
Qed.

(** Without symbols behind, the bitmap node's child is the old one. *)
Lemma old_child : tail = [] -> hx = accumulate_list t h syms /\ cx = entry_child_color jump /\
  exists e, holds t px (hx, cx) e /\ alike e ex /\ entry_parent_color e = INVALID_COLOR /\ entry_type e <> TYPE_LEAF.
Proof.
  intros Et. pose proof (js_tail has_split) as Hj. pose proof (js_below has_split) as Hb. rewrite Et in Hj, Hb. destruct Hj as [Eh Ec].
  split; [done|]. split; [done|]. destruct Hb as (e & H1 & H2 & H3). exists e. do 3 (split; [done|]).
  destruct jump_end as (_ & (_ & _ & _ & _ & Hl) & _). rewrite <- Eh, <- Ec in Hl. apply linked_unfold in Hl as (q & e' & Hq & Hat).
  destruct (holds_entry _ _ _ _ _ _ jump_table_before Hq H1) as [_ ->].
  exact (proj1 (linked_at_inner _ _ _ _ _ _ (proj2 (proj2 (proj2 jump_ok))) Hat)).
Qed.

(** ** Old entries in the new table *)

(** What an old entry became. *)
Definition turned (q : pos) (e e' : ct_entry) : Prop :=
  (q = p0 /\ e = jump /\ e' = eh) \/
  (tail = [] /\ q = px /\ e' = ex /\ alike e ex /\ entry_parent_color e = INVALID_COLOR /\ entry_type e <> TYPE_LEAF) \/
  e' = e.

Lemma jump_forward q k0 e : holds t q k0 e -> exists e', holds t' q k0 e' /\ turned q e e'.
Proof.
  intros Hh. pose proof Hh as (Hin & He & Hu & Hk). destruct (decide (q = p0)) as [->|Hp].
  { destruct jump_key as [(_ & He' & _ & Hk') _]. assert (e = jump) as -> by congruence. exists eh.
    split; [|now left]. rewrite <- Hk, Hk'. apply has_split. }
  assert (Hq : q ∉ newp) by (intros Hq; rewrite (js_free has_split q e Hq He) in Hu; discriminate).
  assert (Hrest : (tail = [] -> q <> px) -> exists e', holds t' q k0 e' /\ turned q e e').
  { intros Hpx. exists e. split; [|right; now right]. split; [now rewrite <- params|]. rewrite (js_rest has_split q Hq Hp Hpx).
    split; [done|]. split; [done|]. now rewrite <- params. }
  destruct (decide (q = px)) as [->|Hne]; [|now apply Hrest].
  destruct tail as [|y l] eqn:Et; [|now apply Hrest]. destruct (old_child Et) as (_ & _ & e1 & (_ & He1 & _ & Hk1) & H2 & H3 & H4).
  assert (e1 = e) as -> by congruence. exists ex. split; [|right; left; now rewrite Et]. rewrite <- Hk, Hk1. apply has_split.
Qed.

(** A child of a bitmap node keeps its symbol and its parent's color. *)
Lemma jump_forward_child q k0 e c0 : holds t q k0 e -> entry_parent_color e = c0 -> c0 <> INVALID_COLOR ->
  exists e', holds t' q k0 e' /\ last_symbol e' = last_symbol e /\ entry_parent_color e' = c0.
Proof.
  intros Hh Hp Hc. destruct (jump_forward _ _ _ Hh) as (e' & Hh' & [(_ & -> & ->)|[(_ & _ & _ & _ & E & _)| ->]]).
  - exists eh. split; [done|]. destruct (js_head has_split) as (_ & -> & ->). done.
  - congruence.
  - exists e. done.
Qed.

Lemma jump_backward q k0 e' : holds t' q k0 e' ->
  (q = px /\ k0 = (hx, cx) /\ e' = ex) \/ (q ∈ newp /\ entry_parent_color e' = INVALID_COLOR) \/
  exists e, holds t q k0 e /\ last_symbol e' = last_symbol e /\ entry_parent_color e' = entry_parent_color e.
Proof.
  intros Hh. pose proof Hh as (Hin & He & Hu & Hk). destruct (decide (q = px)) as [->|Hpx].
  { left. destruct (js_child has_split) as ((_ & He' & _ & Hk') & _). assert (e' = ex) as -> by congruence.
    split; [done|]. split; [congruence|done]. }
  right. destruct (decide (q ∈ newp)) as [Hq|Hq]; [left; split; [done|exact (js_others has_split q e' Hq Hpx He)]|right].
  destruct (decide (q = p0)) as [->|Hp].
  - destruct (js_head has_split) as ((_ & He' & _ & Hk') & E1 & E2). assert (e' = eh) as -> by congruence. exists jump.
    split; [rewrite <- Hk, Hk'; apply jump_key|done].
  - exists e'. split; [|done]. rewrite (js_rest has_split q Hq Hp ltac:(done)) in He.
    split; [now rewrite params|]. split; [done|]. split; [done|]. now rewrite params.
Qed.

(** The new bitmap node is none of the old ones. *)
Lemma fork_is_new q e : holds t q (hb, cb) e -> entry_type e = TYPE_BITMAP -> False.
Proof.
  intros Hh Ty. destruct (js_bitmap has_split) as (Hb & _ & _ & _ & _ & Hor). destruct (jump_forward _ _ _ Hh) as (e' & Hh' & _).
  pose proof (tb_unique _ t'_ok _ _ _ _ _ Hh' Hb) as ->. destruct Hor as [Hn| ->].
  - destruct Hh as (_ & He & Hu & _). rewrite (js_free has_split _ _ Hn He) in Hu. discriminate.
  - destruct Hh as (_ & He & _). destruct jump_key as [(_ & He' & _) Ty']. assert (e = jump) as -> by congruence. rewrite Ty in Ty'. discriminate.
Qed.

Lemma fork_ok : hash_ok t hb /\ 0 <= cb <= MAX_VALID_COLOR.
Proof.
  destruct (js_bitmap has_split) as (Hb & _). destruct (holds_ok _ t'_ok _ _ _ Hb) as (_ & H1 & H2). split; [|exact H2].
  cbn [fst] in H1. unfold hash_ok in *. rewrite (same_params_eq _ _ params) in H1. exact H1.
Qed.

Lemma parent_unique h1 s1 : hash_ok t h1 -> 0 <= s1 <= 32 -> s1 = x -> accumulate_hash t h1 s1 = hx -> h1 = hb.
Proof.
  intros Hh Hr -> Ea. apply (f_equal (fun z => parent_hash t z x)) in Ea. unfold hx in Ea. pose proof x_range.
  rewrite !parent_accumulate in Ea; (done || apply fork_ok || apply jump_table_before || lia).
Qed.

Lemma jump_children_kept q h1 c0 s0 c' e : holds t q (h1, c0) e -> entry_type e = TYPE_BITMAP -> 0 <= s0 <= 32 -> get_bit (bits_area e) s0 = true ->
  child_of t h1 c0 s0 c' -> child_of t' h1 c0 s0 c'.
Proof.
  intros Hh Ty Hr Hb [(q1 & e1 & Hh1 & Hl1 & Hp1) Hu]. unfold child_of. rewrite !(accumulate_hash_params _ _ params).
  destruct (holds_ok _ jump_table_before _ _ _ Hh) as (_ & Hh1ok & Hc0). cbn [fst snd] in Hh1ok, Hc0.
  assert (Hc0' : c0 <> INVALID_COLOR) by (change MAX_VALID_COLOR with 8 in Hc0; change INVALID_COLOR with 9; lia). split.
  - destruct (jump_forward_child _ _ _ c0 Hh1 Hp1 Hc0') as (e' & Hh' & E1 & E2). exists q1, e'. split; [exact Hh'|]. split; congruence.
  - intros q2 c2' e2 Hh2 Hl2 Hp2. destruct (jump_backward _ _ _ Hh2) as [(_ & Ek & ->)|[(_ & Ei)|(e3 & Hh3 & E1 & E2)]].
    + exfalso. injection Ek as Ea _. destruct (js_child has_split) as (_ & E1 & E2). rewrite E1 in Hl2. rewrite E2 in Hp2. rewrite <- Hp2 in Hh.
      pose proof (parent_unique h1 s0 Hh1ok Hr ltac:(congruence) Ea) as ->. exact (fork_is_new _ _ Hh Ty).
    + congruence.
    + apply (Hu q2 c2' e3 Hh3); congruence.
Qed.

(** The child of the bitmap node is its only one. *)
Lemma fork_child : child_of t' hb cb x cx.
Proof.
  destruct (js_child has_split) as (Hh & E1 & E2). destruct fork_ok as [Hb Hc]. pose proof x_range as Hr. unfold child_of.
  rewrite !(accumulate_hash_params _ _ params). fold hx. split; [eauto|]. intros q c' e Hq Hl Hp.
  destruct (jump_backward _ _ _ Hq) as [(_ & Ek & _)|[(_ & Ei)|(e3 & Hh3 & F1 & F2)]]; [now injection Ek| |]; exfalso.
  - rewrite Hp in Ei. change MAX_VALID_COLOR with 8 in Hc. change INVALID_COLOR with 9 in Ei. lia.
  - rewrite Hl in F1. rewrite Hp in F2. destruct (ow_parent _ t_owned q _ _ e3 Hh3) as (h3 & q3 & eb3 & Hr3 & Ea & Hh4 & Ty & _).
    { rewrite <- F2. change MAX_VALID_COLOR with 8 in Hc. change INVALID_COLOR with 9. lia. }
    rewrite <- F1 in Ea. rewrite <- F2 in Hh4. destruct (holds_ok _ jump_table_before _ _ _ Hh4) as (_ & H1 & _). cbn [fst] in H1.
    pose proof (parent_unique h3 x H1 ltac:(lia) eq_refl (eq_sym Ea)) as ->. exact (fork_is_new _ _ Hh4 Ty).
Qed.

(** ** The subtrees *)

Definition at_jump (k0 : Z * Z) : Prop := k0 = (h, c).

Lemma jump_kept q k0 e : holds t q k0 e -> ~ at_jump k0 -> exists e', holds t' q k0 e' /\ alike e e'.
Proof.
  intros Hh Hk. destruct (jump_forward _ _ _ Hh) as (e' & Hh' & [(-> & -> & _)|[(_ & _ & -> & Ha & _)| ->]]).
  - exfalso. apply Hk. destruct Hh as (_ & _ & _ & <-), jump_key as [(_ & _ & _ & K) _]. exact K.
  - eauto.
  - exists e. split; [done|apply alike_refl].
Qed.

Lemma old_child_linked : linked t' child (accumulate_list t h syms) (entry_child_color jump) L.
Proof.
  destruct jump_end as (_ & (_ & _ & _ & _ & Hl) & Hj).
  apply (linked_frame t t' jump_table_before params at_jump jump_kept jump_children_kept); [exact Hl|].
  intros hm cm Hm. injection Hm as -> ->. exists (TJump syms child), L. split; [exact Hj|]. left. cbn [theight]. lia.
Qed.

Lemma cut_linked : linked t' (tsplit (TJump syms child) sym (Z.of_nat (length pre))) h c L.
Proof.
  destruct jump_end as (_ & (_ & _ & _ & (z & Hz & Hml) & _) & _). cbn [tsplit]. rewrite key_leaves. fold d.
  pose proof (js_tail has_split) as Ht. pose proof (js_jumps has_split) as Hj. rewrite Hml in Ht, Hj. unfold cut_jump. rewrite <- !jump_list_chain.
  apply (jump_nodes_linked t' z) with (hb := hb) (cb := cb); [|done|exact Hj].
  pose proof (jump_nodes_linked t' z _ child _ _ L old_child_linked Hz _ _ Ht) as Hx.
  destruct (js_bitmap has_split) as (Hb & Ty & Eml & Emc & Hbits & _). pose proof x_range as Hr.
  apply linked_unfold. exists pb, eb. split; [exact Hb|]. split; [exact Ty|]. split; [exists z; split; [done|congruence]|]. split.
  { unfold max_child_ok. rewrite Emc, Hbits, Z.eqb_refl by lia. split; [lia|]. split; [done|]. intros j Hj'. rewrite Hbits by done. intros ->%Z.eqb_eq. done. }
  exists (fun y => if y =? x then L else []). split; [symmetry; apply flat_map_one; lia|]. intros y Hy. rewrite Hbits, x_at by done.
  destruct (Z.eqb_spec y x) as [->|_]; [|done]. split; [done|]. exists cx. rewrite (accumulate_hash_params _ _ params). fold hx.
  split; [exact Hx|exact fork_child].
Qed.

(** ** The trie *)

Lemma above_unchanged i z : P !! i = Some z -> (i < length P - 1)%nat -> trie_entry t' (last_pos (pe_entry z)) = Some (pe_value z).
Proof.
  intros Hi Hlt. pose proof (spine_above_nodes _ _ _ _ _ _ _ _ _ _ on_spine) as Hup.
  destruct (proj1 (Forall_forall _ _) Hup z ltac:(eapply list_elem_of_lookup_2; exact Hi)) as (nm & hm & cm & Lm & Ha & Hl & Hh & _).
  pose proof (an_holds _ _ _ _ Ha) as Hz. destruct (jump_forward _ _ _ Hz) as (e' & (_ & He' & _) & Hor). rewrite He'. f_equal.
  destruct Hor as [(E & _)|[(Et & E & _)| ->]]; [exfalso..|done].
  - pose proof at_end as Hend. rewrite last_lookup in Hend.
    exact (spine_distinct _ _ _ _ _ _ _ _ _ _ jump_table_before on_spine i (Nat.pred (length P)) z pe ltac:(lia) Hi Hend E).
  - destruct (old_child Et) as (Eh & Ec & e1 & (_ & He1 & _ & Hk1) & _). destruct Hz as (_ & He2 & _ & Hk2). rewrite E in He2, Hk2. rewrite He1 in He2.
    injection He2 as E2. rewrite E2 in Hk1. rewrite Hk1 in Hk2. injection Hk2 as <- <-. rewrite Eh, Ec in Hl.
    destruct jump_end as (_ & (_ & _ & _ & _ & Hc) & _). destruct (linked_det _ _ _ _ _ jump_table_before Hl _ _ Hc) as (Et2 & _).
    cbn [theight] in Hh. lia.
Qed.

Lemma leaf_locator_ok z : z ∈ L -> locator_ok (locator_of z).
Proof.
  intros Hz. destruct jump_end as (_ & _ & Hl). destruct (linked_leaf _ _ _ _ _ z Hl Hz) as (e & (q & Hq) & _).
  destruct (holds_ok _ jump_table_before _ _ _ Hq) as (_ & H1 & H2). cbn [fst snd] in H1, H2. pose proof (params_bound _ (tb_params _ jump_table_before)).
  destruct (hash_parts _ (tb_params _ jump_table_before) _ H1) as (Hb & Ht & _). change MAX_VALID_COLOR with 8 in H2.
  unfold locator_ok, is_byte. cbn [locator_of loc_primary_bucket loc_tag loc_color]. lia.
Qed.

Lemma split_linked : linked t' (tsplit n0 sym 0) HASH_START_VALUE ROOT_COLOR L0.
Proof.
  destruct jump_end as (Ha & (_ & _ & _ & (z & Hz & _) & _) & _).
  destruct (grow_path t t' (kv_mem s) n0 L0 jump_table_before params (tr_ok _ _ (or_rep _ _ _ s_rep)) at_jump jump_kept jump_children_kept sym z
    (length P) (leaf_locator_ok z ltac:(now apply last_Some_elem_of)) (fun n k => tsplit n sym k) P (TJump syms child) h c L B pre) with (L' := L)
    as (A & L0' & E1 & E2 & E3).
  - intros y ch k Hf. cbn [tsplit]. now rewrite Hf.
  - intros f k ch Hf. eexists. split; [reflexivity|]. intros y. cbv beta. destruct (Z.eqb_spec y (sym k)) as [->|]; [now rewrite Hf|done].
  - exact on_spine.
  - exact pre_key.
  - intros hm cm Hm. injection Hm as -> ->. left. exists pe. split; [now apply last_Some_elem_of|exact Ha].
  - right. done.
  - intros i y Hi Hlt. rewrite (proj2 (Nat.leb_gt _ _)) by (pose proof (lookup_lt_Some _ _ _ Hi); lia). now apply (above_unchanged i).
  - exact cut_linked.
  - rewrite E2, <- E1 in E3. exact E3.
Qed.

(** ** The leaf list and the invariants *)

Lemma leaves_stay y next : leaf_next t y next -> leaf_next t' y next.
Proof.
  intros (e & ((q & Hq) & Ty & Hk & Hd) & Hf). exists e. split; [|exact Hf].
  destruct (jump_forward _ _ _ Hq) as (e' & Hq' & [(_ & -> & _)|[(_ & _ & _ & _ & _ & E)| ->]]).
  - destruct jump_key as [_ Ty']. rewrite Ty in Ty'. discriminate.
  - done.
  - split; [eauto|]. done.
Qed.

Lemma list_head_stays next : head_next t next -> head_next t' next.
Proof.
  intros (e & He & Ty & Hd & Hf). assert (Em : trie_min_leaf t' = trie_min_leaf t) by now rewrite (same_params_eq _ _ params).
  assert (Hout : forall q, in_table t q -> trie_min_leaf t <> q).
  { intros q Hin <-. unfold in_table in Hin. cbn [pos_bucket trie_min_leaf] in Hin. unfold min_leaf_bucket in Hin.
    pose proof (tb_length _ jump_table_before). lia. }
  exists e. rewrite Em, (js_rest has_split); [done|..].
  - intros Hin. pose proof (js_free has_split _ _ Hin He) as Hu. unfold used in Hu. rewrite Ty in Hu. discriminate.
  - apply Hout. apply jump_key.
  - intros _. apply Hout. rewrite params. apply (js_child has_split).
Qed.

Lemma split_list : list_ok t' L0.
Proof.
  apply list_ok_next; [exact t'_ok|intros y Hy; exact (linked_leaf _ _ _ _ _ y split_linked Hy)|].
  pose proof (or_list _ _ _ s_rep) as Hlist. fold t in Hlist.
  apply (list_ok_next t L0 jump_table_before) in Hlist as [H1 H2]; [|intros y Hy; exact (linked_leaf _ _ _ _ _ y (or_linked _ _ _ s_rep) Hy)].
  split; [now apply list_head_stays|]. intros i y Hi. now apply leaves_stay, H2.
Qed.

Lemma other_bitmaps_stay q k0 e j : holds t q k0 e -> entry_type e = TYPE_BITMAP -> get_bit (bits_area e) j = true ->
  exists e', holds t' q k0 e' /\ entry_type e' = TYPE_BITMAP /\ get_bit (bits_area e') j = true.
Proof.
  intros Hh Ty Hb. destruct (jump_forward _ _ _ Hh) as (e' & Hh' & [(_ & -> & _)|[(_ & _ & -> & Ha & _)| ->]]).
  - destruct jump_key as [_ Ty']. rewrite Ty in Ty'. discriminate.
  - exists ex. split; [done|]. rewrite (al_type _ _ Ha). split; [done|]. rewrite (al_inner _ _ Ha); [done|]. rewrite Ty. discriminate.
  - eauto.
Qed.

Lemma split_root q e : holds t' q (HASH_START_VALUE, ROOT_COLOR) e -> entry_parent_color e = INVALID_COLOR.
Proof.
  intros Hh. destruct (tr_root _ _ (or_rep _ _ _ s_rep)) as (er & R). destruct (jump_forward _ _ _ R) as (e' & He' & Hbc).
  destruct (holds_entry _ _ _ _ _ _ t'_ok Hh He') as [_ ->]. pose proof (ow_root _ t_owned _ _ R) as Hi.
  destruct Hbc as [(_ & -> & ->)|[(Et & Eq & _)| ->]]; [|exfalso|done].
  - destruct (js_head has_split) as (_ & _ & ->). done.
  - destruct (old_child Et) as (Eh & Ec & e1 & H1 & _). rewrite Eq in R. change (trie s) with t in R. destruct R as (_ & R2 & _ & R4), H1 as (_ & H2 & _ & H4).
    rewrite H2 in R2. injection R2 as ->. rewrite H4, Eh, Ec in R4. destruct jump_end as (_ & (_ & _ & _ & _ & Hc) & _). rewrite Eh, Ec in H4.
    injection R4 as E1 E2. rewrite E1, E2 in Hc.
    destruct (linked_det _ _ _ _ _ jump_table_before Hc _ _ (or_linked _ _ _ s_rep)) as (E & _).
    pose proof (spine_height _ _ _ _ _ _ _ _ _ _ on_spine) as Hle. cbn [theight] in Hle. lia.
Qed.

Lemma split_owned : owned t'.
Proof.
  split; [intros q h' c' e Hh Hc|exact split_root]. destruct (jump_backward _ _ _ Hh) as [(_ & Ek & ->)|[(_ & Ei)|(e3 & Hh3 & E1 & E2)]]; [|done|].
  - destruct (js_child has_split) as (_ & E1 & E2). destruct (js_bitmap has_split) as (Hb & Ty & _ & _ & Hbits & _). injection Ek as -> ->.
    pose proof x_range. exists hb, pb, eb. rewrite E1, E2, (accumulate_hash_params _ _ params), Hbits, Z.eqb_refl by lia.
    split; [lia|]. done.
  - rewrite E1, E2 in *. destruct (ow_parent _ t_owned q _ _ e3 Hh3 Hc) as (h3 & q3 & eb3 & Hr & Ea & Hh4 & Ty3 & Hbit).
    destruct (other_bitmaps_stay _ _ _ _ Hh4 Ty3 Hbit) as (eb' & Hh5 & Ty5 & Hbit5). exists h3, q3, eb'.
    rewrite (accumulate_hash_params _ _ params). done.
Qed.

Lemma jump_split_ordered s' :
  trie s' = t' -> kv_mem s' = kv_mem s -> ordered_rep s' (tsplit n0 sym 0) L0 /\ owned (trie s').
Proof.
  intros Et Em. split; [|rewrite Et; exact split_owned]. destruct (or_rep _ _ _ s_rep) as [R1 R2 (er & R3) R4 R5]. split.
  - split; rewrite ?Et, ?Em; [exact t'_ok| | |apply (linked_rep _ _ _ _ _ split_linked)|now apply tsplit_ok].
    + rewrite (same_params_eq _ _ params). exact R2.
    + destruct (jump_forward _ _ _ R3) as (e' & He' & _). eauto.
  - rewrite Et. exact split_linked.
  - rewrite Et. exact split_list.
Qed.
End jump_split.
