(* ===== verification/JumpNodes.v ===== *)
(** * The entries of a jump node that is split (main.c: split_jump_node)

    The bitmap node with its one child, the cut jump node, and the jump node
    for the symbols behind the split one. *)

From S2P Require Import Prelude Bits Entry KeyObject State Hashing Atomics Table Contents Store Locks Cells Search Relocate AddEntry Finger Insert Lookup Linked Frame Dictionary InsertSpec Fields Nodes.
From stdpp Require Import base list gmap.
From Stdlib Require Import ZArith Lia Bool.

#[local] Open Scope Z_scope.

(** ** The bitmap node *)

(** A bitmap node with the one child [x]. *)
Record branch_fields (symbol x : Z) (ml : ct_entry_locator) (e : ct_entry) : Prop := mk_branch_fields {
  br_ok : entry_ok e;
  br_type : entry_type e = TYPE_BITMAP;
  br_symbol : last_symbol e = symbol;
  br_bits : forall j, 0 <= j <= 32 -> get_bit (bits_area e) j = (j =? x);
  br_max : max_child e = x;
  br_leaf : max_leaf e = ml;
}.

Lemma branch_is_used symbol x ml e : branch_fields symbol x ml e -> used e = true.
Proof. intros H. unfold used. now rewrite (br_type _ _ _ _ H). Qed.

Lemma branch_fields_body symbol x ml e e' : branch_fields symbol x ml e -> same_body ENTRY_BYTES e e' -> branch_fields symbol x ml e'.
Proof.
  intros [J1 J2 J3 J4 J5 J6] Hb. pose proof Hb as [B1 B2 B3]. split; [done|congruence| | | |].
  - rewrite <- J3. now apply (body_symbol _ _ ENTRY_BYTES); [entry_lia|].
  - intros j Hj. rewrite <- J4 by done. apply body_get_bit; [done| |done]. now apply (same_body_le ENTRY_BYTES); [entry_lia|].
  - rewrite <- J5. apply B3. entry_lia.
  - rewrite <- J6. now apply body_locator.
Qed.

(** What [bitmap_with_child] changes: the bitmap and the greatest child. *)
Lemma one_child_bytes x e : entry_ok e -> 0 <= x <= 32 ->
  entry_ok (bitmap_with_child x e) /\
  (forall i, (i < 3 \/ 9 <= i < ENTRY_BYTES)%nat -> byte_at (bitmap_with_child x e) i = byte_at e i) /\
  max_child (bitmap_with_child x e) = x /\
  forall j, 0 <= j <= 32 -> get_bit (bits_area (bitmap_with_child x e)) j = (j =? x).
Proof.
  intros He Hx. destruct (cleared_bits e He) as (C1 & C2 & C3). unfold bitmap_with_child. set (e1 := clear_child_bitmap e) in *.
  assert (C4 : forall i, (8 <= i < ENTRY_BYTES)%nat -> byte_at e1 i = byte_at e i).
  { intros i Hi. unfold e1, clear_child_bitmap. rewrite byte_at_set_bits_area by done. destruct (Nat.ltb_spec i 3); [lia|].
    unfold byte_at. rewrite !nth_lookup. unfold CHILD_BITMAP_BYTES. rewrite lookup_app_r by (rewrite length_replicate; lia).
    rewrite length_replicate. unfold bits_area. rewrite drop_drop, lookup_drop. do 2 f_equal. lia. }
  pose proof (set_child_bit_in_ok x e1 C1 ltac:(lia)) as H2. set (e2 := set_child_bit_in x e1) in *.
  assert (H3 : entry_ok (set_max_child x e2)) by now apply set_byte_ok.
  assert (Eb : forall i, i <> 8%nat -> byte_at (set_max_child x e2) i = byte_at e2 i) by (intros i Hi; now apply max_child_byte).
  split; [exact H3|]. split; [|split].
  - intros i Hi. rewrite Eb by lia. unfold e2. rewrite <- entry_set_child_bit_eq by (done || lia).
    rewrite child_bit_byte by (done || lia). destruct Hi; [now apply C2|apply C4; lia].
  - exact (max_child_stored e2 x H2 ltac:(lia) e2 H2).
  - intros j Hj. rewrite (body_get_bit e2); [|done| |done].
    + unfold e2. rewrite child_bit_in_bits, C3 by done. apply orb_false_r.
    + split; [done|unfold entry_type, parent_color_and_flags; now rewrite Eb by lia|]. intros i Hi. apply Eb. lia.
Qed.

Lemma one_child_fields symbol x e : entry_ok e -> 0 <= x <= 32 -> entry_type e = TYPE_BITMAP -> last_symbol e = symbol ->
  branch_fields symbol x (max_leaf e) (bitmap_with_child x e).
Proof.
  intros He Hx Ht Hs. destruct (one_child_bytes x e He Hx) as (B1 & B2 & B3 & B4). split; [done| | |done|done|].
  - unfold entry_type, parent_color_and_flags in *. now rewrite B2 by lia.
  - unfold last_symbol in *. now rewrite B2 by lia.
  - apply locator_bytes. intros i Hi. apply B2. lia.
Qed.

(** ** The byte with the child's color and the size *)

Lemma sized_byte b n :
  is_byte b -> 0 <= n < 16 ->
  let b' := (b .& bnot 8 ((1 .<< CHILD_COLOR_SHIFT) - 1)) .| n in
  is_byte b' /\ b' .& ((1 .<< CHILD_COLOR_SHIFT) - 1) = n /\ b' .>> CHILD_COLOR_SHIFT = b .>> CHILD_COLOR_SHIFT.
Proof.
  intros Hb Hn b'. set (P := fun b n => let b' := (b .& bnot 8 ((1 .<< CHILD_COLOR_SHIFT) - 1)) .| n in
    (0 <=? b') && (b' <? 256) && (b' .& ((1 .<< CHILD_COLOR_SHIFT) - 1) =? n) && (b' .>> CHILD_COLOR_SHIFT =? b .>> CHILD_COLOR_SHIFT)).
  assert (H : P b n = true).
  { apply (forallb_below 16 (P b)); [|lia]. revert b Hb b'. intros b Hb _.
    apply (byte_check (fun b => forallb (P b) (map Z.of_nat (seq 0 16)))); [vm_compute; reflexivity|done]. }
  unfold P in H. rewrite !andb_true_iff, !Z.eqb_eq, Z.leb_le, Z.ltb_lt in H. unfold is_byte. subst b'. tauto.
Qed.

Lemma set_byte_other v e i : i <> 8%nat -> byte_at (set_child_color_and_jump_size v e) i = byte_at e i.
Proof. intros Hi. unfold set_child_color_and_jump_size, set_byte, byte_at, ct_entry in *. rewrite !nth_lookup, list_lookup_insert_ne by lia. done. Qed.

Lemma jump_size_fields n e : entry_ok e -> 0 <= n < 16 ->
  entry_ok (entry_set_jump_size n e) /\ entry_jump_size (entry_set_jump_size n e) = n /\
  entry_child_color (entry_set_jump_size n e) = entry_child_color e /\
  forall i, i <> 8%nat -> byte_at (entry_set_jump_size n e) i = byte_at e i.
Proof.
  intros He Hn. destruct (sized_byte (child_color_and_jump_size e) n (entry_byte e 8 He) Hn) as (S1 & S2 & S3).
  assert (E8 : child_color_and_jump_size (entry_set_jump_size n e) = (child_color_and_jump_size e .& bnot 8 ((1 .<< CHILD_COLOR_SHIFT) - 1)) .| n).
  { unfold entry_set_jump_size, child_color_and_jump_size at 1, set_child_color_and_jump_size. rewrite byte_at_set_byte by (done || entry_lia).
    rewrite decide_True by lia. now apply wrap_small. }
  split; [now apply set_byte_ok|]. unfold entry_jump_size, entry_child_color. rewrite E8. split; [done|]. split; [done|].
  intros i Hi. now apply set_byte_other.
Qed.

Lemma joined_byte c n : 0 <= c < 16 -> 0 <= n < 16 ->
  let b := (c .<< CHILD_COLOR_SHIFT) .| n in
  is_byte b /\ b .& ((1 .<< CHILD_COLOR_SHIFT) - 1) = n /\ b .>> CHILD_COLOR_SHIFT = c.
Proof.
  intros Hc Hn b. set (P := fun c n => let b := (c .<< CHILD_COLOR_SHIFT) .| n in
    (0 <=? b) && (b <? 256) && (b .& ((1 .<< CHILD_COLOR_SHIFT) - 1) =? n) && (b .>> CHILD_COLOR_SHIFT =? c)).
  assert (H : P c n = true).
  { apply (forallb_below 16 (P c)); [|lia].
    apply (forallb_below 16 (fun c => forallb (P c) (map Z.of_nat (seq 0 16)))); [vm_compute; reflexivity|lia]. }
  unfold P in H. rewrite !andb_true_iff, !Z.eqb_eq, Z.leb_le, Z.ltb_lt in H. unfold is_byte. subst b. tauto.
Qed.

Lemma child_color_bound e : entry_ok e -> 0 <= entry_child_color e < 16.
Proof.
  intros Hok. pose proof (entry_byte e 8 Hok) as Hb. unfold entry_child_color, child_color_and_jump_size, is_byte in *. rewrite Z.shiftr_div_pow2 by done.
  change (2 ^ CHILD_COLOR_SHIFT) with 16. zdiv.
Qed.
(** ** The cut jump node *)

Section cut.
Variables (jump : ct_entry) (symbol : Z) (syms : list Z).
Hypothesis jump_node : jump_fields symbol syms jump.

(** The first [d] symbols, with the bitmap node of color [c] below. *)
Lemma cut_fields d c : (d <= length syms)%nat -> 0 <= c <= MAX_VALID_COLOR ->
  let e := entry_set_child_color c (entry_set_jump_size (Z.of_nat d) jump) in
  jump_fields symbol (take d syms) e /\ same_header e jump /\ max_leaf e = max_leaf jump /\ entry_child_color e = c.
Proof.
  intros Hd Hc. destruct jump_node as [J1 J2 J3 J4 J5 J6].
  destruct (jump_size_fields (Z.of_nat d) jump J1 ltac:(lia)) as (S1 & S2 & S3 & S4). set (e1 := entry_set_jump_size _ jump) in *.
  destruct (child_color_fields c e1 S1 Hc) as (C1 & C2 & C3 & C4). cbv zeta in *. set (e := entry_set_child_color c e1) in *.
  assert (Eb : forall i, i <> 8%nat -> byte_at e i = byte_at jump i) by (intros i Hi; now rewrite C4, S4).
  assert (Hbody : same_body 8 jump e).
  { split; [done|unfold entry_type, parent_color_and_flags; now rewrite Eb by lia|]. intros i Hi. apply Eb. lia. }
  split; [|split; [intros i Hi; apply Eb; lia|split; [apply locator_bytes; intros i Hi; apply Eb; lia|exact C2]]].
  split; [done|now rewrite (sb_type _ _ _ Hbody)| | |rewrite length_take; lia|].
  - rewrite <- J3. now apply (body_symbol _ _ 8); [lia|].
  - rewrite C3, S2, length_take. lia.
  - intros i s Hi. apply lookup_take_Some in Hi as [Hi Hlt]. rewrite <- (J6 i s Hi). apply body_jump_symbol; [done|done|].
    apply lookup_lt_Some in Hi. lia.
Qed.

(** The jump node that becomes the bitmap node itself. *)
Lemma bitmap_flag b :
  is_byte b ->
  let b' := (b .& bnot 8 TYPE_MASK) .| TYPE_BITMAP in
  is_byte b' /\ b' .& TYPE_MASK = TYPE_BITMAP /\ b' .& FLAG_SECONDARY_BUCKET = b .& FLAG_SECONDARY_BUCKET /\
  b' .& FLAG_DIRTY = b .& FLAG_DIRTY /\ b' .>> PARENT_COLOR_SHIFT = b .>> PARENT_COLOR_SHIFT.
Proof.
  intros Hb b'. set (P := fun b => let b' := (b .& bnot 8 TYPE_MASK) .| TYPE_BITMAP in
    (0 <=? b') && (b' <? 256) && (b' .& TYPE_MASK =? TYPE_BITMAP) && (b' .& FLAG_SECONDARY_BUCKET =? b .& FLAG_SECONDARY_BUCKET) &&
    (b' .& FLAG_DIRTY =? b .& FLAG_DIRTY) && (b' .>> PARENT_COLOR_SHIFT =? b .>> PARENT_COLOR_SHIFT)).
  assert (H : P b = true) by (apply byte_check; [vm_compute; reflexivity|done]).
  unfold P in H. rewrite !andb_true_iff, !Z.eqb_eq, Z.leb_le, Z.ltb_lt in H. unfold is_byte. subst b'. tauto.
Qed.

Lemma whole_fields x : 0 <= x <= 32 ->
  let e := bitmap_with_child x (entry_set_type TYPE_BITMAP (entry_set_jump_size 0 jump)) in
  branch_fields symbol x (max_leaf jump) e /\ same_tags jump e /\ entry_parent_color e = entry_parent_color jump.
Proof.
  intros Hx. destruct jump_node as [J1 J2 J3 J4 J5 J6].
  destruct (jump_size_fields 0 jump J1 ltac:(lia)) as (S1 & S2 & S3 & S4). set (e1 := entry_set_jump_size 0 jump) in *.
  destruct (bitmap_flag (parent_color_and_flags e1) (flags_byte e1 S1)) as (F1 & F2 & F3 & F4 & F5). set (b := (parent_color_and_flags e1 .& _) .| _) in *.
  assert (E1 : parent_color_and_flags e1 = parent_color_and_flags jump) by (unfold parent_color_and_flags; now rewrite S4 by lia).
  set (e2 := entry_set_type TYPE_BITMAP e1). assert (H2 : entry_ok e2) by now apply set_flags_ok.
  assert (E2 : parent_color_and_flags e2 = b) by (unfold e2, entry_set_type; rewrite flags_set_flags by done; now apply wrap_small).
  assert (Eb : forall i, (i <> 0)%nat -> (i < ENTRY_BYTES)%nat -> byte_at e2 i = byte_at e1 i).
  { intros i Hi Hlt. unfold e2, entry_set_type, set_parent_color_and_flags. rewrite byte_at_set_byte by (done || lia). now rewrite decide_False by lia. }
  destruct (one_child_bytes x e2 H2 Hx) as (B1 & B2 & _ & _). cbv zeta. set (e := bitmap_with_child x e2) in *.
  assert (E0 : parent_color_and_flags e = b) by (unfold parent_color_and_flags; now rewrite B2 by lia).
  assert (Ec : color_and_tag e = color_and_tag jump) by (unfold color_and_tag; now rewrite B2, Eb, S4 by entry_lia).
  rewrite E1 in *. split; [|split].
  - replace (max_leaf jump) with (max_leaf e2); [apply one_child_fields; [done|done|unfold entry_type; congruence|]|].
    + rewrite <- J3. unfold last_symbol. now rewrite Eb, S4 by entry_lia.
    + apply locator_bytes. intros i Hi. now rewrite Eb, S4 by lia.
  - split; unfold used, entry_type, entry_is_secondary, entry_tag, entry_color; rewrite ?E0, ?Ec, ?F2, ?F3; try done.
    + unfold entry_type in J2. now rewrite J2.
    + unfold entry_type in J2. rewrite J2. discriminate.
  - unfold entry_parent_color. now rewrite E0, F5.
Qed.

(** The symbols behind [d], below the bitmap node of color [c]. *)
Context `{Env}.
Hypothesis garbage_ok : entry_ok garbage_entry.

Lemma tail_bits d i : (S d + i < 8)%nat -> (length syms <= 8)%nat -> (S d + i < length syms)%nat ->
  let nt := Z.of_nat (length syms) - Z.of_nat d - 1 in
  forall e, entry_ok e ->
  let e' := set_bits_area (copy_bits (bits_area e) (bits_area jump) ((Z.of_nat d + 1) * BITS_PER_SYMBOL) (nt * BITS_PER_SYMBOL)) e in
  entry_ok e' -> get_jump_symbol e' (Z.of_nat i) = get_jump_symbol jump (Z.of_nat (S d + i)).
Proof.
  intros H1 H2 H3 nt e He e' He'. pose proof (jf_ok _ _ _ jump_node) as J1. unfold BITS_PER_SYMBOL in *.
  pose proof (copy_bits_spec (bits_area e) (bits_area jump) ((Z.of_nat d + 1) * 5) (nt * 5) ltac:(now apply bits_area_ok) ltac:(lia)
    ltac:(rewrite length_bits_area by done; unfold nt; lia) ltac:(unfold nt; lia)) as Hc.
  assert (E : get_jump_symbol e' (Z.of_nat i) - 1 = get_jump_symbol jump (Z.of_nat (S d + i)) - 1); [|lia].
  pose proof (jump_symbol_bound e' (Z.of_nat i) He' ltac:(lia)). pose proof (jump_symbol_bound jump (Z.of_nat (S d + i)) J1 ltac:(lia)).
  apply (bits_eq 5); [lia|lia|lia|]. intros j Hj. rewrite !testbit_jump_symbol by (done || lia). f_equal.
  unfold e'. rewrite bits_area_set by done. destruct (Z.ltb_spec j 5); [|lia]. rewrite Hc by (unfold nt; lia). f_equal. lia.
Qed.

Lemma tail_fields d x c : (S d < length syms)%nat -> 0 <= x <= 32 -> 0 <= c <= MAX_VALID_COLOR ->
  let e := tail_jump_node jump c x (Z.of_nat d) in
  jump_fields x (drop (S d) syms) e /\ entry_parent_color e = c /\ entry_dirty e = false /\ entry_is_secondary e = false /\
  max_leaf e = max_leaf jump /\ entry_child_color e = entry_child_color jump.
Proof.
  intros Hd Hx Hc. destruct jump_node as [J1 J2 J3 J4 J5 J6]. change MAX_VALID_COLOR with 8 in Hc.
  destruct (node_flags c TYPE_JUMP ltac:(lia) ltac:(done)) as (F1 & F2 & F3 & F4 & F5).
  set (b := (c .<< PARENT_COLOR_SHIFT) .| TYPE_JUMP) in *.
  set (nt := Z.of_nat (length syms) - Z.of_nat d - 1).
  destruct (joined_byte (entry_child_color jump) nt (child_color_bound jump J1) ltac:(unfold nt; lia)) as (K1 & K2 & K3).
  set (w := (entry_child_color jump .<< CHILD_COLOR_SHIFT) .| nt) in *.
  set (e1 := set_parent_color_and_flags b garbage_entry). assert (H1 : entry_ok e1) by now apply set_flags_ok.
  set (e2 := set_child_color_and_jump_size w e1). assert (H2 : entry_ok e2) by now apply set_byte_ok.
  set (e3 := set_last_symbol x e2). assert (H3 : entry_ok e3) by now apply set_byte_ok.
  set (e4 := set_max_leaf (max_leaf jump) e3). assert (H4 : entry_ok e4) by now apply set_entry_locator_ok.
  pose proof (set_locator_agrees (max_leaf jump) e3 H3) as Hag.
  set (cb := copy_bits (bits_area e4) (bits_area jump) ((Z.of_nat d + 1) * BITS_PER_SYMBOL) (nt * BITS_PER_SYMBOL)).
  assert (Ee : tail_jump_node jump c x (Z.of_nat d) = set_bits_area cb e4).
  { unfold tail_jump_node. fold b. rewrite J4. fold nt w e1 e2 e3 e4. reflexivity. }
  assert (Hnt : 0 <= nt * BITS_PER_SYMBOL < 8 * Z.of_nat (length (bits_area e4))) by (rewrite length_bits_area by done; unfold nt, BITS_PER_SYMBOL; lia).
  destruct (copy_bits_bytes (bits_area e4) (bits_area jump) ((Z.of_nat d + 1) * BITS_PER_SYMBOL) (nt * BITS_PER_SYMBOL) Hnt) as [Hl Hcopy].
  fold cb in Hl, Hcopy.
  assert (Hcb : bytes_ok cb).
  { apply Forall_lookup_2. intros i y Hy. assert (Ey : byte_at cb i = y) by (unfold byte_at; now rewrite nth_lookup, Hy).
    rewrite <- Ey, Hcopy. destruct (_ <=? _) eqn:Ei; [apply Z.leb_le in Ei; apply (extract_bits_bound _ _ 8); [now apply bits_area_ok|unfold BITS_PER_SYMBOL; lia|lia|unfold nt, BITS_PER_SYMBOL in *; zdiv]|]. now apply byte_at_ok, bits_area_ok. }
  rewrite length_bits_area in Hl by done. assert (H5 : entry_ok (set_bits_area cb e4)) by now apply set_bits_area_ok.
  assert (Eb : forall i, (i < 3 \/ 8 <= i < ENTRY_BYTES)%nat -> byte_at (set_bits_area cb e4) i = byte_at e4 i).
  { intros i Hi. rewrite byte_at_set_bits_area by done. destruct (Nat.ltb_spec i 3); [done|].
    rewrite Hcopy, (proj2 (Z.leb_gt _ _)); [rewrite byte_at_bits_area; f_equal; lia|]. unfold nt, BITS_PER_SYMBOL. zdiv. }
  cbv zeta. rewrite Ee. set (e := set_bits_area cb e4) in *.
  assert (E0 : parent_color_and_flags e = b).
  { unfold parent_color_and_flags. rewrite Eb by lia. unfold e4. rewrite Hag by lia. unfold e3, e2, set_last_symbol, set_child_color_and_jump_size.
    rewrite !byte_at_set_byte by (done || entry_lia). rewrite !decide_False by lia. change (parent_color_and_flags e1 = b).
    unfold e1. rewrite flags_set_flags by done. now apply wrap_small. }
  assert (E8 : child_color_and_jump_size e = w).
  { unfold child_color_and_jump_size. rewrite Eb by entry_lia. unfold e4. rewrite Hag by lia. unfold e3, e2, set_last_symbol, set_child_color_and_jump_size.
    rewrite !byte_at_set_byte by (done || entry_lia). rewrite decide_False, decide_True by lia. now apply wrap_small. }
  split; [split; try done|].
  - unfold entry_type. now rewrite E0.
  - unfold last_symbol. rewrite Eb by lia. unfold e4. rewrite Hag by lia. unfold e3, set_last_symbol. rewrite byte_at_set_byte by (done || entry_lia).
    rewrite decide_True by lia. apply wrap_small. lia.
  - unfold entry_jump_size. rewrite E8, K2, length_drop. unfold nt. lia.
  - rewrite length_drop. lia.
  - intros i s Hi. rewrite lookup_drop in Hi. pose proof (lookup_lt_Some _ _ _ Hi) as Hlt. rewrite <- (J6 _ _ Hi).
    apply (tail_bits d i); (done || lia).
  - unfold entry_parent_color, entry_dirty, entry_is_secondary, entry_child_color. rewrite E0, E8. do 3 (split; [done|]). split; [|exact K3].
    rewrite <- (entry_locator_set (max_leaf jump) e3 H3 (entry_locator_ok jump J1)). apply locator_bytes. intros i Hi. apply Eb. lia.
Qed.
End cut.
