(* ===== verification/Upgrade.v ===== *)
(** * Locks on the nodes of a path (atomics.c: upgrade_lock; main.c:
    upgrade_locks_on_left_parents_above)

    Upgrading the lock of an entry that has not changed succeeds and holds
    the entry's bucket; the walk up the path takes the locks of the nodes
    whose maximal leaf may change. *)

From S2P Require Import Prelude Bits Entry KeyObject State Hashing Symbols Atomics Table Contents Store Locks Cells Relocate AddEntry Finger Insert Api Lookup Order Linked Spine Dictionary Growth.
From stdpp Require Import base list gmap sorting.
From Stdlib Require Import ZArith Lia Bool.

#[local] Open Scope Z_scope.

Lemma relock_id bk : bucket_ok bk -> write_lock bk = 1 -> set_write_lock 1 bk = bk.
Proof.
  intros Hok H1. pose proof (bk_word bk Hok) as Hw. unfold write_lock in H1. rewrite land_255 in H1.
  destruct bk as [cs w]. unfold set_write_lock, set_lock_word. cbn [cells write_lock_and_seq] in *. f_equal.
  rewrite set_lock_byte by (done || lia). zdiv.
Qed.

Lemma no_refs_nonneg : Forall (fun r => 0 <= r) no_refs.
Proof. repeat (constructor; [lia|]). constructor. Qed.

Lemma no_refs_at c : byte_at no_refs c = 0.
Proof. do 4 (destruct c as [|c]; [reflexivity|]). now destruct c. Qed.

(** The references after one more lock on cell [p]. *)
Definition locked_refs (ls : ct_lock_mgr) (p : pos) (b : Z) : list Z :=
  if b =? pos_bucket p then add_ref 1 (pos_cell p) (entry_refs ls b) else entry_refs ls b.

Section upgrade.
Variables (N : Z) (s : state) (l : ct_entry_local_copy) (bk : ct_bucket).
Hypothesis l_ok : locks_ok N s.
Hypothesis s_shape : shape_ok (trie s).
Hypothesis N_ok : 1 <= N /\ N + 1 < 2 ^ 32.
Hypothesis bk_at : trie_bucket (trie s) (pos_bucket (last_pos l)) = Some bk.
Hypothesis l_seq : seq_part (last_seq l) = seq_part (write_lock_and_seq bk).
Hypothesis l_cell : (pos_cell (last_pos l) < CUCKOO_BUCKET_SIZE)%nat.
Hypothesis room : room_for s (pos_bucket (last_pos l)).

Let b := pos_bucket (last_pos l).
Let c := pos_cell (last_pos l).

Lemma upgrade_held l0 : lock_at (lock_mgr s) b = Some l0 ->
  exists s', upgrade_lock l s = Ret SI_OK s' /\
    lock_effect (N + 1) s s' (locked_refs (lock_mgr s) (last_pos l)) (bucket_refs (lock_mgr s)) /\
    length (lock_mgr s') = length (lock_mgr s).
Proof.
  intros Hl0. destruct (lock_index _ _ _ Hl0) as (i & Hi & Hil). destruct (shape_bucket _ _ _ s_shape bk_at) as [Hok _].
  pose proof (lks_bytes _ _ l_ok _ _ bk_at) as Hb. fold b in Hb. rewrite Hl0 in Hb.
  destruct (lock_at_ok _ _ _ _ l_ok Hl0) as [[L1 L2 L3 L4] _].
  destruct (change_entry_ref_spec N s b i l0 c 1) as (s' & E & _ & F & Hlen); try done; try lia; try (now left).
  { pose proof (Forall_lookup_1 _ _ _ _ L2 (byte_at_lookup (entry_refcounts l0) c ltac:(now rewrite L1))) as Hp. cbn in Hp. lia. }
  exists s'. split; [|split; [|exact Hlen]].
  - unfold upgrade_lock. erewrite bind_Ret by (apply try_take_lock_spec; exact bk_at). rewrite Hb. cbn [Z.eqb].
    rewrite (relock_id bk Hok Hb), (upd_bucket_id _ _ _ bk_at). fold b c. replace (set_trie (trie s) s) with s by now destruct s.
    unfold get_locks. erewrite bind_Ret by reflexivity. rewrite Hi. erewrite bind_Ret by (apply get_bucket_eq; exact bk_at).
    rewrite l_seq, Z.eqb_refl. cbn [negb].
    rewrite (update_lock_twice s i l0 (add_entry_ref c 1) (add_total 1) _ Hil). erewrite bind_Ret by exact E. reflexivity.
  - destruct F as [A1 A2 A3 A4 A5 A6]. split; try done. intros b'. rewrite A5. unfold locked_refs. fold b c.
    destruct (Z.eqb_spec b' b) as [->|]; done.
Qed.

Lemma upgrade_free : lock_at (lock_mgr s) b = None ->
  exists s', upgrade_lock l s = Ret SI_OK s' /\
    lock_effect (N + 1) s s' (locked_refs (lock_mgr s) (last_pos l)) (bucket_refs (lock_mgr s)) /\
    length (lock_mgr s') = S (length (lock_mgr s)).
Proof.
  intros Hl0. destruct (shape_bucket _ _ _ s_shape bk_at) as [Hok _].
  destruct (take_lock_spec N s b bk l_ok s_shape ltac:(lia) bk_at Hl0 (room Hl0)) as (s0 & s1 & E0 & Em & E1 & F1 & Hlen1 & Hi & Hat & Hbk).
  destruct (unlocked_refs _ _ Hl0) as [Eno Eno2].
  set (l1 := mk_write_lock b no_refs 1) in *.
  assert (Er : entry_refcounts (add_entry_ref c 1 l1) = add_ref 1 c no_refs).
  { apply (add_entry_ref_eq N); try done; try lia.
    - split; cbn; try done; try lia. exact no_refs_nonneg.
    - unfold l1. cbn [entry_refcounts]. now rewrite no_refs_at. }
  destruct (update_lock_spec N (N + 1) s1 b (length (lock_mgr s)) l1 (add_entry_ref c 1)
    (locked_refs (lock_mgr s) (last_pos l)) (bucket_refs (lock_mgr s))) as (s' & E2 & F2 & _ & Hlen2 & _); try done.
  - apply F1.
  - apply F1.
  - lia.
  - split; rewrite ?Er; [now rewrite length_add_ref|apply add_ref_nonneg; [exact no_refs_nonneg|done|now rewrite no_refs_at]| |cbn; lia].
    rewrite sum_add_ref by done. cbn. lia.
  - intros b'. unfold locked_refs. fold b c. rewrite Er. destruct (Z.eqb_spec b' b) as [->|]; [now rewrite Eno|].
    symmetry. apply F1.
  - intros b'. rewrite Er. destruct (Z.eqb_spec b' b) as [->|Hne].
    + rewrite Eno2, sum_add_ref by done. reflexivity.
    + rewrite (le_refs _ _ _ _ _ F1). unfold one_at. rewrite (proj2 (Z.eqb_neq _ _) Hne). lia.
  - exists s'. split; [|split; [|lia]].
    + destruct (shape_bucket _ _ _ (le_shape _ _ _ _ _ F1) Hbk) as [Hok1 _].
      unfold upgrade_lock. erewrite bind_Ret by exact E0. cbv iota. erewrite bind_Ret by exact E1.
      erewrite bind_Ret by (apply (read_bucket_seq_eq _ _ _ Hbk Hok1)).
      erewrite bind_Ret by (apply get_bucket_eq; exact Hbk).
      erewrite bind_Ret by (apply assert_true; apply Z.eqb_refl).
      rewrite set_write_lock_seq, l_seq, Z.eqb_refl by (done || lia). cbn [negb].
      erewrite bind_Ret by exact E2. reflexivity.
    + exact (lock_effect_trans _ _ _ _ _ _ _ _ _ F1 F2).
Qed.

Lemma upgrade_lock_spec :
  exists s', upgrade_lock l s = Ret SI_OK s' /\
    lock_effect (N + 1) s s' (locked_refs (lock_mgr s) (last_pos l)) (bucket_refs (lock_mgr s)) /\
    (length (lock_mgr s') <= S (length (lock_mgr s)))%nat.
Proof.
  destruct (lock_at (lock_mgr s) b) as [l0|] eqn:E.
  - destruct (upgrade_held l0 E) as (s' & H1 & H2 & H3). exists s'. split; [done|]. split; [done|lia].
  - destruct (upgrade_free E) as (s' & H1 & H2 & H3). exists s'. split; [done|]. split; [done|lia].
Qed.
End upgrade.

(** ** Taking more locks *)

(** The locks only grow, the table is the same but for them. *)
Record locking (N : Z) (s s' : state) : Prop := mk_locking {
  lg_table : same_but_locks (trie s) (trie s');
  lg_shape : shape_ok (trie s');
  lg_mem : kv_mem s' = kv_mem s;
  lg_locks : locks_ok N s';
  lg_refs : forall b, bucket_refs (lock_mgr s') b = bucket_refs (lock_mgr s) b;
  lg_entries : forall p, entry_ref (lock_mgr s) p <= entry_ref (lock_mgr s') p;
}.

(** Cell [p] is locked. *)
Definition held (s : state) (p : pos) : Prop := 1 <= entry_ref (lock_mgr s) p.

Lemma locking_trans N N' s s1 s2 : locking N s s1 -> locking N' s1 s2 -> locking N' s s2.
Proof.
  intros [] []. split; try done; [etransitivity; eassumption|congruence|congruence|].
  intros p. etransitivity; [apply lg_entries0|apply lg_entries1].
Qed.

Lemma locking_refl N s : locks_ok N s -> shape_ok (trie s) -> locking N s s.
Proof. intros. split; done || reflexivity. Qed.

Lemma held_locking N s s' p : locking N s s' -> held s p -> held s' p.
Proof. intros H Hp. pose proof (lg_entries _ _ _ H p). unfold held in *. lia. Qed.

Lemma held_locked s p : (pos_cell p < CUCKOO_BUCKET_SIZE)%nat -> length (entry_refs (lock_mgr s) (pos_bucket p)) = CUCKOO_BUCKET_SIZE ->
  held s p -> is_Some (lock_at (lock_mgr s) (pos_bucket p)).
Proof.
  intros Hc Hl Hp. apply refs_locked. right. exists (pos_cell p), (entry_ref (lock_mgr s) p). split; [|unfold held in Hp; lia].
  unfold entry_ref. apply byte_at_lookup. lia.
Qed.

(** A copy whose entry has not changed since it was read. *)
Record current (t : cuckoo_trie) (l : ct_entry_local_copy) : Prop := mk_current {
  cr_seq : exists bk, trie_bucket t (pos_bucket (last_pos l)) = Some bk /\ seq_part (last_seq l) = seq_part (write_lock_and_seq bk);
  cr_cell : (pos_cell (last_pos l) < CUCKOO_BUCKET_SIZE)%nat;
}.

Lemma current_locks t t' l : shape_ok t -> shape_ok t' -> same_but_locks t t' -> current t l -> current t' l.
Proof.
  intros Ht Ht' Hs [(bk & Hb & Hq) Hc]. split; [|exact Hc].
  destruct (same_seq _ _ _ _ Ht Ht' Hs Hb) as (bk' & Hb' & E). exists bk'. split; [done|congruence].
Qed.

Lemma shape_entry_cell t p e : shape_ok t -> trie_entry t p = Some e -> (pos_cell p < CUCKOO_BUCKET_SIZE)%nat.
Proof.
  intros Ht He. destruct (trie_entry_bucket _ _ _ He) as (bk & Hb & Hc). destruct (shape_bucket _ _ _ Ht Hb) as [Hok _].
  rewrite <- (bk_length bk Hok). eapply lookup_lt_Some. exact Hc.
Qed.

Lemma local_current t l : shape_ok t -> local_ok t l -> current t l.
Proof. intros Ht Hl. split; [apply Hl|]. exact (shape_entry_cell t _ _ Ht (lo_entry _ _ Hl)). Qed.

Lemma upgrade_current N s l :
  locks_ok N s -> shape_ok (trie s) -> 1 <= N /\ N + 1 < 2 ^ 32 -> current (trie s) l ->
  Z.of_nat (length (lock_mgr s)) < MAX_LOCKS ->
  exists s', upgrade_lock l s = Ret SI_OK s' /\ locking (N + 1) s s' /\ held s' (last_pos l) /\
    (length (lock_mgr s') <= S (length (lock_mgr s)))%nat.
Proof.
  intros Hl Hs HN [(bk & Hb & Hq) Hc] Hroom.
  destruct (upgrade_lock_spec N s l bk Hl Hs HN Hb Hq Hc ltac:(intros _; exact Hroom)) as (s' & E & [A1 A2 A3 A4 A5 A6] & Hlen).
  exists s'. split; [exact E|]. split; [|split; [|exact Hlen]].
  - split; try done. intros p. unfold entry_ref. rewrite A5. unfold locked_refs. destruct (Z.eqb_spec (pos_bucket p) (pos_bucket (last_pos l))) as [Eb|]; [|lia].
    apply add_ref_le.
  - unfold held, entry_ref. rewrite A5. unfold locked_refs. rewrite Z.eqb_refl.
    destruct (entry_refs_ok _ _ (pos_bucket (last_pos l)) Hl) as [Hlen2 Hnn].
    unfold byte_at, add_ref. rewrite nth_lookup, list_lookup_alter_eq.
    destruct (lookup_lt_is_Some_2 (entry_refs (lock_mgr s) (pos_bucket (last_pos l))) (pos_cell (last_pos l))) as [r Hr]; [now rewrite Hlen2|].
    rewrite Hr. cbn. pose proof (Forall_lookup_1 _ _ _ _ Hnn Hr). cbn in *. lia.
Qed.

(** ** The walk up *)

(** The test of the code, on nodes whose [max_child] is right. *)
Definition code_stops (parent child : ct_path_entry) : bool :=
  negb (entry_type (pe_value parent) =? TYPE_JUMP) && negb (last_symbol (pe_value child) =? max_child (pe_value parent)).

(** The nodes above the last one are jump and bitmap nodes. *)
Definition is_parent (x : ct_path_entry) : bool :=
  (entry_type (pe_value x) =? TYPE_JUMP) || (entry_type (pe_value x) =? TYPE_BITMAP).

Definition same_stops (P : list ct_path_entry) : Prop :=
  forall i x y, P !! i = Some x -> P !! S i = Some y -> is_parent x = true /\ code_stops x y = stops x y.

Lemma same_stops_snoc P pe pe' : last P = Some pe -> is_parent pe = true /\ code_stops pe pe' = stops pe pe' -> same_stops P -> same_stops (P ++ [pe']).
Proof.
  intros Hl Heq HP i x y Hx Hy. destruct (decide (S i < length P)%nat) as [Hlt|Hge].
  - rewrite lookup_app_l in Hx, Hy by lia. exact (HP i x y Hx Hy).
  - pose proof (lookup_lt_Some _ _ _ Hy) as Hlt. rewrite length_app in Hlt. cbn [length] in Hlt.
    rewrite lookup_app_r in Hy by lia. replace (S i - length P)%nat with 0%nat in Hy by lia. injection Hy as <-.
    rewrite lookup_app_l in Hx by lia. rewrite last_lookup in Hl. replace (Nat.pred (length P)) with i in Hl by lia. congruence.
Qed.

Lemma spine_stops t root leaves0 P n h c L B pre : spine t root leaves0 P n h c L B pre -> same_stops P.
Proof.
  induction 1 as [pe Ha Hn|P pe pe' syms child h c L B pre Hs IH Hl Ha Hn|P pe pe' f g h c L B pre s ch c' Hs IH Hl HL Hg Hsr Hf Hch Ha Hlast Hn].
  - intros [|i] x y Hx Hy; discriminate.
  - apply (same_stops_snoc P pe); [done| |exact IH]. destruct (spine_end _ _ _ _ _ _ _ _ _ _ _ Hs Hl) as (_ & (Ty & _) & _).
    unfold is_parent, code_stops, stops. now rewrite Ty.
  - apply (same_stops_snoc P pe); [done| |exact IH]. destruct (spine_end _ _ _ _ _ _ _ _ _ _ _ Hs Hl) as (_ & (Ty & _ & (_ & _ & M3) & _) & _).
    specialize (Hg s Hsr). rewrite Hf in Hg. pose proof (M3 s Hsr (proj1 Hg)) as Hle.
    unfold is_parent, code_stops, stops. rewrite Ty, Hlast. split; [reflexivity|]. cbn [Z.eqb TYPE_BITMAP TYPE_JUMP Pos.eqb negb andb].
    destruct (Z.eqb_spec s (max_child (pe_value pe))), (Z.ltb_spec s (max_child (pe_value pe))); (done || lia).
Qed.

Lemma left_parents_spec f n : forall N s,
  same_stops (path f) -> (n < length (path f))%nat -> locks_ok N s -> shape_ok (trie s) -> 1 <= N /\ N + Z.of_nat n < 2 ^ 32 ->
  Forall (fun x => current (trie s) (pe_entry x)) (path f) -> Z.of_nat (length (lock_mgr s) + n) <= MAX_LOCKS ->
  exists s', upgrade_left_parents f n s = Ret (SI_OK, walk_top (path f) n) s' /\ locking (N + Z.of_nat n) s s' /\
    (forall i x, (walk_top (path f) n <= i < n)%nat -> path f !! i = Some x -> held s' (last_pos (pe_entry x))) /\
    (length (lock_mgr s') <= length (lock_mgr s) + n)%nat.
Proof.
  induction n as [|n IH]; intros N s Hst Hn Hl Hs HN Hcur Hroom.
  - exists s. split; [reflexivity|]. split; [rewrite Z.add_0_r; now apply locking_refl|]. split; [intros i x Hi; lia|lia].
  - destruct (lookup_lt_is_Some_2 (path f) (S n) Hn) as [child Echild].
    destruct (lookup_lt_is_Some_2 (path f) n ltac:(lia)) as [parent Eparent].
    cbn [upgrade_left_parents walk_top]. unfold path_local. rewrite Echild, Eparent. cbn [fmap option_fmap option_map].
    destruct (Hst n parent child Eparent Echild) as [Hpar Hstop].
    do 2 erewrite bind_Ret by reflexivity. cbv zeta. erewrite bind_Ret by (unfold is_parent, pe_value in Hpar; now rewrite Hpar).
    change (lc_value (pe_entry parent)) with (pe_value parent). change (lc_value (pe_entry child)) with (pe_value child).
    change (negb (entry_type (pe_value parent) =? TYPE_JUMP) && negb (last_symbol (pe_value child) =? max_child (pe_value parent)))
      with (code_stops parent child). rewrite Hstop. destruct (stops parent child).
    + exists s. split; [reflexivity|]. split; [apply locking_refl; [apply (locks_ok_mono N); [lia|done]|done]|]. split; [intros i x Hi; lia|lia].
    + destruct (upgrade_current N s (pe_entry parent) Hl Hs ltac:(lia)) as (s1 & E1 & G1 & Hheld & Hlen); [|lia|].
      { exact (proj1 (Forall_forall _ _) Hcur parent ltac:(eapply list_elem_of_lookup_2; exact Eparent)). }
      destruct (IH (N + 1) s1 Hst ltac:(lia) (lg_locks _ _ _ G1) (lg_shape _ _ _ G1) ltac:(lia)) as (s2 & E2 & G2 & Hheld2 & Hlen2).
      { eapply Forall_impl; [exact Hcur|]. intros x. apply current_locks; [done|apply G1..]. }
      { lia. }
      exists s2. split; [|split; [|split; [|lia]]].
      * erewrite bind_Ret by exact E1. rewrite bool_decide_true by done. exact E2.
      * replace (N + Z.of_nat (S n)) with (N + 1 + Z.of_nat n) by lia. exact (locking_trans _ _ _ _ _ G1 G2).
      * intros i x Hi Ex. destruct (decide (i = n)) as [->|Hne].
        -- rewrite Eparent in Ex. injection Ex as <-. exact (held_locking _ _ _ _ G2 Hheld).
        -- apply (Hheld2 i x); [lia|exact Ex].
Qed.

Lemma left_parents_above_spec f n b N s :
  same_stops (path f) -> path f !! n = Some b -> entry_type (pe_value b) = TYPE_BITMAP -> locks_ok N s -> shape_ok (trie s) -> 1 <= N /\ N + Z.of_nat n < 2 ^ 32 ->
  Forall (fun x => current (trie s) (pe_entry x)) (path f) -> Z.of_nat (length (lock_mgr s) + n) <= MAX_LOCKS ->
  exists s', upgrade_locks_on_left_parents_above f n s = Ret SI_OK s' /\ locking (N + Z.of_nat n) s s' /\
    (forall i x, (walk_top (path f) n <= i < n)%nat -> path f !! i = Some x -> held s' (last_pos (pe_entry x))) /\
    (length (lock_mgr s') <= length (lock_mgr s) + n)%nat.
Proof.
  intros Hst Hb Tb Hl Hs HN Hcur Hroom. destruct (left_parents_spec f n N s Hst (lookup_lt_Some _ _ _ Hb) Hl Hs HN Hcur Hroom) as (s' & E & H).
  exists s'. split; [|exact H]. unfold upgrade_locks_on_left_parents_above.
  erewrite bind_Ret by (unfold path_local; now rewrite Hb). erewrite bind_Ret by (unfold pe_value in Tb; now rewrite Tb).
  erewrite bind_Ret by exact E. cbv iota beta.
  rewrite bool_decide_true by done. reflexivity.
Qed.
