(* ===== verification/Locked.v ===== *)
(** * What a thread that takes locks finds unchanged

    Taking locks changes lock bytes only, so the nodes, the copies of the
    finger and the predecessor search are what they were. *)

From S2P Require Import Prelude Bits Entry KeyObject State Hashing Symbols Atomics Table Contents Store Locks Cells Search Relocate AddEntry Finger Insert Api Lookup Preserve Order Linked Spine Frame Upgrade.
From stdpp Require Import base list gmap sorting.
From Stdlib Require Import ZArith Lia Bool.

#[local] Open Scope Z_scope.

Section locked.
Variables t t' : cuckoo_trie.
Hypothesis t_ok : table_ok t.
Hypothesis t'_shape : shape_ok t'.
Hypothesis same : same_but_locks t t'.

Lemma locked_params : same_params t t'.
Proof. apply same. Qed.

Lemma locked_holds p k e : holds t p k e <-> holds t' p k e.
Proof.
  pose proof locked_params as Hp. unfold holds. rewrite <- (same_but_locks_entry _ _ p same).
  split; intros (H1 & H2 & H3 & H4); (split; [|split; [exact H2|split; [exact H3|]]]).
  - now rewrite <- Hp.
  - now rewrite <- Hp.
  - now rewrite Hp.
  - now rewrite Hp.
Qed.

Lemma locked_table : table_ok t'.
Proof.
  apply table_cells. split; [exact t'_shape|]. apply (cells_ok_params t); [exact locked_params|].
  apply (cells_ok_eq t (trie_entry t)); [intros q; now apply same_but_locks_entry|]. now apply table_cells.
Qed.

Lemma locked_child h c s c' : child_of t h c s c' -> child_of t' h c s c'.
Proof.
  intros [(p & e & Hh & Hl & Hp) Hu]. unfold child_of. rewrite !(accumulate_hash_params _ _ locked_params). split.
  - exists p, e. split; [now apply locked_holds|done].
  - intros p2 c2 e2 Hh2. apply locked_holds in Hh2. exact (Hu p2 c2 e2 Hh2).
Qed.

Lemma locked_linked n h c L : linked t n h c L -> linked t' n h c L.
Proof.
  intros Hl. apply (linked_frame t t' t_ok locked_params (fun _ => False)); [| |exact Hl|intros hm cm []].
  - intros p k e Hh _. exists e. split; [now apply locked_holds|apply alike_refl].
  - intros p h1 c1 s c' e _ _ _ _. apply locked_child.
Qed.

Lemma locked_local l : local_ok t l -> local_ok t' l.
Proof.
  intros [L1 L2 (bk & Hb & Hq) L4]. split.
  - now rewrite <- locked_params.
  - now rewrite <- (same_but_locks_entry _ _ _ same).
  - destruct (same_seq _ _ _ _ (table_shape _ t_ok) t'_shape same Hb) as (bk' & Hb' & E). exists bk'. split; [done|congruence].
  - rewrite L4. now rewrite (same_params_eq _ _ locked_params).
Qed.

Lemma locked_at_node pe h c : at_node t pe h c -> at_node t' pe h c.
Proof. intros [H1 H2 H3]. split; [rewrite H1; now rewrite (same_params_eq _ _ locked_params)|now apply locked_holds|exact H3]. Qed.

Lemma locked_leaf x e : leaf_entry t x e -> leaf_entry t' x e.
Proof. intros ((p & Hh) & H). split; [exists p; now apply locked_holds|done]. Qed.
End locked.

Lemma locked_left_child s s' P before r :
  table_ok (trie s) -> shape_ok (trie s') -> same_but_locks (trie s) (trie s') ->
  left_child s P before r -> left_child s' P before r.
Proof.
  intros Ht Hs Hsame. destruct r as [[bp sub]|]; [|done]. intros (f & h & c & pe & g & ch & c' & H1 & H2 & H3 & H4 & H5 & H6 & H7).
  exists f, h, c, pe, g, ch, c'. split; [done|]. split; [now apply (locked_at_node (trie s))|]. split; [done|]. split; [done|].
  split; [|split; [now apply (locked_child (trie s))|done]].
  rewrite (accumulate_hash_params _ _ (locked_params _ _ Hsame)). now apply (locked_linked (trie s)).
Qed.

Lemma locator_at_params t t' P r : same_params t t' -> locator_at t' P r = locator_at t P r.
Proof.
  intros Hp. destruct r as [[bp sub]|]; [|done]. cbn [locator_at]. destruct (P !! bp); [|done]. now rewrite (accumulate_hash_params _ _ Hp).
Qed.

Lemma locked_pred_copy s s' before l :
  table_ok (trie s) -> shape_ok (trie s') -> same_but_locks (trie s) (trie s') -> pred_copy s before l -> pred_copy s' before l.
Proof.
  intros Ht Hs Hsame. unfold pred_copy. destruct (last before) as [x|].
  - intros (H1 & H2 & H3). split; [now apply (locked_local (trie s))|]. split; [now apply (locked_holds _ _ Hsame)|now apply (locked_leaf _ _ Hsame)].
  - intros (H1 & H2 & bk & Hb & Hq). assert (Em : trie_min_leaf (trie s') = trie_min_leaf (trie s)) by now rewrite (same_params_eq _ _ (locked_params _ _ Hsame)).
    rewrite Em. split; [done|]. split; [now rewrite <- (same_but_locks_entry _ _ _ Hsame)|].
    destruct (same_seq _ _ _ _ (table_shape _ Ht) Hs Hsame Hb) as (bk' & Hb' & E). exists bk'. split; [done|congruence].
Qed.

(** The copy can be locked. *)
Lemma pred_copy_current s before l : table_ok (trie s) -> pred_copy s before l -> current (trie s) l.
Proof.
  intros Ht. unfold pred_copy. destruct (last before) as [x|].
  - intros (H & _). now apply local_current; [apply table_shape|].
  - intros (H1 & H2 & H3). split; [exact H3|]. rewrite H1. exact (shape_entry_cell _ _ _ (table_shape _ Ht) H2).
Qed.
