(* ===== verification/Stale.v ===== *)
(** * Copies that are out of date (atomics.c: upgrade_lock, write_unlock;
    main.c: upgrade_locks_on_left_parents_above, get_predecessor_atomic)

    When the bucket of a node on the path was written after the finger read
    it, taking its lock or validating the path fails, and the locks that the
    failing function took are given back. *)

From S2P Require Import Prelude Bits Entry KeyObject State Hashing Symbols Atomics Table Contents Store Locks Cells Search Relocate AddEntry Finger Insert Api Lookup Order Linked Spine Dictionary Growth Upgrade Locked.
From stdpp Require Import base list gmap.
From Stdlib Require Import ZArith Lia Bool.

#[local] Open Scope Z_scope.

(** Lock bytes and records have changed, and nothing else. *)
Record relocked (N : Z) (s s' : state) : Prop := mk_relocked {
  rk_table : same_but_locks (trie s) (trie s');
  rk_shape : shape_ok (trie s');
  rk_mem : kv_mem s' = kv_mem s;
  rk_locks : locks_ok N s';
}.

Lemma locking_relocked N s s' : locking N s s' -> relocked N s s'.
Proof. intros []. now split. Qed.

Lemma lock_effect_relocked N s s' es rs : lock_effect N s s' es rs -> relocked N s s'.
Proof. intros []. now split. Qed.

Lemma relocked_trans N N' s s1 s2 : relocked N s s1 -> relocked N' s1 s2 -> relocked N' s s2.
Proof. intros [] []. split; try done; [etransitivity; eassumption|congruence]. Qed.

Lemma relocked_mono N N' s s' : N <= N' -> relocked N s s' -> relocked N' s s'.
Proof. intros HN []. split; try done. now apply (locks_ok_mono N). Qed.

(** ** [upgrade_lock] *)

(** The cell is one of the table; its bucket may have changed. *)
Definition addressed (t : cuckoo_trie) (l : ct_entry_local_copy) : Prop :=
  is_Some (trie_bucket t (pos_bucket (last_pos l))) /\ (pos_cell (last_pos l) < CUCKOO_BUCKET_SIZE)%nat.

Lemma addressed_locks t t' l : shape_ok t -> shape_ok t' -> same_but_locks t t' -> addressed t l -> addressed t' l.
Proof.
  intros Ht Ht' Hs [[bk Hb] Hc]. split; [|exact Hc]. destruct (same_seq _ _ _ _ Ht Ht' Hs Hb) as (bk' & Hb' & _). eauto.
Qed.

Lemma current_back t t' l : shape_ok t -> shape_ok t' -> same_but_locks t t' -> current t' l -> current t l.
Proof. intros Ht Ht' Hs. apply current_locks; [done|done|now symmetry]. Qed.

Lemma current_dec t l : addressed t l -> current t l \/ exists bk, trie_bucket t (pos_bucket (last_pos l)) = Some bk /\
  (seq_part (write_lock_and_seq bk) =? seq_part (last_seq l)) = false.
Proof.
  intros [[bk Hb] Hc]. destruct (Z.eqb_spec (seq_part (write_lock_and_seq bk)) (seq_part (last_seq l))) as [E|E].
  - left. split; [exists bk; done|exact Hc].
  - right. exists bk. split; [done|]. now apply Z.eqb_neq.
Qed.

Lemma upgrade_stale N s l bk :
  locks_ok N s -> shape_ok (trie s) -> 1 <= N /\ N + 1 < 2 ^ 32 ->
  trie_bucket (trie s) (pos_bucket (last_pos l)) = Some bk -> (seq_part (write_lock_and_seq bk) =? seq_part (last_seq l)) = false ->
  Z.of_nat (length (lock_mgr s)) < MAX_LOCKS ->
  exists s', upgrade_lock l s = Ret SI_RETRY s' /\ locking N s s'.
Proof.
  intros Hl Hs HN Hb Hq Hroom. set (b := pos_bucket (last_pos l)) in *. destruct (shape_bucket _ _ _ Hs Hb) as [Hok Hqu].
  destruct (lock_at (lock_mgr s) b) as [l0|] eqn:El.
  - destruct (lock_index _ _ _ El) as (i & Hi & _). pose proof (lks_bytes _ _ Hl _ _ Hb) as Hby. rewrite El in Hby. exists s. split.
    + unfold upgrade_lock. fold b. erewrite bind_Ret by (apply try_take_lock_spec; exact Hb). rewrite Hby. cbn [Z.eqb].
      rewrite (relock_id bk Hok Hby), (upd_bucket_id _ _ _ Hb). replace (set_trie (trie s) s) with s by now destruct s.
      unfold get_locks. erewrite bind_Ret by reflexivity. rewrite Hi. erewrite bind_Ret by (apply get_bucket_eq; exact Hb).
      now rewrite Hq.
    + now apply locking_refl.
  - destruct (take_lock_spec N s b bk Hl Hs ltac:(lia) Hb El Hroom) as (s0 & s1 & E0 & Em & E1 & F1 & Hlen1 & Hi & Hat & Hbk).
    destruct (release_bucket_lock_spec N s1 b (le_locks _ _ _ _ _ F1) (le_shape _ _ _ _ _ F1) ltac:(lia)) as (s2 & E2 & F2 & _).
    { unfold bucket_refs. rewrite Hat. cbn. lia. }
    exists s2. split.
    2: { destruct (lock_effect_trans _ _ _ _ _ _ _ _ _ F1 F2) as [A1 A2 A3 A4 A5 A6]. split; try done.
         - intros b'. rewrite A6, (le_refs _ _ _ _ _ F1). lia.
         - intros q. unfold entry_ref. rewrite A5, (le_entries _ _ _ _ _ F1). lia. }
    destruct (shape_bucket _ _ _ (le_shape _ _ _ _ _ F1) Hbk) as [Hok1 _].
    unfold upgrade_lock. fold b. erewrite bind_Ret by exact E0. cbv iota. erewrite bind_Ret by exact E1.
    erewrite bind_Ret by (apply (read_bucket_seq_eq _ _ _ Hbk Hok1)).
    erewrite bind_Ret by (apply get_bucket_eq; exact Hbk).
    erewrite bind_Ret by (apply assert_true; apply Z.eqb_refl).
    rewrite set_write_lock_seq, Hq by (done || lia). cbn [negb]. now erewrite bind_Ret by exact E2.
Qed.

Lemma upgrade_any N s l :
  locks_ok N s -> shape_ok (trie s) -> 1 <= N /\ N + 1 < 2 ^ 32 -> addressed (trie s) l ->
  Z.of_nat (length (lock_mgr s)) < MAX_LOCKS ->
  (exists s', upgrade_lock l s = Ret SI_OK s' /\ locking (N + 1) s s' /\ held s' (last_pos l) /\
    (length (lock_mgr s') <= S (length (lock_mgr s)))%nat) \/
  (exists s', upgrade_lock l s = Ret SI_RETRY s' /\ locking N s s' /\ ~ current (trie s) l).
Proof.
  intros Hl Hs HN Ha Hroom. destruct (current_dec _ _ Ha) as [Hc|(bk & Hb & Hq)].
  - left. now apply upgrade_current.
  - right. destruct (upgrade_stale N s l bk Hl Hs HN Hb Hq Hroom) as (s' & E & Hr). exists s'. split; [done|]. split; [done|].
    intros [(bk' & Hb' & Eq) _]. rewrite Hb in Hb'. injection Hb' as <-. apply Z.eqb_neq in Hq. congruence.
Qed.

(** ** [write_unlock] *)

Lemma write_unlock_spec N s p :
  locks_ok N s -> shape_ok (trie s) -> N + 1 < 2 ^ 32 -> (pos_cell p < CUCKOO_BUCKET_SIZE)%nat -> held s p ->
  exists s', write_unlock p s = Ret tt s' /\ relocked N s s' /\ forall q, q <> p -> held s q -> held s' q.
Proof.
  intros Hl Hs HN Hc Hp. destruct (entry_refs_ok _ _ (pos_bucket p) Hl) as [Hlen _].
  destruct (held_locked s p Hc Hlen Hp) as [l0 Hlk]. destruct (lock_index _ _ _ Hlk) as (i & Hi & Hil).
  destruct (lock_at_ok _ _ _ _ Hl Hlk) as [Hlok Hlb]. pose proof Hlok as [L1 L2 L3 L4]. set (c := pos_cell p) in *. set (b := pos_bucket p) in *.
  assert (Ee : entry_refs (lock_mgr s) b = entry_refcounts l0) by (unfold entry_refs; now rewrite Hlk).
  assert (Hr : 1 <= byte_at (entry_refcounts l0) c) by (unfold held, entry_ref in Hp; fold b c in Hp; now rewrite Ee in Hp).
  assert (Er : entry_refcounts (add_total (-1) (add_entry_ref c (-1) l0)) = add_ref (-1) c (entry_refcounts l0))
    by (apply (add_entry_ref_eq N); (done || lia)).
  pose proof (sum_add_ref (-1) c (entry_refcounts l0) ltac:(now rewrite L1)) as Hsum.
  pose proof (sum_refs_lookup _ _ _ L2 (byte_at_lookup (entry_refcounts l0) c ltac:(now rewrite L1))) as Hle.
  destruct (drop_ref_spec N s b i l0 (fun x => add_total (-1) (add_entry_ref c (-1) x))) as (s' & E & F & _); try done; rewrite ?Er.
  - apply u32_small. cbn. lia.
  - now rewrite length_add_ref.
  - apply add_ref_nonneg; [exact L2|now rewrite L1|lia].
  - lia.
  - exists s'. split; [|split; [exact (lock_effect_relocked _ _ _ _ _ F)|]].
    + unfold write_unlock, get_locks. erewrite bind_Ret by reflexivity. fold b c. rewrite Hi. erewrite bind_Ret by reflexivity.
      rewrite Hil. erewrite bind_Ret by reflexivity.
      erewrite bind_Ret by (apply assert_true, negb_true_iff, Z.eqb_neq; unfold entry_refcount; fold (byte_at (entry_refcounts l0) c); lia).
      rewrite (update_lock_twice s i l0 (add_entry_ref c (-1)) (add_total (-1)) _ Hil). exact E.
    + intros q Hq Hhq. unfold held, entry_ref in *. rewrite (le_entries _ _ _ _ _ F). rewrite Er.
      destruct (Z.eqb_spec (pos_bucket q) b) as [Eb|]; [|exact Hhq]. rewrite Eb, Ee in Hhq.
      unfold byte_at, add_ref. rewrite nth_lookup, list_lookup_alter_ne; [now rewrite <- nth_lookup|].
      intros Ec. apply Hq. destruct p, q. cbn in *. subst b c. cbn in *. congruence.
Qed.

(** ** The walk up *)

Section walk.
Variable f : ct_finger.
Hypothesis stops_ok : same_stops (path f).
Hypothesis distinct_nodes : forall i j y z, (i < j)%nat -> path f !! i = Some y -> path f !! j = Some z ->
  last_pos (pe_entry y) <> last_pos (pe_entry z).

Definition out_of_date (t : cuckoo_trie) : Prop := exists x, x ∈ path f /\ ~ current t (pe_entry x).

Lemma left_parents_any n : forall N s,
  (n < length (path f))%nat -> locks_ok N s -> shape_ok (trie s) -> 1 <= N /\ N + Z.of_nat n < 2 ^ 32 ->
  Forall (fun x => addressed (trie s) (pe_entry x)) (path f) -> Z.of_nat (length (lock_mgr s) + n) <= MAX_LOCKS ->
  exists r top s', upgrade_left_parents f n s = Ret (r, top) s' /\ (top <= n)%nat /\ locking (N + Z.of_nat n) s s' /\
    (forall i x, (top <= i < n)%nat -> path f !! i = Some x -> held s' (last_pos (pe_entry x))) /\
    ((r = SI_OK /\ top = walk_top (path f) n /\ (length (lock_mgr s') <= length (lock_mgr s) + n)%nat) \/
     (r = SI_RETRY /\ out_of_date (trie s))).
Proof.
  induction n as [|n IH]; intros N s Hn Hl Hs HN Had Hroom.
  - exists SI_OK, 0%nat, s. split; [reflexivity|]. split; [lia|]. split; [rewrite Z.add_0_r; now apply locking_refl|].
    split; [intros i x Hi; lia|]. left. split; [done|]. split; [done|lia].
  - destruct (lookup_lt_is_Some_2 (path f) (S n) Hn) as [child Echild].
    destruct (lookup_lt_is_Some_2 (path f) n ltac:(lia)) as [parent Eparent].
    assert (Hpar : parent ∈ path f) by (eapply list_elem_of_lookup_2; exact Eparent).
    cbn [upgrade_left_parents walk_top]. unfold path_local. rewrite Echild, Eparent. cbn [fmap option_fmap option_map].
    destruct (stops_ok n parent child Eparent Echild) as [Hnode Hstop].
    do 2 erewrite bind_Ret by reflexivity. cbv zeta. erewrite bind_Ret by (unfold is_parent, pe_value in Hnode; now rewrite Hnode).
    change (lc_value (pe_entry parent)) with (pe_value parent). change (lc_value (pe_entry child)) with (pe_value child).
    change (negb (entry_type (pe_value parent) =? TYPE_JUMP) && negb (last_symbol (pe_value child) =? max_child (pe_value parent)))
      with (code_stops parent child). rewrite Hstop. destruct (stops parent child).
    + exists SI_OK, (S n), s. split; [reflexivity|]. split; [lia|]. split; [apply locking_refl; [apply (locks_ok_mono N); [lia|done]|done]|].
      split; [intros i x Hi; lia|]. left. split; [done|]. split; [done|lia].
    + destruct (upgrade_any N s (pe_entry parent) Hl Hs ltac:(lia) (proj1 (Forall_forall _ _) Had parent Hpar) ltac:(lia))
        as [(s1 & E1 & G1 & Hheld & Hlen)|(s1 & E1 & G1 & Hstale)].
      * destruct (IH (N + 1) s1 ltac:(lia) (lg_locks _ _ _ G1) (lg_shape _ _ _ G1) ltac:(lia)) as (r & top & s2 & E2 & Htop & G2 & Hh2 & Hr).
        { eapply Forall_impl; [exact Had|]. intros x. apply addressed_locks; [done|apply G1..]. }
        { lia. }
        exists r, top, s2. split; [erewrite bind_Ret by exact E1; rewrite bool_decide_true by done; exact E2|]. split; [lia|].
        split; [replace (N + Z.of_nat (S n)) with (N + 1 + Z.of_nat n) by lia; exact (locking_trans _ _ _ _ _ G1 G2)|]. split.
        { intros i x Hi Ex. destruct (decide (i = n)) as [->|Hne]; [|apply (Hh2 i x); [lia|exact Ex]].
          rewrite Eparent in Ex. injection Ex as <-. exact (held_locking _ _ _ _ G2 Hheld). }
        destruct Hr as [(-> & -> & Hlen2)|(-> & x & Hx & Hold)]; [left; split; [done|split; [done|lia]]|right].
        split; [done|]. exists x. split; [exact Hx|]. intros Hc. apply Hold. apply (current_locks (trie s)); [done|apply G1|apply G1|exact Hc].
      * exists SI_RETRY, (S n), s1. split; [erewrite bind_Ret by exact E1; now rewrite bool_decide_false|]. split; [lia|].
        split; [destruct G1 as [? ? ? Hk ? ?]; split; try done; apply (locks_ok_mono N); [lia|exact Hk]|]. split; [intros i x Hi; lia|].
        right. split; [done|]. now exists parent.
Qed.

(** Giving back the locks of the path from [start] on. *)
Lemma unlock_path m : forall N s start,
  (start + m <= length (path f))%nat -> locks_ok N s -> shape_ok (trie s) -> N + 1 < 2 ^ 32 ->
  Forall (fun x => addressed (trie s) (pe_entry x)) (path f) ->
  (forall i x, (start <= i < start + m)%nat -> path f !! i = Some x -> held s (last_pos (pe_entry x))) ->
  exists s', for_each (seq start m) (fun _ i => l ← lift (path_local f i); write_unlock (last_pos l)) tt s = Ret tt s' /\ relocked N s s'.
Proof.
  induction m as [|m IH]; intros N s start Hlen Hl Hs HN Had Hheld.
  - exists s. split; [reflexivity|]. split; done || reflexivity.
  - destruct (lookup_lt_is_Some_2 (path f) start ltac:(lia)) as [x Ex].
    pose proof (proj1 (Forall_forall _ _) Had x ltac:(eapply list_elem_of_lookup_2; exact Ex)) as [_ Hc].
    destruct (write_unlock_spec N s (last_pos (pe_entry x)) Hl Hs HN Hc (Hheld start x ltac:(lia) Ex)) as (s1 & E1 & R1 & Hh1).
    destruct (IH N s1 (S start) ltac:(lia) (rk_locks _ _ _ R1) (rk_shape _ _ _ R1) HN) as (s2 & E2 & R2).
    + eapply Forall_impl; [exact Had|]. intros y. apply addressed_locks; [done|apply R1..].
    + intros i y Hi Ey. apply Hh1; [|apply (Hheld i y); [lia|exact Ey]]. apply not_eq_sym, (distinct_nodes start i x y); [lia|done|done].
    + exists s2. split; [|exact (relocked_trans _ _ _ _ _ R1 R2)]. cbn [seq].
      erewrite for_each_cons; [exact E2|]. unfold path_local. rewrite Ex. cbn [fmap option_fmap option_map]. now erewrite bind_Ret by reflexivity.
Qed.

Lemma left_parents_above_any n b N s :
  path f !! n = Some b -> entry_type (pe_value b) = TYPE_BITMAP -> locks_ok N s -> shape_ok (trie s) -> 1 <= N /\ N + Z.of_nat n + 1 < 2 ^ 32 ->
  Forall (fun x => addressed (trie s) (pe_entry x)) (path f) -> Z.of_nat (length (lock_mgr s) + n) <= MAX_LOCKS ->
  exists r s', upgrade_locks_on_left_parents_above f n s = Ret r s' /\
    ((r = SI_OK /\ locking (N + Z.of_nat n) s s' /\
      (forall i x, (walk_top (path f) n <= i < n)%nat -> path f !! i = Some x -> held s' (last_pos (pe_entry x))) /\
      (length (lock_mgr s') <= length (lock_mgr s) + n)%nat) \/
     (r = SI_RETRY /\ relocked (N + Z.of_nat n) s s' /\ out_of_date (trie s))).
Proof.
  intros Hb Tb Hl Hs HN Had Hroom. destruct (left_parents_any n N s (lookup_lt_Some _ _ _ Hb) Hl Hs ltac:(lia) Had Hroom) as (r & top & s1 & E1 & Htop & G1 & Hh & Hr).
  pose proof (lookup_lt_Some _ _ _ Hb) as Hn. unfold upgrade_locks_on_left_parents_above.
  erewrite (bind_Ret (lift _)) by (unfold path_local; now rewrite Hb). erewrite bind_Ret by (unfold pe_value in Tb; now rewrite Tb).
  destruct Hr as [(-> & -> & Hlen)|(-> & Hold)].
  - exists SI_OK, s1. split; [|left; done]. erewrite bind_Ret by exact E1. cbv iota beta. now rewrite bool_decide_true.
  - destruct (unlock_path (n - top) (N + Z.of_nat n) s1 top ltac:(lia) (lg_locks _ _ _ G1) (lg_shape _ _ _ G1) ltac:(lia)) as (s2 & E2 & R2).
    + eapply Forall_impl; [exact Had|]. intros x. apply addressed_locks; [done|apply G1..].
    + intros i x Hi. apply Hh. lia.
    + exists SI_RETRY, s2. split; [|right; split; [done|split; [exact (relocked_trans _ _ _ _ _ (locking_relocked _ _ _ G1) R2)|exact Hold]]].
      erewrite bind_Ret by exact E1. cbv iota beta. rewrite bool_decide_false by done. cbn [negb when].
      now erewrite bind_Ret by exact E2.
Qed.

(** ** Validating the path *)

Lemma validate_path_any `{BucketOps} s k : Forall (fun x => addressed (trie s) (pe_entry x)) (path f) ->
  exists ok, validate_path_from f k s = Ret ok s /\ (ok = false -> out_of_date (trie s)).
Proof.
  intros Had. unfold validate_path_from.
  destruct (for_each_inv (fun ok => ok = false -> out_of_date (trie s)) (drop k (path f))
    (fun (ok : bool) pe => if ok then validate_entry (pe_entry pe) else mret false) true s ltac:(done)) as (ok & E & Hok); [|eauto].
  intros ok pe Hpe Hok. apply list_elem_of_lookup in Hpe as [i Hi]. rewrite lookup_drop in Hi. apply list_elem_of_lookup_2 in Hi.
  destruct ok; [|exists false; split; [reflexivity|exact Hok]].
  pose proof (proj1 (Forall_forall _ _) Had pe Hi) as Ha. pose proof Ha as [[bk Hb] _].
  exists (seq_part (write_lock_and_seq bk) =? seq_part (last_seq (pe_entry pe))). split.
  - unfold validate_entry, read_int_atomic_seq. erewrite bind_Ret by (erewrite bind_Ret by (apply get_bucket_eq; exact Hb); reflexivity). reflexivity.
  - intros Hne. exists pe. split; [exact Hi|]. intros [(bk' & Hb' & E) _]. rewrite Hb in Hb'. injection Hb' as <-. apply Z.eqb_neq in Hne. congruence.
Qed.
End walk.

(** ** Paths *)

Lemma at_node_addressed t pe h c : shape_ok t -> at_node t pe h c -> addressed t (pe_entry pe).
Proof.
  intros Ht Ha. destruct (an_holds _ _ _ _ Ha) as (_ & He & _). split; [|exact (shape_entry_cell _ _ _ Ht He)].
  destruct (trie_entry_bucket _ _ _ He) as (bk & Hb & _). eauto.
Qed.

Lemma spine_addressed t root leaves0 P n h c L B pre :
  shape_ok t -> spine t root leaves0 P n h c L B pre -> Forall (fun x => addressed t (pe_entry x)) P.
Proof.
  intros Ht. induction 1 as [pe Ha|P pe pe' syms child h c L B pre _ IH _ Ha|P pe pe' f g h c L B pre s ch c' _ IH _ _ _ _ _ _ Ha];
    [|apply Forall_app; split; [exact IH|]..]; (constructor; [exact (at_node_addressed _ _ _ _ Ht Ha)|constructor]).
Qed.

Lemma fresh_not_old f t : shape_ok t -> Forall (fun pe => local_ok t (pe_entry pe)) (path f) -> ~ out_of_date f t.
Proof. intros Ht Hf (x & Hx & Hold). apply Hold, local_current; [exact Ht|]. exact (proj1 (Forall_forall _ _) Hf x Hx). Qed.

Lemma out_of_date_locks f t t' : shape_ok t -> shape_ok t' -> same_but_locks t t' -> out_of_date f t' -> out_of_date f t.
Proof. intros Ht Ht' Hs (x & Hx & Hold). exists x. split; [exact Hx|]. intros Hc. apply Hold. now apply (current_locks t). Qed.

(** ** Giving up *)

(** Every lock was given back, and nothing else has changed. *)
Record gave_up (s s' : state) : Prop := mk_gave_up {
  gu_table : same_but_locks (trie s) (trie s');
  gu_shape : shape_ok (trie s');
  gu_locks : unlocked (trie s') /\ lock_mgr s' = [];
  gu_mem : kv_mem s' = kv_mem s;
}.

Lemma release_gives_up N s s1 : relocked N s s1 -> exists s', (_ ← release_all_locks; mret SI_RETRY) s1 = Ret SI_RETRY s' /\ gave_up s s'.
Proof.
  intros [R1 R2 R3 R4]. destruct (release_all_locks_spec N s1 R4 R2) as (t' & E & H1 & H2 & H3).
  exists (mk_state t' [] (kv_mem s1)). split; [now erewrite bind_Ret by exact E|]. split; cbn; try done. now transitivity (trie s1).
Qed.
