(* ===== verification/Writes.v ===== *)
(** * Writing the cells of locked entries (main.c: update_entry,
    update_entry_slow_path, propagate_from)

    Between taking the locks and releasing them, the thread rewrites entries
    it holds. Copies that were read before may carry an old sequence number
    of their bucket: the fast path of [update_entry] and the search of its
    slow path end at the same cell. *)

From S2P Require Import Prelude Bits Entry KeyObject State Hashing Symbols Atomics Table Contents Store Locks Cells Search Relocate AddEntry Finger Insert Api Lookup Order Linked Spine Dictionary Fields Growth Upgrade.
From stdpp Require Import base list gmap sorting.
From Stdlib Require Import ZArith Lia Bool.

#[local] Open Scope Z_scope.

(** ** The secondary flag *)

Lemma secondary_eq a b :
  is_byte a -> is_byte b ->
  ((a .& FLAG_SECONDARY_BUCKET) =? FLAG_SECONDARY_BUCKET) = ((b .& FLAG_SECONDARY_BUCKET) =? FLAG_SECONDARY_BUCKET) ->
  (a .& bnot 8 FLAG_SECONDARY_BUCKET) .| (b .& FLAG_SECONDARY_BUCKET) = a.
Proof.
  intros Ha Hb E. assert (Hbit : forall x, is_byte x ->
    ((x .& FLAG_SECONDARY_BUCKET) =? (if (x .& FLAG_SECONDARY_BUCKET) =? FLAG_SECONDARY_BUCKET then FLAG_SECONDARY_BUCKET else 0)) = true /\
    (((x .& bnot 8 FLAG_SECONDARY_BUCKET) .| (x .& FLAG_SECONDARY_BUCKET)) =? x) = true).
  { intros x Hx. split; revert x Hx.
    - intros x Hx. apply (byte_check (fun x => (x .& FLAG_SECONDARY_BUCKET) =?
        (if (x .& FLAG_SECONDARY_BUCKET) =? FLAG_SECONDARY_BUCKET then FLAG_SECONDARY_BUCKET else 0))); [vm_compute; reflexivity|exact Hx].
    - intros x Hx. apply (byte_check (fun x => ((x .& bnot 8 FLAG_SECONDARY_BUCKET) .| (x .& FLAG_SECONDARY_BUCKET)) =? x)); [vm_compute; reflexivity|exact Hx]. }
  destruct (Hbit a Ha) as [A1 A2], (Hbit b Hb) as [B1 _]. apply Z.eqb_eq in A1, A2, B1. rewrite B1, <- E, <- A1. exact A2.
Qed.

(** ** Cells with the same tags *)

Lemma cells_ok_tags t E p e v :
  cells_ok t E -> E p = Some e -> entry_ok v -> same_tags e v -> cells_ok t (fill p v E).
Proof.
  intros [C1 C2] He Hv Hs. assert (Hsub : forall q k x, cell_holds t (fill p v E) q k x -> exists x0, cell_holds t E q k x0).
  { intros q k x (A1 & A2 & A3 & A4). destruct (decide (q = p)) as [->|Hne].
    - rewrite fill_eq in A2. injection A2 as <-. destruct (same_tags_key t p e v Hs) as (K1 & _). exists e.
      split; [done|]. split; [done|]. split; [now rewrite <- (sg_used _ _ Hs)|]. now rewrite <- K1.
    - rewrite fill_ne in A2 by done. exists x. done. }
  split.
  - intros q x Hq Hx. destruct (decide (q = p)) as [->|Hne].
    + rewrite fill_eq in Hx. injection Hx as <-. split; [done|]. apply (same_tags_key t p e v Hs). now apply (C1 p).
    + rewrite fill_ne in Hx by done. now apply (C1 q).
  - intros q q' k x x' H1 H2. destruct (Hsub _ _ _ H1) as (y & Hy), (Hsub _ _ _ H2) as (y' & Hy'). exact (C2 _ _ _ _ _ Hy Hy').
Qed.

(** ** A thread that holds locks *)

Section busy.
Context `{BucketLaws}.
Variables (N : Z) (s0 : state).

(** The table is [t], its cells are [E]; the locks are those of [s0]. *)
Record busy (t : cuckoo_trie) (E : cell_map) : Prop := mk_busy {
  by_params : same_params (trie s0) t;
  by_shape : shape_ok t;
  by_locks : locks_ok N (set_trie t s0);
  by_at : forall q, trie_entry t q = E q;
  by_cells : cells_ok t E;
}.

Lemma busy_ext t E E' : (forall q, E' q = E q) -> busy t E -> busy t E'.
Proof.
  intros HE [B1 B2 B3 B4 B5]. split; try done; [intros q; now rewrite HE|].
  apply (cells_ok_eq t E); [intros q; now rewrite HE|exact B5].
Qed.

Lemma busy_table t E : busy t E -> table_ok t.
Proof.
  intros [B1 B2 B3 B4 B5]. apply table_cells. split; [exact B2|]. apply (cells_ok_eq t E); [|exact B5]. intros q. now rewrite B4.
Qed.

(** A copy of the current entry, which can be found again or has not been
    overtaken. *)
Record usable (t : cuckoo_trie) (l : ct_entry_local_copy) : Prop := mk_usable {
  us_at : trie_entry t (last_pos l) = Some (lc_value l);
  us_found : (in_table t (last_pos l) /\ used (lc_value l) = true /\
              primary_bucket l = hash_to_bucket (entry_hash t (last_pos l) (lc_value l))) \/
             (last_pos l = trie_min_leaf t /\ exists bk, trie_bucket t (pos_bucket (last_pos l)) = Some bk /\
              seq_part (last_seq l) = seq_part (write_lock_and_seq bk));
}.

Lemma write_busy t E p e v :
  busy t E -> held s0 p -> E p = Some e -> entry_ok v -> same_tags e v ->
  exists seq t', write_entry p v (set_trie t s0) = Ret seq (set_trie t' s0) /\ busy t' (fill p v E) /\
    (forall b, b <> pos_bucket p -> trie_bucket t' b = trie_bucket t b) /\
    exists bk, trie_bucket t' (pos_bucket p) = Some bk /\ seq = write_lock_and_seq bk.
Proof.
  intros [B1 B2 B3 B4 B5] Hp He Hv Hs.
  assert (Hc : (pos_cell p < CUCKOO_BUCKET_SIZE)%nat) by (apply (shape_entry_cell t p e B2); now rewrite B4).
  assert (Hlk : is_Some (lock_at (lock_mgr (set_trie t s0)) (pos_bucket p)))
    by (apply held_locked; [done|apply (entry_refs_ok _ _ (pos_bucket p) B3)|exact Hp]).
  destruct (write_locked_spec N (set_trie t s0) p v B3 B2 Hlk Hc Hv) as (seq & t' & E1 & A1 & A2 & A3 & A4 & A5).
  exists seq, t'. split; [exact E1|]. cbn [trie set_trie] in *. split; [split|split; [exact A5|]].
  - now transitivity t.
  - exact A1.
  - exact A3.
  - intros q. rewrite A4. unfold fill. now rewrite B4.
  - apply (cells_ok_params t); [exact A2|]. now apply (cells_ok_tags t E p e).
  - destruct (locked_bucket N _ _ B3 Hlk) as (bk & Hb & Hw). cbn [trie set_trie] in Hb. destruct (shape_bucket _ _ _ B2 Hb) as [Hok Hq].
    destruct (lookup_lt_is_Some_2 (cells bk) (pos_cell p)) as [e0 He0]; [now rewrite bk_length|].
    rewrite (write_entry_spec (set_trie t s0) p v e0 bk Hb He0 Hok Hq Hw Hv) in E1. injection E1 as <- E1. subst t'.
    exists (write_cell bk (pos_cell p) v). cbn [trie set_trie]. rewrite (trie_bucket_upd _ _ bk) by done. rewrite Z.eqb_refl. done.
Qed.

(** A write to another cell leaves a copy usable. *)
Lemma usable_kept t t' p l v :
  same_params t t' -> Z.of_nat (length (buckets t)) = num_buckets t + 1 ->
  (forall q, q <> p -> trie_entry t' q = trie_entry t q) -> (forall b, b <> pos_bucket p -> trie_bucket t' b = trie_bucket t b) ->
  trie_entry t p = Some v -> in_table t p \/ p = trie_min_leaf t -> usable t l -> last_pos l <> p -> usable t' l.
Proof.
  intros Hpar Hlen Hq Hb Hv Hin [U1 U2] Hne. split; [now rewrite Hq|]. destruct U2 as [(V1 & V2 & V3)|(V1 & V2)].
  - left. rewrite V3. rewrite (same_params_eq _ _ Hpar). done.
  - right. assert (Em : trie_min_leaf t' = trie_min_leaf t) by now rewrite (same_params_eq _ _ Hpar). rewrite Em. split; [done|].
    rewrite Hb; [done|]. destruct Hin as [Hin| ->]; [|now rewrite V1 in Hne]. intros Eb. unfold in_table in Hin.
    rewrite V1 in Eb. cbn [pos_bucket trie_min_leaf] in Eb. unfold min_leaf_bucket in Eb. lia.
Qed.

Lemma validate_eq t l bk :
  trie_bucket t (pos_bucket (last_pos l)) = Some bk ->
  validate_entry l (set_trie t s0) = Ret (seq_part (write_lock_and_seq bk) =? seq_part (last_seq l)) (set_trie t s0).
Proof.
  intros Hb. unfold validate_entry, read_int_atomic_seq.
  erewrite bind_Ret by (erewrite bind_Ret by (apply get_bucket_eq; exact Hb); reflexivity). reflexivity.
Qed.

(** The search of the slow path ends at the entry, and keeps its flag. *)
Lemma slow_path_eq t E l v :
  busy t E -> usable t l -> in_table t (last_pos l) -> used (lc_value l) = true ->
  primary_bucket l = hash_to_bucket (entry_hash t (last_pos l) (lc_value l)) -> entry_ok v -> same_tags (lc_value l) v ->
  update_entry_slow_path l v (set_trie t s0) =
  (new_seq ← write_entry (last_pos l) v; mret (mk_local v (last_pos l) (primary_bucket l) new_seq)) (set_trie t s0).
Proof.
  intros HB [Hat _] Hin Hu Hp Hv Hs. pose proof (busy_table t E HB) as Ht. pose proof (trie_entry_ok t Ht _ _ Hat) as Hok.
  destruct (entry_hash_parts t Ht (last_pos l) (lc_value l) Hin Hok) as (Hh & Eb & Etag).
  destruct (find_by_color_spec t Ht (set_trie t s0) (last_pos l) (entry_hash t (last_pos l) (lc_value l)) (entry_color (lc_value l)) (lc_value l))
    as (cur & Ec & _ & Hcp & _); [reflexivity|split; [done|]; split; [done|]; done|].
  unfold update_entry_slow_path. rewrite Hp, <- Etag. erewrite bind_Ret by exact Ec. rewrite Hcp.
  erewrite bind_Ret by (apply get_entry_eq; exact Hat).
  assert (E1 : set_parent_color_and_flags ((parent_color_and_flags v .& bnot 8 FLAG_SECONDARY_BUCKET)
      .| (parent_color_and_flags (lc_value l) .& FLAG_SECONDARY_BUCKET)) v = v).
  { rewrite secondary_eq; [now apply set_flags_id|now apply flags_byte|now apply flags_byte|]. exact (sg_sec _ _ Hs). }
  cbv zeta. now rewrite E1.
Qed.

Lemma update_busy t E l v :
  busy t E -> usable t l -> held s0 (last_pos l) -> entry_ok v -> same_tags (lc_value l) v ->
  exists seq t', let l' := mk_local v (last_pos l) (primary_bucket l) seq in
    update_entry l v (set_trie t s0) = Ret l' (set_trie t' s0) /\ busy t' (fill (last_pos l) v E) /\ usable t' l' /\
    forall l2, usable t l2 -> last_pos l2 <> last_pos l -> usable t' l2.
Proof.
  intros HB HU Hheld Hv Hs. pose proof (us_at _ _ HU) as Hat.
  destruct (write_busy t E (last_pos l) (lc_value l) v HB Hheld ltac:(now rewrite <- (by_at _ _ HB)) Hv Hs) as (seq & t' & Ew & HB' & Hoth & bk' & Hbk' & Eseq).
  exists seq, t'. cbv zeta. assert (Hpar : same_params t t') by (transitivity (trie s0); [symmetry; apply HB|apply HB']).
  split; [|split; [exact HB'|split]].
  - destruct (trie_entry_bucket _ _ _ Hat) as (bk & Hbk & _). unfold update_entry. erewrite bind_Ret by (apply validate_eq; exact Hbk).
    destruct (Z.eqb_spec (seq_part (write_lock_and_seq bk)) (seq_part (last_seq l))) as [_|Hne].
    + erewrite bind_Ret by exact Ew. reflexivity.
    + destruct (us_found _ _ HU) as [(V1 & V2 & V3)|(V1 & bk2 & Hbk2 & Hq)]; [|exfalso; apply Hne; rewrite Hbk in Hbk2; injection Hbk2 as <-; done].
      rewrite (slow_path_eq t E l v HB HU V1 V2 V3 Hv Hs). erewrite bind_Ret by exact Ew. reflexivity.
  - split; cbn [last_pos lc_value primary_bucket last_seq].
    + rewrite (by_at _ _ HB'). apply fill_eq.
    + destruct (us_found _ _ HU) as [(V1 & V2 & V3)|(V1 & _)]; [left|right].
      * split; [now rewrite <- Hpar|]. split; [now rewrite (sg_used _ _ Hs)|]. rewrite V3.
        destruct (same_tags_key t' (last_pos l) _ _ Hs) as (_ & -> & _). now rewrite (same_params_eq _ _ Hpar).
      * split; [rewrite V1; now rewrite (same_params_eq _ _ Hpar)|]. exists bk'. split; [done|]. now rewrite Eseq.
  - intros l2 H2 Hne. apply (usable_kept t t' (last_pos l) l2 (lc_value l)); try done.
    + apply (by_shape _ _ HB).
    + intros q Hq. rewrite (by_at _ _ HB'), (by_at _ _ HB). now apply fill_ne.
    + destruct (us_found _ _ HU) as [(V1 & _)|(V1 & _)]; [now left|now right].
Qed.

(** ** A plain store to the new entry *)

Lemma put_busy t E p e v :
  busy t E -> E p = Some e -> in_table t p -> entry_ok v -> same_tags e v ->
  exists t', put_entry p v (set_trie t s0) = Ret tt (set_trie t' s0) /\ busy t' (fill p v E) /\
    forall l, usable t l -> last_pos l <> p -> usable t' l.
Proof.
  intros HB He Hin Hv Hs. pose proof (by_at _ _ HB p) as Hat. rewrite He in Hat.
  destruct (trie_entry_bucket _ _ _ Hat) as (bk & Hbk & Hc). destruct (shape_bucket _ _ _ (by_shape _ _ HB) Hbk) as [Hok Hq].
  pose proof (lookup_lt_Some _ _ _ Hc) as Hlt. set (bk' := mk_bucket (<[pos_cell p := v]> (cells bk)) (write_lock_and_seq bk)).
  set (t' := upd_bucket t (pos_bucket p) bk'). exists t'.
  assert (Hok' : bucket_ok bk').
  { destruct Hok as [K1 K2 K3]. split; [cbn; now rewrite length_insert|now apply Forall_insert|exact K3]. }
  assert (Hcells : forall q, trie_entry t' q = fill p v E q).
  { intros q. unfold t'. rewrite (trie_entry_upd _ _ bk) by done. unfold fill. rewrite <- (by_at _ _ HB q).
    destruct (Z.eqb_spec (pos_bucket q) (pos_bucket p)) as [Eb|Hne].
    - cbn [cells bk']. destruct (decide (q = p)) as [->|Hqp]; [now apply list_lookup_insert_eq|].
      rewrite list_lookup_insert_ne; [|intros Ec; apply Hqp; destruct q, p; cbn in *; congruence].
      unfold trie_entry. rewrite Eb, Hbk. reflexivity.
    - rewrite decide_False; [done|]. intros ->. done. }
  assert (HB' : busy t' (fill p v E)).
  { destruct HB as [B1 B2 B3 B4 B5]. split.
    - transitivity t; [done|reflexivity].
    - apply (shape_upd t _ bk); done.
    - destruct B3 as [L1 L2 L3 L4]. split; cbn [trie set_trie lock_mgr] in *; try done.
      + intros b bx Hbx. unfold t' in Hbx. rewrite (trie_bucket_upd _ _ bk) in Hbx by done. destruct (Z.eqb_spec b (pos_bucket p)) as [->|].
        * injection Hbx as <-. exact (L3 _ bk Hbk).
        * now apply L3.
      + intros b Hb. unfold t'. rewrite (trie_bucket_upd _ _ bk) by done. destruct (b =? pos_bucket p); [eauto|now apply L4].
    - exact Hcells.
    - apply (cells_ok_params t); [reflexivity|]. now apply (cells_ok_tags t E p e). }
  split; [|split; [exact HB'|]].
  - unfold put_entry. erewrite bind_Ret by (apply get_bucket_eq; exact Hbk).
    unfold bucket_cell. rewrite Hc. erewrite bind_Ret by reflexivity.
    apply (put_bucket_spec (set_trie t s0) _ bk). exact Hbk.
  - intros l HU Hne. destruct HU as [U1 U2]. split; [rewrite Hcells, fill_ne, <- (by_at _ _ HB) by done; exact U1|].
    destruct U2 as [(V1 & V2 & V3)|(V1 & bx & Hbx & Hqx)]; [left; done|right]. split; [done|].
    destruct (Z.eqb_spec (pos_bucket (last_pos l)) (pos_bucket p)) as [Eb|Hneb].
    + exists bk'. rewrite Eb in *. unfold t'. rewrite (trie_bucket_upd _ _ bk), Z.eqb_refl by done. split; [done|].
      rewrite Hbk in Hbx. injection Hbx as <-. exact Hqx.
    + exists bx. unfold t'. rewrite (trie_bucket_upd _ _ bk) by done. now rewrite (proj2 (Z.eqb_neq _ _) Hneb).
Qed.

(** ** The new maximal leaf, up the path *)

Lemma walk_top_ext P P' n :
  (n < length P)%nat ->
  (forall i x, (i <= n)%nat -> P !! i = Some x -> exists x', P' !! i = Some x' /\ last_symbol (pe_value x') = last_symbol (pe_value x) /\
     ((i < n)%nat -> entry_type (pe_value x') = entry_type (pe_value x) /\ max_child (pe_value x') = max_child (pe_value x))) ->
  walk_top P' n = walk_top P n.
Proof.
  induction n as [|n IH]; intros Hn HP; [done|]. cbn [walk_top].
  destruct (lookup_lt_is_Some_2 P (S n) Hn) as [c Ec]. destruct (lookup_lt_is_Some_2 P n ltac:(lia)) as [x Ex].
  destruct (HP (S n) c ltac:(lia) Ec) as (c' & Ec' & Hc & _). destruct (HP n x ltac:(lia) Ex) as (x' & Ex' & _ & Hx).
  destruct (Hx ltac:(lia)) as [H1 H2]. rewrite Ec, Ex, Ec', Ex'. unfold stops. rewrite Hc, H1, H2. destruct (_ && _); [done|].
  apply IH; [lia|]. intros i z Hi Hz. destruct (HP i z ltac:(lia) Hz) as (z' & E1 & E2 & E3). exists z'. split; [done|]. split; [done|].
  intros Hlt. apply E3. lia.
Qed.

Lemma set_path_local_lookup f i l j x :
  path f !! j = Some x ->
  path (set_path_local i l f) !! j = Some (if decide (i = j) then mk_path_entry l (pe_prefix_hash x) else x).
Proof.
  intros Hx. unfold set_path_local, set_path. cbn [path]. case_decide as E.
  - subst. rewrite list_lookup_alter_eq, Hx. reflexivity.
  - now rewrite list_lookup_alter_ne.
Qed.

(** The positions from [b] to [n] of the path. *)
Definition path_range (P : list ct_path_entry) (b n : nat) (q : pos) : Prop :=
  exists i x, (b <= i < n)%nat /\ P !! i = Some x /\ q = last_pos (pe_entry x).

Section propagate.
Variable m : ct_entry_locator.
Hypothesis m_ok : locator_ok m.

(** What [propagate_from] needs of a path. *)
Record ready (f : ct_finger) (n : nat) (t : cuckoo_trie) : Prop := mk_ready {
  rd_end : exists child, path f !! n = Some child /\ max_leaf (pe_value child) = m;
  rd_usable : forall i x, (i < n)%nat -> path f !! i = Some x -> usable t (pe_entry x);
  rd_distinct : forall i j x y, (i < j < n)%nat -> path f !! i = Some x -> path f !! j = Some y ->
    last_pos (pe_entry x) <> last_pos (pe_entry y);
  rd_held : forall i x, (walk_top (path f) n <= i < n)%nat -> path f !! i = Some x -> held s0 (last_pos (pe_entry x));
}.

(** The step to the next node up. *)
Lemma ready_up f n t t' parent seq :
  ready f (S n) t -> path f !! n = Some parent -> entry_ok (pe_value parent) -> walk_top (path f) (S n) = walk_top (path f) n ->
  (forall l, usable t l -> last_pos l <> last_pos (pe_entry parent) -> usable t' l) ->
  let f' := set_path_local n (mk_local (set_max_leaf m (pe_value parent)) (last_pos (pe_entry parent)) (primary_bucket (pe_entry parent)) seq) f in
  ready f' n t' /\ walk_top (path f') n = walk_top (path f) n /\
  forall i x, (i < n)%nat -> path f' !! i = Some x <-> path f !! i = Some x.
Proof.
  intros [R1 R2 R3 R4] Ep Hok Etop Hkept f'. pose proof (lookup_lt_Some _ _ _ Ep) as Hlen.
  assert (Hlow : forall i x, (i < n)%nat -> path f' !! i = Some x <-> path f !! i = Some x).
  { intros i x Hi. unfold f', set_path_local, set_path. cbn [path]. now rewrite list_lookup_alter_ne by lia. }
  assert (Htop : walk_top (path f') n = walk_top (path f) n).
  { apply walk_top_ext; [done|]. intros i x Hi Hx. eexists. split; [apply set_path_local_lookup; exact Hx|].
    destruct (decide (n = i)) as [<-|Hne]; [|done]. split; [|lia]. rewrite Hx in Ep. injection Ep as <-. unfold pe_value at 1. cbn [pe_entry lc_value].
    apply set_locator_agrees; [done|lia]. }
  split; [|done]. split.
  - eexists. split; [apply set_path_local_lookup; exact Ep|]. rewrite decide_True by done. unfold pe_value. cbn [pe_entry lc_value].
    now apply entry_locator_set.
  - intros i x Hi Hx. apply Hlow in Hx; [|done]. apply Hkept; [now apply (R2 i); [lia|]|]. now apply (R3 i n x parent); [lia|..].
  - intros i j x y Hij Hx Hy. apply Hlow in Hx, Hy; [|lia..]. apply (R3 i j); (done || lia).
  - rewrite Htop. intros i x Hi Hx. apply Hlow in Hx; [|lia]. apply (R4 i); [rewrite Etop; lia|done].
Qed.

Lemma propagate_spec n : forall f t E,
  ready f n t -> busy t E ->
  exists f' t' E', propagate_from f n (set_trie t s0) = Ret f' (set_trie t' s0) /\ busy t' E' /\
    (forall i x, (walk_top (path f) n <= i < n)%nat -> path f !! i = Some x -> E' (last_pos (pe_entry x)) = Some (set_max_leaf m (pe_value x))) /\
    (forall q, ~ path_range (path f) (walk_top (path f) n) n q -> E' q = E q) /\
    (forall l, usable t l -> ~ path_range (path f) (walk_top (path f) n) n (last_pos l) -> usable t' l).
Proof.
  induction n as [|n IH]; intros f t E HR HB.
  - exists f, t, E. split; [reflexivity|]. split; [done|]. split; [intros i x Hi; lia|]. done.
  - destruct (rd_end _ _ _ HR) as (child & Echild & Hm). pose proof (lookup_lt_Some _ _ _ Echild) as Hlen.
    destruct (lookup_lt_is_Some_2 (path f) n ltac:(lia)) as [parent Eparent].
    assert (Etop : walk_top (path f) (S n) = if stops parent child then S n else walk_top (path f) n) by (cbn [walk_top]; now rewrite Echild, Eparent).
    cbn [propagate_from]. unfold path_local. rewrite Echild, Eparent. cbn [fmap option_fmap option_map]. do 2 erewrite bind_Ret by reflexivity.
    change (lc_value (pe_entry parent)) with (pe_value parent). change (lc_value (pe_entry child)) with (pe_value child).
    fold (stops parent child). rewrite Hm. destruct (stops parent child) eqn:Estop.
    { exists f, t, E. rewrite Etop. split; [reflexivity|]. split; [done|]. split; [intros i x Hi; lia|]. done. }
    pose proof (rd_usable _ _ _ HR n parent ltac:(lia) Eparent) as HU. pose proof (us_at _ _ HU) as Hat.
    pose proof (walk_top_le (path f) n) as Hle.
    pose proof (shape_entry _ _ _ (by_shape _ _ HB) Hat) as Hok.
    destruct (update_busy t E (pe_entry parent) (set_max_leaf m (pe_value parent)) HB HU) as (seq & t1 & Eu & HB1 & HU1 & Hkept1).
    { apply (rd_held _ _ _ HR n parent); [rewrite Etop; lia|exact Eparent]. }
    { now apply set_entry_locator_ok. }
    { now apply set_locator_tags. }
    destruct (ready_up f n t t1 parent seq HR Eparent Hok Etop Hkept1) as (HR1 & Etop1 & Hlow).
    set (f1 := set_path_local n _ f) in *.
    destruct (IH f1 t1 _ HR1 HB1) as (f' & t' & E' & Ep & HB' & Hin & Hout & Hus). rewrite Etop1 in *. rewrite Etop in *.
    assert (Hrange : forall q, path_range (path f1) (walk_top (path f) n) n q -> path_range (path f) (walk_top (path f) n) (S n) q /\ q <> last_pos (pe_entry parent)).
    { intros q (i & x & Hi & Hx & ->). apply Hlow in Hx; [|lia]. split; [exists i, x; split; [lia|done]|]. apply (rd_distinct _ _ _ HR i n); (done || lia). }
    assert (Hnot : ~ path_range (path f1) (walk_top (path f) n) n (last_pos (pe_entry parent))) by (intros Hr; now apply Hrange in Hr as [_ Hr]).
    assert (Hpar : path_range (path f) (walk_top (path f) n) (S n) (last_pos (pe_entry parent))) by (exists n, parent; split; [lia|done]).
    exists f', t', E'. split; [|split; [exact HB'|split; [|split]]].
    + erewrite bind_Ret by exact Eu. exact Ep.
    + intros i x Hi Hx. destruct (decide (i = n)) as [->|Hne].
      * rewrite Eparent in Hx. injection Hx as <-. rewrite Hout by exact Hnot. apply fill_eq.
      * apply (Hin i x); [lia|]. apply Hlow; [lia|done].
    + intros q Hq. rewrite Hout by (intros Hr; now apply Hrange in Hr as [Hr _]). apply fill_ne. intros ->. exact (Hq Hpar).
    + intros l Hl Hq. apply Hus.
      * apply Hkept1; [done|]. intros El. rewrite El in Hq. exact (Hq Hpar).
      * intros Hr. now apply Hrange in Hr as [Hr _].
Qed.
End propagate.
End busy.
