(* ===== verification/PathLocks.v ===== *)
(** * What the locked entries are (main.c: split_leaf, the locks it takes)

    Once the locks are held, the copies of the nodes on the path and of the
    predecessor can be used for updates. [split_leaf] locks the parent of the
    leaf and the nodes above it whose maximal leaf may change, the leaf and
    its predecessor. *)

From S2P Require Import Prelude Bits Entry KeyObject State Hashing Symbols Atomics Table Contents Store Locks Cells Search Relocate AddEntry Finger Insert Api Lookup Preserve Order Linked Spine IterSpec Frame Dictionary InsertSpec Growth Upgrade Locked Writes.
From stdpp Require Import base list gmap sorting.
From Stdlib Require Import ZArith Lia Bool.

#[local] Open Scope Z_scope.

(** ** Copies of the nodes and of the predecessor *)

Section copies.
Context `{BucketLaws} `{env : Env}.
Variables (s : state) (n0 : tnode) (L0 : list leaf_ref).
Hypothesis s_rep : ordered_rep s n0 L0.
Variables (P : list ct_path_entry) (n : tnode) (h c : Z) (L B : list leaf_ref) (pre : list Z).
Hypothesis on_spine : spine (trie s) n0 L0 P n h c L B pre.

Lemma rep_table : table_ok (trie s).
Proof. exact (tr_table _ _ (or_rep _ _ _ s_rep)). Qed.

(** A leaf on the path is at its end. *)
Lemma on_path_at z : z ∈ P -> exists hm cm, at_node (trie s) z hm cm /\
  (entry_type (pe_value z) = TYPE_LEAF -> is_leaf n = true /\ hm = h /\ cm = c).
Proof.
  intros Hz. pose proof (spine_above_nodes _ _ _ _ _ _ _ _ _ _ on_spine) as Hup.
  destruct (proj1 (Forall_forall _ _) Hup z Hz) as (nm & hm & cm & Lm & Ha & Hl & Hh & Hsub). exists hm, cm. split; [exact Ha|]. intros Ty.
  apply linked_unfold in Hl as (p & e & Hp & Hat). destruct (holds_entry _ _ _ _ _ _ rep_table Hp (an_holds _ _ _ _ Ha)) as [_ ->].
  destruct (is_leaf nm) eqn:E; [|now destruct (linked_at_inner _ _ _ _ _ _ E Hat)]. destruct nm as [kvm| |]; try discriminate.
  destruct n as [kv|syms child|fc]; [|cbn [theight] in Hh; lia|exfalso; clear - Hh; cbn [theight] in Hh; lia].
  destruct Hat as (-> & _). pose proof (spine_linked _ _ _ _ _ _ _ _ _ _ on_spine) as Hn. apply linked_unfold in Hn as (q & e & _ & (-> & _)).
  specialize (Hsub _ (list_elem_of_here _ _)). apply list_elem_of_singleton in Hsub. injection Hsub as <- <- _. done.
Qed.

Variables (N : Z) (s3 : state) (before : list leaf_ref) (pred : ct_entry_local_copy).
Hypothesis taken : locking N s s3.
Hypothesis pred_is : pred_copy s3 before pred.
Hypothesis apart : is_leaf n = true -> forall x, last before = Some x -> (lr_hash x, lr_color x) <> (h, c).

Let same3 : same_but_locks (trie s) (trie s3) := lg_table _ _ _ taken.
Let pp : pos := last_pos pred.
Let ep : ct_entry := lc_value pred.

Lemma local_usable l : local_ok (trie s) l -> used (lc_value l) = true -> usable (trie s3) l.
Proof.
  intros Hl Hu. pose proof (locked_local (trie s) (trie s3) rep_table (lg_shape _ _ _ taken) same3 l Hl) as [L1 L2 _ L4].
  split; [exact L2|]. left. done.
Qed.

Lemma node_usable z : z ∈ P -> usable (trie s3) (pe_entry z).
Proof.
  intros Hz. destruct (on_path_at z Hz) as (hm & cm & Ha & _).
  destruct (locked_at_node (trie s) (trie s3) same3 _ _ _ Ha) as [Hp (H1 & H2 & H3 & _) _]. split; [exact H2|]. left. done.
Qed.

(** The predecessor is a leaf of the list, or its head. *)
Record pred_entry : Prop := mk_pred_entry {
  pk_at : trie_entry (trie s) pp = Some ep;
  pk_used : used ep = true;
  pk_clean : entry_dirty ep = false;
  pk_path : forall z, z ∈ P -> last_pos (pe_entry z) <> pp;
  pk_usable : usable (trie s3) pred;
  pk_which : match last before with
             | Some x => holds (trie s) pp (lr_hash x, lr_color x) ep
             | None => pp = trie_min_leaf (trie s)
             end;
}.

Lemma leaf_used e : entry_type e = TYPE_LEAF -> used e = true.
Proof. intros Ty. unfold used. now rewrite Ty. Qed.

Lemma pred_entry_known : pred_entry.
Proof.
  pose proof rep_table as Ht. pose proof pred_is as Hpc. unfold pred_copy in Hpc. destruct (last before) as [x|] eqn:El.
  - destruct Hpc as (Hloc & Hh & (_ & Ty & _ & Hd)). apply (locked_holds _ _ same3) in Hh. pose proof Hh as (_ & He & Hu & Hk).
    split; try done; [|destruct Hloc as [L1 L2 _ L4]; split; [exact L2|left; done]|now rewrite El].
    intros z Hz E. destruct (on_path_at z Hz) as (hm & cm & Ha & Hleaf). pose proof (an_holds _ _ _ _ Ha) as (_ & Hez & _ & Hkz).
    fold pp in He, Hk. rewrite E in Hez, Hkz. rewrite Hez in He. injection He as Ev. destruct Hleaf as (Hl & -> & ->); [unfold pe_value; now rewrite Ev|].
    apply (apart Hl x eq_refl). rewrite <- Hk, <- Hkz. unfold ep. now rewrite <- Ev.
  - destruct Hpc as (Ep & He & bk & Hb & Hq). rewrite <- (same_but_locks_entry _ _ _ same3) in He.
    assert (Em : trie_min_leaf (trie s3) = trie_min_leaf (trie s)) by now rewrite (same_params_eq _ _ (locked_params _ _ same3)).
    destruct (lk_head _ _ (or_list _ _ _ s_rep)) as (e & He' & Ty & Hd & _). rewrite Em in He, Ep. rewrite He in He'. injection He' as <-.
    split; [unfold pp; now rewrite Ep|now apply leaf_used|exact Hd| | |].
    + intros z Hz E. destruct (on_path_at z Hz) as (hm & cm & Ha & _). destruct (an_holds _ _ _ _ Ha) as (Hin & _).
      rewrite E in Hin. fold pp in Ep. rewrite Ep in Hin. unfold in_table in Hin. cbn [pos_bucket trie_min_leaf] in Hin. unfold min_leaf_bucket in Hin. lia.
    + split; [rewrite <- (same_but_locks_entry _ _ _ same3); rewrite Ep; exact He|]. right. rewrite Em. split; [exact Ep|eauto].
    + rewrite El. exact Ep.
Qed.
End copies.

(** ** The locks of a leaf split *)

(** The node above a leaf is a bitmap node: a leaf is not below a jump node. *)
Lemma leaf_parent t root leaves0 m P old h c L B pre pe :
  spine t root leaves0 P (TLeaf old) h c L B pre -> trie_ok m root [] -> last P = Some pe ->
  (P = [pe] /\ B = [] /\ pre = [] /\ h = HASH_START_VALUE /\ c = ROOT_COLOR) \/
  exists P0 pe0 f0 g h0 c0 L1 B0 pre0 sy, P = P0 ++ [pe] /\ spine t root leaves0 P0 (TBitmap f0) h0 c0 L1 B0 pre0 /\
    last P0 = Some pe0 /\ children_at t f0 (pe_value pe0) h0 c0 g /\ 0 <= sy <= 32 /\ last_symbol (pe_value pe) = sy /\
    B = B0 ++ flat_map g (symbols_below sy) /\ pre = pre0 ++ [sy].
Proof.
  intros Hs Hok Hl. remember (TLeaf old) as n eqn:En. destruct Hs as [pe' Ha Hn|P pe0 pe' syms child h c L B pre Hs Hl0 Ha Hn|P pe0 pe' f g h c L B pre sy ch c' Hs Hl0 HL Hg Hsr Hf Hch Ha Hlast Hn].
  - left. injection Hl as ->. done.
  - exfalso. subst child. pose proof (spine_ok _ m _ _ _ _ _ _ _ _ _ Hs Hok) as Hj. cbn [trie_ok] in Hj. destruct Hj as (_ & _ & _ & Hj). discriminate.
  - right. rewrite last_snoc in Hl. injection Hl as ->. exists P, pe0, f, g, h, c, L, B, pre, sy. done.
Qed.

Section leaf_locks.
Context `{BucketLaws} `{env : Env}.
Variables (s : state) (n0 : tnode) (L0 : list leaf_ref).
Hypothesis s_rep : ordered_rep s n0 L0.
Hypothesis s_unlocked : unlocked (trie s).
Hypothesis s_locks : lock_mgr s = [].

(** The finger is at a leaf. *)
Variables (bytes : list Z) (f : ct_finger) (lb : option nat) (k : Z) (old h c : Z) (d : nat)
  (L B A : list leaf_ref) (pre : list Z) (pe : ct_path_entry).
Hypothesis reached : goto_at s n0 L0 bytes f lb k (TLeaf old) h c d L B A pre pe.
Hypothesis k_bound : 0 <= k <= 408.

Let n : nat := last_path_entry f.

Record leaf_locked (s3 : state) (pred : ct_entry_local_copy) : Prop := mk_leaf_locked {
  ll_locking : locking (3 + Z.of_nat n) s s3;
  ll_leaf : held s3 (last_pos (pe_entry pe));
  ll_parents : forall i x, (walk_top (path f) n <= i < n)%nat -> path f !! i = Some x -> held s3 (last_pos (pe_entry x));
  ll_pred : held s3 (last_pos pred) /\ pred_copy s3 B pred;
  ll_count : (length (lock_mgr s3) <= n + 2)%nat;
}.

Lemma leaf_path_size : (1 <= length (path f))%nat /\ Z.of_nat (length (path f)) <= k + 1 /\ n = (length (path f) - 1)%nat.
Proof.
  pose proof (spine_length _ _ _ _ _ _ _ _ _ _ (ga_spine _ _ _ _ _ _ _ _ _ _ _ _ _ _ _ _ reached)) as H1.
  pose proof (fa_path _ _ _ _ _ _ _ _ (ga_finger _ _ _ _ _ _ _ _ _ _ _ _ _ _ _ _ reached)) as H2. done.
Qed.

Lemma leaf_depth : k = Z.of_nat (length pre).
Proof.
  pose proof (ga_depth _ _ _ _ _ _ _ _ _ _ _ _ _ _ _ _ reached) as E. pose proof (ga_jump _ _ _ _ _ _ _ _ _ _ _ _ _ _ _ _ reached) as E0.
  cbn in E0. lia.
Qed.

Lemma leaf_current : current (trie s) (containing_entry f).
Proof.
  apply local_current; [apply table_shape, (rep_table s n0 L0 s_rep)|].
  exact (fa_local _ _ _ _ _ _ _ _ (goto_finger _ _ _ _ _ _ _ _ _ _ _ _ _ _ _ _ reached)).
Qed.

(** The leaf's symbol in its parent is the last one of the prefix. *)
Lemma prefetch_leaf : exists r, prefetch_leaf_predecessor f s = Ret (locator_at (trie s) (path f) r) s /\ left_child s (path f) B r.
Proof.
  destruct leaf_path_size as (H1 & H2 & En). pose proof (ga_spine _ _ _ _ _ _ _ _ _ _ _ _ _ _ _ _ reached) as Hs.
  pose proof (ga_last _ _ _ _ _ _ _ _ _ _ _ _ _ _ _ _ reached) as Hl. pose proof (rep_table s n0 L0 s_rep) as Ht.
  unfold prefetch_leaf_predecessor. fold n.
  destruct (leaf_parent _ _ _ (kv_mem s) _ _ _ _ _ _ _ _ Hs (tr_ok _ _ (or_rep _ _ _ s_rep)) Hl)
    as [(EP & EB & _ & _ & Ec)|(P0 & pe0 & f0 & g & h0 & c0 & L1 & B0 & pre0 & sy & EP & Hs0 & Hl0 & Hg & Hsy & Hlast & EB & Epre)].
  - rewrite EP in En. cbn in En. rewrite En. cbn [Nat.eqb]. exists None. rewrite EB. split; [|done].
    destruct (goto_holds _ _ _ _ _ _ _ _ _ _ _ _ _ _ _ _ reached) as (Ha & _ & Ev). unfold finger_value in Ev. rewrite Ev.
    destruct (an_holds _ _ _ _ Ha) as (_ & _ & _ & Hk). apply (f_equal snd) in Hk. cbn [snd entry_key] in Hk. fold (pe_value pe) in Hk. rewrite Hk, Ec.
    erewrite bind_Ret by (apply assert_true; reflexivity). reflexivity.
  - pose proof (spine_length _ _ _ _ _ _ _ _ _ _ Hs0) as Hlen0. rewrite EP, length_app in En. cbn [length] in En.
    destruct (Nat.eqb_spec n 0) as [E0|_]; [lia|].
    destruct (spine_end _ _ _ _ _ _ _ _ _ _ _ Hs0 Hl0) as (Ha0 & _).
    destruct (prefetch_spec s Ht n0 L0 f P0 [pe] f0 h0 c0 L1 B0 pre0 pe0 g sy EP Hs0 Hl0 Ha0 Hg ltac:(lia)) as (r & Er & Hr).
    exists r. rewrite EB. split; [|exact Hr].
    assert (Esy : last_prefix_symbol f = sy).
    { pose proof leaf_depth as Ek. rewrite Epre, length_app in Ek. cbn [length] in Ek.
      rewrite (fa_symbol _ _ _ _ _ _ _ _ (ga_finger _ _ _ _ _ _ _ _ _ _ _ _ _ _ _ _ reached)) by lia.
      rewrite (ga_on_path _ _ _ _ _ _ _ _ _ _ _ _ _ _ _ _ reached (length pre0) sy); [f_equal; lia|].
      rewrite Epre, lookup_app_r, Nat.sub_diag by lia. reflexivity. }
    rewrite Esy. replace (n - 1)%nat with (length P0 - 1)%nat by lia. exact Er.
Qed.

(** The nodes above the parent. *)
Lemma walk_step P m x y : P !! m = Some x -> P !! S m = Some y -> walk_top P (S m) = if stops x y then S m else walk_top P m.
Proof. intros Hx Hy. cbn [walk_top]. now rewrite Hx, Hy. Qed.

Lemma leaf_parent_type m x : n = S m -> path f !! m = Some x -> entry_type (pe_value x) = TYPE_BITMAP.
Proof.
  intros Em Hx. destruct leaf_path_size as (_ & _ & En).
  destruct (leaf_parent _ _ _ (kv_mem s) _ _ _ _ _ _ _ _ (ga_spine _ _ _ _ _ _ _ _ _ _ _ _ _ _ _ _ reached)
    (tr_ok _ _ (or_rep _ _ _ s_rep)) (ga_last _ _ _ _ _ _ _ _ _ _ _ _ _ _ _ _ reached))
    as [(EP & _)|(P0 & pe0 & f0 & g & h0 & c0 & L1 & B0 & pre0 & sy & EP & Hs0 & Hl0 & _)]; rewrite EP in En, Hx.
  - cbn in En. lia.
  - rewrite length_app in En. cbn [length] in En. rewrite lookup_app_l in Hx by lia.
    destruct (spine_end _ _ _ _ _ _ _ _ _ _ _ Hs0 Hl0) as (_ & (Ty & _) & _).
    rewrite last_lookup in Hl0. replace (Nat.pred (length P0)) with m in Hl0 by lia. rewrite Hx in Hl0. injection Hl0 as ->. exact Ty.
Qed.

Lemma path_locks : exists s2,
  (forall r : MS (option ct_entry_local_copy),
    (ret1 ← (if (0 <? n)%nat then parent ← lift (path_local f (n - 1)%nat); upgrade_lock parent else mret SI_OK);
     if bool_decide (ret1 = SI_RETRY) then mret None
     else ret2 ← (if (0 <? n)%nat then upgrade_locks_on_left_parents_above f (n - 1)%nat else mret SI_OK);
       if bool_decide (ret2 = SI_RETRY) then mret None else r) s = r s2) /\
  locking (1 + Z.of_nat n) s s2 /\
  (forall i x, (walk_top (path f) n <= i < n)%nat -> path f !! i = Some x -> held s2 (last_pos (pe_entry x))) /\
  (length (lock_mgr s2) <= n)%nat.
Proof.
  destruct leaf_path_size as (H1 & H2 & En). pose proof (ga_spine _ _ _ _ _ _ _ _ _ _ _ _ _ _ _ _ reached) as Hs.
  pose proof (table_shape _ (rep_table s n0 L0 s_rep)) as Hsh. assert (K0 : locks_ok 1 s) by now apply unlocked_locks_ok.
  assert (HM : MAX_LOCKS = 413) by reflexivity.
  destruct n as [|m] eqn:Em.
  - exists s. split; [reflexivity|]. split; [now apply locking_refl|]. split; [lia|]. rewrite s_locks. cbn. lia.
  - destruct (lookup_lt_is_Some_2 (path f) m ltac:(lia)) as [x Hx]. destruct (lookup_lt_is_Some_2 (path f) (S m) ltac:(lia)) as [y Hy].
    assert (Hcur : forall N' s', locking N' s s' -> Forall (fun x => current (trie s') (pe_entry x)) (path f)).
    { intros N' s' HL. pose proof (ga_fresh _ _ _ _ _ _ _ _ _ _ _ _ _ _ _ _ reached) as Hp. eapply Forall_impl; [exact Hp|]. intros z Hz. cbv beta.
      apply (current_locks (trie s)); [exact Hsh|apply HL..|]. now apply local_current. }
    destruct (upgrade_current 1 s (pe_entry x) K0 Hsh ltac:(lia)) as (s1 & E1 & G1 & Hh1 & Hl1).
    { exact (proj1 (Forall_forall _ _) (Hcur 1 s (locking_refl _ _ K0 Hsh)) x ltac:(eapply list_elem_of_lookup_2; exact Hx)). }
    { rewrite s_locks. cbn. lia. }
    rewrite s_locks in Hl1. cbn [length] in Hl1.
    destruct (left_parents_above_spec f m x (1 + 1) s1 (spine_stops _ _ _ _ _ _ _ _ _ _ Hs) Hx (leaf_parent_type m x Em Hx) (lg_locks _ _ _ G1) (lg_shape _ _ _ G1) ltac:(lia))
      as (s2 & E2 & G2 & Hh2 & Hl2); [exact (Hcur _ _ G1)|lia|].
    exists s2. split; [|split; [|split]].
    + intros r. change (0 <? S m)%nat with true. cbn [Nat.sub]. rewrite Nat.sub_0_r. unfold path_local. rewrite Hx.
      cbn [fmap option_fmap option_map]. erewrite bind_Ret by (erewrite bind_Ret by reflexivity; exact E1). rewrite bool_decide_false by discriminate.
      erewrite bind_Ret by exact E2. now rewrite bool_decide_false.
    + replace (1 + Z.of_nat (S m)) with (1 + 1 + Z.of_nat m) by lia. exact (locking_trans _ _ _ _ _ G1 G2).
    + intros i z Hi Hz. rewrite (walk_step _ _ _ _ Hx Hy) in Hi. destruct (stops x y); [lia|].
      destruct (decide (i = m)) as [->|Hne]; [|apply (Hh2 i z); [lia|exact Hz]].
      rewrite Hx in Hz. injection Hz as <-. exact (held_locking _ _ _ _ G2 Hh1).
    + lia.
Qed.

Lemma leaf_lock_phase : exists pl s3 pred,
  prefetch_leaf_predecessor f s = Ret pl s /\ split_leaf_locks f pl s = Ret (Some pred) s3 /\ leaf_locked s3 pred.
Proof.
  destruct leaf_path_size as (H1 & H2 & En). pose proof (ga_spine _ _ _ _ _ _ _ _ _ _ _ _ _ _ _ _ reached) as Hs.
  pose proof (rep_table s n0 L0 s_rep) as Ht. pose proof (table_shape _ Ht) as Hsh. assert (HM : MAX_LOCKS = 413) by reflexivity.
  destruct prefetch_leaf as (r & Er & Hr). destruct path_locks as (s1 & E1 & G1 & Hh1 & Hl1).
  destruct (upgrade_current (1 + Z.of_nat n) s1 (containing_entry f) (lg_locks _ _ _ G1) (lg_shape _ _ _ G1) ltac:(lia)) as (s2 & E2 & G2 & Hh2 & Hl2).
  { apply (current_locks (trie s)); [exact Hsh|apply G1..|exact leaf_current]. }
  { lia. }
  pose proof (locking_trans _ _ _ _ _ G1 G2) as G02. pose proof (lg_table _ _ _ G02) as S2. pose proof (lg_shape _ _ _ G02) as Sh2.
  pose proof (locked_table _ _ Ht Sh2 S2) as T2.
  destruct (lk_head _ _ (or_list _ _ _ s_rep)) as (e & He & _).
  assert (Em : trie_min_leaf (trie s2) = trie_min_leaf (trie s)) by now rewrite (same_params_eq _ _ (locked_params _ _ S2)).
  destruct (get_predecessor_spec s2 T2 f B r e (locked_left_child s s2 _ _ _ Ht Sh2 S2 Hr)) as (pred & Ep & Hp).
  { pose proof (ga_fresh _ _ _ _ _ _ _ _ _ _ _ _ _ _ _ _ reached) as Hn. eapply Forall_impl; [exact Hn|]. intros x Hx. exact (locked_local (trie s) (trie s2) Ht Sh2 S2 _ Hx). }
  { rewrite Em, <- (same_but_locks_entry _ _ _ S2). exact He. }
  destruct (upgrade_current (1 + Z.of_nat n + 1) s2 pred (lg_locks _ _ _ G02) Sh2 ltac:(lia) (pred_copy_current _ _ _ T2 Hp)) as (s3 & E3 & G3 & Hh3 & Hl3); [lia|].
  exists (locator_at (trie s) (path f) r), s3, pred. split; [exact Er|]. split.
  - unfold split_leaf_locks. fold n. cbv zeta. rewrite E1. erewrite bind_Ret by exact E2. rewrite bool_decide_false by discriminate.
    erewrite bind_Ret by (rewrite <- (locator_at_params _ _ _ _ (locked_params _ _ S2)); exact Ep). cbv iota beta.
    erewrite bind_Ret by exact E3. now rewrite bool_decide_false.
  - split.
    + replace (3 + Z.of_nat n) with (1 + Z.of_nat n + 1 + 1) by lia. exact (locking_trans _ _ _ _ _ G02 G3).
    + apply (held_locking _ _ _ _ G3). now rewrite <- (ga_entry _ _ _ _ _ _ _ _ _ _ _ _ _ _ _ _ reached).
    + intros i x Hi Hx. apply (held_locking _ _ _ _ G3), (held_locking _ _ _ _ G2). exact (Hh1 i x Hi Hx).
    + split; [exact Hh3|]. apply (locked_pred_copy s2); [exact T2|apply G3..|exact Hp].
    + lia.
Qed.
End leaf_locks.
