(* ===== verification/Room.v ===== *)
(** * Adding several entries (main.c: split_leaf, the calls of add_entry)

    [split_leaf] adds the maximal leaf, the nodes of the path and the minimal
    leaf one after the other, all of them locked. When the two buckets of
    each have a free cell left by those added before, nothing is moved: the
    new entries fill unused cells and all other cells stay as they are. *)

From S2P Require Import Prelude Bits Entry KeyObject State Hashing Symbols Atomics Table Contents Store Locks Cells Search Relocate AddEntry Finger Insert Api Lookup Order Linked Spine Dictionary Fields Growth Upgrade Locked Writes.
From stdpp Require Import base list gmap.
From Stdlib Require Import ZArith Lia Bool.

#[local] Open Scope Z_scope.

(** ** Free cells *)

Definition is_free (e : option ct_entry) : bool := match e with Some x => negb (used x) | None => false end.

(** How many cells of bucket [b] are unused. *)
Definition free_cells (E : cell_map) (b : Z) : Z :=
  foldr Z.add 0 (map (fun c => if is_free (E (mk_pos b c)) then 1 else 0) (seq 0 CUCKOO_BUCKET_SIZE)).

Lemma free_cells_ext E E' b : (forall c, E' (mk_pos b c) = E (mk_pos b c)) -> free_cells E' b = free_cells E b.
Proof. intros H. unfold free_cells. f_equal. apply map_ext. intros c. now rewrite H. Qed.

Lemma free_cells_fill E p x b : free_cells E b - one_at (pos_bucket p) b <= free_cells (fill p x E) b.
Proof.
  unfold one_at. destruct (Z.eqb_spec b (pos_bucket p)) as [->|Hne].
  - destruct p as [b c]. cbn [pos_bucket]. unfold free_cells, CUCKOO_BUCKET_SIZE. cbn [seq map foldr].
    assert (H : forall c', c' <> c -> fill (mk_pos b c) x E (mk_pos b c') = E (mk_pos b c')) by (intros c' Hc; apply fill_ne; congruence).
    assert (Hb : forall e, 0 <= (if is_free e then 1 else 0) <= 1) by (intros e; destruct (is_free e); lia).
    pose proof (Hb (E (mk_pos b 0))). pose proof (Hb (E (mk_pos b 1))). pose proof (Hb (E (mk_pos b 2))). pose proof (Hb (E (mk_pos b 3))).
    pose proof (Hb (fill (mk_pos b c) x E (mk_pos b c))) as Hc.
    destruct (decide (c = 0%nat)) as [->|]; [rewrite !(H 1%nat), !(H 2%nat), !(H 3%nat) by lia; lia|].
    destruct (decide (c = 1%nat)) as [->|]; [rewrite !(H 0%nat), !(H 2%nat), !(H 3%nat) by lia; lia|].
    destruct (decide (c = 2%nat)) as [->|]; [rewrite !(H 0%nat), !(H 1%nat), !(H 3%nat) by lia; lia|].
    destruct (decide (c = 3%nat)) as [->|]; [rewrite !(H 0%nat), !(H 1%nat), !(H 2%nat) by lia; lia|].
    rewrite !H by lia. lia.
  - rewrite (free_cells_ext E (fill p x E)); [lia|]. intros c. apply fill_ne. intros E1. apply Hne. now rewrite <- E1.
Qed.

(** A bucket with an unused cell is one where [find_free_cell_in_bucket] finds it. *)
Lemma free_cells_found t b : table_ok t -> 0 <= b < num_buckets t -> 0 < free_cells (trie_entry t) b -> has_free_cell t b = true.
Proof.
  intros Ht Hb Hf. destruct (bucket_exists _ Ht b) as [bk Hbk]; [lia|]. destruct (trie_bucket_ok _ Ht _ _ Hbk) as [Hok _].
  unfold has_free_cell. rewrite Hbk. apply bool_decide_eq_true. destruct (find_free_cell_in_bucket bk) as [c|] eqn:E; [eauto|]. exfalso.
  assert (H0 : forall c, is_free (trie_entry t (mk_pos b c)) = false).
  { intros c. unfold trie_entry. cbn [pos_bucket pos_cell]. rewrite Hbk. change (is_free (cells bk !! c) = false). destruct (cells bk !! c) as [e|] eqn:Ee; [|done].
    cbn [is_free]. now rewrite (find_free_None _ _ _ Hok E Ee). }
  unfold free_cells in Hf. cbn [seq map foldr CUCKOO_BUCKET_SIZE] in Hf. rewrite !H0 in Hf. lia.
Qed.

(** How many of the hashes [hs] have bucket [b] in their pair. *)
Definition in_pair (t : cuckoo_trie) (b h : Z) : bool := (b =? pair_bucket t h false) || (b =? pair_bucket t h true).

Definition touches (t : cuckoo_trie) (hs : list Z) (b : Z) : Z :=
  foldr Z.add 0 (map (fun h => if in_pair t b h then 1 else 0) hs).

(** The entries of hashes [hs] can be added, after those of hashes [seen]. *)
Fixpoint rooms (t : cuckoo_trie) (seen hs : list Z) : bool :=
  match hs with
  | [] => true
  | h :: hs' =>
      existsb (fun sec => touches t seen (pair_bucket t h sec) <? free_cells (trie_entry t) (pair_bucket t h sec)) [false; true]
      && rooms t (h :: seen) hs'
  end.

Lemma in_pair_params t t' b h : same_params t t' -> in_pair t' b h = in_pair t b h.
Proof. intros Hp. unfold in_pair. now rewrite <- !(pair_bucket_params _ _ _ _ Hp). Qed.

Lemma rooms_locks t t' hs : same_but_locks t t' -> forall seen, rooms t' seen hs = rooms t seen hs.
Proof.
  intros Hs. pose proof (locked_params _ _ Hs) as Hp. assert (Ht : forall seen b, touches t' seen b = touches t seen b).
  { intros seen b. unfold touches. f_equal. apply map_ext. intros x. now rewrite (in_pair_params _ _ _ _ Hp). }
  induction hs as [|x hs IH]; intros seen; [done|]. cbn [rooms existsb]. rewrite IH, !Ht, <- !(pair_bucket_params _ _ _ _ Hp).
  rewrite !(free_cells_ext (trie_entry t) (trie_entry t')) by (intros c; symmetry; apply (same_but_locks_entry _ _ _ Hs)). done.
Qed.

(** A table in which entries of the hashes [seen] were added has these free
    cells at least. *)
Definition stocked (t0 : cuckoo_trie) (seen : list Z) (t : cuckoo_trie) : Prop :=
  forall b, free_cells (trie_entry t0) b - touches t0 seen b <= free_cells (trie_entry t) b.

Lemma stocked_room t0 seen t h hs :
  same_params t0 t -> table_ok t -> hash_ok t h -> stocked t0 seen t -> rooms t0 seen (h :: hs) = true -> pair_has_room t h = true.
Proof.
  intros Hp Ht Hh Hst Hroom. cbn [rooms] in Hroom. apply andb_true_iff in Hroom as [Hex _].
  apply existsb_exists in Hex as (sec & _ & Hlt). apply Z.ltb_lt in Hlt. specialize (Hst (pair_bucket t0 h sec)).
  rewrite (pair_bucket_params _ _ _ _ Hp) in Hst, Hlt. unfold pair_has_room.
  enough (Hf : has_free_cell t (pair_bucket t h sec) = true) by (destruct sec; rewrite Hf; [apply orb_true_r|done]).
  apply free_cells_found; [exact Ht| |lia]. destruct (hash_parts _ (tb_params _ Ht) h Hh) as (Hb & Htag & _).
  destruct sec; [apply mix_bucket_range; (done || apply Ht)|exact Hb].
Qed.

(** Another entry in a cell that stays used. *)
Lemma stocked_fill t0 seen t t' p e v :
  stocked t0 seen t -> (forall q, trie_entry t' q = fill p v (trie_entry t) q) -> trie_entry t p = Some e -> used v = used e -> stocked t0 seen t'.
Proof.
  intros Hst Hc He Hu b. etransitivity; [apply Hst|]. apply Z.eq_le_incl. unfold free_cells. f_equal. apply map_ext. intros c.
  rewrite Hc. unfold fill. case_decide as Eq; [|done]. rewrite Eq, He. cbn. now rewrite Hu.
Qed.

(** ** The state while entries are added *)

Section making.
Context `{laws : BucketLaws}.
Variable s0 : state.

(** Entries of the hashes [seen] were added to [s0], in the cells [newp]. *)
Record making (N : Z) (seen : list Z) (newp : list pos) (s : state) : Prop := mk_making {
  mg_params : same_params (trie s0) (trie s);
  mg_table : table_ok (trie s);
  mg_mem : kv_mem s = kv_mem s0;
  mg_locks : locks_ok N s;
  mg_count : (length (lock_mgr s) <= length (lock_mgr s0) + length seen)%nat;
  mg_held : forall q, held s0 q -> held s q;
  mg_old : forall q, q ∉ newp -> trie_entry (trie s) q = trie_entry (trie s0) q;
  mg_free : forall q e, q ∈ newp -> trie_entry (trie s0) q = Some e -> used e = false;
  mg_new : forall q, q ∈ newp -> in_table (trie s0) q /\ exists e, trie_entry (trie s) q = Some e /\ used e = true;
  mg_stock : stocked (trie s0) seen (trie s);
  mg_usable : forall l, usable (trie s0) l -> last_pos l ∉ newp -> usable (trie s) l;
}.

Lemma making_start N : table_ok (trie s0) -> locks_ok N s0 -> making N [] [] s0.
Proof.
  intros Ht Hl. split; try done; [lia|intros q e Hq; now apply not_elem_of_nil in Hq|intros q Hq; now apply not_elem_of_nil in Hq|].
  intros b. cbn. lia.
Qed.

Lemma making_busy N seen newp s : making N seen newp s -> busy N s (trie s) (trie_entry (trie s)).
Proof.
  intros G. split; [reflexivity|apply table_shape, G| |done|apply table_cells, G].
  replace (set_trie (trie s) s) with s by now destruct s. apply G.
Qed.

(** Entries that were there are not where the new ones are. *)
Lemma making_apart N seen newp s q e : making N seen newp s -> trie_entry (trie s0) q = Some e -> used e = true -> q ∉ newp.
Proof. intros G He Hu Hq. rewrite (mg_free _ _ _ _ G q e Hq He) in Hu. discriminate. Qed.

(** A copy is usable after another entry was added. *)
Lemma usable_placed N h e lock s s' p x l :
  table_ok (trie s) -> AddEntry.placed N h e lock s s' p x -> usable (trie s) l -> last_pos l <> p -> usable (trie s') l.
Proof.
  intros Ht Hpl [U1 U2] Hne. pose proof (pc_params _ _ _ _ _ _ _ _ Hpl) as Hp. split.
  - rewrite (pc_cells _ _ _ _ _ _ _ _ Hpl). now rewrite fill_ne.
  - destruct U2 as [(V1 & V2 & V3)|(V1 & bk & Hbk & Hq)]; [left|right].
    + split; [now rewrite <- Hp|]. split; [done|]. rewrite V3. now rewrite (same_params_eq _ _ Hp).
    + assert (Em : trie_min_leaf (trie s') = trie_min_leaf (trie s)) by now rewrite (same_params_eq _ _ Hp). rewrite Em. split; [done|].
      destruct (pc_seq _ _ _ _ _ _ _ _ Hpl (pos_bucket (last_pos l)) bk) as (bk' & Hbk' & E); [|exact Hbk|exists bk'; split; [done|congruence]].
      pose proof (pc_in _ _ _ _ _ _ _ _ Hpl) as Hin. unfold in_table in Hin. rewrite V1. cbn [pos_bucket trie_min_leaf]. unfold min_leaf_bucket.
      pose proof (tb_length _ Ht). lia.
Qed.

Lemma making_add N seen newp s h hs e imm lock :
  making N seen newp s -> 0 <= N /\ N + 2 + RELOCATE_REFS < 2 ^ 32 -> hash_ok (trie s0) h -> entry_ok e -> used e = true -> entry_is_secondary e = false ->
  Z.of_nat (length (lock_mgr s0) + length seen) < MAX_LOCKS -> rooms (trie s0) seen (h :: hs) = true ->
  exists p x s', add_entry h e imm lock s = Ret (SI_OK, Some (p, x)) s' /\ making (N + 2) (h :: seen) (p :: newp) s' /\
    (p ∉ newp) /\ rooms (trie s0) (h :: seen) hs = true /\ AddEntry.placed (N + 2) h e lock s s' p x.
Proof.
  intros G HN Hh He Hu Hsec Hlk Hroom. pose proof (mg_params _ _ _ _ G) as Hp. pose proof (mg_table _ _ _ _ G) as Ht.
  pose proof (mg_count _ _ _ _ G) as Hcnt. pose proof Hroom as Hall. cbn [rooms] in Hroom. apply andb_true_iff in Hroom as [_ Hroom].
  assert (Hh' : hash_ok (trie s) h) by (unfold hash_ok; rewrite (same_params_eq _ _ Hp); exact Hh).
  pose proof (stocked_room _ _ _ h hs Hp Ht Hh' (mg_stock _ _ _ _ G) Hall) as Hpr.
  destruct (add_entry_room_spec s h e imm lock N Ht (mg_locks _ _ _ _ G) HN Hh' He Hu Hsec) as (p & x & s' & E & Hpl); [|exact Hpr|].
  { intros sec _. lia. }
  assert (Hxu : used x = true).
  { destruct (pc_new _ _ _ _ _ _ _ _ Hpl) as (c & sec & _ & _ & (_ & _ & Hxu & _)). exact Hxu. }
  assert (Hnp : p ∉ newp).
  { intros Hin. destruct (mg_new _ _ _ _ G p Hin) as (_ & y & Hy & Hyu). rewrite (pc_free _ _ _ _ _ _ _ _ Hpl y Hy) in Hyu. discriminate. }
  exists p, x, s'. split; [exact E|]. split; [|done]. split.
  - transitivity (trie s); [exact Hp|apply Hpl].
  - apply Hpl.
  - rewrite (pc_mem _ _ _ _ _ _ _ _ Hpl). apply G.
  - apply Hpl.
  - pose proof (pc_count _ _ _ _ _ _ _ _ Hpl). cbn [length]. lia.
  - intros q Hq. pose proof (mg_held _ _ _ _ G q Hq) as Hs. pose proof (pc_entries _ _ _ _ _ _ _ _ Hpl q). unfold held in *. lia.
  - intros q Hq. apply not_elem_of_cons in Hq as [Hq1 Hq2]. rewrite (pc_cells _ _ _ _ _ _ _ _ Hpl), fill_ne by done. now apply G.
  - intros q y Hq Hy. apply elem_of_cons in Hq as [->|Hq]; [|exact (mg_free _ _ _ _ G q y Hq Hy)].
    apply (pc_free _ _ _ _ _ _ _ _ Hpl). now rewrite (mg_old _ _ _ _ G p Hnp).
  - intros q Hq. rewrite (pc_cells _ _ _ _ _ _ _ _ Hpl). unfold fill. destruct (decide (q = p)) as [->|Hne].
    + split; [|now exists x]. rewrite Hp. apply Hpl.
    + apply elem_of_cons in Hq as [->|Hq]; [done|]. exact (mg_new _ _ _ _ G q Hq).
  - intros b. rewrite (free_cells_ext (fill p x (trie_entry (trie s))) (trie_entry (trie s'))) by (intros c; apply (pc_cells _ _ _ _ _ _ _ _ Hpl)).
    pose proof (mg_stock _ _ _ _ G b) as Hst. pose proof (free_cells_fill (trie_entry (trie s)) p x b) as Hfc.
    change (touches (trie s0) (h :: seen) b) with ((if in_pair (trie s0) b h then 1 else 0) + touches (trie s0) seen b).
    destruct (pc_bucket _ _ _ _ _ _ _ _ Hpl) as (sec & Eb).
    assert (Hle : one_at (pos_bucket p) b <= if in_pair (trie s0) b h then 1 else 0); [|lia].
    rewrite <- (in_pair_params _ _ b h Hp). unfold one_at, in_pair. destruct (Z.eqb_spec b (pos_bucket p)) as [->|]; [|destruct (_ || _); lia].
    rewrite Eb. destruct sec; rewrite Z.eqb_refl, ?orb_true_r; cbn [orb]; lia.
  - intros l Hl Hni. apply not_elem_of_cons in Hni as [H1 H2]. apply (usable_placed (N + 2) h e lock s s' p x l Ht Hpl); [|exact H1].
    now apply (mg_usable _ _ _ _ G).
Qed.

(** A plain store to one of the new entries. *)
Lemma making_put N seen newp s p e v :
  making N seen newp s -> p ∈ newp -> trie_entry (trie s) p = Some e -> entry_ok v -> same_tags e v ->
  exists s', put_entry p v s = Ret tt s' /\ making N seen newp s' /\ (forall q, trie_entry (trie s') q = fill p v (trie_entry (trie s)) q) /\
    same_params (trie s) (trie s').
Proof.
  intros G Hp He Hv Hs. pose proof (making_busy _ _ _ _ G) as HB. destruct (mg_new _ _ _ _ G p Hp) as (Hin & e1 & He1 & Hu).
  assert (e1 = e) as -> by congruence. pose proof (mg_params _ _ _ _ G) as Hpar.
  destruct (put_busy N s (trie s) _ p e v HB He) as (t' & E & B & K); [now rewrite <- Hpar|done|done|].
  assert (Es : set_trie (trie s) s = s) by now destruct s. rewrite Es in E. exists (set_trie t' s). split; [exact E|]. pose proof (by_at _ _ _ _ B) as Hcells. pose proof (by_params _ _ _ _ B) as Hp'.
  split; [|split; [exact Hcells|exact Hp']]. destruct G as [M1 M2 M3 M4 M5 M6 M7 M8 M9 M10 M11]. split; cbn [trie set_trie kv_mem lock_mgr].
  - now transitivity (trie s).
  - exact (busy_table _ _ _ _ B).
  - exact M3.
  - apply (by_locks _ _ _ _ B).
  - exact M5.
  - exact M6.
  - intros q Hq. rewrite Hcells, fill_ne by (intros ->; done). now apply M7.
  - exact M8.
  - intros q Hq. rewrite Hcells. unfold fill. case_decide as Eq; [subst q; split; [exact Hin|]; exists v; split; [done|]; now rewrite (sg_used _ _ Hs)|].
    now apply M9.
  - exact (stocked_fill _ _ _ _ p e v M10 Hcells He (sg_used _ _ Hs)).
  - intros l Hl Hni. apply K; [now apply M11|]. intros E1. apply Hni. now rewrite E1.
Qed.
End making.
