(* ===== verification/SplitNodes.v ===== *)
(** * Adding the nodes of the path (main.c: split_leaf, the loop that adds
    path_nodes from the last to the second)

    Every node is added before the one above, which takes its color. At the
    end the second node and those below are in the table, and the color that
    leads to them is in the first, which is still in memory. *)

From S2P Require Import Prelude Bits Entry KeyObject State Hashing Symbols Atomics Table Contents Store Locks Cells Search Relocate AddEntry Finger Insert Api Lookup Order Linked Spine Dictionary Fields Nodes TreeInsert SplitPath Growth Upgrade Writes Room Preserve.
From stdpp Require Import base list gmap.
From Stdlib Require Import ZArith Lia Bool.

#[local] Open Scope Z_scope.

(** ** Chains of nodes in given cells *)

(** [jump_nodes], in cells of [S]. *)
Fixpoint node_chain (t : cuckoo_trie) (S : pos -> Prop) (ml : ct_entry_locator) (cs : list (list Z)) (h c hb cb : Z) : Prop :=
  match cs with
  | [] => h = hb /\ c = cb
  | syms :: cs' => exists q e y, S q /\ holds t q (h, c) e /\ jump_fields y syms e /\ max_leaf e = ml /\
      node_chain t S ml cs' (accumulate_list t h syms) (entry_child_color e) hb cb
  end.

Lemma node_chain_kept t t' (S S' : pos -> Prop) ml cs hb cb :
  same_params t t' -> (forall q k e, S q -> holds t q k e -> S' q /\ holds t' q k e) ->
  forall h c, node_chain t S ml cs h c hb cb -> node_chain t' S' ml cs h c hb cb.
Proof.
  intros Hp Hk. induction cs as [|syms cs IH]; intros h c Hc; [exact Hc|]. destruct Hc as (q & e & y & H1 & H2 & H3 & H4 & H5).
  destruct (Hk q _ e H1 H2) as [H6 H7]. exists q, e, y. do 4 (split; [done|]). rewrite (accumulate_list_params _ _ Hp). now apply IH.
Qed.

(** ** Pieces of eight *)

Lemma chunks_enough fuel : forall l, (length l <= fuel)%nat -> chunks fuel l = chunks (length l) l.
Proof.
  induction fuel as [fuel IH] using lt_wf_ind. intros l Hl. destruct l as [|x l]; [now rewrite !chunks_nil|].
  destruct fuel as [|fuel]; [cbn in Hl; lia|]. cbn [length] in *. cbn [chunks]. f_equal.
  set (l' := drop 8 (x :: l)). assert (Hl' : (length l' <= length l)%nat) by (unfold l'; rewrite length_drop; cbn [length]; lia).
  rewrite (IH fuel) by lia. destruct (decide (length l < S fuel)%nat) as [Hlt|]; [|lia]. now rewrite (IH (length l)) by lia.
Qed.

Definition pieces (l : list Z) : list (list Z) := chunks (length l) l.

Lemma pieces_nil : pieces [] = [].
Proof. reflexivity. Qed.

Lemma pieces_drop j l : (8 * j < length l)%nat -> pieces (drop (8 * j) l) = piece j l :: pieces (drop (8 * S j) l).
Proof.
  intros Hj. unfold pieces at 1. destruct (drop (8 * j) l) as [|x l'] eqn:E.
  - apply (f_equal length) in E. rewrite length_drop in E. cbn in E. lia.
  - cbn [length]. cbn [chunks]. rewrite <- E. unfold piece. f_equal. rewrite drop_drop. replace (8 * j + 8)%nat with (8 * S j)%nat by lia.
    apply chunks_enough. apply (f_equal length) in E. rewrite length_drop in E |- *. cbn [length] in E. lia.
Qed.

Lemma accumulate_piece t h j l :
  accumulate_list t (accumulate_list t h (take (8 * j) l)) (piece j l) = accumulate_list t h (take (8 * S j) l).
Proof.
  unfold accumulate_list, piece. rewrite <- fold_left_app. f_equal. rewrite take_take_drop. do 1 f_equal. lia.
Qed.

(** ** The loop *)

Section nodes.
Context `{laws : BucketLaws}.
Variable s0 : state.
Variables (ls h : Z) (l : list Z) (leaf : ct_entry) (loc : ct_entry_locator) (a b : Z) (p2 : pos).

Let t : cuckoo_trie := trie s0.
Let m : nat := jump_count (length l).

Definition path_hash (j : nat) : Z := accumulate_list t h (take (8 * j) l).

Hypothesis h_ok : hash_ok t h.
Hypothesis t_params : params_ok t.
Hypothesis l_ok : Forall (fun x => 1 <= x <= 32) l.

Lemma path_hash_ok j : hash_ok t (path_hash j).
Proof.
  unfold path_hash. assert (Hf : Forall (fun x => 1 <= x <= 32) (take (8 * j) l)) by now apply Forall_take. revert Hf.
  generalize (take (8 * j) l). intros l'. clear - h_ok t_params. revert h h_ok. induction l' as [|x l' IH]; intros h0 Hh Hf; [exact Hh|].
  apply Forall_cons in Hf as [Hx Hf]. cbn [accumulate_list fold_left]. apply IH; [|exact Hf]. apply accumulate_hash_ok; (done || lia).
Qed.

(** The hashes in the order of the additions. *)
Fixpoint hashes_down (n : nat) : list Z := match n with O => [] | S above => path_hash n :: hashes_down above end.

(** The bitmap node [eb] in cell [qb], and what is below the node [n]. *)
Record below_placed (n : nat) (nodes : list path_node) (newp : list pos) (s : state) (qb : pos) (eb : ct_entry) : Prop := mk_below_placed {
  bp_node : exists e, nodes !! n = Some (e, path_hash n) /\
    node_chain (trie s) (fun q => q ∈ newp /\ q <> p2) loc (pieces (drop (8 * S n) l)) (path_hash (S n)) (entry_child_color e) (path_hash m) (entry_color eb);
  bp_last : last nodes = Some (eb, path_hash m);
  bp_bitmap : (qb ∈ newp /\ qb <> p2) /\ holds (trie s) qb (path_hash m, entry_color eb) eb;
  bp_fields : exists y, fork_fields y a b eb;
  bp_max : max_leaf eb = loc;
}.

(** Nodes [n] and above are still to be added. *)
Record adding (n : nat) (nodes : list path_node) (newp : list pos) (s : state) : Prop := mk_adding {
  ad_length : length nodes = S m;
  ad_range : (n <= m)%nat;
  ad_nodes : forall j e hj, (j <= n)%nat -> nodes !! j = Some (e, hj) -> node_fields ls l leaf loc a b j e /\ hj = path_hash j;
  ad_below : (n < m)%nat -> exists qb eb, below_placed n nodes newp s qb eb;
  ad_others : forall q e, q ∈ newp -> q <> p2 -> trie_entry (trie s) q = Some e -> entry_parent_color e = INVALID_COLOR;
}.

Lemma path_node_ok j e : node_fields ls l leaf loc a b j e -> entry_ok e /\ used e = true.
Proof.
  intros [(y & _ & Hf) _ _]. destruct (decide (j < jump_count (length l))%nat).
  - split; [apply Hf|exact (jump_is_used _ _ _ Hf)].
  - split; [apply Hf|exact (fork_is_used _ _ _ _ Hf)].
Qed.

(** The color of the child. *)
Lemma colored_node j e c : node_fields ls l leaf loc a b j e -> (j < m)%nat -> 0 <= c <= MAX_VALID_COLOR ->
  node_fields ls l leaf loc a b j (entry_set_child_color c e) /\ entry_child_color (entry_set_child_color c e) = c.
Proof.
  intros Hn Hj Hc. destruct (path_node_ok j e Hn) as [Hok _]. destruct Hn as [(y & Hy & Hf) Hm Hh].
  destruct (child_color_fields c e Hok Hc) as (C1 & C2 & C3 & C4). split; [|exact C2]. split.
  - exists y. split; [exact Hy|]. fold m in Hf |- *. rewrite decide_True in Hf |- * by exact Hj.
    apply (jump_fields_body y _ e); [exact Hf| |exact C3]. split; [done|unfold entry_type, parent_color_and_flags; now rewrite C4 by lia|].
    intros i Hi. apply C4. lia.
  - rewrite <- Hm. apply locator_bytes. intros i Hi. apply C4. lia.
  - apply (header_of_tags leaf j e); [exact Hh|unfold parent_color_and_flags|unfold color_and_tag]; apply C4; lia.
Qed.

(** A node that was added, with its header. *)
Lemma placed_node N j e s s' p x :
  node_fields ls l leaf loc a b j e -> j <> 0%nat -> same_params t (trie s) -> AddEntry.placed N (path_hash j) e true s s' p x ->
  holds (trie s') p (path_hash j, entry_color x) x /\ 0 <= entry_color x <= MAX_VALID_COLOR /\ entry_parent_color x = INVALID_COLOR /\
  max_leaf x = loc /\
  if decide (j < m)%nat then (exists y, jump_fields y (piece j l) x) /\ entry_child_color x = entry_child_color e
  else exists y, fork_fields y a b x.
Proof.
  intros Hn Hj Hp Hpl. destruct (path_node_ok j e Hn) as [Hok Hu]. destruct Hn as [(y & _ & Hf) Hm Hh].
  unfold node_header in Hh. rewrite decide_False in Hh by exact Hj. destruct Hh as [F1 F2 F3].
  destruct (hash_parts t t_params _ (path_hash_ok j)) as (_ & Htag & _).
  destruct (pc_new _ _ _ _ _ _ _ _ Hpl) as (c & sec & Hc & Ex & Hho).
  assert (Ec : entry_color x = c) by (destruct Hho as (_ & _ & _ & Hk); exact (f_equal snd Hk)).
  destruct (prepared_body (path_hash j) c sec e Hok F1 Hc Htag) as (Hb & _ & Hpc). rewrite <- Ex in Hb, Hpc.
  rewrite Ec. split; [exact Hho|]. split; [exact Hc|]. split; [congruence|]. split; [now rewrite (body_locator _ _ Hb)|].
  assert (E8 : byte_at x 8 = byte_at e 8) by (apply Hb; entry_lia).
  fold m in Hf. destruct (decide (j < m)%nat).
  - split; [exists y|unfold entry_child_color, child_color_and_jump_size; now rewrite E8].
    apply (jump_fields_body y _ e); [exact Hf|apply (same_body_le ENTRY_BYTES); [entry_lia|exact Hb]|].
    unfold entry_jump_size, child_color_and_jump_size. now rewrite E8.
  - exists y. apply (fork_fields_body y a b e); [exact Hf|]. apply (same_body_le ENTRY_BYTES); [entry_lia|exact Hb].
Qed.

(** Entries in the cells stay when another is added. *)
Lemma holds_placed N e hx s s' p x q k y :
  AddEntry.placed N hx e true s s' p x -> q <> p -> holds (trie s) q k y -> holds (trie s') q k y.
Proof.
  intros Hpl Hne (H1 & H2 & H3 & H4). pose proof (pc_params _ _ _ _ _ _ _ _ Hpl) as Hp.
  split; [now rewrite <- Hp|]. split; [now rewrite (pc_cells _ _ _ _ _ _ _ _ Hpl), fill_ne|]. split; [done|]. now rewrite <- Hp.
Qed.

Lemma add_node n nodes newp N seen s rest :
  making s0 N seen newp s -> adding (S n) nodes newp s -> p2 ∈ newp -> 0 <= N /\ N + 2 + RELOCATE_REFS < 2 ^ 32 ->
  Z.of_nat (length (lock_mgr s0) + length seen) < MAX_LOCKS -> rooms t seen (path_hash (S n) :: rest) = true ->
  exists e p x s', nodes !! S n = Some (e, path_hash (S n)) /\ add_entry (path_hash (S n)) e None true s = Ret (SI_OK, Some (p, x)) s' /\
    making s0 (N + 2) (path_hash (S n) :: seen) (p :: newp) s' /\ rooms t (path_hash (S n) :: seen) rest = true /\
    (forall q, q ∈ newp -> trie_entry (trie s') q = trie_entry (trie s) q) /\
    adding n (alter (fun '(y, hy) => (entry_set_child_color (entry_color x) y, hy)) n (<[S n := (x, path_hash (S n))]> nodes)) (p :: newp) s'.
Proof.
  intros HM HA Hp2 HN Hlk Hroom. pose proof (ad_length _ _ _ _ HA) as Hlen. pose proof (ad_range _ _ _ _ HA) as Hrange.
  destruct (lookup_lt_is_Some_2 nodes (S n) ltac:(unfold path_node, ct_entry in *; lia)) as [[e hn] He].
  destruct (ad_nodes _ _ _ _ HA (S n) e hn ltac:(lia) He) as [Hnf ->].
  destruct (lookup_lt_is_Some_2 nodes n ltac:(unfold path_node, ct_entry in *; lia)) as [[ea ha] Hea].
  destruct (ad_nodes _ _ _ _ HA n ea ha ltac:(lia) Hea) as [Hnfa ->].
  destruct (path_node_ok _ _ Hnf) as [Hok Hu]. assert (Hsec : entry_is_secondary e = false).
  { destruct Hnf as [_ _ Hh]. unfold node_header in Hh. rewrite decide_False in Hh by lia. apply Hh. }
  destruct (making_add s0 N seen newp s (path_hash (S n)) rest e None true HM HN (path_hash_ok _) Hok Hu Hsec Hlk Hroom)
    as (p & x & s' & E & HM' & Hpn & Hroom' & Hpl).
  exists e, p, x, s'. split; [done|]. split; [exact E|]. split; [exact HM'|]. split; [exact Hroom'|].
  split; [intros q Hq; rewrite (pc_cells _ _ _ _ _ _ _ _ Hpl); apply fill_ne; intros ->; done|].
  destruct (placed_node _ (S n) e s s' p x Hnf ltac:(lia) (mg_params _ _ _ _ _ HM) Hpl) as (Hho & Hc & Hpc & Hml & Hf).
  destruct (colored_node n ea (entry_color x) Hnfa ltac:(lia) Hc) as [Hca Ecc].
  assert (Hpp : p <> p2) by (intros ->; done).
  set (nodes1 := <[S n := (x, path_hash (S n))]> nodes). set (nodes' := alter _ n nodes1).
  assert (Hn' : nodes' !! n = Some (entry_set_child_color (entry_color x) ea, path_hash n)).
  { unfold nodes', nodes1. rewrite list_lookup_alter_eq, list_lookup_insert_ne by lia.
    exact (f_equal (fmap (fun '(y, hy) => (entry_set_child_color (entry_color x) y, hy))) Hea). }
  assert (Hother : forall j, j <> n -> j <> S n -> nodes' !! j = nodes !! j).
  { intros j H1 H2. unfold nodes', nodes1. rewrite list_lookup_alter_ne by lia. now rewrite list_lookup_insert_ne by lia. }
  assert (Hsn : nodes' !! S n = Some (x, path_hash (S n))).
  { unfold nodes', nodes1. rewrite list_lookup_alter_ne by lia. rewrite list_lookup_insert_eq; [done|]. eapply lookup_lt_Some. exact He. }
  assert (Hlen' : length nodes' = S m) by (unfold nodes', nodes1; now rewrite length_alter, length_insert).
  assert (Hlast : (S n < m)%nat -> last nodes' = last nodes).
  { intros Hlt. etransitivity; [apply last_lookup|]. etransitivity; [|symmetry; apply last_lookup]. rewrite Hlen'. cbn [Nat.pred].
    etransitivity; [apply (Hother m); lia|]. exact (f_equal (fun k => nodes !! Nat.pred k) (eq_sym Hlen)). }
  assert (Hkeep : forall q k y, q ∈ newp /\ q <> p2 -> holds (trie s) q k y -> (q ∈ p :: newp /\ q <> p2) /\ holds (trie s') q k y).
  { intros q k y [Hq1 Hq2] Hy. split; [split; [now apply list_elem_of_further|done]|]. apply (holds_placed _ _ _ _ _ _ _ _ _ _ Hpl); [|exact Hy].
    intros ->. done. }
  split.
  - exact Hlen'.
  - lia.
  - intros j y hy Hj Hy. destruct (decide (j = n)) as [->|Hne].
    + rewrite Hn' in Hy. injection Hy as <- <-. done.
    + rewrite Hother in Hy by lia. exact (ad_nodes _ _ _ _ HA j y hy ltac:(lia) Hy).
  - intros _. destruct (decide (S n < m)%nat) as [Hlt|Hge].
    + destruct (ad_below _ _ _ _ HA Hlt) as (qb & eb & [(e1 & He1 & Hch) B2 [B3 B3'] B4 B5]). exists qb, eb.
      pose proof (eq_trans (eq_sym He) He1) as E1. injection E1 as <-. destruct Hf as [(y & Hf) Ech].
      destruct (Hkeep qb _ _ B3 B3') as [B6 B7]. split; [|exact (eq_trans (Hlast Hlt) B2)|done|done|done].
      exists (entry_set_child_color (entry_color x) ea). split; [exact Hn'|]. rewrite Ecc.
      rewrite pieces_drop by (pose proof (jump_count_spec (length l)); unfold m in *; lia). cbn [node_chain]. exists p, x, y.
      split; [split; [apply list_elem_of_here|done]|]. split; [exact Hho|]. split; [exact Hf|]. split; [exact Hml|].
      rewrite Ech. rewrite (accumulate_list_params t (trie s') (mg_params _ _ _ _ _ HM')). unfold path_hash at 1. rewrite accumulate_piece. fold (path_hash (S (S n))).
      apply (node_chain_kept (trie s) (trie s') _ _ _ _ _ _ (pc_params _ _ _ _ _ _ _ _ Hpl) Hkeep). exact Hch.
    + assert (S n = m) as Em by lia. exists p, x. split.
      * exists (entry_set_child_color (entry_color x) ea). split; [exact Hn'|]. rewrite Ecc, Em.
        rewrite drop_ge by (pose proof (jump_count_spec (length l)); unfold m in *; lia). done.
      * rewrite last_lookup, Hlen'. cbn [Nat.pred]. rewrite <- Em. exact Hsn.
      * rewrite <- Em. split; [split; [apply list_elem_of_here|done]|exact Hho].
      * exact Hf.
      * exact Hml.
  - intros q y Hq Hne Hy. rewrite (pc_cells _ _ _ _ _ _ _ _ Hpl) in Hy. unfold fill in Hy. destruct (decide (q = p)) as [->|Hqp].
    + injection Hy as <-. exact Hpc.
    + apply elem_of_cons in Hq as [->|Hq]; [done|]. exact (ad_others _ _ _ _ HA q y Hq Hne Hy).
Qed.

Lemma add_nodes_spec n : forall nodes newp N seen s written rest,
  making s0 N seen newp s -> adding n nodes newp s -> p2 ∈ newp -> 0 <= N /\ N + 2 * Z.of_nat n + RELOCATE_REFS < 2 ^ 32 ->
  Z.of_nat (length (lock_mgr s0) + length seen + n) <= MAX_LOCKS -> rooms t seen (hashes_down n ++ rest) = true ->
  exists nodes' newp' s' seen', add_path_nodes n nodes written s = Ret (SI_OK, nodes', (written + n)%nat) s' /\
    making s0 (N + 2 * Z.of_nat n) seen' newp' s' /\ adding 0 nodes' newp' s' /\ length seen' = (length seen + n)%nat /\
    rooms t seen' rest = true /\ forall q, q ∈ newp -> q ∈ newp' /\ trie_entry (trie s') q = trie_entry (trie s) q.
Proof.
  induction n as [|n IH]; intros nodes newp N seen s written rest HM HA Hp2 HN Hlk Hroom.
  - exists nodes, newp, s, seen. rewrite !Nat.add_0_r, Z.add_0_r. done.
  - cbn [hashes_down app] in Hroom.
    destruct (add_node n nodes newp N seen s _ HM HA Hp2 ltac:(lia) ltac:(lia) Hroom) as (e & p & x & s1 & He & E1 & HM1 & Hroom1 & Hk1 & HA1).
    destruct (IH _ (p :: newp) (N + 2) (path_hash (S n) :: seen) s1 (S written) rest HM1 HA1) as (nodes' & newp' & s' & seen' & E2 & HM2 & HA2 & Hl2 & Hr2 & Hk2);
      [now apply list_elem_of_further|lia|cbn [length]; lia|exact Hroom1|].
    exists nodes', newp', s', seen'. split; [|split; [|split; [exact HA2|split; [cbn [length] in Hl2; lia|split; [exact Hr2|]]]]].
    + cbn [add_path_nodes]. rewrite He. erewrite bind_Ret by reflexivity. cbv iota beta. erewrite bind_Ret by exact E1. cbv iota beta.
      replace (written + S n)%nat with (S written + n)%nat by lia. exact E2.
    + replace (N + 2 * Z.of_nat (S n)) with (N + 2 + 2 * Z.of_nat n) by lia. exact HM2.
    + intros q Hq. destruct (Hk2 q) as [H1 H2]; [now apply list_elem_of_further|]. split; [exact H1|]. rewrite H2. now apply Hk1.
Qed.
End nodes.
