(* ===== verification/SplitLeaf.v ===== *)
(** * Creating the new entries of a leaf split (main.c: split_leaf)

    The maximal leaf, the nodes of the path from the bottom up and the minimal
    leaf are added to a table with room for them. They are in unused cells and
    nothing leads to them yet. *)

From S2P Require Import Prelude Bits Entry KeyObject State Hashing Symbols Atomics Table Contents Store Locks Cells Search Relocate AddEntry Finger Insert Api Lookup Preserve Order Linked Spine Frame Dictionary InsertSpec Fields Nodes TreeInsert SplitPath Growth Upgrade Writes Room SplitNodes.
From stdpp Require Import base list gmap.
From Stdlib Require Import ZArith Lia Bool.

#[local] Open Scope Z_scope.

Section create.
Context `{laws : BucketLaws} `{env : Env}.
Variables (s3 : state) (N : Z).
Variables (ls h s1 s2 kv1 kv2 : Z) (l : list Z) (leaf : ct_entry) (nodes0 : list path_node).

Let t : cuckoo_trie := trie s3.
Let m : nat := jump_count (length l).
Let hb : Z := accumulate_list t h l.
Let minh : Z := accumulate_hash t hb s1.
Let maxh : Z := accumulate_hash t hb s2.
Let next : ct_entry_locator := next_leaf leaf.

Hypothesis t_ok : table_ok t.
Hypothesis l_locks : locks_ok N s3.
Hypothesis N_ok : 0 <= N < 2 ^ 20.
Hypothesis garbage_ok : entry_ok garbage_entry.
Hypothesis h_ok : hash_ok t h.
Hypothesis symbols_ok : 0 <= s1 <= 32 /\ 0 <= s2 <= 32.
Hypothesis addresses_ok : canonical_address kv1 /\ canonical_address kv2.
Hypothesis l_ok : Forall (fun x => 1 <= x <= 32) l.
Hypothesis l_short : (length l <= 408)%nat.
Hypothesis leaf_ok : entry_ok leaf.
Hypothesis leaf_color : 0 <= entry_color leaf <= MAX_VALID_COLOR.
Hypothesis path : path_made t ls h l leaf nodes0.
Hypothesis lock_room : Z.of_nat (length (lock_mgr s3) + m + 2) <= MAX_LOCKS.
Hypothesis has_room : rooms t [] (maxh :: hashes_down s3 h l m ++ [minh]) = true.

Lemma full_hash : path_hash s3 h l m = hb.
Proof. unfold path_hash, hb. fold t. rewrite take_ge; [done|]. pose proof (jump_count_spec (length l)). unfold m. lia. Qed.

Lemma leaf_hashes : hash_ok t hb /\ hash_ok t minh /\ hash_ok t maxh.
Proof.
  assert (Hb : hash_ok t hb) by (rewrite <- full_hash; apply path_hash_ok; (done || apply t_ok)). split; [exact Hb|].
  split; apply accumulate_hash_ok; (done || apply t_ok || lia).
Qed.

Lemma locator_of_hash hx c : hash_ok t hx -> 0 <= c <= MAX_VALID_COLOR -> locator_ok (mk_locator (hash_to_bucket hx) (hash_to_tag hx) c).
Proof.
  intros Hh Hc. change MAX_VALID_COLOR with 8 in Hc. pose proof (params_bound _ (tb_params _ t_ok)).
  destruct (hash_parts _ (tb_params _ t_ok) _ Hh) as (Hb & Ht & _). unfold locator_ok, is_byte. cbn [loc_primary_bucket loc_tag loc_color]. lia.
Qed.

(** A leaf that was added, with its header. *)
Lemma placed_leaf N' c symbol kv hx e s s' p x :
  leaf_fields c symbol kv e -> entry_is_secondary e = false -> hash_ok t hx -> AddEntry.placed N' hx e true s s' p x ->
  leaf_fields c symbol kv x /\ holds (trie s') p (hx, entry_color x) x /\ 0 <= entry_color x <= MAX_VALID_COLOR /\ next_leaf x = next_leaf e.
Proof.
  intros Hf Hs Hh Hpl. destruct (hash_parts _ (tb_params _ t_ok) _ Hh) as (_ & Htag & _).
  destruct (pc_new _ _ _ _ _ _ _ _ Hpl) as (c' & sec & Hc & Ex & Hho).
  assert (Ec : entry_color x = c') by (destruct Hho as (_ & _ & _ & Hk); exact (f_equal snd Hk)).
  pose proof (prepared_leaf c symbol kv e hx c' sec Hf Hs Hc Htag) as Hfx. rewrite <- Ex in Hfx.
  destruct (prepared_body hx c' sec e (lf_ok _ _ _ _ Hf) Hs Hc Htag) as (Hb & _). rewrite <- Ex in Hb.
  rewrite Ec. split; [exact Hfx|]. split; [exact Hho|]. split; [exact Hc|]. exact (body_locator _ _ Hb).
Qed.

(** ** The maximal leaf *)

(** The maximal leaf [x], in the cell [p2] of state [s]; its parent is still
    to be set. *)
Record max_created (loc : ct_entry_locator) (p2 : pos) (x : ct_entry) (N' : Z) (s : state) : Prop := mk_max_created {
  mc_making : making s3 N' [maxh] [p2] s;
  mc_fields : leaf_fields 0 s2 kv2 x /\ next_leaf x = next;
  mc_holds : holds (trie s) p2 (maxh, entry_color x) x;
  mc_loc : loc = mk_locator (hash_to_bucket maxh) (hash_to_tag maxh) (entry_color x) /\ locator_ok loc;
  mc_room : rooms t [maxh] (hashes_down s3 h l m ++ [minh]) = true;
}.

Lemma max_steps : exists p2 xm sa sb x loc,
  add_entry maxh (max_leaf_content s2) None true s3 = Ret (SI_OK, Some (p2, xm)) sa /\ get_entry p2 sa = Ret xm sa /\
  loc = mk_locator (hash_to_bucket maxh) (hash_to_tag maxh) (entry_color xm) /\
  put_entry p2 (set_next_leaf next (entry_set_kv kv2 xm)) sa = Ret tt sb /\ max_created loc p2 x (N + 2) sb.
Proof.
  destruct leaf_hashes as (_ & _ & Hmax). destruct (max_content_fields garbage_ok s2 ltac:(lia)) as [Hf0 Hsec0].
  destruct (making_add s3 N [] [] s3 maxh (hashes_down s3 h l m ++ [minh]) (max_leaf_content s2) None true (making_start s3 N t_ok l_locks))
    as (p2 & xm & sa & Ea & Ma & _ & Hroom & Hpl); [unfold RELOCATE_REFS, RELOCATE_QUEUE_SIZE; lia|exact Hmax|apply Hf0|
    exact (leaf_is_used _ _ _ _ Hf0)|exact Hsec0|cbn [length]; lia|exact has_room|].
  destruct (placed_leaf _ _ _ _ _ _ _ _ _ _ Hf0 Hsec0 Hmax Hpl) as (Hfm & Hho & Hc & _).
  destruct (leaf_with_kv 0 s2 _ kv2 xm Hfm ltac:(apply addresses_ok)) as (Hf1 & Ht1 & _). pose proof (lf_ok _ _ _ _ Hf1) as Hok1.
  set (x := set_next_leaf next (entry_set_kv kv2 xm)).
  assert (Ht2 : same_tags xm x) by (transitivity (entry_set_kv kv2 xm); [exact Ht1|now apply set_locator_tags]).
  pose proof Hho as (Hin & Hat & _ & _).
  destruct (making_put s3 (N + 2) [maxh] [p2] sa p2 xm x Ma ltac:(apply list_elem_of_here) Hat ltac:(now apply set_entry_locator_ok) Ht2)
    as (sb & Eb & Mb & Hcells & Hpar).
  exists p2, xm, sa, sb, x, (mk_locator (hash_to_bucket maxh) (hash_to_tag maxh) (entry_color xm)).
  split; [exact Ea|]. split; [now apply get_entry_eq|]. split; [done|]. split; [exact Eb|].
  pose proof (sg_color _ _ Ht2) as Ecol. split.
  - exact Mb.
  - split; [now apply linked_leaf_fields|]. apply entry_locator_set; [done|now apply entry_locator_ok].
  - rewrite Ecol. destruct Hho as (_ & _ & Hu & Hk). destruct (same_tags_key (trie sa) p2 _ _ Ht2) as (K & _).
    split; [now rewrite <- Hpar|]. split; [rewrite Hcells; apply fill_eq|]. split; [now rewrite (sg_used _ _ Ht2)|]. rewrite <- Hpar. congruence.
  - rewrite Ecol. split; [done|]. now apply locator_of_hash.
  - exact Hroom.
Qed.

(** ** The nodes *)

(** The maximal leaf has its parent, the bitmap node [eb] in cell [qb] or in
    the head [eh], and the nodes below the head are in the table. *)
Record path_created (loc : ct_entry_locator) (p2 : pos) (x eb eh : ct_entry) (newp : list pos) (seen : list Z) (N' : Z) (s : state) : Prop := mk_path_created {
  pt_making : making s3 N' seen newp s;
  pt_seen : length seen = S m;
  pt_max : p2 ∈ newp /\ holds (trie s) p2 (maxh, entry_color x) x /\ leaf_fields (entry_color eb) s2 kv2 x /\ next_leaf x = next;
  pt_others : forall q e, q ∈ newp -> q <> p2 -> trie_entry (trie s) q = Some e -> entry_parent_color e = INVALID_COLOR;
  pt_head : node_fields ls l leaf loc s1 s2 0 eh;
  pt_bitmap : 0 <= entry_color eb <= MAX_VALID_COLOR;
  pt_below : if decide (m = 0%nat) then eb = eh else
    exists qb, (qb ∈ newp /\ qb <> p2) /\ holds (trie s) qb (hb, entry_color eb) eb /\ (exists y, fork_fields y s1 s2 eb) /\ max_leaf eb = loc /\
      node_chain (trie s) (fun q => q ∈ newp /\ q <> p2) loc (pieces (drop 8 l)) (path_hash s3 h l 1) (entry_child_color eh) hb (entry_color eb);
  pt_room : rooms t seen [minh] = true;
}.

Let with_loc (loc : ct_entry_locator) : list path_node := map (fun '(e, h) => (set_max_leaf loc e, h)) (update_last (fork s1 s2) nodes0).

(** The loop ends. *)
Lemma node_steps loc p2 x sb : max_created loc p2 x (N + 2) sb ->
  exists nodes2 newp seen w sc eb eh,
    add_path_nodes (length (with_loc loc) - 1) (with_loc loc) 0 sb = Ret (SI_OK, nodes2, w) sc /\
    making s3 (N + 2 + 2 * Z.of_nat m) seen newp sc /\ adding s3 ls h l leaf loc s1 s2 p2 0 nodes2 newp sc /\ length seen = S m /\
    rooms t seen [minh] = true /\ p2 ∈ newp /\ trie_entry (trie sc) p2 = Some x /\
    last nodes2 = Some (eb, hb) /\ nodes2 !! 0%nat = Some (eh, h).
Proof.
  intros [M1 M2 M3 [M4 M5] M6]. pose proof (path_with_children t ls h l leaf nodes0 loc s1 s2 path M5 ltac:(lia) ltac:(lia)) as [Q1 Q2].
  fold (with_loc loc) in Q1, Q2. fold m in Q1. replace (length (with_loc loc) - 1)%nat with m by (unfold path_node, ct_entry in *; lia).
  destruct (add_nodes_spec s3 ls h l leaf loc s1 s2 p2 h_ok (tb_params _ t_ok) l_ok m (with_loc loc) [p2] (N + 2) [maxh] sb 0%nat [minh])
    as (nodes2 & newp & sc & seen & E & MC & HA & Hlen & Hroom & Hk).
  - exact M1.
  - split; [exact Q1|done|intros j e hj _ Hj; exact (Q2 j e hj Hj)|fold m; lia|].
    intros q e Hq Hne. apply list_elem_of_singleton in Hq. done.
  - apply list_elem_of_here.
  - unfold RELOCATE_REFS, RELOCATE_QUEUE_SIZE. pose proof (jump_count_spec (length l)) as Hjc. fold m in Hjc. lia.
  - cbn [length]. lia.
  - exact M6.
  - destruct (Hk p2 ltac:(apply list_elem_of_here)) as [Hin Hat]. destruct M3 as (_ & Hx & _).
    pose proof (ad_length _ _ _ _ _ _ _ _ _ _ _ _ _ HA) as Hl2. fold m in Hl2.
    destruct (lookup_lt_is_Some_2 nodes2 0%nat ltac:(unfold path_node, ct_entry in *; lia)) as [[eh h0] Eh].
    destruct (ad_nodes _ _ _ _ _ _ _ _ _ _ _ _ _ HA 0%nat eh h0 ltac:(lia) Eh) as [_ ->]. 
    assert (Hlast : exists eb, last nodes2 = Some (eb, hb)).
    { destruct (decide (m = 0%nat)) as [Em|Hm].
      - exists eh. rewrite last_lookup. transitivity (nodes2 !! 0%nat); [f_equal; unfold path_node, ct_entry in *; lia|]. rewrite Eh, <- full_hash, Em. done.
      - destruct (ad_below _ _ _ _ _ _ _ _ _ _ _ _ _ HA ltac:(fold m; lia)) as (qb & eb & HB). exists eb. rewrite (bp_last _ _ _ _ _ _ _ _ _ _ _ _ _ HB). fold m. now rewrite full_hash. }
    destruct Hlast as [eb Eb]. exists nodes2, newp, seen, (0 + m)%nat, sc, eb, eh. split; [exact E|]. split; [exact MC|]. split; [exact HA|].
    split; [cbn [length] in Hlen; lia|]. split; [exact Hroom|]. split; [exact Hin|]. split; [congruence|]. split; [exact Eb|exact Eh].
Qed.

(** The head of the path and the cells below it. *)
Lemma path_facts loc p2 nodes2 newp sc eb eh N' seen : making s3 N' seen newp sc ->
  adding s3 ls h l leaf loc s1 s2 p2 0 nodes2 newp sc -> last nodes2 = Some (eb, hb) -> nodes2 !! 0%nat = Some (eh, h) ->
  node_fields ls l leaf loc s1 s2 0 eh /\ 0 <= entry_color eb <= MAX_VALID_COLOR /\
  if decide (m = 0%nat) then eb = eh else
    exists qb, (qb ∈ newp /\ qb <> p2) /\ holds (trie sc) qb (hb, entry_color eb) eb /\ (exists y, fork_fields y s1 s2 eb) /\ max_leaf eb = loc /\
      node_chain (trie sc) (fun q => q ∈ newp /\ q <> p2) loc (pieces (drop 8 l)) (path_hash s3 h l 1) (entry_child_color eh) hb (entry_color eb).
Proof.
  intros HM HA Eb Eh. destruct (ad_nodes _ _ _ _ _ _ _ _ _ _ _ _ _ HA 0%nat eh h ltac:(lia) Eh) as [Hn _].
  pose proof (ad_length _ _ _ _ _ _ _ _ _ _ _ _ _ HA) as Hl2. fold m in Hl2. split; [exact Hn|]. destruct (decide (m = 0%nat)) as [Em|Hm].
  - assert (E : Some (eb, hb) = Some (eh, h)).
    { rewrite <- Eb, <- Eh, last_lookup. f_equal. unfold path_node, ct_entry in *. lia. }
    injection E as -> _. split; [|done]. destruct Hn as [_ _ Hh]. unfold node_header in Hh. cbn [decide] in Hh. rewrite decide_True in Hh by done.
    destruct Hh as [Ht _]. now rewrite (sg_color _ _ Ht).
  - destruct (ad_below _ _ _ _ _ _ _ _ _ _ _ _ _ HA ltac:(fold m; lia)) as (qb & eb' & [(e & He & Hch) B2 [B3 B4] B5 B6]).
    fold m in B2, B4, Hch. rewrite full_hash in B2, B4, Hch. pose proof (eq_trans (eq_sym Eb) B2) as E1. injection E1 as <-.
    pose proof (eq_trans (eq_sym Eh) He) as E2. injection E2 as <-.
    split; [apply (holds_ok _ (mg_table _ _ _ _ _ HM) _ _ _ B4)|]. exists qb. done.
Qed.

(** The bitmap node becomes the parent of the maximal leaf. *)
Lemma parent_steps loc p2 x sb : max_created loc p2 x (N + 2) sb ->
  exists nodes2 newp seen w sc sd eb eh x',
    add_path_nodes (length (with_loc loc) - 1) (with_loc loc) 0 sb = Ret (SI_OK, nodes2, w) sc /\
    last nodes2 = Some (eb, hb) /\ nodes2 !! 0%nat = Some (eh, h) /\ get_entry p2 sc = Ret x sc /\
    put_entry p2 (entry_set_parent_color (entry_color eb) x) sc = Ret tt sd /\ entry_color x' = entry_color x /\
    path_created loc p2 x' eb eh newp seen (N + 2 + 2 * Z.of_nat m) sd.
Proof.
  intros HX. destruct (node_steps loc p2 x sb HX) as (nodes2 & newp & seen & w & sc & eb & eh & E & MC & HA & Hlen & Hroom & Hin & Hat & Eb & Eh).
  destruct (path_facts loc p2 nodes2 newp sc eb eh _ _ MC HA Eb Eh) as (Hhd & Hc & Hbelow). destruct HX as [M1 [M2 M2'] M3 [M4 M5] M6].
  destruct (recolored_leaf 0 (entry_color eb) s2 kv2 x M2 Hc) as (Hf & Hby & Hsec). pose proof (recolored_tags 0 (entry_color eb) s2 kv2 x M2 Hc) as Htags.
  set (x' := entry_set_parent_color (entry_color eb) x) in *.
  destruct (making_put s3 _ _ _ sc p2 x x' MC Hin Hat (lf_ok _ _ _ _ Hf) Htags) as (sd & Ed & MD & Hcells & Hpar).
  assert (Hkeep : forall q k y, q ∈ newp /\ q <> p2 -> holds (trie sc) q k y -> (q ∈ newp /\ q <> p2) /\ holds (trie sd) q k y).
  { intros q k y Hq (H1 & H2 & H3 & H4). split; [done|]. split; [now rewrite <- Hpar|]. split; [rewrite Hcells, fill_ne; [done|apply Hq]|]. split; [done|]. now rewrite <- Hpar. }
  exists nodes2, newp, seen, w, sc, sd, eb, eh, x'. split; [exact E|]. split; [exact Eb|]. split; [exact Eh|]. split; [now apply get_entry_eq|].
  split; [exact Ed|]. split; [apply (sg_color _ _ Htags)|]. split; try done.
  - split; [exact Hin|]. destruct M3 as (I1 & _ & I3 & I4). destruct (same_tags_key (trie sb) p2 _ _ Htags) as (K & _).
    assert (Hpc : same_params (trie sb) (trie sd)).
    { transitivity (trie s3); [symmetry; apply (mg_params _ _ _ _ _ M1)|apply (mg_params _ _ _ _ _ MD)]. }
    split; [|split; [exact Hf|]].
    + rewrite (sg_color _ _ Htags). split; [now rewrite <- Hpc|]. split; [rewrite Hcells; apply fill_eq|].
      split; [now rewrite (sg_used _ _ Htags)|]. rewrite <- Hpc. congruence.
    + rewrite <- M2'. apply locator_bytes. intros i Hi. apply Hby. lia.
  - intros q y Hq Hne Hy. rewrite Hcells, fill_ne in Hy by done. exact (ad_others _ _ _ _ _ _ _ _ _ _ _ _ _ HA q y Hq Hne Hy).
  - destruct (decide (m = 0%nat)); [exact Hbelow|]. destruct Hbelow as (qb & B1 & B2 & B3 & B4 & B5). destruct (Hkeep qb _ _ B1 B2) as [_ B6].
    exists qb. do 4 (split; [done|]). apply (node_chain_kept (trie sc) (trie sd) _ _ _ _ _ _ Hpar Hkeep). exact B5.
Qed.

(** ** The minimal leaf *)

(** Everything is created. *)
Record all_created (loc : ct_entry_locator) (p1 p2 : pos) (x1 x2 eb eh : ct_entry) (newp : list pos) (s : state) : Prop := mk_all_created {
  al_making : exists N' seen, 0 <= N' < 2 ^ 21 /\ making s3 N' seen newp s /\ (length seen <= m + 2)%nat;
  al_loc : loc = mk_locator (hash_to_bucket maxh) (hash_to_tag maxh) (entry_color x2) /\ locator_ok loc;
  al_min : p1 ∈ newp /\ holds (trie s) p1 (minh, entry_color x1) x1 /\ leaf_fields (entry_color eb) s1 kv1 x1 /\ next_leaf x1 = loc;
  al_max : p2 ∈ newp /\ holds (trie s) p2 (maxh, entry_color x2) x2 /\ leaf_fields (entry_color eb) s2 kv2 x2 /\ next_leaf x2 = next;
  al_others : forall q e, q ∈ newp -> q <> p1 -> q <> p2 -> trie_entry (trie s) q = Some e -> entry_parent_color e = INVALID_COLOR;
  al_head : node_fields ls l leaf loc s1 s2 0 eh;
  al_bitmap : 0 <= entry_color eb <= MAX_VALID_COLOR;
  al_below : if decide (m = 0%nat) then eb = eh else
    exists qb, qb ∈ newp /\ holds (trie s) qb (hb, entry_color eb) eb /\ (exists y, fork_fields y s1 s2 eb) /\ max_leaf eb = loc /\
      node_chain (trie s) (fun q => q ∈ newp) loc (pieces (drop 8 l)) (path_hash s3 h l 1) (entry_child_color eh) hb (entry_color eb);
}.

Lemma create_steps : exists p1 p2 xm x1 x2 sa sb sc sd se nodes2 w newp eb eh loc xp,
  add_entry maxh (max_leaf_content s2) None true s3 = Ret (SI_OK, Some (p2, xm)) sa /\ get_entry p2 sa = Ret xm sa /\
  loc = mk_locator (hash_to_bucket maxh) (hash_to_tag maxh) (entry_color xm) /\
  put_entry p2 (set_next_leaf next (entry_set_kv kv2 xm)) sa = Ret tt sb /\
  add_path_nodes (length (with_loc loc) - 1) (with_loc loc) 0 sb = Ret (SI_OK, nodes2, w) sc /\
  last nodes2 = Some (eb, hb) /\ nodes2 !! 0%nat = Some (eh, h) /\ get_entry p2 sc = Ret xp sc /\
  put_entry p2 (entry_set_parent_color (entry_color eb) xp) sc = Ret tt sd /\
  add_entry minh (min_leaf_content (entry_color eb) s1 kv1 loc) (Some p2) true sd = Ret (SI_OK, Some (p1, x1)) se /\
  all_created loc p1 p2 x1 x2 eb eh newp se.
Proof.
  destruct max_steps as (p2 & xm & sa & sb & xp & loc & E1 & E2 & E3 & E4 & HX). pose proof (mc_loc _ _ _ _ _ HX) as [Hloc Hlok].
  destruct (parent_steps loc p2 xp sb HX) as (nodes2 & newp & seen & w & sc & sd & eb & eh & x2 & E5 & E6 & E7 & E8 & E9 & Ecol & [P1 P2 P3 P4 P5 P6 P7 P8]).
  destruct leaf_hashes as (_ & Hmin & _).
  destruct (min_content_fields garbage_ok (entry_color eb) s1 kv1 loc ltac:(lia) P6 ltac:(apply addresses_ok) Hlok) as (Hf & Hsec & Hnext).
  destruct (making_add s3 _ _ _ sd minh [] (min_leaf_content (entry_color eb) s1 kv1 loc) (Some p2) true P1)
    as (p1 & x1 & se & E10 & ME & Hnew & _ & Hpl).
  { unfold RELOCATE_REFS, RELOCATE_QUEUE_SIZE. pose proof (jump_count_spec (length l)) as Hjc. fold m in Hjc. lia. }
  { exact Hmin. }
  { apply Hf. }
  { exact (leaf_is_used _ _ _ _ Hf). }
  { exact Hsec. }
  { rewrite P2. lia. }
  { exact P8. }
  destruct (placed_leaf _ _ _ _ _ _ _ _ _ _ Hf Hsec Hmin Hpl) as (Hf1 & Hh1 & Hc1 & Hn1).
  assert (Hne : p1 <> p2) by (intros ->; now apply Hnew).
  assert (Hkeep : forall q k y, q ∈ newp -> holds (trie sd) q k y -> q ∈ p1 :: newp /\ holds (trie se) q k y).
  { intros q k y Hq Hy. split; [now apply list_elem_of_further|]. apply (holds_placed _ _ _ _ _ _ _ _ _ _ Hpl); [|exact Hy]. intros ->. now apply Hnew. }
  exists p1, p2, xm, x1, x2, sa, sb, sc, sd, se, nodes2, w, (p1 :: newp), eb, eh, loc, xp.
  do 10 (split; [done|]). split; try done.
  - exists (N + 2 + 2 * Z.of_nat m + 2), (minh :: seen). pose proof (jump_count_spec (length l)) as Hjc. fold m in Hjc. split; [lia|].
    split; [exact ME|]. cbn [length]. lia.
  - rewrite Ecol. done.
  - split; [apply list_elem_of_here|]. split; [exact Hh1|]. split; [exact Hf1|congruence].
  - destruct P3 as (H1 & H2 & H3 & H4). destruct (Hkeep p2 _ _ H1 H2) as [H5 H6]. done.
  - intros q y Hq Hq1 Hq2 Hy. apply elem_of_cons in Hq as [->|Hq]; [done|]. rewrite (pc_cells _ _ _ _ _ _ _ _ Hpl), fill_ne in Hy by done.
    exact (P4 q y Hq Hq2 Hy).
  - destruct (decide (m = 0%nat)); [exact P7|]. destruct P7 as (qb & [B1 B1'] & B2 & B3 & B4 & B5). destruct (Hkeep qb _ _ B1 B2) as [B6 B7].
    exists qb. do 4 (split; [done|]). apply (node_chain_kept (trie sd) (trie se) (fun q => q ∈ newp /\ q <> p2) _ _ _ _ _ (pc_params _ _ _ _ _ _ _ _ Hpl)); [|exact B5].
    intros q k y [Hq _] Hy. now apply Hkeep.
Qed.
End create.
