(* ===== verification/SplitPublish.v ===== *)
(** * Making the two leaves reachable (main.c: the end of split_leaf)

    All entries were created and all locks are held: the predecessor is marked
    dirty, the head of the path replaces the leaf, the predecessor is linked
    to the minimal leaf, the nodes above get their new maximal leaf and the
    locks are released. *)

From S2P Require Import Prelude Bits Entry KeyObject State Hashing Symbols Atomics Table Contents Store Locks Cells Search Relocate AddEntry Finger Insert Api Lookup Order Linked Spine Dictionary Fields Growth Upgrade Writes.
From stdpp Require Import base list gmap sorting.
From Stdlib Require Import ZArith Lia Bool.

#[local] Open Scope Z_scope.

Section publish.
Context `{BucketLaws} `{Env}.
Variables (N : Z) (s : state).
Variables (f : ct_finger) (pe : ct_path_entry) (pred : ct_entry_local_copy) (eh : ct_entry) (hmin cmin : Z).

Let P : list ct_path_entry := path f.
Let n : nat := (length P - 1)%nat.
Let pp : pos := last_pos pred.
Let ep : ct_entry := lc_value pred.
Let loc : ct_entry_locator := mk_locator (hash_to_bucket hmin) (hash_to_tag hmin) cmin.

Hypothesis s_busy : busy N s (trie s) (trie_entry (trie s)).
Hypothesis at_end : last P = Some pe.
Hypothesis loc_ok : locator_ok loc.
(** The head in the place of the leaf. *)
Hypothesis head_ok : entry_ok eh.
Hypothesis head_tags : same_tags (pe_value pe) eh.
Hypothesis head_symbol : n = 0%nat \/ last_symbol eh = last_symbol (pe_value pe).
(** The predecessor. *)
Hypothesis pred_usable : usable (trie s) pred.
Hypothesis pred_held : held s pp.
Hypothesis pred_clean : entry_dirty ep = false.
(** The path. *)
Hypothesis path_usable : forall z, z ∈ P -> usable (trie s) (pe_entry z).
Hypothesis leaf_held : held s (last_pos (pe_entry pe)).
Hypothesis path_held : forall i z, (walk_top P n <= i < n)%nat -> P !! i = Some z -> held s (last_pos (pe_entry z)).
Hypothesis path_distinct : forall i j y z, (i < j)%nat -> P !! i = Some y -> P !! j = Some z -> last_pos (pe_entry y) <> last_pos (pe_entry z).
Hypothesis pp_ne : forall z, z ∈ P -> last_pos (pe_entry z) <> pp.

Let ml : ct_entry_locator := max_leaf eh.

Definition on_the_path (q : pos) : Prop := exists z, z ∈ P /\ q = last_pos (pe_entry z).

Lemma end_in_path : P !! n = Some pe /\ pe ∈ P.
Proof. split; [|now apply last_Some_elem_of]. rewrite <- at_end, last_lookup. f_equal. unfold n. lia. Qed.

Lemma pred_not_on_path : ~ on_the_path pp.
Proof. intros (z & Hz & E). exact (pp_ne z Hz (eq_sym E)). Qed.

(** The finger with the head. *)
Lemma head_path t l :
  last_pos l = last_pos (pe_entry pe) -> lc_value l = eh -> (forall z, z ∈ P -> z <> pe -> usable t (pe_entry z)) ->
  let f1 := set_path_local n l f in
  ready s ml f1 n t /\ walk_top (path f1) n = walk_top P n /\ last_path_entry f1 = n /\
  (forall i z, (i < n)%nat -> path f1 !! i = Some z <-> P !! i = Some z).
Proof.
  intros Hp Hv Hus f1. destruct end_in_path as [Hend Hin]. pose proof (lookup_lt_Some _ _ _ Hend) as Hlt.
  assert (Hlow : forall i z, (i < n)%nat -> path f1 !! i = Some z <-> P !! i = Some z).
  { intros i z Hi. unfold f1, set_path_local, set_path. cbn [path]. fold P. now rewrite list_lookup_alter_ne by lia. }
  assert (Htop : walk_top (path f1) n = walk_top P n).
  { destruct head_symbol as [E0|Hsym]; [now rewrite E0|]. apply walk_top_ext; [done|]. intros i z Hi Hz.
    eexists. split; [apply set_path_local_lookup; exact Hz|]. destruct (decide (n = i)) as [<-|Hne]; [|done]. split; [|lia].
    rewrite Hend in Hz. injection Hz as <-. unfold pe_value at 1. cbn [pe_entry lc_value]. now rewrite Hv. }
  assert (Hother : forall i z, (i < n)%nat -> P !! i = Some z -> z <> pe).
  { intros i z Hi Hz ->. exact (path_distinct i n pe pe Hi Hz Hend eq_refl). }
  split; [split|split; [exact Htop|split; [|exact Hlow]]].
  - eexists. split; [apply set_path_local_lookup; exact Hend|]. rewrite decide_True by done. unfold pe_value. cbn [pe_entry]. now rewrite Hv.
  - intros i z Hi Hz. apply Hlow in Hz; [|done]. apply Hus; [eapply list_elem_of_lookup_2; exact Hz|exact (Hother i z Hi Hz)].
  - intros i j y z Hij Hy Hz. apply Hlow in Hy, Hz; [|lia..]. exact (path_distinct i j y z (proj1 Hij) Hy Hz).
  - rewrite Htop. intros i z Hi Hz. apply Hlow in Hz; [|lia]. exact (path_held i z Hi Hz).
  - unfold last_path_entry, f1, set_path_local, set_path. cbn [path]. rewrite length_alter. reflexivity.
Qed.

(** The cells at the end, in table [t']. *)
Record split_published (t' : cuckoo_trie) : Prop := mk_split_published {
  sp_table : table_ok t';
  sp_params : same_params (trie s) t';
  sp_unlocked : unlocked t';
  sp_pred : trie_entry t' pp = Some (set_next_leaf loc ep);
  sp_head : trie_entry t' (last_pos (pe_entry pe)) = Some eh;
  sp_path : forall i z, P !! i = Some z -> (i < n)%nat ->
    trie_entry t' (last_pos (pe_entry z)) = Some (if (walk_top P n <=? i)%nat then set_max_leaf ml (pe_value z) else pe_value z);
  sp_rest : forall q, q <> pp -> ~ on_the_path q -> trie_entry t' q = trie_entry (trie s) q;
}.

(** The writes before the maximal leaves: the dirty mark, the head, the link. *)
Lemma head_steps : exists t3 pred2 f1 E3,
  (forall r : ct_finger -> ct_entry_local_copy -> MS si_status,
     (pred1 ← mark_entry_dirty pred; old_head ← lift (path_local f (last_path_entry f)); head_local ← update_entry old_head eh;
      let f1 := set_path_local (last_path_entry f) head_local f in
      pred2 ← linklist_insert_two pred1 hmin cmin; r f1 pred2) s = r f1 pred2 (set_trie t3 s)) /\
  busy N s t3 E3 /\ usable t3 pred2 /\ last_pos pred2 = pp /\ lc_value pred2 = set_next_leaf loc (entry_set_dirty ep) /\
  ready s ml f1 n t3 /\ walk_top (path f1) n = walk_top P n /\ last_path_entry f1 = n /\
  (forall i z, (i < n)%nat -> path f1 !! i = Some z <-> P !! i = Some z) /\
  E3 (last_pos (pe_entry pe)) = Some eh /\ (forall q, q <> pp -> q <> last_pos (pe_entry pe) -> E3 q = trie_entry (trie s) q).
Proof.
  destruct end_in_path as [Hend Hin]. pose proof (shape_entry _ _ _ (by_shape _ _ _ _ s_busy) (us_at _ _ pred_usable)) as Hep. fold ep in Hep.
  destruct (set_dirty_tags ep Hep pred_clean) as [Hd Hdt].
  destruct (update_busy N s (trie s) _ pred (entry_set_dirty ep) s_busy pred_usable pred_held Hd Hdt) as (q1 & t1 & U1 & B1 & V1 & K1).
  set (pred1 := mk_local (entry_set_dirty ep) (last_pos pred) (primary_bucket pred) q1) in *.
  assert (Ul : usable t1 (pe_entry pe)) by (apply K1; [now apply path_usable|now apply pp_ne]).
  destruct (update_busy N s t1 _ (pe_entry pe) eh B1 Ul leaf_held head_ok head_tags) as (q2 & t2 & U2 & B2 & V2 & K2).
  set (head_local := mk_local eh (last_pos (pe_entry pe)) (primary_bucket (pe_entry pe)) q2) in *.
  assert (Up : usable t2 pred1) by (apply K2; [exact V1|intros E; exact (pp_ne pe Hin (eq_sym E))]).
  destruct (update_busy N s t2 _ pred1 (set_next_leaf loc (entry_set_dirty ep)) B2 Up pred_held) as (q3 & t3 & U3 & B3 & V3 & K3);
    [now apply set_entry_locator_ok|now apply set_locator_tags|].
  destruct (head_path t3 head_local eq_refl eq_refl) as (R1 & R2 & R3 & R4).
  { intros z Hz Hne. assert (Hd2 : last_pos (pe_entry z) <> last_pos (pe_entry pe)).
    { apply list_elem_of_lookup in Hz as (i & Hi). pose proof (lookup_lt_Some _ _ _ Hi).
      apply (path_distinct i n z pe); [|exact Hi|exact Hend]. destruct (decide (i = n)) as [->|]; [congruence|unfold n in *; lia]. }
    apply K3; [apply K2; [apply K1; [now apply path_usable|now apply pp_ne]|exact Hd2]|now apply pp_ne]. }
  eexists t3, _, (set_path_local n head_local f), _. split; [|split; [exact B3|split; [exact V3|]]].
  - intros r. unfold mark_entry_dirty. fold ep. replace s with (set_trie (trie s) s) at 1 by now destruct s.
    erewrite bind_Ret by exact U1. change (last_path_entry f) with n.
    assert (Epl : path_local f n = Some (pe_entry pe)) by (unfold path_local; fold P; now rewrite Hend).
    rewrite Epl. erewrite bind_Ret by reflexivity. erewrite bind_Ret by exact U2. cbv zeta. unfold linklist_insert_two.
    erewrite bind_Ret by exact U3. reflexivity.
  - split; [done|]. split; [done|]. do 4 (split; [done|]). change (last_pos pred1) with pp. change (last_pos pred) with pp.
    assert (Hne : last_pos (pe_entry pe) <> pp) by now apply pp_ne. split.
    + rewrite fill_ne by exact Hne. apply fill_eq.
    + intros q Hq1 Hq2. rewrite !fill_ne by done. done.
Qed.

Lemma split_publish_spec :
  exists t', split_leaf_publish f pred eh hmin cmin s = Ret SI_OK (mk_state t' [] (kv_mem s)) /\ split_published t'.
Proof.
  destruct end_in_path as [Hend Hin]. pose proof (shape_entry _ _ _ (by_shape _ _ _ _ s_busy) (us_at _ _ pred_usable)) as Hep. fold ep in Hep.
  destruct head_steps as (t3 & pred2 & f1 & E3 & L1 & B3 & U3 & Hp2 & Hv2 & HR & Htop & Hlast & Hlow & H3a & H3b).
  destruct (propagate_spec N s ml (entry_locator_ok _ head_ok) n f1 t3 _ HR B3) as (f2 & t4 & E4 & Ep & B4 & P1 & P2 & P3). rewrite Htop in *.
  assert (Hrange : forall q, path_range (path f1) (walk_top P n) n q -> exists i z, (walk_top P n <= i < n)%nat /\ P !! i = Some z /\ q = last_pos (pe_entry z)).
  { intros q (i & z & Hi & Hz & ->). exists i, z. split; [done|]. split; [apply Hlow; [lia|done]|done]. }
  assert (Hnot : forall i z, P !! i = Some z -> (i < walk_top P n)%nat \/ i = n -> ~ path_range (path f1) (walk_top P n) n (last_pos (pe_entry z))).
  { intros i z Hz Hi Hr. apply Hrange in Hr as (j & w & Hj & Hw & Eq). destruct (decide (i < j)%nat) as [Hlt|Hge].
    - exact (path_distinct i j z w Hlt Hz Hw Eq).
    - apply (path_distinct j i w z ltac:(lia) Hw Hz). now symmetry. }
  assert (Hoff : forall q, ~ on_the_path q -> ~ path_range (path f1) (walk_top P n) n q).
  { intros q Hq Hr. apply Hrange in Hr as (i & z & _ & Hz & ->). apply Hq. exists z. split; [eapply list_elem_of_lookup_2; exact Hz|done]. }
  assert (U4 : usable t4 pred2) by (apply P3; [exact U3|rewrite Hp2; apply Hoff, pred_not_on_path]).
  assert (Eclean : entry_set_clean (lc_value pred2) = set_next_leaf loc ep) by (rewrite Hv2; now apply dirty_link_clean).
  destruct (update_busy N s t4 E4 pred2 (set_next_leaf loc ep) B4 U4) as (q5 & t5 & E5 & B5 & _ & _).
  { rewrite Hp2. exact pred_held. }
  { now apply set_entry_locator_ok. }
  { rewrite Hv2. transitivity ep; [symmetry; now apply dirty_link_tags|now apply set_locator_tags]. }
  rewrite Hp2 in B5.
  destruct (release_all_locks_spec N (set_trie t5 s) (by_locks _ _ _ _ B5) (by_shape _ _ _ _ B5)) as (t' & E6 & Hsame & Hsh & Hun).
  cbn [trie set_trie kv_mem] in Hsame, E6. exists t'.
  assert (Hat : forall q, trie_entry t' q = fill pp (set_next_leaf loc ep) E4 q) by (intros q; rewrite <- (same_but_locks_entry _ _ q Hsame); apply (by_at _ _ _ _ B5)).
  split.
  - unfold split_leaf_publish.
    rewrite (L1 (fun f1 pred2 => _ ← propagate_max_leaf f1; _ ← mark_entry_clean pred2; _ ← release_all_locks; mret SI_OK)).
    unfold propagate_max_leaf. rewrite Hlast. erewrite bind_Ret by exact Ep. unfold mark_entry_clean. rewrite Eclean.
    erewrite bind_Ret by exact E5. erewrite bind_Ret by exact E6. reflexivity.
  - split.
    + apply table_cells. split; [exact Hsh|]. apply (cells_ok_params t5); [apply Hsame|].
      apply (cells_ok_eq t5 (fill pp (set_next_leaf loc ep) E4)); [intros q; now rewrite Hat|apply B5].
    + transitivity t5; [apply B5|apply Hsame].
    + exact Hun.
    + rewrite Hat. apply fill_eq.
    + rewrite Hat, fill_ne by now apply pp_ne. rewrite P2 by (apply (Hnot n pe Hend); now right). exact H3a.
    + intros i z Hz Hi. assert (Hzin : z ∈ P) by (eapply list_elem_of_lookup_2; exact Hz). rewrite Hat, fill_ne by now apply pp_ne.
      destruct (Nat.leb_spec (walk_top P n) i) as [Hle|Hgt].
      * apply (P1 i); [lia|]. apply Hlow; done.
      * rewrite P2 by (apply (Hnot i z Hz); now left). rewrite H3b; [|now apply pp_ne|exact (path_distinct i n z pe Hi Hz Hend)].
        apply (us_at _ _ (path_usable z Hzin)).
    + intros q H1q H2q. rewrite Hat, fill_ne by exact H1q. rewrite P2 by now apply Hoff. apply H3b; [exact H1q|].
      intros ->. apply H2q. exists pe. done.
Qed.
End publish.
