(* ===== verification/SplitKey.v ===== *)
(** * Inserting a new key at a leaf (main.c: create_leaf at a leaf,
    split_leaf)

    [ct_insert] of a key whose place is the leaf of another key, when there
    is room for the new entries: the locks are taken, the path for the
    common part of the keys, the two leaves and the bitmap node are created
    and made reachable, and the table stores the trie with the new leaf. *)

From S2P Require Import Prelude Bits Entry KeyObject State Hashing Symbols Random Atomics Table Contents Store Locks Cells Search Relocate AddEntry Scalar Finger Insert Iter Api Alloc Lookup Preserve Order Linked Spine Sample IterSpec Place Frame Dictionary InsertSpec Fields Nodes TreeInsert SplitPath Growth NewLeaf Inserted LeafTable Upgrade Locked Writes PathLocks Room SplitNodes SplitLeaf SplitPublish.
From stdpp Require Import base list gmap sorting.
From Stdlib Require Import ZArith Lia Bool.

#[local] Open Scope Z_scope.

(** ** Hashes do not depend on the locks *)

Lemma hashes_down_params s s' h l n : same_params (trie s) (trie s') -> hashes_down s' h l n = hashes_down s h l n.
Proof. intros Hp. induction n as [|n IH]; [done|]. cbn [hashes_down]. rewrite IH. unfold path_hash. now rewrite (accumulate_list_params _ _ Hp). Qed.

(** ** The hashes of the new entries *)

(** A leaf with the key [osym] at depth [k], under hash [h], is split for the
    key [sym]: the maximal leaf, the nodes of the path from the bottom up and
    the minimal leaf. *)
Definition split_hashes (s : state) (osym sym : Z -> Z) (k h : Z) : list Z :=
  let l := shared SPLIT_ROUNDS osym sym k in
  let es := osym (k + Z.of_nat (length l)) in
  let ns := sym (k + Z.of_nat (length l)) in
  let hb := accumulate_list (trie s) h l in
  accumulate_hash (trie s) hb (if es <? ns then ns else es) ::
    hashes_down s h l (jump_count (length l)) ++ [accumulate_hash (trie s) hb (if es <? ns then es else ns)].

Section leaf.
Context `{BucketLaws} `{env : Env}.
Variables (s : state) (n0 : tnode) (L0 : list leaf_ref).
Hypothesis s_rep : ordered_rep s n0 L0.
Hypothesis s_unlocked : unlocked (trie s).
Hypothesis s_locks : lock_mgr s = [].
Hypothesis s_owned : owned (trie s).
Hypothesis garbage_ok : entry_ok garbage_entry.

Variables (kv : Z) (o : ct_kv).
Hypothesis kv_at : kv_mem s !! kv = Some o.
Hypothesis o_ok : kv_ok o.
Hypothesis o_short : key_size o <= 255.
Hypothesis canonical : canonical_address kv.

Let sym : Z -> Z := symbol_at (kv_key o).

(** The finger is at the leaf of the object [oe]. *)
Variables (f : ct_finger) (lb : option nat) (old h c : Z) (d : nat) (L B A : list leaf_ref) (pre : list Z) (pe : ct_path_entry) (oe : ct_kv).
Let k : Z := Z.of_nat (length pre).
Hypothesis reached : goto_at s n0 L0 (kv_key o) f lb k (TLeaf old) h c d L B A pre pe.
Hypothesis at_place : tplace n0 sym 0 = at_leaf old k.
Hypothesis other_key : absent (kv_mem s) o (at_leaf old k).
Hypothesis oe_at : kv_mem s !! old = Some oe.

Let t : cuckoo_trie := trie s.
Let P : list ct_path_entry := path f.
Let n : nat := last_path_entry f.
Let leaf : ct_entry := pe_value pe.
Let osym : Z -> Z := kv_symbol (kv_mem s) old.
Let l : list Z := shared SPLIT_ROUNDS osym sym k.
Let m : nat := jump_count (length l).
Let es : Z := osym (k + Z.of_nat (length l)).
Let ns : Z := sym (k + Z.of_nat (length l)).
Let s1 : Z := if es <? ns then es else ns.
Let s2 : Z := if es <? ns then ns else es.
Let kv1 : Z := if es <? ns then old else kv.
Let kv2 : Z := if es <? ns then kv else old.
Let hb : Z := accumulate_list t h l.
Let minh : Z := accumulate_hash t hb s1.
Let maxh : Z := accumulate_hash t hb s2.

Hypothesis has_room : rooms t [] (split_hashes s osym sym k h) = true.

(** ** The two keys *)

Lemma the_table : table_ok t.
Proof. exact (rep_table s n0 L0 s_rep). Qed.

Lemma existing : kv_ok oe /\ osym = symbol_at (kv_key oe) /\ kv_key oe <> kv_key o /\
  (forall i, 0 <= i < k -> symbol_at (kv_key oe) i = sym i) /\ bytes_ok (kv_key oe) /\ bytes_ok (kv_key o).
Proof.
  pose proof (ga_ok _ _ _ _ _ _ _ _ _ _ _ _ _ _ _ _ reached) as Hok. cbn [trie_ok] in Hok.
  pose proof (ga_on_path _ _ _ _ _ _ _ _ _ _ _ _ _ _ _ _ reached) as Hon.
  destruct (leaf_differs (kv_mem s) o pre old Hok Hon other_key) as (o1 & E1 & E2 & E3 & E4 & E5). rewrite oe_at in E1. injection E1 as <-.
  destruct Hok as (o2 & E6 & E7 & _). rewrite oe_at in E6. injection E6 as <-. do 5 (split; [done|]). now apply kv_key_bytes_ok.
Qed.

Lemma key_symbols : num_symbols (Z.of_nat (length (kv_key o))) <= 408.
Proof. exact (proj2 (key_facts o o_ok o_short)). Qed.

Lemma depth_bound : 0 <= k <= 408.
Proof.
  pose proof key_symbols as Hn. destruct existing as (_ & _ & Hne & Heq & Hb1 & Hb2).
  destruct (ga_bound _ _ _ _ _ _ _ _ _ _ _ _ _ _ _ _ reached) as [Hk|[Hk _]]; [lia|]. exfalso. apply Hne.
  pose proof (num_symbols_nonneg (kv_key o)) as Hn0.
  apply (end_equal_keys (kv_key oe) (kv_key o) (num_symbols (Z.of_nat (length (kv_key o))))); [done|done|lia|apply symbol_end_iff; lia|].
  intros j Hj. apply Heq. lia.
Qed.

Lemma common_part : Forall (fun x => 1 <= x <= 32) l /\ k + Z.of_nat (length l) <= 408 /\ es <> ns /\ 0 <= es <= 32 /\ 0 <= ns <= 32.
Proof.
  destruct existing as (_ & Eo & Hne & Heq & Hb1 & Hb2). pose proof key_symbols as Hn. pose proof depth_bound as Hk. unfold es, ns, l, sym. rewrite Eo.
  split; [exact (shared_symbols (kv_key oe) (kv_key o) Hb1 Hb2 k ltac:(lia) Heq Hne)|].
  split; [exact (shared_bound (kv_key oe) (kv_key o) Hb1 Hb2 Hn k ltac:(lia) Heq Hne ltac:(lia))|].
  split; [exact (shared_differ (kv_key oe) (kv_key o) Hb1 Hb2 Hn k ltac:(lia) Heq Hne)|]. split; apply symbol_range.
Qed.

(** The comparison of the keys is that of the symbols. *)
Lemma compare_symbols : (kv_key_compare oe o =? 0) = false /\ (kv_key_compare oe o <? 0) = (es <? ns).
Proof.
  destruct existing as (Hok & Eo & Hne & Heq & Hb1 & Hb2). destruct common_part as (_ & Hk & Hd & _). pose proof depth_bound as Hk0.
  assert (Hbef : forall i, 0 <= i < k + Z.of_nat (length l) -> symbol_at (kv_key oe) i = sym i).
  { intros i Hi. apply (shared_equal (kv_key oe) (kv_key o) k Heq). unfold l, sym in Hi. rewrite Eo in Hi. exact Hi. }
  rewrite (kv_key_compare_eq _ _ o_ok). pose proof (kv_key_compare_to_spec oe (kv_key o) Hok) as E.
  specialize (E ltac:(rewrite (length_kv_key o o_ok); lia)). set (r := kv_key_compare_to _ _ _) in *.
  unfold es, ns in Hd |- *. rewrite Eo in Hd |- *. set (k' := k + Z.of_nat (length l)) in *.
  destruct (Z.ltb_spec (symbol_at (kv_key oe) k') (sym k')) as [Hlt|Hge].
  - rewrite (symbol_lt_key_lt (kv_key oe) (kv_key o) k' Hb1 Hb2) in E; [|lia|exact Hbef|exact Hlt]. cbn in E. lia.
  - assert (Hgt : key_compare (kv_key o) (kv_key oe) = Lt).
    { apply (symbol_lt_key_lt (kv_key o) (kv_key oe) k'); [done|done|lia| |unfold sym in *; lia]. intros j Hj. symmetry. now apply Hbef. }
    rewrite key_compare_antisym, Hgt in E. cbn in E. lia.
Qed.

(** ** Creating the entries *)

Lemma end_of_path : at_node t pe h c /\ lc_value (containing_entry f) = leaf /\ containing_entry f = pe_entry pe /\ pe ∈ P /\
  entry_type leaf = TYPE_LEAF /\ entry_kv leaf = old /\ entry_color leaf = c /\ entry_ok leaf /\ hash_ok t h /\ 0 <= c <= MAX_VALID_COLOR.
Proof.
  destruct (goto_holds _ _ _ _ _ _ _ _ _ _ _ _ _ _ _ _ reached) as (Ha & (_ & (_ & Ty & Hk & _)) & _).
  pose proof (ga_entry _ _ _ _ _ _ _ _ _ _ _ _ _ _ _ _ reached) as Ee. pose proof (an_holds _ _ _ _ Ha) as Hh.
  destruct (holds_ok _ the_table _ _ _ Hh) as (H1 & H2 & H3). destruct Hh as (_ & _ & _ & Hkey).
  split; [exact Ha|]. split; [now rewrite Ee|]. split; [exact Ee|].
  split; [apply last_Some_elem_of, (ga_last _ _ _ _ _ _ _ _ _ _ _ _ _ _ _ _ reached)|].
  do 2 (split; [done|]). split; [exact (f_equal snd Hkey)|]. done.
Qed.

Lemma finger_facts : prefix_hash f = h /\ prefix_len f = k /\ 0 <= last_prefix_symbol f <= 32 /\
  (n = 0%nat \/ last_prefix_symbol f = last_symbol leaf).
Proof.
  pose proof (ga_finger _ _ _ _ _ _ _ _ _ _ _ _ _ _ _ _ reached) as Hf. pose proof (ga_depth _ _ _ _ _ _ _ _ _ _ _ _ _ _ _ _ reached) as Hd.
  pose proof (ga_jump _ _ _ _ _ _ _ _ _ _ _ _ _ _ _ _ reached) as E0. cbn in E0. split; [|split; [|split]].
  - rewrite (fa_hash _ _ _ _ _ _ _ _ Hf). destruct (fa_start _ _ _ _ _ _ _ _ Hf) as (j & Ej & ->). f_equal. lia.
  - apply Hf.
  - apply Hf.
  - destruct (leaf_parent _ _ _ (kv_mem s) _ _ _ _ _ _ _ _ (ga_spine _ _ _ _ _ _ _ _ _ _ _ _ _ _ _ _ reached) (tr_ok _ _ (or_rep _ _ _ s_rep))
      (ga_last _ _ _ _ _ _ _ _ _ _ _ _ _ _ _ _ reached)) as [(EP & _)|(P0 & pe0 & f0 & g & h0 & c0 & L1 & B0 & pre0 & sy & _ & _ & _ & _ & _ & Hlast & _ & Epre)].
    + left. unfold n, last_path_entry. now rewrite EP.
    + right. rewrite (fa_symbol _ _ _ _ _ _ _ _ Hf) by (unfold k; rewrite Epre, length_app; cbn; lia). unfold leaf. rewrite Hlast.
      symmetry. rewrite (ga_on_path _ _ _ _ _ _ _ _ _ _ _ _ _ _ _ _ reached (length pre0) sy).
      * f_equal. unfold k. rewrite Epre, length_app. cbn [length]. lia.
      * rewrite Epre, lookup_app_r, Nat.sub_diag by lia. reflexivity.
Qed.

Section created.
Variables (s3 : state) (pred : ct_entry_local_copy).
Hypothesis taken : leaf_locked s f B pe s3 pred.

Lemma same3 : same_but_locks t (trie s3).
Proof. exact (lg_table _ _ _ (ll_locking _ _ _ _ _ _ taken)). Qed.

Lemma params3 : same_params t (trie s3).
Proof. exact (locked_params _ _ same3). Qed.

Lemma locked_table_ok : table_ok (trie s3).
Proof. exact (locked_table _ _ the_table (lg_shape _ _ _ (ll_locking _ _ _ _ _ _ taken)) same3). Qed.

Lemma path_phase : exists nodes, split_leaf_path f oe o s3 = Ret (nodes, hb, es, ns) s3 /\
  path_made (trie s3) (last_prefix_symbol f) h l leaf nodes.
Proof.
  destruct existing as (Hoe & Eo & _). destruct common_part as (Hl & Hk & Hd & _). pose proof depth_bound as Hk0.
  destruct end_of_path as (_ & Ev & _ & _ & Ty & _ & _ & Hok & _). destruct finger_facts as (F1 & F2 & F3 & _).
  pose proof (split_leaf_path_spec (trie s3) (last_prefix_symbol f) h k garbage_ok oe o Hoe o_ok ltac:(lia) s3 f l eq_refl F1 F2 eq_refl F3) as G.
  rewrite Ev in G. unfold hb, es, ns, t. rewrite Eo, <- (accumulate_list_params _ _ params3). apply G; clear G.
  - exact Hok.
  - now apply leaf_used.
  - lia.
  - exact Hl.
  - intros i x Hx. unfold l in Hx. rewrite Eo in Hx. exact (shared_spec _ _ _ _ _ _ Hx).
  - unfold es, ns in Hd. rewrite Eo in Hd. exact Hd.
Qed.

Lemma lock_space : Z.of_nat (length (lock_mgr s3) + m + 2) <= MAX_LOCKS.
Proof.
  pose proof (ll_count _ _ _ _ _ _ taken) as Hc. destruct common_part as (_ & Hk & _). pose proof (jump_count_spec (length l)) as Hj.
  destruct (leaf_path_size s n0 L0 (kv_key o) f lb k old h c d L B A pre pe reached) as (H1 & H2 & H3).
  change MAX_LOCKS with 413. fold m in Hj. lia.
Qed.

(** What [create_steps] gives, in terms of the table before. *)
Lemma entries_created nodes : path_made (trie s3) (last_prefix_symbol f) h l leaf nodes -> exists p1 p2 xm x1 x2 sa sb sc sd se nodes2 w newp eb eh loc xp,
  add_entry maxh (max_leaf_content s2) None true s3 = Ret (SI_OK, Some (p2, xm)) sa /\ get_entry p2 sa = Ret xm sa /\
  loc = mk_locator (hash_to_bucket maxh) (hash_to_tag maxh) (entry_color xm) /\
  put_entry p2 (set_next_leaf (next_leaf leaf) (entry_set_kv kv2 xm)) sa = Ret tt sb /\
  (let nodes1 := map (fun '(e, h) => (set_max_leaf loc e, h)) (update_last (fork s1 s2) nodes) in
   add_path_nodes (length nodes1 - 1) nodes1 0 sb = Ret (SI_OK, nodes2, w) sc) /\
  last nodes2 = Some (eb, hb) /\ nodes2 !! 0%nat = Some (eh, h) /\ get_entry p2 sc = Ret xp sc /\
  put_entry p2 (entry_set_parent_color (entry_color eb) xp) sc = Ret tt sd /\
  add_entry minh (min_leaf_content (entry_color eb) s1 kv1 loc) (Some p2) true sd = Ret (SI_OK, Some (p1, x1)) se /\
  all_created s3 (last_prefix_symbol f) h s1 s2 kv1 kv2 l leaf loc p1 p2 x1 x2 eb eh newp se.
Proof.
  intros Hpm. destruct common_part as (Hl & Hk & Hd & He & Hn). pose proof depth_bound as Hk0.
  destruct end_of_path as (_ & Ev & _ & _ & Ty & Ekv & Ec & Hok & Hh & Hc).
  pose proof (entry_kv_canonical leaf Hok) as Hcan. rewrite Ekv in Hcan.
  destruct (leaf_path_size s n0 L0 (kv_key o) f lb k old h c d L B A pre pe reached) as (Z1 & Z2 & Z3).
  pose proof (create_steps s3 (3 + Z.of_nat n) (last_prefix_symbol f) h s1 s2 kv1 kv2 l leaf nodes locked_table_ok
    (lg_locks _ _ _ (ll_locking _ _ _ _ _ _ taken))) as G.
  rewrite !(accumulate_list_params _ _ params3), !(accumulate_hash_params _ _ params3) in G. apply G; clear G.
  - unfold n in *. lia.
  - exact garbage_ok.
  - unfold hash_ok. rewrite (same_params_eq _ _ params3). exact Hh.
  - unfold s1, s2. destruct (es <? ns); lia.
  - unfold kv1, kv2. destruct (es <? ns); done.
  - exact Hl.
  - lia.
  - exact Hok.
  - now rewrite Ec.
  - exact Hpm.
  - exact lock_space.
  - rewrite (rooms_locks _ _ _ same3). rewrite (hashes_down_params s s3 _ _ _ params3). exact has_room.
Qed.

(** ** Making them reachable *)

Section made.
Variables (p1 p2 : pos) (x1 x2 eb eh : ct_entry) (newp : list pos) (loc : ct_entry_locator) (se : state).
Hypothesis created : all_created s3 (last_prefix_symbol f) h s1 s2 kv1 kv2 l leaf loc p1 p2 x1 x2 eb eh newp se.

Let pp : pos := last_pos pred.
Let ep : ct_entry := lc_value pred.

Lemma no_leaf_twice x : last B = Some x -> (lr_hash x, lr_color x) <> (h, c).
Proof.
  intros Hx E. pose proof (ga_spine _ _ _ _ _ _ _ _ _ _ _ _ _ _ _ _ reached) as Hs. destruct (spine_leaves _ _ _ _ _ _ _ _ _ _ Hs) as (A' & EL).
  pose proof (linked_nodup t (kv_mem s) n0 _ _ L0 [] (or_linked _ _ _ s_rep) (tr_ok _ _ (or_rep _ _ _ s_rep))) as Hnd.
  destruct (goto_holds _ _ _ _ _ _ _ _ _ _ _ _ _ _ _ _ reached) as (_ & (EL1 & Hle) & _). rewrite EL1 in EL.
  assert (Hin : x ∈ L0) by (rewrite EL; apply elem_of_app; left; now apply last_Some_elem_of).
  destruct (linked_leaf _ _ _ _ _ x (or_linked _ _ _ s_rep) Hin) as (e & ((q & Hq) & _ & Hk & _)). rewrite E in Hq.
  destruct Hle as ((q' & Hq') & _ & Hk' & _). destruct (holds_entry _ _ _ _ _ _ the_table Hq Hq') as [_ ->]. cbn [lr_kv] in Hk'.
  rewrite Hk in Hk'. destruct x as [hx cx kx]. cbn in E, Hk'. injection E as -> ->. subst kx.
  rewrite EL in Hnd. apply NoDup_app in Hnd as (_ & Hd & _). apply (Hd (mk_leaf_ref h c old)); [now apply last_Some_elem_of|apply list_elem_of_here].
Qed.

Lemma pred_facts_at : pred_entry s P s3 B pred.
Proof.
  apply (pred_entry_known s n0 L0 s_rep P (TLeaf old) h c L B pre (ga_spine _ _ _ _ _ _ _ _ _ _ _ _ _ _ _ _ reached)
    _ s3 B pred (ll_locking _ _ _ _ _ _ taken) (proj2 (ll_pred _ _ _ _ _ _ taken))). intros _. exact no_leaf_twice.
Qed.

Lemma made_facts : exists N seen, making s3 N seen newp se.
Proof. destruct (al_making _ _ _ _ _ _ _ _ _ _ _ _ _ _ _ _ _ _ created) as (N & seen & _ & HM & _). eauto. Qed.

Lemma params_e : same_params t (trie se).
Proof. destruct made_facts as (N & seen & HM). transitivity (trie s3); [exact params3|apply HM]. Qed.

Lemma used_apart q e : trie_entry t q = Some e -> used e = true -> q ∉ newp.
Proof.
  intros He Hu. destruct made_facts as (N & seen & HM). apply (making_apart _ _ _ _ _ q e HM); [|exact Hu].
  now rewrite <- (same_but_locks_entry _ _ _ same3).
Qed.

Lemma node_apart z : z ∈ P -> last_pos (pe_entry z) ∉ newp.
Proof.
  intros Hz. destruct (on_path_at s n0 L0 s_rep P _ _ _ _ _ _ (ga_spine _ _ _ _ _ _ _ _ _ _ _ _ _ _ _ _ reached) z Hz) as (hm & cm & Ha & _).
  destruct (an_holds _ _ _ _ Ha) as (_ & He & Hu & _). exact (used_apart _ _ He Hu).
Qed.

Lemma pred_apart : pp ∉ newp.
Proof. destruct pred_facts_at as [H1 H2 _ _ _ _]. exact (used_apart _ _ H1 H2). Qed.

(** The head has the header of the leaf. *)
Lemma head_facts : entry_ok eh /\ same_tags leaf eh /\ entry_parent_color eh = entry_parent_color leaf /\ max_leaf eh = loc /\
  (n = 0%nat \/ last_symbol eh = last_symbol leaf) /\
  if decide (m = 0%nat) then fork_fields (last_prefix_symbol f) s1 s2 eh else jump_fields (last_prefix_symbol f) (piece 0 l) eh.
Proof.
  pose proof (al_head _ _ _ _ _ _ _ _ _ _ _ _ _ _ _ _ _ _ created) as Hn. destruct (path_node_ok _ _ _ _ _ _ _ _ Hn) as [Hok _].
  destruct Hn as [(y & Hy & Hf) Hm Hh]. unfold node_header in Hh. rewrite decide_True in Hh by done. destruct Hh as (Ht & _ & Hpc).
  specialize (Hy eq_refl) as ->. fold m in Hf. do 4 (split; [done|]).
  assert (Hsym : last_symbol eh = last_prefix_symbol f /\ if decide (m = 0%nat) then fork_fields (last_prefix_symbol f) s1 s2 eh else jump_fields (last_prefix_symbol f) (piece 0 l) eh).
  { destruct (decide (m = 0%nat)) as [E0|Hne]; [rewrite decide_False in Hf by lia|rewrite decide_True in Hf by lia]; (split; [apply Hf|exact Hf]). }
  destruct Hsym as [-> Hff]. split; [|exact Hff]. apply finger_facts.
Qed.

Lemma publish_phase : exists t', split_leaf_publish f pred eh minh (entry_color x1) se = Ret SI_OK (mk_state t' [] (kv_mem s)) /\
  split_published se f pe pred eh minh (entry_color x1) t'.
Proof.
  destruct made_facts as (N & seen & HM). destruct pred_facts_at as [F1 F2 F3 F4 F5 F6]. destruct head_facts as (G1 & G2 & _ & _ & G4 & _).
  pose proof (ga_spine _ _ _ _ _ _ _ _ _ _ _ _ _ _ _ _ reached) as Hs. destruct end_of_path as (_ & _ & _ & Hpe & _).
  assert (Hmem : kv_mem s = kv_mem se) by (rewrite (mg_mem _ _ _ _ _ HM); symmetry; apply (ll_locking _ _ _ _ _ _ taken)). rewrite Hmem.
  apply (split_publish_spec N).
  - exact (making_busy _ _ _ _ _ HM).
  - apply (ga_last _ _ _ _ _ _ _ _ _ _ _ _ _ _ _ _ reached).
  - exact G1.
  - exact G2.
  - exact G4.
  - apply (mg_usable _ _ _ _ _ HM); [exact F5|exact pred_apart].
  - apply (mg_held _ _ _ _ _ HM), taken.
  - exact F3.
  - intros z Hz. apply (mg_usable _ _ _ _ _ HM); [|now apply node_apart].
    exact (node_usable s n0 L0 s_rep P _ _ _ _ _ _ Hs _ s3 (ll_locking _ _ _ _ _ _ taken) z Hz).
  - apply (mg_held _ _ _ _ _ HM), taken.
  - intros i z Hi Hz. apply (mg_held _ _ _ _ _ HM). exact (ll_parents _ _ _ _ _ _ taken i z Hi Hz).
  - exact (spine_distinct _ _ _ _ _ _ _ _ _ _ the_table Hs).
  - exact F4.
Qed.

Section published.
Variable t' : cuckoo_trie.
Hypothesis published : split_published se f pe pred eh minh (entry_color x1) t'.

Lemma params_after : same_params t t'.
Proof. transitivity (trie se); [exact params_e|apply published]. Qed.

(** The new entries stay where they are. *)
Lemma new_kept q k0 e : q ∈ newp -> holds (trie se) q k0 e -> holds t' q k0 e.
Proof.
  intros Hq (H1 & H2 & H3 & H4). pose proof (sp_params _ _ _ _ _ _ _ _ published) as Hp. split; [now rewrite <- Hp|].
  split; [|split; [exact H3|now rewrite <- Hp]]. rewrite (sp_rest _ _ _ _ _ _ _ _ published); [exact H2| |].
  - intros ->. now apply pred_apart.
  - intros (z & Hz & ->). now apply (node_apart z).
Qed.

Lemma head_holds : holds t' (last_pos (pe_entry pe)) (h, c) eh.
Proof.
  destruct end_of_path as (Ha & _). destruct (an_holds _ _ _ _ Ha) as (H1 & H2 & H3 & H4). destruct head_facts as (_ & G2 & _).
  destruct (same_tags_key t (last_pos (pe_entry pe)) _ _ G2) as (K & _). split; [now rewrite <- params_after|].
  split; [apply published|]. split; [now rewrite (sg_used _ _ G2)|]. rewrite <- params_after. fold leaf in H4. exact (eq_trans K H4).
Qed.

Lemma node_chain_jumps S ml cs hb0 cb0 : forall h0 c0,
  node_chain t' S ml cs h0 c0 hb0 cb0 -> jump_nodes t' ml cs h0 c0 hb0 cb0.
Proof.
  induction cs as [|syms cs IH]; intros h0 c0 Hc; [exact Hc|]. destruct Hc as (q & e & y & _ & H2 & [J1 J2 J3 J4 J5 J6] & H4 & H5).
  exists q, e. do 5 (split; [done|]). now apply IH.
Qed.

Lemma jumps_after : jump_nodes t' loc (chunks (length l) l) h c hb (entry_color eb) /\
  exists pb, holds t' pb (hb, entry_color eb) eb /\ (exists y, fork_fields y s1 s2 eb) /\ max_leaf eb = loc /\ (pb ∈ newp \/ pb = last_pos (pe_entry pe)).
Proof.
  pose proof (al_below _ _ _ _ _ _ _ _ _ _ _ _ _ _ _ _ _ _ created) as Hb. fold m in Hb. destruct head_facts as (_ & G2 & _ & G3 & _ & Hf).
  pose proof head_holds as Hh. pose proof (jump_count_spec (length l)) as Hj. fold m in Hj.
  destruct end_of_path as (_ & _ & _ & _ & _ & _ & Ec & _).
  destruct (decide (m = 0%nat)) as [E0|Hne].
  - subst eb. assert (El : l = []) by (apply length_zero_iff_nil; lia).
    assert (Ecol : entry_color eh = c) by (rewrite (sg_color _ _ G2); exact Ec).
    assert (Ehb : hb = h) by (unfold hb; now rewrite El). rewrite Ehb, Ecol, El. split; [done|].
    exists (last_pos (pe_entry pe)). split; [exact Hh|]. split; [eauto|]. split; [exact G3|now right].
  - destruct Hb as (qb & B1 & B2 & B3 & B4 & B5). rewrite (accumulate_list_params _ _ params3) in B2, B5. fold hb in B2, B5. split.
    + change (chunks (length l) l) with (pieces (drop (8 * 0) l)). rewrite pieces_drop by lia. cbn [jump_nodes].
      exists (last_pos (pe_entry pe)), eh. destruct Hf as [J1 J2 J3 J4 J5 J6]. do 5 (split; [done|]).
      assert (Ep : accumulate_list t' h (piece 0 l) = path_hash s3 h l 1).
      { rewrite (accumulate_list_params _ _ params_after). unfold path_hash. now rewrite (accumulate_list_params _ _ params3). }
      rewrite Ep. change (8 * 1)%nat with 8%nat. apply (node_chain_jumps (fun _ => True)).
      apply (node_chain_kept (trie se) t' (fun q => q ∈ newp)); [apply published| |exact B5]. intros q k0 e Hq He. split; [done|]. now apply new_kept.
    + exists qb. split; [now apply new_kept|]. split; [exact B3|]. split; [exact B4|now left].
Qed.

(** The cells of the new table, as [LeafTable] lists them. *)
Lemma split_cells : exists pb,
  leaf_split s kv o P old h c B pre pe t' newp p1 p2 pb pp x1 x2 eb eh ep hb (entry_color eb) (entry_color x1) (entry_color x2).
Proof.
  destruct jumps_after as (J1 & pb & J2 & (y & [J3 J4 J5 J6 J7]) & J8 & J9). exists pb. destruct made_facts as (N & seen & HM).
  destruct (al_loc _ _ _ _ _ _ _ _ _ _ _ _ _ _ _ _ _ _ created) as [Eloc _].
  destruct (al_min _ _ _ _ _ _ _ _ _ _ _ _ _ _ _ _ _ _ created) as (M1 & M2 & M3 & M4).
  destruct (al_max _ _ _ _ _ _ _ _ _ _ _ _ _ _ _ _ _ _ created) as (X1 & X2 & X3 & X4).
  rewrite (accumulate_list_params _ _ params3) in Eloc, M2, X2. rewrite (accumulate_hash_params _ _ params3) in Eloc, M2, X2.
  destruct pred_facts_at as [F1 F2 F3 F4 F5 F6]. destruct head_facts as (G1 & G2 & G3 & G4 & G5 & _).
  destruct leaf_path_size with (1 := reached) as (_ & _ & En). split.
  - intros q e Hq He. apply (mg_free _ _ _ _ _ HM q e Hq). now rewrite <- (same_but_locks_entry _ _ _ same3).
  - split; [exact M1|]. split; [exact (new_kept _ _ _ M1 M2)|]. split; [exact M3|]. rewrite M4. exact Eloc.
  - split; [exact X1|]. split; [exact (new_kept _ _ _ X1 X2)|]. split; [exact X3|]. exact X4.
  - intros q e Hq H1 H2 He. rewrite (sp_rest _ _ _ _ _ _ _ _ published) in He.
    + exact (al_others _ _ _ _ _ _ _ _ _ _ _ _ _ _ _ _ _ _ created q e Hq H1 H2 He).
    + intros ->. now apply pred_apart.
    + intros (z & Hz & ->). now apply (node_apart z).
  - split; [exact head_holds|]. split; [|exact G3]. destruct G5 as [E0|E]; [right|now left].
    destruct end_of_path as (Ha & _). destruct leaf_parent with (1 := ga_spine _ _ _ _ _ _ _ _ _ _ _ _ _ _ _ _ reached) (2 := tr_ok _ _ (or_rep _ _ _ s_rep)) (3 := ga_last _ _ _ _ _ _ _ _ _ _ _ _ _ _ _ _ reached)
      as [(_ & _ & _ & -> & ->)|(P0 & pe0 & f0 & g & h0 & c0 & L1 & B0 & pre0 & sy & EP & Hs0 & _)].
    + exact (ow_root _ s_owned _ _ (an_holds _ _ _ _ Ha)).
    + exfalso. pose proof (spine_length _ _ _ _ _ _ _ _ _ _ Hs0). unfold n, last_path_entry in E0. rewrite EP, length_app in E0. cbn in E0. lia.
  - rewrite Eloc in J1. exact J1.
  - split; [exact J2|]. split; [exact J4|]. split; [rewrite J8; exact Eloc|]. split; [exact J7|]. split; [exact J6|exact J9].
  - exact F6.
  - exact F1.
  - exact (sp_pred _ _ _ _ _ _ _ _ published).
  - intros i x Hx Hi. rewrite (sp_path _ _ _ _ _ _ _ _ published i x Hx Hi). rewrite G4, Eloc. done.
  - intros q Hq H1 H2. rewrite (sp_rest _ _ _ _ _ _ _ _ published); [|exact H1|intros (z & Hz & E); exact (H2 z Hz E)].
    rewrite (mg_old _ _ _ _ _ HM q Hq). symmetry. apply (same_but_locks_entry _ _ _ same3).
Qed.
End published.
End made.
End created.

(** ** [split_leaf] *)

(** State [s'] stores the trie with the new leaf of object [kv], and no lock
    is held; the old leaf is at another place in the table. *)
Record key_split (s' : state) : Prop := mk_key_split {
  ks_mem : kv_mem s' = kv_mem s;
  ks_rep : exists X x y1 y2 Y, L0 = X ++ x :: Y /\ lr_kv x = old /\ lr_kv y1 = kv1 /\ lr_kv y2 = kv2 /\
    ordered_rep s' (tinsert (kv_mem s) n0 sym 0 kv) (X ++ y1 :: y2 :: Y);
  ks_owned : owned (trie s');
  ks_locks : unlocked (trie s') /\ lock_mgr s' = [];
}.

Lemma create_leaf_at_leaf_spec : exists s', create_leaf_at_leaf f kv s = Ret SI_OK s' /\ key_split s'.
Proof.
  pose proof depth_bound as Hk0. destruct (leaf_lock_phase s n0 L0 s_rep s_unlocked s_locks _ _ _ _ _ _ _ _ _ _ _ _ _ reached Hk0) as (pl & s3 & pred & E1 & E2 & HT).
  destruct (path_phase s3 pred HT) as (nodes & E3 & Hpm).
  destruct (entries_created s3 pred HT nodes Hpm) as (p1 & p2 & xm & x1 & x2 & sa & sb & sc & sd & se & nodes2 & w & newp & eb & eh & loc & xp &
    C1 & C2 & C3 & C4 & C5 & C6 & C7 & C8 & C9 & C10 & HC).
  destruct (publish_phase s3 pred HT p1 p2 x1 x2 eb eh newp loc se HC) as (t' & E4 & Hpub).
  destruct (split_cells s3 pred HT p1 p2 x1 x2 eb eh newp loc se HC t' Hpub) as (pb & Hsplit).
  pose proof (ll_locking _ _ _ _ _ _ HT) as HL. destruct compare_symbols as [Ez Elt].
  destruct end_of_path as (_ & Ev & _ & _ & Ty & Ekv & _).
  exists (mk_state t' [] (kv_mem s)). split.
  - unfold create_leaf_at_leaf. erewrite bind_Ret by exact E1. rewrite Ev, Ekv. erewrite bind_Ret by (apply load_kv_eq; exact oe_at).
    erewrite bind_Ret by (apply load_kv_eq; exact kv_at). cbv zeta. rewrite Ez, Elt.
    unfold split_leaf. rewrite Ev, Ekv. cbv zeta. erewrite bind_Ret by exact E2. cbv iota beta.
    erewrite bind_Ret by (apply load_kv_eq; rewrite (lg_mem _ _ _ HL); exact oe_at). erewrite bind_Ret by (apply load_kv_eq; rewrite (lg_mem _ _ _ HL); exact kv_at).
    unfold get_trie. erewrite bind_Ret by reflexivity. erewrite bind_Ret by exact E3. cbv iota beta.
    replace (if es <? ns then (es, ns, old, kv) else (ns, es, kv, old)) with (s1, s2, kv1, kv2) by (unfold s1, s2, kv1, kv2; now destruct (es <? ns)).
    cbv iota beta zeta. rewrite !(accumulate_hash_params _ _ (params3 s3 pred HT)). erewrite bind_Ret by exact C1. cbv iota beta. erewrite bind_Ret by exact C2. erewrite bind_Ret by exact C4.
    rewrite C3 in C5, C10. erewrite bind_Ret by exact C5. cbv iota beta. rewrite bool_decide_true by done. cbn [negb].
    rewrite C6. erewrite bind_Ret by reflexivity. cbv iota beta. erewrite bind_Ret by exact C8. erewrite bind_Ret by exact C9.
    erewrite bind_Ret by exact C10. cbv iota beta. rewrite C7. erewrite bind_Ret by reflexivity. cbv iota beta. exact E4.
  - destruct (split_ordered s n0 L0 s_rep kv o kv_at o_ok o_short P old h c L B pre pe (ga_spine _ _ _ _ _ _ _ _ _ _ _ _ _ _ _ _ reached)
      (ga_last _ _ _ _ _ _ _ _ _ _ _ _ _ _ _ _ reached) (ga_on_path _ _ _ _ _ _ _ _ _ _ _ _ _ _ _ _ reached) at_place other_key s_owned
      t' newp p1 p2 pb _ x1 x2 eb eh _ hb _ _ _ (sp_table _ _ _ _ _ _ _ _ Hpub) (params_after s3 pred HT p1 p2 x1 x2 eb eh newp loc se HC t' Hpub) Hsplit
      (mk_state t' [] (kv_mem s)) eq_refl eq_refl) as (A' & EL & Hrep & How).
    split; [done| |exact How|split; [apply Hpub|done]]. eexists B, _, _, _, A'. split; [exact EL|].
    split; [|split; [|split; [|exact Hrep]]]; reflexivity.
Qed.

Lemma create_leaf_split_spec symbol : exists s', create_leaf f kv symbol s = Ret (SI_OK, f) s' /\ key_split s'.
Proof.
  destruct create_leaf_at_leaf_spec as (s' & E & Hks). exists s'. split; [|exact Hks]. destruct end_of_path as (_ & Ev & _ & _ & Ty & _).
  unfold create_leaf. rewrite Ev, Ty. cbn [Z.eqb TYPE_LEAF TYPE_BITMAP TYPE_JUMP Pos.eqb].
  erewrite bind_Ret by reflexivity. cbv iota beta. rewrite !bool_decide_false by discriminate. rewrite Ev, Ty.
  erewrite bind_Ret by exact E. reflexivity.
Qed.
End leaf.

(** ** [ct_insert] *)

Section insert.
Context `{BucketLaws} `{env : Env}.
Hypothesis ambient_ok : forall a, is_byte (ambient_byte a).
Hypothesis garbage_ok : entry_ok garbage_entry.

Variables (s : state) (n : tnode) (L : list leaf_ref).
Hypothesis s_rep : ordered_rep s n L.
Hypothesis s_owned : owned (trie s).
Hypothesis s_unlocked : unlocked (trie s).

Variables (kv : Z) (o : ct_kv) (old k : Z) (oe : ct_kv).
Hypothesis kv_at : kv_mem s !! kv = Some o.
Hypothesis o_ok : kv_ok o.
Hypothesis o_short : key_size o <= 255.
Hypothesis canonical : canonical_address kv.
Hypothesis oe_at : kv_mem s !! old = Some oe.
Hypothesis other_key : kv_key oe <> kv_key o.

Let sym : Z -> Z := symbol_at (kv_key o).

Hypothesis at_place : tplace n sym 0 = at_leaf old k.
Hypothesis has_room : rooms (trie s) [] (split_hashes s (kv_symbol (kv_mem s) old) sym k (prefix_hash_of (trie s) (kv_key o) (Z.to_nat k))) = true.

(** The old leaf [x] of the list was replaced by two leaves, in the order of
    the keys. *)
Record leaf_replaced (s' : state) (X : list leaf_ref) (x y1 y2 : leaf_ref) (Y : list leaf_ref) : Prop := mk_leaf_replaced {
  lp_before : L = X ++ x :: Y /\ lr_kv x = old;
  lp_kvs : (lr_kv y1, lr_kv y2) = if kv_key_compare oe o <? 0 then (old, kv) else (kv, old);
  lp_rep : ordered_rep s' (tinsert (kv_mem s) n sym 0 kv) (X ++ y1 :: y2 :: Y);
  lp_owned : owned (trie s');
  lp_locks : unlocked (trie s') /\ lock_mgr s' = [];
  lp_mem : kv_mem s' = kv_mem s;
}.

Lemma insert_split_internal is_upsert :
  exists s' X x y1 y2 Y, ct_insert_internal kv is_upsert s = Ret SI_OK s' /\ leaf_replaced s' X x y1 y2 Y.
Proof.
  pose proof (ordered_rep_locks s n L [] s_rep) as Hr'. set (s1 := set_lock_mgr [] s) in *.
  destruct (init_finger_spec s n (kv_key o) (or_rep _ _ _ s_rep)) as (f0 & Ef & Hf & Hpath). fold s1 in Ef.
  destruct (descend_place ambient_ok s1 n L Hr' o o_ok o_short f0 Hf Hpath) as (f & r & Ed & Hend).
  assert (Hmain : exists s' X x y1 y2 Y, create_leaf f kv (from_option id NO_BUCKET64 r) s1 = Ret (SI_OK, f) s' /\ leaf_replaced s' X x y1 y2 Y).
  { destruct Hend as [r lb k' kv' h c d' L' B A pre pe [G _] Hat|lb k' syms child h c d' L' B A pre pe x _ Hp|lb k' fc h c d' L' B A pre pe _ Hp];
      [|fold sym in Hp; congruence|fold sym in Hp; congruence].
    fold sym in Hat. pose proof at_place as Hat'. rewrite Hat in Hat'. injection Hat' as -> ->.
    pose proof (leaf_depth _ _ _ _ _ _ _ _ _ _ _ _ _ _ _ _ G) as Ek.
    assert (Eh : prefix_hash_of (trie s) (kv_key o) (Z.to_nat k) = h).
    { destruct (fa_start _ _ _ _ _ _ _ _ (ga_finger _ _ _ _ _ _ _ _ _ _ _ _ _ _ _ _ G)) as (j & Ej & ->).
      pose proof (ga_jump _ _ _ _ _ _ _ _ _ _ _ _ _ _ _ _ G) as E0. cbn in E0. f_equal. lia. }
    pose proof has_room as Hroom. rewrite Eh in Hroom. rewrite Ek in G, Hroom.
    assert (Hab : absent (kv_mem s1) o (at_leaf old (Z.of_nat (length pre)))) by (intros o' Ho'; change (kv_mem s1) with (kv_mem s) in Ho'; congruence).
    rewrite Ek in Hat.
    destruct (create_leaf_split_spec s1 n L Hr' s_unlocked eq_refl s_owned garbage_ok kv o kv_at o_ok o_short canonical
      f lb old h c d' L' B A pre pe oe G Hat Hab oe_at Hroom (from_option id NO_BUCKET64 r)) as (s' & E & [K1 (X & x & y1 & y2 & Y & K2 & K3 & K4 & K5 & K6) K7 K8]).
    destruct (compare_symbols s1 n L kv o o_ok o_short f lb old h c d' L' B A pre pe oe G Hab oe_at) as [_ Ecmp].
    exists s', X, x, y1, y2, Y. split; [exact E|]. split; try done. rewrite K4, K5, Ecmp. change (kv_mem s1) with (kv_mem s). destruct (_ <? _); reflexivity. }
  destruct Hmain as (s' & X & x & y1 & y2 & Y & Ec & Hk). exists s', X, x, y1, y2, Y. split; [|exact Hk].
  unfold ct_insert_internal. erewrite bind_Ret by (apply load_kv_eq; exact kv_at). erewrite bind_Ret by exact Ef. cbv iota beta.
  erewrite bind_Ret by reflexivity. cbv iota beta. erewrite bind_Ret by exact Ed. cbv iota beta.
  erewrite bind_Ret by exact Ec. cbv iota beta. rewrite andb_comm. reflexivity.
Qed.
End insert.

(** ** The property *)

(** C5. A new key, at the leaf of another key: when the table stores the trie
    [n] with the leaf list [L], the place of the new key is the leaf of an
    object with another key, and the bucket pairs of the new entries have
    room for all of them, [ct_insert] succeeds at the first attempt. The leaf
    is replaced by jump nodes for the symbols that the two keys share and a
    bitmap node with two leaves; in the leaf list the two leaves, in the order
    of their keys, take the place of the old one, and no lock is held. A
    lookup of the key finds the new object, and lookups of all other keys
    find what they found before. *)
Theorem ct_insert_split_leaf `{BucketLaws} `{Env} s n L kv o old k oe :
  ordered_rep s n L -> owned (trie s) -> unlocked (trie s) ->
  kv_mem s !! kv = Some o -> kv_ok o -> key_size o <= 255 -> canonical_address kv ->
  tplace n (symbol_at (kv_key o)) 0 = at_leaf old k -> kv_mem s !! old = Some oe -> kv_key oe <> kv_key o ->
  rooms (trie s) [] (split_hashes s (kv_symbol (kv_mem s) old) (symbol_at (kv_key o)) k
    (prefix_hash_of (trie s) (kv_key o) (Z.to_nat k))) = true ->
  entry_ok garbage_entry -> (forall a, is_byte (ambient_byte a)) -> (0 < retry_fuel)%nat ->
  exists s' X x y1 y2 Y, ct_insert kv s = Ret S_OK s' /\ L = X ++ x :: Y /\ lr_kv x = old /\
    (lr_kv y1, lr_kv y2) = (if kv_key_compare oe o <? 0 then (old, kv) else (kv, old)) /\
    ordered_rep s' (tinsert (kv_mem s) n (symbol_at (kv_key o)) 0 kv) (X ++ y1 :: y2 :: Y) /\
    owned (trie s') /\ unlocked (trie s') /\ lock_mgr s' = [] /\ kv_mem s' = kv_mem s /\
    forall bytes, bytes_ok bytes -> Z.of_nat (length bytes) <= 255 ->
      exists before, ct_lookup bytes s = Ret before (set_lock_mgr [] s) /\
        ct_lookup bytes s' = Ret (if decide (bytes = kv_key o) then Some kv else before) s'.
Proof.
  intros Hr Hown Hun Hkv Ho Hs Hc Hd Hoe Hne Hroom Hg Ha Hf.
  destruct (insert_split_internal Ha Hg s n L Hr Hown Hun kv o old k oe Hkv Ho Hs Hc Hoe Hne Hd Hroom false)
    as (s' & X & x & y1 & y2 & Y & E & [[HL Hx] Hy Hrep Hown' [Hun' Hlm] Hmem]).
  exists s', X, x, y1, y2, Y. split; [exact (ct_insert_created Hf s s' kv o Hkv Ho Hs E)|]. do 8 (split; [done|]). intros bytes Hb Hl.
  apply (lookups_after s s' kv o Hkv Ho Hs n); try done; [exact (or_rep _ _ _ Hr)| |exact (or_rep _ _ _ Hrep)].
  rewrite Hd. intros o' Ho'. congruence.
Qed.

(** ** At a concrete input *)

(** The sample keys are in the trie; a sixth key differs from the longest of
    them in the last byte. *)
Definition sibling_kv : ct_kv := mk_kv 9 0 [1; 2; 3; 4; 5; 6; 7; 8; 10].

Definition five_of_siblings : state :=
  match insert_all 5 (empty_state (sample_keys ++ [[1; 2; 3; 4; 5; 6; 7; 8; 10]])) with Ret _ s => s | _ => empty_state sample_keys end.

Lemma ct_insert_split_leaf_witness :
  exists s' X x y1 y2 Y, @ct_insert scalar_ops sample_env (sample_address 5) five_of_siblings = Ret S_OK s' /\
    state_leaves 40 five_of_siblings = X ++ x :: Y /\ length (state_leaves 40 five_of_siblings) = 5%nat /\
    (lr_kv x, lr_kv y1, lr_kv y2) = (sample_address 3, sample_address 3, sample_address 5) /\
    ordered_rep s' (tinsert (kv_mem five_of_siblings) (state_trie 40 five_of_siblings) (symbol_at (kv_key sibling_kv)) 0 (sample_address 5)) (X ++ y1 :: y2 :: Y) /\
    @ct_lookup scalar_ops sample_env [1; 2; 3; 4; 5; 6; 7; 8; 10] s' = Ret (Some (sample_address 5)) s' /\
    @ct_lookup scalar_ops sample_env [1; 2; 3; 4; 5; 6; 7; 8; 9] s' = Ret (Some (sample_address 3)) s'.
Proof.
  assert (Hrep : ordered_rep five_of_siblings (state_trie 40 five_of_siblings) (state_leaves 40 five_of_siblings)).
  { apply ordered_rep_okb_ok. vm_compute. reflexivity. }
  destruct (@ct_insert_split_leaf scalar_ops scalar_laws sample_env five_of_siblings (state_trie 40 five_of_siblings) (state_leaves 40 five_of_siblings)
    (sample_address 5) sibling_kv (sample_address 3) 6 (mk_kv 9 0 [1; 2; 3; 4; 5; 6; 7; 8; 9])) as (s' & X & x & y1 & y2 & Y & E & HL & Hx & Hy & Hr' & _ & _ & _ & _ & Hlook).
  - exact Hrep.
  - apply ownedb_ok; [exact (tr_table _ _ (or_rep _ _ _ Hrep))|]. vm_compute. reflexivity.
  - apply unlocked_check. vm_compute. reflexivity.
  - vm_compute. reflexivity.
  - repeat split; try discriminate; try reflexivity. apply bytes_ok_check. reflexivity.
  - discriminate.
  - left. split; [discriminate|reflexivity].
  - vm_compute. reflexivity.
  - vm_compute. reflexivity.
  - discriminate.
  - vm_compute. reflexivity.
  - apply entry_ok_check. reflexivity.
  - exact sample_ambient.
  - cbn. lia.
  - exists s', X, x, y1, y2, Y. split; [exact E|]. split; [exact HL|]. split; [vm_compute; reflexivity|]. split; [|split; [exact Hr'|split]].
    + change (kv_key_compare _ _ <? 0) with true in Hy. cbv iota in Hy. injection Hy as -> ->. now rewrite Hx.
    + destruct (Hlook [1; 2; 3; 4; 5; 6; 7; 8; 10]) as (r & _ & ->); [apply bytes_ok_check; reflexivity|discriminate|]. now rewrite decide_True.
    + destruct (Hlook [1; 2; 3; 4; 5; 6; 7; 8; 9]) as (r & Er & ->); [apply bytes_ok_check; reflexivity|discriminate|]. rewrite decide_False by done.
      enough (@ct_lookup scalar_ops sample_env [1; 2; 3; 4; 5; 6; 7; 8; 9] five_of_siblings = Ret (Some (sample_address 3)) (set_lock_mgr [] five_of_siblings)) as E2; [congruence|].
      vm_compute. reflexivity.
Defined.
