(* ===== verification/SplitJump.v ===== *)
(** * Splitting a jump node (main.c: split_jump_node)

    The steps of [split_jump_node] when the bucket pairs of the new nodes have
    unused cells: the locks, the bitmap node, its child, and the head. *)

From S2P Require Import Prelude Bits Entry KeyObject State Hashing Symbols Atomics Table Contents Store Locks Cells Search Relocate AddEntry Finger Insert Iter Api Lookup Preserve Order Linked Spine IterSpec Place Frame Dictionary InsertSpec Fields Nodes TreeInsert Growth NewLeaf LeafTable Upgrade Locked Writes PathLocks Room JumpTree JumpTable JumpNodes.
From stdpp Require Import base list gmap sorting.
From Stdlib Require Import ZArith Lia Bool.

#[local] Open Scope Z_scope.

(** ** Hashes *)

(** Going on with the symbols of the key. *)
Lemma prefix_hash_list t bytes l : forall j,
  (forall i y, l !! i = Some y -> y = symbol_at bytes (Z.of_nat (j + i))) ->
  accumulate_list t (prefix_hash_of t bytes j) l = prefix_hash_of t bytes (j + length l).
Proof.
  induction l as [|x l IH]; intros j Hl; cbn [accumulate_list fold_left length]; [now rewrite Nat.add_0_r|].
  rewrite (Hl 0%nat x eq_refl), Nat.add_0_r. change (accumulate_hash t (prefix_hash_of t bytes j) (symbol_at bytes (Z.of_nat j))) with (prefix_hash_of t bytes (S j)).
  replace (j + S (length l))%nat with (S j + length l)%nat by lia. apply IH. intros i y Hi. rewrite (Hl (S i) y Hi). do 2 f_equal. lia.
Qed.

(** The hashes of the entries that are added when symbol [d] of a jump node
    becomes a bitmap node of hash [hb]: the bitmap node's, unless the jump
    node turns into it, and the one of the jump node behind it. *)
Definition cut_hashes (t : cuckoo_trie) (hb : Z) (syms : list Z) (d : nat) : list Z :=
  (if (d =? 0)%nat then [] else [hb]) ++
  match drop d syms with x :: _ :: _ => [accumulate_hash t hb x] | _ => [] end.

(** ** The old child *)

(** Another parent color changes nothing else. *)
Lemma recolored_alike e c : entry_ok e -> used e = true -> 0 <= c < 16 ->
  let e' := entry_set_parent_color c e in
  entry_ok e' /\ alike e e' /\ same_tags e e' /\ last_symbol e' = last_symbol e /\ entry_parent_color e' = c.
Proof.
  intros He Hu Hc. cbv zeta. destruct (recolored_flags (parent_color_and_flags e) c (flags_byte e He) Hc) as (R1 & R2 & R3 & R4 & R5).
  assert (H1 : entry_ok (entry_set_parent_color c e)) by now apply set_flags_ok.
  assert (E0 : parent_color_and_flags (entry_set_parent_color c e) =
    (parent_color_and_flags e .& ((1 .<< PARENT_COLOR_SHIFT) - 1)) .| (c .<< PARENT_COLOR_SHIFT)).
  { unfold entry_set_parent_color. rewrite flags_set_flags by done. now apply wrap_small. }
  assert (Eb : forall i, i <> 0%nat -> (i < ENTRY_BYTES)%nat -> byte_at (entry_set_parent_color c e) i = byte_at e i).
  { intros i Hi Hlt. unfold entry_set_parent_color, set_parent_color_and_flags. rewrite byte_at_set_byte by (done || lia). now rewrite decide_False by lia. }
  assert (Ec : color_and_tag (entry_set_parent_color c e) = color_and_tag e) by (apply Eb; entry_lia).
  split; [exact H1|]. split; [split|split; [split|split]]; unfold entry_type, entry_dirty, used, entry_type, entry_is_secondary, entry_tag, entry_color;
    rewrite ?E0, ?Ec, ?R2, ?R3, ?R4; try done.
  - intros _. apply list_eq_same_length with (n := 12%nat); [now apply length_bits_area..|]. intros i y z _ Hy Hz.
    assert (Ey : byte_at (bits_area (entry_set_parent_color c e)) i = y) by (unfold byte_at; now rewrite nth_lookup, Hy).
    assert (Ez : byte_at (bits_area e) i = z) by (unfold byte_at; now rewrite nth_lookup, Hz).
    rewrite <- Ey, <- Ez, !byte_at_bits_area. apply Eb; [lia|]. apply lookup_lt_Some in Hz. rewrite length_bits_area in Hz by done. unfold ENTRY_BYTES. lia.
  - apply entry_kv_ext; [done|done|]. intros i Hi. apply Eb; entry_lia.
  - unfold used, entry_type in Hu. rewrite Hu. discriminate.
  - apply Eb; entry_lia.
  - unfold entry_parent_color. now rewrite E0.
Qed.

(** One jump node. *)
Lemma one_jump_node t ml l h c h' c' p e y : l <> [] -> holds t p (h, c) e -> jump_fields y l e -> max_leaf e = ml ->
  accumulate_list t h l = h' -> entry_child_color e = c' -> jump_nodes t ml (jump_list l) h c h' c'.
Proof.
  intros Hl Hh Hj Hm <- <-. destruct l as [|z l]; [done|]. cbn [jump_list jump_nodes]. exists p, e.
  split; [exact Hh|]. split; [apply Hj|]. split; [apply Hj|]. split; [apply Hj|]. split; [exact Hm|]. split; [reflexivity|done].
Qed.

(** The path [P] with another copy [pe] of its last node. *)
Definition ending (P : list ct_path_entry) (pe : ct_path_entry) : list ct_path_entry := take (length P - 1) P ++ [pe].

Lemma ending_snoc P pe pe1 : ending (P ++ [pe]) pe1 = P ++ [pe1].
Proof. unfold ending. rewrite length_app. cbn [length]. replace (length P + 1 - 1)%nat with (length P) by lia. now rewrite take_app_length. Qed.

Lemma ending_same P pe : last P = Some pe -> ending P pe = P.
Proof. intros (Q & ->)%last_Some. apply ending_snoc. Qed.

Lemma alter_ending (g : ct_path_entry -> ct_path_entry) P pe : last P = Some pe -> alter g (length P - 1)%nat P = ending P (g pe).
Proof.
  intros (Q & ->)%last_Some. rewrite ending_snoc, length_app. cbn [length]. replace (length Q + 1 - 1)%nat with (length Q + 0)%nat by lia.
  now rewrite alter_app_r.
Qed.

(** ** The finger inside the jump node *)

Section jump.
Context `{laws : BucketLaws} `{env : Env}.
Variables (s : state) (n0 : tnode) (L0 : list leaf_ref).
Hypothesis s_rep : ordered_rep s n0 L0.
Hypothesis s_unlocked : unlocked (trie s).
Hypothesis s_locks : lock_mgr s = [].
Hypothesis garbage_ok : entry_ok garbage_entry.

Variables (bytes : list Z) (f : ct_finger) (lb : option nat) (k : Z) (syms : list Z) (child : tnode) (h c : Z) (d : nat)
  (L B A : list leaf_ref) (pre : list Z) (pe : ct_path_entry) (x : Z) (extra : list Z).
Hypothesis reached : goto_at s n0 L0 bytes f lb k (TJump syms child) h c d L B A pre pe.
Hypothesis k_bound : 0 <= k <= 408.
Hypothesis x_at : syms !! d = Some x.

Let t : cuckoo_trie := trie s.
Let jump : ct_entry := pe_value pe.
Let p0 : pos := last_pos (pe_entry pe).
Let hb : Z := accumulate_list t h (take d syms).
Let hx : Z := accumulate_hash t hb x.
Let rest : list Z := drop (S d) syms.

Hypothesis child_plain : rest = [] -> forall q e, holds t q (hx, entry_child_color jump) e -> last_symbol e = x /\ entry_parent_color e = INVALID_COLOR.
(** There is room for the new entries, and for those of hashes [extra]. *)
Hypothesis has_room : rooms t [] (cut_hashes t hb syms d ++ extra) = true.

Lemma cut_table : table_ok t.
Proof. exact (tr_table _ _ (or_rep _ _ _ s_rep)). Qed.

Lemma jump_here : at_node t pe h c /\ lc_value (containing_entry f) = jump /\ containing_entry f = pe_entry pe /\
  (exists y, jump_fields y syms jump) /\ linked t child (accumulate_list t h syms) (entry_child_color jump) L /\
  Forall (fun s => 1 <= s <= 32) syms.
Proof.
  destruct (goto_holds _ _ _ _ _ _ _ _ _ _ _ _ _ _ _ _ reached) as (Ha & (Ty & Hsz & Hsy & _ & Hl) & Ev).
  destruct (ga_ok _ _ _ _ _ _ _ _ _ _ _ _ _ _ _ _ reached) as (Hr & Hs & _).
  split; [exact Ha|]. split; [exact Ev|]. split; [apply (ga_entry _ _ _ _ _ _ _ _ _ _ _ _ _ _ _ _ reached)|]. split; [|done].
  exists (last_symbol jump). split; try done; [|lia]. exact (proj1 (holds_ok _ cut_table _ _ _ (an_holds _ _ _ _ Ha))).
Qed.

Lemma cut_range : (d < length syms)%nat /\ (length syms <= 8)%nat /\ 1 <= x <= 32 /\ length (take d syms) = d.
Proof.
  destruct jump_here as (_ & _ & _ & (y & Hj) & _ & Hs). destruct (cut_length d syms x Hs x_at) as (H1 & H2 & H3).
  split; [done|]. split; [apply (jf_room _ _ _ Hj)|done].
Qed.

Lemma jump_is_ok : entry_ok jump /\ used jump = true /\ 0 <= c <= MAX_VALID_COLOR /\ entry_color jump = c /\ hash_ok t h.
Proof.
  destruct jump_here as (Ha & _). pose proof (holds_ok _ cut_table _ _ _ (an_holds _ _ _ _ Ha)) as (H1 & H2 & H3). cbn [fst snd] in H2, H3.
  destruct (an_holds _ _ _ _ Ha) as (_ & _ & Hu & Hk). split; [done|]. split; [done|]. split; [done|]. split; [exact (f_equal snd Hk)|done].
Qed.

Lemma finger_in_jump : depth_in_jump f = Z.of_nat d /\ prefix_hash f = hb /\ 0 <= last_prefix_symbol f <= 32 /\
  (1 <= length (path f))%nat /\ Z.of_nat (length (path f)) <= 409 /\ path f !! last_path_entry f = Some pe.
Proof.
  pose proof (ga_finger _ _ _ _ _ _ _ _ _ _ _ _ _ _ _ _ reached) as Hf. pose proof (ga_jump _ _ _ _ _ _ _ _ _ _ _ _ _ _ _ _ reached) as [Hd Hm].
  pose proof (ga_depth _ _ _ _ _ _ _ _ _ _ _ _ _ _ _ _ reached) as Hk. pose proof (fa_path _ _ _ _ _ _ _ _ Hf) as Hp.
  pose proof (ga_last _ _ _ _ _ _ _ _ _ _ _ _ _ _ _ _ reached) as Hl. rewrite last_lookup in Hl.
  pose proof (lookup_lt_Some _ _ _ Hl) as Hlt. destruct (fa_start _ _ _ _ _ _ _ _ Hf) as (j & Ej & Eh).
  split; [apply (fa_depth _ _ _ _ _ _ _ _ Hf)|]. split; [|split; [apply (fa_range _ _ _ _ _ _ _ _ Hf)|split; [lia|split; [lia|]]]].
  - rewrite (fa_hash _ _ _ _ _ _ _ _ Hf). unfold hb. rewrite Eh. change (trie s) with t. rewrite prefix_hash_list.
    + f_equal. rewrite length_take. lia.
    + intros i y Hi. apply lookup_take_Some in Hi as [Hi Hlt2]. rewrite (Hm i y Hlt2 Hi). f_equal. lia.
  - rewrite <- Hl. unfold last_path_entry. f_equal. lia.
Qed.

Lemma cut_hash_ok : hash_ok t hb /\ hash_ok t hx /\ accumulate_list t h syms = accumulate_list t hx rest.
Proof.
  destruct jump_is_ok as (_ & _ & _ & _ & Hh). destruct jump_here as (_ & _ & _ & _ & _ & Hs). destruct cut_range as (_ & _ & Hx & _).
  assert (Hb : hash_ok t hb).
  { unfold hb. assert (Hf : Forall (fun s => 1 <= s <= 32) (take d syms)) by now apply Forall_take.
    revert Hh Hf. generalize h (take d syms). intros h1 l. revert h1. induction l as [|y l IH]; intros h1 Hh Hf; [exact Hh|].
    apply Forall_cons in Hf as [Hy Hf]. cbn [accumulate_list fold_left]. apply IH; [|exact Hf]. apply accumulate_hash_ok; (apply cut_table || done || lia). }
  split; [exact Hb|]. split; [apply accumulate_hash_ok; (apply cut_table || done || lia)|].
  rewrite <- (take_drop_middle _ _ _ x_at) at 1. rewrite accumulate_list_app. reflexivity.
Qed.

Lemma rest_empty : (Z.of_nat d + 1 <? entry_jump_size jump) = negb (bool_decide (rest = [])).
Proof.
  destruct jump_here as (_ & _ & _ & (y & Hj) & _). rewrite (jf_size _ _ _ Hj). destruct cut_range as (Hd & _).
  assert (E : length rest = (length syms - S d)%nat) by apply length_drop.
  case_bool_decide as Hr; cbn [negb].
  - rewrite Hr in E. cbn in E. apply Z.ltb_ge. lia.
  - apply Z.ltb_lt. destruct rest; [done|]. cbn in E. lia.
Qed.

Lemma cut_hashes_eq : cut_hashes t hb syms d = (if (d =? 0)%nat then [] else [hb]) ++ (if bool_decide (rest = []) then [] else [hx]).
Proof.
  unfold cut_hashes. f_equal. rewrite (drop_S _ _ _ x_at). fold rest. case_bool_decide as Hr; [now rewrite Hr|]. destruct rest; done.
Qed.

(** ** The locks *)

(** The lock of the jump node and, when no symbol is behind, of its child. *)
Record cut_locked (cl : option ct_entry_local_copy) (s2 : state) : Prop := mk_cut_locked {
  cu_locking : locking 3 s s2;
  cu_head : held s2 p0;
  cu_count : (length (lock_mgr s2) <= 2)%nat;
  cu_child : match cl with
             | None => rest <> []
             | Some l => rest = [] /\ held s2 (last_pos l) /\ holds t (last_pos l) (hx, entry_child_color jump) (lc_value l) /\ last_pos l <> p0
             end;
}.

Definition lock_child : MS (si_status * option ct_entry_local_copy) :=
  if Z.of_nat d + 1 <? entry_jump_size jump then mret (SI_OK, None)
  else
    l ← find_entry_in_pair_by_color (hash_to_bucket hx) (hash_to_tag hx) (entry_child_color jump);
    r ← upgrade_lock l; mret (r, Some l).

Lemma lock_steps : exists cl s1 s2, lock_child s = Ret (SI_OK, cl) s1 /\ upgrade_lock (containing_entry f) s1 = Ret SI_OK s2 /\ cut_locked cl s2.
Proof.
  destruct jump_here as (Ha & _ & Een & _ & Hc & _). pose proof (table_shape _ cut_table) as Hsh. fold t in Hsh.
  assert (HM : MAX_LOCKS = 413) by reflexivity. assert (K0 : locks_ok 1 s) by now apply unlocked_locks_ok.
  assert (Hcur : current (trie s) (containing_entry f)) by (apply local_current; [exact Hsh|exact (fa_local _ _ _ _ _ _ _ _ (goto_finger _ _ _ _ _ _ _ _ _ _ _ _ _ _ _ _ reached))]).
  unfold lock_child. rewrite rest_empty. case_bool_decide as Hr; cbn [negb].
  - destruct cut_hash_ok as (_ & _ & Eh). rewrite Hr in Eh. cbn [accumulate_list fold_left] in Eh. rewrite Eh in Hc.
    pose proof Hc as Hc0. apply linked_unfold in Hc0 as (q & e & Hq & _).
    destruct (find_by_color_spec t cut_table s q hx (entry_child_color jump) e eq_refl Hq) as (l & El & Hl & Hlp & Hlv).
    destruct (upgrade_current 1 s l K0 Hsh ltac:(lia) (local_current _ _ Hsh Hl)) as (s1 & E1 & G1 & Hh1 & Hl1); [rewrite s_locks; cbn; lia|].
    rewrite s_locks in Hl1. cbn [length] in Hl1.
    destruct (upgrade_current (1 + 1) s1 (containing_entry f) (lg_locks _ _ _ G1) (lg_shape _ _ _ G1) ltac:(lia)) as (s2 & E2 & G2 & Hh2 & Hl2).
    { apply (current_locks (trie s)); [exact Hsh|apply G1..|exact Hcur]. }
    { lia. }
    exists (Some l), s1, s2. split; [erewrite bind_Ret by exact El; now erewrite bind_Ret by exact E1|]. split; [exact E2|]. split.
    + exact (locking_trans _ _ _ _ _ G1 G2).
    + unfold p0. now rewrite <- Een.
    + lia.
    + split; [done|]. split; [exact (held_locking _ _ _ _ G2 Hh1)|]. rewrite Hlp, Hlv. split; [exact Hq|]. intros ->.
      destruct (an_holds _ _ _ _ Ha) as (_ & H1 & _ & H2), Hq as (_ & H3 & _ & H4). fold p0 in H1, H2. change (lc_value (pe_entry pe)) with jump in H1, H2.
      rewrite H1 in H3. injection H3 as E3. rewrite <- E3, H2 in H4. injection H4 as <- Ecc.
      pose proof (spine_linked _ _ _ _ _ _ _ _ _ _ (ga_spine _ _ _ _ _ _ _ _ _ _ _ _ _ _ _ _ reached)) as Hj.
      rewrite <- Ecc in Hc. destruct (linked_det _ _ _ _ _ cut_table Hc _ _ Hj) as (Et & _). cbn [theight] in Et. lia.
  - destruct (upgrade_current 1 s (containing_entry f) K0 Hsh ltac:(lia) Hcur) as (s2 & E2 & G2 & Hh2 & Hl2); [rewrite s_locks; cbn; lia|].
    rewrite s_locks in Hl2. cbn [length] in Hl2. exists None, s, s2. split; [reflexivity|]. split; [exact E2|]. split.
    + destruct G2 as [? ? ? Hk ? ?]. split; try done. apply (locks_ok_mono (1 + 1)); [lia|exact Hk].
    + unfold p0. now rewrite <- Een.
    + lia.
    + exact Hr.
Qed.
(** ** The bitmap node *)

(** What [split_jump_node] adds for the bitmap node. *)
Definition branch_content : ct_entry :=
  bitmap_with_child x
    (set_max_leaf (max_leaf jump)
      (set_last_symbol (last_prefix_symbol f)
        (set_parent_color_and_flags ((INVALID_COLOR .<< PARENT_COLOR_SHIFT) .| TYPE_BITMAP) garbage_entry))).

Lemma branch_content_fields : branch_fields (last_prefix_symbol f) x (max_leaf jump) branch_content /\ plain_header branch_content.
Proof.
  destruct finger_in_jump as (_ & _ & Hs & _). destruct cut_range as (_ & _ & Hx & _). destruct jump_is_ok as (Hj & _).
  destruct (node_flags INVALID_COLOR TYPE_BITMAP ltac:(done) ltac:(done)) as (F1 & F2 & F3 & F4 & F5).
  unfold branch_content. set (b := (INVALID_COLOR .<< PARENT_COLOR_SHIFT) .| TYPE_BITMAP) in *.
  assert (H1 : entry_ok (set_parent_color_and_flags b garbage_entry)) by now apply set_flags_ok.
  set (e2 := set_last_symbol (last_prefix_symbol f) (set_parent_color_and_flags b garbage_entry)). assert (H2 : entry_ok e2) by now apply set_byte_ok.
  pose proof (set_locator_agrees (max_leaf jump) e2 H2) as Hag. set (e3 := set_max_leaf (max_leaf jump) e2) in *.
  assert (H3 : entry_ok e3) by now apply set_entry_locator_ok.
  assert (E0 : parent_color_and_flags e3 = b).
  { unfold parent_color_and_flags. rewrite Hag by lia. unfold e2, set_last_symbol. rewrite byte_at_set_byte by (done || entry_lia).
    rewrite decide_False by lia. change (parent_color_and_flags (set_parent_color_and_flags b garbage_entry) = b).
    rewrite flags_set_flags by done. now apply wrap_small. }
  split.
  - replace (max_leaf jump) with (max_leaf e3); [apply one_child_fields; [done|lia|unfold entry_type; now rewrite E0|]|].
    + unfold last_symbol. rewrite Hag by lia. unfold e2, set_last_symbol. rewrite byte_at_set_byte by (done || entry_lia).
      rewrite decide_True by lia. apply wrap_small. lia.
    + apply entry_locator_set; [done|now apply entry_locator_ok].
  - destruct (one_child_bytes x e3 H3 ltac:(lia)) as (_ & B2 & _). apply (plain_flags e3); [unfold parent_color_and_flags; apply B2; lia|].
    split; unfold entry_is_secondary, entry_dirty, entry_parent_color; now rewrite E0.
Qed.

(** An entry that was added. *)
Lemma placed_body N hash e lock s1 s1' p y :
  entry_ok e -> entry_is_secondary e = false -> hash_ok t hash -> AddEntry.placed N hash e lock s1 s1' p y ->
  same_body ENTRY_BYTES e y /\ entry_parent_color y = entry_parent_color e /\ 0 <= entry_color y <= MAX_VALID_COLOR /\ holds (trie s1') p (hash, entry_color y) y.
Proof.
  intros He Hsec Hh Hpl. destruct (hash_parts t (tb_params _ cut_table) _ Hh) as (_ & Htag & _).
  destruct (pc_new _ _ _ _ _ _ _ _ Hpl) as (c1 & sec & Hc & Ey & Hho).
  assert (Ec : entry_color y = c1) by (destruct Hho as (_ & _ & _ & Hk); exact (f_equal snd Hk)).
  destruct (prepared_body hash c1 sec e He Hsec Hc Htag) as (Hb & _ & Hpc). rewrite <- Ey in Hb, Hpc. rewrite Ec. done.
Qed.

Section steps.
Variables (cl : option ct_entry_local_copy) (s2 : state).
Hypothesis locked : cut_locked cl s2.

Let same2 : same_but_locks t (trie s2) := lg_table _ _ _ (cu_locking _ _ locked).

Lemma cut_table2 : table_ok (trie s2) /\ same_params t (trie s2).
Proof. split; [exact (locked_table _ _ cut_table (lg_shape _ _ _ (cu_locking _ _ locked)) same2)|exact (locked_params _ _ same2)]. Qed.

Lemma cut_cells2 q : trie_entry (trie s2) q = trie_entry t q.
Proof. symmetry. exact (same_but_locks_entry _ _ _ same2). Qed.

(** The entry [eb] of the bitmap node: it is [eh], written to the cell of the
    jump node later, or in the new cell [pb]. *)
Record forked (made : option (pos * ct_entry * Z)) (pb : pos) (eb eh : ct_entry) (seen : list Z) (newp : list pos) (s3 : state) : Prop := mk_forked {
  fk_making : making s2 5 seen newp s3;
  fk_count : (length seen <= 1)%nat;
  fk_branch : exists y, branch_fields y x (max_leaf jump) eb;
  fk_color : 0 <= entry_color eb <= MAX_VALID_COLOR;
  fk_head : entry_ok eh /\ same_tags jump eh /\ last_symbol eh = last_symbol jump /\ entry_parent_color eh = entry_parent_color jump;
  fk_made : match made with
            | None => d = 0%nat /\ newp = [] /\ eb = eh /\ pb = p0
            | Some (p, e, _) => d <> 0%nat /\ p = pb /\ e = eb /\ newp = [pb] /\ holds (trie s3) pb (hb, entry_color eb) eb /\
                entry_parent_color eb = INVALID_COLOR /\ (exists y, jump_fields y (take d syms) eh) /\ max_leaf eh = max_leaf jump /\
                entry_child_color eh = entry_color eb
            end;
  fk_room : rooms (trie s2) seen ((if bool_decide (rest = []) then [] else [hx]) ++ extra) = true;
}.

(** The two cases of the code, with what follows. *)
Definition make_fork (r : ct_entry -> ct_entry -> option (pos * ct_entry * Z) -> MS (si_status * ct_finger)) : MS (si_status * ct_finger) :=
  if Z.of_nat d =? 0 then
    let new_head := bitmap_with_child x (entry_set_type TYPE_BITMAP (entry_set_jump_size (Z.of_nat d) jump)) in r new_head new_head None
  else
    '(ret3, res) ← add_entry hb branch_content None true;
    match res with
    | None => if bool_decide (ret3 = SI_RETRY) then split_jump_undo None f else split_jump_full f
    | Some (p, bitmap) =>
        seq ← read_int_atomic_seq (pos_bucket p);
        r (entry_set_child_color (entry_color bitmap) (entry_set_jump_size (Z.of_nat d) jump)) bitmap (Some (p, bitmap, seq))
    end.

Lemma fork_step : exists made pb eb eh seen newp s3, (forall r, make_fork r s2 = r eh eb made s3) /\ forked made pb eb eh seen newp s3.
Proof.
  destruct cut_table2 as [Ht2 Hp2]. destruct cut_range as (Hd & Hl8 & Hx & Htk). destruct jump_is_ok as (Hok & Hu & Hc & Ec & Hh).
  destruct jump_here as (_ & _ & _ & (y & Hj) & _). pose proof has_room as Hroom. rewrite <- (rooms_locks _ _ _ same2), cut_hashes_eq in Hroom.
  pose proof (cu_count _ _ locked) as Hcnt. assert (HM : MAX_LOCKS = 413) by reflexivity.
  unfold make_fork. destruct (Z.eqb_spec (Z.of_nat d) 0) as [Ed|Ed].
  - assert (d = 0%nat) as Ed0 by lia. rewrite Ed. cbv zeta. destruct (whole_fields jump y syms Hj x ltac:(lia)) as (W1 & W2 & W3).
    set (eh := bitmap_with_child x (entry_set_type TYPE_BITMAP (entry_set_jump_size 0 jump))) in *.
    exists None, p0, eh, eh, [], [], s2. split; [done|]. split; try done.
    + apply making_start; [exact Ht2|]. apply (locks_ok_mono 3); [lia|apply (cu_locking _ _ locked)].
    + cbn. lia.
    + eauto.
    + rewrite (sg_color _ _ W2), Ec. exact Hc.
    + split; [apply W1|]. split; [exact W2|]. split; [|exact W3]. rewrite (br_symbol _ _ _ _ W1). symmetry. apply Hj.
    + rewrite Ed0 in Hroom. exact Hroom.
  - destruct branch_content_fields as [Hbr [P1 P2 P3]]. destruct cut_hash_ok as (Hhb & _).
    replace (d =? 0)%nat with false in Hroom by (symmetry; apply Nat.eqb_neq; lia). cbn [app] in Hroom.
    destruct (making_add s2 3 [] [] s2 hb ((if bool_decide (rest = []) then [] else [hx]) ++ extra) branch_content None true) as (pb & eb & s3 & E & HM3 & _ & Hroom3 & Hpl).
    + apply making_start; [exact Ht2|apply (cu_locking _ _ locked)].
    + unfold RELOCATE_REFS, RELOCATE_QUEUE_SIZE. lia.
    + unfold hash_ok. rewrite (same_params_eq _ _ Hp2). exact Hhb.
    + apply Hbr.
    + exact (branch_is_used _ _ _ _ Hbr).
    + exact P1.
    + cbn [length]. lia.
    + exact Hroom.
    + destruct (placed_body _ _ _ _ _ _ _ _ (br_ok _ _ _ _ Hbr) P1 Hhb Hpl) as (Hb & Hpc & Hcb & Hho).
      pose proof (branch_fields_body _ _ _ _ _ Hbr Hb) as Hbr'. destruct Hho as (Hin & Hat & _). pose proof Hat as Hat2.
      destruct (trie_entry_bucket _ _ _ Hat2) as (bk & Hbk & _).
      destruct (cut_fields jump y syms Hj d (entry_color eb) ltac:(lia) Hcb) as (C1 & C2 & C3 & C4). cbv zeta in *.
      set (eh := entry_set_child_color (entry_color eb) (entry_set_jump_size (Z.of_nat d) jump)) in *.
      exists (Some (pb, eb, write_lock_and_seq bk)), pb, eb, eh, [hb], [pb], s3. split.
      * intros r. erewrite bind_Ret by exact E. cbv iota beta. unfold read_int_atomic_seq.
        erewrite bind_Ret by (erewrite bind_Ret by (apply get_bucket_eq; exact Hbk); reflexivity). reflexivity.
      * split; try done.
        -- eauto.
        -- split; [apply C1|]. split; [now apply same_header_tags|]. destruct (same_header_fields t p0 _ _ C2) as (_ & _ & _ & _ & E1 & E2 & _). done.
        -- split; [intros Ed0; lia|]. do 3 (split; [done|]). split; [|split; [congruence|]]; [|split; [eauto|done]].
           exact (proj2 (proj2 (proj2 (placed_body _ _ _ _ _ _ _ _ (br_ok _ _ _ _ Hbr) P1 Hhb Hpl)))).
Qed.
(** ** The child of the bitmap node *)

Section child.
Variables (made : option (pos * ct_entry * Z)) (pb : pos) (eb eh : ct_entry) (seen : list Z) (newp : list pos) (s3 : state).
Hypothesis is_forked : forked made pb eb eh seen newp s3.

(** The child [ex], of color [cx], in cell [px]; all cells that were unused
    before are in [newp']. *)
Record joined (newp' : list pos) (px : pos) (ex : ct_entry) (cx : Z) (s4 : state) : Prop := mk_joined {
  jn_busy : busy 7 s4 (trie s4) (trie_entry (trie s4));
  jn_params : same_params t (trie s4);
  jn_mem : kv_mem s4 = kv_mem s;
  jn_free : forall q e, q ∈ newp' -> trie_entry t q = Some e -> used e = false;
  jn_child : holds (trie s4) px (hx, cx) ex /\ last_symbol ex = x /\ entry_parent_color ex = entry_color eb;
  jn_below : if bool_decide (rest = []) then
               cx = entry_child_color jump /\ px <> p0 /\ exists e, holds t px (hx, cx) e /\ alike e ex /\ entry_parent_color e = INVALID_COLOR
             else px ∈ newp' /\ jump_fields x rest ex /\ max_leaf ex = max_leaf jump /\ entry_child_color ex = entry_child_color jump;
  jn_bitmap : match made with
              | None => True
              | Some _ => pb ∈ newp' /\ holds (trie s4) pb (hb, entry_color eb) eb
              end;
  jn_others : forall q e, q ∈ newp' -> q <> px -> trie_entry (trie s4) q = Some e -> entry_parent_color e = INVALID_COLOR;
  jn_rest : forall q, q ∉ newp' -> (rest = [] -> q <> px) -> trie_entry (trie s4) q = trie_entry t q;
  jn_head : usable (trie s4) (pe_entry pe) /\ held s4 p0;
  jn_stock : exists seen', stocked (trie s2) seen' (trie s4) /\ rooms (trie s2) seen' extra = true;
}.

Lemma forked_params : same_params t (trie s3).
Proof. transitivity (trie s2); [exact (proj2 cut_table2)|apply (fk_making _ _ _ _ _ _ _ is_forked)]. Qed.

Lemma forked_old q : q ∉ newp -> trie_entry (trie s3) q = trie_entry t q.
Proof. intros Hq. rewrite (mg_old _ _ _ _ _ (fk_making _ _ _ _ _ _ _ is_forked) q Hq). apply cut_cells2. Qed.

Lemma forked_free q e : q ∈ newp -> trie_entry t q = Some e -> used e = false.
Proof. intros Hq. rewrite <- cut_cells2. exact (mg_free _ _ _ _ _ (fk_making _ _ _ _ _ _ _ is_forked) q e Hq). Qed.

Lemma forked_others q e : q ∈ newp -> trie_entry (trie s3) q = Some e -> entry_parent_color e = INVALID_COLOR.
Proof.
  intros Hq He. pose proof (fk_made _ _ _ _ _ _ _ is_forked) as Hm. destruct made as [[[p e1] sq]|].
  - destruct Hm as (_ & -> & -> & -> & (_ & Hat & _) & Hp & _). apply list_elem_of_singleton in Hq as ->. congruence.
  - destruct Hm as (_ & -> & _). now apply not_elem_of_nil in Hq.
Qed.

Lemma jump_not_new : p0 ∉ newp.
Proof.
  intros Hq. destruct jump_here as (Ha & _). destruct (an_holds _ _ _ _ Ha) as (_ & He & Hu & _).
  rewrite (forked_free p0 _ Hq He) in Hu. discriminate.
Qed.

Lemma jump_usable : usable (trie s3) (pe_entry pe) /\ held s3 p0.
Proof.
  pose proof (fk_making _ _ _ _ _ _ _ is_forked) as HM. split; [|apply (mg_held _ _ _ _ _ HM), (cu_head _ _ locked)].
  apply (mg_usable _ _ _ _ _ HM); [|exact jump_not_new].
  apply (node_usable s n0 L0 s_rep _ _ _ _ _ _ _ (ga_spine _ _ _ _ _ _ _ _ _ _ _ _ _ _ _ _ reached) 3 s2 (cu_locking _ _ locked)).
  apply last_Some_elem_of, (ga_last _ _ _ _ _ _ _ _ _ _ _ _ _ _ _ _ reached).
Qed.

Lemma forked_bitmap : match made with Some _ => pb ∈ newp /\ holds (trie s3) pb (hb, entry_color eb) eb | None => True end.
Proof.
  pose proof (fk_made _ _ _ _ _ _ _ is_forked) as Hm. destruct made as [[[p e1] sq]|]; [|done].
  destruct Hm as (_ & -> & -> & -> & Hh & _). split; [apply list_elem_of_here|done].
Qed.

(** A new jump node for the symbols behind. *)
Lemma tail_step imm : rest <> [] -> exists px ex s4,
  add_entry hx (tail_jump_node jump (entry_color eb) x (Z.of_nat d)) imm false s3 = Ret (SI_OK, Some (px, ex)) s4 /\
  joined (px :: newp) px ex (entry_color ex) s4.
Proof.
  intros Hr. pose proof (fk_making _ _ _ _ _ _ _ is_forked) as HM. pose proof (fk_count _ _ _ _ _ _ _ is_forked) as Hseen.
  destruct cut_table2 as [Ht2 Hp2]. destruct cut_range as (Hd & Hl8 & Hx & Htk). destruct cut_hash_ok as (_ & Hhx & _).
  destruct jump_here as (_ & _ & _ & (y & Hj) & _). pose proof (cu_count _ _ locked) as Hcnt. assert (HMX : MAX_LOCKS = 413) by reflexivity.
  pose proof (fk_room _ _ _ _ _ _ _ is_forked) as Hroom. rewrite bool_decide_false in Hroom by exact Hr.
  assert (Hlt : (S d < length syms)%nat).
  { destruct (decide (S d < length syms)%nat) as [|Hge]; [done|]. exfalso. apply Hr. unfold rest. apply drop_ge. lia. }
  destruct (tail_fields jump y syms Hj garbage_ok d x (entry_color eb) Hlt ltac:(lia) (fk_color _ _ _ _ _ _ _ is_forked)) as (T1 & T2 & T3 & T4 & T5 & T6).
  cbv zeta in *. set (e := tail_jump_node jump (entry_color eb) x (Z.of_nat d)) in *. fold rest in T1.
  destruct (making_add s2 5 seen newp s3 hx extra e imm false HM) as (px & ex & s4 & E & HM4 & Hnew & Hextra & Hpl).
  { unfold RELOCATE_REFS, RELOCATE_QUEUE_SIZE. lia. }
  { unfold hash_ok. rewrite (same_params_eq _ _ Hp2). exact Hhx. }
  { apply T1. }
  { exact (jump_is_used _ _ _ T1). }
  { exact T4. }
  { lia. }
  { exact Hroom. }
  destruct (placed_body _ _ _ _ _ _ _ _ (jf_ok _ _ _ T1) T4 Hhx Hpl) as (Hb & Hpc & Hcx & Hho).
  assert (Hcells : forall q, trie_entry (trie s4) q = fill px ex (trie_entry (trie s3)) q) by apply (pc_cells _ _ _ _ _ _ _ _ Hpl).
  exists px, ex, s4. split; [exact E|]. split.
  - exact (making_busy _ _ _ _ _ HM4).
  - transitivity (trie s2); [exact Hp2|apply HM4].
  - rewrite (mg_mem _ _ _ _ _ HM4). apply (cu_locking _ _ locked).
  - intros q e1 Hq. rewrite <- cut_cells2. exact (mg_free _ _ _ _ _ HM4 q e1 Hq).
  - split; [exact Hho|]. split; [|congruence]. rewrite <- (jf_symbol _ _ _ T1). now apply (body_symbol _ _ ENTRY_BYTES); [entry_lia|].
  - rewrite bool_decide_false by exact Hr. split; [apply list_elem_of_here|]. assert (E8 : byte_at ex 8 = byte_at e 8) by (apply Hb; entry_lia).
    split; [|split; [rewrite <- T5; now apply body_locator|rewrite <- T6; unfold entry_child_color, child_color_and_jump_size; now rewrite E8]].
    apply (jump_fields_body _ _ e); [exact T1|now apply (same_body_le ENTRY_BYTES); [entry_lia|]|].
    unfold entry_jump_size, child_color_and_jump_size. now rewrite E8.
  - pose proof forked_bitmap as Hbm. destruct made; [|done]. destruct Hbm as [B1 (B2 & B3 & B4 & B5)]. split; [now apply list_elem_of_further|].
    pose proof (pc_params _ _ _ _ _ _ _ _ Hpl) as Hp34. split; [now rewrite <- Hp34|]. split; [rewrite Hcells, fill_ne; [done|intros ->; done]|].
    split; [done|]. now rewrite <- Hp34.
  - intros q e1 Hq Hne He. apply elem_of_cons in Hq as [->|Hq]; [done|]. rewrite Hcells, fill_ne in He by done. exact (forked_others q e1 Hq He).
  - intros q Hq _. apply not_elem_of_cons in Hq as [H1 H2]. rewrite Hcells, fill_ne by done. now apply forked_old.
  - destruct jump_usable as [U1 U2]. split.
    + apply (usable_placed 7 hx e false s3 s4 px ex); [apply HM|exact Hpl|exact U1|].
      intros E1. pose proof (us_at _ _ U1) as Hat. rewrite E1 in Hat. destruct jump_here as (Ha & _). destruct (an_holds _ _ _ _ Ha) as (_ & _ & Hu & _).
      rewrite (pc_free _ _ _ _ _ _ _ _ Hpl _ Hat) in Hu. discriminate.
    + pose proof (pc_entries _ _ _ _ _ _ _ _ Hpl p0). unfold held in *. lia.
  - exists (hx :: seen). split; [apply HM4|exact Hextra].
Qed.
(** The old child with another parent. *)
Lemma recolor_step l : cl = Some l -> exists ex s4,
  entry_set_parent_color_atomic (last_pos l) (entry_color eb) s3 = Ret tt s4 /\ joined newp (last_pos l) ex (entry_child_color jump) s4.
Proof.
  intros El. pose proof (fk_making _ _ _ _ _ _ _ is_forked) as HM. pose proof (cu_child _ _ locked) as Hcl. rewrite El in Hcl.
  destruct Hcl as (Hr & Hheld & Hh & Hne). pose proof Hh as (Hin & Hat & Hu & Hk). set (px := last_pos l) in *. set (e := lc_value l) in *.
  assert (Hnew : px ∉ newp) by (intros Hq; rewrite (forked_free px e Hq Hat) in Hu; discriminate).
  assert (Hat3 : trie_entry (trie s3) px = Some e) by (rewrite forked_old by exact Hnew; exact Hat).
  pose proof (fk_color _ _ _ _ _ _ _ is_forked) as Hc. change MAX_VALID_COLOR with 8 in Hc.
  destruct (recolored_alike e (entry_color eb) (trie_entry_ok _ cut_table _ _ Hat) Hu ltac:(lia)) as (R1 & R2 & R3 & R4 & R5). cbv zeta in *.
  set (ex := entry_set_parent_color (entry_color eb) e) in *.
  pose proof (making_busy _ _ _ _ _ HM) as HB. destruct jump_usable as [U1 U2].
  destruct (write_busy 5 s3 (trie s3) _ px e ex HB (mg_held _ _ _ _ _ HM px Hheld) Hat3 R1 R3) as (seq & t4 & Ew & HB4 & Hoth & _).
  replace (set_trie (trie s3) s3) with s3 in Ew by now destruct s3.
  assert (Hp34 : same_params (trie s3) t4) by apply HB4. assert (Hp4 : same_params t t4) by (transitivity (trie s3); [exact forked_params|exact Hp34]).
  assert (Hcells : forall q, trie_entry t4 q = fill px ex (trie_entry (trie s3)) q) by apply HB4.
  destruct (child_plain Hr px e Hh) as [Hls Hpi].
  exists ex, (set_trie t4 s3). split.
  { unfold entry_set_parent_color_atomic, read_entry_non_atomic. erewrite bind_Ret by (apply get_entry_eq; exact Hat3).
    fold ex. erewrite bind_Ret by exact Ew. reflexivity. }
  split; cbn [trie set_trie kv_mem].
  - destruct HB4 as [B1 B2 B3 B4 B5]. split; cbn [trie set_trie]; [reflexivity|exact B2| |done|].
    + apply (locks_ok_mono 5); [lia|exact B3].
    + apply (cells_ok_eq t4 (fill px ex (trie_entry (trie s3)))); [intros q; now rewrite Hcells|exact B5].
  - exact Hp4.
  - rewrite (mg_mem _ _ _ _ _ HM). apply (cu_locking _ _ locked).
  - exact forked_free.
  - split; [|split; [congruence|exact R5]]. destruct (same_tags_key t px _ _ R3) as (K1 & _).
    split; [now rewrite <- Hp4|]. split; [rewrite Hcells; apply fill_eq|]. split; [now rewrite (sg_used _ _ R3)|]. rewrite <- Hp4. congruence.
  - rewrite bool_decide_true by exact Hr. split; [done|]. split; [exact Hne|]. exists e. done.
  - pose proof forked_bitmap as Hbm. destruct made; [|done]. destruct Hbm as [B1 (B2 & B3 & B4 & B5)]. split; [exact B1|].
    split; [now rewrite <- Hp34|]. split; [rewrite Hcells, fill_ne; [done|intros E; apply Hnew; now rewrite <- E]|].
    split; [done|]. now rewrite <- Hp34.
  - intros q e1 Hq Hqx He. rewrite Hcells, fill_ne in He by done. exact (forked_others q e1 Hq He).
  - intros q Hq Hqx. rewrite Hcells, fill_ne by (now apply Hqx). now apply forked_old.
  - split; [|exact U2]. apply (usable_kept (trie s3) t4 px (pe_entry pe) e); try done.
    + apply (tb_length _ (mg_table _ _ _ _ _ HM)).
    + intros q Hq. rewrite Hcells. now apply fill_ne.
    + left. now rewrite <- forked_params.
  - exists seen. pose proof (fk_room _ _ _ _ _ _ _ is_forked) as Hroom. rewrite bool_decide_true in Hroom by exact Hr. split; [|exact Hroom].
    apply (stocked_fill (trie s2) seen (trie s3) t4 px e ex (mg_stock _ _ _ _ _ HM) Hcells Hat3 (sg_used _ _ R3)).
Qed.
(** ** The head *)

Section publish.
Variables (newp' : list pos) (px : pos) (ex : ct_entry) (cx : Z) (s4 : state).
Hypothesis is_joined : joined newp' px ex cx s4.

(** The new table [t'], and the finger at the bitmap node. *)
Record cut_published (t' : cuckoo_trie) (f' : ct_finger) : Prop := mk_cut_published {
  cp_table : table_ok t';
  cp_params : same_params t t';
  cp_unlocked : unlocked t';
  cp_cells : forall q, trie_entry t' q = fill p0 eh (trie_entry (trie s4)) q;
  cp_node : last_pos (containing_entry f') = pb /\ lc_value (containing_entry f') = eb;
  cp_path : exists sq, let pe1 := mk_path_entry (mk_local eh p0 (primary_bucket (pe_entry pe)) sq) (pe_prefix_hash pe) in
    match made with
    | None => path f' = ending (path f) pe1 /\ containing_entry f' = pe_entry pe1
    | Some _ => path f' = ending (path f) pe1 ++ [mk_path_entry (containing_entry f') hb] /\ primary_bucket (containing_entry f') = hash_to_bucket hb
    end;
  cp_place : prefix_hash f' = hb /\ prefix_len f' = prefix_len f /\ last_prefix_symbol f' = last_prefix_symbol f /\ depth_in_jump f' = 0;
}.

Lemma head_published : exists t' f', split_jump_publish f eh made s4 = Ret (SI_OK, f') (mk_state t' [] (kv_mem s)) /\ cut_published t' f'.
Proof.
  destruct finger_in_jump as (Hdep & Hhb & _ & Hl1 & Hl2 & Hlast). destruct (jn_head _ _ _ _ _ is_joined) as [HU HH].
  destruct (fk_head _ _ _ _ _ _ _ is_forked) as (Hok & Htags & _).
  assert (Es : set_trie (trie s4) s4 = s4) by now destruct s4.
  destruct (update_busy 7 s4 (trie s4) _ (pe_entry pe) eh (jn_busy _ _ _ _ _ is_joined) HU HH Hok Htags) as (sq & t5 & E5 & B5 & _ & _). cbv zeta in E5.
  rewrite Es in E5. set (head_local := mk_local eh (last_pos (pe_entry pe)) (primary_bucket (pe_entry pe)) sq) in *.
  destruct (release_all_locks_spec 7 (set_trie t5 s4) (by_locks _ _ _ _ B5) (by_shape _ _ _ _ B5)) as (t' & E6 & Hsame & Hsh & Hun).
  cbn [trie set_trie kv_mem] in Hsame, E6. rewrite (jn_mem _ _ _ _ _ is_joined) in E6.
  assert (Hat : forall q, trie_entry t' q = fill p0 eh (trie_entry (trie s4)) q)
    by (intros q; rewrite <- (same_but_locks_entry _ _ q Hsame); apply (by_at _ _ _ _ B5)).
  assert (Hp' : same_params t t') by (transitivity (trie s4); [apply is_joined|]; transitivity t5; [apply B5|apply Hsame]).
  assert (Ht' : table_ok t').
  { apply table_cells. split; [exact Hsh|]. apply (cells_ok_params t5); [apply Hsame|].
    apply (cells_ok_eq t5 (fill p0 eh (trie_entry (trie s4)))); [intros q; now rewrite Hat|apply B5]. }
  set (n := last_path_entry f) in *. set (f0 := set_path_local n head_local f).
  assert (Epl : path_local f n = Some (pe_entry pe)) by (unfold path_local; now rewrite Hlast).
  assert (Epath : path f0 = ending (path f) (mk_path_entry head_local (pe_prefix_hash pe)))
    by exact (alter_ending (fun x => mk_path_entry head_local (pe_prefix_hash x)) (path f) pe (ga_last _ _ _ _ _ _ _ _ _ _ _ _ _ _ _ _ reached)).
  assert (En0 : last_path_entry f0 = n) by (unfold f0, last_path_entry, set_path_local, set_path; cbn [path]; now rewrite length_alter).
  assert (Ere : reread_path_end f0 (set_trie t5 s4) = Ret (set_containing_entry head_local f0) (set_trie t5 s4)).
  { unfold reread_path_end. rewrite En0. unfold path_local, f0. rewrite (set_path_local_lookup f n head_local n pe Hlast), decide_True by done. reflexivity. }
  assert (Hfinish : forall f2, (match made with
        | Some (p, e, seq) => finger_node_changed (set_containing_entry (mk_local e p (hash_to_bucket (prefix_hash f)) seq) (set_containing_entry head_local f0)) true
        | None => mret (set_containing_entry head_local f0) end) (set_trie t5 s4) = Ret f2 (set_trie t5 s4) ->
      split_jump_publish f eh made s4 = Ret (SI_OK, f2) (mk_state t' [] (kv_mem s))).
  { intros f2 E2. unfold split_jump_publish. fold n. rewrite Epl. erewrite bind_Ret by reflexivity. erewrite bind_Ret by exact E5. fold f0.
    erewrite bind_Ret by exact Ere. erewrite bind_Ret by exact E2. erewrite bind_Ret by exact E6. reflexivity. }
  pose proof (fk_made _ _ _ _ _ _ _ is_forked) as Hm. destruct made as [[[p e] seq]|] eqn:Em.
  - destruct Hm as (_ & -> & -> & _). exists t'. eexists. split.
    + apply Hfinish. unfold finger_node_changed, store_path_entry.
      erewrite bind_Ret by (apply assert_true, Z.ltb_lt; cbn [path set_depth_in_jump set_containing_entry f0 set_path_local set_path]; rewrite length_alter, max_key_symbols; lia).
      erewrite bind_Ret by (apply assert_true; reflexivity). reflexivity.
    + split; try done. exists sq. rewrite Em. cbv iota beta zeta. split; [|cbn; now rewrite <- Hhb].
      change (path f0 ++ [mk_path_entry (mk_local eb pb (hash_to_bucket (prefix_hash f)) seq) (prefix_hash f)] =
        ending (path f) (mk_path_entry head_local (pe_prefix_hash pe)) ++ [mk_path_entry (mk_local eb pb (hash_to_bucket (prefix_hash f)) seq) hb]).
      now rewrite Epath, Hhb.
  - destruct Hm as (Hd & _ & -> & ->). exists t'. eexists. split; [apply Hfinish; reflexivity|].
    split; try done; [exists sq; rewrite Em; split; [exact Epath|done]|]. split; [exact Hhb|]. split; [done|]. split; [done|]. change (depth_in_jump f = 0). rewrite Hdep. lia.
Qed.

(** The cells that changed are those of [jump_split]. *)
Variables (t' : cuckoo_trie) (f' : ct_finger).
Hypothesis has_published : cut_published t' f'.

Lemma cell_published q k0 e : holds (trie s4) q k0 e -> q <> p0 -> holds t' q k0 e.
Proof.
  intros (H1 & H2 & H3 & H4) Hne. assert (Hp : same_params (trie s4) t').
  { transitivity t; [symmetry; apply is_joined|apply has_published]. }
  split; [now rewrite <- Hp|]. split; [rewrite (cp_cells _ _ has_published), fill_ne; done|]. split; [done|]. now rewrite <- Hp.
Qed.

Lemma px_apart : px <> p0 /\ (match made with Some _ => pb <> p0 | None => True end).
Proof.
  destruct jump_here as (Ha & _). destruct (an_holds _ _ _ _ Ha) as (_ & He & Hu & _).
  assert (Hout : p0 ∉ newp') by (intros Hq; rewrite (jn_free _ _ _ _ _ is_joined p0 _ Hq He) in Hu; discriminate). split.
  - pose proof (jn_below _ _ _ _ _ is_joined) as Hb. case_bool_decide; [apply Hb|]. destruct Hb as [Hb _]. intros ->. done.
  - pose proof (jn_bitmap _ _ _ _ _ is_joined) as Hb. destruct made; [|done]. destruct Hb as [Hb _]. intros ->. done.
Qed.

Lemma head_cell : holds t' p0 (h, c) eh.
Proof.
  destruct jump_here as (Ha & _). destruct (an_holds _ _ _ _ Ha) as (H1 & H2 & H3 & H4).
  destruct (fk_head _ _ _ _ _ _ _ is_forked) as (_ & Htags & _). destruct (same_tags_key t p0 _ _ Htags) as (K & _).
  pose proof (cp_params _ _ has_published) as Hp. split; [now rewrite <- Hp|]. split; [rewrite (cp_cells _ _ has_published); apply fill_eq|].
  split; [now rewrite (sg_used _ _ Htags)|]. rewrite <- Hp. etransitivity; [exact K|exact H4].
Qed.

Lemma bitmap_cell : holds t' pb (hb, entry_color eb) eb /\ (pb ∈ newp' \/ pb = p0) /\
  jump_nodes t' (max_leaf jump) (jump_list (take d syms)) h c hb (entry_color eb).
Proof.
  destruct cut_range as (_ & Hl8 & _ & Htk). destruct jump_is_ok as (_ & _ & _ & Ec & _).
  destruct (fk_head _ _ _ _ _ _ _ is_forked) as (_ & Htags & _). pose proof (fk_made _ _ _ _ _ _ _ is_forked) as Hm.
  pose proof (jn_bitmap _ _ _ _ _ is_joined) as Hbm. destruct px_apart as [_ Hpb]. pose proof head_cell as Hhead.
  pose proof (cp_params _ _ has_published) as Hp. destruct made as [[[p e] seq]|].
  - destruct Hm as (Hd & _ & _ & _ & _ & _ & (y & Hj) & Hml & Hcc). destruct Hbm as [B1 B2]. split; [now apply cell_published|]. split; [now left|].
    apply (one_jump_node _ _ _ _ _ _ _ p0 eh y); try done.
    + intros E. rewrite E in Htk. cbn in Htk. lia.
    + apply (accumulate_list_params _ _ Hp).
  - destruct Hm as (Hd & _ & Heb & Hpb'). assert (Ehb : hb = h) by (unfold hb; now rewrite Hd).
    assert (Ecb : entry_color eb = c) by (rewrite Heb, (sg_color _ _ Htags); exact Ec).
    rewrite Hpb', Ecb, Ehb, Heb. split; [exact Hhead|]. split; [now right|]. rewrite Hd. done.
Qed.

(** The finger's path. *)
Lemma finger_published : exists pe1, at_node t' pe1 h c /\ last_symbol (pe_value pe1) = last_symbol jump /\
    entry_parent_color (pe_value pe1) = entry_parent_color jump /\
    if (d =? 0)%nat then path f' = ending (path f) pe1 /\ containing_entry f' = pe_entry pe1
    else let pe2 := mk_path_entry (containing_entry f') hb in
      path f' = ending (path f) pe1 ++ [pe2] /\ at_node t' pe2 hb (entry_child_color (pe_value pe1)).
Proof.
  destruct (cp_path _ _ has_published) as (sq & Hpath). cbv zeta in Hpath. pose proof (fk_made _ _ _ _ _ _ _ is_forked) as Hm.
  destruct (fk_head _ _ _ _ _ _ _ is_forked) as (_ & _ & H1 & H2). pose proof head_cell as Hh. destruct bitmap_cell as (Hb & _).
  destruct (cp_node _ _ has_published) as [Epb Eeb]. destruct jump_here as (Ha & _).
  set (pe1 := mk_path_entry _ (pe_prefix_hash pe)) in Hpath. exists pe1. split.
  { split; [|exact Hh|exact (an_hash _ _ _ _ Ha)]. change (primary_bucket (pe_entry pe) = hash_to_bucket (entry_hash t' p0 eh)).
    rewrite (an_primary _ _ _ _ Ha). destruct (an_holds _ _ _ _ Ha) as (_ & _ & _ & K1), Hh as (_ & _ & _ & K2). injection K1 as -> _. injection K2 as -> _. done. }
  do 2 (split; [done|]). destruct made as [[[p e] seq]|].
  - destruct Hm as (Hd & _ & _ & _ & _ & _ & _ & _ & Hcc). rewrite (proj2 (Nat.eqb_neq _ _)) by exact Hd. cbv zeta. destruct Hpath as [Hp1 Hp2]. split; [exact Hp1|].
    change (pe_value pe1) with eh. rewrite Hcc. split; cbn [pe_entry pe_prefix_hash]; rewrite ?Epb, ?Eeb; [|exact Hb|done].
    rewrite Hp2. destruct Hb as (_ & _ & _ & K). apply (f_equal fst) in K. cbn [fst entry_key] in K. now rewrite K.
  - destruct Hm as (Hd & _). rewrite (proj2 (Nat.eqb_eq _ _)) by exact Hd. exact Hpath.
Qed.

(** The room that is left. *)
Lemma room_published hn l : extra = hn :: l -> hash_ok t hn -> pair_has_room t' hn = true.
Proof.
  intros Ex Hhn. destruct (jn_stock _ _ _ _ _ is_joined) as (seen' & Hst & Hroom). rewrite Ex in Hroom. pose proof (cp_params _ _ has_published) as Hp.
  pose proof (proj2 cut_table2) as Hp2. apply (stocked_room (trie s2) seen' t' hn l); [now transitivity t|apply has_published| | |exact Hroom].
  - unfold hash_ok. rewrite (same_params_eq _ _ Hp). exact Hhn.
  - destruct (jn_head _ _ _ _ _ is_joined) as [Hu _]. destruct jump_here as (Ha & _). destruct (an_holds _ _ _ _ Ha) as (_ & _ & Hus & _).
    destruct (fk_head _ _ _ _ _ _ _ is_forked) as (_ & Htags & _).
    exact (stocked_fill (trie s2) seen' (trie s4) t' p0 jump eh Hst (cp_cells _ _ has_published) (us_at _ _ Hu) (sg_used _ _ Htags)).
Qed.

Lemma cells_of_split sym : common syms sym (Z.of_nat (length pre)) = d ->
  jump_split s sym syms h c pre pe x t' newp' pb px eb eh ex (entry_color eb) cx.
Proof.
  intros Ed. destruct px_apart as [Hpx _]. destruct bitmap_cell as (Hb1 & Hb2 & Hb3). destruct (jn_child _ _ _ _ _ is_joined) as (Hc1 & Hc2 & Hc3).
  destruct (fk_branch _ _ _ _ _ _ _ is_forked) as (y & Hbr). destruct (fk_head _ _ _ _ _ _ _ is_forked) as (_ & _ & Hh1 & Hh2).
  destruct cut_hash_ok as (_ & _ & Ehx). pose proof (cp_params _ _ has_published) as Hp. pose proof (jn_below _ _ _ _ _ is_joined) as Hbl.
  split; rewrite ?Ed; fold t p0 jump hb; fold hx rest.
  - exact (jn_free _ _ _ _ _ is_joined).
  - intros q e Hq Hne He. rewrite (cp_cells _ _ has_published) in He. rewrite fill_ne in He; [exact (jn_others _ _ _ _ _ is_joined q e Hq Hne He)|].
    intros ->. destruct jump_here as (Ha & _). destruct (an_holds _ _ _ _ Ha) as (_ & He' & Hu & _). rewrite (jn_free _ _ _ _ _ is_joined p0 _ Hq He') in Hu. discriminate.
  - split; [exact head_cell|done].
  - exact Hb3.
  - split; [exact Hb1|]. split; [apply Hbr|]. split; [apply Hbr|]. split; [apply Hbr|]. split; [apply Hbr|exact Hb2].
  - split; [now apply cell_published|done].
  - rewrite Ehx. case_bool_decide as Hr.
    + rewrite Hr. destruct Hbl as (Hcc & _). done.
    + destruct Hbl as (_ & Hj & Hml & Hcc). apply (one_jump_node _ _ _ _ _ _ _ px ex x); try done.
      * now apply cell_published.
      * apply (accumulate_list_params _ _ Hp).
  - case_bool_decide as Hr; [rewrite Hr; apply Hbl|]. destruct rest; [done|apply Hbl].
  - intros q Hq Hq0 Hqx. rewrite (cp_cells _ _ has_published), fill_ne by done. now apply (jn_rest _ _ _ _ _ is_joined).
Qed.
End publish.
End child.
End steps.

(** ** All steps *)

Lemma fork_reached cl s1 s2 : lock_child s = Ret (SI_OK, cl) s1 -> upgrade_lock (containing_entry f) s1 = Ret SI_OK s2 ->
  split_jump_node f s = make_fork (fun eh eb made => split_jump_tail f cl eh eb made x hx) s2.
Proof.
  intros E1 E2. destruct finger_in_jump as (Hdep & Hhb & _). destruct jump_here as (_ & Ev & _ & (y & Hj) & _). destruct cut_range as (Hd & _).
  assert (Ex : get_jump_symbol jump (Z.of_nat d) = x) by exact (jf_symbols _ _ _ Hj d x x_at).
  unfold split_jump_node, get_trie. erewrite bind_Ret by reflexivity. cbv zeta. rewrite Hdep, Ev, Hhb, Ex.
  erewrite bind_Ret by (apply assert_true, Z.ltb_lt; rewrite (jf_size _ _ _ Hj); lia).
  change (accumulate_hash (trie s) hb x) with hx. erewrite bind_Ret by exact E1. cbv iota beta. rewrite bool_decide_false by discriminate.
  erewrite bind_Ret by exact E2. rewrite bool_decide_false by discriminate. reflexivity.
Qed.

(** The new state [s'] and the finger [f'] at the bitmap node. *)
Record jump_was_split (sym : Z -> Z) (f' : ct_finger) (s' : state) : Prop := mk_jump_was_split {
  jw_rep : ordered_rep s' (tsplit n0 sym 0) L0;
  jw_owned : owned (trie s');
  jw_locks : unlocked (trie s') /\ lock_mgr s' = [];
  jw_mem : kv_mem s' = kv_mem s;
  jw_params : same_params t (trie s');
  jw_above : forall i z, path f !! i = Some z -> (i < length (path f) - 1)%nat -> trie_entry (trie s') (last_pos (pe_entry z)) = Some (pe_value z);
  jw_path : exists pe1, at_node (trie s') pe1 h c /\ last_symbol (pe_value pe1) = last_symbol jump /\
    entry_parent_color (pe_value pe1) = entry_parent_color jump /\
    if (d =? 0)%nat then path f' = ending (path f) pe1 /\ containing_entry f' = pe_entry pe1
    else let pe2 := mk_path_entry (containing_entry f') hb in
      path f' = ending (path f) pe1 ++ [pe2] /\ at_node (trie s') pe2 hb (entry_child_color (pe_value pe1));
  jw_room : match extra with hn :: _ => hash_ok t hn -> pair_has_room (trie s') hn = true | [] => True end;
  jw_node : exists cb, holds (trie s') (last_pos (containing_entry f')) (hb, cb) (lc_value (containing_entry f')) /\ entry_type (lc_value (containing_entry f')) = TYPE_BITMAP;
  jw_place : prefix_hash f' = hb /\ prefix_len f' = prefix_len f /\ last_prefix_symbol f' = last_prefix_symbol f /\ depth_in_jump f' = 0;
}.

Lemma split_jump_at : owned t -> x <> symbol_at bytes k ->
  exists f' s', split_jump_node f s = Ret (SI_OK, f') s' /\ jump_was_split (symbol_at bytes) f' s'.
Proof.
  intros Hown Hne. destruct lock_steps as (cl & s1 & s2 & E1 & E2 & Hlk). destruct (fork_step cl s2 Hlk) as (made & pb & eb & eh & seen & newp & s3 & E3 & Hfk).
  pose proof (ga_depth _ _ _ _ _ _ _ _ _ _ _ _ _ _ _ _ reached) as Hk. pose proof (ga_jump _ _ _ _ _ _ _ _ _ _ _ _ _ _ _ _ reached) as [_ Hm].
  destruct (common_at syms (symbol_at bytes) (Z.of_nat (length pre)) d x) as [Hfol Hcom].
  { intros i y Hi Hy. rewrite (Hm i y Hi Hy). f_equal. lia. }
  { exact x_at. }
  { now replace (Z.of_nat (length pre) + Z.of_nat d) with k by lia. }
  assert (Hchild : exists newp' px ex cx s4, joined s2 made pb eb newp' px ex cx s4 /\ split_jump_tail f cl eh eb made x hx s3 = split_jump_publish f eh made s4).
  { destruct jump_here as (_ & Ev & _). destruct finger_in_jump as (Hdep & _). unfold split_jump_tail. rewrite Ev, Hdep. cbv zeta.
    destruct cl as [l|].
    - destruct (recolor_step _ _ Hlk made pb eb eh seen newp s3 Hfk l eq_refl) as (ex & s4 & E4 & Hj).
      exists newp, (last_pos l), ex, (entry_child_color jump), s4. split; [exact Hj|]. now erewrite bind_Ret by exact E4.
    - destruct (tail_step _ _ Hlk made pb eb eh seen newp s3 Hfk (option_map (fun '(p, _, _) => p) made) (cu_child _ _ Hlk)) as (px & ex & s4 & E4 & Hj).
      exists (px :: newp), px, ex, (entry_color ex), s4. split; [exact Hj|]. now erewrite bind_Ret by exact E4. }
  destruct Hchild as (newp' & px & ex & cx & s4 & Hj & E4).
  destruct (head_published s2 made pb eb eh seen newp s3 Hfk newp' px ex cx s4 Hj) as (t' & f' & E5 & Hpub).
  exists f', (mk_state t' [] (kv_mem s)). split; [rewrite (fork_reached cl s1 s2 E1 E2), E3, E4; exact E5|].
  pose proof (cells_of_split s2 made pb eb eh seen newp s3 Hfk newp' px ex cx s4 Hj t' f' Hpub (symbol_at bytes) Hcom) as Hsplit.
  destruct (jump_split_ordered s n0 L0 s_rep (symbol_at bytes) (path f) syms child h c L B pre pe
    (ga_spine _ _ _ _ _ _ _ _ _ _ _ _ _ _ _ _ reached) (ga_last _ _ _ _ _ _ _ _ _ _ _ _ _ _ _ _ reached)
    (ga_on_path _ _ _ _ _ _ _ _ _ _ _ _ _ _ _ _ reached) Hfol Hown x ltac:(now rewrite Hcom)
    t' newp' pb px eb eh ex _ cx (cp_table _ _ _ _ _ _ _ Hpub) (cp_params _ _ _ _ _ _ _ Hpub) Hsplit (mk_state t' [] (kv_mem s)) eq_refl eq_refl) as [Hrep Hown'].
  destruct (bitmap_cell s2 made pb eb eh seen newp s3 Hfk newp' px ex cx s4 Hj t' f' Hpub) as (Hb & _).
  destruct (cp_node _ _ _ _ _ _ _ Hpub) as [Epb Eeb]. pose proof (cp_params _ _ _ _ _ _ _ Hpub) as Hp.
  split; [exact Hrep|exact Hown'|split; [apply Hpub|done]|done|exact Hp| |exact (finger_published s2 made pb eb eh seen newp s3 Hfk newp' px ex cx s4 Hj t' f' Hpub)| | |apply Hpub].
  - intros i z Hi Hlt. exact (above_unchanged s n0 L0 s_rep (symbol_at bytes) (path f) syms child h c L B pre pe
      (ga_spine _ _ _ _ _ _ _ _ _ _ _ _ _ _ _ _ reached) (ga_last _ _ _ _ _ _ _ _ _ _ _ _ _ _ _ _ reached)
      x t' newp' pb px eb eh ex _ cx Hp Hsplit i z Hi Hlt).
  - destruct extra as [|hn l] eqn:Ex; [done|]. intros Hhn. cbn [trie].
    exact (room_published cl s2 Hlk made pb eb eh seen newp s3 Hfk newp' px ex cx s4 Hj t' f' Hpub hn l Ex Hhn).
  - rewrite Epb, Eeb. exists (entry_color eb). split; [exact Hb|]. destruct (fk_branch _ _ _ _ _ _ _ _ Hfk) as (y & Hbr). apply Hbr.
Qed.
End jump.
