(* ===== verification/JumpFinger.v ===== *)
(** * The finger after the split of a jump node (main.c: split_jump_node,
    finger_node_changed)

    The path of the finger leads to the new bitmap node in the new table. Its
    copies of the nodes above were not read again, and are out of date when
    their buckets were written. *)

From S2P Require Import Prelude Bits Entry KeyObject State Hashing Symbols Atomics Table Contents Store Locks Cells Search Relocate AddEntry Finger Insert Iter Api Lookup Preserve Order Linked Spine IterSpec Place Frame Dictionary InsertSpec Fields Nodes TreeInsert Growth NewLeaf LeafTable Upgrade Locked Writes PathLocks Room JumpTree JumpTable JumpNodes SplitJump.
From stdpp Require Import base list gmap sorting.
From Stdlib Require Import ZArith Lia Bool.

#[local] Open Scope Z_scope.

(** ** The children's leaves by their symbol *)

Definition leaf_symbol (m : gmap Z ct_kv) (pre : list Z) (x : leaf_ref) : Z := symbol_at (key_of m (lr_kv x)) (Z.of_nat (length pre)).

Lemma child_leaves t m f e h c g pre s x : children_at t f e h c g -> trie_ok m (TBitmap f) pre -> 0 <= s <= 32 -> x ∈ g s -> leaf_symbol m pre x = s.
Proof.
  intros Hg Hok Hs Hx. specialize (Hg s Hs). specialize (Hok s). destruct (f s) as [ch|].
  - destruct Hg as (_ & c' & Hl & _). destruct Hok as (_ & Hok & _).
    destruct (linked_keys (mk_state t [] m) ch _ c' (g s) (pre ++ [s]) x Hl Hok Hx) as [_ Hk].
    apply (Hk (length pre) s). rewrite lookup_app_r, Nat.sub_diag by lia. reflexivity.
  - destruct Hg as (_ & E). rewrite E in Hx. now apply not_elem_of_nil in Hx.
Qed.

Lemma filter_flat_map (P : leaf_ref -> Prop) `{forall x, Decision (P x)} (g : Z -> list leaf_ref) l :
  base.filter P (flat_map g l) = flat_map (fun s => base.filter P (g s)) l.
Proof. induction l as [|s l IH]; [done|]. cbn [flat_map]. now rewrite filter_app, IH. Qed.

Lemma filter_all (P : leaf_ref -> Prop) `{forall x, Decision (P x)} (l : list leaf_ref) : (forall x, x ∈ l -> P x) -> base.filter P l = l.
Proof.
  induction l as [|x l IH]; intros Hl; [done|]. rewrite filter_cons_True by (apply Hl, list_elem_of_here). f_equal. apply IH. intros y Hy. apply Hl. now right.
Qed.

Lemma filter_none (P : leaf_ref -> Prop) `{forall x, Decision (P x)} (l : list leaf_ref) : (forall x, x ∈ l -> ~ P x) -> base.filter P l = [].
Proof.
  induction l as [|x l IH]; intros Hl; [done|]. rewrite filter_cons_False by (apply Hl, list_elem_of_here). apply IH. intros y Hy. apply Hl. now right.
Qed.

Lemma children_filter t m f e h c g pre s : children_at t f e h c g -> trie_ok m (TBitmap f) pre -> 0 <= s <= 32 ->
  g s = base.filter (fun x => leaf_symbol m pre x = s) (flat_map g all_symbols).
Proof.
  intros Hg Hok Hs. rewrite filter_flat_map, (flat_map_around _ s Hs).
  rewrite (filter_all _ (g s)) by (intros x; now apply (child_leaves t m f e h c g pre)).
  assert (Hn : forall y, 0 <= y <= 32 -> y <> s -> base.filter (fun x => leaf_symbol m pre x = s) (g y) = []).
  { intros y Hy Hne. apply filter_none. intros x Hx. rewrite (child_leaves t m f e h c g pre y x Hg Hok Hy Hx). exact Hne. }
  rewrite !flat_map_nil; [now rewrite app_nil_r|..]; intros y Hy; apply elem_of_symbols_between in Hy; apply Hn; lia.
Qed.

(** Two tables with the same leaves below a bitmap node have the same leaves
    below each child. *)
Lemma same_children t t' m f f' e e' h h' c c' g g' pre s :
  children_at t f e h c g -> trie_ok m (TBitmap f) pre -> children_at t' f' e' h' c' g' -> trie_ok m (TBitmap f') pre ->
  flat_map g all_symbols = flat_map g' all_symbols -> 0 <= s <= 32 -> g' s = g s.
Proof.
  intros H1 H2 H3 H4 E Hs. rewrite (children_filter t' m f' e' h' c' g' pre s H3 H4 Hs), <- E.
  symmetry. now apply (children_filter t m f e h c g pre s).
Qed.

(** ** The path in the new table *)

Section follow.
Variables (t t' : cuckoo_trie) (m : gmap Z ct_kv) (root : tnode) (leaves0 : list leaf_ref) (sym : Z -> Z) (upd : tnode -> Z -> tnode).
Hypothesis t_ok : table_ok t.
Hypothesis t'_ok : table_ok t'.
Hypothesis params : same_params t t'.
Hypothesis root_ok : trie_ok m root [].
Hypothesis new_root_ok : trie_ok m (upd root 0) [].
Hypothesis new_linked : linked t' (upd root 0) HASH_START_VALUE ROOT_COLOR leaves0.
Hypothesis upd_jump : upd_at_jump sym upd.
Hypothesis upd_bitmap : upd_at_bitmap sym upd.

Lemma at_node_kept pe h c : at_node t pe h c -> trie_entry t' (last_pos (pe_entry pe)) = Some (pe_value pe) -> at_node t' pe h c.
Proof.
  intros [H1 (H2 & H3 & H4 & H5) H6] He. split; [rewrite H1; now rewrite (same_params_eq _ _ params)| |exact H6].
  split; [now rewrite <- params|]. split; [exact He|]. split; [exact H4|]. now rewrite <- params.
Qed.

(** The copies above the last one are still those of the nodes. *)
Definition above_kept (P : list ct_path_entry) : Prop :=
  forall i z, P !! i = Some z -> (i < length P - 1)%nat -> trie_entry t' (last_pos (pe_entry z)) = Some (pe_value z).

Lemma above_kept_init P pe' pe : above_kept (P ++ [pe']) -> last P = Some pe -> above_kept P /\ trie_entry t' (last_pos (pe_entry pe)) = Some (pe_value pe).
Proof.
  intros Hk Hl. assert (Hlen : (1 <= length P)%nat) by (destruct P; [discriminate|cbn; lia]). split.
  - intros i z Hi Hlt. apply (Hk i z); [|rewrite length_app; cbn; lia]. rewrite lookup_app_l by lia. exact Hi.
  - apply (Hk (length P - 1)%nat); [|rewrite length_app; cbn; lia]. rewrite lookup_app_l by lia. rewrite last_lookup in Hl. rewrite <- Hl. f_equal. lia.
Qed.

Lemma follow_spine P n h c L B pre : spine t root leaves0 P n h c L B pre -> along sym pre -> above_kept P ->
  forall pe pe1, last P = Some pe -> at_node t' pe1 h c -> last_symbol (pe_value pe1) = last_symbol (pe_value pe) ->
    entry_parent_color (pe_value pe1) = entry_parent_color (pe_value pe) ->
    spine t' (upd root 0) leaves0 (ending P pe1) (upd n (Z.of_nat (length pre))) h c L B pre.
Proof.
  induction 1 as [pe0 Ha Hn|P pe0 pe' syms child h c L B pre Hs IH Hl Ha Hn|P pe0 pe' f g h c L B pre s ch c' Hs IH Hl HL Hg Hsr Hf Hch Ha Hlast Hn];
    intros Hal Hkept pe pe1 Hpe Ha1 Es Ec.
  - apply spine_root; [exact Ha1|]. apply linked_unfold in new_linked as (p & e & Hh & Hn').
    destruct (holds_entry _ _ _ _ _ _ t'_ok Hh (an_holds _ _ _ _ Ha1)) as [_ E]. unfold pe_value. rewrite <- E. exact Hn'.
  - destruct (above_kept_init P pe' pe0 Hkept Hl) as [Hk0 He0]. destruct (spine_end _ _ _ _ _ _ _ _ _ _ _ Hs Hl) as (Ha0 & _).
    pose proof (IH (along_app _ _ _ Hal) Hk0 pe0 pe0 Hl (at_node_kept _ _ _ Ha0 He0) eq_refl eq_refl) as Hsp.
    rewrite (ending_same P pe0 Hl) in Hsp. rewrite upd_jump in Hsp by (now apply along_follows). rewrite ending_snoc.
    destruct (spine_end _ _ _ _ _ _ _ _ _ _ _ Hsp Hl) as (_ & (_ & _ & _ & _ & Hlk) & _).
    rewrite length_app, Nat2Z.inj_add. rewrite <- (accumulate_list_params _ _ params) in Ha1 |- *.
    apply (spine_jump t' _ _ P pe0 pe1 syms _ h c L B pre Hsp Hl Ha1).
    apply linked_unfold in Hlk as (p & e & Hh & Hn').
    destruct (holds_entry _ _ _ _ _ _ t'_ok Hh (an_holds _ _ _ _ Ha1)) as [_ E]. unfold pe_value at 1. rewrite <- E. exact Hn'.
  - destruct (above_kept_init P pe' pe0 Hkept Hl) as [Hk0 He0]. destruct (spine_end _ _ _ _ _ _ _ _ _ _ _ Hs Hl) as (Ha0 & _).
    pose proof (IH (along_app _ _ _ Hal) Hk0 pe0 pe0 Hl (at_node_kept _ _ _ Ha0 He0) eq_refl eq_refl) as Hsp.
    rewrite (ending_same P pe0 Hl) in Hsp. rewrite ending_snoc. rewrite last_snoc in Hpe. injection Hpe as <-.
    assert (Epre : s = sym (Z.of_nat (length pre))) by (apply Hal; rewrite lookup_app_r, Nat.sub_diag by lia; reflexivity).
    destruct (upd_bitmap f (Z.of_nat (length pre)) ch ltac:(now rewrite <- Epre)) as (F & EF & HF). rewrite <- Epre in HF. rewrite EF in Hsp.
    pose proof (spine_ok _ m _ _ _ _ _ _ _ _ _ Hs root_ok) as Hok. pose proof (spine_ok _ m _ _ _ _ _ _ _ _ _ Hsp new_root_ok) as HokF.
    destruct (spine_end _ _ _ _ _ _ _ _ _ _ _ Hsp Hl) as (_ & (_ & _ & _ & g' & HL' & Hg') & _).
    assert (Eg : forall y, 0 <= y <= 32 -> g' y = g y).
    { intros y Hy. apply (same_children t t' m f F (pe_value pe0) (pe_value pe0) h h c c g g' pre y); try done. congruence. }
    rewrite length_app, Nat2Z.inj_add. rewrite <- (Eg s Hsr).
    replace (flat_map g (symbols_below s)) with (flat_map g' (symbols_below s)).
    2: { rewrite !flat_map_concat_map. f_equal. apply map_ext_in. intros y Hy. apply Eg. apply list_elem_of_In, elem_of_symbols_between in Hy. lia. }
    rewrite <- (accumulate_hash_params _ _ params) in Ha1 |- *.
    pose proof (Hg' s Hsr) as Hgs. rewrite HF, Z.eqb_refl in Hgs. destruct Hgs as (_ & c2 & Hlk & Hc2).
    assert (c2 = c') as ->.
    { destruct Hch as [(q & e & Hq & _ & Hp) _]. destruct (holds_entry _ _ _ _ _ _ t_ok Hq (an_holds _ _ _ _ Ha)) as [_ E].
      symmetry. apply (proj2 Hc2 _ c' _ (an_holds _ _ _ _ Ha1)); [exact (eq_trans Es Hlast)|]. fold (pe_value pe1). rewrite Ec. unfold pe_value. now rewrite <- E. }
    apply (spine_bitmap t' _ _ P pe0 pe1 F g' h c L B pre s _ c' Hsp Hl HL' Hg' Hsr); try done.
    + rewrite HF, Z.eqb_refl. reflexivity.
    + congruence.
    + apply linked_unfold in Hlk as (p & e & Hh & Hn').
      destruct (holds_entry _ _ _ _ _ _ t'_ok Hh (an_holds _ _ _ _ Ha1)) as [_ E]. unfold pe_value. rewrite <- E. exact Hn'.
Qed.
End follow.

(** Every node of the path was reached by a symbol at least. *)
Lemma spine_path_length t m root leaves0 P n h c L B pre :
  spine t root leaves0 P n h c L B pre -> trie_ok m root [] -> (length P <= S (length pre))%nat.
Proof.
  induction 1 as [pe Ha Hn|P pe pe' syms child h c L B pre Hs IH Hl Ha Hn|P pe pe' f g h c L B pre s ch c' Hs IH Hl HL Hg Hsr Hf Hch Ha Hlast Hn];
    intros Hok; [cbn; lia|..]; rewrite !length_app; cbn [length]; specialize (IH Hok); [|lia].
  pose proof (spine_ok _ m _ _ _ _ _ _ _ _ _ Hs Hok) as (Hlen & _). lia.
Qed.

Lemma prefix_hash_params t t' bytes n : same_params t t' -> prefix_hash_of t' bytes n = prefix_hash_of t bytes n.
Proof. intros Hp. induction n as [|n IH]; [done|]. cbn [prefix_hash_of]. now rewrite IH, (accumulate_hash_params _ _ Hp). Qed.

(** ** The finger at the bitmap node *)

Section after.
Context `{laws : BucketLaws} `{env : Env}.
Variables (s : state) (n0 : tnode) (L0 : list leaf_ref).
Hypothesis s_rep : ordered_rep s n0 L0.
Variables (bytes : list Z) (f : ct_finger) (lb : option nat) (k : Z) (syms : list Z) (child : tnode) (h c : Z) (d : nat)
  (L B A : list leaf_ref) (pre : list Z) (pe : ct_path_entry) (x : Z) (extra : list Z).
Hypothesis reached : goto_at s n0 L0 bytes f lb k (TJump syms child) h c d L B A pre pe.
Hypothesis k_bound : 0 <= k <= 408.
Hypothesis x_at : syms !! d = Some x.
Hypothesis x_differs : x <> symbol_at bytes k.
Variables (f' : ct_finger) (s' : state).
Hypothesis was_split : jump_was_split s n0 L0 f syms h c d pe extra (symbol_at bytes) f' s'.

Let t : cuckoo_trie := trie s.
Let t' : cuckoo_trie := trie s'.
Let sym : Z -> Z := symbol_at bytes.
Let hb : Z := accumulate_list t h (take d syms).

(** The children of the bitmap node. *)
Definition fork_children (y : Z) : option tnode :=
  match syms !! d with
  | Some x => if y =? x then Some (jump_opt (drop (S d) syms) child) else None
  | None => None
  end.

Let params : same_params t t' := jw_params _ _ _ _ _ _ _ _ _ _ _ _ _ was_split.
Let t_ok : table_ok t := tr_table _ _ (or_rep _ _ _ s_rep).
Let t'_ok : table_ok t' := tr_table _ _ (or_rep _ _ _ (jw_rep _ _ _ _ _ _ _ _ _ _ _ _ _ was_split)).

Lemma fork_of_jump : tsplit (TJump syms child) sym (Z.of_nat (length pre)) = jump_opt (take d syms) (TBitmap fork_children).
Proof.
  pose proof (ga_depth _ _ _ _ _ _ _ _ _ _ _ _ _ _ _ _ reached) as Hk. pose proof (ga_jump _ _ _ _ _ _ _ _ _ _ _ _ _ _ _ _ reached) as [_ Hm].
  destruct (common_at syms sym (Z.of_nat (length pre)) d x) as [Hfol Hcom]; [|exact x_at| |cbn [tsplit]; now rewrite Hfol, Hcom].
  - intros i y Hi Hy. rewrite (Hm i y Hi Hy). unfold sym. f_equal. lia.
  - replace (Z.of_nat (length pre) + Z.of_nat d) with k by lia. exact x_differs.
Qed.

Lemma head_spine pe1 : at_node t' pe1 h c -> last_symbol (pe_value pe1) = last_symbol (pe_value pe) ->
  entry_parent_color (pe_value pe1) = entry_parent_color (pe_value pe) ->
  spine t' (tsplit n0 sym 0) L0 (ending (path f) pe1) (jump_opt (take d syms) (TBitmap fork_children)) h c L B pre.
Proof.
  intros Ha Es Ec. rewrite <- fork_of_jump.
  apply (follow_spine t t' (kv_mem s) n0 L0 sym (fun n k => tsplit n sym k) t_ok t'_ok params (tr_ok _ _ (or_rep _ _ _ s_rep))) with (pe := pe).
  - now apply tsplit_ok, (tr_ok _ _ (or_rep _ _ _ s_rep)).
  - apply (or_linked _ _ _ (jw_rep _ _ _ _ _ _ _ _ _ _ _ _ _ was_split)).
  - intros y ch j Hf. cbn [tsplit]. now rewrite Hf.
  - intros g j ch Hf. eexists. split; [reflexivity|]. intros y. cbv beta. destruct (Z.eqb_spec y (sym j)) as [->|]; [now rewrite Hf|done].
  - apply (ga_spine _ _ _ _ _ _ _ _ _ _ _ _ _ _ _ _ reached).
  - exact (ga_on_path _ _ _ _ _ _ _ _ _ _ _ _ _ _ _ _ reached).
  - exact (jw_above _ _ _ _ _ _ _ _ _ _ _ _ _ was_split).
  - apply (ga_last _ _ _ _ _ _ _ _ _ _ _ _ _ _ _ _ reached).
  - exact Ha.
  - exact Es.
  - exact Ec.
Qed.

Lemma bitmap_above_ending P pe0 pe1 : last P = Some pe0 -> bitmap_above (ending P pe1) (length (ending P pe1) - 1) = bitmap_above P (length P - 1).
Proof.
  intros (Q & ->)%last_Some. rewrite ending_snoc, !length_app. cbn [length]. replace (length Q + 1 - 1)%nat with (length Q) by lia.
  now rewrite !bitmap_above_app by lia.
Qed.

Lemma fork_spine : exists cb pe', spine t' (tsplit n0 sym 0) L0 (path f') (TBitmap fork_children) hb cb L B (pre ++ take d syms) /\
  last (path f') = Some pe' /\ containing_entry f' = pe_entry pe' /\ bitmap_above (path f') (length (path f') - 1) = lb.
Proof.
  destruct (jw_path _ _ _ _ _ _ _ _ _ _ _ _ _ was_split) as (pe1 & Ha & Es & Ec & Hp). pose proof (head_spine pe1 Ha Es Ec) as Hs.
  pose proof (ga_last _ _ _ _ _ _ _ _ _ _ _ _ _ _ _ _ reached) as Hlast. pose proof (bitmap_above_ending _ _ pe1 Hlast) as Hb.
  rewrite <- (ga_bitmap _ _ _ _ _ _ _ _ _ _ _ _ _ _ _ _ reached) in Hb.
  assert (Hl1 : last (ending (path f) pe1) = Some pe1) by (unfold ending; apply last_snoc).
  destruct (Nat.eqb_spec d 0) as [Ed|Ed].
  - destruct Hp as [-> Een]. exists c, pe1. unfold hb. rewrite Ed in Hs |- *. cbn [take jump_opt accumulate_list fold_left] in Hs |- *. rewrite app_nil_r. done.
  - destruct Hp as [-> Ha2]. cbv zeta in Ha2. change (trie s') with t' in Ha2. change (accumulate_list (trie s) h (take d syms)) with hb in *. set (pe2 := mk_path_entry (containing_entry f') hb) in *.
    assert (Htk : jump_opt (take d syms) (TBitmap fork_children) = TJump (take d syms) (TBitmap fork_children)).
    { destruct (take d syms) as [|z l] eqn:E; [|done]. exfalso. apply (f_equal length) in E. rewrite length_take in E. pose proof (lookup_lt_Some _ _ _ x_at). cbn in E. lia. }
    rewrite Htk in Hs. destruct (spine_end _ _ _ _ _ _ _ _ _ _ _ Hs Hl1) as (_ & (Ty & _ & _ & _ & Hlk) & _).
    assert (Ehb : hb = accumulate_list t' h (take d syms)) by (unfold hb; now rewrite (accumulate_list_params _ _ params)).
    exists (entry_child_color (pe_value pe1)), pe2. split; [|split; [apply last_snoc|split; [done|]]].
    + rewrite Ehb. apply (spine_jump t' _ _ _ pe1 pe2 _ _ h c L B pre Hs Hl1); [now rewrite <- Ehb|].
      apply linked_unfold in Hlk as (p & e & Hh & Hn). rewrite <- Ehb in Hh.
      destruct (holds_entry _ _ _ _ _ _ t'_ok Hh (an_holds _ _ _ _ Ha2)) as [_ E]. unfold pe_value at 1. rewrite <- E. exact Hn.
    + rewrite length_app. cbn [length]. replace (length (ending (path f) pe1) + 1 - 1)%nat with (length (ending (path f) pe1)) by lia.
      rewrite (bitmap_above_last _ pe1 pe2 Hl1), Ty. exact Hb.
Qed.

Lemma finger_at_fork : exists cb pe', goto_on s' (tsplit n0 sym 0) L0 bytes f' lb k (TBitmap fork_children) hb cb 0 L B A (pre ++ take d syms) pe' /\
  fork_children (sym k) = None.
Proof.
  destruct fork_spine as (cb & pe' & Hs & Hl & Een & Hb). destruct (spine_end _ _ _ _ _ _ _ _ _ _ _ Hs Hl) as (Ha & _ & Hlk).
  destruct (finger_in_jump s n0 L0 bytes f lb k syms child h c d L B A pre pe x reached k_bound) as (_ & Hhb & Hsr & _).
  destruct (jw_place _ _ _ _ _ _ _ _ _ _ _ _ _ was_split) as (J1 & J2 & J3 & J4). pose proof (lookup_lt_Some _ _ _ x_at) as Hd.
  pose proof (ga_depth _ _ _ _ _ _ _ _ _ _ _ _ _ _ _ _ reached) as Hk. pose proof (ga_jump _ _ _ _ _ _ _ _ _ _ _ _ _ _ _ _ reached) as [_ Hm].
  pose proof (ga_finger _ _ _ _ _ _ _ _ _ _ _ _ _ _ _ _ reached) as Hf.
  assert (Hlen : length (pre ++ take d syms) = Z.to_nat k) by (rewrite length_app, length_take; lia).
  assert (Hok : trie_ok (kv_mem s) (tsplit n0 sym 0) []) by (apply tsplit_ok, (tr_ok _ _ (or_rep _ _ _ s_rep))).
  assert (Ehash : hb = prefix_hash_of t' bytes (Z.to_nat k)).
  { rewrite (prefix_hash_params _ _ _ _ params). change hb with (accumulate_list (trie s) h (take d syms)). rewrite <- Hhb. apply (fa_hash _ _ _ _ _ _ _ _ Hf). }
  exists cb, pe'. split.
  2: { unfold fork_children. rewrite x_at. destruct (Z.eqb_spec (sym k) x) as [E|]; [now destruct x_differs|done]. }
  split; try done.
  - split.
    + rewrite Een. apply Ha.
    + apply linked_rep, rep_unfold in Hlk as (p & e & Hh & Hn). rewrite Een.
      destruct (holds_entry _ _ _ _ _ _ t'_ok Hh (an_holds _ _ _ _ Ha)) as [_ <-]. exact Hn.
    + rewrite J4. done.
    + rewrite J2. apply (fa_prefix _ _ _ _ _ _ _ _ Hf).
    + rewrite J1. exact Ehash.
    + exists (Z.to_nat k). split; [lia|exact Ehash].
    + pose proof (spine_path_length _ (kv_mem s) _ _ _ _ _ _ _ _ _ Hs Hok). lia.
    + rewrite J3. apply (fa_symbol _ _ _ _ _ _ _ _ Hf).
    + now rewrite J3.
  - apply (ga_leaves _ _ _ _ _ _ _ _ _ _ _ _ _ _ _ _ reached).
  - pose proof (ga_before _ _ _ _ _ _ _ _ _ _ _ _ _ _ _ _ reached) as HB. unfold is_before, ref_key in *.
    now rewrite (jw_mem _ _ _ _ _ _ _ _ _ _ _ _ _ was_split).
  - pose proof (ga_after _ _ _ _ _ _ _ _ _ _ _ _ _ _ _ _ reached) as HA. unfold is_after, ref_key in *.
    now rewrite (jw_mem _ _ _ _ _ _ _ _ _ _ _ _ _ was_split).
  - apply (ga_single _ _ _ _ _ _ _ _ _ _ _ _ _ _ _ _ reached).
  - rewrite (jw_mem _ _ _ _ _ _ _ _ _ _ _ _ _ was_split). exact (spine_ok _ _ _ _ _ _ _ _ _ _ _ Hs Hok).
  - intros i y Hy. apply lookup_app_Some in Hy as [Hy|[Hi Hy]]; [now apply (ga_on_path _ _ _ _ _ _ _ _ _ _ _ _ _ _ _ _ reached)|].
    apply lookup_take_Some in Hy as [Hy Hlt]. rewrite (Hm _ y Hlt Hy). f_equal. lia.
  - rewrite Nat.add_0_r, Hlen. lia.
  - left. destruct (ga_bound _ _ _ _ _ _ _ _ _ _ _ _ _ _ _ _ reached) as [Hbd|[_ Hbd]]; [exact Hbd|discriminate].
Qed.
End after.
