(* ===== verification/Publish.v ===== *)
(** * Making a new leaf reachable (main.c: the end of create_leaf for a
    bitmap node)

    The leaf was created and all locks are held: it gets its successor, its
    predecessor is marked dirty and linked to it, the bitmap node gets its
    bit, the nodes above their new maximal leaf, and the locks are released. *)

From S2P Require Import Prelude Bits Entry KeyObject State Hashing Symbols Atomics Table Contents Store Locks Cells Search Relocate AddEntry Finger Insert Api Lookup Order Linked Spine Dictionary Fields Growth Upgrade Writes.
From stdpp Require Import base list gmap sorting.
From Stdlib Require Import ZArith Lia Bool.

#[local] Open Scope Z_scope.

(** The last statements of [create_leaf_in_bitmap]. *)
Definition publish_leaf `{BucketOps} `{Env} (f : ct_finger) (pred : ct_entry_local_copy) (new_leaf : pos) (next_symbol new_leaf_hash : Z) : MS si_status :=
  e ← get_entry new_leaf;
  _ ← put_entry new_leaf (set_next_leaf (next_leaf (lc_value pred)) e);
  pred1 ← mark_entry_dirty pred;
  pred2 ← linklist_insert pred1 new_leaf (hash_to_bucket new_leaf_hash);
  leaf ← get_entry new_leaf;
  bitmap ← lift (path_local f (last_path_entry f));
  bitmap' ← mark_bitmap_child bitmap next_symbol new_leaf_hash (entry_color leaf);
  f1 ← reread_path_end (set_path_local (last_path_entry f) bitmap' f);
  _ ← propagate_max_leaf f1;
  _ ← mark_entry_clean pred2;
  _ ← release_all_locks;
  mret SI_OK.

Section publish.
Context `{BucketLaws} `{Env}.
Variables (N : Z) (s : state).
Variables (f : ct_finger) (pe : ct_path_entry) (pred : ct_entry_local_copy) (pl : pos) (x : ct_entry) (sy hn : Z).

Let P : list ct_path_entry := path f.
Let n : nat := (length P - 1)%nat.
Let pp : pos := last_pos pred.
Let ep : ct_entry := lc_value pred.
Let loc : ct_entry_locator := mk_locator (hash_to_bucket hn) (hash_to_tag hn) (entry_color x).
Let node' : ct_entry := with_child loc sy (pe_value pe).

Hypothesis s_busy : busy N s (trie s) (trie_entry (trie s)).
Hypothesis at_end : last P = Some pe.
Hypothesis sy_ok : 0 <= sy <= 32.
Hypothesis loc_ok : locator_ok loc.
(** The new leaf. *)
Hypothesis new_at : trie_entry (trie s) pl = Some x /\ in_table (trie s) pl /\ entry_tag x = hash_to_tag hn.
(** The predecessor. *)
Hypothesis pred_usable : usable (trie s) pred.
Hypothesis pred_held : held s pp.
Hypothesis pred_clean : entry_dirty ep = false.
(** The path. *)
Hypothesis path_usable : forall z, z ∈ P -> usable (trie s) (pe_entry z).
Hypothesis node_held : held s (last_pos (pe_entry pe)).
Hypothesis path_held : forall i z, (walk_top P n <= i < n)%nat -> P !! i = Some z -> held s (last_pos (pe_entry z)).
Hypothesis path_distinct : forall i j y z, (i < j)%nat -> P !! i = Some y -> P !! j = Some z -> last_pos (pe_entry y) <> last_pos (pe_entry z).
(** They are different entries. *)
Hypothesis pl_ne : pl <> pp /\ forall z, z ∈ P -> last_pos (pe_entry z) <> pl.
Hypothesis pp_ne : forall z, z ∈ P -> last_pos (pe_entry z) <> pp.

Let x1 : ct_entry := set_next_leaf (next_leaf ep) x.

Lemma x_ok : entry_ok x.
Proof. exact (shape_entry _ _ _ (by_shape _ _ _ _ s_busy) (proj1 new_at)). Qed.

Lemma ep_entry_ok : entry_ok ep.
Proof. exact (shape_entry _ _ _ (by_shape _ _ _ _ s_busy) (us_at _ _ pred_usable)). Qed.

Lemma s_eq : set_trie (trie s) s = s.
Proof. now destruct s. Qed.

Lemma end_at : P !! n = Some pe /\ pe ∈ P.
Proof.
  split; [|now apply last_Some_elem_of]. rewrite <- at_end, last_lookup. f_equal. unfold n. lia.
Qed.

(** The cells after the links: the new leaf with its successor, and the dirty
    predecessor with the new leaf. *)
Definition linked_cells : cell_map :=
  fill pp (set_next_leaf loc (entry_set_dirty ep)) (fill pp (entry_set_dirty ep) (fill pl x1 (trie_entry (trie s)))).

Lemma link_steps :
  exists t2 pred2, (forall (r : ct_entry_local_copy -> MS si_status),
      (e ← get_entry pl; _ ← put_entry pl (set_next_leaf (next_leaf (lc_value pred)) e);
       pred1 ← mark_entry_dirty pred; pred2 ← linklist_insert pred1 pl (hash_to_bucket hn); r pred2) s = r pred2 (set_trie t2 s)) /\
    busy N s t2 linked_cells /\ usable t2 pred2 /\ last_pos pred2 = pp /\ lc_value pred2 = set_next_leaf loc (entry_set_dirty ep) /\
    forall l, usable (trie s) l -> last_pos l <> pl -> last_pos l <> pp -> usable t2 l.
Proof.
  destruct new_at as (Hx & Hin & Htag). destruct pl_ne as [Hlp _]. pose proof x_ok as Hxok. pose proof ep_entry_ok as Hep.
  destruct (set_dirty_tags ep Hep pred_clean) as [Hd Hdt].
  destruct (put_busy N s (trie s) _ pl x x1 s_busy Hx Hin) as (t1 & E1 & B1 & K1); [now apply set_entry_locator_ok|now apply set_locator_tags|].
  pose proof (K1 pred pred_usable (not_eq_sym Hlp)) as U1.
  destruct (update_busy N s t1 _ pred (entry_set_dirty ep) B1 U1 pred_held Hd Hdt) as (q2 & t2 & E2 & B2 & U2 & K2).
  set (pred1 := mk_local (entry_set_dirty ep) (last_pos pred) (primary_bucket pred) q2) in *.
  assert (Hat : trie_entry t2 pl = Some x1).
  { rewrite (by_at _ _ _ _ B2), fill_ne by exact Hlp. apply fill_eq. }
  destruct (update_busy N s t2 _ pred1 (set_next_leaf loc (entry_set_dirty ep)) B2 U2 pred_held) as (q3 & t3 & E3 & B3 & U3 & K3);
    [now apply set_entry_locator_ok|now apply set_locator_tags|].
  exists t3, (mk_local (set_next_leaf loc (entry_set_dirty ep)) (last_pos pred1) (primary_bucket pred1) q3).
  split; [|split; [exact B3|split; [exact U3|split; [done|split; [done|]]]]].
  - intros r. erewrite bind_Ret by (apply get_entry_eq; exact Hx). rewrite <- s_eq at 1.
    erewrite bind_Ret by exact E1. unfold mark_entry_dirty. erewrite bind_Ret by exact E2. unfold linklist_insert.
    destruct (header_flags _ _ (agrees_header _ _ (set_locator_agrees (next_leaf ep) x Hxok))) as (_ & _ & Et).
    pose proof (sg_color _ _ (set_locator_tags (next_leaf ep) x Hxok)) as Ec.
    erewrite bind_Ret; [reflexivity|]. erewrite bind_Ret by (apply get_entry_eq; exact Hat).
    unfold x1. rewrite Et, Ec, Htag. exact E3.
  - intros l Hl Hne1 Hne2. apply K3; [|exact Hne2]. apply K2; [|exact Hne2]. now apply K1.
Qed.

(** ** The bitmap node and the nodes above it *)

Lemma node_entry_ok : entry_ok (pe_value pe).
Proof. exact (shape_entry _ _ _ (by_shape _ _ _ _ s_busy) (us_at _ _ (path_usable pe (proj2 end_at)))). Qed.

Definition on_path (q : pos) : Prop := exists z, z ∈ P /\ q = last_pos (pe_entry z).

(** The finger with the updated copy of the node. *)
Lemma ready_path t l :
  last_pos l = last_pos (pe_entry pe) -> lc_value l = node' ->
  (forall z, z ∈ P -> z <> pe -> usable t (pe_entry z)) ->
  let f1 := set_containing_entry l (set_path_local n l f) in
  ready s (max_leaf node') f1 n t /\ walk_top (path f1) n = walk_top P n /\
  (forall i z, (i < n)%nat -> path f1 !! i = Some z <-> P !! i = Some z).
Proof.
  intros Hp Hv Hus f1. destruct end_at as [Hend Hin]. pose proof (lookup_lt_Some _ _ _ Hend) as Hlt.
  change (path f1) with (path (set_path_local n l f)).
  assert (Hlow : forall i z, (i < n)%nat -> path (set_path_local n l f) !! i = Some z <-> P !! i = Some z).
  { intros i z Hi. unfold set_path_local, set_path. cbn [path]. fold P. now rewrite list_lookup_alter_ne by lia. }
  assert (Htop : walk_top (path (set_path_local n l f)) n = walk_top P n).
  { apply walk_top_ext; [done|]. intros i z Hi Hz. eexists. split; [apply set_path_local_lookup; exact Hz|].
    destruct (decide (n = i)) as [<-|Hne]; [|done]. split; [|lia]. rewrite Hend in Hz. injection Hz as <-.
    unfold pe_value at 1. cbn [pe_entry lc_value]. rewrite Hv. apply (with_child_header _ loc sy node_entry_ok sy_ok). lia. }
  assert (Hother : forall i z, (i < n)%nat -> P !! i = Some z -> z <> pe).
  { intros i z Hi Hz ->. exact (path_distinct i n pe pe Hi Hz Hend eq_refl). }
  split; [|done]. split; change (path f1) with (path (set_path_local n l f)).
  - eexists. split; [apply set_path_local_lookup; exact Hend|]. rewrite decide_True by done. unfold pe_value. cbn [pe_entry]. now rewrite Hv.
  - intros i z Hi Hz. apply Hlow in Hz; [|done]. apply Hus; [eapply list_elem_of_lookup_2; exact Hz|exact (Hother i z Hi Hz)].
  - intros i j y z Hij Hy Hz. apply Hlow in Hy, Hz; [|lia..]. exact (path_distinct i j y z (proj1 Hij) Hy Hz).
  - rewrite Htop. intros i z Hi Hz. apply Hlow in Hz; [|lia]. exact (path_held i z Hi Hz).
Qed.

Lemma mark_steps t2 :
  busy N s t2 linked_cells -> (forall z, z ∈ P -> usable t2 (pe_entry z)) ->
  exists t3 E3, (forall r : MS si_status,
      (leaf ← get_entry pl; bitmap ← lift (path_local f (last_path_entry f));
       bitmap' ← mark_bitmap_child bitmap sy hn (entry_color leaf);
       f1 ← reread_path_end (set_path_local (last_path_entry f) bitmap' f);
       _ ← propagate_max_leaf f1; r) (set_trie t2 s) = r (set_trie t3 s)) /\
    busy N s t3 E3 /\ E3 (last_pos (pe_entry pe)) = Some node' /\
    (forall i z, P !! i = Some z -> (i < n)%nat ->
       E3 (last_pos (pe_entry z)) = Some (if (walk_top P n <=? i)%nat then set_max_leaf (max_leaf node') (pe_value z) else pe_value z)) /\
    (forall q, ~ on_path q -> E3 q = linked_cells q) /\
    (forall l, usable t2 l -> ~ on_path (last_pos l) -> usable t3 l).
Proof.
  intros B2 U2. destruct new_at as (_ & _ & Htag). destruct pl_ne as [Hlp Hpl]. destruct end_at as [Hend Hin].
  pose proof x_ok as Hxok. pose proof node_entry_ok as Hnok.
  pose proof (with_child_ok (pe_value pe) loc sy Hnok sy_ok) as Hnok'.
  destruct (update_busy N s t2 _ (pe_entry pe) node' B2 (U2 pe Hin) node_held Hnok') as (q3 & t3 & E3 & B3 & _ & K3).
  { apply same_header_tags. apply (with_child_header _ loc sy Hnok sy_ok). }
  set (l3 := mk_local node' (last_pos (pe_entry pe)) (primary_bucket (pe_entry pe)) q3) in *.
  assert (Hdist : forall z, z ∈ P -> z <> pe -> last_pos (pe_entry z) <> last_pos (pe_entry pe)).
  { intros z Hz Hne. apply list_elem_of_lookup in Hz as (i & Hi). pose proof (lookup_lt_Some _ _ _ Hi).
    apply (path_distinct i n z pe); [|exact Hi|exact Hend]. destruct (decide (i = n)) as [->|]; [congruence|unfold n in *; lia]. }
  destruct (ready_path t3 l3 eq_refl eq_refl) as (HR & Htop & Hlow).
  { intros z Hz Hne. apply K3; [now apply U2|exact (Hdist z Hz Hne)]. }
  set (f1 := set_containing_entry l3 (set_path_local n l3 f)) in *.
  destruct (propagate_spec N s (max_leaf node') (entry_locator_ok _ Hnok') n f1 t3 _ HR B3) as (f2 & t4 & E4 & Ep & B4 & P1 & P2 & P3).
  rewrite Htop in *.
  assert (Hrange : forall q, path_range (path f1) (walk_top P n) n q -> exists i z, (walk_top P n <= i < n)%nat /\ P !! i = Some z /\ q = last_pos (pe_entry z)).
  { intros q (i & z & Hi & Hz & ->). exists i, z. split; [done|]. split; [apply Hlow; [lia|done]|done]. }
  assert (Hnot : forall i z, P !! i = Some z -> (i < walk_top P n)%nat \/ i = n -> ~ path_range (path f1) (walk_top P n) n (last_pos (pe_entry z))).
  { intros i z Hz Hi Hr. apply Hrange in Hr as (j & w & Hj & Hw & Eq). destruct (decide (i < j)%nat) as [Hlt|Hge].
    - exact (path_distinct i j z w Hlt Hz Hw Eq).
    - apply (path_distinct j i w z ltac:(lia) Hw Hz). now symmetry. }
  exists t4, E4. split; [|split; [exact B4|split; [|split; [|split]]]].
  - intros r. assert (Hat : trie_entry t2 pl = Some x1).
    { rewrite (by_at _ _ _ _ B2). unfold linked_cells. rewrite !fill_ne by exact Hlp. apply fill_eq. }
    pose proof (sg_color _ _ (set_locator_tags (next_leaf ep) x Hxok)) as Ec. fold x1 in Ec.
    erewrite bind_Ret by (apply get_entry_eq; exact Hat). change (last_path_entry f) with n.
    assert (Epl : path_local f n = Some (pe_entry pe)) by (unfold path_local; fold P; now rewrite Hend).
    rewrite Epl. erewrite bind_Ret by reflexivity. rewrite Ec.
    erewrite bind_Ret by exact E3.
    assert (Epl2 : path_local (set_path_local n l3 f) n = Some l3).
    { unfold path_local. rewrite (set_path_local_lookup f n l3 n pe Hend), decide_True by done. reflexivity. }
    erewrite bind_Ret.
    2: { unfold reread_path_end. assert (El : last_path_entry (set_path_local n l3 f) = n).
         { unfold last_path_entry, set_path_local, set_path. cbn [path]. rewrite length_alter. reflexivity. }
         rewrite El, Epl2. erewrite bind_Ret by reflexivity. reflexivity. }
    fold f1. erewrite bind_Ret; [reflexivity|]. unfold propagate_max_leaf.
    assert (El : last_path_entry f1 = n).
    { unfold last_path_entry, f1, set_containing_entry, set_path_local, set_path. cbn [path]. rewrite length_alter. reflexivity. }
    rewrite El. exact Ep.
  - rewrite P2 by (apply (Hnot n pe Hend); now right). apply fill_eq.
  - intros i z Hz Hi. destruct (Nat.leb_spec (walk_top P n) i) as [Hle|Hgt].
    + apply (P1 i); [lia|]. apply Hlow; done.
    + rewrite P2 by (apply (Hnot i z Hz); now left). rewrite fill_ne.
      * rewrite <- (by_at _ _ _ _ B2). apply (us_at _ _ (U2 z ltac:(eapply list_elem_of_lookup_2; exact Hz))).
      * exact (path_distinct i n z pe Hi Hz Hend).
  - intros q Hq. rewrite P2; [apply fill_ne|].
    + intros ->. apply Hq. exists pe. done.
    + intros Hr. apply Hrange in Hr as (i & z & _ & Hz & ->). apply Hq. exists z. split; [eapply list_elem_of_lookup_2; exact Hz|done].
  - intros l Hl Hq. apply P3.
    + apply K3; [exact Hl|]. intros El. apply Hq. exists pe. done.
    + intros Hr. apply Hrange in Hr as (i & z & _ & Hz & El). apply Hq. exists z. split; [eapply list_elem_of_lookup_2; exact Hz|done].
Qed.

(** ** All steps *)

(** The cells at the end, in table [t']. *)
Record published (t' : cuckoo_trie) : Prop := mk_published {
  pb_table : table_ok t';
  pb_params : same_params (trie s) t';
  pb_unlocked : unlocked t';
  pb_leaf : trie_entry t' pl = Some x1;
  pb_pred : trie_entry t' pp = Some (set_next_leaf loc ep);
  pb_node : trie_entry t' (last_pos (pe_entry pe)) = Some node';
  pb_path : forall i z, P !! i = Some z -> (i < n)%nat ->
    trie_entry t' (last_pos (pe_entry z)) = Some (if (walk_top P n <=? i)%nat then set_max_leaf (max_leaf node') (pe_value z) else pe_value z);
  pb_rest : forall q, q <> pl -> q <> pp -> ~ on_path q -> trie_entry t' q = trie_entry (trie s) q;
}.

Lemma pred_off_path : ~ on_path pp.
Proof. intros (z & Hz & E). exact (pp_ne z Hz (eq_sym E)). Qed.

Lemma publish_spec : exists t', publish_leaf f pred pl sy hn s = Ret SI_OK (mk_state t' [] (kv_mem s)) /\ published t'.
Proof.
  destruct pl_ne as [Hlp Hpl]. pose proof ep_entry_ok as Hep.
  destruct link_steps as (t2 & pred2 & L1 & B2 & U2 & Hp2 & Hv2 & K2).
  destruct (mark_steps t2 B2) as (t3 & E3 & M1 & B3 & M2 & M3 & M4 & M5).
  { intros z Hz. apply K2; [now apply path_usable|now apply Hpl|now apply pp_ne]. }
  assert (U3 : usable t3 pred2) by (apply M5; [exact U2|rewrite Hp2; exact pred_off_path]).
  assert (Eclean : entry_set_clean (lc_value pred2) = set_next_leaf loc ep) by (rewrite Hv2; now apply dirty_link_clean).
  destruct (update_busy N s t3 E3 pred2 (set_next_leaf loc ep) B3 U3) as (q4 & t4 & E4 & B4 & _ & _).
  { rewrite Hp2. exact pred_held. }
  { now apply set_entry_locator_ok. }
  { rewrite Hv2. transitivity ep; [symmetry; now apply dirty_link_tags|now apply set_locator_tags]. }
  rewrite Hp2 in B4.
  destruct (release_all_locks_spec N (set_trie t4 s) (by_locks _ _ _ _ B4) (by_shape _ _ _ _ B4)) as (t' & E5 & Hsame & Hsh & Hun).
  cbn [trie set_trie kv_mem] in Hsame, E5. exists t'.
  assert (Hat : forall q, trie_entry t' q = fill pp (set_next_leaf loc ep) E3 q) by (intros q; rewrite <- (same_but_locks_entry _ _ q Hsame); apply (by_at _ _ _ _ B4)).
  assert (Hnp : forall z, z ∈ P -> last_pos (pe_entry z) <> pp) by exact pp_ne.
  split.
  - unfold publish_leaf. rewrite (L1 (fun pred2 => leaf ← get_entry pl; bitmap ← lift (path_local f (last_path_entry f));
       bitmap' ← mark_bitmap_child bitmap sy hn (entry_color leaf);
       f1 ← reread_path_end (set_path_local (last_path_entry f) bitmap' f);
       _ ← propagate_max_leaf f1; _ ← mark_entry_clean pred2; _ ← release_all_locks; mret SI_OK)).
    rewrite M1. unfold mark_entry_clean. rewrite Eclean. erewrite bind_Ret by exact E4. erewrite bind_Ret by exact E5. reflexivity.
  - split.
    + apply table_cells. split; [exact Hsh|]. apply (cells_ok_params t4); [apply Hsame|].
      apply (cells_ok_eq t4 (fill pp (set_next_leaf loc ep) E3)); [intros q; now rewrite Hat|apply B4].
    + transitivity t4; [apply B4|apply Hsame].
    + exact Hun.
    + rewrite Hat, fill_ne by exact Hlp. rewrite M4.
      * unfold linked_cells. rewrite !fill_ne by exact Hlp. apply fill_eq.
      * intros (z & Hz & E). exact (Hpl z Hz (eq_sym E)).
    + rewrite Hat. apply fill_eq.
    + rewrite Hat, fill_ne by (apply Hnp; apply end_at). exact M2.
    + intros i z Hz Hi. rewrite Hat, fill_ne by (apply Hnp; eapply list_elem_of_lookup_2; exact Hz). exact (M3 i z Hz Hi).
    + intros q H1q H2q H3q. rewrite Hat, fill_ne by exact H2q. rewrite M4 by exact H3q. unfold linked_cells. rewrite !fill_ne by done. done.
Qed.
End publish.
