(* ===== verification/NewKey.v ===== *)
(** * Inserting a new key at a bitmap node (main.c: create_leaf with the
    bitmap case, linklist_insert, mark_bitmap_child, propagate_max_leaf)

    [ct_insert] of a key whose place is a bitmap node without the child, when
    the new leaf's bucket pair has a free cell: the locks are taken, the leaf
    is created, linked and announced to its parent, and the table stores the
    trie with the new leaf. *)

From S2P Require Import Prelude Bits Entry KeyObject State Hashing Symbols Random Atomics Table Contents Store Locks Cells Search Relocate AddEntry Scalar Finger Insert Iter Api Alloc Lookup Preserve Order Linked Spine Sample IterSpec Place Frame Dictionary InsertSpec Fields TreeInsert Growth NewLeaf Inserted Locked Stale Nodes Upgrade Writes PathLocks Room Publish.
From stdpp Require Import base list gmap sorting.
From Stdlib Require Import ZArith Lia Bool.

#[local] Open Scope Z_scope.

(** ** The entry of the new leaf *)

Definition child_entry `{Env} (color symbol kv : Z) : ct_entry :=
  entry_set_kv kv
    (set_last_symbol symbol
      (set_parent_color_and_flags ((color .<< PARENT_COLOR_SHIFT) .| TYPE_LEAF) garbage_entry)).

Lemma child_entry_facts `{Env} color symbol kv :
  entry_ok garbage_entry -> 0 <= color <= MAX_VALID_COLOR -> 0 <= symbol <= 32 -> canonical_address kv ->
  leaf_fields color symbol kv (child_entry color symbol kv) /\
  used (child_entry color symbol kv) = true /\ entry_is_secondary (child_entry color symbol kv) = false.
Proof.
  intros Hg Hc Hs Hkv. destruct (node_flags color TYPE_LEAF ltac:(change MAX_VALID_COLOR with 8 in Hc; lia) ltac:(unfold TYPE_LEAF; lia)) as (F1 & F2 & F3 & F4 & F5).
  set (b := (color .<< PARENT_COLOR_SHIFT) .| TYPE_LEAF) in *.
  set (e1 := set_parent_color_and_flags b garbage_entry). assert (He1 : entry_ok e1) by now apply set_flags_ok.
  set (e2 := set_last_symbol symbol e1). assert (He2 : entry_ok e2) by now apply set_byte_ok.
  assert (E0 : parent_color_and_flags (child_entry color symbol kv) = b).
  { unfold parent_color_and_flags, child_entry. fold b e1 e2. rewrite byte_at_set_kv by (done || lia).
    unfold e2, set_last_symbol. rewrite byte_at_set_byte by (done || entry_lia). rewrite decide_False by lia.
    change (byte_at e1 0) with (parent_color_and_flags e1). unfold e1. rewrite flags_set_flags by done. now apply wrap_small. }
  assert (E2 : last_symbol (child_entry color symbol kv) = symbol).
  { unfold last_symbol, child_entry. fold b e1 e2. rewrite byte_at_set_kv by (done || lia).
    unfold e2, set_last_symbol. rewrite byte_at_set_byte by (done || entry_lia). rewrite decide_True by lia. apply wrap_small. lia. }
  split; [split|]; unfold used, entry_type, entry_dirty, entry_parent_color, entry_is_secondary; rewrite ?E0, ?F2; try done.
  - now apply entry_set_kv_ok.
  - now apply entry_kv_set.
Qed.

(** ** Taking the locks *)

Section new_key.
Context `{BucketLaws} `{env : Env}.
Variables (s : state) (n0 : tnode) (L0 : list leaf_ref).
Hypothesis s_rep : ordered_rep s n0 L0.
Hypothesis s_unlocked : unlocked (trie s).
Hypothesis s_locks : lock_mgr s = [].

(** The finger is at a bitmap node without the child [sy]. *)
Variables (bytes : list Z) (f : ct_finger) (lb : option nat) (k : Z) (fc : Z -> option tnode) (h c : Z) (d : nat)
  (L B A : list leaf_ref) (pre : list Z) (pe : ct_path_entry).
Hypothesis reached : goto_on s n0 L0 bytes f lb k (TBitmap fc) h c d L B A pre pe.
Hypothesis k_bound : 0 <= k <= 408.

Let sy : Z := symbol_at bytes k.
Let n : nat := last_path_entry f.

Definition lock_count : Z := 3 + Z.of_nat n.

Lemma key_table : table_ok (trie s).
Proof. exact (tr_table _ _ (or_rep _ _ _ s_rep)). Qed.

Lemma path_size : (1 <= length (path f))%nat /\ Z.of_nat (length (path f)) <= 409 /\ n = (length (path f) - 1)%nat.
Proof.
  pose proof (spine_length _ _ _ _ _ _ _ _ _ _ (ga_spine _ _ _ _ _ _ _ _ _ _ _ _ _ _ _ _ reached)) as H1.
  pose proof (fa_path _ _ _ _ _ _ _ _ (ga_finger _ _ _ _ _ _ _ _ _ _ _ _ _ _ _ _ reached)) as H2.
  split; [done|]. split; [lia|done].
Qed.

Lemma path_addressed s' : same_but_locks (trie s) (trie s') -> shape_ok (trie s') -> Forall (fun x => addressed (trie s') (pe_entry x)) (path f).
Proof.
  intros Hs Hsh. eapply Forall_impl; [apply (spine_addressed _ _ _ _ _ _ _ _ _ _ (table_shape _ key_table) (ga_spine _ _ _ _ _ _ _ _ _ _ _ _ _ _ _ _ reached))|].
  intros x. apply addressed_locks; [apply table_shape, key_table|exact Hsh|exact Hs].
Qed.

(** The locks that are held afterwards. *)
Record locks_taken (s3 : state) (before : list leaf_ref) (pred : ct_entry_local_copy) : Prop := mk_locks_taken {
  lt_locking : locking lock_count s s3;
  lt_node : held s3 (last_pos (pe_entry pe));
  lt_parents : forall i x, (walk_top (path f) n <= i < n)%nat -> path f !! i = Some x -> held s3 (last_pos (pe_entry x));
  lt_pred : held s3 (last_pos pred) /\ pred_copy s3 before pred;
  lt_room : Z.of_nat (length (lock_mgr s3)) < MAX_LOCKS;
}.

Lemma node_addressed : containing_entry f = pe_entry pe /\ pe ∈ path f /\ addressed (trie s) (containing_entry f).
Proof.
  pose proof (ga_entry _ _ _ _ _ _ _ _ _ _ _ _ _ _ _ _ reached) as E.
  pose proof (last_Some_elem_of _ _ (ga_last _ _ _ _ _ _ _ _ _ _ _ _ _ _ _ _ reached)) as Hp. split; [exact E|]. split; [exact Hp|]. rewrite E.
  exact (proj1 (Forall_forall _ _) (path_addressed s (reflexivity _) (table_shape _ key_table)) pe Hp).
Qed.

(** Some step found a copy out of date. *)
Definition lock_failed : Prop := forall kv, exists s', create_leaf_in_bitmap f kv sy s = Ret SI_RETRY s' /\ gave_up s s' /\ out_of_date f (trie s).

Lemma lock_phase :
  (exists g pl s1 s2 s3 pred, (L = flat_map g all_symbols /\ children_at (trie s) fc (pe_value pe) h c g) /\
    prefetch_bitmap_child_predecessor f sy s = Ret pl s /\ upgrade_lock (containing_entry f) s = Ret SI_OK s1 /\
    upgrade_locks_on_left_parents_above f n s1 = Ret SI_OK s2 /\ get_predecessor_atomic f pl s2 = Ret (Some pred) s2 /\
    upgrade_lock pred s2 = Ret SI_OK s3 /\ locks_taken s3 (B ++ flat_map g (symbols_below sy)) pred) \/ lock_failed.
Proof.
  destruct path_size as (Hlen1 & Hlen2 & En). pose proof (ga_spine _ _ _ _ _ _ _ _ _ _ _ _ _ _ _ _ reached) as Hs.
  pose proof (ga_last _ _ _ _ _ _ _ _ _ _ _ _ _ _ _ _ reached) as Hlast. pose proof (table_shape _ key_table) as Hsh.
  destruct (goto_holds _ _ _ _ _ _ _ _ _ _ _ _ _ _ _ _ reached) as (Ha & (Ty & _ & _ & g & HL & Hg) & _).
  pose proof (symbol_range bytes k) as Hsy. fold sy in Hsy. destruct node_addressed as (Een & Hpe & Had).
  assert (HM : MAX_LOCKS = 413) by reflexivity.
  destruct (prefetch_spec s key_table n0 L0 f (path f) [] fc h c L B pre pe g sy ltac:(now rewrite app_nil_r) Hs Hlast Ha Hg ltac:(lia)) as (r & Er & Hr).
  assert (K0 : locks_ok 1 s) by now apply unlocked_locks_ok.
  destruct (upgrade_any 1 s (containing_entry f) K0 Hsh ltac:(lia) Had) as [(s1 & E1 & G1 & Hh1 & Hl1)|(s1 & E1 & G1 & Hold)]; [rewrite s_locks; cbn; lia| |].
  2: { right. intros kv. destruct (release_gives_up _ _ _ (locking_relocked _ _ _ G1)) as (s' & E & Hg'). exists s'. split; [|split; [exact Hg'|]].
       - unfold create_leaf_in_bitmap, get_trie. erewrite bind_Ret by exact Er. erewrite bind_Ret by reflexivity. erewrite bind_Ret by exact E1. exact E.
       - exists pe. split; [exact Hpe|]. now rewrite <- Een. }
  rewrite s_locks in Hl1. cbn [length] in Hl1.
  assert (Hnth : path f !! n = Some pe) by (rewrite En, <- Hlast, last_lookup; f_equal; lia).
  destruct (left_parents_above_any f (spine_stops _ _ _ _ _ _ _ _ _ _ Hs) (spine_distinct _ _ _ _ _ _ _ _ _ _ key_table Hs) n pe (1 + 1) s1
    Hnth Ty (lg_locks _ _ _ G1) (lg_shape _ _ _ G1) ltac:(lia) (path_addressed s1 (lg_table _ _ _ G1) (lg_shape _ _ _ G1)) ltac:(lia))
    as (r2 & s2 & E2 & [(-> & G2 & Hh2 & Hl2)|(-> & R2 & Hold)]).
  2: { right. intros kv. destruct (release_gives_up _ _ _ (relocked_trans _ _ _ _ _ (locking_relocked _ _ _ G1) R2)) as (s' & E & Hg'). exists s'. split; [|split; [exact Hg'|]].
       - unfold create_leaf_in_bitmap, get_trie. erewrite bind_Ret by exact Er. erewrite bind_Ret by reflexivity. erewrite bind_Ret by exact E1.
         rewrite bool_decide_false by discriminate. erewrite bind_Ret by exact E2. exact E.
       - exact (out_of_date_locks _ _ _ Hsh (lg_shape _ _ _ G1) (lg_table _ _ _ G1) Hold). }
  pose proof (locking_trans _ _ _ _ _ G1 G2) as G02. pose proof (lg_table _ _ _ G02) as S2. pose proof (lg_shape _ _ _ G02) as Sh2.
  pose proof (locked_table _ _ key_table Sh2 S2) as T2.
  destruct (lk_head _ _ (or_list _ _ _ s_rep)) as (e & He & _).
  assert (Em : trie_min_leaf (trie s2) = trie_min_leaf (trie s)) by now rewrite (same_params_eq _ _ (locked_params _ _ S2)).
  destruct (validate_path_any f s2 (validated_from r) (path_addressed s2 S2 Sh2)) as (ok & Ev & Hok).
  destruct (get_predecessor_validated s2 T2 f _ r e ok (locked_left_child s s2 _ _ _ key_table Sh2 S2 Hr) Ev) as (pred & Ep & Hp).
  { rewrite Em, <- (same_but_locks_entry _ _ _ S2). exact He. }
  rewrite (locator_at_params _ _ _ _ (locked_params _ _ S2)) in Ep. destruct ok.
  2: { right. intros kv. destruct (release_gives_up _ _ _ (locking_relocked _ _ _ G02)) as (s' & E & Hg'). exists s'. split; [|split; [exact Hg'|]].
       - unfold create_leaf_in_bitmap, get_trie. erewrite bind_Ret by exact Er. erewrite bind_Ret by reflexivity. erewrite bind_Ret by exact E1.
         rewrite bool_decide_false by discriminate. erewrite bind_Ret by exact E2. rewrite bool_decide_false by discriminate. erewrite bind_Ret by exact Ep. exact E.
       - exact (out_of_date_locks _ _ _ Hsh Sh2 S2 (Hok eq_refl)). }
  left.
  destruct (upgrade_current (1 + 1 + Z.of_nat n) s2 pred (lg_locks _ _ _ G02) Sh2 ltac:(lia) (pred_copy_current _ _ _ T2 Hp)) as (s3 & E3 & G3 & Hh3 & Hl3); [lia|].
  exists g, (locator_at (trie s) (path f) r), s1, s2, s3, pred. split; [done|]. split; [exact Er|]. split; [exact E1|]. split; [exact E2|].
  split; [exact Ep|]. split; [exact E3|].
  split.
  - replace lock_count with (1 + 1 + Z.of_nat n + 1) by (unfold lock_count; lia). exact (locking_trans _ _ _ _ _ G02 G3).
  - apply (held_locking _ _ _ _ G3), (held_locking _ _ _ _ G2). now rewrite <- Een.
  - intros i x Hi Hx. apply (held_locking _ _ _ _ G3). exact (Hh2 i x Hi Hx).
  - split; [exact Hh3|]. apply (locked_pred_copy s2); [exact T2|apply G3..|exact Hp].
  - lia.
Qed.

(** ** Creating the leaf *)

Lemma prefix_is_h : prefix_hash f = h.
Proof.
  pose proof (ga_finger _ _ _ _ _ _ _ _ _ _ _ _ _ _ _ _ reached) as Hf. rewrite (fa_hash _ _ _ _ _ _ _ _ Hf).
  destruct (fa_start _ _ _ _ _ _ _ _ Hf) as (j & Ej & ->). pose proof (ga_jump _ _ _ _ _ _ _ _ _ _ _ _ _ _ _ _ reached) as E0.
  cbn in E0. f_equal. lia.
Qed.

Lemma end_facts : at_node (trie s) pe h c /\ containing_entry f = pe_entry pe /\ pe ∈ path f /\ hash_ok (trie s) h /\
  0 <= c <= MAX_VALID_COLOR /\ entry_color (pe_value pe) = c.
Proof.
  destruct (goto_holds _ _ _ _ _ _ _ _ _ _ _ _ _ _ _ _ reached) as (Ha & _). split; [done|].
  split; [apply (ga_entry _ _ _ _ _ _ _ _ _ _ _ _ _ _ _ _ reached)|].
  split; [apply last_Some_elem_of, (ga_last _ _ _ _ _ _ _ _ _ _ _ _ _ _ _ _ reached)|].
  pose proof (holds_ok _ key_table _ _ _ (an_holds _ _ _ _ Ha)) as (_ & H1 & H2). split; [done|]. split; [done|].
  destruct (an_holds _ _ _ _ Ha) as (_ & _ & _ & Hk). now injection Hk.
Qed.

Let hn : Z := accumulate_hash (trie s) h sy.

Lemma new_hash : hash_ok (trie s) hn /\ 0 <= hash_to_tag hn < 16.
Proof.
  destruct end_facts as (_ & _ & _ & Hh & _). pose proof (symbol_range bytes k) as Hr. fold sy in Hr.
  assert (H1 : hash_ok (trie s) hn) by (apply accumulate_hash_ok; (apply key_table || done || lia)). split; [done|].
  apply (hash_parts _ (tb_params _ key_table) _ H1).
Qed.

Section created.
Variables (g : Z -> list leaf_ref) (s3 : state) (pred : ct_entry_local_copy) (kv : Z).
Hypothesis children : L = flat_map g all_symbols /\ children_at (trie s) fc (pe_value pe) h c g.
Hypothesis taken : locks_taken s3 (B ++ flat_map g (symbols_below sy)) pred.
Hypothesis canonical : canonical_address kv.
Hypothesis garbage_ok : entry_ok garbage_entry.
Hypothesis has_room : pair_has_room (trie s) hn = true.

Let child : ct_entry := child_entry c sy kv.
Let same3 : same_but_locks (trie s) (trie s3) := lg_table _ _ _ (lt_locking _ _ _ taken).

Lemma table3 : table_ok (trie s3).
Proof. exact (locked_table _ _ key_table (lg_shape _ _ _ (lt_locking _ _ _ taken)) same3). Qed.

Lemma child_facts : leaf_fields c sy kv child /\ used child = true /\ entry_is_secondary child = false.
Proof.
  destruct end_facts as (_ & _ & _ & _ & Hc & _). apply child_entry_facts; [done|exact Hc|apply symbol_range|done].
Qed.

Lemma create_phase : exists pl x s4, create_bitmap_child f c sy kv s3 = Ret (SI_OK, Some (pl, x)) s4 /\
  AddEntry.placed (lock_count + 2) hn child true s3 s4 pl x.
Proof.
  pose proof (locked_params _ _ same3) as Hp. destruct path_size as (_ & Hlen & En). destruct child_facts as ([Hok _ _ _ _ _] & Hu & Hs).
  destruct (add_entry_room_spec s3 hn child (Some (last_pos (containing_entry f))) true lock_count) as (pl & x & s4 & E & Hpl);
    [exact table3|apply (lt_locking _ _ _ taken)|unfold lock_count, RELOCATE_REFS, RELOCATE_QUEUE_SIZE; fold n; lia| |done|done|done| | |].
  - unfold hash_ok. rewrite (same_params_eq _ _ Hp). apply new_hash.
  - intros sec _. apply taken.
  - now rewrite <- (pair_has_room_locks _ _ _ same3).
  - exists pl, x, s4. split; [|exact Hpl]. unfold create_bitmap_child, get_trie. erewrite bind_Ret by reflexivity.
    rewrite prefix_is_h, (accumulate_hash_params _ _ Hp). exact E.
Qed.

(** ** What was created *)

Section publishing.
Variables (pl : pos) (x : ct_entry) (s4 : state).
Hypothesis created : AddEntry.placed (lock_count + 2) hn child true s3 s4 pl x.

Let cn : Z := entry_color x.
Let ep : ct_entry := lc_value pred.
Let pp : pos := last_pos pred.

Lemma params4 : same_params (trie s) (trie s4).
Proof. transitivity (trie s3); [exact (locked_params _ _ same3)|apply created]. Qed.

Lemma cells4 q : trie_entry (trie s4) q = fill pl x (trie_entry (trie s)) q.
Proof. rewrite (pc_cells _ _ _ _ _ _ _ _ created). unfold fill. case_decide; [done|]. symmetry. exact (same_but_locks_entry _ _ _ same3). Qed.

Lemma new_free y : trie_entry (trie s) pl = Some y -> used y = false.
Proof. rewrite (same_but_locks_entry _ _ _ same3). apply created. Qed.

Lemma used_ne q y : trie_entry (trie s) q = Some y -> used y = true -> q <> pl.
Proof. intros Hq Hu ->. rewrite (new_free y Hq) in Hu. discriminate. Qed.

Lemma new_entry : leaf_fields c sy kv x /\ 0 <= cn <= MAX_VALID_COLOR /\ entry_tag x = hash_to_tag hn /\ holds (trie s4) pl (hn, cn) x.
Proof.
  destruct (pc_new _ _ _ _ _ _ _ _ created) as (color & sec & Hc & -> & Hh). destruct child_facts as (Hf & _ & Hs).
  destruct new_hash as [_ Ht]. destruct (prepared_fields hn color sec child (lf_ok _ _ _ _ Hf) Hs Hc Ht) as (_ & _ & P3 & P4 & _).
  unfold cn. rewrite P4 in *. split; [now apply prepared_leaf|]. done.
Qed.

Lemma busy4 : busy (lock_count + 2) s4 (trie s4) (trie_entry (trie s4)).
Proof.
  pose proof (pc_table _ _ _ _ _ _ _ _ created) as Ht. split; [reflexivity|now apply table_shape| |done|now apply table_cells].
  replace (set_trie (trie s4) s4) with s4 by now destruct s4. apply created.
Qed.

Lemma held4 q : held s3 q -> held s4 q.
Proof. intros Hq. pose proof (pc_entries _ _ _ _ _ _ _ _ created q). unfold held in *. lia. Qed.

(** Copies read before are still usable. *)
Lemma usable_after l : usable (trie s3) l -> last_pos l <> pl -> usable (trie s4) l.
Proof. apply (usable_placed (lock_count + 2) hn child true s3 s4 pl x l table3 created). Qed.

Lemma path_usable z : z ∈ path f -> usable (trie s4) (pe_entry z) /\ last_pos (pe_entry z) <> pl.
Proof.
  intros Hz. pose proof (ga_spine _ _ _ _ _ _ _ _ _ _ _ _ _ _ _ _ reached) as Hs. destruct (on_path_at s n0 L0 s_rep _ _ _ _ _ _ _ Hs z Hz) as (hm & cm & Ha & _).
  destruct (an_holds _ _ _ _ Ha) as (_ & He & Hu & _). pose proof (used_ne _ _ He Hu) as Hne. split; [|exact Hne].
  apply usable_after; [|exact Hne]. exact (node_usable s n0 L0 s_rep _ _ _ _ _ _ _ Hs _ s3 (lt_locking _ _ _ taken) z Hz).
Qed.

(** The predecessor is a leaf of the list or its head. *)
Lemma pred_known : pred_entry s (path f) s3 (B ++ flat_map g (symbols_below sy)) pred.
Proof.
  apply (pred_entry_known s n0 L0 s_rep _ _ _ _ _ _ _ (ga_spine _ _ _ _ _ _ _ _ _ _ _ _ _ _ _ _ reached) _ s3 _ pred (lt_locking _ _ _ taken)
    (proj2 (lt_pred _ _ _ taken))). discriminate.
Qed.

Lemma pred_new : pl <> pp.
Proof. destruct pred_known as [H1 H2 _ _ _ _]. intros E. apply (used_ne _ _ H1 H2). now symmetry. Qed.

(** ** The leaf is published *)

Lemma published_leaf : exists t5, publish_leaf f pred pl sy hn s4 = Ret SI_OK (mk_state t5 [] (kv_mem s4)) /\
  published s4 f pe pred pl x sy hn t5.
Proof.
  destruct new_entry as (Hf & Hcn & Htag & (Hin & Hat & _)). destruct pred_known as [F1 F2 F3 F4 F5 _]. destruct path_size as (_ & _ & En).
  destruct end_facts as (_ & _ & Hpe & _).
  apply (publish_spec (lock_count + 2)).
  - exact busy4.
  - apply (ga_last _ _ _ _ _ _ _ _ _ _ _ _ _ _ _ _ reached).
  - apply symbol_range.
  - done.
  - apply usable_after; [exact F5|apply not_eq_sym, pred_new].
  - apply held4, taken.
  - exact F3.
  - intros z Hz. now apply path_usable.
  - apply held4, taken.
  - intros i z Hi Hz. apply held4. rewrite <- En in Hi. exact (lt_parents _ _ _ taken i z Hi Hz).
  - exact (spine_distinct _ _ _ _ _ _ _ _ _ _ key_table (ga_spine _ _ _ _ _ _ _ _ _ _ _ _ _ _ _ _ reached)).
  - split; [exact pred_new|]. intros z Hz. now apply path_usable.
  - exact F4.
Qed.

Variable o : ct_kv.
Hypothesis o_key : bytes = kv_key o.

Lemma symbol_here : symbol_at (kv_key o) (Z.of_nat (length pre)) = sy.
Proof.
  clear cn ep pp created taken same3 child. pose proof (ga_depth _ _ _ _ _ _ _ _ _ _ _ _ _ _ _ _ reached). pose proof (ga_jump _ _ _ _ _ _ _ _ _ _ _ _ _ _ _ _ reached) as E0.
  cbn in E0. unfold sy. rewrite o_key. f_equal. lia.
Qed.

Lemma published_added t5 : published s4 f pe pred pl x sy hn t5 ->
  leaf_added s kv o (path f) h c B pre pe g t5 pl pp (set_next_leaf (next_leaf ep) x) ep cn.
Proof.
  intros [P1 P2 P3 P4 P5 P6 P7 P8]. destruct new_entry as (Hf & Hcn & Htag & Hh4). destruct pred_known as [F1 F2 F3 F4 F5 F6].
  destruct (linked_leaf_fields _ _ _ _ (next_leaf ep) Hf) as [G1 G2 G3 G4 G5 G6]. pose proof (lf_ok _ _ _ _ Hf) as Hok.
  destruct Hh4 as (Hin & _ & Hu & Hk). destruct (same_tags_key (trie s4) pl _ _ (set_locator_tags (next_leaf ep) x Hok)) as (K1 & _).
  split; rewrite ?symbol_here; try done.
  - exact new_free.
  - split; [now rewrite <- P2|]. split; [exact P4|]. split; [transitivity (used x); [apply (sg_used _ _ (set_locator_tags (next_leaf ep) x Hok))|exact Hu]|].
    rewrite (same_params_eq _ _ P2). transitivity (entry_key (trie s4) pl x); [exact K1|exact Hk].
  - now apply entry_locator_set; [|apply entry_locator_ok, (trie_entry_ok _ key_table _ _ F1)].
  - intros q Hq1 Hq2 Hq3. rewrite P8; [rewrite cells4; now apply fill_ne|done|done|]. intros (z & Hz & E). exact (Hq3 z Hz E).
Qed.
End publishing.
End created.
(** ** [create_leaf] at the node *)

(** State [s'] stores the trie with the new leaf of object [kv], and no lock
    is held. *)
Record key_added (kv : Z) (sym : Z -> Z) (s' : state) : Prop := mk_key_added {
  ka_mem : kv_mem s' = kv_mem s;
  ka_rep : exists X y Y, L0 = X ++ Y /\ lr_kv y = kv /\ ordered_rep s' (tinsert (kv_mem s) n0 sym 0 kv) (X ++ y :: Y);
  ka_owned : owned (trie s');
  ka_locks : unlocked (trie s') /\ lock_mgr s' = [];
}.

Section create.
Variables (kv : Z) (o : ct_kv).
Hypothesis kv_at : kv_mem s !! kv = Some o.
Hypothesis o_ok : kv_ok o.
Hypothesis o_short : key_size o <= 255.
Hypothesis o_key : bytes = kv_key o.
Hypothesis canonical : canonical_address kv.
Hypothesis garbage_ok : entry_ok garbage_entry.
Hypothesis has_room : pair_has_room (trie s) hn = true.
Hypothesis no_child : fc sy = None.
Hypothesis s_owned : owned (trie s).
Hypothesis at_place : tplace n0 (symbol_at (kv_key o)) 0 = at_bitmap k.

Lemma create_in_bitmap_any :
  (exists s', create_leaf_in_bitmap f kv sy s = Ret SI_OK s' /\ key_added kv (symbol_at (kv_key o)) s') \/
  (exists s', create_leaf_in_bitmap f kv sy s = Ret SI_RETRY s' /\ gave_up s s' /\ out_of_date f (trie s)).
Proof.
  destruct lock_phase as [Hlocks|Hfail]; [left|right; exact (Hfail kv)]. destruct Hlocks as (g & pl & s1 & s2 & s3 & pred & Hch & E1 & E2 & E3 & E4 & E5 & Ht).
  destruct (create_phase g s3 pred kv Ht canonical garbage_ok has_room) as (pn & x & s4 & E6 & Hc).
  destruct (published_leaf g s3 pred kv Ht canonical garbage_ok pn x s4 Hc) as (t5 & E7 & Hpub).
  pose proof (published_added g s3 pred kv Ht canonical garbage_ok pn x s4 Hc o o_key t5 Hpub) as Hadd.
  destruct end_facts as (_ & Een & _ & _ & _ & Ec).
  assert (Em : kv_mem s4 = kv_mem s) by (rewrite (pc_mem _ _ _ _ _ _ _ _ Hc); apply (lt_locking _ _ _ Ht)).
  assert (Hp : same_params (trie s) t5) by (transitivity (trie s4); [exact (params4 g s3 pred kv Ht pn x s4 Hc)|apply Hpub]).
  pose proof (symbol_here o o_key) as Esy.
  exists (mk_state t5 [] (kv_mem s4)). split.
  - unfold create_leaf_in_bitmap, get_trie. erewrite bind_Ret by exact E1. erewrite bind_Ret by reflexivity.
    erewrite bind_Ret by exact E2. rewrite bool_decide_false by discriminate.
    erewrite bind_Ret by exact E3. rewrite bool_decide_false by discriminate.
    erewrite bind_Ret by exact E4. cbv iota beta. erewrite bind_Ret by exact E5. rewrite bool_decide_false by discriminate.
    rewrite Een. fold (pe_value pe). rewrite Ec. erewrite bind_Ret by exact E6. cbv iota beta. rewrite prefix_is_h. exact E7.
  - assert (Hal : along (symbol_at (kv_key o)) pre) by (rewrite <- o_key; exact (ga_on_path _ _ _ _ _ _ _ _ _ _ _ _ _ _ _ _ reached)).
    destruct (new_ordered s n0 L0 s_rep kv o kv_at o_ok o_short (path f) fc h c L B pre pe g (ga_spine _ _ _ _ _ _ _ _ _ _ _ _ _ _ _ _ reached)
      (ga_last _ _ _ _ _ _ _ _ _ _ _ _ _ _ _ _ reached) Hal Hch ltac:(now rewrite Esy) s_owned t5 _ _ _ _ _ (pb_table _ _ _ _ _ _ _ _ _ Hpub) Hp Hadd k
      (mk_state t5 [] (kv_mem s4)) eq_refl Em at_place) as (Y & EL & Hrep & How).
    split; [exact Em| |exact How|split; [apply Hpub|done]]. eexists _, _, Y. split; [exact EL|]. split; [|exact Hrep]. reflexivity.
Qed.

Lemma create_in_bitmap_spec : fresh_path s f ->
  exists s', create_leaf_in_bitmap f kv sy s = Ret SI_OK s' /\ key_added kv (symbol_at (kv_key o)) s'.
Proof.
  intros Hf. destruct create_in_bitmap_any as [Hs|(s' & _ & _ & Hold)]; [exact Hs|]. now apply fresh_not_old in Hold; [|apply table_shape, key_table|].
Qed.

Lemma create_leaf_spec : fresh_path s f ->
  exists s', create_leaf f kv sy s = Ret (SI_OK, f) s' /\ key_added kv (symbol_at (kv_key o)) s'.
Proof.
  intros Hf. destruct (create_in_bitmap_spec Hf) as (s' & E & Hka). exists s'. split; [|exact Hka].
  destruct (goto_holds _ _ _ _ _ _ _ _ _ _ _ _ _ _ _ _ reached) as (_ & (Ty & _) & Ev). unfold finger_value in Ev.
  unfold create_leaf. rewrite Ev, Ty. cbn [Z.eqb TYPE_BITMAP TYPE_JUMP Pos.eqb].
  erewrite bind_Ret by reflexivity. cbv iota beta. rewrite !bool_decide_false by discriminate. rewrite Ev, Ty.
  erewrite bind_Ret by exact E. reflexivity.
Qed.
End create.
End new_key.

(** ** [ct_insert] *)

Section insert.
Context `{BucketLaws} `{env : Env}.
Hypothesis ambient_ok : forall a, is_byte (ambient_byte a).
Hypothesis fuel_pos : (0 < retry_fuel)%nat.
Hypothesis garbage_ok : entry_ok garbage_entry.

Variables (s : state) (n : tnode) (L : list leaf_ref).
Hypothesis s_rep : ordered_rep s n L.
Hypothesis s_owned : owned (trie s).
Hypothesis s_unlocked : unlocked (trie s).

Variables (kv : Z) (o : ct_kv) (d : Z).
Hypothesis kv_at : kv_mem s !! kv = Some o.
Hypothesis o_ok : kv_ok o.
Hypothesis o_short : key_size o <= 255.
Hypothesis canonical : canonical_address kv.

Let sym : Z -> Z := symbol_at (kv_key o).

Hypothesis at_place : tplace n sym 0 = at_bitmap d.
Hypothesis has_room : pair_has_room (trie s) (prefix_hash_of (trie s) (kv_key o) (S (Z.to_nat d))) = true.

Lemma insert_new_internal is_upsert :
  exists s', ct_insert_internal kv is_upsert s = Ret SI_OK s' /\ key_added s n L kv sym s'.
Proof.
  pose proof (ordered_rep_locks s n L [] s_rep) as Hr'. set (s1 := set_lock_mgr [] s) in *.
  destruct (init_finger_spec s n (kv_key o) (or_rep _ _ _ s_rep)) as (f0 & Ef & Hf & Hpath). fold s1 in Ef.
  destruct (descend_place ambient_ok s1 n L Hr' o o_ok o_short f0 Hf Hpath) as (f & r & Ed & Hend).
  assert (Hmain : exists s', create_leaf f kv (from_option id NO_BUCKET64 r) s1 = Ret (SI_OK, f) s' /\ key_added s1 n L kv sym s').
  { pose proof o_ok as (_ & _ & _ & _). pose proof (length_kv_key o o_ok) as El.
    destruct Hend as [r lb k kv' h c d' L' B A pre pe _ Hp|lb k syms child h c d' L' B A pre pe x _ Hp|lb k fc h c d' L' B A pre pe Hp Hat Hno Hk];
      [fold sym in Hp; congruence|fold sym in Hp; congruence|].
    pose proof at_place as Hat'. fold sym in Hat. rewrite Hat in Hat'. injection Hat' as Ekd.
    pose proof (num_symbols_short (kv_key o) ltac:(lia)) as Hn.
    destruct Hp as [G _]. pose proof (ga_finger _ _ _ _ _ _ _ _ _ _ _ _ _ _ _ _ G) as Hfa.
    destruct (fa_start _ _ _ _ _ _ _ _ Hfa) as (j & Ej & Eh). pose proof (ga_jump _ _ _ _ _ _ _ _ _ _ _ _ _ _ _ _ G) as E0. cbn in E0.
    apply (create_leaf_spec s1 n L Hr' s_unlocked eq_refl (kv_key o) f lb k fc h c d' L' B A pre pe G); try done.
    - lia.
    - change (trie s1) with (trie s). pose proof has_room as Hroom. rewrite <- Ekd in Hroom. cbn [prefix_hash_of] in Hroom.
      rewrite Eh. replace j with (Z.to_nat k) by lia. rewrite Z2Nat.id in Hroom by lia. exact Hroom.
    - exact (ga_fresh _ _ _ _ _ _ _ _ _ _ _ _ _ _ _ _ G). }
  destruct Hmain as (s' & Ec & Hka). exists s'. split; [|destruct Hka; by split].
  unfold ct_insert_internal. erewrite bind_Ret by (apply load_kv_eq; exact kv_at). erewrite bind_Ret by exact Ef. cbv iota beta.
  erewrite bind_Ret by reflexivity. cbv iota beta. erewrite bind_Ret by exact Ed. cbv iota beta.
  erewrite bind_Ret by exact Ec. cbv iota beta. rewrite andb_comm. reflexivity.
Qed.
End insert.

(** ** The property *)

(** C4. A new key, at a bitmap node: when the table stores the trie [n] with
    the leaf list [L], the place of the new key is a bitmap node without a
    child for it and one of the two buckets of the child has a free cell,
    [ct_insert] succeeds at the first attempt. Afterwards the table stores
    the trie with the new leaf, the leaf list is the old one with the new leaf
    linked in at one place, so that iterators see all keys in order, and no
    lock is held; a lookup of the key finds the new object, and lookups of
    all other keys find what they found before. *)
Theorem ct_insert_new_leaf `{BucketLaws} `{Env} s n L kv o d :
  ordered_rep s n L -> owned (trie s) -> unlocked (trie s) ->
  kv_mem s !! kv = Some o -> kv_ok o -> key_size o <= 255 -> canonical_address kv ->
  tplace n (symbol_at (kv_key o)) 0 = at_bitmap d ->
  pair_has_room (trie s) (prefix_hash_of (trie s) (kv_key o) (S (Z.to_nat d))) = true ->
  entry_ok garbage_entry -> (forall a, is_byte (ambient_byte a)) -> (0 < retry_fuel)%nat ->
  exists s' X y Y, ct_insert kv s = Ret S_OK s' /\ L = X ++ Y /\ lr_kv y = kv /\
    ordered_rep s' (tinsert (kv_mem s) n (symbol_at (kv_key o)) 0 kv) (X ++ y :: Y) /\
    owned (trie s') /\ unlocked (trie s') /\ lock_mgr s' = [] /\ kv_mem s' = kv_mem s /\
    forall bytes, bytes_ok bytes -> Z.of_nat (length bytes) <= 255 ->
      exists before, ct_lookup bytes s = Ret before (set_lock_mgr [] s) /\
        ct_lookup bytes s' = Ret (if decide (bytes = kv_key o) then Some kv else before) s'.
Proof.
  intros Hr Hown Hun Hkv Ho Hs Hc Hd Hroom Hg Ha Hf.
  destruct (insert_new_internal Ha Hf Hg s n L Hr Hown Hun kv o d Hkv Ho Hs Hc Hd Hroom false) as (s' & E & [Hmem (X & y & Y & HL & Hy & Hrep) Hown' [Hun' Hlm]]).
  exists s', X, y, Y. split; [exact (ct_insert_created Hf s s' kv o Hkv Ho Hs E)|]. do 7 (split; [done|]). intros bytes Hb Hl.
  apply (lookups_after s s' kv o Hkv Ho Hs n); try done; [exact (or_rep _ _ _ Hr)|now rewrite Hd|exact (or_rep _ _ _ Hrep)].
Qed.

(** ** At a concrete input *)

Lemma ct_insert_new_leaf_witness :
  exists s' X y Y, @ct_insert scalar_ops sample_env (sample_address 5) five_of_six = Ret S_OK s' /\
    state_leaves 40 five_of_six = X ++ Y /\ lr_kv y = sample_address 5 /\ length (state_leaves 40 five_of_six) = 5%nat /\
    @ct_lookup scalar_ops sample_env [6] s' = Ret (Some (sample_address 5)) s' /\
    @ct_lookup scalar_ops sample_env [5] s' = Ret (Some (sample_address 2)) s'.
Proof.
  assert (Hrep : ordered_rep five_of_six (state_trie 40 five_of_six) (state_leaves 40 five_of_six)).
  { apply ordered_rep_okb_ok. vm_compute. reflexivity. }
  destruct (@ct_insert_new_leaf scalar_ops scalar_laws sample_env five_of_six (state_trie 40 five_of_six) (state_leaves 40 five_of_six)
    (sample_address 5) (mk_kv 1 0 [6]) 1) as (s' & X & y & Y & E & HL & Hy & _ & _ & _ & _ & _ & Hlook).
  - exact Hrep.
  - apply ownedb_ok; [exact (tr_table _ _ (or_rep _ _ _ Hrep))|]. vm_compute. reflexivity.
  - apply unlocked_check. vm_compute. reflexivity.
  - vm_compute. reflexivity.
  - repeat split; try discriminate; try reflexivity. apply bytes_ok_check. reflexivity.
  - discriminate.
  - left. split; [discriminate|reflexivity].
  - vm_compute. reflexivity.
  - vm_compute. reflexivity.
  - apply entry_ok_check. reflexivity.
  - exact sample_ambient.
  - cbn. lia.
  - exists s', X, y, Y. split; [exact E|]. split; [exact HL|]. split; [exact Hy|]. split; [vm_compute; reflexivity|]. split.
    + destruct (Hlook [6]) as (r & _ & ->); [apply bytes_ok_check; reflexivity|discriminate|]. now rewrite decide_True.
    + destruct (Hlook [5]) as (r & Er & ->); [apply bytes_ok_check; reflexivity|discriminate|]. rewrite decide_False by done.
      enough (@ct_lookup scalar_ops sample_env [5] five_of_six = Ret (Some (sample_address 2)) (set_lock_mgr [] five_of_six)) as E2; [congruence|].
      vm_compute. reflexivity.
Defined.
