(* ===== verification/JumpSpec.v ===== *)
(** * Inserting a new key inside a jump node (main.c: ct_insert,
    ct_insert_internal, create_leaf, split_jump_node)

    [ct_insert] splits the jump node that its key leaves; the table then stores
    the trie [tsplit], with the same leaves, and the key's place is the new
    bitmap node. The leaf is created there with the finger that the split has
    left. Copies in this finger may be out of date, because the split writes
    to buckets of the path; then the first attempt gives up after the split, and
    the second one finds the bitmap node. *)

From S2P Require Import Prelude Bits Entry KeyObject State Hashing Symbols Random Atomics Table Contents Store Locks Cells Search Relocate AddEntry Scalar Finger Insert Iter Api Alloc Lookup Preserve Order Linked Spine Sample IterSpec Place Frame Dictionary InsertSpec Fields Nodes TreeInsert Growth NewLeaf Inserted JumpTree Upgrade Locked Stale Room SplitJump JumpFinger NewKey.
From stdpp Require Import base list gmap sorting.
From Stdlib Require Import ZArith Lia Bool.

#[local] Open Scope Z_scope.

(** ** The jump node that a key leaves *)

(** Its symbols, and how many of them the key shares. *)
Fixpoint left_jump (n : tnode) (sym : Z -> Z) (k : Z) : option (list Z * nat) :=
  match n with
  | TLeaf _ => None
  | TJump syms child =>
      if follows syms sym k then left_jump child sym (k + Z.of_nat (length syms)) else Some (syms, common syms sym k)
  | TBitmap f => match f (sym k) with Some c => left_jump c sym (k + 1) | None => None end
  end.

Lemma spine_left_jump sym t n0 L0 P n h c L B pre :
  spine t n0 L0 P n h c L B pre -> along sym pre -> left_jump n0 sym 0 = left_jump n sym (Z.of_nat (length pre)).
Proof.
  induction 1 as [pe Ha Hl|P pe pe' syms child h c L B pre Hs IH Hlast Ha Hl|P pe pe' f g h c L B pre s ch c' Hs IH Hlast EL Hc Hrs Ef Hch Ha Hsy Hl]; intros Hal.
  - reflexivity.
  - rewrite IH by exact (along_app _ _ _ Hal). cbn [left_jump]. rewrite (along_follows _ _ _ Hal).
    now rewrite length_app, Nat2Z.inj_add.
  - rewrite IH by exact (along_app _ _ _ Hal). cbn [left_jump].
    assert (Es : s = sym (Z.of_nat (length pre))) by (apply Hal; rewrite lookup_app_r, Nat.sub_diag by lia; reflexivity).
    rewrite <- Es, Ef, length_app. cbn [length]. f_equal. lia.
Qed.

(** ** The child of a jump node *)

(** It has no parent color, and its last symbol is the last one of the jump
    node: [split_jump_node] leaves the last symbol of the child as it is. *)
Definition jump_symbols (e : ct_entry) : list Z := map (fun i => get_jump_symbol e (Z.of_nat i)) (seq 0 (Z.to_nat (entry_jump_size e))).

Definition plain_children (t : cuckoo_trie) : Prop :=
  forall p h c e q e', holds t p (h, c) e -> entry_type e = TYPE_JUMP ->
    holds t q (accumulate_list t h (jump_symbols e), entry_child_color e) e' ->
    entry_parent_color e' = INVALID_COLOR /\ last_symbol e' = get_jump_symbol e (entry_jump_size e - 1).

Definition plain_childrenb (t : cuckoo_trie) : bool :=
  forallb (fun '(p, e) =>
    negb (entry_type e =? TYPE_JUMP) ||
    match holder t (accumulate_list t (entry_hash t p e) (jump_symbols e), entry_child_color e) with
    | Some (_, e') => (entry_parent_color e' =? INVALID_COLOR) && (last_symbol e' =? get_jump_symbol e (entry_jump_size e - 1))
    | None => true
    end) (used_cells t).

Lemma holds_used_cells t p k e : holds t p k e -> In (p, e) (used_cells t).
Proof. intros (Hp & He & Hu & _). apply filter_In. split; [now apply all_cells_In|exact Hu]. Qed.

Lemma holds_holder t p k e : table_ok t -> holds t p k e -> exists q, holder t k = Some (q, e).
Proof.
  intros Ht Hh. destruct (holder t k) as [[q e']|] eqn:Eq.
  - apply holder_holds in Eq; [|done]. destruct (holds_entry _ _ _ _ _ _ Ht Hh Eq) as [_ ->]. eauto.
  - exfalso. pose proof (find_none _ _ Eq (p, e) (holds_used_cells _ _ _ _ Hh)) as Hf. destruct Hh as (_ & _ & _ & Hk).
    cbv beta iota in Hf. unfold key_eqb in Hf. rewrite Hk, !Z.eqb_refl in Hf. discriminate.
Qed.

Lemma plain_childrenb_ok t : table_ok t -> plain_childrenb t = true -> plain_children t.
Proof.
  intros Ht Hb p h c e q e' Hh Ty Hc. unfold plain_childrenb in Hb. rewrite forallb_forall in Hb.
  specialize (Hb (p, e) (holds_used_cells _ _ _ _ Hh)). cbv beta iota in Hb. rewrite Ty in Hb. cbn [negb orb Z.eqb TYPE_JUMP Pos.eqb] in Hb.
  destruct Hh as (_ & _ & _ & Hk). injection Hk as Eh _. rewrite Eh in Hb. destruct (holds_holder _ _ _ _ Ht Hc) as (q' & E).
  rewrite E in Hb. now apply andb_true_iff in Hb as [H1%Z.eqb_eq H2%Z.eqb_eq].
Qed.

Lemma jump_symbols_fields y syms e : jump_fields y syms e -> jump_symbols e = syms.
Proof.
  intros Hj. unfold jump_symbols. rewrite (jf_size _ _ _ Hj), Nat2Z.id. apply list_eq_same_length with (n := length syms); [done|now rewrite length_map, length_seq|].
  intros i a b Hi Ha Hb. rewrite list_lookup_fmap, lookup_seq_lt in Ha by done. cbn in Ha. injection Ha as <-. now apply (jf_symbols _ _ _ Hj).
Qed.

(** ** After the descent *)

Section insertion.
Context `{laws : BucketLaws} `{env : Env}.
Hypothesis ambient_ok : forall a, is_byte (ambient_byte a).
Hypothesis garbage_ok : entry_ok garbage_entry.

Variables (s : state) (n : tnode) (L : list leaf_ref).
Hypothesis s_rep : ordered_rep s n L.
Hypothesis s_owned : owned (trie s).
Hypothesis s_plain : plain_children (trie s).
Hypothesis s_unlocked : unlocked (trie s).

Variables (o : ct_kv) (k : Z) (syms : list Z) (d : nat).
Hypothesis o_ok : kv_ok o.
Hypothesis o_short : key_size o <= 255.

Let sym : Z -> Z := symbol_at (kv_key o).
Let hb : Z := prefix_hash_of (trie s) (kv_key o) (Z.to_nat k).

Hypothesis at_place : tplace n sym 0 = in_jump k.
Hypothesis at_jump : left_jump n sym 0 = Some (syms, d).

(** There is room for the nodes of the two parts, and then for the new leaf. *)
Hypothesis has_room : rooms (trie s) [] (cut_hashes (trie s) hb syms d ++ [accumulate_hash (trie s) hb (sym k)]) = true.

(** What the descent leaves at the jump node. *)
Lemma descent_at_jump f r : descend_end (set_lock_mgr [] s) n L o f r -> r = Some (sym k) /\
  exists lb child h c L' B A pre pe x, goto_at (set_lock_mgr [] s) n L (kv_key o) f lb k (TJump syms child) h c d L' B A pre pe /\
    0 <= k <= 408 /\ syms !! d = Some x /\ x <> sym k /\ accumulate_list (trie s) h (take d syms) = hb /\
    (drop (S d) syms = [] -> forall q e, holds (trie s) q (accumulate_hash (trie s) hb x, entry_child_color (pe_value pe)) e ->
      last_symbol e = x /\ entry_parent_color e = INVALID_COLOR).
Proof.
  pose proof (ordered_rep_locks s n L [] s_rep) as Hr'. set (s1 := set_lock_mgr [] s) in *.
  intros [r1 lb k' kv' h c d' L' B A pre pe _ Hp _|lb k' syms' child h c d' L' B A pre pe x [G _] Hp Hx Hne|lb k' fc h c d' L' B A pre pe _ Hp];
    fold sym in Hp; rewrite at_place in Hp; try discriminate.
  injection Hp as <-. split; [done|].
  pose proof (ga_depth _ _ _ _ _ _ _ _ _ _ _ _ _ _ _ _ G) as Hk. pose proof (ga_jump _ _ _ _ _ _ _ _ _ _ _ _ _ _ _ _ G) as [Hd Hm].
  destruct (common_at syms' (symbol_at (kv_key o)) (Z.of_nat (length pre)) d' x) as [Hfol Hcom].
  { intros i y Hi Hy. rewrite (Hm i y Hi Hy). f_equal. lia. }
  { exact Hx. }
  { now replace (Z.of_nat (length pre) + Z.of_nat d') with k by lia. }
  pose proof (spine_left_jump (symbol_at (kv_key o)) _ _ _ _ _ _ _ _ _ _ (ga_spine _ _ _ _ _ _ _ _ _ _ _ _ _ _ _ _ G) (ga_on_path _ _ _ _ _ _ _ _ _ _ _ _ _ _ _ _ G)) as Hl.
  fold sym in Hl. rewrite at_jump in Hl. cbn [left_jump] in Hl. fold sym in Hfol, Hcom. rewrite Hfol, Hcom in Hl. injection Hl as <- <-.
  assert (Hkb : 0 <= k <= 408).
  { pose proof (proj2 (key_facts o o_ok o_short)) as Hn. destruct (ga_bound _ _ _ _ _ _ _ _ _ _ _ _ _ _ _ _ G) as [Hb|[_ Hb]]; [lia|discriminate]. }
  destruct (finger_in_jump s1 n L (kv_key o) f lb k syms child h c d L' B A pre pe x G Hkb) as (_ & Ehb & _).
  assert (Eb : accumulate_list (trie s) h (take d syms) = hb).
  { change (trie s) with (trie s1) at 1. rewrite <- Ehb, (fa_hash _ _ _ _ _ _ _ _ (ga_finger _ _ _ _ _ _ _ _ _ _ _ _ _ _ _ _ G)). reflexivity. }
  exists lb, child, h, c, L', B, A, pre, pe, x. do 5 (split; [done|]). intros Hr q e He.
  destruct (jump_here s1 n L Hr' (kv_key o) f lb k syms child h c d L' B A pre pe x G) as (Ha & _ & _ & (y & Hj) & _).
  pose proof (jump_symbols_fields _ _ _ Hj) as Ej.
  destruct (cut_hash_ok s1 n L Hr' (kv_key o) f lb k syms child h c d L' B A pre pe x G Hx) as (_ & _ & Eh).
  rewrite Hr in Eh. cbn [accumulate_list fold_left] in Eh. change (trie s1) with (trie s) in Eh. rewrite Eb in Eh. rewrite <- Eh, <- Ej in He.
  destruct (s_plain _ h c (pe_value pe) q e (an_holds _ _ _ _ Ha) (jf_type _ _ _ Hj) He) as [H1 H2]. split; [|exact H1].
  rewrite H2, (jf_size _ _ _ Hj). assert (El : length (drop (S d) syms) = 0%nat) by now rewrite Hr. rewrite length_drop in El.
  replace (Z.of_nat (length syms) - 1) with (Z.of_nat d) by lia. now apply (jf_symbols _ _ _ Hj).
Qed.

(** ** Trying again *)

(** The lock bytes do not matter. *)
Lemma gave_up_rep s1 s2 n1 L1 : gave_up s1 s2 -> ordered_rep s1 n1 L1 -> owned (trie s1) -> ordered_rep s2 n1 L1 /\ owned (trie s2).
Proof.
  intros [G1 G2 _ G4] [[R1 R2 (e & R3) R4 R5] R6 R7] [O1 O2]. pose proof (locked_params _ _ G1) as Hp.
  pose proof (locked_table _ _ R1 G2 G1) as Ht. pose proof (locked_linked _ _ R1 G1 _ _ _ _ R6) as Hl. split; [split|split].
  - split; [exact Ht|rewrite (same_params_eq _ _ Hp); exact R2| |exact (linked_rep _ _ _ _ _ Hl)|now rewrite G4].
    exists e. now apply (locked_holds _ _ G1).
  - exact Hl.
  - apply list_ok_next; [exact Ht|intros y Hy; exact (linked_leaf _ _ _ _ _ y Hl Hy)|].
    apply (list_ok_next _ _ R1) in R7 as [H1 H2]; [|intros y Hy; exact (linked_leaf _ _ _ _ _ y R6 Hy)]. split.
    + destruct H1 as (e1 & He1 & H1). exists e1. split; [|exact H1].
      rewrite <- (same_but_locks_entry _ _ _ G1). rewrite <- He1. f_equal. now rewrite (same_params_eq _ _ Hp).
    + intros i y Hi. destruct (H2 i y Hi) as (e1 & He1 & Hn). exists e1. split; [|exact Hn]. exact (locked_leaf _ _ G1 _ _ He1).
  - intros p h' c' e1 Hh Hc. apply (locked_holds _ _ G1) in Hh. destruct (O1 p h' c' e1 Hh Hc) as (h1 & q & eb & H1 & H2 & H3 & H4).
    exists h1, q, eb. rewrite (accumulate_hash_params _ _ Hp). split; [done|]. split; [done|]. split; [now apply (locked_holds _ _ G1)|exact H4].
  - intros p e1 Hh. apply (locked_holds _ _ G1) in Hh. exact (O2 p e1 Hh).
Qed.

Lemma retry_twice op s0 s1 r s2 : (1 < retry_fuel)%nat -> op s0 = Ret SI_RETRY s1 -> op s1 = Ret r s2 -> r <> SI_RETRY -> retry op s0 = Ret r s2.
Proof.
  intros Hf E1 E2 Hr. unfold retry. destruct retry_fuel as [|[|n']]; [lia|lia|].
  erewrite loop_inl by (erewrite bind_Ret by exact E1; rewrite bool_decide_true by done; reflexivity).
  apply loop_inr. erewrite bind_Ret by exact E2. now rewrite bool_decide_false.
Qed.

(** ** The insertion *)

Variables (kv : Z).
Hypothesis kv_at : kv_mem s !! kv = Some o.
Hypothesis canonical : canonical_address kv.

(** [create_leaf] at the jump node: it is split, and the leaf is created at
    the new bitmap node, or a copy in the finger is found to be out of date and
    the table is left with the node split. *)
Lemma create_leaf_at_jump f : descend_end (set_lock_mgr [] s) n L o f (Some (sym k)) ->
  exists f' s', create_leaf f kv (sym k) (set_lock_mgr [] s) = Ret (SI_OK, f') s' /\ key_added s (tsplit n sym 0) L kv sym s' \/
    exists s1, create_leaf f kv (sym k) (set_lock_mgr [] s) = Ret (SI_RETRY, f') s' /\ gave_up s1 s' /\
      ordered_rep s1 (tsplit n sym 0) L /\ owned (trie s1) /\ kv_mem s1 = kv_mem s /\ same_params (trie s) (trie s1) /\
      pair_has_room (trie s1) (accumulate_hash (trie s) hb (sym k)) = true.
Proof.
  pose proof (ordered_rep_locks s n L [] s_rep) as Hr'. set (s1 := set_lock_mgr [] s) in *. intros Hend.
  destruct (descent_at_jump f _ Hend) as (_ & lb & child & h & c & L' & B & A & pre & pe & x & G & Hkb & Hx & Hne & Eb & Hplain).
  pose proof has_room as Hroom. rewrite <- Eb in Hroom, Hplain.
  destruct (split_jump_at s1 n L Hr' s_unlocked eq_refl garbage_ok (kv_key o) f lb k syms child h c d L' B A pre pe x _ G Hkb Hx Hplain Hroom s_owned Hne)
    as (f' & s' & E & J).
  destruct (finger_at_fork s1 n L Hr' (kv_key o) f lb k syms child h c d L' B A pre pe x _ G Hkb Hx Hne f' s' J) as (cb & pe' & G' & Hno).
  destruct J as [J1 J2 [J3 J3'] J4 J5 _ _ J8 (cb' & _ & J9) _]. change (trie s1) with (trie s) in *. rewrite Eb in J8, G'.
  destruct (new_hash s' _ L J1 _ _ _ _ _ _ _ _ _ _ _ _ _ G') as [Hh _]. rewrite (accumulate_hash_params _ _ J5) in Hh. fold sym in Hh.
  assert (Hh' : hash_ok (trie s) (accumulate_hash (trie s) hb (sym k))) by (unfold hash_ok in *; now rewrite (same_params_eq _ _ J5) in Hh).
  specialize (J8 Hh').
  destruct (jump_here s1 n L Hr' (kv_key o) f lb k syms child h c d L' B A pre pe x G) as (_ & Ev & _ & (y & Hj) & _).
  assert (Hc : forall st s2, create_leaf_in_bitmap f' kv (sym k) s' = Ret st s2 -> create_leaf f kv (sym k) s1 = Ret (st, f') s2).
  { intros st s2 E2. unfold create_leaf. cbv zeta. rewrite Ev, (jf_type _ _ _ Hj), (jf_size _ _ _ Hj).
    rewrite (fa_depth _ _ _ _ _ _ _ _ (ga_finger _ _ _ _ _ _ _ _ _ _ _ _ _ _ _ _ G)). cbn [Z.eqb TYPE_JUMP Pos.eqb].
    pose proof (lookup_lt_Some _ _ _ Hx). rewrite (proj2 (Z.eqb_neq (Z.of_nat d) (Z.of_nat (length syms)))) by lia. cbn [negb].
    erewrite bind_Ret by (erewrite bind_Ret by reflexivity; exact E).
    cbv iota beta. rewrite !bool_decide_false by discriminate. rewrite J9. cbn [Z.eqb TYPE_BITMAP Pos.eqb].
    now erewrite bind_Ret by exact E2. }
  exists f'. destruct (create_in_bitmap_any s' _ L J1 J3 J3' (kv_key o) f' lb k _ hb cb 0 L' B A _ pe' G' Hkb kv o) as [(s2 & E2 & [K1 K2 K3 K4])|(s2 & E2 & Hg & _)]; try done.
  - now rewrite J4.
  - rewrite (accumulate_hash_params _ _ J5). exact J8.
  - exact (tsplit_place _ _ _ _ _ _ (tr_ok _ _ (or_rep _ _ _ s_rep)) at_place).
  - exists s2. left. split; [exact (Hc _ _ E2)|]. rewrite J4 in K1, K2. now split.
  - exists s2. right. exists s'. split; [exact (Hc _ _ E2)|]. now rewrite J4.
Qed.

(** The insertion, by one attempt or by two. *)
Lemma insert_at_jump : (1 < retry_fuel)%nat -> exists s', retry (ct_insert_internal kv false) s = Ret SI_OK s' /\ key_added s (tsplit n sym 0) L kv sym s'.
Proof.
  intros Hfuel. pose proof (ordered_rep_locks s n L [] s_rep) as Hr'. set (s1 := set_lock_mgr [] s) in *.
  destruct (init_finger_spec s n (kv_key o) (or_rep _ _ _ s_rep)) as (f0 & Ef & Hf & Hpath). fold s1 in Ef.
  destruct (descend_place ambient_ok s1 n L Hr' o o_ok o_short f0 Hf Hpath) as (f & r & Ed & Hend).
  destruct (descent_at_jump f r Hend) as (-> & lb & child & h & c & L' & B & A & pre & pe & x & _ & Hk & _).
  assert (Hi : forall st f' s', create_leaf f kv (sym k) s1 = Ret (st, f') s' -> ct_insert_internal kv false s = Ret st s').
  { intros st f' s' E. unfold ct_insert_internal. erewrite bind_Ret by (apply load_kv_eq; exact kv_at). erewrite bind_Ret by exact Ef. cbv iota beta.
    erewrite bind_Ret by reflexivity. cbv iota beta. erewrite bind_Ret by exact Ed. cbv iota beta. erewrite bind_Ret by exact E. reflexivity. }
  destruct (create_leaf_at_jump f Hend) as (f' & s' & [[E Hka]|(s2 & E & Hg & Hr2 & Ho2 & Hm2 & Hp2 & Hroom2)]).
  - exists s'. split; [|exact Hka]. apply retry_now; [lia|exact (Hi _ _ _ E)|discriminate].
  - destruct (gave_up_rep _ _ _ _ Hg Hr2 Ho2) as [Hr3 Ho3]. destruct Hg as [G1 G2 [G3 G4] G5].
    destruct (insert_new_internal ambient_ok ltac:(lia) garbage_ok s' (tsplit n sym 0) L Hr3 Ho3 G3 kv o k) with (is_upsert := false) as (s3 & E3 & [K1 K2 K3 K4]); try done.
    + now rewrite G5, Hm2.
    + exact (tsplit_place _ _ _ _ _ _ (tr_ok _ _ (or_rep _ _ _ s_rep)) at_place).
    + pose proof (locked_params _ _ G1) as Hp. rewrite <- (pair_has_room_locks _ _ _ G1).
      rewrite (prefix_hash_params (trie s)) by now transitivity (trie s2).
      cbn [prefix_hash_of]. rewrite Z2Nat.id by lia. exact Hroom2.
    + exists s3. split; [exact (retry_twice _ _ _ _ _ Hfuel (Hi _ _ _ E) E3 ltac:(discriminate))|]. rewrite G5, Hm2 in K1, K2. now split.
Qed.
End insertion.

(** ** The property *)

(** C6. A new key that leaves a jump node: when the table stores the trie [n]
    with the leaf list [L], the place of the key is inside a jump node with the
    symbols [syms], of which the key shares [d], and the bucket pairs of the
    new entries have room, [ct_insert] succeeds, by the first attempt or by
    the second. Afterwards the jump node is cut around its symbol [d], for
    which there is a bitmap node, and the new leaf is a child of this node; the
    leaf list is the old one with the new leaf linked in at one place, so that
    iterators see all keys in order, and no lock is held; a lookup of the key
    finds the new object, and lookups of all other keys find what they found
    before. *)
Theorem ct_insert_split_jump `{BucketLaws} `{Env} s n L kv o k syms d :
  ordered_rep s n L -> owned (trie s) -> plain_children (trie s) -> unlocked (trie s) ->
  kv_mem s !! kv = Some o -> kv_ok o -> key_size o <= 255 -> canonical_address kv ->
  tplace n (symbol_at (kv_key o)) 0 = in_jump k -> left_jump n (symbol_at (kv_key o)) 0 = Some (syms, d) ->
  rooms (trie s) []
    (cut_hashes (trie s) (prefix_hash_of (trie s) (kv_key o) (Z.to_nat k)) syms d ++
      [accumulate_hash (trie s) (prefix_hash_of (trie s) (kv_key o) (Z.to_nat k)) (symbol_at (kv_key o) k)]) = true ->
  entry_ok garbage_entry -> (forall a, is_byte (ambient_byte a)) -> (1 < retry_fuel)%nat ->
  exists s' X y Y, ct_insert kv s = Ret S_OK s' /\ L = X ++ Y /\ lr_kv y = kv /\
    ordered_rep s' (tinsert (kv_mem s) (tsplit n (symbol_at (kv_key o)) 0) (symbol_at (kv_key o)) 0 kv) (X ++ y :: Y) /\
    owned (trie s') /\ unlocked (trie s') /\ lock_mgr s' = [] /\ kv_mem s' = kv_mem s /\
    forall bytes, bytes_ok bytes -> Z.of_nat (length bytes) <= 255 ->
      exists before, ct_lookup bytes s = Ret before (set_lock_mgr [] s) /\
        ct_lookup bytes s' = Ret (if decide (bytes = kv_key o) then Some kv else before) s'.
Proof.
  intros Hr Hown Hpl Hun Hkv Ho Hs Hc Hd Hj Hroom Hg Ha Hf.
  destruct (insert_at_jump Ha Hg s n L Hr Hown Hpl Hun o k syms d Ho Hs Hd Hj Hroom kv Hkv Hc Hf)
    as (s' & E & [Hmem (X & y & Y & HL & Hy & Hrep) Hown' [Hun' Hlm]]).
  exists s', X, y, Y. split; [exact (ct_insert_retried ltac:(lia) s s' kv o Hkv Ho Hs E)|]. do 7 (split; [done|]). intros bytes Hb Hl.
  pose proof (tr_ok _ _ (or_rep _ _ _ Hr)) as Hok. eexists. split; [exact (ct_lookup_spec Ha s n bytes (or_rep _ _ _ Hr) Hb Hl)|].
  rewrite (ct_lookup_spec Ha s' _ bytes (or_rep _ _ _ Hrep) Hb Hl), Hmem.
  rewrite (tinsert_lookup (kv_mem s) kv o Hkv Ho Hs) by (rewrite ?(tsplit_place _ _ _ _ _ _ Hok Hd); done || now apply tsplit_ok).
  rewrite (tsplit_lookup _ _ _ _ Hok). f_equal. destruct s'. cbn in Hlm. now subst.
Qed.

(** ** At a concrete input *)

(** The sample keys are in the trie; a sixth key leaves a jump node of two
    symbols at the second. *)
Definition leaving_kv : ct_kv := mk_kv 3 0 [1; 2; 128].

Definition five_of_leaving : state :=
  match insert_all 5 (empty_state (sample_keys ++ [[1; 2; 128]])) with Ret _ s => s | _ => empty_state sample_keys end.

Lemma ct_insert_split_jump_witness :
  exists s' X y Y, @ct_insert scalar_ops sample_env (sample_address 5) five_of_leaving = Ret S_OK s' /\
    left_jump (state_trie 40 five_of_leaving) (symbol_at (kv_key leaving_kv)) 0 = Some ([2; 1], 1%nat) /\
    state_leaves 40 five_of_leaving = X ++ Y /\ lr_kv y = sample_address 5 /\ length (state_leaves 40 five_of_leaving) = 5%nat /\
    ordered_rep s' (tinsert (kv_mem five_of_leaving) (tsplit (state_trie 40 five_of_leaving) (symbol_at (kv_key leaving_kv)) 0)
      (symbol_at (kv_key leaving_kv)) 0 (sample_address 5)) (X ++ y :: Y) /\
    @ct_lookup scalar_ops sample_env [1; 2; 128] s' = Ret (Some (sample_address 5)) s' /\
    @ct_lookup scalar_ops sample_env [1; 2; 3] s' = Ret (Some (sample_address 0)) s'.
Proof.
  assert (Hrep : ordered_rep five_of_leaving (state_trie 40 five_of_leaving) (state_leaves 40 five_of_leaving)).
  { apply ordered_rep_okb_ok. vm_compute. reflexivity. }
  pose proof (tr_table _ _ (or_rep _ _ _ Hrep)) as Ht.
  destruct (@ct_insert_split_jump scalar_ops scalar_laws sample_env five_of_leaving (state_trie 40 five_of_leaving) (state_leaves 40 five_of_leaving)
    (sample_address 5) leaving_kv 3 [2; 1] 1) as (s' & X & y & Y & E & HL & Hy & Hr' & _ & _ & _ & _ & Hlook).
  - exact Hrep.
  - apply ownedb_ok; [exact Ht|]. vm_compute. reflexivity.
  - apply plain_childrenb_ok; [exact Ht|]. vm_compute. reflexivity.
  - apply unlocked_check. vm_compute. reflexivity.
  - vm_compute. reflexivity.
  - repeat split; try discriminate; try reflexivity. apply bytes_ok_check. reflexivity.
  - discriminate.
  - left. split; [discriminate|reflexivity].
  - vm_compute. reflexivity.
  - vm_compute. reflexivity.
  - vm_compute. reflexivity.
  - apply entry_ok_check. reflexivity.
  - exact sample_ambient.
  - cbn. lia.
  - exists s', X, y, Y. split; [exact E|]. split; [vm_compute; reflexivity|]. split; [exact HL|]. split; [exact Hy|]. split; [vm_compute; reflexivity|].
    split; [exact Hr'|]. split.
    + destruct (Hlook [1; 2; 128]) as (r & _ & ->); [apply bytes_ok_check; reflexivity|discriminate|]. now rewrite decide_True.
    + destruct (Hlook [1; 2; 3]) as (r & Er & ->); [apply bytes_ok_check; reflexivity|discriminate|]. rewrite decide_False by done.
      enough (@ct_lookup scalar_ops sample_env [1; 2; 3] five_of_leaving = Ret (Some (sample_address 0)) (set_lock_mgr [] five_of_leaving)) as E2; [congruence|].
      vm_compute. reflexivity.
Defined.
