(* ===== verification/InsertAgree.v ===== *)
(** * Inserting a new key, wherever its place is, with both libraries

    The three kinds of place of a new key (a bitmap node without the child, the
    leaf of another key, the inside of a jump node) put together, and the
    agreement of the insertions of main.c and main_vectorized.c. *)

From S2P Require Import Prelude VectorLib Entry KeyObject State Symbols Hashing Atomics Table Contents Finger Insert Api Lookup Order Linked Place Scalar Vectorized Sample IterSpec Dictionary InsertSpec TreeInsert NewLeaf Inserted JumpTree Room AddEntry SplitJump SplitNodes SplitKey NewKey JumpSpec.
From stdpp Require Import base list gmap.
From Stdlib Require Import ZArith Lia Bool.

#[local] Open Scope Z_scope.

(** The bucket pairs of the new entries have room. *)
Definition room_for (s : state) (n : tnode) (o : ct_kv) : bool :=
  let sym := symbol_at (kv_key o) in
  let hash k := prefix_hash_of (trie s) (kv_key o) k in
  match tplace n sym 0 with
  | at_bitmap d => pair_has_room (trie s) (hash (S (Z.to_nat d)))
  | at_leaf old k =>
      bool_decide (is_Some (kv_mem s !! old)) &&
      rooms (trie s) [] (split_hashes s (kv_symbol (kv_mem s) old) sym k (hash (Z.to_nat k)))
  | in_jump k =>
      match left_jump n sym 0 with
      | Some (syms, d) =>
          rooms (trie s) [] (cut_hashes (trie s) (hash (Z.to_nat k)) syms d ++
            [accumulate_hash (trie s) (hash (Z.to_nat k)) (sym k)])
      | None => false
      end
  end.

(** The trie after the insertion. *)
Definition trie_after (s : state) (n : tnode) (kv : Z) (o : ct_kv) : tnode :=
  let sym := symbol_at (kv_key o) in
  tinsert (kv_mem s) (match tplace n sym 0 with in_jump _ => tsplit n sym 0 | _ => n end) sym 0 kv.

Section insertion.
Context `{Env}.
Hypothesis ambient_ok : forall a, is_byte (ambient_byte a).
Hypothesis garbage_ok : entry_ok garbage_entry.
Hypothesis two_attempts : (1 < retry_fuel)%nat.
Variables (s : state) (n : tnode) (L : list leaf_ref) (kv : Z) (o : ct_kv).
Hypothesis s_rep : ordered_rep s n L.
Hypothesis s_owned : owned (trie s).
Hypothesis s_plain : plain_children (trie s).
Hypothesis s_unlocked : unlocked (trie s).
Hypothesis kv_at : kv_mem s !! kv = Some o.
Hypothesis o_ok : kv_ok o.
Hypothesis o_short : key_size o <= 255.
Hypothesis canonical : canonical_address kv.
Hypothesis new_key : tlookup (kv_mem s) n (kv_key o) = None.
Hypothesis has_room : room_for s n o = true.

Let n_ok : trie_ok (kv_mem s) n [] := tr_ok _ _ (or_rep _ _ _ s_rep).

(** The state after an insertion. *)
Record inserted (s' : state) : Prop := mk_inserted {
  is_rep : exists L', ordered_rep s' (trie_after s n kv o) L';
  is_owned : owned (trie s');
  is_unlocked : unlocked (trie s');
  is_locks : lock_mgr s' = [];
  is_mem : kv_mem s' = kv_mem s;
}.

Lemma insert_anywhere `{BucketLaws} : exists s', ct_insert kv s = Ret S_OK s' /\ inserted s'.
Proof.
  pose proof (absent_lookup (kv_mem s) o n n_ok new_key) as Hab. pose proof has_room as Hroom. unfold room_for in Hroom.
  destruct (tplace n (symbol_at (kv_key o)) 0) as [old k|k|d] eqn:Ep.
  - apply andb_prop in Hroom as [Hoe Hroom]. apply bool_decide_eq_true in Hoe as [oe Hoe].
    destruct (insert_split_internal ambient_ok garbage_ok s n L s_rep s_owned s_unlocked kv o old k oe kv_at o_ok o_short canonical
      Hoe (Hab oe Hoe) Ep Hroom false) as (s' & X & x & y1 & y2 & Y & E & [_ _ Hrep Ho [Hu Hl] Hm]).
    exists s'. split; [exact (ct_insert_created ltac:(lia) s s' kv o kv_at o_ok o_short E)|].
    split; try assumption. exists (X ++ y1 :: y2 :: Y). unfold trie_after. now rewrite Ep.
  - destruct (left_jump n (symbol_at (kv_key o)) 0) as [[syms d]|] eqn:Ej; [|discriminate].
    destruct (insert_at_jump ambient_ok garbage_ok s n L s_rep s_owned s_plain s_unlocked o k syms d o_ok o_short Ep Ej Hroom
      kv kv_at canonical two_attempts) as (s' & E & [Hm (X & y & Y & _ & _ & Hrep) Ho [Hu Hl]]).
    exists s'. split; [exact (ct_insert_retried ltac:(lia) s s' kv o kv_at o_ok o_short E)|].
    split; try assumption. exists (X ++ y :: Y). unfold trie_after. now rewrite Ep.
  - destruct (insert_new_internal ambient_ok ltac:(lia) garbage_ok s n L s_rep s_owned s_unlocked kv o d kv_at o_ok o_short canonical
      Ep Hroom false) as (s' & E & [Hm (X & y & Y & _ & _ & Hrep) Ho [Hu Hl]]).
    exists s'. split; [exact (ct_insert_created ltac:(lia) s s' kv o kv_at o_ok o_short E)|].
    split; try assumption. exists (X ++ y :: Y). unfold trie_after. now rewrite Ep.
Qed.

(** What lookups find in the trie after the insertion. *)
Lemma trie_after_lookup bytes :
  tlookup (kv_mem s) (trie_after s n kv o) bytes =
  if decide (bytes = kv_key o) then Some kv else tlookup (kv_mem s) n bytes.
Proof.
  pose proof (absent_lookup (kv_mem s) o n n_ok new_key) as Hab. unfold trie_after.
  destruct (tplace n (symbol_at (kv_key o)) 0) as [old k|k|d] eqn:Ep.
  - apply (tinsert_lookup (kv_mem s) kv o kv_at o_ok o_short); [exact n_ok|now rewrite Ep].
  - rewrite (tinsert_lookup (kv_mem s) kv o kv_at o_ok o_short); [now rewrite (tsplit_lookup _ _ _ _ n_ok)|now apply tsplit_ok|].
    now rewrite (tsplit_place _ _ _ _ _ _ n_ok Ep).
  - apply (tinsert_lookup (kv_mem s) kv o kv_at o_ok o_short); [exact n_ok|now rewrite Ep].
Qed.

Lemma lookup_inserted `{BucketLaws} s' bytes :
  inserted s' -> bytes_ok bytes -> Z.of_nat (length bytes) <= 255 ->
  ct_lookup bytes s' = Ret (if decide (bytes = kv_key o) then Some kv else tlookup (kv_mem s) n bytes) s'.
Proof.
  intros [[L' Hr] _ _ Hl Hm] Hb Hlen. rewrite (ct_lookup_spec ambient_ok s' _ bytes (or_rep _ _ _ Hr) Hb Hlen), Hm, trie_after_lookup.
  f_equal. destruct s'. cbn in Hl. now subst.
Qed.

End insertion.

(** ** The property *)

(** C28. The two libraries insert alike: when the table stores the trie [n] and
    the bucket pairs of the new entries have room, [ct_insert] of main.c and of
    main_vectorized.c, with AVX-512 and without, both put any new key of at
    most 255 bytes into the trie, whether its place is a bitmap node, the leaf
    of another key or the inside of a jump node. Both tables then store the same trie,
    no lock is held, and every lookup gives the same answer in both: the new
    object for its key, and for all other keys what was found before. *)
Theorem insert_libraries_agree `{Env} has_avx512 s n L kv o :
  ordered_rep s n L -> owned (trie s) -> plain_children (trie s) -> unlocked (trie s) ->
  kv_mem s !! kv = Some o -> kv_ok o -> key_size o <= 255 -> canonical_address kv ->
  tlookup (kv_mem s) n (kv_key o) = None -> room_for s n o = true ->
  entry_ok garbage_entry -> (forall a, is_byte (ambient_byte a)) -> (1 < retry_fuel)%nat ->
  exists s1 s2 n', @Api.ct_insert scalar_ops _ kv s = Ret S_OK s1 /\ VectorLib.ct_insert has_avx512 kv s = Ret S_OK s2 /\
    trie_rep s1 n' /\ trie_rep s2 n' /\ unlocked (trie s1) /\ unlocked (trie s2) /\
    forall bytes, bytes_ok bytes -> Z.of_nat (length bytes) <= 255 ->
      exists before, @Api.ct_lookup scalar_ops _ bytes s = Ret before (set_lock_mgr [] s) /\
        let found := if decide (bytes = kv_key o) then Some kv else before in
        @Api.ct_lookup scalar_ops _ bytes s1 = Ret found s1 /\ VectorLib.ct_lookup has_avx512 bytes s2 = Ret found s2.
Proof.
  intros Hr Hown Hpl Hun Hkv Ho Hs Hc Hnew Hroom Hg Ha Hf.
  destruct (insert_anywhere Ha Hg Hf s n L kv o Hr Hown Hpl Hun Hkv Ho Hs Hc Hnew Hroom (H1 := scalar_laws)) as (s1 & E1 & I1).
  destruct (insert_anywhere Ha Hg Hf s n L kv o Hr Hown Hpl Hun Hkv Ho Hs Hc Hnew Hroom (H1 := vectorized_laws has_avx512)) as (s2 & E2 & I2).
  exists s1, s2, (trie_after s n kv o). split; [exact E1|]. split; [exact E2|].
  destruct (is_rep _ _ _ _ _ I1) as [L1 R1]. destruct (is_rep _ _ _ _ _ I2) as [L2 R2].
  split; [exact (or_rep _ _ _ R1)|]. split; [exact (or_rep _ _ _ R2)|]. split; [apply I1|]. split; [apply I2|].
  intros bytes Hb Hl. exists (tlookup (kv_mem s) n bytes). split; [exact (ct_lookup_spec Ha s n bytes (or_rep _ _ _ Hr) Hb Hl)|]. split.
  - now apply (lookup_inserted Ha s n L kv o Hr Hkv Ho Hs Hnew s1 bytes I1).
  - now apply (lookup_inserted Ha s n L kv o Hr Hkv Ho Hs Hnew s2 bytes I2 (H1 := vectorized_laws has_avx512)).
Qed.

(** ** At a concrete input *)

(** The key that leaves a jump node of the sample trie, inserted by both. *)
Lemma insert_libraries_agree_witness :
  exists s1 s2, @Api.ct_insert scalar_ops sample_env (sample_address 5) five_of_leaving = Ret S_OK s1 /\
    @VectorLib.ct_insert sample_env true (sample_address 5) five_of_leaving = Ret S_OK s2 /\
    @Api.ct_lookup scalar_ops sample_env [1; 2; 128] s1 = Ret (Some (sample_address 5)) s1 /\
    @VectorLib.ct_lookup sample_env true [1; 2; 128] s2 = Ret (Some (sample_address 5)) s2 /\
    @VectorLib.ct_lookup sample_env true [1; 2; 3] s2 = Ret (Some (sample_address 0)) s2.
Proof.
  assert (Hrep : ordered_rep five_of_leaving (state_trie 40 five_of_leaving) (state_leaves 40 five_of_leaving)).
  { apply ordered_rep_okb_ok. vm_compute. reflexivity. }
  pose proof (tr_table _ _ (or_rep _ _ _ Hrep)) as Ht.
  destruct (@insert_libraries_agree sample_env true five_of_leaving (state_trie 40 five_of_leaving) (state_leaves 40 five_of_leaving)
    (sample_address 5) leaving_kv) as (s1 & s2 & n' & E1 & E2 & _ & _ & _ & _ & Hlook).
  - exact Hrep.
  - apply ownedb_ok; [exact Ht|]. vm_compute. reflexivity.
  - apply plain_childrenb_ok; [exact Ht|]. vm_compute. reflexivity.
  - apply unlocked_check. vm_compute. reflexivity.
  - vm_compute. reflexivity.
  - repeat split; try discriminate; try reflexivity. apply bytes_ok_check. reflexivity.
  - discriminate.
  - left. split; [discriminate|reflexivity].
  - vm_compute. reflexivity.
  - vm_compute. reflexivity.
  - apply entry_ok_check. reflexivity.
  - exact sample_ambient.
  - cbn. lia.
  - exists s1, s2. split; [exact E1|]. split; [exact E2|].
    destruct (Hlook [1; 2; 128]) as (r & _ & H1 & H2); [apply bytes_ok_check; reflexivity|discriminate|].
    rewrite decide_True in H1, H2 by done. split; [exact H1|]. split; [exact H2|].
    destruct (Hlook [1; 2; 3]) as (r' & Er & _ & H3); [apply bytes_ok_check; reflexivity|discriminate|].
    rewrite decide_False in H3 by done. rewrite H3.
    enough (@Api.ct_lookup scalar_ops sample_env [1; 2; 3] five_of_leaving = Ret (Some (sample_address 0)) (set_lock_mgr [] five_of_leaving)) as E; [congruence|].
    vm_compute. reflexivity.
Defined.
