(* ===== verification/Seqlock.v ===== *)
(** * Concurrent accesses to a bucket (atomics.h, atomics.c)

    Any number of threads work on one bucket: they take and release its
    lock, write entries while they hold it and read entries at any time. A
    step of the system is one access of one thread to shared memory, in the
    order [try_take_lock], [write_entry] and [read_entry] make them; memory
    is sequentially consistent. The sequence counter has 24 bits. *)

From S2P Require Import Prelude Bits Entry KeyObject State Hashing Atomics Table Contents Store Sample.
From stdpp Require Import base list gmap relations.
From Stdlib Require Import ZArith Lia Bool.

#[local] Open Scope Z_scope.

(** ** The accesses to an entry *)

(** The two overlapping stores of [write_entry]. *)
Definition store_part1 (src target : ct_entry) : ct_entry := store_bytes 8 target 0 (load_bytes 8 src 0).
Definition store_part2 (src target : ct_entry) : ct_entry :=
  store_bytes 8 target (ENTRY_BYTES - 8) (u64 (entry_u128 src .>> (8 * (Z.of_nat ENTRY_BYTES - 8)))).

(** The two loads of [read_entry]; the last byte of the second is padding. *)
Definition load_part1 (e : ct_entry) : Z := load_bytes 8 e 0.
Definition load_part2 (e : ct_entry) : Z := load_bytes 8 e 8.
Definition entry_of_parts (q1 q2 : Z) : ct_entry := le_split 8 q1 ++ le_split 7 q2.

(** ** Threads *)

(** Where a thread is in [write_entry] or [read_entry]. [start] is a history
    variable: the number of writes begun when the read loaded the counter. *)
Inductive thread :=
| Idle
| Locked
| WriteRead (c : nat) (src : ct_entry) (seq : Z)
| WriteOpen (c : nat) (src : ct_entry) (seq : Z)
| WritePart1 (c : nat) (src : ct_entry) (seq : Z)
| WritePart2 (c : nat) (src : ct_entry) (seq : Z)
| ReadSeq (c : nat) (seq1 start : Z)
| ReadPart1 (c : nat) (seq1 start q1 : Z)
| ReadPart2 (c : nat) (seq1 start q1 q2 : Z)
| ReadDone (e : ct_entry) (seq1 : Z).

(** [writes] counts the writes begun. *)
Record system := mk_system {
  bucket : ct_bucket;
  threads : nat -> thread;
  writes : Z;
}.

Definition set_thread (i : nat) (t : thread) (f : nat -> thread) : nat -> thread :=
  fun j => if decide (j = i) then t else f j.

Definition word (b : ct_bucket) : Z := write_lock_and_seq b.
Definition update_cell (c : nat) (f : ct_entry -> ct_entry) (b : ct_bucket) : ct_bucket :=
  set_cells (alter f c (cells b)) b.

(** ** Steps *)

(** The next access of a thread: bucket, number of writes and thread before
    and after. Taking the lock is one exchange ([try_take_lock]). *)
Inductive lock_step (b : ct_bucket) (n : Z) : thread -> ct_bucket -> Z -> thread -> Prop :=
| step_lock :
    write_lock b = 0 -> lock_step b n Idle (set_write_lock 1 b) n Locked
| step_lock_fails :
    write_lock b <> 0 -> lock_step b n Idle (set_write_lock 1 b) n Idle
| step_unlock :
    lock_step b n Locked (set_write_lock 0 b) n Idle.

(** The stores of [write_entry]; only the thread that holds the lock runs it. *)
Inductive write_step (b : ct_bucket) (n : Z) : thread -> ct_bucket -> Z -> thread -> Prop :=
| step_write_read c src :
    (c < CUCKOO_BUCKET_SIZE)%nat -> entry_ok src ->
    write_step b n Locked b n (WriteRead c src (word b))
| step_write_open c src seq :
    write_step b n (WriteRead c src seq) (set_lock_word (u32 (seq + SEQ_INCREMENT)) b) (n + 1) (WriteOpen c src seq)
| step_write_part1 c src seq :
    write_step b n (WriteOpen c src seq) (update_cell c (store_part1 src) b) n (WritePart1 c src seq)
| step_write_part2 c src seq :
    write_step b n (WritePart1 c src seq) (update_cell c (store_part2 src) b) n (WritePart2 c src seq)
| step_write_close c src seq :
    write_step b n (WritePart2 c src seq) (set_lock_word (u32 (seq + 2 * SEQ_INCREMENT)) b) n Locked.

(** The loads of [read_entry] and its retry. *)
Inductive read_step (b : ct_bucket) (n : Z) : thread -> ct_bucket -> Z -> thread -> Prop :=
| step_read_seq c :
    (c < CUCKOO_BUCKET_SIZE)%nat -> word b .& SEQ_INCREMENT = 0 ->
    read_step b n Idle b n (ReadSeq c (word b) n)
| step_read_part1 c seq1 start e :
    cells b !! c = Some e -> read_step b n (ReadSeq c seq1 start) b n (ReadPart1 c seq1 start (load_part1 e))
| step_read_part2 c seq1 start q1 e :
    cells b !! c = Some e -> read_step b n (ReadPart1 c seq1 start q1) b n (ReadPart2 c seq1 start q1 (load_part2 e))
| step_read_ok c seq1 start q1 q2 :
    word b = seq1 -> read_step b n (ReadPart2 c seq1 start q1 q2) b n (ReadDone (entry_of_parts q1 q2) seq1)
| step_read_retry c seq1 start q1 q2 :
    word b <> seq1 -> read_step b n (ReadPart2 c seq1 start q1 q2) b n Idle
| step_read_return e seq1 :
    read_step b n (ReadDone e seq1) b n Idle.

Definition thread_step (b : ct_bucket) (n : Z) (t : thread) (b' : ct_bucket) (n' : Z) (t' : thread) : Prop :=
  lock_step b n t b' n' t' \/ write_step b n t b' n' t' \/ read_step b n t b' n' t'.

Inductive step : system -> system -> Prop :=
| system_step i s b' n' t' :
    thread_step (bucket s) (writes s) (threads s i) b' n' t' ->
    step s (mk_system b' (set_thread i t' (threads s)) n').

Record initial (s : system) : Prop := mk_initial {
  in_bucket : bucket_ok (bucket s);
  in_quiescent : quiescent (bucket s);
  in_unlocked : write_lock (bucket s) = 0;
  in_threads : forall i, threads s i = Idle;
  in_writes : writes s = 0;
}.

Definition reachable (s0 s : system) : Prop := initial s0 /\ rtc step s0 s.

(** ** The invariant *)

(** The thread holds the lock; it is between the two stores of the counter. *)
Definition holds_lock (t : thread) : bool :=
  match t with Locked | WriteRead _ _ _ | WriteOpen _ _ _ | WritePart1 _ _ _ | WritePart2 _ _ _ => true | _ => false end.
Definition writing (t : thread) : bool :=
  match t with WriteOpen _ _ _ | WritePart1 _ _ _ | WritePart2 _ _ _ => true | _ => false end.

Section invariant.
(** The counter in the initial state. *)
Variable C0 : Z.

Definition counter (n : Z) : Z := (C0 + 2 * n) mod 2 ^ 24.

(** What a reader that started after [start] writes knows. *)
Definition reader_ok (s : system) (c : nat) (seq1 start : Z) (parts : ct_entry -> Prop) : Prop :=
  word_ok seq1 /\ seq1 / 256 = counter start /\ seq1 .& SEQ_INCREMENT = 0 /\ start <= writes s /\
  (writes s = start -> (forall j, writing (threads s j) = false) /\
     exists e, cells (bucket s) !! c = Some e /\ parts e).

Definition thread_ok (s : system) (t : thread) : Prop :=
  match t with
  | Idle | Locked | ReadDone _ _ => True
  | WriteRead c src seq =>
      (c < CUCKOO_BUCKET_SIZE)%nat /\ entry_ok src /\ seq = word (bucket s)
  | WriteOpen c src seq | WritePart1 c src seq | WritePart2 c src seq =>
      (c < CUCKOO_BUCKET_SIZE)%nat /\ entry_ok src /\ word_ok seq /\ seq .& SEQ_INCREMENT = 0 /\
      seq / 256 = counter (writes s - 1) /\ word (bucket s) = u32 (seq + SEQ_INCREMENT)
  | ReadSeq c seq1 start => reader_ok s c seq1 start (fun _ => True)
  | ReadPart1 c seq1 start q1 => reader_ok s c seq1 start (fun e => q1 = load_part1 e)
  | ReadPart2 c seq1 start q1 q2 => reader_ok s c seq1 start (fun e => q1 = load_part1 e /\ q2 = load_part2 e)
  end.

(** The lock byte is 1 exactly when a thread, only one, holds the lock. *)
Record lock_ok (b : ct_bucket) (f : nat -> thread) : Prop := mk_lock_ok {
  lk_byte : write_lock b = 0 \/ write_lock b = 1;
  lk_held : forall i, holds_lock (f i) = true -> write_lock b = 1;
  lk_holder : write_lock b = 1 -> exists i, holds_lock (f i) = true;
  lk_excl : forall i j, holds_lock (f i) = true -> holds_lock (f j) = true -> i = j;
}.

Record inv (s : system) : Prop := mk_inv {
  inv_bucket : bucket_ok (bucket s);
  inv_lock : lock_ok (bucket s) (threads s);
  inv_counter : (forall i, writing (threads s i) = false) ->
    word (bucket s) / 256 = counter (writes s) /\ word (bucket s) .& SEQ_INCREMENT = 0;
  inv_threads : forall i, thread_ok s (threads s i);
}.

(** ** Steps preserve the invariant *)

Lemma set_thread_eq i t f : set_thread i t f i = t.
Proof. unfold set_thread. now rewrite decide_True. Qed.
Lemma set_thread_ne i j t f : j <> i -> set_thread i t f j = f j.
Proof. intros. unfold set_thread. now rewrite decide_False. Qed.

Lemma writing_holds t : writing t = true -> holds_lock t = true.
Proof. now destruct t. Qed.

Lemma lock_ok_same b b' f i t' :
  lock_ok b f -> write_lock b' = write_lock b -> holds_lock t' = holds_lock (f i) -> lock_ok b' (set_thread i t' f).
Proof.
  intros [H1 H2 H3 H4] Hb Ht.
  assert (E : forall j, holds_lock (set_thread i t' f j) = holds_lock (f j)).
  { intros j. destruct (decide (j = i)) as [->|]; [now rewrite set_thread_eq|now rewrite set_thread_ne]. }
  split.
  - now rewrite Hb.
  - intros j. rewrite E, Hb. apply H2.
  - rewrite Hb. intros Hl. destruct (H3 Hl) as [j Hj]. exists j. now rewrite E.
  - intros j k. rewrite !E. apply H4.
Qed.

Lemma lock_ok_take b b' f i :
  lock_ok b f -> write_lock b = 0 -> write_lock b' = 1 -> lock_ok b' (set_thread i Locked f).
Proof.
  intros [H1 H2 H3 H4] H0 Hb.
  assert (E : forall j, holds_lock (set_thread i Locked f j) = true -> j = i).
  { intros j Hj. destruct (decide (j = i)) as [|Hne]; [done|]. rewrite set_thread_ne in Hj by done.
    specialize (H2 j Hj). lia. }
  split; auto.
  - intros _. exists i. now rewrite set_thread_eq.
  - intros j k Hj Hk. now rewrite (E j Hj), (E k Hk).
Qed.

Lemma lock_ok_release b b' f i t' :
  lock_ok b f -> holds_lock (f i) = true -> write_lock b' = 0 -> holds_lock t' = false ->
  lock_ok b' (set_thread i t' f).
Proof.
  intros [H1 H2 H3 H4] Hi Hb Ht.
  assert (E : forall j, holds_lock (set_thread i t' f j) = false).
  { intros j. destruct (decide (j = i)) as [->|Hne]; [now rewrite set_thread_eq|]. rewrite set_thread_ne by done.
    destruct (holds_lock (f j)) eqn:Ej; [|done]. exfalso. apply Hne. now apply H4. }
  split; auto.
  - intros j. rewrite E. discriminate.
  - lia.
  - intros j k. rewrite E. discriminate.
Qed.

Lemma reader_ok_step s s' c seq1 start P :
  reader_ok s c seq1 start P -> writes s <= writes s' ->
  (writes s' = start -> writes s = start -> (forall j, writing (threads s j) = false) ->
     (forall j, writing (threads s' j) = false) /\ cells (bucket s') = cells (bucket s)) ->
  reader_ok s' c seq1 start P.
Proof.
  intros (H1 & H2 & H3 & H4 & H5) Hle Hs. split; [done|]. split; [done|]. split; [done|]. split; [lia|].
  intros E. assert (E0 : writes s = start) by lia. destruct (H5 E0) as (Hw & e & He & HP).
  destruct (Hs E E0 Hw) as [Hw' ->]. eauto.
Qed.

(** A thread that does not hold the lock keeps what it knows. *)
Lemma thread_ok_reader s s' t :
  thread_ok s t -> holds_lock t = false -> writes s <= writes s' ->
  (forall start, writes s' = start -> writes s = start -> (forall j, writing (threads s j) = false) ->
     (forall j, writing (threads s' j) = false) /\ cells (bucket s') = cells (bucket s)) ->
  thread_ok s' t.
Proof.
  intros Hok Ht Hle Hs. destruct t; try discriminate Ht; try exact I; cbn in *;
    (eapply reader_ok_step; [exact Hok|exact Hle|apply Hs]).
Qed.

(** So do the other threads when thread [i] holds the lock. *)
Lemma others_ok s b' n' i t' :
  inv s -> holds_lock (threads s i) = true -> writes s <= n' ->
  (forall start, n' = start -> writes s = start -> (forall j, writing (threads s j) = false) ->
     writing t' = false /\ cells b' = cells (bucket s)) ->
  forall j, j <> i -> thread_ok (mk_system b' (set_thread i t' (threads s)) n') (threads s j).
Proof.
  intros Hinv Hi Hle Hs j Hj.
  apply (thread_ok_reader s); [apply Hinv| |exact Hle|].
  - destruct (holds_lock (threads s j)) eqn:Ej; [|done]. exfalso. apply Hj.
    exact (lk_excl _ _ (inv_lock s Hinv) j i Ej Hi).
  - intros start E E0 Hw. cbn [threads bucket writes] in *. destruct (Hs start E E0 Hw) as [Ht Hc].
    split; [|exact Hc]. intros k. destruct (decide (k = i)) as [->|]; [now rewrite set_thread_eq|now rewrite set_thread_ne].
Qed.

Lemma thread_ok_same s s' t :
  thread_ok s t -> bucket s' = bucket s -> writes s' = writes s ->
  (forall j, writing (threads s' j) = writing (threads s j)) -> thread_ok s' t.
Proof.
  intros Hok Hb Hn Hw.
  assert (Hr : forall c seq1 start P, reader_ok s c seq1 start P -> reader_ok s' c seq1 start P).
  { intros c seq1 start P H. apply (reader_ok_step s); [exact H|lia|]. intros _ _ H'. rewrite Hb.
    split; [|done]. intros j. now rewrite Hw. }
  destruct t; cbn in *; rewrite ?Hb, ?Hn; auto.
Qed.

Lemma writing_set_thread i t' f :
  writing t' = writing (f i) -> forall j, writing (set_thread i t' f j) = writing (f j).
Proof.
  intros H j. destruct (decide (j = i)) as [->|]; [now rewrite set_thread_eq|now rewrite set_thread_ne].
Qed.

(** Steps that leave the bucket as it is. *)
Lemma inv_same_bucket s i t' :
  inv s -> holds_lock t' = holds_lock (threads s i) -> writing t' = writing (threads s i) -> thread_ok s t' ->
  inv (mk_system (bucket s) (set_thread i t' (threads s)) (writes s)).
Proof.
  intros [H1 H2 H3 H4] Hh Hw Hok. pose proof (writing_set_thread i t' (threads s) Hw) as Ew. split; cbn.
  - exact H1.
  - now apply (lock_ok_same (bucket s)).
  - intros H. apply H3. intros j. now rewrite <- Ew.
  - intros j. apply (thread_ok_same s); try done.
    destruct (decide (j = i)) as [->|]; [now rewrite set_thread_eq|now rewrite set_thread_ne].
Qed.

Lemma set_write_lock_id v b : bucket_ok b -> write_lock b = v -> set_write_lock v b = b.
Proof.
  intros Hb Hl. pose proof (bk_word b Hb) as Hw. unfold write_lock in Hl. rewrite land_255 in Hl.
  destruct b as [cs w]. unfold set_write_lock, set_lock_word. cbn in *. f_equal.
  rewrite set_lock_byte by (done || zdiv). zdiv.
Qed.

Lemma inv_lock_taken s i :
  inv s -> threads s i = Idle -> write_lock (bucket s) = 0 ->
  inv (mk_system (set_write_lock 1 (bucket s)) (set_thread i Locked (threads s)) (writes s)).
Proof.
  intros Hinv Hi H0. pose proof (inv_bucket s Hinv) as Hb.
  assert (Hw : forall j, writing (set_thread i Locked (threads s) j) = writing (threads s j)).
  { apply writing_set_thread. now rewrite Hi. }
  split; cbn.
  - apply set_write_lock_ok; (done || lia).
  - apply (lock_ok_take (bucket s)); [apply Hinv|done|]. apply write_lock_set; (done || lia).
  - intros H. destruct (inv_counter s Hinv) as [E1 E2]; [intros j; now rewrite <- Hw|]. split.
    + rewrite <- E1. now apply set_write_lock_div.
    + apply set_write_lock_quiescent; (done || lia).
  - intros j. destruct (decide (j = i)) as [->|Hj]; [now rewrite set_thread_eq|]. rewrite set_thread_ne by done.
    apply (thread_ok_reader s); [apply Hinv| |reflexivity|].
    + destruct (holds_lock (threads s j)) eqn:E; [|done]. pose proof (lk_held _ _ (inv_lock s Hinv) j E). lia.
    + intros start _ _ H. split; [|done]. intros k. cbn. now rewrite Hw.
Qed.

(** The steps of the thread that holds the lock. *)
Lemma inv_holder_step s i b' n' t' :
  inv s -> holds_lock (threads s i) = true -> writes s <= n' ->
  (n' = writes s -> writing (threads s i) = true \/ (writing t' = false /\ cells b' = cells (bucket s))) ->
  bucket_ok b' ->
  (write_lock b' = write_lock (bucket s) /\ holds_lock t' = true \/ write_lock b' = 0 /\ holds_lock t' = false) ->
  (writing t' = false -> word b' / 256 = counter n' /\ word b' .& SEQ_INCREMENT = 0) ->
  thread_ok (mk_system b' (set_thread i t' (threads s)) n') t' ->
  inv (mk_system b' (set_thread i t' (threads s)) n').
Proof.
  intros Hinv Hi Hle Hc Hb Hl Hctr Hok. split; cbn.
  - exact Hb.
  - destruct Hl as [[Hl Ht]|[Hl Ht]].
    + apply (lock_ok_same (bucket s)); [apply Hinv|done|congruence].
    + now apply (lock_ok_release (bucket s)); [apply Hinv| | |].
  - intros H. specialize (H i). rewrite set_thread_eq in H. auto.
  - intros j. destruct (decide (j = i)) as [->|Hj]; [now rewrite set_thread_eq|]. rewrite set_thread_ne by done.
    apply others_ok; try done. intros start E E0 Hw. destruct Hc as [Hc|Hc]; [lia| |exact Hc].
    rewrite Hw in Hc. discriminate.
Qed.

Lemma open_word_lock w : word_ok w -> u32 (w + SEQ_INCREMENT) mod 256 = w mod 256.
Proof.
  intros Hw. unfold wrap. change SEQ_INCREMENT with 256. change (2 ^ 32) with (256 * 16777216). unfold word_ok in Hw. zdiv.
Qed.

Lemma counter_succ n x : x = counter (n - 1) -> (x + 2) mod 2 ^ 24 = counter n.
Proof.
  intros ->. unfold counter. rewrite Zplus_mod_idemp_l. f_equal. lia.
Qed.

Lemma update_cell_ok c f b :
  bucket_ok b -> (forall e, entry_ok e -> entry_ok (f e)) -> bucket_ok (update_cell c f b).
Proof.
  intros [H1 H2 H3] Hf. split; cbn; [now rewrite length_alter| |exact H3].
  apply Forall_alter; [exact H2|]. intros x _ Hx. now apply Hf.
Qed.

Lemma store_part1_ok src e : entry_ok e -> entry_ok (store_part1 src e).
Proof. intros He. apply store_entry_ok; [exact He|unfold ENTRY_BYTES; lia]. Qed.
Lemma store_part2_ok src e : entry_ok e -> entry_ok (store_part2 src e).
Proof. intros He. apply store_entry_ok; [exact He|unfold ENTRY_BYTES; lia]. Qed.

(** While the lock holder is not between the stores of the counter, no thread is. *)
Lemma no_writer s i :
  inv s -> holds_lock (threads s i) = true -> writing (threads s i) = false -> forall j, writing (threads s j) = false.
Proof.
  intros Hinv Hi Hw j. destruct (writing (threads s j)) eqn:E; [|done].
  rewrite (lk_excl _ _ (inv_lock s Hinv) j i (writing_holds _ E) Hi) in E. congruence.
Qed.

Lemma set_lock_word_ok w b : bucket_ok b -> word_ok w -> bucket_ok (set_lock_word w b).
Proof. intros [] Hw. now split. Qed.

Lemma inv_open s i c src seq :
  inv s -> threads s i = WriteRead c src seq ->
  inv (mk_system (set_lock_word (u32 (seq + SEQ_INCREMENT)) (bucket s))
         (set_thread i (WriteOpen c src seq) (threads s)) (writes s + 1)).
Proof.
  intros Hinv Ei. pose proof (inv_threads s Hinv i) as Hok. rewrite Ei in Hok. destruct Hok as (Hc & Hsrc & ->).
  pose proof (inv_bucket s Hinv) as Hb. pose proof (bk_word _ Hb) as Hw. fold (word (bucket s)) in Hw.
  assert (Hi : holds_lock (threads s i) = true) by now rewrite Ei.
  destruct (inv_counter s Hinv (no_writer s i Hinv Hi ltac:(now rewrite Ei))) as [E1 E2].
  apply inv_holder_step; try done; try lia.
  - apply set_lock_word_ok; [done|]. apply (wrap_bound 32). lia.
  - left. split; [|done]. unfold write_lock. cbn. rewrite !land_255. now apply open_word_lock.
  - cbn. split; [done|]. split; [done|]. split; [exact Hw|]. split; [exact E2|]. split; [|done].
    replace (writes s + 1 - 1) with (writes s) by lia. exact E1.
Qed.

Lemma inv_store s i f c src seq t' :
  inv s -> threads s i = WriteOpen c src seq \/ threads s i = WritePart1 c src seq ->
  t' = WritePart1 c src seq \/ t' = WritePart2 c src seq -> (forall e, entry_ok e -> entry_ok (f e)) ->
  inv (mk_system (update_cell c f (bucket s)) (set_thread i t' (threads s)) (writes s)).
Proof.
  intros Hinv Ei Et Hf. pose proof (inv_threads s Hinv i) as Hok. pose proof (inv_bucket s Hinv) as Hb.
  assert (Hi : holds_lock (threads s i) = true /\ writing (threads s i) = true) by (destruct Ei as [-> | ->]; done).
  assert (Ht : holds_lock t' = true /\ writing t' = true) by (destruct Et as [-> | ->]; done).
  assert (H : (c < CUCKOO_BUCKET_SIZE)%nat /\ entry_ok src /\ word_ok seq /\ seq .& SEQ_INCREMENT = 0 /\
      seq / 256 = counter (writes s - 1) /\ word (bucket s) = u32 (seq + SEQ_INCREMENT))
    by (destruct Ei as [E|E]; rewrite E in Hok; exact Hok).
  apply inv_holder_step; try done; try lia.
  - tauto.
  - tauto.
  - now apply update_cell_ok.
  - left. tauto.
  - destruct Ht as [_ ->]. discriminate.
  - destruct Et as [-> | ->]; exact H.
Qed.

Lemma inv_close s i c src seq :
  inv s -> threads s i = WritePart2 c src seq ->
  inv (mk_system (set_lock_word (u32 (seq + 2 * SEQ_INCREMENT)) (bucket s))
         (set_thread i Locked (threads s)) (writes s)).
Proof.
  intros Hinv Ei. pose proof (inv_threads s Hinv i) as Hok. rewrite Ei in Hok.
  destruct Hok as (Hc & Hsrc & Hw & Hq & E1 & E2). pose proof (inv_bucket s Hinv) as Hb.
  fold (next_word seq). apply inv_holder_step; try done; rewrite ?Ei; try done; try lia.
  - auto.
  - apply set_lock_word_ok; [done|]. now apply next_word_ok.
  - left. split; [|done]. unfold write_lock. cbn. fold (word (bucket s)). rewrite E2, next_word_lock by done.
    rewrite !land_255. symmetry. now apply open_word_lock.
  - intros _. cbn. split; [|now apply next_word_quiescent].
    rewrite next_word_eq by done. rewrite <- (counter_succ _ _ E1). zdiv.
Qed.

Lemma inv_unlock s i :
  inv s -> threads s i = Locked ->
  inv (mk_system (set_write_lock 0 (bucket s)) (set_thread i Idle (threads s)) (writes s)).
Proof.
  intros Hinv Ei. pose proof (inv_bucket s Hinv) as Hb.
  destruct (inv_counter s Hinv (no_writer s i Hinv ltac:(now rewrite Ei) ltac:(now rewrite Ei))) as [E1 E2].
  apply inv_holder_step; try done; rewrite ?Ei; try done; try lia.
  - auto.
  - apply set_write_lock_ok; (done || lia).
  - right. split; [|done]. apply write_lock_set; (done || lia).
  - intros _. split; [rewrite <- E1; apply set_write_lock_div; (done || lia)|].
    apply set_write_lock_quiescent; (done || lia).
Qed.

(** A reader's loads. *)
Lemma inv_read s i t' c seq1 start (P Q : ct_entry -> Prop) :
  inv s -> holds_lock (threads s i) = false -> holds_lock t' = false ->
  reader_ok s c seq1 start P -> (forall e, cells (bucket s) !! c = Some e -> P e -> Q e) ->
  (reader_ok s c seq1 start Q -> thread_ok s t') ->
  inv (mk_system (bucket s) (set_thread i t' (threads s)) (writes s)).
Proof.
  intros Hinv Hi Ht (H1 & H2 & H3 & H4 & H5) HPQ Hok. apply inv_same_bucket; [done|congruence| |].
  - destruct (writing t') eqn:E; [apply writing_holds in E; congruence|].
    destruct (writing (threads s i)) eqn:E'; [apply writing_holds in E'; congruence|done].
  - apply Hok. repeat (split; [done|]). intros E. destruct (H5 E) as (Hw & e & He & HP). eauto.
Qed.

(** The counter read even: no thread is writing. *)
Lemma even_no_writer s : inv s -> word (bucket s) .& SEQ_INCREMENT = 0 -> forall j, writing (threads s j) = false.
Proof.
  intros Hinv Hq j. destruct (writing (threads s j)) eqn:E; [exfalso|done].
  pose proof (inv_threads s Hinv j) as Hok.
  assert (H : exists seq, word_ok seq /\ seq .& SEQ_INCREMENT = 0 /\ word (bucket s) = u32 (seq + SEQ_INCREMENT))
    by (destruct (threads s j); try discriminate E; destruct Hok as (_ & _ & ? & ? & _ & ?); eauto).
  destruct H as (seq & Hw & Hs & Eb). apply seq_bit in Hs; [|done].
  apply seq_bit in Hq; [|exact (bk_word _ (inv_bucket s Hinv))]. rewrite Eb in Hq.
  unfold wrap in Hq. change SEQ_INCREMENT with 256 in Hq. change (2 ^ 32) with (256 * 16777216) in Hq.
  unfold word_ok in Hw. zdiv.
Qed.

Lemma inv_read_seq s i c :
  inv s -> threads s i = Idle -> (c < CUCKOO_BUCKET_SIZE)%nat -> word (bucket s) .& SEQ_INCREMENT = 0 ->
  inv (mk_system (bucket s) (set_thread i (ReadSeq c (word (bucket s)) (writes s)) (threads s)) (writes s)).
Proof.
  intros Hinv Ei Hc Hq. pose proof (even_no_writer s Hinv Hq) as Hw.
  apply inv_same_bucket; rewrite ?Ei; try done. destruct (inv_counter s Hinv Hw) as [E1 _].
  split; [exact (bk_word _ (inv_bucket s Hinv))|]. split; [exact E1|]. split; [exact Hq|]. split; [lia|].
  intros _. split; [exact Hw|]. destruct (lookup_lt_is_Some_2 (cells (bucket s)) c) as [e He]; [|eauto].
  now rewrite (bk_length _ (inv_bucket s Hinv)).
Qed.

Lemma inv_step s s' : inv s -> step s s' -> inv s'.
Proof.
  intros Hinv Hst. destruct Hst as [i s b' n' t' Hst]. pose proof (inv_threads s Hinv i) as Hok.
  remember (threads s i) as t eqn:Et. symmetry in Et. destruct Hst as [Hst|[Hst|Hst]]; destruct Hst.
  - now apply inv_lock_taken.
  - rewrite set_write_lock_id; [|apply Hinv|destruct (lk_byte _ _ (inv_lock s Hinv)); done].
    apply inv_same_bucket; rewrite ?Et; done.
  - now apply inv_unlock.
  - apply inv_same_bucket; rewrite ?Et; done.
  - now apply inv_open.
  - apply (inv_store s i (store_part1 src) c src seq); auto using store_part1_ok.
  - apply (inv_store s i (store_part2 src) c src seq); auto using store_part2_ok.
  - now apply (inv_close s i c src seq).
  - now apply inv_read_seq.
  - apply (inv_read s i _ c seq1 start (fun _ => True) (fun e0 => load_part1 e = load_part1 e0)); rewrite ?Et; try done.
    intros e' He' _. congruence.
  - apply (inv_read s i _ c seq1 start (fun e => q1 = load_part1 e) (fun e0 => q1 = load_part1 e0 /\ load_part2 e = load_part2 e0));
      rewrite ?Et; try done. intros e' He' ?. split; congruence.
  - apply inv_same_bucket; rewrite ?Et; done.
  - apply inv_same_bucket; rewrite ?Et; done.
  - apply inv_same_bucket; rewrite ?Et; done.
Qed.
End invariant.

(** ** Every reachable state satisfies the invariant *)

Lemma inv_initial s : initial s -> inv (word (bucket s) / 256) s.
Proof.
  intros [H1 H2 H3 H4 H5]. split; [exact H1| | |].
  - split; [now left| |rewrite H3; done|]; intros i; rewrite H4; done.
  - intros _. split; [|exact H2]. unfold counter. rewrite H5. pose proof (bk_word _ H1) as Hw.
    fold (word (bucket s)) in Hw. zdiv.
  - intros i. now rewrite H4.
Qed.

Lemma reachable_inv s0 s : reachable s0 s -> inv (word (bucket s0) / 256) s.
Proof.
  intros [H0 Hr]. apply inv_initial in H0. revert H0. generalize (word (bucket s0) / 256) as C0. intros C0.
  induction Hr as [|x y z Hs Hr IH]; [done|]. intros Hx. apply IH. exact (inv_step C0 x y Hx Hs).
Qed.

(** The two loads together are the entry. *)
Lemma entry_of_parts_load e : entry_ok e -> entry_of_parts (load_part1 e) (load_part2 e) = e.
Proof.
  intros He. pose proof He as [_ Hb]. unfold entry_of_parts. apply entry_ext; [|exact He|].
  - split; [now rewrite length_app, !length_le_split|]. apply Forall_app_2; apply le_split_ok.
  - intros i Hi. apply byte_eq; [|now apply entry_byte|].
    + apply byte_at_ok, Forall_app_2; apply le_split_ok.
    + intros j Hj. destruct (Nat.lt_ge_cases i 8).
      * rewrite byte_at_app_l by (rewrite length_le_split; lia).
        rewrite testbit_byte_at_le_split by lia. unfold load_part1.
        rewrite testbit_load_bytes by (done || lia). f_equal; [f_equal; zdiv|zdiv].
      * rewrite byte_at_app_r by (rewrite length_le_split; lia). rewrite length_le_split.
        rewrite testbit_byte_at_le_split by entry_lia. unfold load_part2.
        rewrite testbit_load_bytes by (done || entry_lia). f_equal; [f_equal; zdiv|zdiv].
Qed.

(** Equal counters mean no write since, unless the counter went all the way round. *)
Lemma counter_inj C0 m n : counter C0 m = counter C0 n -> m <= n < m + 2 ^ 23 -> m = n.
Proof. unfold counter. intros E Hn. change (2 ^ 24) with (2 * 2 ^ 23) in *. zdiv. Qed.

(** A step of thread [i]. *)
Lemma step_at s i t b' n' t' :
  threads s i = t -> thread_step (bucket s) (writes s) t b' n' t' ->
  step s (mk_system b' (set_thread i t' (threads s)) n').
Proof. intros <-. apply system_step. Qed.

(** ** Progress *)

(** The accesses the holder of the lock has left until it releases it. *)
Definition accesses_left (t : thread) : nat :=
  match t with Locked => 1 | WriteRead _ _ _ => 5 | WriteOpen _ _ _ => 4 | WritePart1 _ _ _ => 3 | WritePart2 _ _ _ => 2 | _ => 0 end.

(** The next access of the holder needs nobody else. *)
Lemma holder_step s i :
  holds_lock (threads s i) = true ->
  exists b' n' t', thread_step (bucket s) (writes s) (threads s i) b' n' t' /\ accesses_left (threads s i) = S (accesses_left t') /\
    (holds_lock t' = true \/ t' = Idle) /\ n' <= writes s + 1.
Proof.
  intros Hi. destruct (threads s i) as [| |c src seq|c src seq|c src seq|c src seq| | | |] eqn:Et; try discriminate.
  - do 3 eexists. split; [left; apply step_unlock|]. split; [done|]. split; [by right|lia].
  - do 3 eexists. split; [right; left; apply step_write_open|]. split; [done|]. split; [by left|lia].
  - do 3 eexists. split; [right; left; apply step_write_part1|]. split; [done|]. split; [by left|lia].
  - do 3 eexists. split; [right; left; apply step_write_part2|]. split; [done|]. split; [by left|lia].
  - do 3 eexists. split; [right; left; apply step_write_close|]. split; [done|]. split; [by left|lia].
Qed.

(** It releases the lock in at most five accesses of its own. *)
Lemma holder_finishes k : forall s i,
  holds_lock (threads s i) = true -> accesses_left (threads s i) = k ->
  exists s', nsteps step k s s' /\ threads s' i = Idle /\ forall j, j <> i -> threads s' j = threads s j.
Proof.
  induction k as [|k IH]; intros s i Hi Hk; [destruct (threads s i); discriminate|].
  destruct (holder_step s i Hi) as (b' & n' & t' & Hst & Hleft & Ht' & _). rewrite Hk in Hleft. injection Hleft as Hleft.
  pose proof (system_step i s b' n' t' Hst) as H1. set (s1 := mk_system b' (set_thread i t' (threads s)) n') in *.
  assert (E1 : threads s1 i = t') by apply set_thread_eq.
  assert (Eo : forall j, j <> i -> threads s1 j = threads s j) by (intros j; apply set_thread_ne).
  destruct Ht' as [Ht'| ->].
  - destruct (IH s1 i) as (s' & Hn & Hidle & Ho); [now rewrite E1|now rewrite E1|].
    exists s'. split; [exact (nsteps_l _ _ _ _ _ H1 Hn)|]. split; [exact Hidle|]. intros j Hj. rewrite Ho by done. now apply Eo.
  - cbn in Hleft. subst k. exists s1. split; [exact (nsteps_l _ _ _ _ _ H1 (nsteps_O _ _))|]. split; [exact E1|exact Eo].
Qed.

(** Nobody holds the lock: it is free and no write is in progress. *)
Lemma no_holder C0 s :
  inv C0 s -> (forall j, holds_lock (threads s j) = false) ->
  write_lock (bucket s) = 0 /\ word (bucket s) .& SEQ_INCREMENT = 0.
Proof.
  intros Hinv Hno. split.
  - destruct (lk_byte _ _ (inv_lock _ s Hinv)) as [E|E]; [exact E|].
    destruct (lk_holder _ _ (inv_lock _ s Hinv) E) as [j Hj]. rewrite Hno in Hj. discriminate.
  - apply (inv_counter _ s Hinv). intros j. destruct (writing (threads s j)) eqn:Ew; [|done].
    apply writing_holds in Ew. rewrite Hno in Ew. discriminate.
Qed.

Lemma reachable_nsteps s0 s s' n : reachable s0 s -> nsteps step n s s' -> reachable s0 s'.
Proof. intros [H0 Hr] Hn. split; [exact H0|]. transitivity s; [exact Hr|]. apply rtc_nsteps. eauto. Qed.

(** From every reachable state the lock becomes free within five accesses. *)
Lemma lock_becomes_free s0 s :
  reachable s0 s ->
  exists n s', (n <= 5)%nat /\ nsteps step n s s' /\ (forall j, holds_lock (threads s' j) = false) /\
    forall j, holds_lock (threads s j) = false -> threads s' j = threads s j.
Proof.
  intros Hr. pose proof (reachable_inv _ _ Hr) as Hinv. pose proof (inv_lock _ s Hinv) as Hl.
  destruct (lk_byte _ _ Hl) as [E|E].
  - exists 0%nat, s. split; [lia|]. split; [constructor|]. split; [|done]. intros j.
    destruct (holds_lock (threads s j)) eqn:Ej; [|done]. pose proof (lk_held _ _ Hl j Ej). lia.
  - destruct (lk_holder _ _ Hl E) as [i Hi]. destruct (holder_finishes _ s i Hi eq_refl) as (s' & Hn & Hidle & Ho).
    exists (accesses_left (threads s i)), s'. split; [destruct (threads s i); cbn; lia|]. split; [exact Hn|]. split.
    + intros j. destruct (decide (j = i)) as [->|Hj]; [now rewrite Hidle|]. rewrite Ho by done.
      destruct (holds_lock (threads s j)) eqn:Ej; [|done]. destruct Hj. exact (lk_excl _ _ Hl _ _ Ej Hi).
    + intros j Hj. apply Ho. intros ->. congruence.
Qed.

(** A read that nobody disturbs. *)
Lemma read_alone s i c e :
  threads s i = Idle -> (c < CUCKOO_BUCKET_SIZE)%nat -> word (bucket s) .& SEQ_INCREMENT = 0 ->
  cells (bucket s) !! c = Some e -> entry_ok e ->
  exists s', nsteps step 4 s s' /\ threads s' i = ReadDone e (word (bucket s)) /\ bucket s' = bucket s.
Proof.
  intros Ei Hc Hq He Hok. eexists. split; [|split].
  - eapply nsteps_l; [apply (step_at s i Idle); [exact Ei|right; right; now apply (step_read_seq _ _ c)]|].
    eapply nsteps_l; [eapply (step_at _ i); [apply set_thread_eq|right; right; now apply (step_read_part1 _ _ c _ _ e)]|].
    eapply nsteps_l; [eapply (step_at _ i); [apply set_thread_eq|right; right; now apply (step_read_part2 _ _ c _ _ _ e)]|].
    eapply nsteps_l; [eapply (step_at _ i); [apply set_thread_eq|right; right; now apply step_read_ok]|]. apply nsteps_O.
  - cbn [threads]. rewrite set_thread_eq. now rewrite entry_of_parts_load.
  - reflexivity.
Qed.

(** ** What the protocol guarantees *)

(** C21. A read of an entry that finds the sequence word unchanged returns
    the entry the cell holds, never halves of two entries, and no thread is
    in the middle of a write; this holds for any number of threads and any
    interleaving of their accesses, as long as fewer than 2^23 writes of the
    bucket begin during the read (the counter has 24 bits and a write adds 2). *)
Theorem reads_are_consistent s0 s i c seq1 start q1 q2 :
  reachable s0 s -> threads s i = ReadPart2 c seq1 start q1 q2 ->
  word (bucket s) = seq1 -> writes s < start + 2 ^ 23 ->
  cells (bucket s) !! c = Some (entry_of_parts q1 q2) /\ forall j, writing (threads s j) = false.
Proof.
  intros Hr Ei Eq Hn. pose proof (reachable_inv _ _ Hr) as Hinv. pose proof (inv_threads _ s Hinv i) as Hok.
  rewrite Ei in Hok. destruct Hok as (_ & Hc & Hq & Hle & Hs). rewrite <- Eq in Hq, Hc.
  pose proof (even_no_writer _ s Hinv Hq) as Hw. destruct (inv_counter _ s Hinv Hw) as [E _].
  assert (Es : start = writes s) by (apply (counter_inj (word (bucket s0) / 256)); [congruence|lia]).
  destruct (Hs (eq_sym Es)) as (_ & e & He & -> & ->).
  rewrite entry_of_parts_load; [done|]. exact (Forall_lookup_1 _ _ _ _ (bk_cells _ (inv_bucket _ s Hinv)) He).
Qed.

(** C23. The lock byte of a bucket is 0 or 1, it is 1 exactly when a thread
    holds the lock, at most one thread holds it, and every write of an entry
    finds an even sequence number and the lock byte set, as [write_entry] asserts. *)
Theorem lock_mutual_exclusion s0 s :
  reachable s0 s ->
  (write_lock (bucket s) = 0 \/ write_lock (bucket s) = 1) /\
  (write_lock (bucket s) = 1 <-> exists i, holds_lock (threads s i) = true) /\
  (forall i j, holds_lock (threads s i) = true -> holds_lock (threads s j) = true -> i = j) /\
  (forall i, threads s i = Locked -> word (bucket s) .& SEQ_INCREMENT = 0 /\ word (bucket s) .& 1 <> 0).
Proof.
  intros Hr. pose proof (reachable_inv _ _ Hr) as Hinv. pose proof (inv_lock _ s Hinv) as [H1 H2 H3 H4].
  split; [exact H1|]. split; [split; [exact H3|intros [i Hi]; exact (H2 i Hi)]|]. split; [exact H4|].
  intros i Ei. assert (Hi : holds_lock (threads s i) = true) by now rewrite Ei. split.
  - apply (inv_counter _ s Hinv). apply (no_writer _ s i Hinv Hi). now rewrite Ei.
  - specialize (H2 i Hi). unfold write_lock in H2. fold (word (bucket s)) in H2. rewrite land_255 in H2.
    change 1 with (Z.ones 1). rewrite Z.land_ones by lia. zdiv.
Qed.

(** C22. No deadlock and no lost wake-up: from every reachable state, whatever
    the threads are doing, at most five more accesses (those of the thread
    that holds the lock, if one does) make the lock free, without any other
    thread having moved. Then an idle thread takes the lock with its next
    access, and a [read_entry] of an idle thread completes with four accesses
    and returns what the cell holds. *)
Theorem bucket_progress s0 s i c :
  reachable s0 s -> threads s i = Idle -> (c < CUCKOO_BUCKET_SIZE)%nat ->
  exists n s1, (n <= 5)%nat /\ nsteps step n s s1 /\ write_lock (bucket s1) = 0 /\ threads s1 i = Idle /\
    (exists s2, step s1 s2 /\ threads s2 i = Locked) /\
    (exists s2 e, nsteps step 4 s1 s2 /\ threads s2 i = ReadDone e (word (bucket s2)) /\ cells (bucket s2) !! c = Some e).
Proof.
  intros Hr Ei Hc. destruct (lock_becomes_free s0 s Hr) as (n & s1 & Hn & Hs & Hno & Ho).
  pose proof (reachable_inv _ _ (reachable_nsteps _ _ _ _ Hr Hs)) as Hinv. destruct (no_holder _ s1 Hinv Hno) as [Hfree Hq].
  assert (Ei1 : threads s1 i = Idle) by (rewrite Ho; [exact Ei|now rewrite Ei]).
  exists n, s1. split; [exact Hn|]. split; [exact Hs|]. split; [exact Hfree|]. split; [exact Ei1|]. split.
  - eexists. split; [apply (step_at s1 i Idle); [exact Ei1|left; now apply step_lock]|]. apply set_thread_eq.
  - pose proof (inv_bucket _ s1 Hinv) as Hb.
    destruct (lookup_lt_is_Some_2 (cells (bucket s1)) c) as [e He]; [now rewrite (bk_length _ Hb)|].
    destruct (read_alone s1 i c e Ei1 Hc Hq He (Forall_lookup_1 _ _ _ _ (bk_cells _ Hb) He)) as (s2 & Hs2 & Ed & Eb).
    exists s2, e. rewrite Eb. split; [exact Hs2|]. split; [exact Ed|exact He].
Qed.

Lemma store_both_parts b c src e :
  bucket_ok b -> entry_ok src -> cells b !! c = Some e ->
  alter (store_part2 src) c (alter (store_part1 src) c (cells b)) = <[c := src]> (cells b).
Proof.
  intros Hb Hsrc He. pose proof (Forall_lookup_1 _ _ _ _ (bk_cells b Hb) He) as Hok.
  apply list_eq. intros k. destruct (decide (k = c)) as [->|Hne].
  - rewrite !list_lookup_alter_eq, He, list_lookup_insert_eq by (eapply lookup_lt_Some; exact He). cbn. f_equal.
    exact (write_parts_eq src e Hsrc Hok).
  - now rewrite !list_lookup_alter_ne, list_lookup_insert_ne by done.
Qed.

(** The bucket after the five accesses of a write. *)
Lemma open_close_bucket b c src e :
  bucket_ok b -> entry_ok src -> cells b !! c = Some e ->
  set_lock_word (u32 (word b + 2 * SEQ_INCREMENT))
    (update_cell c (store_part2 src) (update_cell c (store_part1 src) (set_lock_word (u32 (word b + SEQ_INCREMENT)) b)))
  = write_cell b c src.
Proof.
  intros Hb Hsrc He. unfold write_cell, set_lock_word, update_cell, set_cells. cbn [cells write_lock_and_seq].
  now rewrite (store_both_parts b c src e).
Qed.

(** C26. [write_entry], run by the thread that holds the lock, is an
    execution of five accesses of that thread, and both have the same
    effect on the bucket: the cell becomes the entry, the other cells, the
    lock byte and the other threads stay, the counter advances by two. *)
Theorem write_entry_is_execution s i p src st :
  threads s i = Locked -> bucket_ok (bucket s) -> quiescent (bucket s) -> write_lock (bucket s) = 1 ->
  entry_ok src -> (pos_cell p < CUCKOO_BUCKET_SIZE)%nat ->
  trie_bucket (trie st) (pos_bucket p) = Some (bucket s) ->
  exists s', rtc step s s' /\
    write_entry p src st = Ret (word (bucket s')) (set_trie (upd_bucket (trie st) (pos_bucket p) (bucket s')) st) /\
    bucket s' = write_cell (bucket s) (pos_cell p) src /\
    (forall j, threads s' j = threads s j) /\ writes s' = writes s + 1.
Proof.
  intros Ei Hb Hq Hl Hsrc Hc Hbk. set (c := pos_cell p) in *.
  destruct (lookup_lt_is_Some_2 (cells (bucket s)) c) as [e He]; [now rewrite (bk_length _ Hb)|].
  assert (Er : exists f, rtc step s (mk_system (write_cell (bucket s) c src) f (writes s + 1)) /\
                 forall j, f j = threads s j).
  { eexists. rewrite <- (open_close_bucket _ c src e) by done. split.
    - eapply rtc_l; [apply (step_at s i Locked); [exact Ei|right; left; now apply (step_write_read _ _ c src)]|].
      eapply rtc_l; [eapply (step_at _ i); [apply set_thread_eq|right; left; apply step_write_open]|].
      eapply rtc_l; [eapply (step_at _ i); [apply set_thread_eq|right; left; apply step_write_part1]|].
      eapply rtc_l; [eapply (step_at _ i); [apply set_thread_eq|right; left; apply step_write_part2]|].
      eapply rtc_l; [eapply (step_at _ i); [apply set_thread_eq|right; left; apply step_write_close]|]. apply rtc_refl.
    - cbn. intros j. unfold set_thread. destruct (decide (j = i)) as [->|]; [now rewrite Ei|done]. }
  destruct Er as (f & Hf & Ej). eexists. split; [exact Hf|]. split; [|split; [|split]]; [|done|exact Ej|done].
  exact (write_entry_spec st p src e (bucket s) Hbk He Hb Hq Hl Hsrc).
Qed.

(** ** An execution: thread 1 writes cell 2, thread 0 then reads it while thread 2 fails to take the lock *)

Definition example_bucket : ct_bucket := mk_bucket (replicate CUCKOO_BUCKET_SIZE unused_entry) 0.
Definition example_start : system := mk_system example_bucket (fun _ => Idle) 0.
Definition example_entry : ct_entry := map Z.of_nat (seq 1 ENTRY_BYTES).

Lemma example_entry_ok : entry_ok example_entry.
Proof. apply entry_okb_ok. reflexivity. Qed.

Lemma step_to s i t b0 n0 t0 b' n' t' :
  threads s i = t -> thread_step (bucket s) (writes s) t b0 n0 t0 -> (b0, n0, t0) = (b', n', t') ->
  step s (mk_system b' (set_thread i t' (threads s)) n').
Proof. intros Hi Hs [= <- <- <-]. now apply (step_at s i t). Qed.

(** Thread [i] makes step [H]; the next state is evaluated. *)
Tactic Notation "run_step" constr(i) uconstr(H) :=
  eapply rtc_l; [eapply (step_to _ i); [reflexivity|first [left; eapply H|right; left; eapply H|right; right; eapply H]; first [by vm_compute|apply example_entry_ok|unfold CUCKOO_BUCKET_SIZE; lia|idtac]|vm_compute; reflexivity]|].

Lemma example_run :
  exists s, reachable example_start s /\
    threads s 0%nat = ReadPart2 2 512 1 (load_part1 example_entry) (load_part2 example_entry) /\
    word (bucket s) = 512 /\ writes s = 1.
Proof.
  eexists. split; [split|].
  - split; try done. split; [reflexivity| |by vm_compute].
    apply Forall_replicate, entry_okb_ok. reflexivity.
  - run_step 1%nat step_lock.
    run_step 2%nat step_lock_fails.
    run_step 1%nat (step_write_read _ _ 2 example_entry).
    run_step 1%nat step_write_open.
    run_step 1%nat step_write_part1.
    run_step 1%nat step_write_part2.
    run_step 1%nat step_write_close.
    run_step 1%nat step_unlock.
    run_step 0%nat (step_read_seq _ _ 2).
    run_step 0%nat (step_read_part1 _ _ 2 _ _ example_entry).
    run_step 0%nat (step_read_part2 _ _ 2 _ _ _ example_entry).
    apply rtc_refl.
  - split; [|split]; [by vm_compute|reflexivity|reflexivity].
Qed.

Lemma reads_are_consistent_witness :
  exists s, cells (bucket s) !! 2%nat = Some example_entry /\ writes s = 1.
Proof.
  destruct example_run as (s & Hr & Ei & Hw & Hn). exists s. split; [|exact Hn].
  rewrite <- (entry_of_parts_load example_entry example_entry_ok).
  apply (reads_are_consistent example_start s 0 2 512 1 _ _ Hr Ei Hw). rewrite Hn. reflexivity.
Defined.

Lemma lock_mutual_exclusion_witness :
  exists s, reachable example_start s /\ forall i, holds_lock (threads s i) = true -> write_lock (bucket s) = 1.
Proof.
  destruct example_run as (s & Hr & Ei & Hw & Hn). exists s. split; [exact Hr|]. intros i Hi.
  apply (lock_mutual_exclusion example_start s Hr). exists i. exact Hi.
Defined.

Definition example_trie : cuckoo_trie := mk_trie [set_write_lock 1 example_bucket] 1 16 0 [] 1.

Lemma write_entry_is_execution_witness :
  exists s', cells (bucket s') !! 2%nat = Some example_entry /\ word (bucket s') = 513.
Proof.
  destruct (write_entry_is_execution (mk_system (set_write_lock 1 example_bucket) (fun _ => Locked) 0) 0 (mk_pos 0 2)
    example_entry (mk_state example_trie [] ∅)) as (s' & _ & _ & E & _).
  - reflexivity.
  - split; [reflexivity| |by vm_compute]. apply Forall_replicate, entry_okb_ok. reflexivity.
  - reflexivity.
  - reflexivity.
  - apply example_entry_ok.
  - cbn. unfold CUCKOO_BUCKET_SIZE. lia.
  - reflexivity.
  - exists s'. rewrite E. split; reflexivity.
Defined.

(** Thread 1 has announced a write; thread 0 is idle. *)
Lemma example_writing :
  exists s, reachable example_start s /\ threads s 0%nat = Idle /\ writing (threads s 1%nat) = true.
Proof.
  eexists. split; [split|].
  - split; try done. split; [reflexivity| |by vm_compute].
    apply Forall_replicate, entry_okb_ok. reflexivity.
  - run_step 1%nat step_lock.
    run_step 1%nat (step_write_read _ _ 2 example_entry).
    run_step 1%nat step_write_open.
    apply rtc_refl.
  - split; reflexivity.
Qed.

Lemma bucket_progress_witness :
  exists s s1, writing (threads s 1%nat) = true /\ rtc step s s1 /\ write_lock (bucket s1) = 0 /\
    exists s2, step s1 s2 /\ threads s2 0%nat = Locked.
Proof.
  destruct example_writing as (s & Hr & Ei & Hw). exists s.
  destruct (bucket_progress example_start s 0 2 Hr Ei) as (n & s1 & _ & Hs & Hfree & _ & Hlock & _).
  - unfold CUCKOO_BUCKET_SIZE. lia.
  - exists s1. split; [exact Hw|]. split; [apply rtc_nsteps; exists n; exact Hs|]. split; [exact Hfree|exact Hlock].
Defined.
