(* ===== verification/Float32.v ===== *)
(** * Random single-precision numbers (random.c)

    The floats of the program are conversions of 32-bit integers, products of
    them and quotients by 2^32. They are kept as integers in units of 2^-32,
    where a binary32 operation is exact except for one rounding to 24
    significant bits (to nearest, ties to even). *)

From S2P Require Import Prelude Random.
From stdpp Require Import base list.
From Stdlib Require Import ZArith Lia Bool.

#[local] Open Scope Z_scope.

(** The nearest number of 24 significant bits to a number [x >= 0]. *)
Definition round_binary32 (x : Z) : Z :=
  let e := Z.log2 x - 23 in
  if e <=? 0 then x
  else
    let q := x .>> e in
    let r := x - (q .<< e) in
    let half := 1 .<< (e - 1) in
    if (half <? r) || ((half =? r) && Z.odd q) then (q + 1) .<< e else q .<< e.

(** [rand_float]: the divisor [UINT32_MAX] is converted to the float 2^32, so
    that the quotient is exact and can be 1. *)
Definition rand_float (st : Z) : Z * Z :=
  let '(d, st') := rand_dword st in (round_binary32 d, st').

(** ** Rounding *)

(** A number with at most 24 significant bits. *)
Definition binary32 (z : Z) : Prop := exists m k, 0 <= m <= 2 ^ 24 /\ 0 <= k /\ z = m * 2 ^ k.

Lemma round_cases x :
  0 <= x ->
  round_binary32 x = x \/
  exists e q, 0 < e /\ 2 ^ 23 <= q < 2 ^ 24 /\ q * 2 ^ e <= x < (q + 1) * 2 ^ e /\
    (round_binary32 x = q * 2 ^ e \/ q * 2 ^ e < x /\ round_binary32 x = (q + 1) * 2 ^ e).
Proof.
  intros Hx. unfold round_binary32. destruct (Z.leb_spec (Z.log2 x - 23) 0) as [|He]; [now left|]. right.
  set (e := Z.log2 x - 23) in *.
  assert (Hl : 2 ^ (23 + e) <= x < 2 ^ (24 + e)).
  { replace (23 + e) with (Z.log2 x) by (unfold e; lia). replace (24 + e) with (Z.succ (Z.log2 x)) by (unfold e; lia).
    apply Z.log2_spec. unfold e in He. destruct (Z.eq_dec x 0) as [->|]; [cbn in He; lia|lia]. }
  rewrite !Z.pow_add_r in Hl by lia. rewrite !Z.shiftl_mul_pow2, Z.shiftr_div_pow2 by lia.
  assert (Hp : 0 < 2 ^ e) by (apply Z.pow_pos_nonneg; lia).
  assert (Hh : 0 < 2 ^ (e - 1)) by (apply Z.pow_pos_nonneg; lia).
  exists e, (x / 2 ^ e). split; [exact He|].
  pose proof (Z.mul_div_le x (2 ^ e) Hp). pose proof (Z.mul_succ_div_gt x (2 ^ e) Hp).
  split; [split; [apply Z.div_le_lower_bound; lia|apply Z.div_lt_upper_bound; lia]|].
  split; [lia|].
  destruct (_ || _) eqn:Hb; [right; split; [|reflexivity]|now left].
  apply orb_true_iff in Hb. rewrite andb_true_iff in Hb. destruct Hb as [Hb|[Hb _]]; lia.
Qed.

(** Powers of two compare as their exponents do. *)
Lemma pow_scale a b : 0 <= a <= b -> 2 ^ b = 2 ^ a * 2 ^ (b - a) /\ 0 < 2 ^ a /\ 0 < 2 ^ (b - a).
Proof.
  intros H. rewrite <- Z.pow_add_r by lia. replace (a + (b - a)) with b by lia.
  split; [reflexivity|split; apply Z.pow_pos_nonneg; lia].
Qed.

(** Rounding does not cross a number of 24 bits. *)
Lemma round_le x z : 0 <= x -> binary32 z -> x <= z -> round_binary32 x <= z.
Proof.
  intros Hx (m & k & Hm & Hk & ->) Hle. destruct (round_cases x Hx) as [->|(e & q & He & Hq & Hxq & Hr)]; [exact Hle|].
  destruct Hr as [->|[Hlt ->]]; [lia|].
  destruct (Z.le_gt_cases e k) as [Hek|Hek].
  - destruct (pow_scale e k) as (E & H1 & H2); [lia|]. rewrite E in *. assert (q < m * 2 ^ (k - e)) by nia. nia.
  - destruct (pow_scale k e) as (E & H1 & H2); [lia|].
    assert (2 <= 2 ^ (e - k)). { change 2 with (2 ^ 1) at 1. apply Z.pow_le_mono_r; lia. }
    assert (m <= q * 2 ^ (e - k)) by nia. exfalso. assert (m * 2 ^ k <= q * 2 ^ e); [|lia]. rewrite E. nia.
Qed.

Lemma round_ge x z : 0 <= x -> binary32 z -> z <= x -> z <= round_binary32 x.
Proof.
  intros Hx (m & k & Hm & Hk & ->) Hle. destruct (round_cases x Hx) as [->|(e & q & He & Hq & Hxq & Hr)]; [exact Hle|].
  enough (m * 2 ^ k <= q * 2 ^ e) by (destruct Hr as [->|[_ ->]]; lia).
  destruct (Z.le_gt_cases e k) as [Hek|Hek].
  - destruct (pow_scale e k) as (E & H1 & H2); [lia|]. rewrite E in *. assert (m * 2 ^ (k - e) <= q) by nia. nia.
  - destruct (pow_scale k e) as (E & H1 & H2); [lia|].
    assert (2 <= 2 ^ (e - k)). { change 2 with (2 ^ 1) at 1. apply Z.pow_le_mono_r; lia. }
    assert (m <= q * 2 ^ (e - k)) by nia. rewrite E. nia.
Qed.

Lemma binary32_id z : 0 <= z -> binary32 z -> round_binary32 z = z.
Proof. intros H Hz. apply Z.le_antisymm; [now apply round_le|now apply round_ge]. Qed.

(** A small multiple of a power of two. *)
Lemma binary32_scaled m k : 0 <= m <= 2 ^ 24 -> 0 <= k -> binary32 (m * 2 ^ k).
Proof. intros. now exists m, k. Qed.

Example rand_float_one : round_binary32 (2 ^ 32 - 1) = 2 ^ 32. Proof. reflexivity. Qed.
