(* ===== verification/MtDebug.v ===== *)
(** * The random scheduler of the concurrency tests (mt_debug.c)

    In a debug build every access to the trie is surrounded by
    [mt_debug_wait_for_access] and [mt_debug_access_done] (atomics.h): the
    thread waits for its turn, and then the turn passes to a random thread
    that has not finished. The [pthread_t] of a thread is an integer.

    Waiting on the condition variable [running_thread_changed] is as in
    POSIX: [pthread_cond_wait] gives [lock] back and puts the thread to sleep,
    a broadcast wakes the threads that sleep at that moment, and a thread that
    wakes up takes [lock] and tests its condition again. The test, the going
    to sleep and every broadcast are steps of their own, so that other threads
    act in between, and a thread may also wake up without a broadcast. *)

From S2P Require Import Prelude Random Float32.
From stdpp Require Import base list gmap relations.
From Stdlib Require Import ZArith Lia Bool.

#[local] Open Scope Z_scope.

Definition MAX_THREADS : Z := 128.
Definition NO_THREAD : Z := -1.

(** The static variables of mt_debug.c. *)
Record sched := mk_sched {
  mt_debug_enabled : Z;
  rand_state : Z;
  running_thread : Z;
  threads : list Z;
  num_threads : Z;
  num_running_threads : Z;
  finished : list Z;
}.

Definition sched_init : sched :=
  mk_sched 0 1 NO_THREAD (replicate (Z.to_nat MAX_THREADS) 0) 0 0 (replicate (Z.to_nat MAX_THREADS) 0).

(** What a call does: it returns, it waits until another thread acts, or it
    stops in an assertion or outside an array. *)
Inductive outcome (A : Type) :=
| Returns (a : A)
| Waits
| Stops.
Arguments Returns {A}. Arguments Waits {A}. Arguments Stops {A}.

#[export] Instance outcome_ret : MRet outcome := @Returns.
#[export] Instance outcome_bind : MBind outcome := fun _ _ f m =>
  match m with Returns a => f a | Waits => Waits | Stops => Stops end.

Definition array_get (l : list Z) (i : Z) : outcome Z :=
  if i <? 0 then Stops else match l !! Z.to_nat i with Some x => Returns x | None => Stops end.
Definition array_set (l : list Z) (i x : Z) : outcome (list Z) :=
  if (0 <=? i) && (i <? Z.of_nat (length l)) then Returns (<[Z.to_nat i := x]> l) else Stops.

(** The loop of [next_turn_locked] with [n] rounds to go. [limit] is
    [num_running_threads * rand] in units of 2^-32. *)
Fixpoint scan_turn (fin : list Z) (limit : Z) (n : nat) (i running_seen : Z) : outcome Z :=
  match n with
  | O => Returns i
  | S k =>
      f ← array_get fin i;
      if negb (f =? 0) then scan_turn fin limit k (i + 1) running_seen
      else
        let running_seen := running_seen + 1 in
        if limit <=? running_seen * 2 ^ 32 then Returns i
        else scan_turn fin limit k (i + 1) running_seen
  end.

Definition turn_limit (s : sched) (dword : Z) : Z :=
  let rand := round_binary32 dword in
  round_binary32 (num_running_threads s * rand).

Definition next_turn_locked (s : sched) : outcome sched :=
  if num_running_threads s =? 0 then Returns s
  else
    let '(dword, rand_state') := rand_dword_r (rand_state s) in
    i ← scan_turn (finished s) (turn_limit s dword) (Z.to_nat (num_threads s)) 0 0;
    if i =? num_threads s then Stops
    else
      f ← array_get (finished s) i;
      if negb (f =? 0) then Stops
      else Returns (mk_sched (mt_debug_enabled s) rand_state' i (threads s) (num_threads s)
                             (num_running_threads s) (finished s)).

(** [next_turn] is [next_turn_locked] as a critical section. *)
Definition next_turn (s : sched) : outcome sched := next_turn_locked s.

(** The search loop of [thread_index], with [n] rounds to go. *)
Fixpoint find_thread (ths : list Z) (self : Z) (n : nat) (i : Z) : outcome Z :=
  match n with
  | O => Stops
  | S k => t ← array_get ths i; if t =? self then Returns i else find_thread ths self k (i + 1)
  end.

Definition thread_index (s : sched) (self : Z) : outcome Z :=
  if running_thread s =? NO_THREAD then Waits
  else find_thread (threads s) self (Z.to_nat (num_threads s)) 0.

Definition ct_mtdbg_register_thread (thread_id : Z) (s : sched) : outcome sched :=
  ths ← array_set (threads s) (num_threads s) thread_id;
  fin ← array_set (finished s) (num_threads s) 0;
  Returns (mk_sched (mt_debug_enabled s) (rand_state s) (running_thread s) ths
                    (num_threads s + 1) (num_running_threads s + 1) fin).

Definition ct_mtdbg_start (s : sched) : outcome sched :=
  if mt_debug_enabled s =? 0 then Stops else next_turn s.

(** The critical section of [ct_mtdbg_thread_done]. *)
Definition thread_done_locked (self : Z) (s : sched) : outcome sched :=
  i ← thread_index s self;
  fin ← array_set (finished s) i 1;
  let s := mk_sched (mt_debug_enabled s) (rand_state s) (running_thread s) (threads s)
                    (num_threads s) (num_running_threads s - 1) fin in
  j ← thread_index s self;
  if running_thread s =? j then next_turn_locked s else Returns s.

Definition ct_mtdbg_set_enabled (enabled : Z) (s : sched) : sched :=
  mk_sched enabled (rand_state s) (running_thread s) (threads s) (num_threads s)
           (num_running_threads s) (finished s).

Definition ct_mtdbg_seed (seed : Z) (s : sched) : sched :=
  mk_sched (mt_debug_enabled s) seed (running_thread s) (threads s) (num_threads s)
           (num_running_threads s) (finished s).

(** ** Threads *)

(** Where a thread is: outside the calls; in [mt_debug_wait_for_access], in
    the search of its index, before the lock, under the lock before the test
    of the loop, after the test when it has to wait, or asleep; between the
    two calls; in [mt_debug_access_done], before [next_turn] has the lock and
    before its broadcast; in [ct_mtdbg_thread_done], before it has the lock,
    under it, and before the broadcast; in [ct_mtdbg_set_enabled] before the
    broadcast; after [ct_mtdbg_thread_done]. *)
Inductive pc :=
| Outside
| Indexing
| Locking (i : Z)
| Testing (i : Z)
| Deciding (i : Z)
| Sleeping (i : Z)
| Accessing
| Passing
| Notifying
| Finishing
| InDone
| Announcing
| Disabling
| Finished.

(** [pthread_cond_broadcast]: the threads that sleep wake up, and compete
    for the lock. *)
Definition wake (p : pc) : pc := match p with Sleeping i => Locking i | _ => p end.
Definition broadcast (m : gmap Z pc) : gmap Z pc := wake <$> m.

(** The next thing that a thread at these places does is a broadcast. *)
Definition wakes (p : pc) : bool :=
  match p with Notifying | Announcing | Disabling => true | _ => false end.

(** The main thread of the test: outside the calls, or before the broadcast
    of [ct_mtdbg_start] or of [ct_mtdbg_set_enabled]. *)
Inductive main_pc := Idle | Starting | Stopping.

Record system := mk_system {
  scheduler : sched;
  lock_owner : option Z;
  pcs : gmap Z pc;
  main : main_pc;
}.

Definition enabled (s : sched) : bool := negb (mt_debug_enabled s =? 0).

(** The condition of the loop of [mt_debug_wait_for_access]. *)
Definition must_wait (s : sched) (i : Z) : bool := enabled s && negb (running_thread s =? i).

(** One step of the thread [self]: the scheduler, the owner of [lock] and the
    thread before and after; [None] when the step stops the program. *)
Inductive thread_step (self : Z) (s : sched) (own : option Z) : pc -> option (sched * option Z * pc) -> Prop :=
| step_wait : enabled s = true -> thread_step self s own Outside (Some (s, own, Indexing))
| step_wait_disabled : enabled s = false -> thread_step self s own Outside (Some (s, own, Accessing))
| step_index i : thread_index s self = Returns i -> thread_step self s own Indexing (Some (s, own, Locking i))
| step_index_stops : thread_index s self = Stops -> thread_step self s own Indexing None
| step_lock i : own = None -> thread_step self s own (Locking i) (Some (s, Some self, Testing i))
| step_turn i : must_wait s i = false -> thread_step self s own (Testing i) (Some (s, None, Accessing))
| step_not_turn i : must_wait s i = true -> thread_step self s own (Testing i) (Some (s, own, Deciding i))
| step_sleep i : thread_step self s own (Deciding i) (Some (s, None, Sleeping i))
| step_access_done : enabled s = true -> thread_step self s own Accessing (Some (s, own, Passing))
| step_access_done_disabled : enabled s = false -> thread_step self s own Accessing (Some (s, own, Outside))
| step_next s' : own = None -> next_turn s = Returns s' -> thread_step self s own Passing (Some (s', own, Notifying))
| step_next_stops : own = None -> next_turn s = Stops -> thread_step self s own Passing None
| step_notified : thread_step self s own Notifying (Some (s, own, Outside))
| step_done : enabled s = true -> thread_step self s own Outside (Some (s, own, Finishing))
| step_done_disabled : enabled s = false -> thread_step self s own Outside (Some (s, own, Outside))
| step_lock_done : own = None -> thread_step self s own Finishing (Some (s, Some self, InDone))
| step_finish s' :
    thread_done_locked self s = Returns s' -> thread_step self s own InDone (Some (s', None, Announcing))
| step_finish_stops : thread_done_locked self s = Stops -> thread_step self s own InDone None
| step_announced : thread_step self s own Announcing (Some (s, own, Finished))
| step_disabled : thread_step self s own Disabling (Some (s, own, Outside)).

(** The threads after [t] went from [p] to [p']. *)
Definition moved (t : Z) (p p' : pc) (m : gmap Z pc) : gmap Z pc :=
  let m := <[t := p']> m in if wakes p then broadcast m else m.

(** Who acts: a thread goes on; the main thread starts the scheduler, or
    makes the broadcast that ends its call; somebody disables the scheduler;
    a thread wakes up without a broadcast. *)
Inductive label := ByThread (t : Z) | ByStart | ByMain | ByDisable | Spurious.

(** A step of the system. The main thread of the test starts the scheduler
    while it is enabled; it or a thread may disable it. [None]: the program
    has stopped. *)
Inductive step : label -> system -> option system -> Prop :=
| step_thread t p y s' own' p' :
    pcs y !! t = Some p -> thread_step t (scheduler y) (lock_owner y) p (Some (s', own', p')) ->
    step (ByThread t) y (Some (mk_system s' own' (moved t p p' (pcs y)) (main y)))
| step_stops t p y :
    pcs y !! t = Some p -> thread_step t (scheduler y) (lock_owner y) p None -> step (ByThread t) y None
| step_start y s' :
    main y = Idle -> lock_owner y = None -> running_thread (scheduler y) = NO_THREAD -> enabled (scheduler y) = true ->
    ct_mtdbg_start (scheduler y) = Returns s' -> step ByStart y (Some (mk_system s' (lock_owner y) (pcs y) Starting))
| step_start_stops y :
    main y = Idle -> lock_owner y = None -> running_thread (scheduler y) = NO_THREAD -> enabled (scheduler y) = true ->
    ct_mtdbg_start (scheduler y) = Stops -> step ByStart y None
| step_main y :
    main y <> Idle -> step ByMain y (Some (mk_system (scheduler y) (lock_owner y) (broadcast (pcs y)) Idle))
| step_disable_main y :
    main y = Idle ->
    step ByDisable y (Some (mk_system (ct_mtdbg_set_enabled 0 (scheduler y)) (lock_owner y) (pcs y) Stopping))
| step_disable t y :
    pcs y !! t = Some Outside ->
    step ByDisable y (Some (mk_system (ct_mtdbg_set_enabled 0 (scheduler y)) (lock_owner y)
                                      (<[t := Disabling]> (pcs y)) (main y)))
| step_spurious t i y :
    pcs y !! t = Some (Sleeping i) ->
    step Spurious y (Some (mk_system (scheduler y) (lock_owner y) (<[t := Locking i]> (pcs y)) (main y))).

(** The set-up of the tests: enable, seed, register the threads. *)
Fixpoint register_all (ids : list Z) (s : sched) : outcome sched :=
  match ids with
  | [] => Returns s
  | t :: ids => s ← ct_mtdbg_register_thread t s; register_all ids s
  end.

Definition set_up (seed : Z) (ids : list Z) : outcome system :=
  s ← register_all ids (ct_mtdbg_seed seed (ct_mtdbg_set_enabled 1 sched_init));
  Returns (mk_system s None (list_to_map (map (fun t => (t, Outside)) ids)) Idle).

(** [y] is reached by steps that do not stop. *)
Definition next (y y' : system) : Prop := exists a, step a y (Some y').
Definition reachable (y : system) : Prop :=
  exists seed ids y0, NoDup ids /\ Z.of_nat (length ids) <= MAX_THREADS /\ set_up seed ids = Returns y0 /\ rtc next y0 y.

(** The calls that are under way go on: nobody starts or disables the
    scheduler, and no thread wakes up without a broadcast. *)
Definition goes_on (y y' : system) : Prop := (exists t, step (ByThread t) y (Some y')) \/ step ByMain y (Some y').
