(* ===== verification/Scheduling.v ===== *)
(** * What the random scheduler guarantees

    The state of mt_debug.c and of the threads that use it has an invariant
    that every step keeps. It follows that accesses to the trie are serialised
    and go on, and that every unfinished thread can be the next one; a thread
    that finishes before the start blocks them all. *)

From S2P Require Import Prelude Random Float32 MtDebug.
From stdpp Require Import base list gmap relations.
From Stdlib Require Import ZArith Lia Bool.

#[local] Open Scope Z_scope.

(** ** Arrays and the number of unfinished threads *)

Lemma array_get_nat l i : array_get l (Z.of_nat i) = match l !! i with Some x => Returns x | None => Stops end.
Proof. unfold array_get. destruct (Z.ltb_spec (Z.of_nat i) 0); [lia|]. now rewrite Nat2Z.id. Qed.

Lemma array_get_at l i x : 0 <= i -> l !! Z.to_nat i = Some x -> array_get l i = Returns x.
Proof. intros Hi H. unfold array_get. destruct (Z.ltb_spec i 0); [lia|]. now rewrite H. Qed.

Lemma array_set_at l i x : 0 <= i < Z.of_nat (length l) -> array_set l i x = Returns (<[Z.to_nat i := x]> l).
Proof. intros H. unfold array_set. zcases; try lia. reflexivity. Qed.

Fixpoint unfinished (l : list Z) : Z :=
  match l with [] => 0 | f :: l => (if f =? 0 then 1 else 0) + unfinished l end.

Lemma unfinished_app l k : unfinished (l ++ k) = unfinished l + unfinished k.
Proof. induction l as [|f l IH]; cbn; [reflexivity|]. rewrite IH. lia. Qed.

Lemma unfinished_nonneg l : 0 <= unfinished l <= Z.of_nat (length l).
Proof. induction l as [|f l IH]; cbn [unfinished length]; [lia|]. destruct (f =? 0); lia. Qed.

Lemma unfinished_insert l i :
  l !! i = Some 0 -> unfinished (<[i := 1]> l) = unfinished l - 1.
Proof.
  revert i. induction l as [|f l IH]; intros [|i] H; try discriminate.
  - injection H as ->. cbn. lia.
  - change (<[S i:=1]> (f :: l)) with (f :: <[i:=1]> l). cbn [unfinished]. rewrite (IH _ H). lia.
Qed.

Lemma unfinished_pos l i : l !! i = Some 0 -> 0 < unfinished l.
Proof.
  intros H. rewrite <- (take_drop_middle _ _ _ H), unfinished_app. cbn.
  pose proof (unfinished_nonneg (take i l)). pose proof (unfinished_nonneg (drop (S i) l)). lia.
Qed.

(** The index that [limit] selects: the first thread among the unfinished
    whose rank times 2^32 reaches it. *)
Definition selected (l : list Z) (limit : Z) (j : nat) : Prop :=
  l !! j = Some 0 /\
  let rank := unfinished (take j l) in limit <= (rank + 1) * 2 ^ 32 /\ (rank * 2 ^ 32 < limit \/ rank = 0).

Lemma selected_exists l limit :
  limit <= unfinished l * 2 ^ 32 -> 0 < unfinished l -> exists j, selected l limit j.
Proof.
  induction l as [|f l IH] using rev_ind; [cbn; lia|]. rewrite unfinished_app. cbn [unfinished]. intros Hl Hp.
  destruct (decide (limit <= unfinished l * 2 ^ 32 /\ 0 < unfinished l)) as [[H1 H2]|Hn].
  - destruct (IH H1 H2) as (j & Hj & Hr). exists j. pose proof (lookup_lt_Some _ _ _ Hj).
    split; [now rewrite lookup_app_l|]. rewrite take_app_le by lia. exact Hr.
  - exists (length l). pose proof (unfinished_nonneg l). destruct (Z.eqb_spec f 0) as [->|]; [|lia].
    split; [apply list_lookup_middle; reflexivity|]. cbn zeta. rewrite take_app_length. lia.
Qed.

(** The loop stops at the selected index. *)
Lemma scan_turn_selects fin limit j : forall i n seen,
  fin !! (i + j)%nat = Some 0 -> (j < n)%nat ->
  let rank := seen + unfinished (take j (drop i fin)) in
  limit <= (rank + 1) * 2 ^ 32 -> rank * 2 ^ 32 < limit \/ rank = seen ->
  scan_turn fin limit n (Z.of_nat i) seen = Returns (Z.of_nat (i + j)).
Proof.
  induction j as [|j IH]; intros i [|n] seen Hj Hn rank Hle Hlt; try lia; subst rank; cbn [scan_turn]; rewrite array_get_nat.
  - rewrite Nat.add_0_r in *. rewrite Hj. rewrite take_0 in *. cbn [unfinished mbind outcome_bind Z.eqb negb] in *.
    destruct (Z.leb_spec limit ((seen + 1) * 2 ^ 32)); [reflexivity|lia].
  - destruct (fin !! i) as [f|] eqn:Ei; [|apply lookup_ge_None in Ei; apply lookup_lt_Some in Hj; lia].
    rewrite (drop_S _ _ _ Ei) in Hle, Hlt. rewrite firstn_cons in Hle, Hlt. cbn [unfinished] in Hle, Hlt.
    replace (i + S j)%nat with (S i + j)%nat in * by lia. cbn [mbind outcome_bind].
    pose proof (unfinished_nonneg (take j (drop (S i) fin))).
    replace (Z.of_nat i + 1) with (Z.of_nat (S i)) by lia.
    revert Hle Hlt. destruct (Z.eqb_spec f 0) as [->|Hf]; cbn [negb]; intros Hle Hlt.
    + destruct (Z.leb_spec limit ((seen + 1) * 2 ^ 32)); [lia|]. apply IH; [exact Hj|lia|lia|left; lia].
    + apply IH; [exact Hj|lia|lia|]. destruct Hlt; [left|right]; lia.
Qed.

(** ** The state of the scheduler *)

Definition registered (s : sched) : list Z := take (Z.to_nat (num_threads s)) (threads s).
Definition done_flags (s : sched) : list Z := take (Z.to_nat (num_threads s)) (finished s).

Record sched_ok (s : sched) : Prop := mk_sched_ok {
  so_threads : Z.of_nat (length (threads s)) = MAX_THREADS;
  so_finished : Z.of_nat (length (finished s)) = MAX_THREADS;
  so_num : 0 <= num_threads s <= MAX_THREADS;
  so_nodup : NoDup (registered s);
  so_count : num_running_threads s = unfinished (done_flags s);
}.

(** The turn belongs to no thread yet, or to an unfinished one as long as
    there is one. *)
Definition turn_ok (s : sched) : Prop :=
  running_thread s = NO_THREAD \/
  0 <= running_thread s < num_threads s /\
  (num_running_threads s = 0 \/ finished s !! Z.to_nat (running_thread s) = Some 0).

Definition with_turn (s : sched) (i rs : Z) : sched :=
  mk_sched (mt_debug_enabled s) rs i (threads s) (num_threads s) (num_running_threads s) (finished s).

Lemma dword_bound rs : 0 <= fst (rand_dword_r rs) < 2 ^ 32.
Proof. unfold rand_dword_r. cbn [fst]. apply wrap_bound. lia. Qed.

Lemma rand_bound d : 0 <= d < 2 ^ 32 -> 0 <= round_binary32 d <= 2 ^ 32.
Proof.
  intros H. split; [apply (round_ge d 0); [lia|exists 0, 0; lia|lia]|].
  apply round_le; [lia|exists 1, 32; lia|lia].
Qed.

Section next_turn.
Variable s : sched.
Hypothesis OK : sched_ok s.

Lemma done_flags_lookup i : 0 <= i < num_threads s -> done_flags s !! Z.to_nat i = finished s !! Z.to_nat i.
Proof. intros H. unfold done_flags. apply lookup_take_lt. lia. Qed.

Lemma running_bound : 0 <= num_running_threads s <= num_threads s.
Proof.
  rewrite (so_count _ OK). pose proof (unfinished_nonneg (done_flags s)). destruct OK as [? ? [? ?] ? ?].
  unfold done_flags in *. rewrite length_take in *. unfold MAX_THREADS in *. lia.
Qed.

Lemma limit_bound d : 0 <= d < 2 ^ 32 -> 0 <= turn_limit s d <= num_running_threads s * 2 ^ 32.
Proof.
  intros Hd. pose proof running_bound. pose proof (so_num _ OK). pose proof (rand_bound d Hd). unfold MAX_THREADS in *.
  unfold turn_limit. split.
  - apply (round_ge _ 0); [nia|exists 0, 0; lia|nia].
  - apply round_le; [nia|apply binary32_scaled; lia|nia].
Qed.

(** [next_turn_locked] gives the turn to the selected thread. *)
Lemma next_turn_selects j :
  0 < num_running_threads s ->
  selected (done_flags s) (turn_limit s (fst (rand_dword_r (rand_state s)))) j ->
  next_turn_locked s = Returns (with_turn s (Z.of_nat j) (snd (rand_dword_r (rand_state s)))) /\
  Z.of_nat j < num_threads s /\ finished s !! j = Some 0.
Proof.
  intros Hp [Hj Hsel]. cbn zeta in Hsel. destruct Hsel as [Hle Hlt].
  assert (Hb : (j < Z.to_nat (num_threads s))%nat).
  { apply lookup_lt_Some in Hj. unfold done_flags in Hj. rewrite length_take in Hj. lia. }
  assert (Hf : finished s !! j = Some 0).
  { rewrite <- Hj. unfold done_flags. symmetry. apply lookup_take_lt. exact Hb. }
  unfold done_flags in Hle, Hlt. rewrite take_take, Nat.min_l in Hle, Hlt by lia.
  pose proof (scan_turn_selects (finished s) _ j 0 (Z.to_nat (num_threads s)) 0 Hf Hb Hle Hlt) as Hs.
  split; [|split; [lia|exact Hf]].
  unfold next_turn_locked. destruct (rand_dword_r (rand_state s)) as [d rs'] eqn:Ed. cbn [fst snd] in *.
  destruct (Z.eqb_spec (num_running_threads s) 0); [lia|].
  change (Z.of_nat 0) with 0 in Hs. change (0 + j)%nat with j in Hs. rewrite Hs. cbn [mbind outcome_bind].
  destruct (Z.eqb_spec (Z.of_nat j) (num_threads s)); [lia|]. rewrite array_get_nat, Hf. reflexivity.
Qed.

(** It never fails; the new turn is that of an unfinished thread. *)
Lemma next_turn_returns :
  (num_running_threads s = 0 -> turn_ok s) ->
  exists i rs, next_turn_locked s = Returns (with_turn s i rs) /\ turn_ok (with_turn s i rs) /\
    (0 < num_running_threads s -> 0 <= i < num_threads s /\ finished s !! Z.to_nat i = Some 0) /\
    (num_running_threads s = 0 -> i = running_thread s).
Proof.
  intros Ht. destruct (Z.eq_dec (num_running_threads s) 0) as [E0|Hn].
  - exists (running_thread s), (rand_state s). unfold next_turn_locked. rewrite E0. cbn [Z.eqb].
    specialize (Ht E0). destruct s; cbn in *. split; [reflexivity|]. split; [exact Ht|]. split; [lia|reflexivity].
  - pose proof running_bound.
    destruct (selected_exists (done_flags s) (turn_limit s (fst (rand_dword_r (rand_state s))))) as [j Hj].
    + rewrite <- (so_count _ OK). apply limit_bound, dword_bound.
    + rewrite <- (so_count _ OK). lia.
    + destruct (next_turn_selects j ltac:(lia) Hj) as (E & Hb & Hf).
      exists (Z.of_nat j), (snd (rand_dword_r (rand_state s))). split; [exact E|]. split; [|split; [|lia]].
      * right. cbn. rewrite Nat2Z.id. split; [lia|now right].
      * intros _. rewrite Nat2Z.id. split; [lia|exact Hf].
Qed.

End next_turn.

Lemma with_turn_ok s i rs : sched_ok s -> sched_ok (with_turn s i rs).
Proof. intros [? ? ? ? ?]. now constructor. Qed.

(** [thread_index] finds a registered thread. *)
Lemma find_thread_finds ths t j : forall i n,
  ths !! (i + j)%nat = Some t -> (j < n)%nat -> (forall k, (k < j)%nat -> ths !! (i + k)%nat <> Some t) ->
  find_thread ths t n (Z.of_nat i) = Returns (Z.of_nat (i + j)).
Proof.
  induction j as [|j IH]; intros i [|n] Hj Hn Hk; try lia; cbn [find_thread]; rewrite array_get_nat.
  - rewrite Nat.add_0_r in *. rewrite Hj. cbn [mbind outcome_bind]. now rewrite Z.eqb_refl.
  - destruct (ths !! i) as [u|] eqn:Ei; [|apply lookup_ge_None in Ei; apply lookup_lt_Some in Hj; lia].
    cbn [mbind outcome_bind]. destruct (Z.eqb_spec u t) as [->|].
    { exfalso. apply (Hk 0%nat); [lia|]. now rewrite Nat.add_0_r. }
    replace (Z.of_nat i + 1) with (Z.of_nat (S i)) by lia. replace (i + S j)%nat with (S i + j)%nat in * by lia.
    apply IH; [exact Hj|lia|]. intros k Hlt. replace (S i + k)%nat with (i + S k)%nat by lia. apply Hk. lia.
Qed.

Lemma thread_index_at s i t :
  sched_ok s -> running_thread s <> NO_THREAD -> registered s !! i = Some t ->
  thread_index s t = Returns (Z.of_nat i).
Proof.
  intros OK Hr Hi. unfold thread_index. destruct (Z.eqb_spec (running_thread s) NO_THREAD); [contradiction|].
  pose proof (lookup_lt_Some _ _ _ Hi) as Hlt. unfold registered in Hlt. rewrite length_take in Hlt.
  change (Z.of_nat i) with (Z.of_nat (0 + i)). change 0 with (Z.of_nat 0) at 1.
  assert (Hat : forall k, (k < Z.to_nat (num_threads s))%nat -> threads s !! k = registered s !! k).
  { intros k Hk. symmetry. apply lookup_take_lt. exact Hk. }
  apply find_thread_finds; cbn [Nat.add]; [now rewrite Hat by lia|lia|].
  intros k Hk E. rewrite Hat in E by lia. pose proof (NoDup_lookup _ _ _ _ (so_nodup _ OK) Hi E). lia.
Qed.

(** ** The invariant of the threads *)

Definition in_access (p : pc) : bool := match p with Accessing | Passing => true | _ => false end.

(** The thread has [lock]. *)
Definition holds_lock (p : pc) : bool := match p with Testing _ | Deciding _ | InDone => true | _ => false end.

(** Its entry of [finished] is set. *)
Definition is_done (p : pc) : bool := match p with Announcing | Finished => true | _ => false end.

(** [this_thread], in the loop of [mt_debug_wait_for_access]. *)
Definition own_index (p : pc) : option Z :=
  match p with Locking i | Testing i | Deciding i | Sleeping i => Some i | _ => None end.

(** It is the turn of the thread [t]. *)
Definition has_turn (s : sched) (t : Z) : Prop :=
  0 <= running_thread s /\ registered s !! Z.to_nat (running_thread s) = Some t.

(** What holds of a thread that is at [p]. *)
Record pc_ok (s : sched) (own : option Z) (t : Z) (p : pc) : Prop := mk_pc_ok {
  po_lock : holds_lock p = true <-> own = Some t;
  po_finished : forall i, registered s !! i = Some t -> (finished s !! i = Some 0 <-> is_done p = false);
  po_index : forall i, own_index p = Some i ->
    0 <= i /\ registered s !! Z.to_nat i = Some t /\ running_thread s <> NO_THREAD;
  po_decided : forall i, p = Deciding i -> running_thread s <> i;
  po_turn : enabled s = true -> in_access p = true -> has_turn s t;
}.

(** Somebody is about to make a broadcast. *)
Definition pending (y : system) : Prop := main y <> Idle \/ exists t p, pcs y !! t = Some p /\ wakes p = true.

(** No wake-up of the turn is lost: a thread does not sleep through its own
    turn, except until a broadcast that is on its way. *)
Definition wake_ok (y : system) : Prop :=
  forall t i, pcs y !! t = Some (Sleeping i) -> running_thread (scheduler y) = i -> pending y.

Record inv (y : system) : Prop := mk_inv {
  iv_sched : sched_ok (scheduler y);
  iv_turn : turn_ok (scheduler y);
  iv_registered : forall t, is_Some (pcs y !! t) <-> t ∈ registered (scheduler y);
  iv_pcs : forall t p, pcs y !! t = Some p -> pc_ok (scheduler y) (lock_owner y) t p;
  iv_owner : forall t, lock_owner y = Some t -> t ∈ registered (scheduler y);
  iv_wake : wake_ok y;
}.

Lemma has_turn_unique s t u : has_turn s t -> has_turn s u -> t = u.
Proof. intros [_ H1] [_ H2]. congruence. Qed.

(** A broadcast keeps the invariant: afterwards no thread sleeps. *)
Lemma broadcast_lookup m t q : broadcast m !! t = Some q <-> exists p, m !! t = Some p /\ q = wake p.
Proof. unfold broadcast. rewrite lookup_fmap_Some. split; intros (p & H1 & H2); exists p; split; congruence. Qed.

Lemma wake_awake p i : wake p <> Sleeping i.
Proof. now destruct p. Qed.

Lemma pc_ok_wake s own t p : pc_ok s own t p -> pc_ok s own t (wake p).
Proof. intros H. destruct p; try exact H. destruct H as [H1 H2 H3 H4 H5]. now split. Qed.

Lemma inv_broadcast y m : inv y -> inv (mk_system (scheduler y) (lock_owner y) (broadcast (pcs y)) m).
Proof.
  intros [H1 H2 H3 H4 H5 H6]. split; cbn; try assumption.
  - intros t. unfold broadcast. rewrite lookup_fmap, fmap_is_Some. apply H3.
  - intros t q (p & Hp & ->)%broadcast_lookup. apply pc_ok_wake. eauto.
  - intros t i (p & _ & E)%broadcast_lookup _. now destruct (wake_awake p i).
Qed.

(** A step that moves the thread [t] and changes the scheduler keeps the
    invariant when it keeps what the other threads know. *)
Lemma inv_move y t p s' own' p' m :
  inv y -> pcs y !! t = Some p -> sched_ok s' -> turn_ok s' -> registered s' = registered (scheduler y) ->
  pc_ok s' own' t p' -> (forall u, own' = Some u -> u = t \/ lock_owner y = Some u) ->
  (forall u q, u <> t -> pcs y !! u = Some q -> pc_ok (scheduler y) (lock_owner y) u q -> pc_ok s' own' u q) ->
  wake_ok (mk_system s' own' (<[t := p']> (pcs y)) m) ->
  inv (mk_system s' own' (<[t := p']> (pcs y)) m).
Proof.
  intros [H1 H2 H3 H4 H5 _] Ht Hs Htu Hr Hp Hown Ho Hw. constructor; cbn; [exact Hs|exact Htu| | | |exact Hw].
  - intros u. rewrite Hr, <- H3. destruct (decide (u = t)) as [->|Hne].
    + rewrite lookup_insert_eq, Ht. split; intros _; eauto.
    + now rewrite lookup_insert_ne.
  - intros u q. destruct (decide (u = t)) as [->|Hne].
    + rewrite lookup_insert_eq. intros [= <-]. exact Hp.
    + rewrite lookup_insert_ne by congruence. intros Hq. eauto.
  - intros u Hu. rewrite Hr. destruct (Hown u Hu) as [->|Hl]; [apply H3; eauto|now apply H5].
Qed.

(** Wake-ups after such a step: a broadcast follows it, or it keeps the turn
    and takes no broadcast away, and [t] does not go to sleep in its turn. *)
Lemma wake_ok_pending y t s' own' p' m : wakes p' = true -> wake_ok (mk_system s' own' (<[t := p']> (pcs y)) m).
Proof. intros Hw u i _ _. right. exists t, p'. split; [apply lookup_insert_eq|exact Hw]. Qed.

Lemma wake_ok_same y t p s' own' p' :
  wake_ok y -> pcs y !! t = Some p -> running_thread s' = running_thread (scheduler y) ->
  wakes p = false -> (forall i, p' = Sleeping i -> running_thread s' <> i) ->
  wake_ok (mk_system s' own' (<[t := p']> (pcs y)) (main y)).
Proof.
  intros Hy Ht Hr Hw Hs u i Hu Hi. cbn in Hu, Hi. destruct (decide (u = t)) as [->|Hne].
  - rewrite lookup_insert_eq in Hu. injection Hu as Hu. now destruct (Hs i Hu).
  - rewrite lookup_insert_ne in Hu by congruence. rewrite Hr in Hi.
    destruct (Hy u i Hu Hi) as [Hm|(v & q & Hv & Hq)]; [now left|]. right. exists v, q. split; [|exact Hq]. cbn.
    rewrite lookup_insert_ne; [exact Hv|]. intros <-. congruence.
Qed.

Lemma registered_num s i t : sched_ok s -> registered s !! i = Some t -> Z.of_nat i < num_threads s.
Proof. intros OK H. apply lookup_lt_Some in H. unfold registered in H. rewrite length_take in H. lia. Qed.

(** The turn passes on while no other thread is between its two calls and no
    thread holds the lock. *)
Lemma pc_ok_turn s t q i rs :
  pc_ok s None t q -> (running_thread s <> NO_THREAD -> i <> NO_THREAD) ->
  (enabled s = true -> in_access q = false) -> pc_ok (with_turn s i rs) None t q.
Proof.
  intros [H1 H2 H3 H4 H5] Hi Hacc. split; [exact H1|exact H2| | |].
  - intros j Hj. destruct (H3 j Hj) as (? & ? & Hn). split; [assumption|]. split; [assumption|]. exact (Hi Hn).
  - intros j ->. destruct H1 as [H1 _]. now specialize (H1 eq_refl).
  - intros He Ha. rewrite (Hacc He) in Ha. discriminate.
Qed.

(** A thread that holds no lock, has not finished and goes to a place with
    known obligations. *)
Lemma pc_ok_plain s own t p p' :
  pc_ok s own t p -> holds_lock p = false -> is_done p = is_done p' -> holds_lock p' = false ->
  (forall i, own_index p' = Some i -> 0 <= i /\ registered s !! Z.to_nat i = Some t /\ running_thread s <> NO_THREAD) ->
  (enabled s = true -> in_access p' = true -> has_turn s t) -> pc_ok s own t p'.
Proof.
  intros [H1 H2 H3 H4 H5] Hp Hd Hp' Hw Ha. split; [|now rewrite <- Hd|exact Hw| |exact Ha].
  - rewrite <- H1, Hp, Hp'. reflexivity.
  - intros i ->. discriminate.
Qed.

(** ** A thread that finishes *)

Definition with_finished (s : sched) (i : nat) : sched :=
  mk_sched (mt_debug_enabled s) (rand_state s) (running_thread s) (threads s) (num_threads s)
           (num_running_threads s - 1) (<[i := 1]> (finished s)).

Section finish.
Variables (s : sched) (t : Z) (i : nat).
Hypothesis OK : sched_ok s.
Hypothesis Turn : turn_ok s.
Hypothesis Reg : registered s !! i = Some t.
Hypothesis Unf : finished s !! i = Some 0.
Hypothesis Started : running_thread s <> NO_THREAD.

Lemma with_finished_ok : sched_ok (with_finished s i).
Proof.
  pose proof (registered_num _ _ _ OK Reg). destruct OK as [H1 H2 H3 H4 H5].
  constructor; cbn; [exact H1|now rewrite length_insert|exact H3|exact H4|].
  unfold done_flags. cbn. rewrite take_insert_lt by lia. change (take _ (finished s)) with (done_flags s).
  rewrite unfinished_insert; [lia|]. unfold done_flags. rewrite lookup_take_lt by lia. exact Unf.
Qed.

Lemma num_running_pos : 0 < num_running_threads s.
Proof.
  rewrite (so_count _ OK). apply (unfinished_pos _ i). unfold done_flags.
  pose proof (registered_num _ _ _ OK Reg). rewrite lookup_take_lt by lia. exact Unf.
Qed.

Lemma thread_done_returns :
  exists k rs, thread_done_locked t s = Returns (with_turn (with_finished s i) k rs) /\
    turn_ok (with_turn (with_finished s i) k rs) /\ k <> NO_THREAD /\
    (running_thread s <> Z.of_nat i -> k = running_thread s).
Proof.
  pose proof (registered_num _ _ _ OK Reg) as Hb. pose proof num_running_pos as Hp. pose proof with_finished_ok as OK'.
  destruct Turn as [|[Hr Hrun]]; [contradiction|].
  assert (Hlen : 0 <= Z.of_nat i < Z.of_nat (length (finished s))).
  { rewrite (so_finished _ OK). pose proof (so_num _ OK). lia. }
  assert (E : thread_done_locked t s =
    if running_thread s =? Z.of_nat i then next_turn_locked (with_finished s i) else Returns (with_finished s i)).
  { unfold thread_done_locked. rewrite (thread_index_at s i t OK Started Reg). cbn [mbind outcome_bind].
    rewrite (array_set_at _ _ 1 Hlen). cbn [mbind outcome_bind]. rewrite Nat2Z.id.
    change (mk_sched _ _ _ _ _ _ _) with (with_finished s i).
    rewrite (thread_index_at (with_finished s i) i t OK' Started Reg). reflexivity. }
  rewrite E. destruct (Z.eqb_spec (running_thread s) (Z.of_nat i)) as [Er|Hne].
  - destruct (next_turn_returns _ OK') as (k & rs & Ek & Hk & Hpos & Hzero).
    + intros Hz. right. cbn in *. split; [exact Hr|now left].
    + exists k, rs. split; [exact Ek|]. split; [exact Hk|]. split; [|congruence].
      cbn in Hpos, Hzero. unfold NO_THREAD. destruct (Z.eq_dec (num_running_threads s - 1) 0); [rewrite Hzero by assumption; lia|].
      destruct Hpos as [Hge _]; [lia|]. lia.
  - exists (running_thread s), (rand_state s). split; [reflexivity|]. split; [|split; [exact Started|reflexivity]].
    right. cbn. split; [exact Hr|]. right. rewrite list_lookup_insert_ne by lia. destruct Hrun; [lia|assumption].
Qed.

(** What the other threads know is still true. *)
Lemma finish_others u q k rs :
  u <> t -> pc_ok s (Some t) u q -> k <> NO_THREAD -> (running_thread s <> Z.of_nat i -> k = running_thread s) ->
  pc_ok (with_turn (with_finished s i) k rs) None u q.
Proof.
  intros Hne [H1 H2 H3 H4 H5] Hk Hrun.
  assert (Hfree : holds_lock q = false) by (destruct (holds_lock q); [destruct H1 as [H1 _]; specialize (H1 eq_refl); congruence|reflexivity]).
  split.
  - rewrite Hfree. split; discriminate.
  - intros j Hj. cbn. rewrite list_lookup_insert_ne; [now apply H2|]. intros ->. cbn in Hj. unfold registered in *. cbn in *. congruence.
  - intros j Hj. destruct (H3 j Hj) as (? & ? & ?). now split; [|split].
  - intros j ->. discriminate.
  - intros He Ha. destruct (H5 He Ha) as [Hge Hu].
    assert (running_thread s <> Z.of_nat i). { intros E. rewrite E, Nat2Z.id in Hu. congruence. }
    split; cbn; rewrite (Hrun ltac:(assumption)); [exact Hge|exact Hu].
Qed.

(** The thread itself is finished. *)
Lemma finish_self k rs : pc_ok (with_turn (with_finished s i) k rs) None t Announcing.
Proof.
  split; try discriminate; [split; discriminate|].
  intros j Hj. assert (j = i) as ->.
  { apply (NoDup_lookup _ _ _ _ (so_nodup _ OK) Hj Reg). }
  cbn. rewrite list_lookup_insert_eq; [split; [discriminate|congruence]|]. apply lookup_lt_Some in Unf. exact Unf.
Qed.

End finish.

(** ** Every step keeps the invariant and no step stops the program *)

(** A call that returned an index ran after the start. *)
Lemma index_started s t i : thread_index s t = Returns i -> running_thread s <> NO_THREAD.
Proof. unfold thread_index. intros H E. rewrite E in H. discriminate. Qed.

Lemma done_started s t s' : thread_done_locked t s = Returns s' -> running_thread s <> NO_THREAD.
Proof. unfold thread_done_locked, thread_index. intros H E. rewrite E in H. discriminate. Qed.

Section step.
Variable y : system.
Hypothesis Inv : inv y.
#[local] Abbreviation s := (scheduler y).

Lemma pc_registered t p : pcs y !! t = Some p -> exists i, registered s !! i = Some t.
Proof. intros H. apply list_elem_of_lookup. apply (iv_registered _ Inv). eauto. Qed.

(** The owner of the lock is the one thread at a place under the lock. *)
Lemma lock_holder t p : pcs y !! t = Some p -> holds_lock p = true -> lock_owner y = Some t.
Proof. intros H. apply (po_lock _ _ _ _ (iv_pcs _ Inv _ _ H)). Qed.

Lemma inv_plain t p p' :
  pcs y !! t = Some p -> holds_lock p = false -> is_done p = is_done p' -> holds_lock p' = false ->
  wakes p = false -> (forall i, p' <> Sleeping i) ->
  (forall i, own_index p' = Some i -> 0 <= i /\ registered s !! Z.to_nat i = Some t /\ running_thread s <> NO_THREAD) ->
  (enabled s = true -> in_access p' = true -> has_turn s t) ->
  inv (mk_system s (lock_owner y) (<[t := p']> (pcs y)) (main y)).
Proof.
  intros Ht H1 H2 H3 H4 H5 Hw Ha. apply (inv_move y t p); auto using iv_sched, iv_turn.
  - now apply (pc_ok_plain _ _ _ p); auto using iv_pcs.
  - apply (wake_ok_same y t p); auto using iv_wake. intros i E. now destruct (H5 i).
Qed.

(** The thread [t] takes or releases the lock. *)
Lemma inv_relock t p own' p' :
  pcs y !! t = Some p -> (lock_owner y = None \/ lock_owner y = Some t) -> pc_ok s own' t p' ->
  (own' = Some t \/ own' = None) -> wakes p = false -> (forall i, p' = Sleeping i -> running_thread s <> i) ->
  inv (mk_system s own' (<[t := p']> (pcs y)) (main y)).
Proof.
  intros Ht Hl Hp Ho Hw Hs. apply (inv_move y t p); auto using iv_sched, iv_turn.
  - intros u Hu. left. destruct Ho; congruence.
  - intros u q Hne Hu [G1 G2 G3 G4 G5]. split; try assumption. rewrite G1. destruct Hl as [->| ->], Ho as [->| ->]; split; congruence.
  - apply (wake_ok_same y t p); auto using iv_wake.
Qed.

(** What a thread under the lock, or about to take it, may go to. *)
Lemma pc_ok_relock own own' t p p' :
  pc_ok s own t p -> (holds_lock p' = true <-> own' = Some t) -> is_done p = is_done p' ->
  (forall i, own_index p' = Some i -> own_index p = Some i) ->
  (forall i, p' = Deciding i -> running_thread s <> i) ->
  (enabled s = true -> in_access p' = true -> has_turn s t) -> pc_ok s own' t p'.
Proof. intros [G1 G2 G3 G4 G5] H1 H2 H3 H4 H5. split; try assumption; [now rewrite <- H2|]. intros i Hi. apply G3. auto. Qed.

Lemma turn_not_none i rs : turn_ok (with_turn s i rs) -> running_thread s <> NO_THREAD ->
  (0 < num_running_threads s -> 0 <= i < num_threads s /\ finished s !! Z.to_nat i = Some 0) ->
  (num_running_threads s = 0 -> i = running_thread s) -> i <> NO_THREAD.
Proof.
  intros _ Hr Hpos Hz. pose proof (running_bound s (iv_sched _ Inv)). unfold NO_THREAD in *.
  destruct (Z.eq_dec (num_running_threads s) 0); [now rewrite Hz|]. destruct Hpos as [? _]; lia.
Qed.

(** The critical section of [next_turn]. *)
Lemma next_turn_step :
  exists i rs, next_turn s = Returns (with_turn s i rs) /\ sched_ok (with_turn s i rs) /\ turn_ok (with_turn s i rs) /\
    (running_thread s <> NO_THREAD -> i <> NO_THREAD).
Proof.
  destruct (next_turn_returns s (iv_sched _ Inv)) as (i & rs & E & Ht & Hpos & Hz); [intros _; apply (iv_turn _ Inv)|].
  exists i, rs. split; [exact E|]. split; [apply with_turn_ok, (iv_sched _ Inv)|]. split; [exact Ht|].
  intros Hr. now apply (turn_not_none i rs).
Qed.

Lemma must_wait_false i : must_wait s i = false -> enabled s = true -> running_thread s = i.
Proof. unfold must_wait. intros H He. rewrite He in H. cbn in H. now apply negb_false_iff, Z.eqb_eq in H. Qed.

Lemma must_wait_true i : must_wait s i = true -> running_thread s <> i.
Proof. unfold must_wait. intros H. apply andb_prop in H as [_ H]. now apply negb_true_iff, Z.eqb_neq in H. Qed.

(** The three critical sections. *)
Lemma turn_step_inv t s' :
  pcs y !! t = Some Passing -> lock_owner y = None -> next_turn s = Returns s' ->
  inv (mk_system s' None (<[t := Notifying]> (pcs y)) (main y)).
Proof.
  intros Ht Hl En. pose proof (iv_pcs _ Inv _ _ Ht) as Hp. destruct next_turn_step as (i & rs & E & G1 & G2 & G3).
  rewrite E in En. injection En as <-. rewrite Hl in Hp. apply (inv_move y t Passing); auto.
  - apply pc_ok_turn; [|exact G3|reflexivity]. now apply (pc_ok_plain _ _ _ Passing).
  - discriminate.
  - intros u q Hne Hu Hq. rewrite Hl in Hq. apply pc_ok_turn; [exact Hq|exact G3|]. intros He. destruct (in_access q) eqn:Eq; [|reflexivity].
    destruct Hne. eapply has_turn_unique; [now apply Hq|now apply Hp].
  - now apply wake_ok_pending.
Qed.

Lemma done_step_inv t s' :
  pcs y !! t = Some InDone -> thread_done_locked t s = Returns s' ->
  inv (mk_system s' None (<[t := Announcing]> (pcs y)) (main y)).
Proof.
  intros Ht Ed. pose proof (lock_holder t _ Ht eq_refl) as Eo. destruct (pc_registered t _ Ht) as [k Hk].
  assert (Unf : finished s !! k = Some 0) by (now apply (po_finished _ _ _ _ (iv_pcs _ Inv _ _ Ht) k Hk)).
  pose proof (done_started _ _ _ Ed) as Hr.
  destruct (thread_done_returns s t k (iv_sched _ Inv) (iv_turn _ Inv) Hk Unf Hr) as (j & rs & E & G1 & G2 & G3).
  rewrite E in Ed. injection Ed as <-. apply (inv_move y t InDone); auto.
  - apply with_turn_ok, (with_finished_ok s t); auto using iv_sched.
  - apply (finish_self s t); auto using iv_sched.
  - discriminate.
  - intros u q Hne Hu Hq. rewrite Eo in Hq. eapply finish_others; eauto.
  - now apply wake_ok_pending.
Qed.

Lemma thread_moves_inv t p s' own' p' :
  pcs y !! t = Some p -> wakes p = false -> thread_step t s (lock_owner y) p (Some (s', own', p')) ->
  inv (mk_system s' own' (<[t := p']> (pcs y)) (main y)).
Proof.
  intros Ht Hnw Hs. pose proof (iv_pcs _ Inv _ _ Ht) as Hp. destruct (pc_registered t p Ht) as [k Hk].
  inversion Hs; subst; clear Hs; try discriminate; try (eapply inv_plain; [exact Ht|reflexivity..|discriminate|discriminate|cbn; congruence]).
  - (* the index *)
    match goal with H : thread_index _ _ = _ |- _ => rename H into Ei end.
    pose proof (index_started _ _ _ Ei) as Hr.
    rewrite (thread_index_at s k t (iv_sched _ Inv) Hr Hk) in Ei. injection Ei as <-.
    apply (inv_plain t Indexing); try discriminate; try reflexivity; try exact Ht.
    intros i [= <-]. rewrite Nat2Z.id. split; [lia|]. now split.
  - (* the lock is taken *)
    match goal with H : lock_owner y = None |- _ => rename H into Hl end.
    apply (inv_relock t (Locking i)); auto; try done. apply (pc_ok_relock _ _ _ _ _ Hp); try done.
  - (* the access *)
    match goal with H : must_wait _ _ = _ |- _ => rename H into Hm end.
    destruct (po_index _ _ _ _ Hp i eq_refl) as (Hi & Hreg & _).
    apply (inv_relock t (Testing i)); auto; try done; [right; now apply (lock_holder t (Testing i))|].
    apply (pc_ok_relock _ _ _ _ _ Hp); try done. intros He _. split; rewrite (must_wait_false i Hm He); [lia|exact Hreg].
  - (* not the turn *)
    match goal with H : must_wait _ _ = _ |- _ => rename H into Hm end.
    pose proof (lock_holder t (Testing i) Ht eq_refl) as Eo. rewrite Eo in Hp |- *.
    apply (inv_relock t (Testing i)); auto; try done.
    apply (pc_ok_relock _ _ _ _ _ Hp); try done. intros j [= <-]. now apply must_wait_true.
  - (* to sleep *)
    apply (inv_relock t (Deciding i)); auto; try done; [right; now apply (lock_holder t (Deciding i))| |].
    + apply (pc_ok_relock _ _ _ _ _ Hp); done.
    + intros j [= <-]. now apply (po_decided _ _ _ _ Hp).
  - (* the end of the access *)
    apply (inv_plain t Accessing); try discriminate; try reflexivity; try exact Ht. intros He _. now apply Hp.
  - match goal with H : lock_owner y = None |- _ => rewrite H; now apply turn_step_inv end.
  - (* the lock is taken *)
    apply (inv_relock t Finishing); auto; try done. apply (pc_ok_relock _ _ _ _ _ Hp); done.
  - now apply done_step_inv.
Qed.

(** The step of a thread that makes a broadcast changes nothing else. *)
Lemma wakes_step t p s' own' p' :
  wakes p = true -> thread_step t s (lock_owner y) p (Some (s', own', p')) ->
  s' = s /\ own' = lock_owner y /\ is_done p' = is_done p /\ holds_lock p' = false /\ own_index p' = None /\ in_access p' = false.
Proof. intros Hw Hs. inversion Hs; subst; try discriminate; done. Qed.

Lemma thread_step_inv t p s' own' p' :
  pcs y !! t = Some p -> thread_step t s (lock_owner y) p (Some (s', own', p')) ->
  inv (mk_system s' own' (moved t p p' (pcs y)) (main y)).
Proof.
  intros Ht Hs. unfold moved. destruct (wakes p) eqn:Hw; [|now apply (thread_moves_inv t p)].
  destruct (wakes_step _ _ _ _ _ Hw Hs) as (-> & -> & G1 & G2 & G3 & G4).
  assert (Inv1 : inv (mk_system s (lock_owner y) (<[t := p']> (pcs y)) Starting)).
  { apply (inv_move y t p); auto using iv_sched, iv_turn.
    - apply (pc_ok_plain _ _ _ p); auto using iv_pcs; try congruence. now destruct p.
    - intros u i _ _. left. discriminate. }
  exact (inv_broadcast _ (main y) Inv1).
Qed.

Lemma thread_never_stops t p : pcs y !! t = Some p -> ~ thread_step t s (lock_owner y) p None.
Proof.
  intros Ht Hs. destruct (pc_registered t p Ht) as [k Hk]. pose proof (iv_pcs _ Inv _ _ Ht) as [Ho Hf _ _ _].
  inversion Hs; subst; clear Hs.
  - match goal with H : thread_index _ _ = _ |- _ => rename H into Ei end.
    destruct (Z.eq_dec (running_thread s) NO_THREAD) as [E|Hr].
    + unfold thread_index in Ei. rewrite E in Ei. discriminate.
    + rewrite (thread_index_at s k t (iv_sched _ Inv) Hr Hk) in Ei. discriminate.
  - destruct next_turn_step as (i & rs & E & _). congruence.
  - match goal with H : thread_done_locked _ _ = _ |- _ => rename H into Ed end.
    destruct (Z.eq_dec (running_thread s) NO_THREAD) as [E|Hr].
    + unfold thread_done_locked, thread_index in Ed. rewrite E in Ed. discriminate.
    + assert (Unf : finished s !! k = Some 0) by (now apply (Hf k Hk)).
      destruct (thread_done_returns s t k (iv_sched _ Inv) (iv_turn _ Inv) Hk Unf Hr) as (j & rs & E & _). congruence.
Qed.

(** Disabling the scheduler. *)
Lemma pc_ok_disabled own t p : pc_ok s own t p -> pc_ok (ct_mtdbg_set_enabled 0 s) own t p.
Proof. intros [F1 F2 F3 F4 _]. split; try assumption. cbn. discriminate. Qed.

Lemma disabled_ok : sched_ok (ct_mtdbg_set_enabled 0 s) /\ turn_ok (ct_mtdbg_set_enabled 0 s).
Proof. split; [destruct (iv_sched _ Inv); now constructor|exact (iv_turn _ Inv)]. Qed.

(** Starting it. *)
Lemma start_inv s' :
  lock_owner y = None -> running_thread s = NO_THREAD -> ct_mtdbg_start s = Returns s' ->
  inv (mk_system s' (lock_owner y) (pcs y) Starting).
Proof.
  intros Hl Hr Hs. destruct next_turn_step as (i & rs & E & G1 & G2 & G3).
  unfold ct_mtdbg_start in Hs. destruct (_ =? _); [discriminate|]. rewrite E in Hs. injection Hs as <-.
  constructor; cbn; [exact G1|exact G2|apply (iv_registered _ Inv)| |apply (iv_owner _ Inv)|intros t j _ _; now left].
  intros t p Ht. pose proof (iv_pcs _ Inv _ _ Ht) as Hp. rewrite Hl in Hp |- *. apply pc_ok_turn; [exact Hp|exact G3|].
  intros He. destruct (in_access p) eqn:Ep; [|reflexivity].
  destruct (po_turn _ _ _ _ Hp He Ep) as [Hge _]. rewrite Hr in Hge. unfold NO_THREAD in Hge. lia.
Qed.

Lemma step_inv a r : step a y r -> exists y', r = Some y' /\ inv y'.
Proof.
  intros Hs. inversion Hs; subst; clear Hs.
  - eexists. split; [reflexivity|]. now apply (thread_step_inv t p).
  - now destruct (thread_never_stops t p).
  - eexists. split; [reflexivity|]. now apply start_inv.
  - destruct next_turn_step as (i & rs & E & _). unfold ct_mtdbg_start, enabled in *.
    match goal with H1 : negb (?x =? 0) = true, H2 : (if ?x =? 0 then _ else _) = Stops |- _ => destruct (x =? 0); [discriminate|congruence] end.
  - eexists. split; [reflexivity|]. now apply inv_broadcast.
  - eexists. split; [reflexivity|]. destruct disabled_ok. destruct Inv as [G1 G2 G3 G4 G5 G6].
    split; cbn; try assumption; [intros t p Ht; now apply pc_ok_disabled, G4|intros t i _ _; now left].
  - eexists. split; [reflexivity|]. destruct disabled_ok.
    match goal with H : pcs y !! _ = Some Outside |- _ => rename H into Ht end.
    apply (inv_move y t Outside); auto.
    + apply pc_ok_disabled, (pc_ok_plain _ _ _ Outside); auto using iv_pcs; discriminate.
    + intros u q _ _. apply pc_ok_disabled.
    + now apply wake_ok_pending.
  - eexists. split; [reflexivity|].
    match goal with H : pcs y !! _ = Some (Sleeping _) |- _ => rename H into Ht end.
    apply (inv_plain t (Sleeping i)); try discriminate; try reflexivity; try exact Ht.
    intros j [= <-]. exact (po_index _ _ _ _ (iv_pcs _ Inv _ _ Ht) i eq_refl).
Qed.

End step.

(** ** The set-up *)

Lemma take_S_insert {A} (l : list A) n x : (n < length l)%nat -> take (S n) (<[n := x]> l) = take n l ++ [x].
Proof.
  intros H. erewrite take_S_r by now apply list_lookup_insert_eq. now rewrite take_insert_ge by lia.
Qed.

Lemma register_thread_ok t s :
  sched_ok s -> num_threads s < MAX_THREADS -> t ∉ registered s ->
  exists s', ct_mtdbg_register_thread t s = Returns s' /\ sched_ok s' /\ num_threads s' = num_threads s + 1 /\
    registered s' = registered s ++ [t] /\ done_flags s' = done_flags s ++ [0] /\
    running_thread s' = running_thread s /\ mt_debug_enabled s' = mt_debug_enabled s /\ rand_state s' = rand_state s.
Proof.
  intros [H1 H2 H3 H4 H5] Hlt Hn. unfold ct_mtdbg_register_thread. rewrite !array_set_at by lia. cbn [mbind outcome_bind].
  assert (Er : forall (l : list Z) x, Z.of_nat (length l) = MAX_THREADS ->
    take (Z.to_nat (num_threads s + 1)) (<[Z.to_nat (num_threads s) := x]> l) = take (Z.to_nat (num_threads s)) l ++ [x]).
  { intros l x Hl. replace (Z.to_nat (num_threads s + 1)) with (S (Z.to_nat (num_threads s))) by lia.
    apply take_S_insert. lia. }
  eexists. split; [reflexivity|]. unfold registered, done_flags. cbn.
  rewrite (Er _ t H1), (Er _ 0 H2). split; [|repeat split; reflexivity].
  constructor; cbn; rewrite ?length_insert; try assumption; [lia| |].
  - unfold registered. cbn. rewrite (Er _ _ H1). apply NoDup_app. split; [exact H4|]. split; [|apply NoDup_singleton].
    intros u Hu. rewrite list_elem_of_singleton. intros ->. now apply Hn.
  - unfold done_flags. cbn. rewrite (Er _ _ H2), unfinished_app, H5. reflexivity.
Qed.

Lemma register_all_ok ids : forall s,
  sched_ok s -> num_threads s + Z.of_nat (length ids) <= MAX_THREADS -> NoDup (registered s ++ ids) ->
  exists s', register_all ids s = Returns s' /\ sched_ok s' /\ registered s' = registered s ++ ids /\
    done_flags s' = done_flags s ++ replicate (length ids) 0 /\
    running_thread s' = running_thread s /\ mt_debug_enabled s' = mt_debug_enabled s /\ rand_state s' = rand_state s.
Proof.
  induction ids as [|t ids IH]; intros s OK Hle Hn; cbn [register_all length] in *.
  - exists s. rewrite !app_nil_r. repeat split; apply OK || reflexivity.
  - destruct (register_thread_ok t s OK) as (s1 & E1 & OK1 & N1 & R1 & D1 & T1 & M1 & S1); [lia| |].
    { apply NoDup_app in Hn. destruct Hn as (_ & Hn & _). intros Hin. apply (Hn t Hin). left. }
    rewrite E1. cbn [mbind outcome_bind].
    destruct (IH s1 OK1) as (s' & E & OK' & R & D & T & M & S); [lia|now rewrite R1, <- app_assoc|].
    exists s'. split; [exact E|]. split; [exact OK'|]. rewrite R, D, R1, D1, <- !app_assoc. repeat split; congruence.
Qed.

Lemma set_up_inv seed ids :
  NoDup ids -> Z.of_nat (length ids) <= MAX_THREADS ->
  exists y, set_up seed ids = Returns y /\ inv y /\ registered (scheduler y) = ids /\
    done_flags (scheduler y) = replicate (length ids) 0 /\
    running_thread (scheduler y) = NO_THREAD /\ enabled (scheduler y) = true /\ rand_state (scheduler y) = seed /\
    lock_owner y = None /\ main y = Idle /\ pcs y = list_to_map (map (fun t => (t, Outside)) ids).
Proof.
  intros Hn Hl. unfold set_up.
  set (s0 := ct_mtdbg_seed seed (ct_mtdbg_set_enabled 1 sched_init)).
  destruct (register_all_ok ids s0) as (s & E & OK & R & D & T & M & S); [|exact Hl|exact Hn|].
  { constructor; try reflexivity; cbn; [unfold MAX_THREADS; lia|constructor]. }
  rewrite E. cbn [mbind outcome_bind]. eexists. split; [reflexivity|]. cbn.
  change (registered s0) with (@nil Z) in R. change (done_flags s0) with (@nil Z) in D. cbn in R, D, S.
  split; [|repeat split; try assumption; unfold enabled; now rewrite M].
  assert (Hlook : forall t p, (list_to_map (map (fun t => (t, Outside)) ids) : gmap Z pc) !! t = Some p ->
    p = Outside /\ t ∈ ids).
  { intros t p Ht. apply elem_of_list_to_map_2 in Ht. apply list_elem_of_fmap in Ht.
    destruct Ht as (u & [= -> ->] & Hu). now split. }
  constructor; cbn; [exact OK|left; exact T| | |discriminate|].
  - intros t. rewrite R. split; [intros [p Hp]; now apply Hlook in Hp|]. intros Ht. exists Outside.
    apply elem_of_list_to_map_1; [rewrite <- list_fmap_compose, (list_fmap_ext _ id), list_fmap_id; [exact Hn|reflexivity]|].
    apply list_elem_of_fmap. now exists t.
  - intros t p Ht. apply Hlook in Ht. destruct Ht as [-> Hin].
    split; try discriminate; [split; discriminate|]. intros i Hi. split; [reflexivity|]. intros _.
    pose proof (registered_num _ _ _ OK Hi). rewrite <- (lookup_take_lt _ (Z.to_nat (num_threads s))) by lia.
    change (done_flags s !! i = Some 0). rewrite D. apply lookup_replicate. split; [reflexivity|].
    rewrite <- R. now apply lookup_lt_Some in Hi.
  - intros t i Ht. apply Hlook in Ht. now destruct Ht.
Qed.

Lemma steps_inv y y' : inv y -> rtc next y y' -> inv y'.
Proof.
  intros H Hr. induction Hr as [y|y y1 y2 [a Hs] Hr IH]; [exact H|]. apply IH.
  destruct (step_inv y H _ _ Hs) as (y' & [= <-] & H'). exact H'.
Qed.

Lemma reachable_system_inv y : reachable y -> inv y.
Proof.
  intros (seed & ids & y0 & Hn & Hl & E & Hr). destruct (set_up_inv seed ids Hn Hl) as (y1 & E1 & H1 & _).
  rewrite E in E1. injection E1 as <-. now apply (steps_inv y0).
Qed.

(** ** Accesses are serialised *)

Lemma turn_holder y :
  inv y -> running_thread (scheduler y) <> NO_THREAD ->
  (exists t p, pcs y !! t = Some p /\ is_done p = false) ->
  exists r p, has_turn (scheduler y) r /\ pcs y !! r = Some p /\ is_done p = false.
Proof.
  intros Inv Hr (t & p & Ht & Hp). destruct (iv_turn _ Inv) as [|[Hb Hun]]; [contradiction|].
  destruct (pc_registered y Inv t p Ht) as [k Hk]. pose proof (iv_sched _ Inv) as OK.
  assert (Hk0 : finished (scheduler y) !! k = Some 0) by now apply (po_finished _ _ _ _ (iv_pcs _ Inv _ _ Ht) _ Hk).
  pose proof (num_running_pos _ t k OK Hk Hk0) as Hpos. destruct Hun as [E|Hun]; [lia|].
  destruct (lookup_lt_is_Some_2 (registered (scheduler y)) (Z.to_nat (running_thread (scheduler y)))) as [r Hreg].
  { unfold registered. rewrite length_take. destruct OK. lia. }
  destruct (proj2 (iv_registered _ Inv r)) as [q Hq]; [now apply list_elem_of_lookup_2 in Hreg|].
  exists r, q. split; [split; [lia|exact Hreg]|]. split; [exact Hq|]. now apply (po_finished _ _ _ _ (iv_pcs _ Inv _ _ Hq) _ Hreg).
Qed.

(** C32. The scheduler does what the tests rely on, for up to 128 threads and
    every seed: in every reachable state no step stops in an assertion or
    leaves an array; while the scheduler is enabled at most one thread is
    between the end of its wait in [mt_debug_wait_for_access] and the moment
    [mt_debug_access_done] passes the turn on, and it is the one that has the
    turn; and after the start the turn belongs to a thread that has not
    finished, if there is one. *)
Theorem accesses_serialised y :
  reachable y ->
  (forall a, ~ step a y None) /\
  (forall t p, enabled (scheduler y) = true -> pcs y !! t = Some p -> in_access p = true ->
     has_turn (scheduler y) t /\
     forall u q, pcs y !! u = Some q -> in_access q = true -> u = t) /\
  (running_thread (scheduler y) <> NO_THREAD -> (exists t p, pcs y !! t = Some p /\ is_done p = false) ->
   exists r p, has_turn (scheduler y) r /\ pcs y !! r = Some p /\ is_done p = false).
Proof.
  intros H%reachable_system_inv. split; [|split; [|now apply turn_holder]].
  - intros a Hs. destruct (step_inv y H _ _ Hs) as (y' & E & _). discriminate.
  - intros t p He Ht Hp. pose proof (po_turn _ _ _ _ (iv_pcs _ H _ _ Ht) He Hp) as Ha.
    split; [exact Ha|]. intros u q Hu Hq.
    exact (has_turn_unique _ _ _ (po_turn _ _ _ _ (iv_pcs _ H _ _ Hu) He Hq) Ha).
Qed.

(** ** Every unfinished thread can be chosen *)

(** A state of the generator whose next number is [d]. *)
Definition seed_for (d : Z) : Z := u64 (13877824140714322085 * (d * 2 ^ 32 - 1)).

Lemma seed_for_dword d : 0 <= d < 2 ^ 32 -> 0 <= seed_for d < 2 ^ 64 /\ fst (rand_dword_r (seed_for d)) = d.
Proof.
  intros Hd. split; [apply wrap_bound; lia|]. unfold rand_dword_r, seed_for, rand_step, wrap. cbn [fst].
  rewrite Z.add_mod, Z.mul_mod_idemp_r, <- Z.add_mod, Z.shiftr_div_pow2 by lia.
  replace (6364136223846793005 * (13877824140714322085 * (d * 2 ^ 32 - 1)) + 1)
    with (d * 2 ^ 32 + (4787856489426250814 * (d * 2 ^ 32 - 1)) * 2 ^ 64) by lia.
  rewrite Z.mod_add by lia. rewrite (Z.mod_small (d * 2 ^ 32)) by lia.
  rewrite Z.div_mul by lia. apply Z.mod_small. lia.
Qed.

(** The number that selects the thread with [rank] unfinished threads before
    it, of [n]. *)
Definition dword_for (rank n : Z) : Z :=
  if rank + 1 =? n then 2 ^ 32 - 1 else ((rank + 1) * 2 ^ 24 / n) * 2 ^ 8.

Lemma dword_for_bound rank n : 0 <= rank < n -> 0 <= dword_for rank n < 2 ^ 32.
Proof.
  intros H. unfold dword_for. destruct (Z.eqb_spec (rank + 1) n); [lia|].
  assert (0 <= (rank + 1) * 2 ^ 24 / n < 2 ^ 24); [|lia].
  split; [apply Z.div_pos; lia|apply Z.div_lt_upper_bound; nia].
Qed.

(** Its product with the number of threads is just below the next rank. *)
Lemma dword_for_product rank n :
  0 <= rank < n -> n <= MAX_THREADS ->
  let r := round_binary32 (dword_for rank n) in
  (rank + 1) * 2 ^ 32 - n * 2 ^ 8 <= n * r <= (rank + 1) * 2 ^ 32.
Proof.
  intros H Hn. unfold dword_for, MAX_THREADS in *. destruct (Z.eqb_spec (rank + 1) n) as [E|Hne].
  - change (round_binary32 (2 ^ 32 - 1)) with (2 ^ 32). cbv zeta. lia.
  - set (q := (rank + 1) * 2 ^ 24 / n). cbv zeta.
    pose proof (Z.mul_div_le ((rank + 1) * 2 ^ 24) n ltac:(lia)) as H1.
    pose proof (Z.mul_succ_div_gt ((rank + 1) * 2 ^ 24) n ltac:(lia)) as H2. fold q in H1, H2.
    assert (0 <= q < 2 ^ 24) by (split; [apply Z.div_pos; lia|apply Z.div_lt_upper_bound; nia]).
    rewrite binary32_id; [lia|lia|apply binary32_scaled; lia].
Qed.

(** The seed that gives the turn to the thread [j] of those that have the
    flags [fl]. *)
Definition seed_choosing (fl : list Z) (j : nat) : Z :=
  seed_for (dword_for (unfinished (take j fl)) (unfinished fl)).

Lemma next_turn_chooses s j :
  sched_ok s -> Z.of_nat j < num_threads s -> finished s !! j = Some 0 -> rand_state s = seed_choosing (done_flags s) j ->
  0 <= rand_state s < 2 ^ 64 /\ next_turn s = Returns (with_turn s (Z.of_nat j) (snd (rand_dword_r (rand_state s)))).
Proof.
  intros OK Hj Hf Eseed. pose proof (so_num _ OK) as Hnum. pose proof (running_bound _ OK) as Hrb.
  assert (Hd : done_flags s !! j = Some 0) by (unfold done_flags; rewrite lookup_take_lt by lia; exact Hf).
  unfold seed_choosing in Eseed. rewrite <- (so_count _ OK) in Eseed. set (rank := unfinished (take j (done_flags s))) in *.
  assert (Hrank : 0 <= rank < num_running_threads s).
  { rewrite (so_count _ OK), <- (take_drop_middle _ _ _ Hd), unfinished_app. fold rank. cbn [unfinished Z.eqb].
    pose proof (unfinished_nonneg (take j (done_flags s))). pose proof (unfinished_nonneg (drop (S j) (done_flags s))). lia. }
  destruct (seed_for_dword _ (dword_for_bound _ _ Hrank)) as [Hs Ed]. rewrite <- Eseed in Hs, Ed. split; [exact Hs|].
  pose proof (dword_for_product rank _ Hrank ltac:(lia)) as Hp. cbv zeta in Hp. unfold MAX_THREADS in *.
  destruct (next_turn_selects s j) as (E & _); [lia| |exact E].
  split; [exact Hd|]. fold rank. cbv zeta. rewrite Ed. unfold turn_limit.
  set (P := num_running_threads s * _) in *. split.
  - apply round_le; [nia|apply binary32_scaled; lia|lia].
  - left. apply Z.lt_le_trans with (rank * 2 ^ 32 + 2 ^ 31); [lia|]. apply round_ge; [nia| |lia].
    exists (2 * rank + 1), 31. lia.
Qed.

Lemma seeded_ok seed s : sched_ok s -> sched_ok (ct_mtdbg_seed seed s).
Proof. intros [? ? ? ? ?]. now constructor. Qed.

(** C35. The scheduler is not biased away from any schedule: whichever
    unfinished thread one wants next, there is a seed for which [next_turn]
    returns and gives the turn to it; [next_turn] changes nothing else but
    the state of the generator. *)
Theorem next_turn_can_choose s j :
  sched_ok s -> Z.of_nat j < num_threads s -> finished s !! j = Some 0 ->
  exists seed, 0 <= seed < 2 ^ 64 /\
    next_turn (ct_mtdbg_seed seed s) = Returns (with_turn s (Z.of_nat j) (snd (rand_dword_r seed))).
Proof.
  intros OK Hj Hf. exists (seed_choosing (done_flags s) j).
  exact (next_turn_chooses (ct_mtdbg_seed (seed_choosing (done_flags s) j) s) j (seeded_ok _ _ OK) Hj Hf eq_refl).
Qed.

(** ** Progress *)

(** The calls that are under way come to a step in which some thread begins an
    access to the trie, or has finished. *)
Definition progress (y : system) : Prop :=
  exists t y1 y2, rtc goes_on y y1 /\ step (ByThread t) y1 (Some y2) /\
    (pcs y2 !! t = Some Accessing \/ pcs y2 !! t = Some Finished).

Lemma progress_later y y' : goes_on y y' -> progress y' -> progress y.
Proof. intros H (u & y1 & y2 & Hr & Hn). exists u, y1, y2. split; [|exact Hn]. now apply rtc_l with y'. Qed.

Lemma goes_on_inv y y' : inv y -> goes_on y y' -> inv y'.
Proof. intros Inv [[t Hs]|Hs]; destruct (step_inv y Inv _ _ Hs) as (y1 & [= <-] & H); exact H. Qed.

Lemma moved_lookup t p p' m : moved t p p' m !! t = Some (if wakes p then wake p' else p').
Proof. unfold moved. destruct (wakes p); [apply broadcast_lookup; exists p'; split; [|reflexivity]|]; apply lookup_insert_eq. Qed.

Lemma moved_lookup_ne t p p' m u q :
  u <> t -> moved t p p' m !! u = Some q -> exists q', m !! u = Some q' /\ (q = q' \/ q = wake q').
Proof.
  intros Hne. unfold moved. destruct (wakes p); [intros (q' & Hq & ->)%broadcast_lookup|intros Hq];
    rewrite lookup_insert_ne in Hq by congruence; eauto.
Qed.

(** Where a broadcast is due, it can be made. *)
Lemma wakes_steps t s own p : wakes p = true -> exists p', thread_step t s own p (Some (s, own, p')) /\ wake p' = p'.
Proof. destruct p; try discriminate; intros _; eexists; (split; [constructor|reflexivity]). Qed.

Lemma progress_now t y p s' own' p' :
  pcs y !! t = Some p -> thread_step t (scheduler y) (lock_owner y) p (Some (s', own', p')) ->
  p' = Accessing \/ p' = Finished -> progress y.
Proof.
  intros Hp Hs Hp'. exists t, y, (mk_system s' own' (moved t p p' (pcs y)) (main y)). split; [apply rtc_refl|].
  split; [now apply step_thread|]. cbn. rewrite moved_lookup. destruct (wakes p), Hp' as [->| ->]; auto.
Qed.

(** A step of [t], after which it is at [p']. *)
Lemma progress_after t y p s' own' p' :
  inv y -> pcs y !! t = Some p -> thread_step t (scheduler y) (lock_owner y) p (Some (s', own', p')) -> wake p' = p' ->
  (forall y', inv y' -> scheduler y' = s' -> lock_owner y' = own' -> pcs y' !! t = Some p' ->
     (forall u q, u <> t -> pcs y' !! u = Some q -> exists q', pcs y !! u = Some q' /\ (q = q' \/ q = wake q')) ->
     progress y') -> progress y.
Proof.
  intros Inv Hp Hs Hw Hgo. apply (progress_later y (mk_system s' own' (moved t p p' (pcs y)) (main y))); [left; exists t; now apply step_thread|].
  apply Hgo; try reflexivity; [now apply thread_step_inv| |intros u q; apply moved_lookup_ne].
  cbn. rewrite moved_lookup. now destruct (wakes p); rewrite ?Hw.
Qed.

(** [t] has the lock to itself and, as long as it matters, the turn. *)
Record may_go (t : Z) (y : system) : Prop := mk_may_go {
  mg_inv : inv y;
  mg_started : running_thread (scheduler y) <> NO_THREAD;
  mg_free : lock_owner y = None;
  mg_turn : enabled (scheduler y) = true -> has_turn (scheduler y) t;
}.

Section progress.
Variable t : Z.

(** A step of [t] that keeps the scheduler and leaves the lock free. *)
Lemma may_go_after y p p' :
  may_go t y -> pcs y !! t = Some p -> thread_step t (scheduler y) None p (Some (scheduler y, None, p')) -> wake p' = p' ->
  (forall y', may_go t y' -> scheduler y' = scheduler y -> pcs y' !! t = Some p' -> progress y') -> progress y.
Proof.
  intros [Inv Hr Hl Ht] Hp Hs Hw Hgo. apply (progress_after t y p (scheduler y) None p'); try assumption; [now rewrite Hl|].
  intros y' Inv' Es El Hp' _. apply Hgo; [|exact Es|exact Hp']. split; [exact Inv'|..]; now rewrite ?Es.
Qed.

Lemma progress_testing y i :
  pcs y !! t = Some (Testing i) -> must_wait (scheduler y) i = false -> progress y.
Proof. intros Hp Hm. eapply (progress_now t); [exact Hp|now apply step_turn|now left]. Qed.

Lemma progress_locking y i : may_go t y -> pcs y !! t = Some (Locking i) -> progress y.
Proof.
  intros [Inv Hr Hl Ht] Hp. apply (progress_after t y (Locking i) (scheduler y) (Some t) (Testing i)); try done; [now apply step_lock|].
  intros y' _ Es _ Hp' _. apply (progress_testing y' i Hp'). rewrite Es. unfold must_wait. destruct (enabled (scheduler y)) eqn:He; [|reflexivity].
  destruct (Ht eq_refl) as [Hge Hreg]. destruct (po_index _ _ _ _ (iv_pcs _ Inv _ _ Hp) i eq_refl) as (Hi & Hi' & _).
  pose proof (NoDup_lookup _ _ _ _ (so_nodup _ (iv_sched _ Inv)) Hreg Hi'). cbn. apply negb_false_iff, Z.eqb_eq. lia.
Qed.

Lemma progress_indexing y : may_go t y -> pcs y !! t = Some Indexing -> progress y.
Proof.
  intros Hm Hp. destruct (pc_registered y (mg_inv _ _ Hm) t _ Hp) as [k Hk].
  apply (may_go_after y Indexing (Locking (Z.of_nat k)) Hm Hp); [|reflexivity|intros y' Hm' _ Hp'; exact (progress_locking y' _ Hm' Hp')].
  apply step_index, thread_index_at; [apply iv_sched, Hm|apply Hm|exact Hk].
Qed.

Lemma progress_outside y : may_go t y -> pcs y !! t = Some Outside -> progress y.
Proof.
  intros Hm Hp. destruct (enabled (scheduler y)) eqn:He.
  - apply (may_go_after y Outside Indexing Hm Hp); [now apply step_wait|reflexivity|]. intros y' Hm' _. now apply progress_indexing.
  - eapply (progress_now t); [exact Hp|now apply step_wait_disabled|now left].
Qed.

(** A thread that sleeps in its turn is woken up. *)
Lemma progress_sleeping y i : may_go t y -> has_turn (scheduler y) t -> pcs y !! t = Some (Sleeping i) -> progress y.
Proof.
  intros [Inv Hr Hl Ht] [Hge Hreg] Hp. destruct (po_index _ _ _ _ (iv_pcs _ Inv _ _ Hp) i eq_refl) as (Hi & Hi' & _).
  pose proof (NoDup_lookup _ _ _ _ (so_nodup _ (iv_sched _ Inv)) Hreg Hi') as Ei.
  assert (Hrun : running_thread (scheduler y) = i) by lia.
  assert (Hwoken : forall y', goes_on y y' -> scheduler y' = scheduler y -> lock_owner y' = None -> pcs y' !! t = Some (Locking i) -> progress y).
  { intros y' Hgo Es El Hp'. apply (progress_later y y' Hgo). apply (progress_locking y' i); [|exact Hp'].
    split; [exact (goes_on_inv _ _ Inv Hgo)|now rewrite Es|exact El|now rewrite Es]. }
  destruct (iv_wake _ Inv t i Hp Hrun) as [Hm|(u & q & Hu & Hq)].
  - apply (Hwoken (mk_system (scheduler y) (lock_owner y) (broadcast (pcs y)) Idle)); [right; now apply step_main|reflexivity|exact Hl|].
    apply broadcast_lookup. exists (Sleeping i). now split.
  - destruct (wakes_steps u (scheduler y) (lock_owner y) q Hq) as (q' & Hs & _).
    apply (Hwoken (mk_system (scheduler y) (lock_owner y) (moved u q q' (pcs y)) (main y)));
      [left; exists u; now apply step_thread|reflexivity|exact Hl|].
    cbn. unfold moved. rewrite Hq. apply broadcast_lookup. exists (Sleeping i). split; [|reflexivity].
    rewrite lookup_insert_ne; [exact Hp|]. intros ->. rewrite Hp in Hu. injection Hu as <-. discriminate.
Qed.

Lemma progress_in_done y :
  inv y -> running_thread (scheduler y) <> NO_THREAD -> pcs y !! t = Some InDone -> progress y.
Proof.
  intros Inv Hr Hp. destruct (pc_registered y Inv t _ Hp) as [k Hk].
  assert (Unf : finished (scheduler y) !! k = Some 0) by now apply (po_finished _ _ _ _ (iv_pcs _ Inv _ _ Hp) k Hk).
  destruct (thread_done_returns (scheduler y) t k (iv_sched _ Inv) (iv_turn _ Inv) Hk Unf Hr) as (j & rs & E & _).
  eapply (progress_after t); [exact Inv|exact Hp|eapply step_finish; exact E|reflexivity|].
  intros y' _ _ _ Hp' _. eapply (progress_now t); [exact Hp'|apply step_announced|now right].
Qed.

Lemma progress_finishing y : may_go t y -> pcs y !! t = Some Finishing -> progress y.
Proof.
  intros [Inv Hr Hl Ht] Hp. apply (progress_after t y Finishing (scheduler y) (Some t) InDone); try done; [now apply step_lock_done|].
  intros y' Inv' Es _ Hp' _. apply progress_in_done; [exact Inv'|now rewrite Es|exact Hp'].
Qed.

(** Outside of an access, a thread that has the turn goes on. *)
Lemma progress_free y p :
  may_go t y -> has_turn (scheduler y) t -> pcs y !! t = Some p -> is_done p = false -> in_access p = false -> progress y.
Proof.
  intros Hm Ht Hp Hf Ha.
  assert (Hfree : holds_lock p = true -> progress y).
  { intros Hh. pose proof (lock_holder y (mg_inv _ _ Hm) t p Hp Hh) as E. rewrite (mg_free _ _ Hm) in E. discriminate. }
  destruct p; try discriminate; try now apply Hfree.
  - now apply progress_outside.
  - now apply progress_indexing.
  - now apply (progress_locking y i).
  - now apply (progress_sleeping y i).
  - apply (may_go_after y Notifying Outside Hm Hp); [apply step_notified|reflexivity|]. intros y' Hm' _. now apply progress_outside.
  - now apply progress_finishing.
  - apply (may_go_after y Disabling Outside Hm Hp); [apply step_disabled|reflexivity|]. intros y' Hm' _. now apply progress_outside.
Qed.

End progress.

(** An access that is under way ends, and the turn passes on. *)
Lemma progress_passing y r :
  inv y -> running_thread (scheduler y) <> NO_THREAD -> lock_owner y = None ->
  pcs y !! r = Some Passing -> progress y.
Proof.
  intros Inv Hr Hl Hp. destruct (next_turn_step y Inv) as (i & rs & E & _ & _ & Hi).
  apply (progress_after r y Passing (with_turn (scheduler y) i rs) None Notifying); try done; [rewrite Hl; now apply step_next|].
  intros y1 Inv1 Es1 El1 Hp1 Hother1.
  apply (progress_after r y1 Notifying (scheduler y1) (lock_owner y1) Outside); try done; [apply step_notified|].
  intros y2 Inv2 Es2 El2 Hp2 Hother2. rewrite Es1 in Es2. rewrite El1 in El2.
  assert (Hgo : forall t, (enabled (scheduler y2) = true -> has_turn (scheduler y2) t) -> may_go t y2).
  { intros t Ht. split; try assumption. rewrite Es2. exact (Hi Hr). }
  destruct (turn_holder y2 Inv2) as (t & p & Ht & Hpt & Hpf); [rewrite Es2; exact (Hi Hr)|now exists r, Outside|].
  destruct (enabled (scheduler y2)) eqn:He.
  - apply (progress_free t y2 p); try assumption; [now apply Hgo|].
    destruct (decide (t = r)) as [->|Hne]; [rewrite Hp2 in Hpt; now injection Hpt as <-|].
    destruct (Hother2 t p Hne Hpt) as (p1 & Hp1' & Ep). destruct (Hother1 t p1 Hne Hp1') as (p0 & Hp0 & Ep1).
    destruct (in_access p) eqn:Ea; [|reflexivity]. destruct Hne. rewrite Es2 in He.
    apply (has_turn_unique (scheduler y)); [|now apply (po_turn _ _ _ _ (iv_pcs _ Inv _ _ Hp))].
    apply (po_turn _ _ _ _ (iv_pcs _ Inv _ _ Hp0)); [exact He|].
    destruct Ep as [->| ->], Ep1 as [->| ->]; now destruct p0.
  - apply (progress_outside r y2); [|exact Hp2]. apply Hgo. congruence.
Qed.

Lemma progress_accessing y r :
  inv y -> running_thread (scheduler y) <> NO_THREAD -> lock_owner y = None ->
  pcs y !! r = Some Accessing -> progress y.
Proof.
  intros Inv Hr Hl Hp. destruct (enabled (scheduler y)) eqn:He.
  - apply (progress_after r y Accessing (scheduler y) (lock_owner y) Passing); try done; [now apply step_access_done|].
    intros y1 Inv1 Es El Hp1 _. apply (progress_passing y1 r); [exact Inv1|now rewrite Es|now rewrite El|exact Hp1].
  - apply (progress_after r y Accessing (scheduler y) (lock_owner y) Outside); try done; [now apply step_access_done_disabled|].
    intros y1 Inv1 Es El Hp1 _. apply (progress_outside r); [|exact Hp1].
    split; [exact Inv1|now rewrite Es|now rewrite El|rewrite Es; congruence].
Qed.

(** While the lock is free, the thread that has the turn goes on. *)
Lemma progress_unlocked y :
  inv y -> running_thread (scheduler y) <> NO_THREAD -> lock_owner y = None ->
  (exists t p, pcs y !! t = Some p /\ is_done p = false) -> progress y.
Proof.
  intros Inv Hr Hl Hun. destruct (turn_holder y Inv Hr Hun) as (r & p & Ht & Hp & Hf).
  destruct (in_access p) eqn:Ea.
  - destruct p; try discriminate; [now apply (progress_accessing y r)|now apply (progress_passing y r)].
  - apply (progress_free r y p); try assumption. split; auto.
Qed.

(** The owner of the lock gives it back. *)
Lemma progress_deciding y t i :
  inv y -> running_thread (scheduler y) <> NO_THREAD -> pcs y !! t = Some (Deciding i) -> progress y.
Proof.
  intros Inv Hr Hp. apply (progress_later y (mk_system (scheduler y) None (moved t (Deciding i) (Sleeping i) (pcs y)) (main y)));
    [left; exists t; apply step_thread; [exact Hp|apply step_sleep]|].
  apply progress_unlocked; [|exact Hr|reflexivity|exists t, (Sleeping i); split; [apply moved_lookup|reflexivity]].
  apply thread_step_inv; [exact Inv|exact Hp|apply step_sleep].
Qed.

(** C33. The scheduler makes progress, and no wake-up that it needs is lost:
    from every reachable state after the start in which some thread has not
    finished, the calls that are under way go on, by steps of the threads and
    the broadcast the main thread still owes, without any wake-up but those
    by the broadcasts of the code, to a step in which some thread begins an
    access to the trie or has finished, whether the scheduler is still
    enabled or not. *)
Theorem scheduler_progress y :
  reachable y -> running_thread (scheduler y) <> NO_THREAD ->
  (exists t p, pcs y !! t = Some p /\ is_done p = false) -> progress y.
Proof.
  intros Inv%reachable_system_inv Hr Hun. destruct (lock_owner y) as [o|] eqn:Hl; [|now apply progress_unlocked].
  destruct (proj2 (iv_registered _ Inv o) (iv_owner _ Inv o Hl)) as [q Hq].
  pose proof (proj2 (po_lock _ _ _ _ (iv_pcs _ Inv _ _ Hq)) Hl) as Hh. destruct q; try discriminate.
  - destruct (must_wait (scheduler y) i) eqn:Hm; [|now apply (progress_testing o y i)].
    apply (progress_after o y (Testing i) (scheduler y) (lock_owner y) (Deciding i)); try done; [now apply step_not_turn|].
    intros y' Inv' Es _ Hp' _. apply (progress_deciding y' o i); [exact Inv'|now rewrite Es|exact Hp'].
  - now apply (progress_deciding y o i).
  - now apply (progress_in_done o).
Qed.

(** ** A thread that finishes before the start *)

(** The thread [t] owns [lock] and waits in [thread_index] for the start. *)
Definition stuck (t : Z) (y : system) : Prop :=
  running_thread (scheduler y) = NO_THREAD /\ lock_owner y = Some t /\ pcs y !! t = Some InDone /\
  (enabled (scheduler y) = true -> forall u p, pcs y !! u = Some p -> in_access p = false).

Lemma stuck_thread t u p y s' own' p' :
  inv y -> stuck t y -> pcs y !! u = Some p -> thread_step u (scheduler y) (lock_owner y) p (Some (s', own', p')) ->
  s' = scheduler y /\ own' = Some t /\ u <> t /\ (enabled (scheduler y) = true -> in_access p' = true -> in_access p = true).
Proof.
  intros Inv (Hr & Hl & Ht & Ha) Hu Hs.
  assert (Hi : forall i, thread_index (scheduler y) u <> Returns i) by (intros i Hi; now apply index_started in Hi).
  assert (Hd : forall r, thread_done_locked u (scheduler y) <> Returns r) by (intros r Hd; now apply done_started in Hd).
  assert (Hw : holds_lock p = true -> u = t) by (intros Hh; pose proof (lock_holder y Inv u p Hu Hh); congruence).
  inversion Hs; subst; try congruence; try (specialize (Hw eq_refl); congruence);
    (split; [reflexivity|]; split; [assumption|]; split; [congruence|cbn; congruence]).
Qed.

(** What all the steps that go on here do to the threads. *)
Lemma stuck_pcs (t : Z) (m m' : gmap Z pc) (b : bool) :
  m !! t = Some InDone -> m' !! t = Some InDone ->
  (b = true -> forall u p, m !! u = Some p -> in_access p = false) ->
  (forall u q, u <> t -> m' !! u = Some q -> exists q', m !! u = Some q' /\ (b = true -> in_access q = true -> in_access q' = true)) ->
  b = true -> forall u p, m' !! u = Some p -> in_access p = false.
Proof.
  intros Ht Ht' Ha Hm Hb u q Hu. destruct (decide (u = t)) as [->|Hne]; [rewrite Ht' in Hu; now injection Hu as <-|].
  destruct (Hm u q Hne Hu) as (q' & Hq' & Hi). destruct (in_access q) eqn:Eq; [|reflexivity].
  rewrite <- (Ha Hb u q' Hq'). symmetry. now apply Hi.
Qed.

Lemma in_access_wake p : in_access (wake p) = in_access p.
Proof. now destruct p. Qed.

Lemma stuck_broadcast t m : m !! t = Some InDone -> broadcast m !! t = Some InDone.
Proof. intros H. apply broadcast_lookup. now exists InDone. Qed.

Lemma stuck_next t y y' : inv y -> stuck t y -> next y y' -> stuck t y'.
Proof.
  intros Inv St [a Hs]. pose proof St as (Hr & Hl & Ht & Ha). inversion Hs as [u p ? s' own' p' Hu Hstep| | ? ? ? ? ? ? Hnone| |?|?|u ? Hu|u i ? Hu]; subst.
  - destruct (stuck_thread t u p y s' own' p' Inv St Hu Hstep) as (-> & -> & Hne & Hacc).
    split; [exact Hr|]. split; [reflexivity|].
    assert (Ht' : moved u p p' (pcs y) !! t = Some InDone).
    { unfold moved. destruct (wakes p); [apply stuck_broadcast|]; now rewrite lookup_insert_ne. }
    split; [exact Ht'|]. apply (stuck_pcs t (pcs y) (moved u p p' (pcs y)) _ Ht Ht' Ha). intros v q Hv Hq. destruct (decide (v = u)) as [->|Hvu].
    + rewrite moved_lookup in Hq. injection Hq as <-. exists p. split; [exact Hu|]. destruct (wakes p); rewrite ?in_access_wake; exact Hacc.
    + destruct (moved_lookup_ne u p p' (pcs y) v q Hvu Hq) as (q' & Hq' & [->| ->]); exists q'; rewrite ?in_access_wake; done.
  - congruence.
  - split; [exact Hr|]. split; [exact Hl|]. split; [now apply stuck_broadcast|]. cbn [pcs].
    apply (stuck_pcs t (pcs y) (broadcast (pcs y)) _ Ht (stuck_broadcast _ _ Ht) Ha). intros v q _ (q' & Hq' & ->)%broadcast_lookup.
    exists q'. now rewrite in_access_wake.
  - split; [exact Hr|]. split; [exact Hl|]. split; [exact Ht|]. cbn. discriminate.
  - split; [exact Hr|]. split; [exact Hl|]. split; [|cbn; discriminate]. cbn.
    rewrite lookup_insert_ne; [exact Ht|]. intros ->. congruence.
  - split; [exact Hr|]. split; [exact Hl|]. cbn [pcs scheduler].
    assert (Hne : u <> t) by (intros ->; congruence). assert (Ht' : <[u := Locking i]> (pcs y) !! t = Some InDone) by now rewrite lookup_insert_ne.
    split; [exact Ht'|]. apply (stuck_pcs t (pcs y) _ _ Ht Ht' Ha). intros v q Hv Hq. destruct (decide (v = u)) as [->|Hvu].
    + rewrite lookup_insert_eq in Hq. injection Hq as <-. now exists (Sleeping i).
    + rewrite lookup_insert_ne in Hq by congruence. now exists q.
Qed.

(** C36. [ct_mtdbg_thread_done] waits in [thread_index] for the start while it
    holds [lock], which [ct_mtdbg_start] needs: when a thread that accesses
    nothing calls it before the start, the start never happens, and as long
    as the scheduler is enabled no thread ever accesses the trie. *)
Theorem done_before_start_blocks seed ids t :
  NoDup ids -> Z.of_nat (length ids) <= MAX_THREADS -> t ∈ ids ->
  exists y0 y, set_up seed ids = Returns y0 /\ rtc next y0 y /\
    forall y', rtc next y y' ->
      running_thread (scheduler y') = NO_THREAD /\ lock_owner y' = Some t /\
      (enabled (scheduler y') = true -> forall u p, pcs y' !! u = Some p -> in_access p = false).
Proof.
  intros Hn Hl Hin. destruct (set_up_inv seed ids Hn Hl) as (y0 & E & Inv & Hreg & _ & Hr & He & _ & Ho & _ & Hpcs).
  destruct (proj2 (iv_registered _ Inv t)) as [q Hq]; [now rewrite Hreg|].
  assert (Hout : forall u p, pcs y0 !! u = Some p -> p = Outside).
  { intros u p. rewrite Hpcs. intros Hu%elem_of_list_to_map_2. apply list_elem_of_fmap in Hu. now destruct Hu as (v & [= -> ->] & _). }
  rewrite (Hout _ _ Hq) in Hq.
  set (y1 := mk_system (scheduler y0) (lock_owner y0) (<[t := Finishing]> (pcs y0)) (main y0)).
  set (y2 := mk_system (scheduler y0) (Some t) (<[t := InDone]> (pcs y1)) (main y1)).
  assert (S1 : next y0 y1) by (exists (ByThread t); apply (step_thread t Outside); [exact Hq|now apply step_done]).
  assert (S2 : next y1 y2) by (exists (ByThread t); apply (step_thread t Finishing); [apply lookup_insert_eq|now apply step_lock_done]).
  assert (R2 : rtc next y0 y2) by (apply rtc_l with y1; [exact S1|now apply rtc_once]).
  exists y0, y2. split; [exact E|]. split; [exact R2|]. intros y' Hs.
  assert (St : stuck t y2).
  { split; [exact Hr|]. split; [reflexivity|]. cbn. split; [apply lookup_insert_eq|]. intros _ u p.
    destruct (decide (u = t)) as [->|Hne]; [rewrite lookup_insert_eq; now intros [= <-]|].
    rewrite !lookup_insert_ne by congruence. intros Hu. now rewrite (Hout _ _ Hu). }
  pose proof (steps_inv _ _ Inv R2) as Inv2. clear S1 S2 R2. clearbody y2.
  induction Hs as [y|y y3 y4 Hs Hs' IH]; [destruct St as (F1 & F2 & _ & F4); now split; [|split]|].
  apply IH; [now apply (stuck_next t y)|]. eapply steps_inv; [exact Inv2|]. now apply rtc_once.
Qed.

(** ** A wake-up that is lost *)

(** Everybody is outside of the calls, but [t], which is at [p]. *)
Record quiet (t : Z) (s : sched) (own : option Z) (p : pc) (y : system) : Prop := mk_quiet {
  qt_scheduler : scheduler y = s;
  qt_lock : lock_owner y = own;
  qt_main : main y = Idle;
  qt_thread : pcs y !! t = Some p;
  qt_others : forall u q, u <> t -> pcs y !! u = Some q -> q = Outside;
}.

Lemma quiet_step t u s own p y s' own' p' :
  quiet t s own p y -> thread_step t s own p (Some (s', own', p')) -> wakes p = false -> u <> t -> pcs y !! u = Some Outside ->
  exists y', next y y' /\ quiet t s' own' p' y' /\ pcs y' !! u = Some Outside.
Proof.
  intros [Es El Em Ht Ho] Hs Hw Hne Hu. exists (mk_system s' own' (moved t p p' (pcs y)) (main y)).
  split; [exists (ByThread t); apply step_thread; [exact Ht|now rewrite Es, El]|]. unfold moved. rewrite Hw.
  split; [|cbn; now rewrite lookup_insert_ne by congruence]. split; cbn; try done; [apply lookup_insert_eq|].
  intros v q Hv. rewrite lookup_insert_ne by congruence. now apply Ho.
Qed.

(** A whole call of [ct_mtdbg_set_enabled] by another thread, while [t] does
    not sleep: the broadcast wakes nobody. *)
Lemma quiet_disable t u s own p y :
  quiet t s own p y -> wake p = p -> u <> t -> pcs y !! u = Some Outside ->
  exists y', rtc next y y' /\ quiet t (ct_mtdbg_set_enabled 0 s) own p y' /\ pcs y' !! u = Some Outside.
Proof.
  intros [Es El Em Ht Ho] Hw Hne Hu. set (s' := ct_mtdbg_set_enabled 0 s).
  set (y1 := mk_system s' own (<[u := Disabling]> (pcs y)) Idle).
  set (y2 := mk_system s' own (moved u Disabling Outside (pcs y1)) Idle).
  exists y2. split; [|split; [split; try reflexivity|]].
  - apply rtc_l with y1; [exists ByDisable|apply rtc_once; exists (ByThread u)].
    + subst y1 s'. rewrite <- Es, <- El, <- Em. now apply step_disable.
    + apply (step_thread u Disabling y1); [apply lookup_insert_eq|apply step_disabled].
  - apply broadcast_lookup. exists p. split; [|now rewrite Hw]. cbn. now rewrite !lookup_insert_ne by congruence.
  - intros v q Hv (q' & Hq & ->)%broadcast_lookup. cbn in Hq. destruct (decide (v = u)) as [->|Hvu].
    + rewrite lookup_insert_eq in Hq. now injection Hq as <-.
    + rewrite !lookup_insert_ne in Hq by congruence. now rewrite (Ho v q' Hv Hq).
  - apply broadcast_lookup. exists Outside. split; [apply lookup_insert_eq|reflexivity].
Qed.

(** The start, which gives the turn to the thread the seed chooses. *)
Lemma quiet_start ids t j u :
  NoDup ids -> Z.of_nat (length ids) <= MAX_THREADS -> t ∈ ids -> ids !! j = Some u ->
  exists seed y0 s y, 0 <= seed < 2 ^ 64 /\ set_up seed ids = Returns y0 /\ rtc next y0 y /\ inv y /\ quiet t s None Outside y /\
    registered s = ids /\ enabled s = true /\ running_thread s = Z.of_nat j /\ pcs y !! u = Some Outside.
Proof.
  intros Hn Hl Ht Hj. set (seed := seed_choosing (replicate (length ids) 0) j).
  destruct (set_up_inv seed ids Hn Hl) as (y0 & E & Inv & Hreg & Hfl & Hr & He & Hs & Ho & Hm & Hpcs).
  pose proof (iv_sched _ Inv) as OK. rewrite <- Hreg in Hj.
  pose proof (registered_num _ _ _ OK Hj) as Hnum. pose proof (lookup_lt_Some _ _ _ Hj) as Hlt. rewrite Hreg in Hlt.
  assert (Hf : finished (scheduler y0) !! j = Some 0).
  { rewrite <- (lookup_take_lt _ (Z.to_nat (num_threads (scheduler y0)))) by lia. change (done_flags (scheduler y0) !! j = Some 0).
    rewrite Hfl. apply lookup_replicate. split; [reflexivity|exact Hlt]. }
  destruct (next_turn_chooses (scheduler y0) j OK Hnum Hf) as [Hb En]; [now rewrite Hs, Hfl|].
  set (s1 := with_turn (scheduler y0) (Z.of_nat j) (snd (rand_dword_r (rand_state (scheduler y0))))) in *.
  assert (Hout : forall v q, pcs y0 !! v = Some q -> q = Outside).
  { intros v q. rewrite Hpcs. intros Hv%elem_of_list_to_map_2. apply list_elem_of_fmap in Hv. now destruct Hv as (w & [= -> ->] & _). }
  assert (Hat : forall v, v ∈ ids -> broadcast (pcs y0) !! v = Some Outside).
  { intros v Hv. rewrite <- Hreg in Hv. destruct (proj2 (iv_registered _ Inv v) Hv) as [q Hq]. apply broadcast_lookup.
    exists q. split; [exact Hq|]. now rewrite (Hout _ _ Hq). }
  set (y1 := mk_system s1 None (pcs y0) Starting). set (y2 := mk_system s1 None (broadcast (pcs y0)) Idle).
  assert (S1 : next y0 y1).
  { exists ByStart. subst y1. rewrite <- Ho. apply step_start; try assumption. unfold ct_mtdbg_start.
    unfold enabled in He. destruct (_ =? _); [discriminate|exact En]. }
  assert (S2 : next y1 y2) by (exists ByMain; now apply (step_main y1)).
  assert (R : rtc next y0 y2) by (apply rtc_l with y1; [exact S1|now apply rtc_once]).
  exists seed, y0, s1, y2. rewrite <- Hs at 1 2. split; [exact Hb|]. split; [exact E|]. split; [exact R|].
  split; [exact (steps_inv _ _ Inv R)|]. split; [|split; [exact Hreg|split; [exact He|split; [reflexivity|apply Hat; rewrite <- Hreg; now apply list_elem_of_lookup_2 in Hj]]]].
  split; try reflexivity; [now apply Hat|]. intros v q _ (q' & Hq & ->)%broadcast_lookup. now rewrite (Hout _ _ Hq).
Qed.

(** No more wake-ups than the broadcasts the code still makes: everything but
    wake-ups without a broadcast and further calls of
    [ct_mtdbg_set_enabled]. *)
Definition undisturbed (y y' : system) : Prop := exists a, a <> Spurious /\ a <> ByDisable /\ step a y (Some y').

Definition lost (t i : Z) (y : system) : Prop :=
  enabled (scheduler y) = false /\ main y = Idle /\ pcs y !! t = Some (Sleeping i) /\
  forall u q, u <> t -> pcs y !! u = Some q -> q = Outside \/ q = Accessing.

Lemma lost_stays t i y y' : lost t i y -> undisturbed y y' -> lost t i y'.
Proof.
  intros (He & Hm & Ht & Ho) (a & Ha1 & Ha2 & Hs).
  inversion Hs as [u p ? s' own' p' Hu Hstep| |? ? ? ? ? He'| |? Hm'|?|? ? ?|? ? ? ?]; subst; try congruence.
  destruct (decide (u = t)) as [->|Hne]; [rewrite Ht in Hu; injection Hu as <-; inversion Hstep|].
  assert (Hp : s' = scheduler y /\ wakes p = false /\ (p' = Outside \/ p' = Accessing)).
  { destruct (Ho u p Hne Hu) as [->| ->]; inversion Hstep; subst; try congruence; auto. }
  destruct Hp as (-> & Hw & Hp'). split; [exact He|]. split; [exact Hm|]. cbn. unfold moved. rewrite Hw.
  split; [rewrite lookup_insert_ne by congruence; exact Ht|].
  intros v q Hv. destruct (decide (v = u)) as [->|Hvu].
  - rewrite lookup_insert_eq. now intros [= <-].
  - rewrite lookup_insert_ne by congruence. now apply Ho.
Qed.

(** C34. [ct_mtdbg_set_enabled] stores to [mt_debug_enabled] without taking
    [lock], so that its wake-up can be lost: for any two different threads [t]
    and [u] of a test there are a seed and a run in which [t] finds that it is
    not its turn, [u] then disables the scheduler and makes the broadcast, and
    [t] goes to sleep after it; from then on, unless the system wakes a thread
    for no reason or [ct_mtdbg_set_enabled] is called once more, [t] sleeps
    for ever in [mt_debug_wait_for_access], whatever the other threads and the
    main thread do. *)
Theorem set_enabled_loses_wake_up ids t u :
  NoDup ids -> Z.of_nat (length ids) <= MAX_THREADS -> t ∈ ids -> u ∈ ids -> t <> u ->
  exists seed y0 y i, 0 <= seed < 2 ^ 64 /\ set_up seed ids = Returns y0 /\ rtc next y0 y /\
    enabled (scheduler y) = false /\ pcs y !! t = Some (Sleeping i) /\
    forall y', rtc undisturbed y y' -> pcs y' !! t = Some (Sleeping i).
Proof.
  intros Hn Hl Hit Hiu Hne. assert (Hne' : u <> t) by congruence. pose proof Hiu as [j Hj]%list_elem_of_lookup.
  destruct (quiet_start ids t j u Hn Hl Hit Hj) as (seed & y0 & s & y1 & Hseed & E & R1 & Inv & Q1 & Hreg & He & Hrun & Hu1).
  destruct (pc_registered y1 Inv t _ (qt_thread _ _ _ _ _ Q1)) as [k Hk]. rewrite (qt_scheduler _ _ _ _ _ Q1) in Hk.
  assert (Hidx : thread_index s t = Returns (Z.of_nat k)).
  { apply thread_index_at; [rewrite <- (qt_scheduler _ _ _ _ _ Q1); apply Inv|rewrite Hrun; unfold NO_THREAD; lia|exact Hk]. }
  assert (Hwait : must_wait s (Z.of_nat k) = true).
  { unfold must_wait. rewrite He, Hrun. apply negb_true_iff, Z.eqb_neq. intros ->%Nat2Z.inj. congruence. }
  destruct (quiet_step t u _ _ _ _ _ _ _ Q1 (step_wait t s None He) eq_refl Hne' Hu1) as (y2 & S2 & Q2 & Hu2).
  destruct (quiet_step t u _ _ _ _ _ _ _ Q2 (step_index t s None _ Hidx) eq_refl Hne' Hu2) as (y3 & S3 & Q3 & Hu3).
  destruct (quiet_step t u _ _ _ _ _ _ _ Q3 (step_lock t s None _ eq_refl) eq_refl Hne' Hu3) as (y4 & S4 & Q4 & Hu4).
  destruct (quiet_step t u _ _ _ _ _ _ _ Q4 (step_not_turn t s _ _ Hwait) eq_refl Hne' Hu4) as (y5 & S5 & Q5 & Hu5).
  destruct (quiet_disable t u _ _ _ _ Q5 eq_refl Hne' Hu5) as (y6 & R6 & Q6 & Hu6).
  destruct (quiet_step t u _ _ _ _ _ _ _ Q6 (step_sleep t _ _ _) eq_refl Hne' Hu6) as (y7 & S7 & Q7 & _).
  exists seed, y0, y7, (Z.of_nat k). split; [exact Hseed|]. split; [exact E|]. split.
  { transitivity y1; [exact R1|]. do 4 (eapply rtc_l; [eassumption|]). transitivity y6; [exact R6|now apply rtc_once]. }
  assert (Hlost : lost t (Z.of_nat k) y7).
  { destruct Q7 as [Es _ Em Et Eo]. split; [now rewrite Es|]. split; [exact Em|]. split; [exact Et|]. intros v q Hv Hq. left. exact (Eo v q Hv Hq). }
  split; [apply Hlost|]. split; [apply Hlost|]. intros y' Hs. clear - Hlost Hs.
  induction Hs as [y|y y' y'' H1 H2 IH]; [apply Hlost|]. apply IH. exact (lost_stays _ _ _ _ Hlost H1).
Qed.

(** A 129th thread is written outside of the array. *)
Lemma register_out_of_bounds t s :
  sched_ok s -> num_threads s = MAX_THREADS -> ct_mtdbg_register_thread t s = Stops.
Proof.
  intros OK Hn. unfold ct_mtdbg_register_thread, array_set. rewrite Hn, (so_threads _ OK). reflexivity.
Qed.

(** ** Concrete runs *)

(** Three threads, seed 1; after the start the turn is that of thread 20,
    which begins an access. *)
Definition example_ids : list Z := [10; 20; 30].
Definition example_started : sched :=
  match set_up 1 example_ids with
  | Returns y => match ct_mtdbg_start (scheduler y) with Returns s => s | _ => sched_init end
  | _ => sched_init
  end.
Definition example_in (own : option Z) (p : pc) : system :=
  mk_system example_started own (<[20 := p]> (list_to_map (map (fun t => (t, Outside)) example_ids))) Idle.
Definition example_at : pc -> system := example_in None.

Lemma example_nodup : NoDup example_ids.
Proof. apply (bool_decide_unpack _). vm_compute. exact I. Qed.

Lemma example_step own p own' p' :
  thread_step 20 example_started own p (Some (example_started, own', p')) -> wakes p = false ->
  next (example_in own p) (example_in own' p').
Proof.
  intros Hs Hw. exists (ByThread 20). unfold example_in. rewrite <- (insert_insert_eq _ 20 p' p).
  pose proof (step_thread 20 p (example_in own p) example_started own' p' (lookup_insert_eq _ _ _) Hs) as H.
  unfold moved in H. now rewrite Hw in H.
Qed.

Lemma example_start : exists y0, set_up 1 example_ids = Returns y0 /\ rtc next y0 (example_at Outside).
Proof.
  destruct (set_up_inv 1 example_ids example_nodup ltac:(vm_compute; discriminate)) as (y0 & E & _).
  exists y0. split; [exact E|]. vm_compute in E. injection E as <-.
  eapply rtc_l; [exists ByStart; apply step_start; [reflexivity..|vm_compute; reflexivity]|].
  eapply rtc_l; [exists ByMain; apply step_main; discriminate|].
  match goal with |- rtc next ?a ?b => assert (a = b) as ->; [vm_compute; reflexivity|apply rtc_refl] end.
Qed.

Lemma example_reachable : reachable (example_at Accessing).
Proof.
  destruct example_start as (y0 & E & R). exists 1, example_ids, y0.
  split; [exact example_nodup|]. split; [vm_compute; discriminate|]. split; [exact E|].
  transitivity (example_at Outside); [exact R|].
  apply rtc_l with (example_in None Indexing); [apply example_step; [now apply step_wait|reflexivity]|].
  apply rtc_l with (example_in None (Locking 1)); [apply example_step; [apply step_index; vm_compute; reflexivity|reflexivity]|].
  apply rtc_l with (example_in (Some 20) (Testing 1)); [apply example_step; [now apply step_lock|reflexivity]|].
  apply rtc_once, example_step; [now apply step_turn|reflexivity].
Qed.

Lemma example_has_started : running_thread (scheduler (example_at Accessing)) <> NO_THREAD.
Proof. vm_compute. discriminate. Qed.

Lemma example_unfinished : exists t p, pcs (example_at Accessing) !! t = Some p /\ is_done p = false.
Proof. exists 10, Outside. split; vm_compute; reflexivity. Qed.

Lemma accesses_serialised_witness :
  (forall a, ~ step a (example_at Accessing) None) /\ has_turn (scheduler (example_at Accessing)) 20 /\
  exists r p, has_turn example_started r /\ pcs (example_at Accessing) !! r = Some p /\ is_done p = false.
Proof.
  destruct (accesses_serialised (example_at Accessing) example_reachable) as (H1 & H2 & H3).
  split; [exact H1|]. split.
  - apply (H2 20 Accessing); vm_compute; reflexivity.
  - exact (H3 example_has_started example_unfinished).
Defined.

Lemma scheduler_progress_witness : progress (example_at Accessing).
Proof. exact (scheduler_progress _ example_reachable example_has_started example_unfinished). Defined.

Lemma example_started_ok : sched_ok example_started.
Proof. exact (iv_sched _ (reachable_system_inv _ example_reachable)). Qed.

Lemma next_turn_can_choose_witness :
  exists seed, 0 <= seed < 2 ^ 64 /\
    next_turn (ct_mtdbg_seed seed example_started) =
      Returns (with_turn example_started 2 (snd (rand_dword_r seed))).
Proof. apply (next_turn_can_choose example_started 2 example_started_ok); vm_compute; reflexivity. Defined.

Lemma done_before_start_blocks_witness :
  exists y0 y, set_up 1 example_ids = Returns y0 /\ rtc next y0 y /\
    forall y', rtc next y y' ->
      running_thread (scheduler y') = NO_THREAD /\ lock_owner y' = Some 10 /\
      (enabled (scheduler y') = true -> forall u p, pcs y' !! u = Some p -> in_access p = false).
Proof. apply (done_before_start_blocks 1 example_ids 10 example_nodup); [vm_compute; discriminate|left]. Defined.

Lemma set_enabled_loses_wake_up_witness :
  exists seed y0 y i, 0 <= seed < 2 ^ 64 /\ set_up seed example_ids = Returns y0 /\ rtc next y0 y /\
    enabled (scheduler y) = false /\ pcs y !! 10 = Some (Sleeping i) /\
    forall y', rtc undisturbed y y' -> pcs y' !! 10 = Some (Sleeping i).
Proof.
  apply (set_enabled_loses_wake_up example_ids 10 30 example_nodup); [vm_compute; discriminate|left| |discriminate].
  do 2 apply list_elem_of_further. left.
Defined.
