(* ===== verification/RandomDist.v ===== *)
(** * Skewed random numbers (random_dist.c)

    [rand_zipf_init] cuts [0, max) into ranges of nearly equal weights and
    records the cumulative weights; [rand_dist] draws a point, finds its range
    by binary search and then a number of the range. A double is an integer
    here (all doubles are multiples of 2^-1074); the arithmetic on them is a
    parameter, and the code only compares the results. *)

From stdpp Require Import base list.
From Stdlib Require Import ZArith Lia Bool.
From S2P Require Import Prelude Random.

#[local] Open Scope Z_scope.

Definition MAX_ZIPF_RANGES : nat := Z.to_nat 10000.

Inductive dist_type := DIST_UNIFORM | DIST_ZIPF | DIST_ZIPF_RANK.

Record zipf_range := mk_range { weight_cumsum : Z; start : Z; range_size : Z }.
Record rand_distribution := mk_distribution {
  zipf_ranges : list zipf_range;
  total_weight : Z;
  skew : Z;
  max : Z;
  type : dist_type;
}.

(** The static [zipf_dist_cache] before the first call has [max] = -1 as a
    [uint64_t] and no ranges. *)
Definition zipf_dist_cache_init : rand_distribution := mk_distribution [] 0 0 (2 ^ 64 - 1) DIST_UNIFORM.

Section doubles.
(** [floor((start + 1) * pow(ZIPF_ERROR_RATIO, 1.0 / skew))], the sum
    [total_weight + 1.0 / pow(i + 1, skew)], and
    [rand_double() * total_weight] for a given [rand_uint64()]. *)
Variable range_end_of : Z -> Z -> Z.
Variable add_weight : Z -> Z -> Z -> Z.
Variable scaled : Z -> Z -> Z.
Variable high_first : bool.

Definition rand_uniform_init (dist : rand_distribution) (mx : Z) : rand_distribution :=
  mk_distribution (zipf_ranges dist) (total_weight dist) (skew dist) mx DIST_UNIFORM.

(** The loop over the elements of a range. *)
Fixpoint add_weights (n : nat) (sk i total : Z) : Z :=
  match n with O => total | S k => add_weights k sk (i + 1) (add_weight sk total i) end.

(** The loop over the ranges; [None]: more than [MAX_ZIPF_RANGES] ranges, or
    out of fuel. *)
Fixpoint zipf_loop (fuel : nat) (mx sk range_start total : Z) (ranges : list zipf_range) : option (list zipf_range * Z) :=
  if range_start <? mx then
    match fuel with
    | O => None
    | S fuel =>
        if (length ranges <? MAX_ZIPF_RANGES)%nat then
          let range_end := range_end_of sk range_start in
          let size := u64 (range_end - range_start) in
          let size := if mx <? u64 (range_start + size) then mx - range_start else size in
          let total := add_weights (Z.to_nat size) sk range_start total in
          zipf_loop fuel mx sk (range_start + size) total (ranges ++ [mk_range total range_start size])
        else None
    end
  else Some (ranges, total).

(** [rand_zipf_init] with the cache; it returns the distribution and the new
    cache. *)
Definition rand_zipf_init (cache : rand_distribution) (mx sk : Z) : option (rand_distribution * rand_distribution) :=
  if (mx =? max cache) && (sk =? skew cache) then Some (cache, cache)
  else
    '(ranges, total) ← zipf_loop (S MAX_ZIPF_RANGES) mx sk 0 0 [];
    let dist := mk_distribution ranges total sk mx DIST_ZIPF in
    Some (dist, dist).

Definition rand_zipf_rank_init (cache : rand_distribution) (mx sk : Z) : option (rand_distribution * rand_distribution) :=
  '(dist, cache) ← rand_zipf_init cache mx sk;
  Some (mk_distribution (zipf_ranges dist) (total_weight dist) (skew dist) (max dist) DIST_ZIPF_RANK, cache).

Definition mix (x : Z) : Z :=
  let x := x .^ (x .>> 33) in
  let x := u64 (x * 0xC2B2AE3D27D4EB4F) in
  let x := x .^ (x .>> 29) in
  let x := u64 (x * 0x165667B19E3779F9) in
  x .^ (x .>> 32).

(** The binary search; [None]: out of the array, or out of fuel. *)
Fixpoint find_range (fuel : nat) (ranges : list zipf_range) (x low high : Z) : option Z :=
  if high - low <=? 1 then Some low
  else
    match fuel with
    | O => None
    | S fuel =>
        let mid := (low + high) / 2 - 1 in
        r ← ranges !! Z.to_nat mid;
        if x <? weight_cumsum r then find_range fuel ranges x low (mid + 1)
        else find_range fuel ranges x (mid + 1) high
    end.

(** [None]: a division by 0, an access out of the array or a failed
    assertion. *)
Definition rand_dist (dist : rand_distribution) (st : Z) : option (Z * Z) :=
  match type dist with
  | DIST_UNIFORM =>
      if max dist =? 0 then None
      else let '(r, st) := rand_uint64 high_first st in Some (r mod max dist, st)
  | _ =>
      let '(r, st) := rand_uint64 high_first st in
      let x := scaled r (total_weight dist) in
      range_num ← find_range (length (zipf_ranges dist)) (zipf_ranges dist) x 0 (Z.of_nat (length (zipf_ranges dist)));
      range ← zipf_ranges dist !! Z.to_nat range_num;
      if range_size range =? 0 then None
      else
        let '(r, st) := rand_uint64 high_first st in
        let zipf_rand := u64 (r mod range_size range + start range) in
        match type dist with
        | DIST_ZIPF => if 1000 <? max dist then Some (mix zipf_rand mod max dist, st) else None
        | _ => Some (zipf_rand, st)
        end
  end.

(** ** The binary search *)

(** The range of [x]: the cumulative weights before it are at most [x], and
    its own is greater unless it is the last. *)
Definition range_of (ranges : list zipf_range) (x i : Z) : Prop :=
  0 <= i < Z.of_nat (length ranges) /\
  (forall j r, (j < Z.to_nat i)%nat -> ranges !! j = Some r -> weight_cumsum r <= x) /\
  (i = Z.of_nat (length ranges) - 1 \/ exists r, ranges !! Z.to_nat i = Some r /\ x < weight_cumsum r).

Definition sorted_ranges (ranges : list zipf_range) : Prop :=
  forall i j r r', (i <= j)%nat -> ranges !! i = Some r -> ranges !! j = Some r' -> weight_cumsum r <= weight_cumsum r'.

Lemma find_range_ok ranges x : sorted_ranges ranges -> forall fuel low high,
  0 <= low < high -> high <= Z.of_nat (length ranges) -> high - low <= Z.of_nat fuel ->
  (forall j r, (j < Z.to_nat low)%nat -> ranges !! j = Some r -> weight_cumsum r <= x) ->
  (high = Z.of_nat (length ranges) \/ exists r, ranges !! Z.to_nat (high - 1) = Some r /\ x < weight_cumsum r) ->
  exists i, find_range fuel ranges x low high = Some i /\ range_of ranges x i.
Proof.
  intros Hs. induction fuel as [|fuel IH]; intros low high Hlh Hh Hf Hlow Hhigh; [lia|]. cbn [find_range].
  destruct (Z.leb_spec (high - low) 1) as [Hle|Hgt].
  - exists low. split; [reflexivity|]. split; [lia|]. split; [exact Hlow|].
    replace high with (low + 1) in Hhigh by lia. replace (low + 1 - 1) with low in Hhigh by lia.
    destruct Hhigh; [left; lia|now right].
  - set (mid := (low + high) / 2 - 1). assert (Hm : low <= mid < high - 1) by (unfold mid; zdiv).
    destruct (lookup_lt_is_Some_2 ranges (Z.to_nat mid)) as [r Hr]; [lia|]. rewrite Hr. cbn [mbind option_bind].
    destruct (Z.ltb_spec x (weight_cumsum r)) as [Hx|Hx].
    + apply IH; [lia|lia|lia|exact Hlow|]. right. exists r. replace (mid + 1 - 1) with mid by lia. now split.
    + apply IH; [lia|lia|lia| |exact Hhigh]. intros j r' Hj Hr'.
      transitivity (weight_cumsum r); [|exact Hx]. apply (Hs j (Z.to_nat mid)); [lia|exact Hr'|exact Hr].
Qed.

(** ** The ranges *)

Hypothesis range_end_grows : forall sk s, 0 <= s < 2 ^ 63 -> s + 1 <= range_end_of sk s < 2 ^ 64.
Hypothesis add_weight_grows : forall sk t i, t <= add_weight sk t i.

Lemma add_weights_grow n sk : forall i t, t <= add_weights n sk i t.
Proof.
  induction n as [|n IH]; intros i t; cbn [add_weights]; [lia|]. transitivity (add_weight sk t i); [apply add_weight_grows|apply IH].
Qed.

(** The ranges so far cover [0, s) without gaps and end at the weight [t]. *)
Inductive covers : list zipf_range -> Z -> Z -> Prop :=
| covers_nil : covers [] 0 0
| covers_app rs s t r :
    covers rs s t -> start r = s -> 0 < range_size r -> t <= weight_cumsum r ->
    covers (rs ++ [r]) (s + range_size r) (weight_cumsum r).

Lemma covers_weights rs s t : covers rs s t -> forall i r, rs !! i = Some r -> weight_cumsum r <= t.
Proof.
  induction 1 as [|rs s t r Hc IH Hst Hsz Hw]; intros i q Hq; [discriminate|].
  apply lookup_app_Some in Hq. destruct Hq as [Hq|[_ Hq]]; [specialize (IH _ _ Hq); lia|].
  apply list_lookup_singleton_Some in Hq. destruct Hq as [_ <-]. lia.
Qed.

Lemma covers_sorted rs s t : covers rs s t -> sorted_ranges rs.
Proof.
  induction 1 as [|rs s t r Hc IH Hst Hsz Hw]; intros i j a b Hij Ha Hb; [discriminate|].
  apply lookup_app_Some in Ha, Hb. destruct Ha as [Ha|[Hla Ha]], Hb as [Hb|[Hlb Hb]].
  - exact (IH i j a b Hij Ha Hb).
  - apply list_lookup_singleton_Some in Hb. destruct Hb as [_ <-]. pose proof (covers_weights _ _ _ Hc _ _ Ha). lia.
  - apply lookup_lt_Some in Hb. lia.
  - apply list_lookup_singleton_Some in Ha, Hb. destruct Ha as [_ <-], Hb as [_ <-]. lia.
Qed.

Lemma covers_bounds rs s t : covers rs s t -> 0 <= s /\
  forall i r, rs !! i = Some r -> 0 <= start r /\ 0 < range_size r /\ start r + range_size r <= s.
Proof.
  induction 1 as [|rs s t r Hc [IH1 IH2] Hst Hsz Hw]; [split; [lia|discriminate]|]. split; [lia|]. intros i q Hq.
  apply lookup_app_Some in Hq. destruct Hq as [Hq|[_ Hq]]; [specialize (IH2 _ _ Hq); lia|].
  apply list_lookup_singleton_Some in Hq. destruct Hq as [_ <-]. lia.
Qed.

Lemma zipf_loop_covers mx sk : mx < 2 ^ 63 -> forall fuel s t rs r,
  covers rs s t -> s <= mx -> zipf_loop fuel mx sk s t rs = Some r -> covers (fst r) mx (snd r).
Proof.
  intros Hmx. induction fuel as [|fuel IH]; intros s t rs r Hc Hs; cbn [zipf_loop]; destruct (Z.ltb_spec s mx) as [Hlt|Hge]; try discriminate.
  - intros [= <-]. replace mx with s by lia. exact Hc.
  - destruct (_ <? _)%nat; [|discriminate]. pose proof (proj1 (covers_bounds _ _ _ Hc)) as H0.
    pose proof (range_end_grows sk s ltac:(lia)) as Hg. rewrite (wrap_small 64 (range_end_of sk s - s)) by lia.
    rewrite wrap_small by lia. set (size := if _ <? _ then _ else _).
    assert (Hsz : 0 < size <= mx - s) by (unfold size; zcases). intros E. apply IH in E; [exact E| |lia].
    apply (covers_app rs s t (mk_range _ s size)); [exact Hc|reflexivity|cbn; lia|apply add_weights_grow].
  - intros [= <-]. replace mx with s by lia. exact Hc.
Qed.

(** A distribution of numbers below [mx]. *)
Definition distribution_ok (mx : Z) (d : rand_distribution) : Prop :=
  max d = mx /\ covers (zipf_ranges d) mx (total_weight d).

Lemma rand_zipf_init_ok cache mx sk d cache' :
  (max cache = mx -> skew cache = sk -> distribution_ok mx cache) -> 0 <= mx < 2 ^ 63 ->
  rand_zipf_init cache mx sk = Some (d, cache') -> distribution_ok mx d.
Proof.
  intros Hc Hmx. unfold rand_zipf_init. destruct (_ && _) eqn:E.
  - apply andb_true_iff in E. rewrite !Z.eqb_eq in E. destruct E as [-> ->]. intros [= -> _]. now apply Hc.
  - destruct (zipf_loop _ _ _ _ _ _) as [[rs t]|] eqn:El; [|discriminate]. intros [= <- _]. split; [reflexivity|].
    exact (zipf_loop_covers mx sk (proj2 Hmx) _ _ _ _ _ covers_nil (proj1 Hmx) El).
Qed.

(** Every draw from a rank distribution is a number below [mx], in the range
    that the binary search found; the search always ends inside of the
    array. *)
Lemma rand_dist_rank mx d st :
  distribution_ok mx d -> type d = DIST_ZIPF_RANK -> 0 < mx < 2 ^ 63 ->
  exists v st', rand_dist d st = Some (v, st') /\ 0 <= v < mx.
Proof.
  intros [_ Hc] Ht Hmx. unfold rand_dist. rewrite Ht. destruct (rand_uint64 high_first st) as [r st1].
  assert (Hne : zipf_ranges d <> []) by (intros E; rewrite E in Hc; inversion Hc as [|? ? ? ? ? ? ? ? Happ]; [lia|now apply app_nil in Happ]).
  assert (Hl : (0 < length (zipf_ranges d))%nat) by (destruct (zipf_ranges d); [contradiction|cbn; lia]).
  destruct (find_range_ok (zipf_ranges d) (scaled r (total_weight d)) (covers_sorted _ _ _ Hc) (length (zipf_ranges d)) 0 (Z.of_nat (length (zipf_ranges d))))
    as (i & Ei & Hi & _); [lia|lia|lia|lia|now left|].
  rewrite Ei. cbn [mbind option_bind]. destruct (lookup_lt_is_Some_2 (zipf_ranges d) (Z.to_nat i)) as [q Hq]; [lia|].
  rewrite Hq. cbn [mbind option_bind]. destruct (proj2 (covers_bounds _ _ _ Hc) _ _ Hq) as (H1 & H2 & H3).
  destruct (Z.eqb_spec (range_size q) 0); [lia|]. destruct (rand_uint64 high_first st1) as [r2 st2].
  pose proof (Z.mod_pos_bound r2 (range_size q) H2). rewrite wrap_small by lia. eexists _, _. split; [reflexivity|]. lia.
Qed.

End doubles.

(** ** [mix] is a permutation *)

(** A shift by at least half of the width is its own inverse step. *)
Lemma xorshift_inj k x y : 0 < k -> x .^ (x .>> k) = y .^ (y .>> k) -> 0 <= x -> 0 <= y -> x = y.
Proof.
  intros Hk E Hx Hy. apply Z.bits_inj'. intros n Hn.
  assert (Hb : exists m, 0 <= m /\ forall i, m <= i -> Z.testbit x i = Z.testbit y i).
  { exists (Z.max (Z.log2 x) (Z.log2 y) + 1). pose proof (Z.log2_nonneg x). split; [lia|]. intros i Hi.
    rewrite !Z.bits_above_log2 by lia. reflexivity. }
  destruct Hb as (m & Hm & Hb).
  assert (Hall : forall d i, 0 <= i -> m <= i + Z.of_nat d * k -> Z.testbit x i = Z.testbit y i).
  { induction d as [|d IH]; intros i Hi Hd; [apply Hb; lia|].
    pose proof (f_equal (fun z => Z.testbit z i) E) as Ei. cbn beta in Ei.
    rewrite !Z.lxor_spec, !Z.shiftr_spec in Ei by lia. rewrite (IH (i + k)) in Ei by lia.
    destruct (Z.testbit x i), (Z.testbit y i), (Z.testbit y (i + k)); cbn in Ei; congruence. }
  apply (Hall (Z.to_nat m)); [exact Hn|]. nia.
Qed.

Lemma odd_mul_inj a inv x y :
  u64 (a * inv) = 1 -> 0 <= x < 2 ^ 64 -> 0 <= y < 2 ^ 64 -> u64 (x * a) = u64 (y * a) -> x = y.
Proof.
  unfold wrap. intros Ha Hx Hy E.
  assert (R : forall z, 0 <= z < 2 ^ 64 -> ((z * a) mod 2 ^ 64 * inv) mod 2 ^ 64 = z).
  { intros z Hz. rewrite Z.mul_mod_idemp_l, <- Z.mul_assoc, <- Z.mul_mod_idemp_r, Ha, Z.mul_1_r by lia. now apply Z.mod_small. }
  rewrite <- (R x Hx), <- (R y Hy). now rewrite E.
Qed.

Lemma xorshift_bound k x : 0 <= k -> 0 <= x < 2 ^ 64 -> 0 <= x .^ (x .>> k) < 2 ^ 64.
Proof.
  intros Hk Hx. apply lxor_bound; [lia|exact Hx|]. rewrite Z.shiftr_div_pow2 by lia.
  assert (0 < 2 ^ k) by (apply Z.pow_pos_nonneg; lia). split; [apply Z.div_pos; lia|apply Z.div_lt_upper_bound; nia].
Qed.

Lemma mix_injective x y : 0 <= x < 2 ^ 64 -> 0 <= y < 2 ^ 64 -> mix x = mix y -> x = y.
Proof.
  intros Hx Hy E. unfold mix in E.
  pose proof (xorshift_bound 33 x ltac:(lia) Hx). pose proof (xorshift_bound 33 y ltac:(lia) Hy).
  set (x1 := x .^ (x .>> 33)) in *. set (y1 := y .^ (y .>> 33)) in *.
  assert (Hw : forall z, 0 <= u64 z < 2 ^ 64) by (intros z; apply wrap_bound; lia).
  pose proof (xorshift_bound 29 _ ltac:(lia) (Hw (x1 * 0xC2B2AE3D27D4EB4F))). pose proof (xorshift_bound 29 _ ltac:(lia) (Hw (y1 * 0xC2B2AE3D27D4EB4F))).
  apply (xorshift_inj 32) in E; [|lia|apply Hw|apply Hw].
  apply (odd_mul_inj 0x165667B19E3779F9 16855272203555305545) in E; [|reflexivity|assumption|assumption].
  apply (xorshift_inj 29) in E; [|lia|apply Hw|apply Hw].
  apply (odd_mul_inj 0xC2B2AE3D27D4EB4F 839798700976720815) in E; [|reflexivity|assumption|assumption].
  apply (xorshift_inj 33) in E; [exact E|lia|apply Hx|apply Hy].
Qed.
