(* ===== verification/Dataset.v ===== *)
(** * Data sets (dataset.c) and growing buffers (util.c)

    A data set is a source of keys: random keys of one length, random keys of
    random lengths, or a file. [build_kvs] writes all of them as [ct_kv]
    objects one after the other into a growing buffer and records where each
    begins. Memory is a list of bytes, a pointer into the buffer is an
    offset; a file is the list of its bytes. *)

From S2P Require Import Prelude KeyObject Random.
From stdpp Require Import base list.
From Stdlib Require Import ZArith Lia Bool.

#[local] Open Scope Z_scope.

Definition DATASET_DEFAULT_SIZE : Z := 10000000.
Definition MAX_KEY_SIZE : Z := 256.
Definition RAND_VAR_MAX_SIZE : Z := 16.
Definition DATASET_ALL_KEYS : Z := 0xFFFFFFFFFFFFFFFF.

(** ** Memory *)

(** Accesses to a block of memory; [None]: outside of the block. *)
Definition write_at (mem : list Z) (pos : Z) (bs : list Z) : option (list Z) :=
  if (0 <=? pos) && (pos + Z.of_nat (length bs) <=? Z.of_nat (length mem))
  then Some (take (Z.to_nat pos) mem ++ bs ++ drop (Z.to_nat pos + length bs) mem)
  else None.
Definition read_at (mem : list Z) (pos len : Z) : option (list Z) :=
  if (0 <=? pos) && (0 <=? len) && (pos + len <=? Z.of_nat (length mem))
  then Some (take (Z.to_nat len) (drop (Z.to_nat pos) mem))
  else None.

(** An [int] in memory. *)
Definition int_bytes (x : Z) : list Z := le_split 4 (u32 x).
Definition int_of_bytes (bs : list Z) : Z := to_signed 32 (le_combine bs).

(** ** Growing buffers (util.c) *)

Record dynamic_buffer_t := mk_buffer {
  size : Z;
  pos : Z;
  ptr : list Z;
}.

Section memory.
(** The bytes that [malloc] and [realloc] of the C library leave in fresh
    memory; there is always enough of it. *)
Variable fresh : nat -> list Z.

Definition malloc (n : Z) : list Z := fresh (Z.to_nat n).
Definition realloc (mem : list Z) (n : Z) : list Z :=
  take (Z.to_nat n) mem ++ fresh (Z.to_nat n - length mem).

Definition dynamic_buffer_init : dynamic_buffer_t := mk_buffer 1024 0 (malloc 1024).

Definition dynamic_buffer_extend (buf : dynamic_buffer_t) (data_size : Z) : Z * dynamic_buffer_t :=
  let old_pos := pos buf in
  let buf :=
    if size buf <? u64 (pos buf + data_size) then
      let size' := u64 (u64 (size buf * 2) + data_size) in
      mk_buffer size' (pos buf) (realloc (ptr buf) size')
    else buf in
  (old_pos, mk_buffer (size buf) (u64 (pos buf + data_size)) (ptr buf)).

(** ** Sources of keys *)

(** [blob_t]: the buffer of one key; [bytes] is its memory. *)
Record blob_t := mk_blob { blob_size : Z; bytes : list Z }.

(** The function pointer [read_key]. *)
Inductive reader := random_dataset | rand_var_dataset | file_dataset.

(** [context] is the key length of [random_dataset] and the rest of the file
    of [file_dataset]. *)
Record dataset_t := mk_dataset {
  num_keys : Z;
  total_size : Z;
  kvs : option (list Z);
  kv_pointers : list Z;
  read_key : reader;
  context_len : Z;
  context_file : list Z;
}.

(** [fread] of one item of [n] bytes: it returns 0 for an empty item. *)
Definition fread (n : Z) (file : list Z) : option (list Z * list Z) :=
  if n =? 0 then None
  else if Z.of_nat (length file) <? n then None
  else Some (take (Z.to_nat n) file, drop (Z.to_nat n) file).

Variable high_first : bool.

(** The readers return 1 or 0, the blob, the rest of the file and the state of
    the generator; [None]: they write outside of the blob. *)
Definition random_dataset_read_key (d : dataset_t) (buf : blob_t) (st : Z) : option (Z * blob_t * list Z * Z) :=
  let key_len := context_len d in
  let '(bs, st) := random_bytes (Z.to_nat key_len) st in
  bytes' ← write_at (bytes buf) 0 bs;
  Some (1, mk_blob key_len bytes', context_file d, st).

Definition rand_var_read_key (d : dataset_t) (buf : blob_t) (st : Z) : option (Z * blob_t * list Z * Z) :=
  let '(r, st) := rand_uint64 high_first st in
  let key_len := r mod RAND_VAR_MAX_SIZE in
  let '(bs, st) := random_bytes (Z.to_nat key_len) st in
  bytes' ← write_at (bytes buf) 0 bs;
  Some (1, mk_blob key_len bytes', context_file d, st).

Definition file_dataset_read_key (d : dataset_t) (buf : blob_t) (st : Z) : option (Z * blob_t * list Z * Z) :=
  match fread 4 (context_file d) with
  | None => Some (0, buf, context_file d, st)
  | Some (bs, file) =>
      let size := le_combine bs in
      if MAX_KEY_SIZE <? size then Some (0, buf, file, st)
      else
        match fread size file with
        | None => Some (0, mk_blob size (bytes buf), file, st)
        | Some (key, file) =>
            bytes' ← write_at (bytes buf) 0 key;
            Some (1, mk_blob size bytes', file, st)
        end
  end.

Definition call_read_key (d : dataset_t) : blob_t -> Z -> option (Z * blob_t * list Z * Z) :=
  match read_key d with
  | random_dataset => random_dataset_read_key d
  | rand_var_dataset => rand_var_read_key d
  | file_dataset => file_dataset_read_key d
  end.

Definition set_file (file : list Z) (d : dataset_t) : dataset_t :=
  mk_dataset (num_keys d) (total_size d) (kvs d) (kv_pointers d) (read_key d) (context_len d) file.

(** ** [init_dataset] *)

Definition init_random_dataset (num_keys key_len : Z) : option dataset_t :=
  let num_keys := if num_keys =? DATASET_ALL_KEYS then DATASET_DEFAULT_SIZE else num_keys in
  if MAX_KEY_SIZE <? key_len then None
  else Some (mk_dataset num_keys 0 None [] random_dataset key_len []).

Definition init_rand_var_dataset (num_keys : Z) : option dataset_t :=
  let num_keys := if num_keys =? DATASET_ALL_KEYS then DATASET_DEFAULT_SIZE else num_keys in
  Some (mk_dataset num_keys 0 None [] rand_var_dataset 0 []).

(** [strtol(s, &endptr, 10)]: the value and what [endptr] points to. *)
Fixpoint digits (s : list Z) (acc : Z) : Z * list Z :=
  match s with
  | c :: t => if (48 <=? c) && (c <=? 57) then digits t (10 * acc + (c - 48)) else (acc, s)
  | [] => (acc, [])
  end.
Definition is_space (c : Z) : bool := (c =? 32) || ((9 <=? c) && (c <=? 13)).
Fixpoint skip_space (s : list Z) : list Z :=
  match s with c :: t => if is_space c then skip_space t else s | [] => [] end.
Definition is_digit_first (s : list Z) : bool :=
  match s with c :: _ => (48 <=? c) && (c <=? 57) | [] => false end.
Definition strtol (s : list Z) : Z * list Z :=
  let t := skip_space s in
  let '(neg, t) := match t with
    | c :: t' => if c =? 45 then (true, t') else if c =? 43 then (false, t') else (false, t)
    | [] => (false, []) end in
  if is_digit_first t then
    let '(v, rest) := digits t 0 in
    ((if neg then Z.max (- 2 ^ 63) (- v) else Z.min (2 ^ 63 - 1) v), rest)
  else (0, s).

(** [atoi] of the GNU C library: [strtol] converted to [int]. *)
Definition atoi (s : list Z) : Z := to_signed 32 (u32 (fst (strtol s))).

Definition NAME_RAND_VAR : list Z := [114; 97; 110; 100; 45; 118; 97; 114].
Definition NAME_RAND : list Z := [114; 97; 110; 100; 45].

(** [name] is a C string; [fopen name] is the contents of the file. [None]
    is the return value 0. *)
Definition init_dataset (fopen : list Z -> option (list Z)) (name : list Z) (keys_requested : Z) : option dataset_t :=
  if decide (name = NAME_RAND_VAR) then init_rand_var_dataset keys_requested
  else if decide (take 5 name = NAME_RAND) then
    match snd (strtol (drop 5 name)) with
    | _ :: _ => None
    | [] => init_random_dataset keys_requested (atoi (drop 5 name))
    end
  else
    file ← fopen name;
    '(n, file) ← fread 8 file;
    let num_keys := if keys_requested <? le_combine n then keys_requested else le_combine n in
    '(t, file) ← fread 8 file;
    Some (mk_dataset num_keys (le_combine t) None [] file_dataset 0 file).

(** ** [build_kvs] *)

(** A [ct_kv] in memory. *)
Definition kv_image (kv : ct_kv) : list Z :=
  int_bytes (key_size kv) ++ int_bytes (value_size kv) ++ kv_bytes kv.

(** The [ct_kv] at an address: the sizes, and the memory after them. *)
Definition kv_at (mem : list Z) (p : Z) : option ct_kv :=
  k ← read_at mem p 4;
  v ← read_at mem (p + 4) 4;
  Some (mk_kv (int_of_bytes k) (int_of_bytes v) (drop (Z.to_nat (p + SIZEOF_CT_KV)) mem)).

(** The body of the first loop: read a key and append it. [memcpy] converts
    the size to [size_t]; [None]: an access outside of a block. *)
Definition append_kv (mem : list Z) (buf_pos : Z) (key_buf : blob_t) (value_size : Z) : option (list Z) :=
  let kv := kv_init (mk_kv 0 0 []) (u64 (blob_size key_buf)) (u64 value_size) in
  mem ← write_at mem buf_pos (int_bytes (key_size kv));
  mem ← write_at mem (buf_pos + 4) (int_bytes (KeyObject.value_size kv));
  key ← read_at (bytes key_buf) 0 (u64 (blob_size key_buf));
  mem ← write_at mem (buf_pos + SIZEOF_CT_KV) key;
  write_at mem (buf_pos + SIZEOF_CT_KV + key_size kv) (replicate (Z.to_nat (u64 value_size)) 0xAB).

(** The result of the first loop: the buffer, or [None] for an early return. *)
Fixpoint read_kvs (n : nat) (d : dataset_t) (value_size : Z) (kvs_buf : dynamic_buffer_t) (key_buf : blob_t) (st : Z)
    : option (option dynamic_buffer_t * dataset_t * Z) :=
  match n with
  | O => Some (Some kvs_buf, d, st)
  | S k =>
      '(ok, key_buf, file, st) ← call_read_key d key_buf st;
      let d := set_file file d in
      if ok =? 0 then Some (None, d, st)
      else
        let kv_len := kv_required_size (u64 (blob_size key_buf)) (u64 value_size) in
        let '(buf_pos, kvs_buf) := dynamic_buffer_extend kvs_buf kv_len in
        mem ← append_kv (ptr kvs_buf) buf_pos key_buf value_size;
        read_kvs k d value_size (mk_buffer (size kvs_buf) (pos kvs_buf) mem) key_buf st
  end.

(** The second loop. *)
Fixpoint find_kvs (n : nat) (mem : list Z) (buf_pos : Z) : option (list Z) :=
  match n with
  | O => Some []
  | S k =>
      kv ← kv_at mem buf_pos;
      ps ← find_kvs k mem (u64 (buf_pos + kv_size kv));
      Some (buf_pos :: ps)
  end.

Definition build_kvs (d : dataset_t) (value_size : Z) (st : Z) : option (dataset_t * Z) :=
  match kvs d with
  | Some _ => Some (d, st)
  | None =>
      let key_buf := mk_blob 0 (malloc MAX_KEY_SIZE) in
      '(r, d, st) ← read_kvs (Z.to_nat (num_keys d)) d value_size dynamic_buffer_init key_buf st;
      match r with
      | None => Some (d, st)
      | Some kvs_buf =>
          ps ← find_kvs (Z.to_nat (num_keys d)) (ptr kvs_buf) 0;
          Some (mk_dataset (num_keys d) (total_size d) (Some (ptr kvs_buf)) ps (read_key d) (context_len d) (context_file d), st)
      end
  end.

End memory.
