(* ===== verification/DatasetSpec.v ===== *)
(** * Reading data sets (dataset.c)

    [build_kvs] lays the keys of a data set out as consecutive objects that
    are read back from the pointers it records. *)

From stdpp Require Import base list.
From Stdlib Require Import ZArith Lia Bool.
From S2P Require Import Prelude KeyObject Random Dataset.

#[local] Open Scope Z_scope.

(** ** Accesses to memory *)

Lemma write_at_middle a x c bs p :
  p = Z.of_nat (length a) -> length x = length bs -> write_at (a ++ x ++ c) p bs = Some (a ++ bs ++ c).
Proof.
  intros -> Hl. unfold write_at. rewrite !length_app. zcases. f_equal. rewrite Nat2Z.id.
  rewrite take_app_length. f_equal. f_equal. rewrite <- Hl, <- drop_drop, drop_app_length. now rewrite drop_app_length.
Qed.

Lemma read_at_middle a x c p n :
  p = Z.of_nat (length a) -> n = Z.of_nat (length x) -> read_at (a ++ x ++ c) p n = Some x.
Proof.
  intros -> ->. unfold read_at. rewrite !length_app. zcases. f_equal. now rewrite !Nat2Z.id, drop_app_length, take_app_length.
Qed.

Lemma length_int_bytes x : length (int_bytes x) = 4%nat.
Proof. apply length_le_split. Qed.

Lemma int_of_int_bytes x : - 2 ^ 31 <= x < 2 ^ 31 -> int_of_bytes (int_bytes x) = x.
Proof.
  intros H. unfold int_of_bytes, int_bytes. rewrite le_combine_split. change (8 * Z.of_nat 4) with 32.
  unfold to_signed, wrap. rewrite Z.mod_mod by lia. change (2 ^ (32 - 1)) with (2 ^ 31).
  destruct (Z.lt_ge_cases x 0).
  - replace (x mod 2 ^ 32) with (x + 2 ^ 32) by (apply (Z.mod_unique _ _ (-1)); lia). zcases.
  - rewrite Z.mod_small by lia. zcases.
Qed.

Lemma length_kv_image kv : length (kv_image kv) = (8 + length (kv_bytes kv))%nat.
Proof. unfold kv_image. rewrite !length_app, !length_int_bytes. lia. Qed.

Section fresh.
Variable fresh : nat -> list Z.
Hypothesis fresh_length : forall n, length (fresh n) = n.

(** ** The growing buffer *)

Record buffer_ok (b : dynamic_buffer_t) : Prop := mk_buffer_ok {
  bo_length : Z.of_nat (length (ptr b)) = size b;
  bo_pos : 0 <= pos b <= size b;
  bo_size : size b <= 1024 + 3 * pos b;
}.

Lemma dynamic_buffer_init_ok : buffer_ok (dynamic_buffer_init fresh) /\ pos (dynamic_buffer_init fresh) = 0.
Proof. split; [|reflexivity]. constructor; cbn [dynamic_buffer_init ptr size pos]; [unfold malloc; rewrite fresh_length; reflexivity|lia|lia]. Qed.

(** Growing keeps the bytes in use. *)
Lemma dynamic_buffer_extend_ok b d :
  buffer_ok b -> 0 <= d -> 1024 + 3 * (pos b + d) < 2 ^ 64 ->
  exists b', dynamic_buffer_extend fresh b d = (pos b, b') /\ buffer_ok b' /\ pos b' = pos b + d /\
    take (Z.to_nat (pos b)) (ptr b') = take (Z.to_nat (pos b)) (ptr b).
Proof.
  intros [Hl Hp Hs] Hd Hm. unfold dynamic_buffer_extend.
  rewrite !(wrap_small 64 (pos b + d)) by lia. eexists. split; [reflexivity|].
  destruct (Z.ltb_spec (size b) (pos b + d)) as [Hlt|Hle]; cbn [size pos ptr].
  - rewrite (wrap_small 64 (size b * 2)), !wrap_small by lia. unfold realloc. split; [|split; [reflexivity|]].
    + constructor; cbn [size pos ptr]; [rewrite length_app, length_take, fresh_length; lia|lia|lia].
    + rewrite take_app_le by (rewrite length_take; lia). rewrite take_take. f_equal. lia.
  - rewrite wrap_small by lia. split; [constructor; cbn; lia|]. split; reflexivity.
Qed.

(** ** Reading one key *)

Variable high_first : bool.

(** The blob of the key: [MAX_KEY_SIZE] bytes of memory. *)
Definition blob_ok (buf : blob_t) : Prop := Z.of_nat (length (bytes buf)) = MAX_KEY_SIZE.
Definition blob_key (buf : blob_t) : list Z := take (Z.to_nat (blob_size buf)) (bytes buf).

Record dataset_ok (d : dataset_t) : Prop := mk_dataset_ok {
  do_len : read_key d = random_dataset -> 0 <= context_len d <= MAX_KEY_SIZE;
  do_file : bytes_ok (context_file d);
}.

Lemma random_bytes_ok n : forall st, length (fst (random_bytes n st)) = n /\ bytes_ok (fst (random_bytes n st)).
Proof.
  induction n as [|n IH]; intros st; cbn [random_bytes]; [split; [reflexivity|constructor]|].
  destruct (rand_dword st) as [x st1]. specialize (IH st1). destruct (random_bytes n st1) as [l st2]. cbn in *.
  destruct IH as [H1 H2]. split; [now rewrite H1|]. constructor; [|exact H2]. apply Z.mod_pos_bound. lia.
Qed.

(** A key written to the blob is the key of the blob. *)
Lemma write_blob buf key n :
  blob_ok buf -> n = Z.of_nat (length key) -> n <= MAX_KEY_SIZE ->
  exists mem, write_at (bytes buf) 0 key = Some mem /\ blob_ok (mk_blob n mem) /\ blob_key (mk_blob n mem) = key.
Proof.
  intros Hb -> Hn. unfold blob_ok in *. rewrite <- (take_drop (length key) (bytes buf)) in Hb |- *.
  assert (Hl : length (take (length key) (bytes buf)) = length key).
  { rewrite length_app, length_take, length_drop in Hb. rewrite length_take. lia. }
  exists (key ++ drop (length key) (bytes buf)).
  split; [exact (write_at_middle [] _ _ key 0 eq_refl Hl)|]. cbn [bytes blob_size].
  rewrite !length_app in *. split; [lia|]. unfold blob_key. cbn. now rewrite Nat2Z.id, take_app_length.
Qed.

(** What one call gives: a key of at most [MAX_KEY_SIZE] bytes, or 0. *)
Definition key_result (d : dataset_t) (r : Z * blob_t * list Z * Z) : Prop :=
  let '(ok, buf, file, _) := r in
  blob_ok buf /\ bytes_ok file /\
  (ok = 0 \/ ok = 1 /\ 0 <= blob_size buf <= MAX_KEY_SIZE /\ bytes_ok (blob_key buf)).

Lemma fread_ok n file x file' :
  fread n file = Some (x, file') -> bytes_ok file ->
  file = x ++ file' /\ Z.of_nat (length x) = Z.max 0 n /\ bytes_ok x /\ bytes_ok file'.
Proof.
  unfold fread. destruct (n =? 0); [discriminate|]. destruct (Z.ltb_spec (Z.of_nat (length file)) n); [discriminate|].
  intros [= <- <-] Hb. split; [now rewrite take_drop|]. split; [rewrite length_take; lia|].
  split; [now apply Forall_take|now apply Forall_drop].
Qed.

Lemma call_read_key_ok d buf st :
  dataset_ok d -> blob_ok buf ->
  exists r, call_read_key high_first d buf st = Some r /\ key_result d r.
Proof.
  intros [Hlen Hfile] Hb. unfold call_read_key. destruct (read_key d) eqn:E.
  - unfold random_dataset_read_key. specialize (Hlen eq_refl).
    destruct (random_bytes_ok (Z.to_nat (context_len d)) st) as [H1 H2]. destruct (random_bytes _ st) as [bs st1]. cbn in H1, H2.
    destruct (write_blob buf bs (context_len d) Hb ltac:(lia) ltac:(lia)) as (mem & -> & Hm & Hk).
    eexists. split; [reflexivity|]. split; [exact Hm|]. split; [exact Hfile|]. right. rewrite Hk. cbn [blob_size]. split; [reflexivity|now split].
  - unfold rand_var_read_key. destruct (rand_uint64 high_first st) as [x st1].
    assert (Hx : 0 <= x mod RAND_VAR_MAX_SIZE < 16) by (apply Z.mod_pos_bound; reflexivity).
    destruct (random_bytes_ok (Z.to_nat (x mod RAND_VAR_MAX_SIZE)) st1) as [H1 H2]. destruct (random_bytes _ st1) as [bs st2]. cbn in H1, H2.
    destruct (write_blob buf bs (x mod RAND_VAR_MAX_SIZE) Hb ltac:(lia) ltac:(unfold MAX_KEY_SIZE; lia)) as (mem & -> & Hm & Hk).
    eexists. split; [reflexivity|]. split; [exact Hm|]. split; [exact Hfile|]. right. rewrite Hk. cbn [blob_size].
    split; [reflexivity|]. split; [unfold MAX_KEY_SIZE; lia|exact H2].
  - unfold file_dataset_read_key. destruct (fread 4 (context_file d)) as [[bs file]|] eqn:E1.
    2:{ eexists. split; [reflexivity|]. split; [exact Hb|]. split; [exact Hfile|now left]. }
    destruct (fread_ok _ _ _ _ E1 Hfile) as (_ & _ & Hbs & Hf). pose proof (le_combine_bound bs Hbs) as Hbd.
    destruct (Z.ltb_spec MAX_KEY_SIZE (le_combine bs)) as [|Hle].
    { eexists. split; [reflexivity|]. split; [exact Hb|]. split; [exact Hf|now left]. }
    destruct (fread (le_combine bs) file) as [[key file']|] eqn:E2.
    2:{ eexists. split; [reflexivity|]. split; [exact Hb|]. split; [exact Hf|now left]. }
    destruct (fread_ok _ _ _ _ E2 Hf) as (_ & Hl & Hkey & Hf').
    destruct (write_blob buf key (le_combine bs) Hb ltac:(lia) Hle) as (mem & -> & Hm & Hk).
    eexists. split; [reflexivity|]. split; [exact Hm|]. split; [exact Hf'|]. right. rewrite Hk. cbn [blob_size].
    split; [reflexivity|]. split; [lia|exact Hkey].
Qed.

Lemma set_file_ok d file : dataset_ok d -> bytes_ok file -> dataset_ok (set_file file d).
Proof. intros [H1 H2] H. now constructor. Qed.

(** The keys that [n] calls give; [None] when one of them gives none. *)
Fixpoint read_keys (n : nat) (d : dataset_t) (buf : blob_t) (st : Z) : option (list (list Z)) :=
  match n with
  | O => Some []
  | S k =>
      '(ok, buf, file, st) ← call_read_key high_first d buf st;
      if ok =? 0 then None
      else ks ← read_keys k (set_file file d) buf st; Some (blob_key buf :: ks)
  end.

(** ** Writing one object *)

Definition kv_of (value_size : Z) (key : list Z) : ct_kv :=
  mk_kv (Z.of_nat (length key)) value_size (key ++ replicate (Z.to_nat value_size) 0xAB).

(** Memory is cut into a list of consecutive parts. *)
Lemma cut (mem : list Z) n : (n <= length mem)%nat -> exists a c, mem = a ++ c /\ length a = n.
Proof. intros H. exists (take n mem), (drop n mem). rewrite take_drop, length_take. split; [reflexivity|lia]. Qed.

Lemma append_kv_ok a x c buf v :
  blob_ok buf -> 0 <= blob_size buf <= MAX_KEY_SIZE -> 0 <= v < 2 ^ 31 ->
  length x = length (kv_image (kv_of v (blob_key buf))) ->
  append_kv (a ++ x ++ c) (Z.of_nat (length a)) buf v = Some (a ++ kv_image (kv_of v (blob_key buf)) ++ c).
Proof.
  intros Hb Hs Hv Hx. unfold blob_ok, MAX_KEY_SIZE in *.
  assert (Hk : Z.of_nat (length (blob_key buf)) = blob_size buf) by (unfold blob_key; rewrite length_take; lia).
  rewrite length_kv_image in Hx. cbn [kv_of kv_bytes] in Hx. rewrite length_app, length_replicate in Hx.
  destruct (cut x 4) as (h1 & x1 & -> & H1); [lia|]. rewrite length_app in Hx.
  destruct (cut x1 4) as (h2 & x2 & -> & H2); [lia|]. rewrite length_app in Hx.
  destruct (cut x2 (length (blob_key buf))) as (h3 & h4 & -> & H3); [lia|]. rewrite length_app in Hx.
  assert (Hu : forall z, 0 <= z < 2 ^ 31 -> to_signed 32 (u32 (u64 z)) = z).
  { intros z Hz. rewrite (wrap_small 64), (wrap_small 32) by lia. unfold to_signed. zcases. }
  unfold append_kv, kv_init. cbn [key_size KeyObject.value_size]. rewrite !Hu, !(wrap_small 64) by lia.
  rewrite <- !app_assoc. rewrite write_at_middle by (reflexivity || now rewrite length_int_bytes). cbn [mbind option_bind].
  rewrite (app_assoc a). rewrite write_at_middle by (rewrite ?length_app, ?length_int_bytes; lia). cbn [mbind option_bind].
  assert (Er : read_at (bytes buf) 0 (blob_size buf) = Some (blob_key buf)).
  { rewrite <- (take_drop (Z.to_nat (blob_size buf)) (bytes buf)). exact (read_at_middle [] _ _ 0 _ eq_refl (eq_sym Hk)). }
  rewrite Er. cbn [mbind option_bind]. rewrite (app_assoc (a ++ _)).
  rewrite write_at_middle by (rewrite ?length_app, ?length_int_bytes; unfold SIZEOF_CT_KV; lia). cbn [mbind option_bind].
  rewrite (app_assoc ((a ++ _) ++ _)).
  rewrite write_at_middle by (rewrite ?length_app, ?length_int_bytes, ?length_replicate; unfold SIZEOF_CT_KV; lia).
  f_equal. unfold kv_image, kv_of. cbn [key_size KeyObject.value_size kv_bytes]. rewrite Hk, <- !app_assoc. reflexivity.
Qed.

(** ** The first loop *)

(** The objects of a list of keys, one after the other. *)
Definition images (v : Z) (ks : list (list Z)) : list Z := concat (map (fun k => kv_image (kv_of v k)) ks).

Lemma images_app v ks ks' : images v (ks ++ ks') = images v ks ++ images v ks'.
Proof. unfold images. now rewrite map_app, concat_app. Qed.

Lemma length_image v k : 0 <= v -> Z.of_nat (length (kv_image (kv_of v k))) = SIZEOF_CT_KV + Z.of_nat (length k) + v.
Proof. intros Hv. rewrite length_kv_image. cbn [kv_of kv_bytes]. rewrite length_app, length_replicate. unfold SIZEOF_CT_KV. lia. Qed.

Definition holds (v : Z) (ks : list (list Z)) (b : dynamic_buffer_t) : Prop :=
  buffer_ok b /\ Z.of_nat (length (images v ks)) = pos b /\ exists rest, ptr b = images v ks ++ rest.

Definition max_object (v : Z) : Z := SIZEOF_CT_KV + MAX_KEY_SIZE + v.

Lemma append_object v ks b buf :
  holds v ks b -> blob_ok buf -> 0 <= blob_size buf <= MAX_KEY_SIZE -> 0 <= v < 2 ^ 31 ->
  1024 + 3 * (pos b + max_object v) < 2 ^ 64 ->
  exists b1 mem,
    dynamic_buffer_extend fresh b (kv_required_size (u64 (blob_size buf)) (u64 v)) = (pos b, b1) /\
    append_kv (ptr b1) (pos b) buf v = Some mem /\
    holds v (ks ++ [blob_key buf]) (mk_buffer (size b1) (pos b1) mem) /\ pos b1 <= pos b + max_object v.
Proof.
  intros (Hb & Hp & rest & Hr) Hbl Hs Hv Hm. unfold max_object, kv_required_size, MAX_KEY_SIZE, SIZEOF_CT_KV in *.
  pose proof (bo_pos _ Hb) as Hpos. rewrite (wrap_small 64 (blob_size buf)), (wrap_small 64 v), wrap_small by lia.
  assert (Hlk : Z.of_nat (length (blob_key buf)) = blob_size buf).
  { unfold blob_ok, blob_key, MAX_KEY_SIZE in *. rewrite length_take. lia. }
  pose proof (length_image v (blob_key buf) ltac:(lia)) as Hli. unfold SIZEOF_CT_KV in Hli.
  destruct (dynamic_buffer_extend_ok b (8 + blob_size buf + v) Hb ltac:(lia) ltac:(lia)) as (b1 & E1 & Hb1 & Hp1 & Ht).
  assert (Hsplit : exists x c, ptr b1 = images v ks ++ x ++ c /\ length x = length (kv_image (kv_of v (blob_key buf)))).
  { destruct Hb1 as [Hl1 Hq1 _]. rewrite Hp1 in Hq1.
    exists (take (length (kv_image (kv_of v (blob_key buf)))) (drop (length (images v ks)) (ptr b1))),
           (drop (length (kv_image (kv_of v (blob_key buf)))) (drop (length (images v ks)) (ptr b1))).
    rewrite take_drop, length_take, length_drop. split; [|lia].
    rewrite <- (take_drop (length (images v ks)) (ptr b1)) at 1. f_equal.
    replace (length (images v ks)) with (Z.to_nat (pos b)) by lia. rewrite Ht, Hr.
    replace (Z.to_nat (pos b)) with (length (images v ks)) by lia. apply take_app_length. }
  destruct Hsplit as (x & c & Eb & Hx). exists b1, (images v ks ++ kv_image (kv_of v (blob_key buf)) ++ c).
  split; [exact E1|]. split; [rewrite Eb, <- Hp; now apply append_kv_ok|]. split; [|lia].
  assert (Eim : images v (ks ++ [blob_key buf]) = images v ks ++ kv_image (kv_of v (blob_key buf))).
  { rewrite images_app. cbn. now rewrite app_nil_r. }
  split; [|split].
  - destruct Hb1 as [Hl1 Hq1 Hz1]. constructor; cbn [size pos ptr]; [|exact Hq1|exact Hz1].
    rewrite <- Hl1, Eb, !length_app, Hx. reflexivity.
  - cbn [pos]. rewrite Eim, length_app, Hp1. lia.
  - exists c. cbn [ptr]. now rewrite Eim, <- app_assoc.
Qed.

(** The loop appends the keys that the data set gives, or returns early. *)
Lemma read_kvs_ok v n : 0 <= v < 2 ^ 31 -> forall d b buf st ks,
  dataset_ok d -> blob_ok buf -> holds v ks b -> 1024 + 3 * (pos b + Z.of_nat n * max_object v) < 2 ^ 64 ->
  exists r d' st', read_kvs fresh high_first n d v b buf st = Some (r, d', st') /\
    num_keys d' = num_keys d /\ kvs d' = kvs d /\
    match read_keys n d buf st with
    | Some ks' => exists b', r = Some b' /\ holds v (ks ++ ks') b'
    | None => r = None
    end.
Proof.
  intros Hv. induction n as [|n IH]; intros d b buf st ks Hd Hbl Hh Hm; cbn [read_kvs read_keys].
  - exists (Some b), d, st. split; [reflexivity|]. split; [reflexivity|]. split; [reflexivity|]. exists b. now rewrite app_nil_r.
  - destruct (call_read_key_ok d buf st Hd Hbl) as ([[[ok buf1] file] st1] & E & Hbl1 & Hf & Hok). rewrite E. cbn [mbind option_bind].
    pose proof (bo_pos _ (proj1 Hh)) as Hpos.
    destruct Hok as [->|(-> & Hs & _)]; cbn [Z.eqb].
    + exists None, (set_file file d), st1. now repeat split.
    + assert (Hmo : 0 <= max_object v) by (unfold max_object, SIZEOF_CT_KV, MAX_KEY_SIZE; lia).
      destruct (append_object v ks b buf1 Hh Hbl1 Hs Hv ltac:(nia)) as (b1 & mem & E1 & E2 & Hh1 & Hp1).
      rewrite E1, E2. cbn [mbind option_bind].
      destruct (IH (set_file file d) (mk_buffer (size b1) (pos b1) mem) buf1 st1 (ks ++ [blob_key buf1])) as (r & d' & st' & E3 & Hn & Hk & Hr);
        [now apply set_file_ok|exact Hbl1|exact Hh1|cbn [pos]; nia|].
      exists r, d', st'. split; [exact E3|]. split; [exact Hn|]. split; [exact Hk|].
      destruct (read_keys n (set_file file d) buf1 st1) as [ks'|]; cbn [mbind option_bind]; [|exact Hr].
      destruct Hr as (b' & -> & Hh'). exists b'. split; [reflexivity|]. now rewrite <- app_assoc in Hh'.
Qed.

(** ** The second loop *)

(** The object at [p] holds the key and a value of bytes 0xAB. *)
Definition holds_key (mem : list Z) (v p : Z) (key : list Z) : Prop :=
  exists kv, kv_at mem p = Some kv /\ kv_key_size kv = Z.of_nat (length key) /\ kv_value_size kv = v /\
    kv_key kv = key /\ take (Z.to_nat v) (kv_value_bytes kv) = replicate (Z.to_nat v) 0xAB.

(** Where the objects begin. *)
Fixpoint offsets (p v : Z) (ks : list (list Z)) : list Z :=
  match ks with
  | [] => []
  | k :: ks => p :: offsets (p + SIZEOF_CT_KV + Z.of_nat (length k) + v) v ks
  end.

Lemma kv_at_image a c v k :
  0 <= v < 2 ^ 31 -> Z.of_nat (length k) < 2 ^ 31 ->
  kv_at (a ++ kv_image (kv_of v k) ++ c) (Z.of_nat (length a)) =
    Some (mk_kv (Z.of_nat (length k)) v (k ++ replicate (Z.to_nat v) 0xAB ++ c)).
Proof.
  intros Hv Hk. unfold kv_at, kv_image. cbn [kv_of key_size KeyObject.value_size kv_bytes]. rewrite <- !app_assoc.
  rewrite (read_at_middle a _ _ (Z.of_nat (length a))) by (rewrite ?length_int_bytes; reflexivity). cbn [mbind option_bind].
  rewrite (app_assoc a). rewrite (read_at_middle (a ++ _)) by (rewrite ?length_app, ?length_int_bytes; lia). cbn [mbind option_bind].
  rewrite !int_of_int_bytes by lia. rewrite (app_assoc (a ++ _)).
  replace (Z.to_nat _) with (length ((a ++ int_bytes (Z.of_nat (length k))) ++ int_bytes v));
    [now rewrite drop_app_length|]. rewrite !length_app, !length_int_bytes. unfold SIZEOF_CT_KV. lia.
Qed.

Lemma image_holds_key a c v k :
  0 <= v < 2 ^ 31 -> Z.of_nat (length k) < 2 ^ 31 ->
  holds_key (a ++ kv_image (kv_of v k) ++ c) v (Z.of_nat (length a)) k.
Proof.
  intros Hv Hk. eexists. split; [now apply kv_at_image|]. unfold kv_key_size, kv_value_size, kv_key, kv_value_bytes. cbn [key_size KeyObject.value_size kv_bytes].
  rewrite !(wrap_small 64) by lia. rewrite Nat2Z.id. split; [reflexivity|]. split; [reflexivity|].
  split; [apply take_app_length|]. rewrite drop_app_length. rewrite <- (length_replicate (Z.to_nat v) 0xAB) at 1. apply take_app_length.
Qed.

Lemma find_kvs_ok v ks : 0 <= v < 2 ^ 31 -> Forall (fun k => Z.of_nat (length k) <= MAX_KEY_SIZE) ks ->
  forall a c mem, mem = a ++ images v ks ++ c ->
  Z.of_nat (length a) + Z.of_nat (length ks) * max_object v < 2 ^ 64 ->
  find_kvs (length ks) mem (Z.of_nat (length a)) = Some (offsets (Z.of_nat (length a)) v ks) /\
  Forall2 (holds_key mem v) (offsets (Z.of_nat (length a)) v ks) ks.
Proof.
  intros Hv Hks. induction Hks as [|k ks Hk Hks IH]; intros a c mem Em Hb; [split; [reflexivity|constructor]|].
  cbn [find_kvs offsets length] in *. unfold MAX_KEY_SIZE in Hk. unfold images in Em. cbn in Em. fold (images v ks) in Em. rewrite <- app_assoc in Em.
  assert (Ha : Z.of_nat (length a) + SIZEOF_CT_KV + Z.of_nat (length k) + v = Z.of_nat (length (a ++ kv_image (kv_of v k)))).
  { rewrite length_app, Nat2Z.inj_add, length_image by lia. lia. }
  assert (Hmo : SIZEOF_CT_KV + Z.of_nat (length k) + v <= max_object v) by (unfold max_object, MAX_KEY_SIZE; lia).
  destruct (IH (a ++ kv_image (kv_of v k)) c mem) as [E1 E2]; [now rewrite <- app_assoc|unfold SIZEOF_CT_KV in *; nia|].
  rewrite Ha. split.
  - assert (Ekv : kv_at mem (Z.of_nat (length a)) = Some (mk_kv (Z.of_nat (length k)) v (k ++ replicate (Z.to_nat v) 0xAB ++ images v ks ++ c)))
      by (rewrite Em; apply kv_at_image; lia).
    rewrite Ekv. cbn [mbind option_bind]. unfold kv_size. cbn [key_size KeyObject.value_size].
    assert (Hmax : 0 <= max_object v) by (unfold max_object, SIZEOF_CT_KV, MAX_KEY_SIZE; lia). unfold SIZEOF_CT_KV in *.
    rewrite (wrap_small 64 (8 + _ + _)) by lia. rewrite wrap_small by nia.
    replace (Z.of_nat (length a) + (8 + Z.of_nat (length k) + v)) with (Z.of_nat (length (a ++ kv_image (kv_of v k)))) by lia.
    now rewrite E1.
  - constructor; [|exact E2]. rewrite Em. apply image_holds_key; lia.
Qed.

(** ** [build_kvs] *)

Definition key_buffer : blob_t := mk_blob 0 (malloc fresh MAX_KEY_SIZE).

Lemma key_buffer_ok : blob_ok key_buffer.
Proof. unfold blob_ok, key_buffer, malloc. cbn [bytes]. rewrite fresh_length. reflexivity. Qed.

Lemma read_keys_length n : forall d buf st ks,
  dataset_ok d -> blob_ok buf -> read_keys n d buf st = Some ks ->
  length ks = n /\ Forall (fun k => Z.of_nat (length k) <= MAX_KEY_SIZE) ks.
Proof.
  induction n as [|n IH]; intros d buf st ks Hd Hb; cbn [read_keys]; [intros [= <-]; now split; [|constructor]|].
  destruct (call_read_key_ok d buf st Hd Hb) as ([[[ok buf1] file] st1] & E & Hb1 & Hf & Hok). rewrite E. cbn [mbind option_bind].
  destruct (ok =? 0) eqn:E0; [discriminate|]. destruct Hok as [->|(_ & Hs & _)]; [discriminate|].
  destruct (read_keys n (set_file file d) buf1 st1) as [ks'|] eqn:E1; [|discriminate]. intros [= <-].
  destruct (IH (set_file file d) _ _ _ (set_file_ok _ _ Hd Hf) Hb1 E1) as [H1 H2]. split; [cbn; now rewrite H1|].
  constructor; [unfold blob_key; rewrite length_take; lia|exact H2].
Qed.

(** The result of [build_kvs], for every source of keys. *)
Lemma build_kvs_ok d v st :
  dataset_ok d -> kvs d = None -> 0 <= v < 2 ^ 31 -> 0 <= num_keys d -> 1024 + 3 * (num_keys d * max_object v) < 2 ^ 64 ->
  exists d' st', build_kvs fresh high_first d v st = Some (d', st') /\ num_keys d' = num_keys d /\
    match read_keys (Z.to_nat (num_keys d)) d key_buffer st with
    | Some ks => exists mem, kvs d' = Some mem /\ kv_pointers d' = offsets 0 v ks /\ Forall2 (holds_key mem v) (kv_pointers d') ks
    | None => kvs d' = None
    end.
Proof.
  intros Hd Hk Hv Hn Hm. unfold build_kvs. rewrite Hk. fold key_buffer.
  destruct dynamic_buffer_init_ok as [Hi Hi0].
  destruct (read_kvs_ok v (Z.to_nat (num_keys d)) Hv d (dynamic_buffer_init fresh) key_buffer st [] Hd key_buffer_ok) as (r & d' & st' & E & En & Ek & Hr).
  { split; [exact Hi|]. split; [reflexivity|]. eexists. reflexivity. }
  { rewrite Hi0. rewrite Z2Nat.id by lia. lia. }
  rewrite E. cbn [mbind option_bind].
  destruct (read_keys _ d key_buffer st) as [ks|] eqn:Eks.
  - destruct Hr as (b' & -> & Hb' & _ & rest & Eb). cbn [app] in Eb. rewrite En.
    destruct (read_keys_length _ _ _ _ _ Hd key_buffer_ok Eks) as [Hl Hks].
    destruct (find_kvs_ok v ks Hv Hks [] rest (ptr b') Eb) as [E1 E2].
    { cbn [length]. rewrite Hl, Z2Nat.id by lia. unfold max_object, SIZEOF_CT_KV, MAX_KEY_SIZE in *. nia. }
    cbn [length] in E1, E2. change (Z.of_nat 0) with 0 in *. rewrite Hl in E1. rewrite E1. cbn [mbind option_bind].
    eexists _, _. split; [reflexivity|]. split; [reflexivity|]. exists (ptr b'). now repeat split.
  - subst r. eexists _, _. split; [reflexivity|]. split; [exact En|]. now rewrite Ek.
Qed.

(** ** Files of keys *)

Definition record_of (key : list Z) : list Z := le_split 4 (Z.of_nat (length key)) ++ key.

(** A file in the format that [init_dataset] reads: the number of keys, their
    total length, and each key after its length. *)
Definition file_of (total : Z) (keys : list (list Z)) : list Z :=
  le_split 8 (Z.of_nat (length keys)) ++ le_split 8 total ++ concat (map record_of keys).

Definition key_fits (key : list Z) : Prop := 1 <= Z.of_nat (length key) <= MAX_KEY_SIZE /\ bytes_ok key.

Lemma fread_app n x rest : 0 < n -> Z.of_nat (length x) = n -> fread n (x ++ rest) = Some (x, rest).
Proof.
  intros Hn <-. unfold fread. rewrite length_app. zcases.
  now rewrite Nat2Z.id, take_app_length, drop_app_length.
Qed.

Lemma le_combine_split_small n x : 0 <= x < 2 ^ (8 * Z.of_nat n) -> le_combine (le_split n x) = x.
Proof. intros H. rewrite le_combine_split. now apply wrap_small. Qed.

(** One record of a file is read as its key. *)
Lemma file_read_record d buf st key rest :
  context_file d = record_of key ++ rest -> blob_ok buf -> key_fits key ->
  exists buf', file_dataset_read_key d buf st = Some (1, buf', rest, st) /\ blob_ok buf' /\ blob_key buf' = key.
Proof.
  intros Hf Hb [Hl Hk]. unfold file_dataset_read_key. rewrite Hf. unfold record_of. rewrite <- app_assoc.
  rewrite fread_app by (rewrite ?length_le_split; lia). unfold MAX_KEY_SIZE in Hl.
  rewrite le_combine_split_small by (change (8 * Z.of_nat 4) with 32; lia).
  destruct (Z.ltb_spec MAX_KEY_SIZE (Z.of_nat (length key))) as [Hlt|_]; [unfold MAX_KEY_SIZE in Hlt; lia|].
  rewrite fread_app by lia.
  destruct (write_blob buf key _ Hb eq_refl ltac:(unfold MAX_KEY_SIZE; lia)) as (mem & -> & Hm & Hkey).
  eexists. split; [reflexivity|]. now split.
Qed.

Lemma read_keys_file keys : Forall key_fits keys -> forall d buf st rest,
  read_key d = file_dataset -> context_file d = concat (map record_of keys) ++ rest -> blob_ok buf ->
  read_keys (length keys) d buf st = Some keys.
Proof.
  induction 1 as [|key keys Hk Hks IH]; intros d buf st rest Hr Hf Hb; cbn [read_keys length]; [reflexivity|].
  cbn in Hf. rewrite <- app_assoc in Hf.
  destruct (file_read_record d buf st key _ Hf Hb Hk) as (buf' & E & Hb' & Ek).
  unfold call_read_key. rewrite Hr, E. cbn [mbind option_bind Z.eqb].
  rewrite (IH (set_file _ d) buf' st rest Hr eq_refl Hb'). cbn [mbind option_bind]. now rewrite Ek.
Qed.

Lemma bytes_ok_records keys : Forall key_fits keys -> bytes_ok (concat (map record_of keys)).
Proof.
  induction 1 as [|k ks [_ Hk] Hks IH]; cbn [map concat]; [constructor|]. apply Forall_app. split; [|exact IH].
  apply Forall_app. split; [apply le_split_ok|exact Hk].
Qed.

(** C37. A file of keys is read back: [init_dataset] on a file that holds keys
    of 1 to 256 bytes gives a data set of the requested number of keys, or of
    all of them, and [build_kvs] lays exactly these keys out as consecutive
    objects with values of bytes 0xAB; the pointers it records are those of
    the objects, in the order of the file, and every access stays inside of
    its buffer as it grows. *)
Theorem dataset_file_roundtrip fopen name total keys requested v st :
  name <> NAME_RAND_VAR -> take 5 name <> NAME_RAND -> fopen name = Some (file_of total keys) ->
  Forall key_fits keys -> 0 <= requested -> 0 <= v < 2 ^ 31 ->
  1024 + 3 * (Z.of_nat (length keys) * max_object v) < 2 ^ 64 ->
  let read := take (Z.to_nat requested) keys in
  exists d d' st' mem,
    init_dataset fopen name requested = Some d /\ build_kvs fresh high_first d v st = Some (d', st') /\
    num_keys d' = Z.of_nat (length read) /\ kvs d' = Some mem /\
    kv_pointers d' = offsets 0 v read /\ Forall2 (holds_key mem v) (kv_pointers d') read.
Proof.
  intros Hn1 Hn2 Hf Hk Hreq Hv Hm read.
  assert (Hmo : 264 <= max_object v) by (unfold max_object, SIZEOF_CT_KV, MAX_KEY_SIZE; lia).
  assert (Hlen : Z.of_nat (length read) = if requested <? Z.of_nat (length keys) then requested else Z.of_nat (length keys)).
  { unfold read. rewrite length_take. zcases. }
  assert (Hle : Z.of_nat (length read) <= Z.of_nat (length keys)) by (unfold read; rewrite length_take; lia).
  set (d := mk_dataset (Z.of_nat (length read)) (wrap 64 total) None [] file_dataset 0 (concat (map record_of keys))).
  assert (Ei : init_dataset fopen name requested = Some d).
  { unfold init_dataset. rewrite decide_False by exact Hn1. rewrite decide_False by exact Hn2. rewrite Hf. cbn [mbind option_bind].
    unfold file_of. rewrite fread_app by (rewrite ?length_le_split; lia). cbn [mbind option_bind].
    rewrite fread_app by (rewrite ?length_le_split; lia). cbn [mbind option_bind].
    rewrite le_combine_split_small by (change (8 * Z.of_nat 8) with 64; nia). rewrite le_combine_split, <- Hlen. reflexivity. }
  assert (Hfits : Forall key_fits read) by now apply Forall_take.
  assert (Hfile : concat (map record_of keys) = concat (map record_of read) ++ concat (map record_of (drop (Z.to_nat requested) keys))).
  { rewrite <- concat_app, <- map_app. unfold read. now rewrite take_drop. }
  destruct (build_kvs_ok d v st) as (d' & st' & E & En & Hr).
  - constructor; [discriminate|now apply bytes_ok_records].
  - reflexivity.
  - exact Hv.
  - cbn; lia.
  - cbn [num_keys d]. nia.
  - exists d, d'. cbn [num_keys d] in Hr, En. rewrite Nat2Z.id in Hr.
    rewrite (read_keys_file read Hfits d key_buffer st _ eq_refl Hfile key_buffer_ok) in Hr.
    destruct Hr as (mem & H1 & H2 & H3). exists st', mem. split; [exact Ei|]. split; [exact E|now split].
Qed.

(** ** Keys that the data sets do not handle *)

(** An empty key in a file ends the reading: [fread] of no bytes returns 0,
    which is taken for an error. *)
Lemma empty_key_is_an_error d buf st rest :
  context_file d = record_of [] ++ rest ->
  file_dataset_read_key d buf st = Some (0, mk_blob 0 (bytes buf), rest, st).
Proof. intros Hf. unfold file_dataset_read_key. rewrite Hf. unfold record_of. rewrite <- app_assoc, fread_app by (rewrite ?length_le_split; lia). reflexivity. Qed.

(** "rand--5": the negative length passes the test of its maximum, and
    [build_kvs] copies a key of 2^64 - 5 bytes. *)
Definition NAME_NEGATIVE : list Z := NAME_RAND ++ [45; 53].

Lemma negative_length_is_accepted fopen :
  init_dataset fopen NAME_NEGATIVE 1 = Some (mk_dataset 1 0 None [] random_dataset (-5) []).
Proof. reflexivity. Qed.

Lemma negative_length_overruns v st :
  0 <= v < 2 ^ 31 ->
  build_kvs fresh high_first (mk_dataset 1 0 None [] random_dataset (-5) []) v st = None.
Proof.
  intros Hv. unfold build_kvs. cbn [kvs num_keys]. change (Z.to_nat 1) with 1%nat. cbn [read_kvs]. unfold call_read_key. cbn [read_key].
  unfold random_dataset_read_key. cbn [context_len Z.to_nat random_bytes].
  cbn [bytes].
  assert (E : write_at (malloc fresh MAX_KEY_SIZE) 0 [] = Some (malloc fresh MAX_KEY_SIZE)).
  { exact (write_at_middle [] [] _ [] 0 eq_refl eq_refl). }
  change (random_bytes (Z.to_nat (-5)) st) with (@nil Z, st). cbv iota beta. rewrite E. cbn [mbind option_bind Z.eqb blob_size]. destruct (dynamic_buffer_extend _ _ _) as [p b] eqn:Eb.
  assert (Ea : append_kv (ptr b) p (mk_blob (-5) (malloc fresh MAX_KEY_SIZE)) v = None); [|now rewrite Ea].
  unfold append_kv. cbn [blob_size bytes key_size KeyObject.value_size kv_init].
  destruct (write_at (ptr b) p _) as [m1|]; [|reflexivity]. cbn [mbind option_bind].
  destruct (write_at m1 _ _) as [m2|]; [|reflexivity]. cbn [mbind option_bind].
  assert (Er : read_at (malloc fresh MAX_KEY_SIZE) 0 (u64 (-5)) = None); [|now rewrite Er].
  unfold read_at, malloc. rewrite fresh_length. reflexivity.
Qed.

End fresh.

(** ** A concrete file *)

Definition example_keys : list (list Z) := [[104; 105]; [97; 98; 99]; [0]].
Definition example_fopen (name : list Z) : option (list Z) :=
  if decide (name = [107]) then Some (file_of 6 example_keys) else None.
Definition example_fresh (n : nat) : list Z := replicate n 0xCD.

Lemma dataset_file_roundtrip_witness :
  exists d d' st' mem,
    init_dataset example_fopen [107] 2 = Some d /\ build_kvs example_fresh true d 3 1 = Some (d', st') /\
    num_keys d' = 2 /\ kvs d' = Some mem /\ kv_pointers d' = [0; 13] /\
    Forall2 (holds_key mem 3) (kv_pointers d') [[104; 105]; [97; 98; 99]].
Proof.
  apply (dataset_file_roundtrip example_fresh (fun n => length_replicate n 0xCD) true example_fopen [107] 6 example_keys 2 3 1);
    try discriminate; try reflexivity; try lia.
  - repeat constructor; cbn; lia || discriminate.
Defined.
